(* ===== verification/_CoqProject ===== *)
-Q . S2P
Prelude.v
PQueue.v
Float64.v
OrdMap.v
TopK.v
Storage.v
DocIterator.v
OrIterator.v
AndIterator.v
AllDocIterator.v
PhraseMatch.v
PhraseIterator.v
WandIterator.v
WildcardIterator.v
QueryIter.v
OntologyRep.v
NumericRange.v
RangeLabels.v
GroupRep.v
PropIdTable.v
PropValueTable.v
SplitUstr.v
AttrTable.v
AttrCounter.v
DateFormat.v
GroupCounter.v
DateTable.v
MiningTask.v
GroupParam.v
AttrScore.v
GroupLabels.v
GroupFilter.v
SharedLock.v
GroupBuilder.v
GroupMining.v
GroupThreads.v
AttrMining.v
GroupManager.v
QueryFilter.v
QueryBuilder.v
QueryDocs.v
RequestDocs.v
NumTable.v
RTypeTable.v
Sorter.v
SearchPrepare.v
SearchThread.v
SearchResult.v
FilterCounts.v
SearchSpec.v
SearchIter.v
DistMerge.v
DistMergeSpec.v
DistPage.v
Sharding.v
Migrate.v
MigrateSpec.v
MigrateDocs.v
