(* ===== verification/Prelude.v ===== *)
(** * SF1R-Lite: a verification of the search and mining core

SF1R-Lite is a distributed search engine: a node holds collections of
documents, indexes them, and answers keyword searches with filters, sorting,
and counts by groups and attributes. This development models the parts of
[src/source/core] that decide what a search answers and what the mining tables
hold, and proves what they answer. Names of files below are relative to
[src/source/core] unless they start with [src/].

** How a search runs, and where it is modelled

A request is a query, a tree of filter conditions, a list of sort properties
and the parameters of faceted search.

- [QueryBuilder::prepare_filter] turns the conditions into a bitmap of documents
  (QueryFilter.v); [QueryBuilder::prepare_dociterator] turns the query tree of
  each property into a tree of document iterators and puts them into one scorer
  (QueryBuilder.v). SearchThreadWorker combines both, with the documents that
  were ranked by hand, into the iterator of the search (SearchIter.v).
- The iterators are the AND, OR, NOT, WAND, phrase, wildcard, term and other
  iterators of search-manager/ (DocIterator.v, OrIterator.v, AndIterator.v,
  AllDocIterator.v, PhraseMatch.v, PhraseIterator.v, WandIterator.v,
  WildcardIterator.v). QueryIter.v ties them into trees.
- SearchManagerPreProcessor makes the sorter (SearchPrepare.v, Sorter.v), which
  compares documents by the tables of their properties (NumTable.v,
  RTypeTable.v). GroupFilterBuilder makes the filter and the counters of faceted
  search (GroupBuilder.v, GroupFilter.v, GroupLabels.v, GroupCounter.v,
  AttrCounter.v, AttrScore.v, DateTable.v, NumericRange.v, RangeLabels.v), and
  notes the tables it locks (SharedLock.v).
- SearchThreadMaster divides the documents among threads, each thread reads its
  iterator and keeps its best documents in a priority queue, and the results are
  merged (SearchThread.v, with PQueue.v, TopK.v, GroupRep.v, OntologyRep.v).
  SearchResult.v and SearchSpec.v state what that gives; FilterCounts.v proves what
  they ask of a group filter.
- A master sends a search to the nodes of the collection, merges what they answer
  (SearchMerger, MergeComparator: DistMerge.v, with its theorems in
  DistMergeSpec.v) and asks the nodes for the texts of the documents of the page
  (DistPage.v).

The documents of a collection are divided into shards. ShardingStrategy finds the
shard of a key by a hash or by a map of virtual nodes, which is kept in a file
(Sharding.v). IndexTaskService adds and removes shards: a plan of the virtual
nodes that move, the files of their documents, indexing, deleting, and the new map
(Migrate.v; MigrateSpec.v for the plan, MigrateDocs.v for the documents).

The mining tables are built in the background: MultiThreadMiningTaskBuilder runs
the tasks of all properties over the new documents (MiningTask.v). A task splits
the texts of a document (SplitUstr.v, DateFormat.v) and writes ids to its table
(PropIdTable.v, PropValueTable.v, AttrTable.v, DateTable.v, Storage.v for the
files): GroupMining.v, AttrMining.v; GroupManager.v opens the tables, and
GroupThreads.v runs two threads over one table, step by step.

** Conventions

- An operation of the code is a function with the state it changes as argument
  and result, in the outcome type [res] (this file): [Ret] for a return, [Throw]
  for an exception, [Undef] for undefined behaviour (an index out of range, a
  NULL that is dereferenced, a failed assert), [NoFuel] for a loop that used up
  its iterations. The theorems say that the result is [Ret], so that they are
  also proofs of termination and of the absence of the other three.
- Loops are [while_loop], which grants [loop_fuel] = 2^80 iterations in binary: no
  measure of the program reaches it (vectors and ids are bounded by 2^32 or 2^64
  where a theorem needs it), and [while_loop_rule] asks for a decreasing measure
  below it. Trees of iterators have the operations [q_ops n] of depth [n]; a
  theorem names the depth, which is the height of the query tree and a constant.
- A uint32_t, uint64_t or docid_t is a [Z] that wraps by [u32] and [u64] where the
  code computes with it; float and double are [SpecFloat.spec_float] of 24 and
  53 bits of precision (Float64.v). std::map is a sorted association list
  (OrdMap.v) where its order is seen, and [gmap] elsewhere. A pointer to an object
  that is owned elsewhere is the index or the name of that object.
- Code that is not in the repository is an argument: the izenelib index, bitmaps,
  caches, queues and strings, Boost's conversions, files. What is relied on is
  a class of operations ([TermPositions], [QueryIndex], [RangeIndex], [Bitmap],
  [Cache], [PQueue], [LuxArray], [TextOrder], [BoostText]) and a class of its laws,
  each with an instance that is used by the witnesses.
- Components meet at classes: [DocIterator] with its laws against an abstract
  cursor ([DocNextSpec] for [next], [SkipLaw] and [StartLaw] for [skipTo],
  [DocIteratorSpec] for both), [PQueue] and [PQueueSpec], [GroupCounter],
  [GroupLabel], [MiningTask], [FilterOps] and [FilterSpec]. The clients are proved
  against the classes; the heap of PQueue.v, the iterators, the counters and the
  tasks discharge them. The laws of [FilterSpec], on testing, counting and merging,
  are proved in FilterCounts.v of the group filter with counters of string
  properties and of numeric ranges, any labels, without a limit on the groups and
  without a counter of attributes; for a filter with others they are a hypothesis.

** What the theorems show

- Searching: [SearchIter.request_answers] composes the whole path from the query
  tree and the filter to the page of results; [SearchSpec.search_answers] is its
  second half for any iterator, for every number of threads, and
  [SearchSpec.thread_ranges] the division of the documents. For the first half:
  [request_documents], [query_documents], [prepare_filter_spec] (each names the
  queries and conditions it is about) and, for the single iterators, [or_enumerates_union], [and_enumerates_intersection],
  [and_not_difference], [or_not_difference], [and_skipTo_intersection],
  [or_skipTo_union], [phrase_documents], [wildcard_documents].
- Searching several nodes: [dist_merge_best] for any order of the workers' results,
  [distributed_search] for results that are ranked by score, of which the merged
  result is that of one node with all documents, [page_round_trip] for the texts of
  the page, and [distributed_page] for both together, with the cached result.
- Sharding: [map_strategy_places] for the map, its file and the shard of a key;
  [adding_shards_keeps_documents] and [removing_shards_keeps_documents] for the whole
  operation on the master: every failure of a node, of a request or of a queue is
  a branch of it, and in each but one the saved map leads to the documents. The
  exception is a node that refuses the request for its documents:
  [refused_left_behind] shows that they are lost to the map.
- What the code gets wrong is stated as well: [or_skipTo_not_wrong] for NOT under
  [skipTo], the examples of PhraseMatch.v for repeated words,
  [second_page_empty] for pages after the first [TOP_K_NUM] results of several
  nodes, and [limit_drops_groups] for limits on groups that each thread applies to
  its own documents.
- Sorting: [sorter_lexicographic]; the tables [num_set_get], [int_table_typed],
  [float_extremes], [rtype_compare_stored].
- Faceted search: [filter_counts], [created_filter_ok], [string_counts],
  [add_counts], [getGroupRep_best], [ranges_partition], [label_selects_paths]; the
  merges of partial results [mergeStringGroup_counts], [merge_sums],
  [merge_range_tree], and [threads_count_together] for the filters of two threads.
- Mining: [group_task_indexes], [attr_task_indexes], [buildCollection_tasks],
  [threads_sequential], [threads_build_index]; the tables and their files
  [insert_attr_ok], [attr_flush_open], [flush_open] (tables that were flushed before
  and have grown since, whichever files can be written); texts and dates
  [split_roundtrip], [split_total], [date_roundtrip].

** Not modelled, and why

- The rankers' scores (ranking-manager/, product-scorer/): a scorer is a function
  from documents to numbers; the formulas use logarithms of the C library.
- [prepare_wand_dociterator] and [post_prepare_ranker_] of the query builder, the
  rank data that iterators collect ([doc_item], [df_cmtf]), boosting and printing:
  they do not change which documents are found.
- Reading requests (query-manager/QueryParser.cpp, src/source/process/): a grammar
  of boost::spirit and the JSON of the driver library. The parsed query tree is the
  input here.
- The index, document and log managers, the suffix matcher, recommendation and
  language analysis: thin layers over libraries that are not in the repository
  (the izenelib index, FM-index, SQLite, tokenizers), or their dictionaries.
- The distribution of nodes (node-manager/ without sharding/): its behaviour is that
  of ZooKeeper and of file synchronisation, neither of which is in the repository.
  What the nodes answer to a master, and what its cache holds, are arguments
  (DistPage.v); the ids over all nodes and their order are the class [WideDocId].
  In a migration what a node does is an argument as well ([Cluster] in Migrate.v),
  with indexing and deleting as functions whose laws are hypotheses; queues of
  writes and waiting for them are not modelled, the steps follow each other.
- Text summarization: vendored LINPACK, BLAS and SVD code.
- Locks that guard a whole operation: the operation is then one step. Where steps
  of threads interleave inside a task, GroupThreads.v models them. *)
From Stdlib Require Export ZArith Lia Ascii.
From stdpp Require Export functions prelude gmap list sorting strings.

#[global] Open Scope Z_scope.
#[global] Set Default Goal Selector "!".

Create HintDb sf1r.

Declare Scope sf1r_scope.
Delimit Scope sf1r_scope with sf1r.

(** ** Outcomes of a C++ operation

[Ret] is a normal return, [Throw] an exception, [Undef] undefined
behaviour (an index out of range, a null dereference, a failed assert),
[NoFuel] a loop that used up the iterations the model grants it. *)
Inductive res (A : Type) : Type :=
| Ret (a : A)
| Throw (what : string)
| Undef
| NoFuel.
Arguments Ret {_} _.
Arguments Throw {_} _.
Arguments Undef {_}.
Arguments NoFuel {_}.

Definition res_bind {A B} (m : res A) (f : A -> res B) : res B :=
  match m with
  | Ret a => f a
  | Throw w => Throw w
  | Undef => Undef
  | NoFuel => NoFuel
  end.

#[global] Instance res_fmap : FMap res := fun A B f m =>
  match m with
  | Ret a => Ret (f a)
  | Throw w => Throw w
  | Undef => Undef
  | NoFuel => NoFuel
  end.

#[global] Instance res_eq_dec `{EqDecision A} : EqDecision (res A).
Proof. solve_decision. Defined.

Definition assert_res (b : bool) : res unit := if b then Ret tt else Undef.

Notation "'let*' x := m 'in' k" := (res_bind m (fun x => k))
  (at level 10, x pattern, m at level 200, k at level 200)
  : sf1r_scope.
#[global] Open Scope sf1r_scope.

Lemma bind_Ret_inv {A B} (f : A -> res B) (m : res A) (b : B) :
  res_bind m f = Ret b -> exists a, m = Ret a /\ f a = Ret b.
Proof. destruct m; cbn; try discriminate. eauto. Qed.

(** Run the next operation of a block whose outcome is known. *)
Ltac rsimpl :=
  cbv beta iota delta [res_bind fmap res_fmap negb andb orb fst snd].

(** ** Machine integers *)

Definition u8 (z : Z) : Z := z mod 2 ^ 8.
Definition u16 (z : Z) : Z := z mod 2 ^ 16.
Definition u32 (z : Z) : Z := z mod 2 ^ 32.
Definition u64 (z : Z) : Z := z mod 2 ^ 64.

(** The signed reading of a 32-bit pattern. *)
Definition s32 (z : Z) : Z :=
  let w := u32 z in if w <? 2 ^ 31 then w else w - 2 ^ 32.

#[global] Arguments u8 : simpl never.
#[global] Arguments u16 : simpl never.
#[global] Arguments u32 : simpl never.
#[global] Arguments u64 : simpl never.
#[global] Arguments s32 : simpl never.

Lemma u8_small z : 0 <= z < 2 ^ 8 -> u8 z = z.
Proof. apply Z.mod_small. Qed.

Lemma u16_small z : 0 <= z < 2 ^ 16 -> u16 z = z.
Proof. apply Z.mod_small. Qed.

Lemma u32_small z : 0 <= z < 2 ^ 32 -> u32 z = z.
Proof. apply Z.mod_small. Qed.

Lemma u64_small z : 0 <= z < 2 ^ 64 -> u64 z = z.
Proof. apply Z.mod_small. Qed.

Lemma u32_range z : 0 <= u32 z < 2 ^ 32.
Proof. apply Z.mod_pos_bound; reflexivity. Qed.

Lemma u64_range z : 0 <= u64 z < 2 ^ 64.
Proof. apply Z.mod_pos_bound; reflexivity. Qed.

Lemma s32_small z : - 2 ^ 31 <= z < 2 ^ 31 -> s32 z = z.
Proof.
  intros H. unfold s32, u32. destruct (decide (0 <= z)) as [Hz|Hz].
  - rewrite Z.mod_small by lia. destruct (Z.ltb_spec z (2 ^ 31)); lia.
  - replace (z mod 2 ^ 32) with (z + 2 ^ 32).
    + destruct (Z.ltb_spec (z + 2 ^ 32) (2 ^ 31)); lia.
    + rewrite <- (Z.mod_small (z + 2 ^ 32) (2 ^ 32)) by lia.
      rewrite <- (Z.mod_add z 1 (2 ^ 32)) by lia. f_equal; lia.
Qed.

(** ** Vectors

[vget v i] is [v[i]] of a std::vector, undefined out of range. *)
Definition vsize {A} (v : list A) : Z := Z.of_nat (length v).

Definition vget {A} (v : list A) (i : Z) : res A :=
  if i <? 0 then Undef
  else match v !! Z.to_nat i with Some a => Ret a | None => Undef end.

Definition vset {A} (v : list A) (i : Z) (a : A) : res (list A) :=
  if (0 <=? i) && (i <? vsize v) then Ret (<[Z.to_nat i := a]> v) else Undef.

(** [v.resize(n, d)] *)
Definition vresize {A} (n : Z) (d : A) (v : list A) : list A :=
  take (Z.to_nat n) v ++ replicate (Z.to_nat n - length v) d.

#[global] Arguments vget : simpl never.
#[global] Arguments vset : simpl never.
#[global] Arguments vsize : simpl never.
#[global] Arguments vresize : simpl never.

Lemma vget_Ret {A} (v : list A) i a :
  vget v i = Ret a <-> 0 <= i /\ v !! Z.to_nat i = Some a.
Proof.
  unfold vget. destruct (Z.ltb_spec i 0).
  - split; [discriminate|lia].
  - destruct (v !! Z.to_nat i); naive_solver.
Qed.

Lemma vget_in_range {A} (v : list A) i :
  0 <= i < vsize v -> exists a, vget v i = Ret a.
Proof.
  intros H. unfold vsize in H.
  destruct (lookup_lt_is_Some_2 v (Z.to_nat i)) as [a Ha]; [lia|].
  exists a. apply vget_Ret. split; [lia|done].
Qed.

Lemma vset_Ret {A} (v : list A) i a :
  0 <= i < vsize v -> vset v i a = Ret (<[Z.to_nat i := a]> v).
Proof.
  intros H. unfold vset.
  destruct (Z.leb_spec 0 i), (Z.ltb_spec i (vsize v)); [done|lia..].
Qed.

Lemma vsize_nonneg {A} (v : list A) : 0 <= vsize v.
Proof. unfold vsize; lia. Qed.

Lemma vsize_app {A} (v w : list A) : vsize (v ++ w) = vsize v + vsize w.
Proof. unfold vsize. rewrite length_app. lia. Qed.

Lemma vsize_cons {A} (a : A) v : vsize (a :: v) = 1 + vsize v.
Proof. unfold vsize. cbn. lia. Qed.

Lemma vget_app_l {A} (l k : list A) i : 0 <= i < vsize l -> vget (l ++ k) i = vget l i.
Proof.
  intros Hi. unfold vget. destruct (Z.ltb_spec i 0); [lia|]. rewrite lookup_app_l; [done|]. unfold vsize in Hi. lia.
Qed.

Lemma vget_app_last {A} (l : list A) a : vget (l ++ [a]) (vsize l) = Ret a.
Proof.
  apply vget_Ret. split; [apply vsize_nonneg|]. apply list_lookup_middle. unfold vsize. lia.
Qed.

Lemma vget_vset {A} (l : list A) i a l' j :
  vset l i a = Ret l' -> 0 <= j -> vget l' j = if j =? i then Ret a else vget l j.
Proof.
  unfold vset. destruct ((0 <=? i) && (i <? vsize l)) eqn:E; [|done]. intros [= <-] Hj.
  apply andb_true_iff in E as [E1 E2]. apply Z.leb_le in E1. apply Z.ltb_lt in E2. unfold vsize in E2.
  unfold vget. destruct (Z.ltb_spec j 0); [lia|]. destruct (Z.eqb_spec j i) as [->|Hne].
  - by rewrite list_lookup_insert_eq by lia.
  - by rewrite list_lookup_insert_ne by lia.
Qed.

Lemma vset_vsize {A} (l : list A) i a l' : vset l i a = Ret l' -> vsize l' = vsize l.
Proof.
  unfold vset. destruct ((0 <=? i) && (i <? vsize l)); [|done]. intros [= <-]. unfold vsize.
  by rewrite length_insert.
Qed.

(** [v] holds [F 0 .. F (n - 1)]. *)
Definition vec_is {A} (n : Z) (F : Z -> A) (v : list A) : Prop :=
  vsize v = n /\ forall i, 0 <= i < n -> vget v i = Ret (F i).

Lemma vec_is_ext {A} n (F G : Z -> A) v :
  vec_is n F v -> (forall i, 0 <= i < n -> F i = G i) -> vec_is n G v.
Proof. intros [H1 H2] E. split; [done|]. intros i Hi. by rewrite H2, E. Qed.

Lemma vec_is_set {A} n (F : Z -> A) v i a :
  vec_is n F v -> 0 <= i < n ->
  exists v', vset v i a = Ret v' /\ vec_is n (fun j => if j =? i then a else F j) v'.
Proof.
  intros [<- H2] Hi. rewrite vset_Ret by done. eexists. split; [done|].
  split; [unfold vsize; by rewrite length_insert|]. intros j Hj. unfold vsize in *.
  apply vget_Ret. split; [lia|]. destruct (Z.eqb_spec j i) as [->|Hne].
  - apply list_lookup_insert_eq. lia.
  - rewrite list_lookup_insert_ne by lia. apply (vget_Ret v j), H2; done.
Qed.

Lemma vec_is_inj {A} n (F : Z -> A) v w : vec_is n F v -> vec_is n F w -> v = w.
Proof.
  intros [H1 H2] [H3 H4]. unfold vsize in *. apply list_eq. intros i.
  destruct (decide (i < length v)%nat).
  - specialize (H2 (Z.of_nat i) ltac:(lia)). specialize (H4 (Z.of_nat i) ltac:(lia)).
    apply vget_Ret in H2 as [_ H2], H4 as [_ H4]. rewrite Nat2Z.id in *. congruence.
  - rewrite !lookup_ge_None_2 by lia. done.
Qed.

Lemma vec_is_nil {A} (F : Z -> A) : vec_is 0 F [].
Proof. split; [done|]. intros i Hi. lia. Qed.

Lemma vec_is_snoc {A} n (F : Z -> A) v : vec_is n F v -> vec_is (n + 1) F (v ++ [F n]).
Proof.
  intros [H1 H2]. assert (0 <= n) by (rewrite <- H1; apply vsize_nonneg).
  split; [rewrite vsize_app, vsize_cons; unfold vsize at 2; cbn; lia|].
  intros i Hi. apply vget_Ret. split; [lia|]. destruct (decide (i = n)) as [->|].
  - apply list_lookup_middle. unfold vsize in H1. lia.
  - rewrite lookup_app_l by (unfold vsize in H1; lia). apply vget_Ret, H2. lia.
Qed.

Lemma vec_is_replicate {A} n (a : A) : 0 <= n -> vec_is n (fun _ => a) (replicate (Z.to_nat n) a).
Proof.
  intros Hn. split; [unfold vsize; rewrite length_replicate; lia|]. intros i Hi.
  apply vget_Ret. split; [lia|]. apply lookup_replicate_2. lia.
Qed.

(** The elements with their indices. *)
Definition indexed {A} (l : list A) : list (Z * A) := zip (seqZ 0 (vsize l)) l.

Lemma vsize_snoc {A} (l : list A) a : vsize (l ++ [a]) = vsize l + 1.
Proof. rewrite vsize_app. done. Qed.

Lemma indexed_snoc {A} (l : list A) a : indexed (l ++ [a]) = indexed l ++ [(vsize l, a)].
Proof.
  unfold indexed. rewrite vsize_snoc. pose proof (vsize_nonneg l). rewrite (seqZ_app 0 (vsize l) 1) by lia.
  by rewrite zip_with_app by (rewrite length_seqZ; unfold vsize; lia).
Qed.

Lemma indexed_lookup {A} (l : list A) i a : l !! i = Some a -> indexed l !! i = Some (Z.of_nat i, a).
Proof.
  intros E. pose proof (lookup_lt_Some _ _ _ E). unfold indexed. rewrite lookup_zip_with, E, lookup_seqZ_lt by (unfold vsize; lia). done.
Qed.

Lemma indexed_lookup_inv {A} (l : list A) j e : indexed l !! j = Some e -> exists a, l !! j = Some a /\ e = (Z.of_nat j, a).
Proof.
  intros E. apply lookup_zip_with_Some in E as (x & y & -> & Ex & Ey). exists y. split; [done|]. apply lookup_seqZ in Ex as [-> _]. f_equal; lia.
Qed.

(** ** Loops

[loop p body s] runs [body] until it answers [inr], at most [p] times.
The recursion is on the binary numeral, so a bound such as [2 ^ 80]
costs nothing when the loop exits early. *)
Fixpoint loop {S B : Type} (p : positive) (body : S -> res (S + B)) (s : S)
: res (S + B) :=
match p with
| xH => body s
| xO q =>
  let* r := loop q body s in
  match r with inl s1 => loop q body s1 | inr b => Ret (inr b) end
| xI q =>
  let* r := body s in
  match r with
  | inr b => Ret (inr b)
  | inl s0 =>
      let* r := loop q body s0 in
      match r with inl s1 => loop q body s1 | inr b => Ret (inr b) end
  end
end.

(** The iterations granted to every C++ loop of the development. *)
Definition loop_fuel : positive := (2 ^ 80)%positive.

Definition while_loop {S B : Type} (body : S -> res (S + B)) (s : S) : res B :=
  let* r := loop loop_fuel body s in
  match r with inr b => Ret b | inl _ => NoFuel end.

(** Total correctness of a loop: [Inv g s] relates the state to a ghost value
    (the abstract state it represents), and [mu g] decreases. *)
#[global] Arguments while_loop : simpl never.
(** Conversion leaves the loops folded: unfolding one unrolls its fuel. *)
#[global] Strategy 1000 [loop while_loop loop_fuel].

Section LoopRule.
Context {G S B : Type} (body : S -> res (S + B)).
Context (Inv : G -> S -> Prop) (mu : G -> Z) (Post : B -> Prop).
Hypothesis Hstep : forall g s, Inv g s -> 0 <= mu g /\
  ((exists g' s', body s = Ret (inl s') /\ Inv g' s' /\ mu g' < mu g) \/
   (exists b, body s = Ret (inr b) /\ Post b)).

Lemma loop_rule_aux p : forall g s, Inv g s ->
  (exists g' s', loop p body s = Ret (inl s') /\ Inv g' s' /\ mu g' + Z.pos p <= mu g) \/
  (exists b, loop p body s = Ret (inr b) /\ Post b).
Proof.
  induction p as [q IH|q IH|]; intros g s Hs; cbn [loop].
  - destruct (Hstep g s Hs) as [_ [(g0 & s0 & E0 & I0 & M0)|(b & E & P)]].
    2: { rewrite E. cbn. eauto 10. }
    rewrite E0. cbn.
    destruct (IH g0 s0 I0) as [(g1 & s1 & E1 & I1 & M1)|(b & E & P)]; cycle 1.
    { rewrite E. cbn. eauto. }
    rewrite E1. cbn.
    destruct (IH g1 s1 I1) as [(g2 & s2 & E2 & I2 & M2)|(b & E & P)]; [|by rewrite E; eauto].
    left. exists g2, s2. split_and!; [done..|]. lia.
  - destruct (IH g s Hs) as [(g1 & s1 & E1 & I1 & M1)|(b & E & P)]; cycle 1.
    { rewrite E. cbn. eauto. }
    rewrite E1. cbn.
    destruct (IH g1 s1 I1) as [(g2 & s2 & E2 & I2 & M2)|(b & E & P)]; [|by rewrite E; eauto].
    left. exists g2, s2. split_and!; [done..|]. lia.
  - destruct (Hstep g s Hs) as [_ [(g0 & s0 & E0 & I0 & M0)|(b & E & P)]]; [|eauto].
    left. exists g0, s0. split_and!; [done..|]. lia.
Qed.

Lemma while_loop_rule g s :
  Inv g s -> mu g < Z.pos loop_fuel ->
  exists b, while_loop body s = Ret b /\ Post b.
Proof.
  intros Hs Hmu. unfold while_loop.
  destruct (loop_rule_aux loop_fuel g s Hs) as [(g' & s' & E & I & M)|(b & E & P)].
  - destruct (Hstep g' s' I) as [H0 _]. lia.
  - rewrite E. cbn. eauto.
Qed.
End LoopRule.

(** Two bodies that agree on the states a loop visits. *)
Lemma while_loop_cong {S B} (Inv : S -> Prop) (body body' : S -> res (S + B)) s :
  (forall s, Inv s -> body' s = body s /\ forall s', body s = Ret (inl s') -> Inv s') ->
  Inv s -> while_loop body' s = while_loop body s.
Proof.
  intros Hstep Hs.
  assert (forall p s, Inv s -> loop p body' s = loop p body s /\
    forall s', loop p body s = Ret (inl s') -> Inv s') as H.
  { clear s Hs. induction p as [q IH|q IH|]; intros s Hs; cbn [loop]; [| |by apply Hstep].
    - destruct (Hstep s Hs) as [-> H1]. destruct (body s) as [[s1|b]| | |]; rsimpl; try done.
      destruct (IH s1 (H1 _ eq_refl)) as [-> H2].
      destruct (loop q body s1) as [[s2|b]| | |]; rsimpl; try done. by apply IH, H2.
    - destruct (IH s Hs) as [-> H1]. destruct (loop q body s) as [[s1|b]| | |]; rsimpl; try done.
      by apply IH, H1. }
  unfold while_loop. by rewrite (proj1 (H loop_fuel s Hs)).
Qed.

(** A state the body maps to itself is never left. *)
Lemma loop_stuck {S B} (body : S -> res (S + B)) s :
  body s = Ret (inl s) -> forall p, loop p body s = Ret (inl s).
Proof.
  intros H p. induction p as [q IH|q IH|]; cbn [loop]; rewrite ?H, ?IH; rsimpl; rewrite ?IH; done.
Qed.

Lemma loop_enters_stuck {S B} (body : S -> res (S + B)) s s1 :
  body s = Ret (inl s1) -> body s1 = Ret (inl s1) -> forall p, loop p body s = Ret (inl s1).
Proof.
  intros H H1 p. pose proof (loop_stuck body s1 H1) as Hs.
  induction p as [q IH|q IH|]; cbn [loop]; rewrite ?H, ?IH; rsimpl; rewrite ?Hs; rsimpl;
    rewrite ?Hs; done.
Qed.

(** Such a loop uses up any number of iterations. *)
Lemma while_loop_stuck {S B} (body : S -> res (S + B)) s s1 :
  body s = Ret (inl s1) -> body s1 = Ret (inl s1) -> while_loop body s = NoFuel.
Proof. intros H H1. unfold while_loop. by rewrite (loop_enters_stuck _ s s1). Qed.

(** A [for] loop over the elements of a list. *)
Fixpoint mfold {A S} (f : A -> S -> res S) (l : list A) (s : S) : res S :=
  match l with
  | [] => Ret s
  | a :: l => let* s := f a s in mfold f l s
  end.

Lemma mfold_app {A S} (f : A -> S -> res S) l k s :
  mfold f (l ++ k) s = (let* s := mfold f l s in mfold f k s).
Proof.
  revert s. induction l as [|a l IH]; intros s; [done|]. cbn.
  destruct (f a s); cbn; [apply IH|done..].
Qed.

(** The rule of a [for] loop: [Inv] speaks of the elements still to come. *)
Lemma mfold_rule {A S} (f : A -> S -> res S) (Inv : list A -> S -> Prop) l s :
  (forall a l s, Inv (a :: l) s -> exists s', f a s = Ret s' /\ Inv l s') ->
  Inv l s -> exists s', mfold f l s = Ret s' /\ Inv [] s'.
Proof.
  intros Hstep. revert s. induction l as [|a l IH]; intros s Hs; cbn; [eauto|].
  destruct (Hstep a l s Hs) as (s' & -> & Hs'). rsimpl. by apply IH.
Qed.

(** The same over a range of indices: [Inv i s] before turn [i]. *)
Lemma mfold_seqZ {S} (f : Z -> S -> res S) (Inv : Z -> S -> Prop) lo n s :
  0 <= n ->
  (forall i s, lo <= i < lo + n -> Inv i s -> exists s', f i s = Ret s' /\ Inv (i + 1) s') ->
  Inv lo s -> exists s', mfold f (seqZ lo n) s = Ret s' /\ Inv (lo + n) s'.
Proof.
  intros Hn. revert lo s. pattern n. apply natlike_ind; [|clear n Hn|done].
  - intros lo s _ H. rewrite seqZ_nil, Z.add_0_r by lia. by exists s.
  - intros n Hn IH lo s Hstep H. rewrite seqZ_cons, Z.pred_succ by lia. cbn.
    destruct (Hstep lo s ltac:(lia) H) as (s1 & -> & H1). rsimpl.
    destruct (IH (Z.succ lo) s1) as (s2 & E & H2); [intros i s' Hi; apply Hstep; lia|done|].
    exists s2. split; [done|]. by replace (lo + Z.succ n) with (Z.succ lo + n) by lia.
Qed.

(** A loop over the elements of a vector, each replaced by a result. *)
Fixpoint each {A B} (f : A -> res B) (l : list A) : res (list B) :=
  match l with
  | [] => Ret []
  | a :: l => let* b := f a in let* l := each f l in Ret (b :: l)
  end.

Lemma each_rule {A B C} (f : A -> res B) (R : A -> C -> Prop) (R' : B -> C -> Prop) l m :
  (forall a c, R a c -> exists b, f a = Ret b /\ R' b c) -> Forall2 R l m ->
  exists k, each f l = Ret k /\ Forall2 R' k m.
Proof.
  intros Hf. induction 1 as [|a c l m H _ IH]; [by exists []|]. cbn [each].
  destruct (Hf a c H) as (b & -> & Hb). destruct IH as (k & -> & Hk). rsimpl. eauto.
Qed.

Lemma each_Forall2 {A B} (f : A -> res B) l k : each f l = Ret k <-> Forall2 (fun a b => f a = Ret b) l k.
Proof.
  revert k. induction l as [|a l IH]; intros k; cbn [each].
  { split; [by intros [= <-]|]. by inversion 1. }
  split.
  - intros (b & Ea & (m & El & [= <-])%bind_Ret_inv)%bind_Ret_inv. constructor; [done|]. by apply IH.
  - inversion 1 as [|? ? ? m Ea El]; subst. apply IH in El. rewrite Ea. rsimpl. by rewrite El.
Qed.

(** A loop over the elements of a vector, each replaced by a result, that also
    updates a state. *)
Definition each_st {A B C} (f : A -> C -> res (B * C)) : list A -> C -> res (list B * C) :=
  fix go (l : list A) (c : C) : res (list B * C) :=
    match l with
    | [] => Ret ([], c)
    | a :: l => let* (b, c) := f a c in let* (l, c) := go l c in Ret (b :: l, c)
    end.

Lemma each_st_rule {A B C} (f : A -> C -> res (B * C)) (Inv : C -> Prop) (R : A -> B -> Prop) l c :
  Forall (fun a => forall c, Inv c -> exists b c', f a c = Ret (b, c') /\ Inv c' /\ R a b) l -> Inv c ->
  exists k c', each_st f l c = Ret (k, c') /\ Inv c' /\ Forall2 R l k.
Proof.
  intros H. revert c. induction H as [|a l Ha _ IH]; intros c Hc; [by exists [], c|]. cbn.
  destruct (Ha c Hc) as (b & c1 & -> & H1 & Hr). rsimpl. destruct (IH c1 H1) as (k & c2 & E & H2 & Hk).
  cbn in E. rewrite E. rsimpl. eexists _, c2. split; [done|]. split; [done|]. by constructor.
Qed.

(** [empty()] *)
Definition is_nil {A} (l : list A) : bool := match l with [] => true | _ => false end.

(** The number of elements a test holds on. *)
Definition count {A} (P : A -> bool) (l : list A) : Z := vsize (filter P l).

Lemma count_nil {A} (P : A -> bool) : count P [] = 0.
Proof. done. Qed.

Lemma count_cons {A} (P : A -> bool) a l : count P (a :: l) = (if P a then 1 else 0) + count P l.
Proof. unfold count. rewrite filter_cons. destruct (P a); cbn; [apply vsize_cons|done]. Qed.

Lemma count_app {A} (P : A -> bool) l k : count P (l ++ k) = count P l + count P k.
Proof. unfold count. by rewrite filter_app, vsize_app. Qed.

Lemma count_bounds {A} (P : A -> bool) l : 0 <= count P l <= vsize l.
Proof.
  unfold count, vsize. pose proof (length_filter P l). lia.
Qed.

Lemma count_ext {A} (P Q : A -> bool) l : (forall a, a ∈ l -> P a = Q a) -> count P l = count Q l.
Proof.
  induction l as [|a l IH]; intros H; [done|]. rewrite !count_cons, H by (by left).
  rewrite IH; [done|]. intros b Hb. apply H. by right.
Qed.

Lemma count_split {A} (P Q R : A -> bool) l :
  (forall a, a ∈ l -> P a = Q a || R a /\ Q a && R a = false) -> count P l = count Q l + count R l.
Proof.
  induction l as [|a l IH]; intros H; [done|]. rewrite !count_cons.
  destruct (H a ltac:(by left)) as [-> H2]. rewrite IH by (intros; apply H; by right).
  destruct (Q a), (R a); cbn in *; done || lia.
Qed.

Lemma count_le {A} (P Q : A -> bool) l :
  (forall a, a ∈ l -> P a = true -> Q a = true) -> count P l <= count Q l.
Proof.
  induction l as [|a l IH]; intros H; [done|]. rewrite !count_cons.
  specialize (IH ltac:(intros; apply H; [by right|done])). specialize (H a ltac:(by left)).
  destruct (P a), (Q a); lia || by specialize (H eq_refl).
Qed.

Lemma count_none {A} (P : A -> bool) l : (forall a, a ∈ l -> P a = false) -> count P l = 0.
Proof.
  induction l as [|a l IH]; intros H; [done|]. rewrite count_cons, H by (by left).
  apply IH. intros b Hb. apply H. by right.
Qed.

Lemma count_all {A} (P : A -> bool) l : (forall a, a ∈ l -> P a = true) -> count P l = vsize l.
Proof.
  induction l as [|a l IH]; intros H; [done|]. rewrite count_cons, vsize_cons, H by (by left).
  f_equal. apply IH. intros b Hb. apply H. by right.
Qed.

Lemma count_perm {A} (P : A -> bool) l k : l ≡ₚ k -> count P l = count P k.
Proof. intros H. unfold count, vsize. by rewrite H. Qed.

Lemma u32_add_l a b : u32 (u32 a + b) = u32 (a + b).
Proof. apply Zplus_mod_idemp_l. Qed.

Lemma u32_add_r a b : u32 (a + u32 b) = u32 (a + b).
Proof. apply Zplus_mod_idemp_r. Qed.

Lemma StronglySorted_rev {A} (R : A -> A -> Prop) l :
  StronglySorted R l -> StronglySorted (fun a b => R b a) (rev l).
Proof.
  induction 1 as [|a l Hl IH Ha]; cbn; [constructor|].
  apply StronglySorted_app. split_and!; [|done|repeat constructor].
  rewrite Forall_forall in Ha. intros x y Hx ->%list_elem_of_singleton. apply Ha.
  by rewrite (Permutation_rev l).
Qed.

Lemma filter_all {A} (P : A -> Prop) `{!forall x, Decision (P x)} (l : list A) :
  (forall x, x ∈ l -> P x) -> filter P l = l.
Proof.
  induction l as [|a l IH]; intros Ha; [done|].
  rewrite filter_cons_True by (apply Ha; by left).
  f_equal. apply IH. intros x Hx. apply Ha. by right.
Qed.

Lemma filter_ext_in {A} (P1 P2 : A -> Prop) `{!forall x, Decision (P1 x), !forall x, Decision (P2 x)} (l : list A) :
  (forall x, x ∈ l -> P1 x <-> P2 x) -> filter P1 l = filter P2 l.
Proof.
  induction l as [|a l IH]; intros Heq; [done|].
  pose proof (Heq a ltac:(by left)) as Ha. rewrite !filter_cons.
  rewrite IH by (intros; apply Heq; by right).
  destruct (decide (P1 a)), (decide (P2 a)); tauto.
Qed.

(** ** Strictly sorted lists of document ids *)

Notation ssorted := (StronglySorted Z.lt).

Lemma ssorted_head_lt d p x : ssorted (d :: p) -> x ∈ p -> d < x.
Proof.
  intros H Hx. apply StronglySorted_inv in H as [_ H].
  rewrite Forall_forall in H. by apply H.
Qed.

Lemma ssorted_head_le d p x : ssorted (d :: p) -> x ∈ d :: p -> d <= x.
Proof.
  intros H [->|Hx]%elem_of_cons; [lia|].
  pose proof (ssorted_head_lt _ _ _ H Hx). lia.
Qed.

Lemma ssorted_tail p : ssorted p -> ssorted (tail p).
Proof. destruct p; [done|]. intros H. by apply StronglySorted_inv in H as [? _]. Qed.

Lemma ssorted_filter (P : Z -> Prop) `{!forall x, Decision (P x)} p :
  ssorted p -> ssorted (filter P p).
Proof.
  induction 1 as [|x p Hs IH Hx]; [constructor|].
  rewrite filter_cons. case_decide; [|done].
  constructor; [done|]. rewrite Forall_forall in Hx |- *.
  intros y [_ Hy]%list_elem_of_filter. auto.
Qed.

Lemma ssorted_elem_tail p x :
  ssorted p -> x ∈ tail p <-> x ∈ p /\ (forall h, head p = Some h -> h < x).
Proof.
  destruct p as [|d p]; cbn; intros H.
  - split; [by intros ?%elem_of_nil|by intros [? _]].
  - rewrite elem_of_cons. split.
    + intros Hx. split; [by right|]. intros h [= <-]. by eapply ssorted_head_lt.
    + intros [[->|Hx] Hh]; [|done]. specialize (Hh d eq_refl). lia.
Qed.

(** Two strictly sorted lists with the same elements are equal. *)
Lemma ssorted_ext p q :
  ssorted p -> ssorted q -> (forall x, x ∈ p <-> x ∈ q) -> p = q.
Proof.
  intros Hp. revert q. induction Hp as [|x p Hp IH Hx]; intros q Hq E.
  - destruct q as [|y q]; [done|]. exfalso.
    specialize (E y). set_solver.
  - destruct q as [|y q]; [exfalso; specialize (E x); set_solver|].
    rewrite Forall_forall in Hx.
    assert (x = y) as ->.
    { pose proof (proj1 (E x) ltac:(by left)) as [->|H1]%elem_of_cons; [done|].
      pose proof (proj2 (E y) ltac:(by left)) as [->|H2]%elem_of_cons; [done|].
      pose proof (ssorted_head_lt y q x Hq H1). specialize (Hx y H2). lia. }
    f_equal. apply IH; [by apply StronglySorted_inv in Hq as [? _]|].
    intros z. specialize (E z). rewrite !elem_of_cons in E.
    split; intros Hz.
    + destruct E as [E _]. destruct (E (or_intror Hz)) as [->|?]; [|done]. specialize (Hx y Hz). lia.
    + destruct E as [_ E]. destruct (E (or_intror Hz)) as [->|?]; [|done].
      pose proof (ssorted_head_lt y q y Hq Hz). lia.
Qed.

Lemma ssorted_length p lo hi :
  ssorted p -> (forall x, x ∈ p -> lo <= x < hi) -> lo <= hi -> vsize p <= hi - lo.
Proof.
  intros Hp. revert lo. induction Hp as [|x p Hp IH Hx]; intros lo Hb Hlh.
  - unfold vsize; cbn; lia.
  - rewrite vsize_cons. rewrite Forall_forall in Hx.
    assert (lo <= x < hi) by (apply Hb; by left).
    enough (vsize p <= hi - (x + 1)) by lia. apply IH; [|lia].
    intros y Hy. specialize (Hx y Hy). specialize (Hb y ltac:(by right)). lia.
Qed.

(** Any list has a strictly sorted list with the same elements. *)
Fixpoint sinsert (x : Z) (l : list Z) : list Z :=
  match l with
  | [] => [x]
  | y :: l' => if x <? y then x :: l else if x =? y then l else y :: sinsert x l'
  end.

Lemma sinsert_elem x y l : y ∈ sinsert x l <-> y = x \/ y ∈ l.
Proof.
  induction l as [|z l IH]; cbn; [rewrite list_elem_of_singleton, elem_of_nil; tauto|].
  destruct (Z.ltb_spec x z); [by rewrite elem_of_cons|].
  destruct (Z.eqb_spec x z) as [->|]; [set_solver|]. rewrite !elem_of_cons, IH. tauto.
Qed.

Lemma sinsert_sorted x l : ssorted l -> ssorted (sinsert x l).
Proof.
  induction 1 as [|z l Hs IH Hz]; cbn; [repeat constructor|].
  destruct (Z.ltb_spec x z).
  - repeat constructor; try done. eapply Forall_impl; [done|]. cbn. lia.
  - destruct (Z.eqb_spec x z) as [->|]; constructor; try done.
    rewrite Forall_forall in Hz |- *. intros y [->|Hy]%sinsert_elem; [lia|by apply Hz].
Qed.

Definition ssort (l : list Z) : list Z := foldr sinsert [] l.

Lemma ssort_sorted l : ssorted (ssort l).
Proof. induction l; cbn; [constructor|by apply sinsert_sorted]. Qed.

Lemma ssort_elem l x : x ∈ ssort l <-> x ∈ l.
Proof.
  induction l as [|y l IH]; cbn; [done|]. by rewrite sinsert_elem, IH, elem_of_cons.
Qed.

Lemma ssorted_seqZ lo n : ssorted (seqZ lo n).
Proof.
  destruct (decide (0 <= n)); [|rewrite seqZ_nil by lia; constructor].
  revert lo. pattern n. apply natlike_ind; [|clear n l|done].
  - intros lo. rewrite seqZ_nil by lia. constructor.
  - intros n Hn IH lo. rewrite seqZ_cons by lia. rewrite Z.pred_succ.
    constructor; [apply IH|]. rewrite Forall_forall. intros x Hx%elem_of_seqZ. lia.
Qed.

(** ** Functions of the documents *)

(** [g] with the value [a] at [d], and with [new] on [lo..hi]. *)
Definition fset {A} (d : Z) (a : A) (g : Z -> A) (k : Z) : A := if k =? d then a else g k.
Definition frange {A} (lo hi : Z) (new g : Z -> A) (d : Z) : A := if (lo <=? d) && (d <=? hi) then new d else g d.

Lemma frange_in {A} lo hi (new g : Z -> A) d : lo <= d <= hi -> frange lo hi new g d = new d.
Proof. intros H. unfold frange. by rewrite !(proj2 (Z.leb_le _ _)) by lia. Qed.

Lemma frange_out {A} lo hi (new g : Z -> A) d : ~ lo <= d <= hi -> frange lo hi new g d = g d.
Proof. intros H. unfold frange. destruct (Z.leb_spec lo d), (Z.leb_spec d hi); cbn; lia || done. Qed.

Lemma frange_snoc {A} lo i (new g : Z -> A) d : lo <= i -> fset i (new i) (frange lo (i - 1) new g) d = frange lo i new g d.
Proof.
  intros H. unfold fset. destruct (Z.eqb_spec d i) as [->|Hne]; [by rewrite frange_in|].
  destruct (decide (lo <= d <= i)); [rewrite !frange_in by lia|rewrite !frange_out by lia]; done.
Qed.

(** ** Strings *)

(** Upper case in the classic locale. *)
Definition toupper (c : ascii) : ascii :=
  let n := Z.of_nat (nat_of_ascii c) in
  if (97 <=? n) && (n <=? 122) then ascii_of_nat (Z.to_nat (n - 32)) else c.
Fixpoint upper (s : string) : string := match s with EmptyString => EmptyString | String c s => String (toupper c) (upper s) end.
