(* ===== verification/PQueue.v ===== *)
(** * Priority queues

Models search-manager/PriorityQueue.h: the binary heap of the search
manager ([upHeap], [downHeap], [put], [insert], [top], [pop],
[adjustTop], [getAt]).  The heap lives in [heap_[1..size_]] and the slot 0 is
unused, as in the code.  The same operations are the interface [PQueue]
the iterators and the hit queues are proved against; its laws speak of the
multiset of the stored elements, and the heap discharges them. *)
From S2P Require Import Prelude.

(** A strict weak order, given as the boolean [lessThan] of the code. *)
Class StrictWeak {A} (lt : A -> A -> bool) : Prop := {
  sw_irrefl : forall a, lt a a = false;
  sw_trans : forall a b c, lt a b = true -> lt b c = true -> lt a c = true;
  sw_incomp : forall a b c, lt b a = false -> lt c b = false -> lt c a = false
}.

Lemma sw_asym {A} (lt : A -> A -> bool) `{!StrictWeak lt} a b :
  lt a b = true -> lt b a = false.
Proof.
  intros H. destruct (lt b a) eqn:E; [|done].
  pose proof (sw_trans _ _ _ H E) as H2. by rewrite sw_irrefl in H2.
Qed.

(** An order by a key in Z. *)
#[export] Instance StrictWeak_key {A} (key : A -> Z) : StrictWeak (fun a b => key a <? key b).
Proof. split; intros; lia. Qed.

(** The order of the images under a function, the converse of an order, and the
    lexicographic order of two. *)
Lemma on_weak {A B} (f : A -> B) (lt : B -> B -> bool) : StrictWeak lt -> StrictWeak (fun a b => lt (f a) (f b)).
Proof.
  intros H. split; [intros a; apply sw_irrefl|intros a b c; apply sw_trans|intros a b c; apply sw_incomp].
Qed.

Lemma flip_weak {A} (lt : A -> A -> bool) : StrictWeak lt -> StrictWeak (fun a b => lt b a).
Proof.
  intros H. split; [intros a; apply sw_irrefl|intros a b c H1 H2; by apply (sw_trans c b a)|intros a b c H1 H2; by apply (sw_incomp c b a)].
Qed.

Lemma lex_weak {A} (lt lt' : A -> A -> bool) :
  StrictWeak lt -> StrictWeak lt' -> StrictWeak (fun a b => lt a b || (negb (lt b a) && lt' a b)).
Proof.
  intros H H'. split; intros a; [|intros b c..].
  - by rewrite !sw_irrefl.
  - intros H1 H2. destruct (lt a b) eqn:E1, (lt b c) eqn:E2; cbn in H1, H2.
    + by rewrite (sw_trans _ _ _ E1 E2).
    + apply andb_prop in H2 as [H2%negb_true_iff _]. destruct (lt a c) eqn:E; [done|].
      by rewrite (sw_incomp b c a) in E1.
    + apply andb_prop in H1 as [H1%negb_true_iff _]. destruct (lt a c) eqn:E; [done|].
      by rewrite (sw_incomp c a b) in E2.
    + apply andb_prop in H1 as [H1%negb_true_iff H1'], H2 as [H2%negb_true_iff H2'].
      rewrite (sw_incomp a b c), (sw_trans _ _ _ H1' H2') by done. apply orb_true_r.
  - intros H1%orb_false_iff H2%orb_false_iff. destruct H1 as [H1 H1'], H2 as [H2 H2'].
    rewrite (sw_incomp a b c) by done. cbn. apply andb_false_iff. destruct (lt a c) eqn:E; [by left|]. right.
    rewrite (sw_incomp b c a) in H1' by done. rewrite (sw_incomp c a b) in H2' by done. by apply (sw_incomp a b c).
Qed.

(** [a] is a least element of [l]. *)
Definition is_min {A} (lt : A -> A -> bool) (a : A) (l : list A) : Prop :=
  forall b, b ∈ l -> lt b a = false.

(** ** The interface

[pq_rep lt max q l]: [q], of capacity [max], is in order for [lt] and
stores the elements [l] in some order. *)
Class PQueue (Q A : Type) := {
pq_new : Z -> Q;
pq_put : (A -> A -> bool) -> A -> Q -> res Q;
pq_insert : (A -> A -> bool) -> A -> Q -> res (bool * Q);
pq_top : Q -> res A;
pq_pop : (A -> A -> bool) -> Q -> res (A * Q);
pq_adjustTop : (A -> A -> bool) -> Q -> res Q;
pq_size : Q -> Z;
pq_getAt : Q -> Z -> res A
}.

Class PQueueSpec (Q A : Type) `{!PQueue Q A} := {
  pq_rep : (A -> A -> bool) -> Z -> Q -> list A -> Prop;
  pq_rep_perm : forall lt m q l l', pq_rep lt m q l -> l ≡ₚ l' -> pq_rep lt m q l';
  pq_new_spec : forall lt m, 0 <= m < 2 ^ 31 -> pq_rep lt m (pq_new m) [];
  pq_size_spec : forall lt m q l, pq_rep lt m q l -> pq_size q = vsize l;
  pq_rep_size : forall lt m q l, pq_rep lt m q l -> vsize l <= m < 2 ^ 31;
  pq_put_spec : forall lt m q l a, StrictWeak lt -> pq_rep lt m q l -> vsize l < m ->
    exists q', pq_put lt a q = Ret q' /\ pq_rep lt m q' (a :: l);
  pq_top_spec : forall lt m q l, StrictWeak lt -> pq_rep lt m q l -> l <> [] ->
    exists a l', pq_top q = Ret a /\ l ≡ₚ a :: l' /\ is_min lt a l;
  pq_rep_agree : forall lt lt' m q l, pq_rep lt m q l ->
    (forall x y, x ∈ l -> y ∈ l -> lt' x y = lt x y) -> pq_rep lt' m q l;
  pq_cong : forall lt lt' m q l a, pq_rep lt m q l ->
    (forall x y, x ∈ a :: l -> y ∈ a :: l -> lt' x y = lt x y) ->
    pq_put lt' a q = pq_put lt a q /\ pq_insert lt' a q = pq_insert lt a q;
  pq_pop_cong : forall lt lt' m q l, pq_rep lt m q l ->
    (forall x y, x ∈ l -> y ∈ l -> lt' x y = lt x y) -> pq_pop lt' q = pq_pop lt q;
  pq_pop_spec : forall lt m q l, StrictWeak lt -> pq_rep lt m q l -> l <> [] ->
    exists a l', pq_top q = Ret a /\ l ≡ₚ a :: l' /\ is_min lt a l /\
      forall lt', StrictWeak lt' -> (forall x y, x ∈ l' -> y ∈ l' -> lt' x y = lt x y) ->
      exists q', pq_pop lt' q = Ret (a, q') /\ pq_rep lt' m q' l';
  pq_insert_spec : forall lt m q l a, StrictWeak lt -> pq_rep lt m q l ->
    (vsize l < m -> exists q', pq_insert lt a q = Ret (true, q') /\ pq_rep lt m q' (a :: l)) /\
    (forall top l', vsize l = m -> l ≡ₚ top :: l' -> pq_top q = Ret top ->
       if lt a top then pq_insert lt a q = Ret (false, q)
       else exists q', pq_insert lt a q = Ret (true, q') /\ pq_rep lt m q' (a :: l')) /\
    (m = 0 -> pq_insert lt a q = Ret (false, q));
  pq_adjustTop_spec : forall lt lt' m q a l, StrictWeak lt -> StrictWeak lt' ->
    pq_rep lt m q (a :: l) -> pq_top q = Ret a -> a ∉ l ->
    (forall x y, x ∈ l -> y ∈ l -> lt' x y = lt x y) ->
    exists q', pq_adjustTop lt' q = Ret q' /\ pq_rep lt' m q' (a :: l);
  pq_getAt_spec : forall lt m q l, pq_rep lt m q l ->
    exists l', l ≡ₚ l' /\ forall i, 0 <= i < pq_size q -> pq_getAt q i = vget l' i
}.

(** ** The heap of PriorityQueue.h *)
Record heap (A : Type) := Heap { heap_ : list A; size_ : Z; maxSize_ : Z }.
Arguments Heap {_} _ _ _.
Arguments heap_ {_} _.
Arguments size_ {_} _.
Arguments maxSize_ {_} _.

Section HeapOps.
Context {A : Type} `{!Inhabited A} (lessThan : A -> A -> bool).

Definition initialize (maxSize : Z) : heap A :=
  Heap (replicate (Z.to_nat (maxSize + 1)) inhabitant) 0 maxSize.

(** One turn of the loop of [upHeap]; the state is [heap_], [i], [j]. *)
Definition upHeap_body (node : A) (st : list A * Z * Z) : res (list A * Z * Z + list A * Z) :=
  let '(h, i, j) := st in
  if 0 <? j then
    let* hj := vget h j in
    if lessThan node hj then
      let* h := vset h i hj in
      Ret (inl (h, j, s32 (Z.shiftr (u32 j) 1)))
    else Ret (inr (h, i))
  else Ret (inr (h, i)).

Definition upHeap (q : heap A) : res (heap A) :=
  let i := size_ q in
  let* node := vget (heap_ q) i in
  let* (h, i) := while_loop (upHeap_body node) (heap_ q, i, s32 (Z.shiftr (u32 i) 1)) in
  let* h := vset h i node in
  Ret (Heap h (size_ q) (maxSize_ q)).

(** [j]: the lesser of the children of [i], its left child when it has none. *)
Definition smaller_child (h : list A) (size i : Z) : res Z :=
  let j := u64 (Z.shiftl i 1) in
  let k := u64 (j + 1) in
  if k <=? size then
    let* hk := vget h k in
    let* hj := vget h j in
    Ret (if lessThan hk hj then k else j)
  else Ret j.

Definition downHeap_body (size : Z) (node : A) (st : list A * Z * Z)
  : res (list A * Z * Z + list A * Z) :=
  let '(h, i, j) := st in
  if j <=? size then
    let* hj := vget h j in
    if lessThan hj node then
      let* h := vset h i hj in
      let* j' := smaller_child h size j in
      Ret (inl (h, j, j'))
    else Ret (inr (h, i))
  else Ret (inr (h, i)).

Definition downHeap (q : heap A) : res (heap A) :=
  let* node := vget (heap_ q) 1 in
  let* j := smaller_child (heap_ q) (size_ q) 1 in
  let* (h, i) := while_loop (downHeap_body (size_ q) node) (heap_ q, 1, j) in
  let* h := vset h i node in
  Ret (Heap h (size_ q) (maxSize_ q)).

Definition put (element : A) (q : heap A) : res (heap A) :=
  let size := u64 (size_ q + 1) in
  let* h := vset (heap_ q) size element in
  upHeap (Heap h size (maxSize_ q)).

Definition top (q : heap A) : res A :=
  if 0 <? size_ q then vget (heap_ q) 1 else Ret inhabitant.

Definition adjustTop (q : heap A) : res (heap A) := downHeap q.

Definition insert (element : A) (q : heap A) : res (bool * heap A) :=
  if size_ q <? maxSize_ q then
    let* q := put element q in Ret (true, q)
  else if 0 <? size_ q then
    let* t := top q in
    if negb (lessThan element t) then
      let* h := vset (heap_ q) 1 element in
      let* q := adjustTop (Heap h (size_ q) (maxSize_ q)) in
      Ret (true, q)
    else Ret (false, q)
  else Ret (false, q).

(** [(Type)0] and [Type()] are the default element. *)
Definition pop (q : heap A) : res (A * heap A) :=
  if 0 <? size_ q then
    let* result := vget (heap_ q) 1 in
    let* last := vget (heap_ q) (size_ q) in
    let* h := vset (heap_ q) 1 last in
    let* h := vset h (size_ q) inhabitant in
    let* q := downHeap (Heap h (size_ q - 1) (maxSize_ q)) in
    Ret (result, q)
  else Ret (inhabitant, q).

Definition getAt (q : heap A) (_pos : Z) : res A := vget (heap_ q) (u64 (_pos + 1)).
End HeapOps.

#[export] Instance heap_PQueue {A} `{!Inhabited A} : PQueue (heap A) A := {
  pq_new := initialize;
  pq_put := put;
  pq_insert := insert;
  pq_top := top;
  pq_pop := pop;
  pq_adjustTop := adjustTop;
  pq_size := size_;
  pq_getAt := getAt
}.

Example heap_sort3 :
  (let lt := Z.ltb in
   let* q := put lt 5 (initialize 4) in
   let* q := put lt 3 q in
   let* q := put lt 8 q in
   let* q := put lt 1 q in
   let* (b, q) := insert lt 6 q in
   let* (a, q) := pop lt q in
   let* (a2, q) := pop lt q in
   let* (a3, q) := pop lt q in
   let* (a4, q) := pop lt q in
   Ret (b, [a; a2; a3; a4], size_ q)) = Ret (true, [3; 5; 6; 8], 0).
Proof. vm_compute. reflexivity. Qed.

(** ** The heap order *)
(* [lia] splits the divisions by two of the heap positions. *)
#[local] Ltac Zify.zify_post_hook ::= Z.to_euclidean_division_equations.

Section HeapProofs.
Context {A : Type} `{!Inhabited A}.
Implicit Types (h : list A) (lt : A -> A -> bool).

(** The slot [i], for any [i]. *)
Definition slot h (i : Z) : A := nth (Z.to_nat i) h inhabitant.

#[local] Arguments slot : simpl never.

Lemma slot_lookup h i : 0 <= i < vsize h -> h !! Z.to_nat i = Some (slot h i).
Proof.
  intros H. unfold slot, vsize in *.
  destruct (nth_lookup_or_length h (Z.to_nat i) inhabitant); [done|lia].
Qed.

Lemma slot_vget h i : 0 <= i < vsize h -> vget h i = Ret (slot h i).
Proof.
  intros H. apply vget_Ret. split; [lia|]. by apply slot_lookup.
Qed.

Lemma slot_insert h i a k :
  0 <= i < vsize h -> 0 <= k ->
  slot (<[Z.to_nat i := a]> h) k = if decide (k = i) then a else slot h k.
Proof.
  intros Hi Hk. unfold slot, vsize in *. rewrite !nth_lookup.
  case_decide as E.
  - subst. by rewrite list_lookup_insert_eq by lia.
  - by rewrite list_lookup_insert_ne by lia.
Qed.

Lemma vsize_insert h n a : vsize (<[n := a]> h) = vsize h.
Proof. unfold vsize. by rewrite length_insert. Qed.

(** The stored elements. *)
Definition elems h (n : Z) : list A := take (Z.to_nat n) (drop 1 h).

Definition heap_ok lt h (n : Z) : Prop :=
  forall j, 2 <= j <= n -> lt (slot h j) (slot h (j / 2)) = false.

(** Every pair is in order but those of the hole [i]. *)
Definition hole_ok lt h (n i : Z) : Prop :=
  (forall j, 2 <= j <= n -> j <> i -> j / 2 <> i -> lt (slot h j) (slot h (j / 2)) = false) /\
  (forall c, 2 <= c <= n -> c / 2 = i -> 2 <= i -> lt (slot h c) (slot h (i / 2)) = false).

#[local] Arguments elems : simpl never.

Lemma elems_insert_perm h n i (a : A) :
  1 <= i <= n -> n < vsize h ->
  slot h i :: elems (<[Z.to_nat i := a]> h) n ≡ₚ a :: elems h n.
Proof.
  intros Hi Hn. unfold elems, vsize in *.
  assert (drop 1 (<[Z.to_nat i:=a]> h) = <[Z.to_nat (i - 1) := a]> (drop 1 h)) as ->.
  { replace (Z.to_nat i) with (1 + Z.to_nat (i - 1))%nat by lia. destruct h; done. }
  rewrite take_insert by lia. rewrite decide_True by lia.
  set (l := take _ _).
  assert (l !! Z.to_nat (i - 1) = Some (slot h i)) as E.
  { unfold l. rewrite lookup_take_lt by lia. rewrite lookup_drop.
    replace (1 + Z.to_nat (i - 1))%nat with (Z.to_nat i) by lia.
    apply slot_lookup. unfold vsize. lia. }
  rewrite insert_take_drop by (by eapply lookup_lt_Some).
  pose proof (take_drop_middle _ _ _ E) as E2.
  transitivity (a :: (take (Z.to_nat (i - 1)) l ++ slot h i :: drop (S (Z.to_nat (i - 1))) l)).
  - rewrite <- !Permutation_middle. apply perm_swap.
  - by rewrite E2.
Qed.

(** Moving the hole from [i] to [j] keeps the elements. *)
Lemma elems_move_perm h n i j (node : A) :
  1 <= i <= n -> 1 <= j <= n -> i <> j -> n < vsize h ->
  elems (<[Z.to_nat j := node]> (<[Z.to_nat i := slot h j]> h)) n
  ≡ₚ elems (<[Z.to_nat i := node]> h) n.
Proof.
  intros Hi Hj Hij Hn.
  pose proof (elems_insert_perm h n i node Hi Hn) as P1.
  pose proof (elems_insert_perm h n i (slot h j) Hi Hn) as P2.
  pose proof (elems_insert_perm (<[Z.to_nat i := slot h j]> h) n j node Hj) as P3.
  rewrite vsize_insert in P3. specialize (P3 Hn).
  rewrite slot_insert in P3 by lia. rewrite decide_False in P3 by lia.
  apply (Permutation_cons_inv (a := slot h j)). rewrite P3.
  apply (Permutation_cons_inv (a := slot h i)).
  rewrite perm_swap, P2. rewrite perm_swap. rewrite (perm_swap (slot h j) (slot h i)).
  constructor. by rewrite P1.
Qed.

(** *** [upHeap] *)
Section UpHeap.
Context (lt : A -> A -> bool) `{!StrictWeak lt} (h0 : list A) (n : Z) (node : A).
Hypothesis Hn : n < vsize h0 /\ n < 2 ^ 31.

Definition up_inv (i : Z) (st : list A * Z * Z) : Prop :=
  let '(h, i', j) := st in
  i' = i /\ j = i / 2 /\ 1 <= i <= n /\ vsize h = vsize h0 /\
  hole_ok lt h n i /\
  (forall c, 2 <= c <= n -> c / 2 = i -> lt (slot h c) node = false) /\
  elems (<[Z.to_nat i := node]> h) n ≡ₚ elems h0 n.

Definition up_post (r : list A * Z) : Prop :=
  let '(h, i) := r in
  1 <= i <= n /\ vsize h = vsize h0 /\
  heap_ok lt (<[Z.to_nat i := node]> h) n /\
  elems (<[Z.to_nat i := node]> h) n ≡ₚ elems h0 n.

Lemma up_exit i h :
  up_inv i (h, i, i / 2) ->
  (i = 1 \/ lt node (slot h (i / 2)) = false) -> up_post (h, i).
Proof.
  intros (_ & _ & Hi & Hl & [Ho Hg] & Hc & Hp) Hx. split_and!; [lia..| |done].
  intros j Hj. rewrite !slot_insert by lia.
  do 2 case_decide; subst.
  - lia.
  - destruct Hx; [lia|done].
  - by apply Hc.
  - by apply Ho.
Qed.

Lemma up_step i st : up_inv i st ->
  0 <= i /\
  ((exists i' st', upHeap_body lt node st = Ret (inl st') /\ up_inv i' st' /\ i' < i) \/
   (exists r, upHeap_body lt node st = Ret (inr r) /\ up_post r)).
Proof.
  destruct st as [[h i'] j]. intros Hinv.
  pose proof Hinv as (-> & -> & Hi & Hl & [Ho Hg] & Hc & Hp).
  split; [lia|]. unfold upHeap_body.
  destruct (Z.ltb_spec 0 (i / 2)); cbn.
  2: { right. eexists. split; [done|]. apply up_exit; [done|]. left. lia. }
  rewrite slot_vget by lia. cbn.
  destruct (lt node (slot h (i / 2))) eqn:E.
  2: { right. eexists. split; [done|]. apply up_exit; [done|]. by right. }
  left. rewrite vset_Ret by lia. cbn. eexists (i / 2), _. split; [done|].
  split; [|lia]. split_and!; [done| |lia|lia|by rewrite vsize_insert| | |].
  - rewrite u32_small by lia. rewrite Z.shiftr_div_pow2 by lia. apply s32_small. lia.
  - split.
    + intros k Hk Hk1 Hk2. rewrite !slot_insert by lia.
      do 2 case_decide; subst; try lia; [|by apply Ho]. apply Hg; lia.
    + intros c Hc1 Hc2 Hc3. rewrite !slot_insert by lia.
      rewrite (decide_False (P := i / 2 / 2 = i)) by lia.
      assert (lt (slot h (i / 2)) (slot h (i / 2 / 2)) = false) by (apply Ho; lia).
      case_decide; [done|]. eapply sw_incomp; [done|].
      rewrite <- Hc2. apply Ho; lia.
  - intros c Hc1 Hc2. rewrite !slot_insert by lia.
    case_decide; [by apply sw_asym|].
    eapply sw_incomp; [by apply sw_asym|]. rewrite <- Hc2. apply Ho; lia.
  - rewrite elems_move_perm by lia. done.
Qed.
End UpHeap.

(** *** [downHeap] *)
Section DownHeap.
Context (lt : A -> A -> bool) `{!StrictWeak lt} (h0 : list A) (n : Z) (node : A).
Hypothesis Hn : 0 <= n < 2 ^ 31 /\ Z.max n 1 < vsize h0.

(** [j] is the child of [i] the loop looks at. *)
Definition child_ok (h : list A) (i j : Z) : Prop :=
  j / 2 = i /\ (j <= n -> forall c, 2 <= c <= n -> c / 2 = i -> lt (slot h c) (slot h j) = false)
  /\ (n < j -> forall c, 2 <= c <= n -> c / 2 <> i).

Definition down_inv (i : Z) (st : list A * Z * Z) : Prop :=
  let '(h, i', j) := st in
  i' = i /\ 1 <= i <= Z.max n 1 /\ vsize h = vsize h0 /\ child_ok h i j /\
  hole_ok lt h n i /\
  (2 <= i -> lt node (slot h (i / 2)) = false) /\
  elems (<[Z.to_nat i := node]> h) n ≡ₚ elems h0 n.

Definition down_post (r : list A * Z) : Prop :=
  let '(h, i) := r in
  1 <= i <= Z.max n 1 /\ vsize h = vsize h0 /\
  heap_ok lt (<[Z.to_nat i := node]> h) n /\
  elems (<[Z.to_nat i := node]> h) n ≡ₚ elems h0 n.

Lemma smaller_child_ok h i :
  1 <= i <= Z.max n 1 -> vsize h = vsize h0 ->
  exists j, smaller_child lt h n i = Ret j /\ child_ok h i j /\ 2 * i <= j.
Proof.
  intros Hi Hl. unfold smaller_child.
  rewrite Z.shiftl_mul_pow2, !u64_small by (rewrite ?u64_small by lia; lia).
  replace (i * 2 ^ 1) with (2 * i) by lia.
  destruct (Z.leb_spec (2 * i + 1) n).
  - rewrite !slot_vget by lia. cbn.
    destruct (lt (slot h (2 * i + 1)) (slot h (2 * i))) eqn:E;
      (eexists; split; [done|]; split; [|lia]); split_and!; try lia.
    + intros _ c Hc1 Hc2. assert (c = 2 * i \/ c = 2 * i + 1) as [->| ->] by lia.
      * by apply sw_asym.
      * by apply sw_irrefl.
    + intros _ c Hc1 Hc2. assert (c = 2 * i \/ c = 2 * i + 1) as [->| ->] by lia; [|done].
      by apply sw_irrefl.
  - eexists. split; [done|]. split; [|lia]. split_and!; [lia| |lia].
    intros Hj c Hc1 Hc2. assert (c = 2 * i) as -> by lia. by apply sw_irrefl.
Qed.

Lemma down_exit i h j :
  down_inv i (h, i, j) ->
  (n < j \/ lt (slot h j) node = false) -> down_post (h, i).
Proof.
  intros (_ & Hi & Hl & (Hj & Hj1 & Hj2) & [Ho Hg] & Hc & Hp) Hx. split_and!; [lia..| |done].
  intros k Hk. rewrite !slot_insert by lia.
  do 2 case_decide; subst; [lia|by apply Hc; lia| |by apply Ho].
  destruct (decide (n < j)); [exfalso; eapply Hj2; eauto|].
  destruct Hx as [?|Hx]; [lia|]. eapply sw_incomp; [exact Hx|]. apply Hj1; lia.
Qed.

Lemma down_step i st : down_inv i st ->
  0 <= n + 1 - i /\
  ((exists i' st', downHeap_body lt n node st = Ret (inl st') /\ down_inv i' st' /\
      n + 1 - i' < n + 1 - i) \/
   (exists r, downHeap_body lt n node st = Ret (inr r) /\ down_post r)).
Proof.
  destruct st as [[h i'] j]. intros Hinv.
  pose proof Hinv as (-> & Hi & Hl & (Hj & Hj1 & Hj2) & [Ho Hg] & Hc & Hp).
  split; [lia|]. unfold downHeap_body.
  destruct (Z.leb_spec j n); cbn.
  2: { right. eexists. split; [done|]. eapply down_exit; [done|]. by left. }
  rewrite slot_vget by lia. cbn.
  destruct (lt (slot h j) node) eqn:E.
  2: { right. eexists. split; [done|]. eapply down_exit; [done|]. by right. }
  left. rewrite vset_Ret by lia. cbn.
  destruct (smaller_child_ok (<[Z.to_nat i:=slot h j]> h) j) as (j' & -> & Hj' & ?);
    [lia|by rewrite vsize_insert|].
  cbn. eexists j, _. split; [done|]. split; [|lia].
  split_and!; [done|lia|lia|by rewrite vsize_insert|done| | |].
  - split.
    + intros k Hk Hk1 Hk2. rewrite !slot_insert by lia.
      do 2 case_decide; subst; try lia.
      * apply Hg; lia.
      * apply Hj1; lia.
      * by apply Ho.
    + intros c Hc1 Hc2 Hc3. rewrite !slot_insert by lia.
      rewrite (decide_True (P := j / 2 = i)) by lia.
      rewrite decide_False by lia. rewrite <- Hc2. apply Ho; lia.
  - intros _. rewrite slot_insert by lia. rewrite decide_True by lia. by apply sw_asym.
  - rewrite elems_move_perm by lia. done.
Qed.
End DownHeap.

(** *** The operations *)

Lemma slot_insert_id h i : 0 <= i < vsize h -> <[Z.to_nat i := slot h i]> h = h.
Proof. intros H. apply list_insert_id. by apply slot_lookup. Qed.

Lemma upHeap_ok lt `{!StrictWeak lt} q :
  1 <= size_ q < vsize (heap_ q) -> size_ q < 2 ^ 31 ->
  heap_ok lt (heap_ q) (size_ q - 1) ->
  exists h, upHeap lt q = Ret (Heap h (size_ q) (maxSize_ q)) /\
    vsize h = vsize (heap_ q) /\ heap_ok lt h (size_ q) /\
    elems h (size_ q) ≡ₚ elems (heap_ q) (size_ q).
Proof.
  intros Hs Hm Ho. destruct q as [h n m]; cbn in *. unfold upHeap; cbn [heap_ size_ maxSize_].
  rewrite slot_vget by lia. rsimpl.
  destruct (while_loop_rule _ _ _ _ (up_step lt h n (slot h n) ltac:(lia)) n
    (h, n, s32 (Z.shiftr (u32 n) 1))) as ([h' i] & E & Hi & Hl & Hok & Hp).
  - split_and!; [done| |lia|lia|done| |lia|].
    + rewrite u32_small by lia. rewrite Z.shiftr_div_pow2 by lia. apply s32_small. lia.
    + split; [|lia]. intros j Hj Hj1 _. apply Ho. lia.
    + by rewrite slot_insert_id by lia.
  - unfold loop_fuel. lia.
  - rewrite E. rsimpl. rewrite vset_Ret by lia. rsimpl. eexists. split; [done|].
    by rewrite vsize_insert.
Qed.

Lemma downHeap_ok lt `{!StrictWeak lt} q :
  0 <= size_ q < 2 ^ 31 -> Z.max (size_ q) 1 < vsize (heap_ q) ->
  hole_ok lt (heap_ q) (size_ q) 1 ->
  exists h, downHeap lt q = Ret (Heap h (size_ q) (maxSize_ q)) /\
    vsize h = vsize (heap_ q) /\ heap_ok lt h (size_ q) /\
    elems h (size_ q) ≡ₚ elems (heap_ q) (size_ q).
Proof.
  intros Hs Hm Ho. destruct q as [h n m]; cbn in *. unfold downHeap; cbn [heap_ size_ maxSize_].
   rewrite slot_vget by lia. rsimpl.
  destruct (smaller_child_ok lt h n ltac:(lia) h 1) as (j & -> & Hj & _); [lia|done|]. rsimpl.
  destruct (while_loop_rule _ _ _ _ (down_step lt h n (slot h 1) ltac:(lia)) 1
    (h, 1, j)) as ([h' i] & E & Hi & Hl & Hok & Hp).
  - split_and!; [done|lia|lia|done|done|done|lia|]. by rewrite slot_insert_id by lia.
  - unfold loop_fuel. lia.
  - rewrite E. rsimpl. rewrite vset_Ret by lia. rsimpl. eexists. split; [done|].
    by rewrite vsize_insert.
Qed.

Lemma elems_elem h n x :
  0 <= n < vsize h -> x ∈ elems h n <-> exists j, 1 <= j <= n /\ slot h j = x.
Proof.
  intros Hn. unfold elems. rewrite list_elem_of_lookup. split.
  - intros [i Hi]. apply lookup_take_Some in Hi as [Hi Hlt].
    rewrite lookup_drop in Hi. exists (Z.of_nat i + 1). split; [lia|].
    pose proof (slot_lookup h (Z.of_nat i + 1) ltac:(lia)) as E.
    replace (Z.to_nat (Z.of_nat i + 1)) with (1 + i)%nat in E by lia. congruence.
  - intros (j & Hj & <-). exists (Z.to_nat (j - 1)).
    rewrite lookup_take_lt by lia. rewrite lookup_drop.
    replace (1 + Z.to_nat (j - 1))%nat with (Z.to_nat j) by lia. apply slot_lookup. lia.
Qed.

Lemma elems_length h n : 0 <= n < vsize h -> vsize (elems h n) = n.
Proof. unfold elems, vsize. rewrite length_take, length_drop. lia. Qed.

Lemma elems_snoc h n :
  0 <= n -> n + 1 < vsize h -> elems h (n + 1) = elems h n ++ [slot h (n + 1)].
Proof.
  intros H0 H1. unfold elems.
  replace (Z.to_nat (n + 1)) with (S (Z.to_nat n)) by lia.
  apply take_S_r. rewrite lookup_drop.
  pose proof (slot_lookup h (n + 1) ltac:(lia)) as E.
  by replace (Z.to_nat (n + 1)) with (1 + Z.to_nat n)%nat in E by lia.
Qed.

Lemma elems_insert_out h n i (a : A) :
  n < i -> elems (<[Z.to_nat i := a]> h) n = elems h n.
Proof.
  intros H. unfold elems. destruct (decide (0 <= n)).
  - replace (Z.to_nat i) with (1 + Z.to_nat (i - 1))%nat by lia.
    destruct h as [|x h]; [done|]. cbn. rewrite ?drop_0. apply take_insert_ge. lia.
  - by rewrite Z2Nat.nonpos by lia.
Qed.

(** The root is least. *)
Lemma heap_root lt `{!StrictWeak lt} h n :
  heap_ok lt h n -> forall j, 1 <= j <= n -> lt (slot h j) (slot h 1) = false.
Proof.
  intros Ho j. induction (Z.lt_wf 0 j) as [j _ IH]. intros Hj. destruct (decide (j = 1)) as [->|]; [apply sw_irrefl|].
  eapply sw_incomp; [apply (IH (j / 2)); lia|]. apply Ho. lia.
Qed.

Lemma elems_cons h n : 1 <= n < vsize h -> exists l, elems h n = slot h 1 :: l.
Proof.
  intros H. pose proof (slot_lookup h 1 ltac:(lia)) as E. unfold elems.
  destruct h as [|x [|y h]]; try done. cbn in *.
  replace (Z.to_nat n) with (S (Z.to_nat (n - 1))) by lia. cbn. eexists. done.
Qed.

Lemma elems_tail_elem h n l j :
  2 <= j <= n -> n < vsize h -> elems h n = slot h 1 :: l -> slot h j ∈ l.
Proof.
  intros Hj Hn E. pose proof (slot_lookup h j ltac:(lia)) as El.
  assert (elems h n !! Z.to_nat (j - 1) = Some (slot h j)) as E2.
  { unfold elems. rewrite lookup_take_lt by lia. rewrite lookup_drop.
    by replace (1 + Z.to_nat (j - 1))%nat with (Z.to_nat j) by lia. }
  rewrite E in E2. replace (Z.to_nat (j - 1)) with (S (Z.to_nat (j - 2))) in E2 by lia.
  by eapply list_elem_of_lookup_2.
Qed.

Definition heap_rep lt (m : Z) (q : heap A) (l : list A) : Prop :=
  maxSize_ q = m /\ 0 <= m < 2 ^ 31 /\ 0 <= size_ q <= m /\ vsize (heap_ q) = m + 1 /\
  heap_ok lt (heap_ q) (size_ q) /\ l ≡ₚ elems (heap_ q) (size_ q).

Lemma heap_rep_size lt m q l : heap_rep lt m q l -> size_ q = vsize l.
Proof.
  intros (? & ? & ? & ? & _ & Hp).
  rewrite <- (elems_length (heap_ q) (size_ q)) by lia. unfold vsize. by rewrite Hp.
Qed.

Lemma put_ok lt `{!StrictWeak lt} m q l a :
  heap_rep lt m q l -> vsize l < m ->
  exists q', put lt a q = Ret q' /\ heap_rep lt m q' (a :: l).
Proof.
  intros Hr Hl. pose proof (heap_rep_size _ _ _ _ Hr).
  destruct Hr as (Hm & Hb & Hs & Hv & Ho & Hp). destruct q as [h n m']; cbn in *. subst m'.
  unfold put; cbn. rewrite u64_small, vset_Ret by lia. cbn.
  destruct (upHeap_ok lt (Heap (<[Z.to_nat (n + 1):=a]> h) (n + 1) m))
    as (h' & -> & Hv' & Ho' & Hp'); cbn in *; rewrite ?vsize_insert; [lia|lia| |].
  - intros j Hj. rewrite !slot_insert, !decide_False by lia. apply Ho. lia.
  - eexists. split; [done|]. split_and!; cbn; [done|lia..|by rewrite Hv', vsize_insert|done|].
    rewrite Hp', elems_snoc by (rewrite ?vsize_insert; lia).
    rewrite elems_insert_out, slot_insert, decide_True by lia.
    by rewrite Hp, Permutation_app_comm.
Qed.

Lemma top_ok lt `{!StrictWeak lt} m q l :
  heap_rep lt m q l -> l <> [] ->
  exists l', top q = Ret (slot (heap_ q) 1) /\ l ≡ₚ slot (heap_ q) 1 :: l' /\
    is_min lt (slot (heap_ q) 1) l /\ elems (heap_ q) (size_ q) = slot (heap_ q) 1 :: l'.
Proof.
  intros Hr Hl. pose proof (heap_rep_size _ _ _ _ Hr) as E.
  destruct Hr as (Hm & Hb & Hs & Hv & Ho & Hp).
  assert (1 <= size_ q).
  { destruct l; [done|]. rewrite vsize_cons in E. pose proof (vsize_nonneg l). lia. }
  destruct (elems_cons (heap_ q) (size_ q)) as [l' El]; [lia|].
  exists l'. split_and!; [| | |exact El].
  - unfold top. destruct (Z.ltb_spec 0 (size_ q)); [|lia]. apply slot_vget. lia.
  - by rewrite Hp, El.
  - intros b Hb'. rewrite Hp in Hb'. apply elems_elem in Hb' as (j & Hj & <-); [|lia].
    by apply (heap_root lt _ (size_ q)).
Qed.

(** The heap after its root was overwritten by any element. *)
Lemma adjust_ok lt lt' `{!StrictWeak lt'} m q l a l' :
  heap_rep lt m q l -> elems (heap_ q) (size_ q) = slot (heap_ q) 1 :: l' ->
  l <> [] ->
  (forall x y, x ∈ l' -> y ∈ l' -> lt' x y = lt x y) ->
  exists h, downHeap lt' (Heap (<[Z.to_nat 1 := a]> (heap_ q)) (size_ q) m) =
    Ret (Heap h (size_ q) m) /\ heap_rep lt' m (Heap h (size_ q) m) (a :: l').
Proof.
  intros Hr El Hl Hag. pose proof (heap_rep_size _ _ _ _ Hr) as E.
  destruct Hr as (Hm & Hb & Hs & Hv & Ho & Hp).
  assert (1 <= size_ q).
  { destruct l; [done|]. rewrite vsize_cons in E. pose proof (vsize_nonneg l). lia. }
  assert (forall j, 2 <= j <= size_ q -> slot (heap_ q) j ∈ l') as Hin.
  { intros j Hj. by apply (elems_tail_elem _ (size_ q)); [lia..|]. }
  destruct (downHeap_ok lt' (Heap (<[Z.to_nat 1 := a]> (heap_ q)) (size_ q) m))
    as (h' & -> & Hv' & Ho' & Hp'); cbn in *; rewrite ?vsize_insert; [lia|lia| |].
  - split; [|lia]. intros j Hj Hj1 Hj2. rewrite !slot_insert, !decide_False by lia.
    rewrite Hag; [|apply Hin; lia..]. apply Ho. lia.
  - eexists. split; [done|]. split_and!; cbn; [done|lia..|by rewrite Hv', vsize_insert|done|].
    rewrite Hp'. pose proof (elems_insert_perm (heap_ q) (size_ q) 1 a) as P.
    rewrite El in P. rewrite (perm_swap (slot (heap_ q) 1)) in P.
    symmetry. apply (Permutation_cons_inv (a := slot (heap_ q) 1)). apply P; lia.
Qed.

Lemma elems_nonpos h n : n <= 0 -> elems h n = [].
Proof. intros H. unfold elems. by rewrite Z2Nat.nonpos by lia. Qed.

Lemma nonempty_size (l : list A) : l <> [] -> 1 <= vsize l.
Proof. destruct l; [done|]. rewrite vsize_cons. pose proof (vsize_nonneg l). lia. Qed.

Lemma pop_last_ok lt lt' `{!StrictWeak lt'} m h l :
  heap_rep lt m (Heap h 1 m) l ->
  exists q', downHeap lt' (Heap (<[Z.to_nat 1 := inhabitant]> (<[Z.to_nat 1 := slot h 1]> h)) 0 m)
    = Ret q' /\ heap_rep lt' m q' [].
Proof.
  intros (Hm & Hb & Hs & Hv & Ho & Hp); cbn in *.
  destruct (downHeap_ok lt'
    (Heap (<[Z.to_nat 1 := inhabitant]> (<[Z.to_nat 1 := slot h 1]> h)) 0 m))
    as (h' & -> & Hv' & Ho' & Hp'); cbn in *; rewrite ?vsize_insert; [lia|lia| |].
  - split; intros; lia.
  - eexists. split; [done|]. split_and!; cbn; [done|lia..| |done|by rewrite elems_nonpos].
    by rewrite Hv', !vsize_insert.
Qed.

Lemma pop_ok lt `{!StrictWeak lt} m q l :
  heap_rep lt m q l -> l <> [] ->
  exists l', l ≡ₚ slot (heap_ q) 1 :: l' /\
    forall lt', StrictWeak lt' -> (forall x y, x ∈ l' -> y ∈ l' -> lt' x y = lt x y) ->
    exists q', pop lt' q = Ret (slot (heap_ q) 1, q') /\ heap_rep lt' m q' l'.
Proof.
  intros Hr Hl. pose proof (heap_rep_size _ _ _ _ Hr) as Es.
  pose proof (nonempty_size l Hl).
  destruct (top_ok lt m q l Hr Hl) as (l' & _ & Hp1 & _ & El).
  pose proof Hr as (Hm & Hb & Hs & Hv & Ho & Hp). destruct q as [h n m']; cbn in *. subst m'.
  exists l'. split; [done|]. intros lt' Hw Hag.
  unfold pop; cbn [heap_ size_ maxSize_].
  destruct (Z.ltb_spec 0 n); [|lia].
  rewrite !slot_vget by lia. rsimpl. rewrite vset_Ret by lia. rsimpl.
  rewrite vset_Ret by (rewrite vsize_insert; lia). rsimpl.
  destruct (decide (n = 1)) as [->|].
  - change (1 - 1) with 0. destruct (pop_last_ok lt lt' m h l Hr) as (q' & -> & Hr'). rsimpl.
    eexists. split; [done|].
    pose proof (elems_length h 1 ltac:(lia)) as E1. rewrite El in *.
    rewrite vsize_cons in E1. destruct l' as [|x l']; [done|].
    rewrite vsize_cons in E1. pose proof (vsize_nonneg l'). lia.
  - destruct (elems_cons h (n - 1)) as [l3 E3]; [lia|].
    assert (l' = l3 ++ [slot h n]) as ->.
    { pose proof (elems_snoc h (n - 1)) as E4. rewrite Z.sub_add in E4.
      rewrite E4, E3 in El by lia. by injection El. }
    rewrite list_insert_insert_ne by lia.
    set (q1 := Heap (<[Z.to_nat n := inhabitant]> h) (n - 1) m).
    assert (slot (heap_ q1) 1 = slot h 1) as E5.
    { unfold q1; cbn [heap_]. by rewrite slot_insert, decide_False by lia. }
    destruct (adjust_ok lt lt' m q1 (slot h 1 :: l3) (slot h n) l3) as (h' & E6 & Hr'); [| |done| |].
    + split_and!; cbn; [done|lia..|by rewrite vsize_insert| |].
      * intros j Hj. rewrite !slot_insert, !decide_False by lia. apply Ho. lia.
      * by rewrite elems_insert_out, E3 by lia.
    + rewrite E5. cbn. by rewrite elems_insert_out, E3 by lia.
    + intros x y Hx Hy. apply Hag; apply elem_of_app; by left.
    + cbn in E6. rewrite E6. rsimpl. eexists. split; [done|]. destruct Hr' as (? & ? & ? & ? & ? & Hp'). repeat (split; [done|]).
      etrans; [|exact Hp']. by rewrite Permutation_app_comm.
Qed.

Lemma insert_ok lt `{!StrictWeak lt} m q l a :
  heap_rep lt m q l ->
  (vsize l < m -> exists q', insert lt a q = Ret (true, q') /\ heap_rep lt m q' (a :: l)) /\
  (forall t l', vsize l = m -> l ≡ₚ t :: l' -> top q = Ret t ->
     if lt a t then insert lt a q = Ret (false, q)
     else exists q', insert lt a q = Ret (true, q') /\ heap_rep lt m q' (a :: l')) /\
  (m = 0 -> insert lt a q = Ret (false, q)).
Proof.
  intros Hr. pose proof (heap_rep_size _ _ _ _ Hr) as Es.
  pose proof Hr as (Hm & Hb & Hs & Hv & Ho & Hp). unfold insert. split_and!.
  - intros Hl. destruct (Z.ltb_spec (size_ q) (maxSize_ q)); [|lia].
    destruct (put_ok lt m q l a Hr Hl) as (q' & -> & Hr'). rsimpl. eauto.
  - intros t l' Hl Hp2 Ht. destruct (Z.ltb_spec (size_ q) (maxSize_ q)); [lia|].
    assert (l <> []) as Hn.
    { intros ->. by apply Permutation_nil_l in Hp2. }
    pose proof (nonempty_size l Hn).
    destruct (Z.ltb_spec 0 (size_ q)); [|lia]. rewrite Ht. rsimpl.
    destruct (lt a t); rsimpl; [done|].
    rewrite vset_Ret by lia. rsimpl. unfold adjustTop.
    destruct (top_ok lt m q l Hr Hn) as (l2 & Et & Hp1 & _ & El).
    rewrite Et in Ht. injection Ht as <-. rewrite Hm.
    destruct (adjust_ok lt lt m q l a l2 Hr El Hn ltac:(done)) as (h' & -> & Hr'). rsimpl.
    eexists. split; [done|]. destruct Hr' as (? & ? & ? & ? & ? & Hp'). repeat (split; [done|]).
    etrans; [|exact Hp']. constructor. rewrite Hp1 in Hp2. by apply Permutation_cons_inv in Hp2.
  - intros ->. destruct (Z.ltb_spec (size_ q) (maxSize_ q)); [lia|].
    destruct (Z.ltb_spec 0 (size_ q)); [lia|done].
Qed.

Lemma agree_ok lt lt' m q l :
  heap_rep lt m q l -> (forall x y, x ∈ l -> y ∈ l -> lt' x y = lt x y) ->
  heap_rep lt' m q l.
Proof.
  intros (Hm & Hb & Hs & Hv & Ho & Hp) Hag. repeat (split; [done|]). split; [|done].
  intros j Hj. rewrite Hag; [by apply Ho| |]; rewrite Hp; (apply elems_elem; [lia|]; eexists; split; [|done]; lia).
Qed.

Lemma adjustTop_ok lt lt' `{!StrictWeak lt, !StrictWeak lt'} m q a l :
  heap_rep lt m q (a :: l) -> top q = Ret a -> a ∉ l ->
  (forall x y, x ∈ l -> y ∈ l -> lt' x y = lt x y) ->
  exists q', adjustTop lt' q = Ret q' /\ heap_rep lt' m q' (a :: l).
Proof.
  intros Hr Ht Ha Hag.
  pose proof Hr as (Hm & Hb & Hs & Hv & Ho & Hp).
  destruct (top_ok lt m q (a :: l) Hr ltac:(done)) as (l2 & Et & Hp1 & _ & El).
  rewrite Et in Ht. injection Ht as Ht. rewrite Ht in Hp1.
  apply Permutation_cons_inv in Hp1.
  destruct (adjust_ok lt lt' m q (a :: l) a l2 Hr El ltac:(done)) as (h' & E & Hr').
  { intros x y Hx Hy. apply Hag; by rewrite Hp1. }
  unfold adjustTop. rewrite <- Ht in E at 1.
  rewrite slot_insert_id in E.
  - destruct q as [h n m']; cbn in *. subst m'. eexists. split; [exact E|].
    destruct Hr' as (? & ? & ? & ? & ? & Hp'). repeat (split; [done|]).
    etrans; [|exact Hp']. by rewrite Hp1.
  - pose proof (heap_rep_size _ _ _ _ Hr) as Es. rewrite vsize_cons in Es.
    pose proof (vsize_nonneg l). lia.
Qed.

(** *** Orders that agree on the stored elements *)
Section Cong.
Context (P : A -> Prop) (lt lt' : A -> A -> bool) (n : Z).
Hypothesis Hlt : forall x y, P x -> P y -> lt' x y = lt x y.
Hypothesis Hn : 0 <= n < 2 ^ 31.

Definition all_in h : Prop := n < vsize h /\ forall i, 1 <= i <= n -> P (slot h i).

Lemma all_in_vget h i : all_in h -> 1 <= i <= n -> exists x, vget h i = Ret x /\ P x.
Proof. intros [H1 H2] Hi. rewrite slot_vget by lia. eauto. Qed.

Lemma all_in_vset h i x : all_in h -> 1 <= i <= n -> P x ->
  exists h', vset h i x = Ret h' /\ all_in h'.
Proof.
  intros [H1 H2] Hi Hx. rewrite vset_Ret by lia. eexists. split; [done|].
  split; [by rewrite vsize_insert|]. intros k Hk. rewrite slot_insert by lia.
  case_decide; auto.
Qed.

Lemma upHeap_cong h m : all_in h -> 1 <= n -> upHeap lt' (Heap h n m) = upHeap lt (Heap h n m).
Proof.
  intros Hh H1. unfold upHeap. cbn [heap_ size_ maxSize_].
  destruct (all_in_vget h n Hh) as (node & -> & Hnode); [lia|]. rsimpl.
  rewrite (while_loop_cong (fun '(h, i, j) => all_in h /\ 1 <= i <= n /\ 0 <= j <= n)
    (upHeap_body lt node) (upHeap_body lt' node)); [done| |].
  - intros [[h1 i] j] (Hh1 & Hi & Hj). unfold upHeap_body.
    destruct (Z.ltb_spec 0 j); [|done].
    destruct (all_in_vget h1 j Hh1) as (hj & -> & Hhj); [lia|]. rsimpl. rewrite Hlt by done.
    destruct (lt node hj); [|done]. split; [done|].
    destruct (all_in_vset h1 i hj Hh1 Hi Hhj) as (h2 & -> & Hh2). rsimpl. intros s' [= <-].
    split; [done|]. rewrite u32_small, Z.shiftr_div_pow2 by lia. rewrite s32_small by lia. lia.
  - split; [done|]. rewrite u32_small, Z.shiftr_div_pow2 by lia. rewrite s32_small by lia. lia.
Qed.

Lemma smaller_child_cong h i : all_in h -> 1 <= i <= n ->
  smaller_child lt' h n i = smaller_child lt h n i /\
  forall j, smaller_child lt h n i = Ret j -> 1 <= j.
Proof.
  intros Hh Hi. unfold smaller_child. rewrite Z.shiftl_mul_pow2, !u64_small by (rewrite ?u64_small; lia).
  destruct (Z.leb_spec (i * 2 ^ 1 + 1) n); [|split; [done|]; intros j [= <-]; lia].
  destruct (all_in_vget h (i * 2 ^ 1 + 1) Hh) as (hk & -> & Hhk); [lia|]. rsimpl.
  destruct (all_in_vget h (i * 2 ^ 1) Hh) as (hj & -> & Hhj); [lia|]. rsimpl. rewrite Hlt by done.
  split; [done|]. intros j. destruct (lt hk hj); intros [= <-]; lia.
Qed.

Lemma downHeap_cong h m : all_in h -> 1 <= n -> downHeap lt' (Heap h n m) = downHeap lt (Heap h n m).
Proof.
  intros Hh H1. unfold downHeap. cbn [heap_ size_ maxSize_].
  destruct (all_in_vget h 1 Hh) as (node & -> & Hnode); [lia|]. rsimpl.
  destruct (smaller_child_cong h 1 Hh) as [-> Hj1]; [lia|].
  destruct (smaller_child lt h n 1) as [j1| | |]; rsimpl; [|reflexivity..].
  rewrite (while_loop_cong (fun '(h, i, j) => all_in h /\ 1 <= i <= n /\ 1 <= j)
    (downHeap_body lt n node) (downHeap_body lt' n node)); [done| |].
  - intros [[h1 i] j] (Hh1 & Hi & Hj). unfold downHeap_body.
    destruct (Z.leb_spec j n); [|done].
    destruct (all_in_vget h1 j Hh1) as (hj & -> & Hhj); [lia|]. rsimpl. rewrite Hlt by done.
    destruct (lt hj node); [|done].
    destruct (all_in_vset h1 i hj Hh1 Hi Hhj) as (h2 & -> & Hh2). rsimpl.
    destruct (smaller_child_cong h2 j Hh2) as [-> Hc]; [lia|]. split; [done|].
    intros s'. destruct (smaller_child lt h2 n j) as [j2| | |]; rsimpl; try done. intros [= <-].
    split; [done|]. split; [lia|]. by apply Hc.
  - split; [done|]. split; [lia|]. by apply Hj1.
Qed.
End Cong.

Lemma heap_rep_all_in lt m q l (P : A -> Prop) :
  heap_rep lt m q l -> (forall x, x ∈ l -> P x) -> all_in P (size_ q) (heap_ q).
Proof.
  intros (Hm & Hb & Hs & Hv & Ho & Hp) HP. split; [lia|]. intros i Hi. apply HP. rewrite Hp.
  apply elems_elem; [lia|]. by exists i.
Qed.

Lemma cong_ok lt lt' m q l a :
  heap_rep lt m q l -> (forall x y, x ∈ a :: l -> y ∈ a :: l -> lt' x y = lt x y) ->
  put lt' a q = put lt a q /\ insert lt' a q = insert lt a q.
Proof.
  intros Hr Hag. set (P x := x ∈ a :: l).
  assert (all_in P (size_ q) (heap_ q)) as Hin.
  { eapply heap_rep_all_in; [done|]. intros x Hx. by right. }
  destruct Hr as (Hm & Hb & Hs & Hv & Ho & Hp). destruct q as [h n m']. cbn in *. subst m'.
  assert (n < m -> put lt' a (Heap h n m) = put lt a (Heap h n m)) as Hput.
  { intros Hlt. unfold put. cbn. rewrite u64_small, vset_Ret by lia. rsimpl.
    apply (upHeap_cong P); try done; [lia| |lia].
    split; [rewrite vsize_insert; lia|]. intros i Hi. rewrite slot_insert by lia.
    case_decide; [by left|]. apply Hin. lia. }
  assert (n = m -> put lt' a (Heap h n m) = put lt a (Heap h n m)) as Hput2.
  { intros ->. unfold put. cbn. rewrite u64_small by lia. unfold vset.
    destruct (Z.ltb_spec (m + 1) (vsize h)); [lia|]. rewrite andb_false_r. rsimpl. reflexivity. }
  assert (put lt' a (Heap h n m) = put lt a (Heap h n m)) as Hput3.
  { destruct (decide (n = m)); [apply Hput2; assumption|apply Hput; lia]. }
  split; [exact Hput3|]. unfold insert. cbn. rewrite Hput3. destruct (Z.ltb_spec n m); [reflexivity|].
  destruct (Z.ltb_spec 0 n); [|reflexivity]. unfold top. cbn.
  destruct (Z.ltb_spec 0 n); [|lia]. rewrite (slot_vget h 1) by lia. rsimpl.
  rewrite Hag by (try (by left); apply Hin; lia). destruct (lt a (slot h 1)); rsimpl; [reflexivity|].
  destruct (all_in_vset P n ltac:(lia) h 1 a Hin) as (h' & -> & Hh'); [lia|by left|]. rsimpl.
  unfold adjustTop. rewrite (downHeap_cong P lt lt'); [reflexivity|done..|lia|done|lia].
Qed.

Lemma pop_cong_ok lt lt' m q l :
  heap_rep lt m q l -> (forall x y, x ∈ l -> y ∈ l -> lt' x y = lt x y) -> pop lt' q = pop lt q.
Proof.
  intros Hr Hag. set (P x := x ∈ l).
  assert (all_in P (size_ q) (heap_ q)) as Hin by (eapply heap_rep_all_in; done).
  destruct Hr as (Hm & Hb & Hs & Hv & Ho & Hp). destruct q as [h n m']. cbn in *. subst m'.
  unfold pop. cbn. destruct (Z.ltb_spec 0 n); [|reflexivity].
  rewrite !slot_vget by lia. rsimpl. rewrite vset_Ret by lia. rsimpl.
  rewrite vset_Ret by (rewrite vsize_insert; lia). rsimpl.
  destruct (decide (n = 1)) as [->|].
  - unfold downHeap. cbn. rewrite (slot_vget _ 1) by (rewrite !vsize_insert; lia). rsimpl.
    unfold smaller_child. change (u64 (Z.shiftl 1 1)) with 2. change (u64 (2 + 1)) with 3. change (3 <=? 1 - 1) with false. rsimpl.
    match goal with |- context [downHeap_body lt (1 - 1) ?x] => generalize x; intros node end.
    rewrite (while_loop_cong (fun '(h, i, j) => 1 <= j) (downHeap_body lt (1 - 1) node) (downHeap_body lt' (1 - 1) node));
      [reflexivity| |lia].
    intros [[h1 i] j] Hj. unfold downHeap_body. by destruct (Z.leb_spec j (1 - 1)); [lia|].
  - rewrite (downHeap_cong P lt lt'); [reflexivity|done|lia| |lia].
    split; [rewrite !vsize_insert; lia|]. intros i Hi. rewrite slot_insert by (rewrite ?vsize_insert; lia).
    rewrite decide_False by lia. rewrite slot_insert by lia. case_decide; apply (proj2 Hin); lia.
Qed.

#[export] Instance heap_PQueueSpec : PQueueSpec (heap A) A.
Proof.
  refine {| pq_rep := heap_rep |}; cbn.
  - intros lt m q l l' (? & ? & ? & ? & ? & Hp) Hl. repeat (split; [done|]). by rewrite <- Hl.
  - intros lt m H. split_and!; cbn; [done|lia..| | |done].
    + unfold vsize. rewrite length_replicate. lia.
    + intros j Hj. lia.
  - apply heap_rep_size.
  - intros lt m q l Hr. pose proof (heap_rep_size _ _ _ _ Hr). destruct Hr as (? & ? & ? & _). lia.
  - intros lt m q l a ?. by apply put_ok.
  - intros lt m q l ? Hr Hl. destruct (top_ok lt m q l Hr Hl) as (l' & E & Hp & Hmin & _). eauto.
  - apply agree_ok.
  - apply cong_ok.
  - apply pop_cong_ok.
  - intros lt m q l ? Hr Hl. destruct (top_ok lt m q l Hr Hl) as (l2 & E & _ & Hmin & _).
    destruct (pop_ok lt m q l Hr Hl) as (l' & Hp & Hpop). eauto 10.
  - intros lt m q l a ?. by apply insert_ok.
  - intros lt lt' m q a l ? ?. by apply adjustTop_ok.
  - intros lt m q l Hr. pose proof (heap_rep_size _ _ _ _ Hr).
    pose proof Hr as (? & ? & ? & ? & _ & Hp). eexists. split; [exact Hp|].
    intros i Hi. unfold getAt. rewrite u64_small by lia. rewrite slot_vget by lia.
    symmetry. apply vget_Ret. split; [lia|]. unfold elems.
    rewrite lookup_take_lt by lia. rewrite lookup_drop.
    replace (1 + Z.to_nat i)%nat with (Z.to_nat (i + 1)) by lia. apply slot_lookup. lia.
Defined.
End HeapProofs.
