(* ===== verification/Float64.v ===== *)
(** * Floating-point numbers

The program's [double] and [float] values as [SpecFloat.spec_float], with
the comparisons C++ has on them. The lemmas show that on numbers (not NaN)
the comparison is a lexicographic order of sign, exponent and mantissa. *)
From Stdlib Require Export SpecFloat.
From S2P Require Import Prelude PQueue.

#[export] Instance spec_float_eq_dec : EqDecision spec_float.
Proof. solve_decision. Defined.

Definition is_num (f : spec_float) : bool :=
  match f with S754_nan => false | _ => true end.

(** The operators of C++; a comparison with NaN is false. *)
Definition flt (a b : spec_float) : bool := SFltb a b.
Definition fgt (a b : spec_float) : bool := SFltb b a.
Definition feq (a b : spec_float) : bool := SFeqb a b.
Definition fle (a b : spec_float) : bool := SFleb a b.

(** The keys of the lexicographic order. *)
Definition fkey (f : spec_float) : Z * Z * Z :=
  match f with
  | S754_nan => (0, 0, 0)
  | S754_infinity true => (-2, 0, 0)
  | S754_infinity false => (2, 0, 0)
  | S754_zero _ => (0, 0, 0)
  | S754_finite true m e => (-1, - e, - Z.pos m)
  | S754_finite false m e => (1, e, Z.pos m)
  end.

Definition lex (a b : Z * Z * Z) : comparison :=
  match a.1.1 ?= b.1.1 with
  | Eq => match a.1.2 ?= b.1.2 with Eq => a.2 ?= b.2 | c => c end
  | c => c
  end.

Lemma SFcompare_lex a b :
  is_num a = true -> is_num b = true -> SFcompare a b = Some (lex (fkey a) (fkey b)).
Proof.
  destruct a as [sa|sa| |sa ma ea], b as [sb|sb| |sb mb eb]; try done;
    intros _ _; destruct sa; try destruct sb; try done; unfold lex; cbn [fkey fst snd]; cbn.
  rewrite Z.compare_opp, (Z.compare_antisym ea eb). destruct (ea ?= eb); cbn; done.
Qed.

(** A total order by keys: what clients use. *)
Lemma lex_spec a b :
  match lex a b with
  | Lt => a.1.1 < b.1.1 \/ a.1.1 = b.1.1 /\ (a.1.2 < b.1.2 \/ a.1.2 = b.1.2 /\ a.2 < b.2)
  | Eq => a.1.1 = b.1.1 /\ a.1.2 = b.1.2 /\ a.2 = b.2
  | Gt => b.1.1 < a.1.1 \/ a.1.1 = b.1.1 /\ (b.1.2 < a.1.2 \/ a.1.2 = b.1.2 /\ b.2 < a.2)
  end.
Proof.
  unfold lex. destruct (Z.compare_spec a.1.1 b.1.1); [|lia|lia].
  destruct (Z.compare_spec a.1.2 b.1.2); [|lia|lia].
  destruct (Z.compare_spec a.2 b.2); lia.
Qed.

Definition key_lt (a b : Z * Z * Z) : Prop :=
  a.1.1 < b.1.1 \/ a.1.1 = b.1.1 /\ (a.1.2 < b.1.2 \/ a.1.2 = b.1.2 /\ a.2 < b.2).

Lemma flt_key a b : is_num a = true -> is_num b = true ->
  flt a b = true <-> key_lt (fkey a) (fkey b).
Proof.
  intros Ha Hb. unfold flt, SFltb. rewrite SFcompare_lex by done.
  pose proof (lex_spec (fkey a) (fkey b)). unfold key_lt.
  destruct (lex _ _); split; try done; intros; lia.
Qed.

Lemma feq_key a b : is_num a = true -> is_num b = true ->
  feq a b = true <-> fkey a = fkey b.
Proof.
  intros Ha Hb. unfold feq, SFeqb. rewrite SFcompare_lex by done.
  pose proof (lex_spec (fkey a) (fkey b)) as H.
  destruct (lex _ _); split; try done; intros E; rewrite ?E in H; try lia.
  destruct (fkey a) as [[? ?] ?], (fkey b) as [[? ?] ?]. cbn in H. destruct H as (-> & -> & ->). done.
Qed.

Lemma flt_irrefl a : flt a a = false.
Proof.
  destruct (is_num a) eqn:Ha; [|by destruct a].
  destruct (flt a a) eqn:E; [|done]. apply flt_key in E; [|done..]. unfold key_lt in E. lia.
Qed.

Lemma flt_num a b : flt a b = true -> is_num a = true /\ is_num b = true.
Proof. destruct a as [[]|[]| |[]], b as [[]|[]| |[]]; done. Qed.

Lemma flt_trans a b c : flt a b = true -> flt b c = true -> flt a c = true.
Proof.
  intros H1 H2. destruct (flt_num _ _ H1) as [Ha Hb], (flt_num _ _ H2) as [_ Hc].
  rewrite flt_key in H1, H2 |- * by done. unfold key_lt in *. lia.
Qed.

Lemma flt_asym a b : flt a b = true -> flt b a = false.
Proof.
  intros H. destruct (flt b a) eqn:E; [|done]. pose proof (flt_trans _ _ _ H E) as H2.
  by rewrite flt_irrefl in H2.
Qed.

Lemma flt_total a b : is_num a = true -> is_num b = true ->
  flt a b = false -> flt b a = false -> feq a b = true.
Proof.
  intros Ha Hb H1 H2. apply feq_key; [done..|].
  assert (~ key_lt (fkey a) (fkey b)) by (rewrite <- flt_key by done; congruence).
  assert (~ key_lt (fkey b) (fkey a)) by (rewrite <- flt_key by done; congruence).
  unfold key_lt in *. destruct (fkey a) as [[? ?] ?], (fkey b) as [[? ?] ?]. cbn in *.
  f_equal; [f_equal|]; lia.
Qed.

Lemma feq_sym a b : feq a b = feq b a.
Proof.
  destruct (is_num a) eqn:Ha, (is_num b) eqn:Hb.
  - apply Bool.eq_true_iff_eq. rewrite !feq_key by done. split; by intros ->.
  - destruct b; try done. destruct a as [[]|[]| |[]]; done.
  - destruct a; try done. destruct b as [[]|[]| |[]]; done.
  - destruct a; try done. by destruct b.
Qed.

Lemma flt_feq_l a b c : feq a b = true -> flt a c = flt b c.
Proof.
  intros H. destruct (is_num a) eqn:Ha; [|destruct a; try done; by destruct b as [[]|[]| |[]]].
  destruct (is_num b) eqn:Hb; [|destruct b; try done; by destruct a as [[]|[]| |[]]].
  destruct (is_num c) eqn:Hc; [|destruct c; try done; by destruct a as [[]|[]| |[]], b as [[]|[]| |[]]].
  apply Bool.eq_true_iff_eq. rewrite !flt_key by done. apply feq_key in H; [|done..]. by rewrite H.
Qed.

Lemma flt_feq_r a b c : feq a b = true -> flt c a = flt c b.
Proof.
  intros H. destruct (is_num a) eqn:Ha; [|destruct a; try done; by destruct b as [[]|[]| |[]]].
  destruct (is_num b) eqn:Hb; [|destruct b; try done; by destruct a as [[]|[]| |[]]].
  destruct (is_num c) eqn:Hc; [|destruct c; try done].
  apply Bool.eq_true_iff_eq. rewrite !flt_key by done. apply feq_key in H; [|done..]. by rewrite H.
Qed.

Lemma flt_neq a b : flt a b = true -> feq a b = false.
Proof.
  intros H. destruct (flt_num _ _ H) as [Ha Hb]. destruct (feq a b) eqn:E; [|done].
  rewrite (flt_feq_l _ _ b E), flt_irrefl in H. done.
Qed.

(** The order of the keys: a strict weak order on all values, and [flt] on
    the numbers. *)
Definition klt (a b : spec_float) : bool :=
  match lex (fkey a) (fkey b) with Lt => true | _ => false end.

#[export] Instance klt_weak {A} (key : A -> spec_float) : StrictWeak (fun a b => klt (key a) (key b)).
Proof.
  split; unfold klt; intros a; [|intros b c..].
  - pose proof (lex_spec (fkey (key a)) (fkey (key a))). destruct (lex _ _); try done. lia.
  - pose proof (lex_spec (fkey (key a)) (fkey (key b))). pose proof (lex_spec (fkey (key b)) (fkey (key c))).
    pose proof (lex_spec (fkey (key a)) (fkey (key c))).
    destruct (lex (fkey (key a)) (fkey (key b))); try done.
    destruct (lex (fkey (key b)) (fkey (key c))); try done.
    destruct (lex (fkey (key a)) (fkey (key c))); try done; lia.
  - pose proof (lex_spec (fkey (key b)) (fkey (key a))). pose proof (lex_spec (fkey (key c)) (fkey (key b))).
    pose proof (lex_spec (fkey (key c)) (fkey (key a))).
    destruct (lex (fkey (key b)) (fkey (key a))); try done;
    destruct (lex (fkey (key c)) (fkey (key b))); try done;
    destruct (lex (fkey (key c)) (fkey (key a))); try done; lia.
Qed.

Lemma klt_flt a b : is_num a = true -> is_num b = true -> flt a b = klt a b.
Proof. intros Ha Hb. unfold flt, SFltb, klt. rewrite SFcompare_lex by done. by destruct (lex _ _). Qed.

(** ** Constants and operations

[binary64] and [binary32] arithmetic, rounding to nearest even. *)
Definition dadd := SFadd 53 1024.
Definition dsub := SFsub 53 1024.
Definition dmul := SFmul 53 1024.
Definition ddiv := SFdiv 53 1024.
Definition dabs := SFabs.

(** The double nearest to [z * 2 ^ e]. *)
Definition dbl (z e : Z) : spec_float := binary_normalize 53 1024 z e false.

Definition d0 : spec_float := S754_zero false.

(** std::numeric_limits<float>::max() and epsilon(), as doubles. *)
Definition FLT_MAX : spec_float := dbl (2 ^ 24 - 1) 104.
Definition FLT_EPSILON : spec_float := dbl 1 (-23).
(** The least positive normal number. *)
Definition FLT_MIN : spec_float := dbl 1 (-126).

(** ** Integers as doubles

A non-negative integer below 2^53 is a double, and the doubles compare as
the integers do. *)
Lemma digits2_bounds p : 2 ^ (Z.pos (digits2_pos p) - 1) <= Z.pos p < 2 ^ Z.pos (digits2_pos p).
Proof.
  assert (forall k, 2 ^ Z.pos k = 2 * 2 ^ (Z.pos k - 1)) as Hp.
  { intros k. rewrite <- Z.pow_succ_r by lia. f_equal. lia. }
  assert (forall k q n, 2 ^ (Z.pos k - 1) <= Z.pos q < 2 ^ Z.pos k -> 2 * Z.pos q <= n <= 2 * Z.pos q + 1 ->
    2 ^ (Z.pos (Pos.succ k) - 1) <= n < 2 ^ Z.pos (Pos.succ k)) as Hs.
  { intros k q n H Hn. rewrite (Hp (Pos.succ k)). replace (Z.pos (Pos.succ k) - 1) with (Z.pos k) by lia.
    rewrite (Hp k) in H |- *. lia. }
  induction p as [p IH|p IH|]; cbn [digits2_pos]; [apply (Hs _ _ _ IH); lia..|]. done.
Qed.

Lemma digits2_unique p d : 0 <= d - 1 -> 2 ^ (d - 1) <= Z.pos p < 2 ^ d -> Z.pos (digits2_pos p) = d.
Proof.
  intros Hd H. pose proof (digits2_bounds p) as Hb.
  destruct (Z.lt_trichotomy (Z.pos (digits2_pos p)) d) as [Hl|[|Hl]]; [|done|].
  - pose proof (Z.pow_le_mono_r 2 (Z.pos (digits2_pos p)) (d - 1)). lia.
  - pose proof (Z.pow_le_mono_r 2 d (Z.pos (digits2_pos p) - 1)). lia.
Qed.

Lemma round_exact p e :
  2 ^ 52 <= Z.pos p < 2 ^ 53 -> -60 <= e <= 0 ->
  binary_round_aux 53 1024 false (Z.pos p) e loc_Exact = S754_finite false p e.
Proof.
  intros Hp He. pose proof (digits2_unique p 53 ltac:(lia) Hp) as Hd. unfold binary_round_aux.
  assert (forall q, Z.pos (digits2_pos q) = 53 -> shr_fexp 53 1024 (Z.pos q) e loc_Exact = (shr_record_of_loc (Z.pos q) loc_Exact, e)) as Hs.
  { intros q Hq. unfold shr_fexp, fexp, emin, Zdigits2. rewrite Hq.
    replace (Z.max (53 + e - 53) (3 - 1024 - 53) - e) with 0 by lia. done. }
  rewrite Hs by done. cbn [shr_record_of_loc loc_of_shr_record shr_m round_nearest_even]. rewrite Hs by done.
  cbn [shr_record_of_loc shr_m]. destruct (Z.leb_spec e (1024 - 53)); [done|lia].
Qed.

Lemma dbl_pos n : 0 < n < 2 ^ 53 ->
  exists p d, 1 <= d <= 53 /\ 2 ^ (d - 1) <= n < 2 ^ d /\ Z.pos p = n * 2 ^ (53 - d) /\
    dbl n 0 = S754_finite false p (d - 53).
Proof.
  intros Hn. destruct n as [|n|n]; [lia| |lia]. set (d := Z.pos (digits2_pos n)).
  pose proof (digits2_bounds n) as Hb. fold d in Hb.
  assert (1 <= d <= 53) as Hd.
  { split; [lia|]. destruct (Z.le_gt_cases d 53); [done|]. pose proof (Z.pow_le_mono_r 2 53 (d - 1)). lia. }
  assert (2 ^ 52 = 2 ^ (d - 1) * 2 ^ (53 - d)) as E1 by (rewrite <- Z.pow_add_r by lia; f_equal; lia).
  assert (2 ^ 53 = 2 ^ d * 2 ^ (53 - d)) as E2 by (rewrite <- Z.pow_add_r by lia; f_equal; lia).
  pose proof (Z.pow_pos_nonneg 2 (53 - d) ltac:(lia) ltac:(lia)) as Hp2.
  unfold dbl, binary_normalize, binary_round, shl_align, fexp, emin. fold d.
  replace (Z.max (d + 0 - 53) (3 - 1024 - 53) - 0) with (d - 53) by lia.
  destruct (d - 53) as [|k|k] eqn:Ek; [|lia|].
  - assert (d = 53) as Hd53 by lia. exists n, d. rewrite Hd53 in *. split; [lia|]. split; [lia|]. split; [lia|].
    by apply round_exact.
  - exists (Pos.iter xO n k), d. split; [done|]. split; [done|].
    assert (Z.pos (Pos.iter xO n k) = Z.pos n * 2 ^ (53 - d)) as Es.
    { replace (53 - d) with (Z.pos k) by lia. clear. induction k as [|k IH] using Pos.peano_ind; [cbn; lia|].
      rewrite Pos.iter_succ, Pos2Z.inj_xO, IH, Pos2Z.inj_succ, Z.pow_succ_r by lia. lia. }
    split; [done|]. replace (Z.max (d + 0 - 53) (3 - 1024 - 53)) with (Z.neg k) by lia. rewrite Ek.
    apply round_exact; [|lia]. rewrite Es, E1, E2. split; [apply Z.mul_le_mono_nonneg_r; lia|apply Z.mul_lt_mono_pos_r; lia].
Qed.

Lemma dbl_num n : 0 <= n < 2 ^ 53 -> is_num (dbl n 0) = true.
Proof.
  intros Hn. destruct (decide (n = 0)) as [->|]; [done|].
  destruct (dbl_pos n ltac:(lia)) as (p & d & _ & _ & _ & ->). done.
Qed.

Lemma dbl_flt a b : 0 <= a < 2 ^ 53 -> 0 <= b < 2 ^ 53 -> flt (dbl a 0) (dbl b 0) = (a <? b).
Proof.
  intros Ha Hb. apply Bool.eq_true_iff_eq. rewrite flt_key, Z.ltb_lt by (by apply dbl_num).
  assert (fkey (dbl 0 0) = (0, 0, 0)) as E0 by done.
  destruct (decide (a = 0)) as [->|Hna], (decide (b = 0)) as [->|Hnb]; rewrite ?E0; unfold key_lt; cbn [fst snd].
  - lia.
  - destruct (dbl_pos b ltac:(lia)) as (q & e & _ & _ & _ & ->). cbn. lia.
  - destruct (dbl_pos a ltac:(lia)) as (p & d & _ & _ & _ & ->). cbn. lia.
  - destruct (dbl_pos a ltac:(lia)) as (p & d & Hd & Hra & Hp & ->).
    destruct (dbl_pos b ltac:(lia)) as (q & e & He & Hrb & Hq & ->). cbn [fkey fst snd].
    destruct (Z.lt_trichotomy d e) as [Hl|[->|Hl]].
    + pose proof (Z.pow_le_mono_r 2 d (e - 1)). lia.
    + pose proof (Z.pow_pos_nonneg 2 (53 - e) ltac:(lia) ltac:(lia)). rewrite Hp, Hq.
      rewrite (Z.mul_lt_mono_pos_r (2 ^ (53 - e)) a b) by lia. lia.
    + pose proof (Z.pow_le_mono_r 2 e (d - 1)). lia.
Qed.
