(* ===== verification/OrdMap.v ===== *)
(** * Ordered maps

[std::map]: an association list whose keys increase, so that iteration
follows the order of the keys; and [std::multimap] restricted to the
operations the program uses. The key type has a total [compare]. *)
From S2P Require Import Prelude.

(** A total order on keys. UString, the text type of most keys, is not part
    of the repository; its [compare] is a parameter with these laws. *)
Class TextOrder (T : Type) := {
  tcompare : T -> T -> comparison;
  tcompare_eq : forall a b, tcompare a b = Eq <-> a = b;
  tcompare_antisym : forall a b, tcompare b a = CompOpp (tcompare a b);
  tcompare_trans : forall a b c, tcompare a b = Lt -> tcompare b c = Lt -> tcompare a c = Lt
}.

#[export] Instance Z_TextOrder : TextOrder Z.
Proof.
  refine {| tcompare := Z.compare |}.
  - intros a b. apply Z.compare_eq_iff.
  - intros a b. apply Z.compare_antisym.
  - intros a b c. rewrite !Z.compare_lt_iff. lia.
Defined.

(** Words in lexicographic order, a prefix before its extensions. *)
Section Lexicographic.
Context {T : Type} `{!TextOrder T}.

Fixpoint lex_compare (a b : list T) : comparison :=
  match a, b with
  | [], [] => Eq
  | [], _ => Lt
  | _, [] => Gt
  | x :: a, y :: b => match tcompare x y with Eq => lex_compare a b | c => c end
  end.

Lemma lex_compare_eq a : forall b, lex_compare a b = Eq <-> a = b.
Proof.
  induction a as [|x a IH]; intros [|y b]; cbn; [done..|].
  destruct (tcompare x y) eqn:E.
  - apply tcompare_eq in E as ->. rewrite IH. split; [by intros ->|by intros [= ->]].
  - split; [done|]. intros [= -> _]. by rewrite (proj2 (tcompare_eq y y)) in E.
  - split; [done|]. intros [= -> _]. by rewrite (proj2 (tcompare_eq y y)) in E.
Qed.

Lemma lex_compare_antisym a : forall b, lex_compare b a = CompOpp (lex_compare a b).
Proof.
  induction a as [|x a IH]; intros [|y b]; cbn; [done..|].
  rewrite (tcompare_antisym x y). destruct (tcompare x y); cbn; [apply IH|done..].
Qed.

Lemma lex_compare_trans a : forall b c, lex_compare a b = Lt -> lex_compare b c = Lt -> lex_compare a c = Lt.
Proof.
  induction a as [|x a IH]; intros [|y b] [|z c]; cbn; [done..|].
  destruct (tcompare x y) eqn:E1; [|intros _|done].
  - apply tcompare_eq in E1 as ->. destruct (tcompare y z); [apply IH|done..].
  - destruct (tcompare y z) eqn:E2; [|intros _|done].
    + apply tcompare_eq in E2 as <-. by rewrite E1.
    + by rewrite (tcompare_trans x y z).
Qed.

#[export] Instance list_TextOrder : TextOrder (list T) :=
  {| tcompare := lex_compare; tcompare_eq := fun a => lex_compare_eq a;
     tcompare_antisym := fun a => lex_compare_antisym a; tcompare_trans := fun a => lex_compare_trans a |}.
End Lexicographic.

(** [std::string]: the unsigned values of its characters. *)
Definition string_codes (s : string) : list Z :=
  map (fun c => Z.of_N (Ascii.N_of_ascii c)) (String.list_ascii_of_string s).

Lemma string_codes_inj s s' : string_codes s = string_codes s' -> s = s'.
Proof.
  intros H. rewrite <- (String.string_of_list_ascii_of_string s), <- (String.string_of_list_ascii_of_string s'). f_equal.
  revert H. unfold string_codes. generalize (String.list_ascii_of_string s') as l'.
  induction (String.list_ascii_of_string s) as [|c l IH]; intros [|c' l'] [=]; [done|]. f_equal; [|by apply IH].
  rewrite <- (Ascii.ascii_N_embedding c), <- (Ascii.ascii_N_embedding c'). f_equal. lia.
Qed.

#[export] Instance string_TextOrder : TextOrder string.
Proof.
  refine {| tcompare := fun a b => lex_compare (string_codes a) (string_codes b) |}.
  - intros a b. rewrite lex_compare_eq. split; [apply string_codes_inj|by intros ->].
  - intros a b. apply lex_compare_antisym.
  - intros a b c. apply lex_compare_trans.
Defined.

Definition tlt {T} `{!TextOrder T} (a b : T) : Prop := tcompare a b = Lt.

Section TextOrder.
Context {T : Type} `{!TextOrder T}.

Lemma tcompare_refl (a : T) : tcompare a a = Eq.
Proof. by apply tcompare_eq. Qed.

Lemma tcompare_gt (a b : T) : tcompare a b = Gt -> tcompare b a = Lt.
Proof. intros H. by rewrite tcompare_antisym, H. Qed.

Lemma tcompare_lt_gt (a b : T) : tcompare a b = Lt -> tcompare b a = Gt.
Proof. intros H. by rewrite tcompare_antisym, H. Qed.

Lemma tlt_trans (a b c : T) : tlt a b -> tlt b c -> tlt a c.
Proof. apply tcompare_trans. Qed.

Lemma tlt_irrefl (a : T) : ~ tlt a a.
Proof. unfold tlt. by rewrite tcompare_refl. Qed.

#[export] Instance text_eq_dec : EqDecision T.
Proof.
  intros a b. destruct (tcompare a b) eqn:E.
  - left. by apply tcompare_eq.
  - right. intros ->. by rewrite tcompare_refl in E.
  - right. intros ->. by rewrite tcompare_refl in E.
Defined.
End TextOrder.

Section OrdMap.
Context {K V : Type} `{!TextOrder K}.
Notation ordmap := (list (K * V)).
Implicit Types (m : ordmap) (k : K) (v : V).

Fixpoint om_find m k : option V :=
  match m with
  | [] => None
  | (k', v) :: m' =>
      match tcompare k k' with Eq => Some v | Lt => None | Gt => om_find m' k end
  end.

(** [m[k] = v] *)
Fixpoint om_set m k v : ordmap :=
  match m with
  | [] => [(k, v)]
  | (k', v') :: m' =>
      match tcompare k k' with
      | Eq => (k, v) :: m'
      | Lt => (k, v) :: m
      | Gt => (k', v') :: om_set m' k v
      end
  end.

(** [m.insert(make_pair(k, v))]: nothing happens when the key is there. The
    flag says whether it was inserted. *)
Definition om_insert m k v : ordmap * bool :=
  match om_find m k with Some _ => (m, false) | None => (om_set m k v, true) end.

(** The keys increase. *)
Definition om_sorted m : Prop := StronglySorted tlt (map fst m).

Lemma om_sorted_cons k v m :
  om_sorted ((k, v) :: m) <-> Forall (tlt k) (map fst m) /\ om_sorted m.
Proof. unfold om_sorted. cbn. apply StronglySorted_cons. Qed.

Lemma om_find_below m k : Forall (tlt k) (map fst m) -> om_find m k = None.
Proof.
  destruct m as [|[k' v'] m]; [done|]. cbn. intros H. apply Forall_cons in H as [H _].
  unfold tlt in H. by rewrite H.
Qed.

Lemma Forall_tlt_trans k k' l : tlt k k' -> Forall (tlt k') l -> Forall (tlt k) l.
Proof. intros H Hl. eapply Forall_impl; [done|]. intros x. by apply tlt_trans. Qed.

Lemma om_set_keys m k v k' : k' ∈ map fst (om_set m k v) <-> k' = k \/ k' ∈ map fst m.
Proof.
  induction m as [|[a b] m IH]; cbn [om_set map fst].
  - rewrite !elem_of_cons, elem_of_nil. tauto.
  - destruct (tcompare k a) eqn:E; cbn [map fst]; rewrite !elem_of_cons; [|tauto|rewrite IH; tauto].
    apply tcompare_eq in E as ->. tauto.
Qed.

Lemma om_set_sorted m k v : om_sorted m -> om_sorted (om_set m k v).
Proof.
  induction m as [|[a b] m IH]; cbn; intros Hs.
  - apply om_sorted_cons. split; [constructor|done].
  - apply om_sorted_cons in Hs as [H1 H2]. destruct (tcompare k a) eqn:E.
    + apply tcompare_eq in E as ->. by apply om_sorted_cons.
    + apply om_sorted_cons. split; [|by apply om_sorted_cons].
      cbn. constructor; [done|]. by eapply Forall_tlt_trans.
    + apply om_sorted_cons. split; [|by apply IH]. rewrite Forall_forall in H1 |- *.
      intros x [->|Hx]%om_set_keys; [by apply tcompare_gt|by apply H1].
Qed.

Lemma om_find_set_eq m k v : om_find (om_set m k v) k = Some v.
Proof.
  induction m as [|[a b] m IH]; cbn; [by rewrite tcompare_refl|].
  destruct (tcompare k a) eqn:E; cbn; rewrite ?tcompare_refl, ?E; done.
Qed.

Lemma om_find_set_ne m k v k' :
  om_sorted m -> k' <> k -> om_find (om_set m k v) k' = om_find m k'.
Proof.
  intros Hs Hne. induction m as [|[a b] m IH]; cbn.
  - destruct (tcompare k' k) eqn:E; [by apply tcompare_eq in E|done..].
  - apply om_sorted_cons in Hs as [H1 H2]. destruct (tcompare k a) eqn:E; cbn.
    + apply tcompare_eq in E as ->. destruct (tcompare k' a) eqn:E'; [by apply tcompare_eq in E'|done..].
    + destruct (tcompare k' k) eqn:E'; [by apply tcompare_eq in E'| |done].
      by rewrite (tcompare_trans k' k a).
    + by rewrite IH.
Qed.

Lemma om_find_elem m k v : om_sorted m -> om_find m k = Some v <-> (k, v) ∈ m.
Proof.
  induction m as [|[a b] m IH]; cbn; intros Hs; [by rewrite elem_of_nil|].
  apply om_sorted_cons in Hs as [H1 H2]. rewrite elem_of_cons. rewrite Forall_forall in H1.
  assert (forall k' v', (k', v') ∈ m -> tlt a k') as Hlt.
  { intros k' v' Hin. apply H1. rewrite list_elem_of_fmap. by exists (k', v'). }
  destruct (tcompare k a) eqn:E.
  - apply tcompare_eq in E as ->. split; [intros [= ->]; by left|].
    intros [[= ->]|Hin]; [done|]. by destruct (tlt_irrefl a (Hlt _ _ Hin)).
  - split; [done|]. intros [[= -> ->]|Hin]; [by rewrite tcompare_refl in E|].
    specialize (Hlt _ _ Hin). destruct (tlt_irrefl k). by eapply tlt_trans.
  - rewrite IH by done. split; [by right|]. intros [[= -> ->]|Hin]; [by rewrite tcompare_refl in E|done].
Qed.

(** Sorted maps with the same entries are equal. *)
Lemma om_sorted_NoDup m : om_sorted m -> NoDup (map fst m).
Proof.
  unfold om_sorted. induction 1 as [|k l Hl IH Hk]; constructor; [|done].
  intros Hin. rewrite Forall_forall in Hk. by destruct (tlt_irrefl k (Hk k Hin)).
Qed.

Lemma om_ext m m' : om_sorted m -> om_sorted m' -> (forall k, om_find m k = om_find m' k) -> m = m'.
Proof.
  revert m'. induction m as [|[a b] m IH]; intros [|[a' b'] m'] Hs Hs' E; [done|..].
  - specialize (E a'). cbn in E. by rewrite tcompare_refl in E.
  - specialize (E a). cbn in E. by rewrite tcompare_refl in E.
  - pose proof Hs as [H1 H2]%om_sorted_cons. pose proof Hs' as [H1' H2']%om_sorted_cons.
    assert (a = a') as <-.
    { pose proof (E a) as Ea. pose proof (E a') as Ea'. cbn in Ea, Ea'. rewrite tcompare_refl in Ea, Ea'.
      destruct (tcompare a a') eqn:C; [by apply tcompare_eq|done|]. rewrite (tcompare_gt _ _ C) in Ea'. done. }
    pose proof (E a) as Ea. cbn in Ea. rewrite tcompare_refl in Ea. injection Ea as <-. f_equal.
    apply IH; [done..|]. intros k. destruct (tcompare k a) eqn:C.
    + apply tcompare_eq in C as ->. by rewrite !om_find_below.
    + rewrite !om_find_below; [done|by eapply Forall_tlt_trans..].
    + specialize (E k). cbn in E. by rewrite C in E.
Qed.

Lemma om_insert_sorted m k v : om_sorted m -> om_sorted (om_insert m k v).1.
Proof. intros H. unfold om_insert. destruct (om_find m k); [done|]. by apply om_set_sorted. Qed.
End OrdMap.

(** [std::multimap]: a new entry goes after the entries that are not greater. *)
Section Multimap.
Context {K V : Type} (lt : K -> K -> bool).

Fixpoint mm_insert (m : list (K * V)) (k : K) (v : V) : list (K * V) :=
  match m with
  | [] => [(k, v)]
  | (k', v') :: m' => if lt k k' then (k, v) :: m else (k', v') :: mm_insert m' k v
  end.

Lemma mm_insert_perm m k v : mm_insert m k v ≡ₚ (k, v) :: m.
Proof.
  induction m as [|[k' v'] m IH]; cbn; [done|]. destruct (lt k k'); [done|].
  rewrite IH. apply Permutation_swap.
Qed.
End Multimap.

(** ** Ids by group and key

A table of maps, one per group, from a key to the id that carries it: each
id in ]lo, n[ has a group and a key, and the map of a group holds exactly its
ids. *)
Section Edges.
Context {K : Type} `{!TextOrder K} (lo : Z).
Implicit Types (keys : list K) (groups : list Z) (table : list (list (K * Z))).

Definition edges keys groups table (n : Z) : Prop :=
  forall p, 0 <= p < vsize table -> exists m, vget table p = Ret m /\ om_sorted m /\
    forall s id, om_find m s = Some id <-> lo < id < n /\ vget groups id = Ret p /\ vget keys id = Ret s.

Definition edges_unambiguous keys groups (n : Z) : Prop :=
  forall id id', lo < id < n -> lo < id' < n -> vget groups id = vget groups id' ->
    vget keys id = vget keys id' -> id = id'.

Lemma edges_empty keys groups (num n : Z) :
  n <= lo + 1 -> edges keys groups (replicate (Z.to_nat num) []) n.
Proof.
  intros Hn p Hp. exists []. unfold vsize in Hp. rewrite length_replicate in Hp. split.
  - apply vget_Ret. split; [lia|]. apply lookup_replicate_2. lia.
  - split; [constructor|]. intros s id. change (om_find [] s) with (@None Z). split; [done|]. lia.
Qed.

(** The entry of the next id. *)
Lemma edges_add keys groups table n p s :
  lo < n -> 0 <= p < vsize table -> vget groups n = Ret p -> vget keys n = Ret s ->
  edges keys groups table n ->
  (forall id, lo < id < n -> vget groups id = vget groups n -> vget keys id = vget keys n -> id = n) ->
  exists m table', vget table p = Ret m /\ vset table p (om_set m s n) = Ret table' /\
    vsize table' = vsize table /\ edges keys groups table' (n + 1).
Proof.
  intros Hn Hp Ep Es He Huniq. destruct (He p Hp) as (m & Em & Hms & Hm).
  destruct (vset table p (om_set m s n)) as [table'| | |] eqn:Et; try (rewrite vset_Ret in Et by lia; done).
  pose proof (vset_vsize _ _ _ _ Et) as Hsz. exists m, table'. split; [done|]. split; [done|]. split; [done|].
  intros q Hq. rewrite Hsz in Hq. destruct (He q Hq) as (mq & Emq & Hmqs & Hmq).
  rewrite (vget_vset _ _ _ _ _ Et) by lia. destruct (Z.eqb_spec q p) as [->|Hne].
  - rewrite Em in Emq. injection Emq as <-. eexists. split; [done|]. split; [by apply om_set_sorted|].
    intros s' id. destruct (decide (s' = s)) as [->|Hss].
    + rewrite om_find_set_eq. split; [intros [= <-]; split_and!; done || lia|].
      intros (Hid & Hpi & Hsi). f_equal. destruct (decide (id = n)) as [|]; [done|].
      symmetry. apply Huniq; [lia|congruence..].
    + rewrite om_find_set_ne, Hm by done. split; [intros (? & ? & ?); split_and!; done || lia|].
      intros (Hid & Hpi & Hsi). destruct (decide (id = n)) as [->|]; [congruence|]. split_and!; done || lia.
  - exists mq. split; [done|]. split; [done|]. intros s' id. rewrite Hmq.
    split; [intros (? & ? & ?); split_and!; done || lia|].
    intros (Hid & Hpi & Hsi). destruct (decide (id = n)) as [->|]; [congruence|]. split_and!; done || lia.
Qed.

(** The entries do not change with keys and groups that come later. *)
Lemma edges_frame keys groups keys' groups' table n :
  (forall id, lo < id < n -> vget keys' id = vget keys id /\ vget groups' id = vget groups id) ->
  edges keys groups table n -> edges keys' groups' table n.
Proof.
  intros Hf He p Hp. destruct (He p Hp) as (m & Em & Hs & Hm). exists m. split; [done|]. split; [done|].
  intros s id. rewrite Hm. split; intros (Hi & H1 & H2); (split; [done|]); destruct (Hf id Hi) as [E1 E2];
    split; congruence.
Qed.

(** A new group has no ids yet. *)
Lemma edges_new_group keys groups table n :
  (forall id, lo < id < n -> vget groups id <> Ret (vsize table)) ->
  edges keys groups table n -> edges keys groups (table ++ [[]]) n.
Proof.
  intros Hg He p Hp. rewrite vsize_app in Hp. change (vsize [[]]) with 1 in Hp.
  destruct (decide (p = vsize table)) as [->|Hne].
  - exists []. split; [apply vget_app_last|]. split; [constructor|]. intros s id.
    change (om_find [] s) with (@None Z). split; [done|]. intros (Hi & H1 & _). by destruct (Hg id Hi).
  - rewrite vget_app_l by lia. apply He. lia.
Qed.

Lemma edges_no_clash keys groups table n :
  (forall id, lo < id < n -> exists p, vget groups id = Ret p /\ 0 <= p < vsize table) ->
  0 <= lo + 1 /\ n <= vsize keys -> edges keys groups table n -> edges_unambiguous keys groups n.
Proof.
  intros Hg Hk He id id' Hi Hi' E5 E6. destruct (Hg id Hi) as (p & Ep & Hlt).
  destruct (vget_in_range keys id ltac:(lia)) as [s Es]. destruct (He p Hlt) as (m & _ & _ & Hm).
  assert (om_find m s = Some id) as F1 by (by apply Hm).
  assert (om_find m s = Some id') as F2 by (apply Hm; split_and!; try congruence; lia). congruence.
Qed.

(** Keys and groups determine the table. *)
Lemma edges_unique keys groups table table' n :
  vsize table = vsize table' ->
  edges keys groups table n -> edges keys groups table' n -> table = table'.
Proof.
  intros Hsz He He'. unfold vsize in *. apply list_eq. intros i. destruct (decide (i < length table)%nat) as [Hi|Hi].
  - destruct (He (Z.of_nat i)) as (m & Em & Hms & Hm); [unfold vsize; lia|].
    destruct (He' (Z.of_nat i)) as (m' & Em' & Hms' & Hm'); [unfold vsize; lia|].
    apply vget_Ret in Em as [_ Em], Em' as [_ Em']. rewrite Nat2Z.id in *. rewrite Em, Em'. f_equal.
    apply om_ext; [done..|]. intros s. destruct (om_find m s) as [id|] eqn:E.
    + apply Hm, Hm' in E. done.
    + destruct (om_find m' s) as [id|] eqn:E'; [|done]. apply Hm', Hm in E'. congruence.
  - rewrite !lookup_ge_None_2 by lia. done.
Qed.
End Edges.

(** ** Maps of counts *)
(** The map holds the function's non-zero values. *)
Definition counts (m : list (Z * Z)) (g : Z -> Z) : Prop :=
  om_sorted m /\ forall k, om_find m k = if g k =? 0 then None else Some (g k).

Lemma counts_ext m g h : counts m g -> (forall k, g k = h k) -> counts m h.
Proof. intros [H1 H2] E. split; [done|]. intros k. by rewrite H2, E. Qed.

Lemma counts_nil : counts [] (fun _ => 0).
Proof. split; [constructor|done]. Qed.

Lemma counts_default m g k : counts m g -> default 0 (om_find m k) = g k.
Proof. intros [_ ->]. by destruct (Z.eqb_spec (g k) 0). Qed.

Lemma counts_add m g k :
  counts m g -> 0 <= g k -> counts (om_set m k (g k + 1)) (fun j => g j + (if j =? k then 1 else 0)).
Proof.
  intros [Hs Hm] Hk. split; [by apply om_set_sorted|]. intros j. destruct (Z.eqb_spec j k) as [->|Hne].
  - rewrite om_find_set_eq. by destruct (Z.eqb_spec (g k + 1) 0); [lia|].
  - rewrite om_find_set_ne, Hm by done. by rewrite Z.add_0_r.
Qed.

Lemma counts_keys m g k : counts m g -> k ∈ map fst m <-> g k <> 0.
Proof.
  intros [Hs Hg]. rewrite list_elem_of_fmap. split.
  - intros ([w n] & -> & Hw). cbn. apply om_find_elem in Hw; [|done]. rewrite Hg in Hw.
    by destruct (Z.eqb_spec (g w) 0).
  - intros Hk. exists (k, g k). split; [done|]. apply om_find_elem; [done|]. rewrite Hg. by destruct (Z.eqb_spec (g k) 0).
Qed.
