(* ===== verification/TopK.v ===== *)
(** * Keeping the best of a sequence

The idiom of search-manager, mining-manager and aggregator-manager code:
offer every candidate to a bounded priority queue with [insert], then
[pop] it empty into a vector from the back. Proved against the queue
interface of PQueue.v, and stated for the heap of PriorityQueue.h. *)
From S2P Require Import Prelude PQueue.

Section TopK.
Context {Q A : Type} `{!PQueue Q A}.

Definition offer_all (lt : A -> A -> bool) (l : list A) (q : Q) : res Q :=
  mfold (fun a q => let* (_, q) := pq_insert lt a q in Ret q) l q.

(** [n] pops; the popped elements, the last one first. *)
Definition pop_into (lt : A -> A -> bool) (n : Z) (q : Q) : res (list A * Q) :=
  mfold (fun _ '(v, q) => let* (a, q) := pq_pop lt q in Ret (a :: v, q)) (seqZ 0 n) ([], q).

(** The [k] greatest of [l], the greatest first. *)
Definition top_k (lt : A -> A -> bool) (k : Z) (l : list A) : res (list A) :=
  let* q := offer_all lt l (pq_new k) in
  let* (v, _) := pop_into lt (pq_size q) q in Ret v.
End TopK.

(** [r] consists of the [k] greatest of [l]: the rest of [l] is not greater. *)
Definition best_of {A} (lt : A -> A -> bool) (k : Z) (l r : list A) : Prop :=
  vsize r = Z.min k (vsize l) /\
  exists rest, l ≡ₚ r ++ rest /\ forall x y, x ∈ r -> y ∈ rest -> lt x y = false.

Definition descending {A} (lt : A -> A -> bool) (l : list A) : Prop :=
  StronglySorted (fun a b => lt a b = false) l.

Section TopKSpec.
Context {Q A : Type} `{!PQueue Q A, !PQueueSpec Q A}.
Context (lt : A -> A -> bool) `{!StrictWeak lt}.
Implicit Types (q : Q).

Lemma best_of_perm k l r r' : best_of lt k l r -> r ≡ₚ r' -> best_of lt k l r'.
Proof.
  intros (H1 & rest & H2 & H3) Hp. split; [unfold vsize in *; by rewrite <- Hp|].
  exists rest. rewrite <- Hp. split; [done|]. intros x y Hx. apply H3. by rewrite Hp.
Qed.

Lemma best_of_perm_l k l l' r : best_of lt k l r -> l ≡ₚ l' -> best_of lt k l' r.
Proof.
  intros (H1 & rest & H2 & H3) Hp. split; [unfold vsize in *; by rewrite <- Hp|].
  exists rest. by rewrite <- Hp.
Qed.

Lemma offer_all_spec k l : forall q seen r,
  pq_rep lt k q r -> best_of lt k seen r ->
  exists q' r', offer_all lt l q = Ret q' /\ pq_rep lt k q' r' /\ best_of lt k (seen ++ l) r'.
Proof.
  induction l as [|a l IH]; intros q seen r Hq Hb.
  { exists q, r. by rewrite app_nil_r. }
  assert (exists b q1 r1, pq_insert lt a q = Ret (b, q1) /\ pq_rep lt k q1 r1 /\
    best_of lt k (seen ++ [a]) r1) as (b & q1 & r1 & E & Hq1 & Hb1).
  { destruct Hb as (Hsz & rest & Hp & Hle). pose proof (pq_rep_size _ _ _ _ Hq) as Hk.
    destruct (pq_insert_spec lt k q r a _ Hq) as (Hput & Hrep & Hzero).
    destruct (decide (vsize r < k)) as [Hlt|Hge].
    - destruct (Hput Hlt) as (q1 & E & Hq1). exists true, q1, (a :: r). split; [done|]. split; [done|].
      assert (rest = []) as ->.
      { assert (vsize seen = vsize r + vsize rest) by (unfold vsize; rewrite Hp, length_app; lia).
        destruct rest; [done|]. rewrite vsize_cons in *. pose proof (vsize_nonneg rest). lia. }
      split.
      + rewrite vsize_app, !vsize_cons. change (vsize (@nil A)) with 0. lia.
      + exists []. split; [rewrite Hp, !app_nil_r; apply Permutation_app_comm|].
        by intros x y _ ?%elem_of_nil.
    - destruct (decide (k = 0)) as [->|Hk0].
      + rewrite Hzero by done. exists false, q, r. split; [done|]. split; [done|]. split.
        * rewrite vsize_app, vsize_cons. change (vsize (@nil A)) with 0.
          pose proof (vsize_nonneg seen). lia.
        * destruct r; [|rewrite vsize_cons in *; pose proof (vsize_nonneg r); lia].
          exists (seen ++ [a]). split; [done|]. by intros x y ?%elem_of_nil.
      + destruct (pq_top_spec lt k q r _ Hq) as (t & r' & Et & Hr & Hmin).
        { intros ->. change (vsize (@nil A)) with 0 in *. lia. }
        specialize (Hrep t r' ltac:(lia) Hr Et). destruct (lt a t) eqn:Eat.
        * exists false, q, r. split; [done|]. split; [done|]. split.
          -- rewrite vsize_app, vsize_cons. change (vsize (@nil A)) with 0. lia.
          -- exists (rest ++ [a]). split; [by rewrite Hp, <- app_assoc|].
             intros x y Hx [Hy|Hy%list_elem_of_singleton]%elem_of_app; [by apply Hle|]. subst y.
             pose proof (Hmin x Hx). pose proof (sw_asym _ _ _ Eat).
             by apply (sw_incomp a t x).
        * destruct Hrep as (q1 & E & Hq1). exists true, q1, (a :: r'). split; [done|]. split; [done|]. split.
          -- rewrite vsize_app, !vsize_cons. change (vsize (@nil A)) with 0.
             assert (vsize r = 1 + vsize r') by (unfold vsize; rewrite Hr; cbn; lia). lia.
          -- exists (t :: rest). split.
             { rewrite Hp, Hr, (Permutation_app_comm _ [a]). cbn. constructor. apply Permutation_middle. }
             intros x y Hx Hy. apply elem_of_cons in Hx as [->|Hx], Hy as [->|Hy].
             ++ done.
             ++ apply (sw_incomp y t a); [|done]. apply Hle; [rewrite Hr; by left|done].
             ++ apply Hmin. rewrite Hr. by right.
             ++ apply Hle; [rewrite Hr; by right|done]. }
  unfold offer_all. cbn [mfold]. rewrite E. rsimpl.
  destruct (IH q1 _ r1 Hq1 Hb1) as (q' & r' & E' & Hq' & Hb'). exists q', r'.
  rewrite <- app_assoc in Hb'. done.
Qed.

Lemma pop_into_spec k n q r :
  pq_rep lt k q r -> 0 <= n <= vsize r ->
  exists v q' r', pop_into lt n q = Ret (v, q') /\ pq_rep lt k q' r' /\
    r ≡ₚ v ++ r' /\ vsize v = n /\ descending lt v /\
    (forall x y, x ∈ v -> y ∈ r' -> lt y x = false).
Proof.
  intros Hq Hn. unfold pop_into.
  edestruct (mfold_seqZ (fun (_ : Z) '(v, q) => let* (a, q) := pq_pop lt q in Ret (a :: v, q))
    (fun i '(v, q) => exists r', pq_rep lt k q r' /\ r ≡ₚ v ++ r' /\ vsize v = i /\
       descending lt v /\ (forall x y, x ∈ v -> y ∈ r' -> lt y x = false)) 0 n ([], q))
    as ([v q'] & E & r' & H); [lia| | |].
  - intros i [v q1] Hi (r1 & Hq1 & Hp & Hsz & Hd & Hle).
    assert (r1 <> []) as Hne.
    { intros ->. rewrite app_nil_r in Hp. unfold vsize in *. rewrite Hp in Hn. lia. }
    destruct (pq_pop_spec lt k q1 r1 _ Hq1 Hne) as (a & r2 & _ & Hr & Hmin & Hpop).
    destruct (Hpop lt _ (fun _ _ _ _ => eq_refl)) as (q2 & -> & Hq2). rsimpl.
    eexists (_, _). split; [done|]. exists r2. split; [done|]. split.
    { rewrite Hp, Hr. cbn. by rewrite Permutation_middle. }
    split; [rewrite vsize_cons; lia|]. split.
    + constructor; [done|]. rewrite Forall_forall. intros x Hx. apply Hle; [done|]. rewrite Hr. by left.
    + intros x y [->|Hx]%elem_of_cons Hy.
      * apply Hmin. rewrite Hr. by right.
      * apply Hle; [done|]. rewrite Hr. by right.
  - exists r. split; [done|]. split; [done|]. split; [done|]. split; [constructor|].
    by intros x y ?%elem_of_nil.
  - rewrite E. exists v, q', r'. destruct H as (H1 & H2 & H3 & H4 & H5).
    split_and!; try done; lia.
Qed.

Lemma top_k_spec k l :
  0 <= k < 2 ^ 31 ->
  exists v, top_k (Q := Q) lt k l = Ret v /\ best_of lt k l v /\ descending lt v.
Proof.
  intros Hk. unfold top_k.
  destruct (offer_all_spec k l (pq_new k) [] []) as (q & r & -> & Hq & Hb).
  - by apply pq_new_spec.
  - split; [unfold vsize; cbn; lia|]. exists []. split; [done|]. by intros x y ?%elem_of_nil.
  - rsimpl. rewrite (pq_size_spec lt k q r Hq).
    destruct (pop_into_spec k (vsize r) q r Hq) as (v & q' & r' & -> & Hq' & Hp & Hsz & Hd & Hle).
    { pose proof (vsize_nonneg r). lia. }
    rsimpl. exists v. split; [done|]. split; [|done].
    assert (r' = []) as ->.
    { unfold vsize in *. rewrite Hp, length_app in Hsz. destruct r'; [done|]. cbn in Hsz. lia. }
    rewrite app_nil_r in Hp. by apply (best_of_perm k l r).
Qed.

(** *** An order that is weak on the offered elements only

The comparison of scores is not a weak order on NaN; it agrees with one
on numbers. *)
Section Agree.
Context (lt' : A -> A -> bool).

Definition agree_on (l : list A) : Prop := forall x y, x ∈ l -> y ∈ l -> lt' x y = lt x y.

Lemma offer_all_agree k l : forall q seen r,
  pq_rep lt k q r -> best_of lt k seen r -> agree_on (seen ++ l) ->
  offer_all lt' l q = offer_all lt l q.
Proof.
  induction l as [|a l IH]; intros q seen r Hq Hb Hag; [done|]. unfold offer_all. cbn [mfold].
  assert (forall x, x ∈ r -> x ∈ seen) as Hsub.
  { destruct Hb as (_ & rest & Hp & _). intros x Hx. rewrite Hp. by apply elem_of_app; left. }
  destruct (pq_cong lt lt' k q r a Hq) as [_ ->].
  { intros x y Hx Hy. apply Hag; set_solver. }
  destruct (offer_all_spec k [a] q seen r Hq Hb) as (q1 & r1 & E & Hq1 & Hb1).
  unfold offer_all in E. cbn [mfold] in E. destruct (pq_insert lt a q) as [[b q2]| | |]; try done.
  cbn in E. injection E as E; subst q2. rsimpl. apply (IH q1 (seen ++ [a]) r1); [done..|].
  by rewrite <- app_assoc.
Qed.

Lemma pop_into_agree k n : forall v q r,
  pq_rep lt k q r -> 0 <= n <= vsize r -> agree_on r ->
  forall i, mfold (fun (_ : Z) '(v, q) => let* (a, q) := pq_pop lt' q in Ret (a :: v, q)) (seqZ i n) (v, q) =
  mfold (fun (_ : Z) '(v, q) => let* (a, q) := pq_pop lt q in Ret (a :: v, q)) (seqZ i n) (v, q).
Proof.
  intros v q r Hq [Hn Hr] Hag. revert v q r Hq Hr Hag. pattern n. apply natlike_ind; [|clear n Hn|done].
  - intros v q r _ _ _ i. rewrite seqZ_nil by lia. done.
  - intros n Hn IH v q r Hq Hr Hag i. rewrite seqZ_cons, Z.pred_succ by lia. cbn [mfold].
    rewrite (pq_pop_cong lt lt' k q r Hq Hag).
    assert (r <> []) as Hne by (intros ->; unfold vsize in *; cbn in *; lia).
    destruct (pq_pop_spec lt k q r _ Hq Hne) as (a & r' & _ & Hp & _ & Hpop).
    destruct (Hpop lt _ (fun _ _ _ _ => eq_refl)) as (q' & -> & Hq'). rsimpl.
    apply (IH _ _ r'); [done| |].
    + unfold vsize in *. rewrite Hp in Hr. cbn in Hr. lia.
    + intros x y Hx Hy. apply Hag; rewrite Hp; by right.
Qed.

Lemma top_k_agree k l :
  0 <= k < 2 ^ 31 -> agree_on l ->
  exists v, top_k (Q := Q) lt' k l = Ret v /\ best_of lt' k l v /\ descending lt' v.
Proof.
  intros Hk Hag. destruct (top_k_spec k l Hk) as (v & E & Hb & Hd). exists v.
  assert (best_of lt k [] []) as Hb0.
  { split; [unfold vsize; cbn; lia|]. exists []. split; [done|]. by intros x y ?%elem_of_nil. }
  pose proof (pq_new_spec lt k Hk) as Hq0.
  assert (forall x, x ∈ v -> x ∈ l) as Hv.
  { destruct Hb as (_ & rest & Hp & _). intros x Hx. rewrite Hp. by apply elem_of_app; left. }
  split; [|split].
  - revert E. unfold top_k. rewrite (offer_all_agree k l (pq_new k) [] []) by done.
    destruct (offer_all_spec k l (pq_new k) [] [] Hq0 Hb0) as (q & r & -> & Hq & Hbr). rsimpl.
    rewrite (pq_size_spec lt k q r Hq). unfold pop_into. rewrite (pop_into_agree k (vsize r) [] q r Hq).
    + done.
    + pose proof (vsize_nonneg r). lia.
    + destruct Hbr as (_ & rest & Hp & _). intros x y Hx Hy.
      apply Hag; cbn in Hp; rewrite Hp; apply elem_of_app; by left.
  - destruct Hb as (Hsz & rest & Hp & Hle). split; [done|]. exists rest. split; [done|].
    intros x y Hx Hy. rewrite Hag; [by apply Hle|by apply Hv|]. rewrite Hp. apply elem_of_app. by right.
  - unfold descending in *. clear Hb E. induction Hd as [|a v Hd IH Ha]; constructor.
    + apply IH. intros x Hx. apply Hv. by right.
    + rewrite Forall_forall in Ha |- *. intros x Hx. rewrite Hag; [by apply Ha|apply Hv; by left|apply Hv; by right].
Qed.
End Agree.
End TopKSpec.

(** ** The sorted list

When only equal elements are incomparable, the best of a list in descending
order are a prefix of the sorted list. *)
Section SortDesc.
Context {A : Type} (lt : A -> A -> bool) `{!StrictWeak lt}.

Fixpoint insert_desc (a : A) (l : list A) : list A :=
  match l with
  | [] => [a]
  | b :: l' => if lt a b then b :: insert_desc a l' else a :: l
  end.

Definition sort_desc (l : list A) : list A := foldr insert_desc [] l.

Lemma insert_desc_perm a l : insert_desc a l ≡ₚ a :: l.
Proof. induction l as [|b l IH]; [done|]. cbn. destruct (lt a b); [|done]. rewrite IH. apply Permutation_swap. Qed.

Lemma sort_desc_perm l : sort_desc l ≡ₚ l.
Proof. induction l as [|a l IH]; [done|]. cbn. by rewrite insert_desc_perm, IH. Qed.

Lemma insert_desc_sorted a l : descending lt l -> descending lt (insert_desc a l).
Proof.
  induction 1 as [|b l Hs IH Hb]; cbn; [by repeat constructor|]. rewrite Forall_forall in Hb. destruct (lt a b) eqn:E.
  - constructor; [done|]. rewrite Forall_forall. intros x Hx. rewrite insert_desc_perm in Hx.
    apply elem_of_cons in Hx as [->|Hx]; [by apply sw_asym|by apply Hb].
  - constructor; [constructor; [done|by rewrite Forall_forall]|]. rewrite Forall_forall.
    intros x [->|Hx]%elem_of_cons; [done|]. apply (sw_incomp x b a); [by apply Hb|done].
Qed.

Lemma sort_desc_sorted l : descending lt (sort_desc l).
Proof. induction l as [|a l IH]; [constructor|]. by apply insert_desc_sorted. Qed.

Lemma descending_app l k : descending lt l -> descending lt k -> (forall x y, x ∈ l -> y ∈ k -> lt x y = false) -> descending lt (l ++ k).
Proof.
  induction 1 as [|a l Hs IH Ha]; [done|]. intros Hk Hlk. cbn. constructor.
  - apply IH; [done|]. intros x y Hx. apply Hlk. by right.
  - apply Forall_app. split; [done|]. rewrite Forall_forall. intros y Hy. apply Hlk; [by left|done].
Qed.

(** Incomparable elements of [l] are equal. *)
Definition total_on (l : list A) : Prop := forall x y, x ∈ l -> y ∈ l -> lt x y = false -> lt y x = false -> x = y.

Lemma total_on_perm l l' : l ≡ₚ l' -> total_on l -> total_on l'.
Proof. intros Hp Ht x y Hx Hy. apply Ht; by rewrite Hp. Qed.

Lemma total_on_sub l l' : l ⊆ l' -> total_on l' -> total_on l.
Proof. intros Hs Ht x y Hx Hy. apply Ht; by apply Hs. Qed.

Lemma descending_unique l l' : total_on l -> descending lt l -> descending lt l' -> l ≡ₚ l' -> l = l'.
Proof.
  revert l'. induction l as [|a l IH]; intros l' Ht Hl Hl' Hp; [by apply Permutation_nil_l in Hp|].
  destruct l' as [|b l']; [by apply Permutation_nil_r in Hp|].
  apply StronglySorted_inv in Hl as [Hl Ha], Hl' as [Hl' Hb]. rewrite Forall_forall in Ha, Hb.
  assert (a = b) as ->.
  { assert (b ∈ a :: l) as Hb1 by (rewrite Hp; by left). assert (a ∈ b :: l') as Ha1 by (rewrite <- Hp; by left).
    pose proof Hb1 as Hb2. pose proof Ha1 as Ha2. apply elem_of_cons in Hb1 as [->|Hb1]; [done|]. apply elem_of_cons in Ha1 as [->|Ha1]; [done|].
    apply Ht; [by left|done|by apply Ha|by apply Hb]. }
  f_equal. apply IH; [|done|done|by apply Permutation_cons_inv in Hp].
  eapply total_on_sub; [|done]. intros x Hx. by right.
Qed.

Lemma sort_desc_unique l l' : total_on l -> descending lt l' -> l ≡ₚ l' -> sort_desc l = l'.
Proof.
  intros Ht Hl' Hp. apply descending_unique; [|apply sort_desc_sorted|done|by rewrite sort_desc_perm].
  eapply total_on_perm; [symmetry; apply sort_desc_perm|done].
Qed.

Lemma sort_desc_cong l l' : total_on l -> l ≡ₚ l' -> sort_desc l = sort_desc l'.
Proof. intros Ht Hp. apply sort_desc_unique; [done|apply sort_desc_sorted|by rewrite sort_desc_perm]. Qed.

(** The upper and the lower part of a list. *)
Lemma sort_desc_split l v r : total_on l -> l ≡ₚ v ++ r -> (forall x y, x ∈ v -> y ∈ r -> lt x y = false) ->
  sort_desc l = sort_desc v ++ sort_desc r.
Proof.
  intros Ht Hp Hle. apply sort_desc_unique; [done| |by rewrite !sort_desc_perm].
  apply descending_app; [apply sort_desc_sorted..|]. intros x y. rewrite !sort_desc_perm. apply Hle.
Qed.

Lemma best_of_sort k l r : 0 <= k -> total_on l -> best_of lt k l r -> sort_desc r = take (Z.to_nat k) (sort_desc l).
Proof.
  intros Hk Ht (Hs & rest & Hp & Hle). rewrite (sort_desc_split l r rest) by done.
  assert (length (sort_desc r) = length r) as Hl by (by rewrite sort_desc_perm).
  unfold vsize in Hs. rewrite Hp, length_app in Hs. destruct (decide (Z.to_nat k <= length r)%nat) as [Hk2|Hk2].
  - replace (Z.to_nat k) with (length (sort_desc r)) by lia. by rewrite take_app_length.
  - assert (rest = []) as -> by (destruct rest; [done|cbn in Hs; lia]). cbn. rewrite app_nil_r, take_ge by lia. done.
Qed.

(** Nothing that was left out of a part is above the best of the parts. *)
Lemma left_out k l r rest others out orest x y :
  vsize r = Z.min k (vsize l) -> l ≡ₚ r ++ rest -> (forall x y, x ∈ r -> y ∈ rest -> lt x y = false) ->
  vsize out <= k -> r ++ others ≡ₚ out ++ orest -> (forall x y, x ∈ out -> y ∈ orest -> lt x y = false) ->
  x ∈ out -> y ∈ rest -> lt x y = false.
Proof.
  intros Hs Hp Hle Ho Hop Hole Hx Hy. destruct (lt x y) eqn:E; [|done]. exfalso.
  assert (count (lt x) r = vsize r) as H1.
  { apply count_all. intros z Hz. destruct (lt x z) eqn:E2; [done|]. by rewrite (sw_incomp y z x) in E by auto. }
  assert (count (lt x) orest = 0) as H2 by (apply count_none; auto).
  assert (count (lt x) r + count (lt x) others = count (lt x) out + count (lt x) orest) as H3.
  { rewrite <- !count_app. by apply count_perm. }
  apply elem_of_Permutation in Hx as [out' Hx]. rewrite (count_perm _ out (x :: out')) in H3 by done.
  rewrite count_cons, sw_irrefl in H3. pose proof (count_bounds (lt x) out'). pose proof (count_bounds (lt x) others).
  assert (vsize l = vsize r + vsize rest) as H4 by (unfold vsize; rewrite Hp, length_app; lia).
  assert (vsize out = 1 + vsize out') as H5 by (unfold vsize; rewrite Hx; cbn; lia).
  destruct rest as [|y' rest]; [by apply elem_of_nil in Hy|]. rewrite vsize_cons in H4. pose proof (vsize_nonneg rest). lia.
Qed.

(** The best of several lists are the best of their best. *)
Lemma best_parts k ls rs : Forall2 (best_of lt k) ls rs -> exists rest, concat ls ≡ₚ concat rs ++ rest /\
  forall y, y ∈ rest -> exists l r rest' others, vsize r = Z.min k (vsize l) /\ l ≡ₚ r ++ rest' /\
    (forall x z, x ∈ r -> z ∈ rest' -> lt x z = false) /\ concat rs ≡ₚ r ++ others /\ y ∈ rest'.
Proof.
  induction 1 as [|l r ls rs (Hs & rest' & Hp & Hle) _ (rest & IHp & IH)]; [by exists []; split; [|intros y ?%elem_of_nil]|].
  exists (rest' ++ rest). cbn [concat]. split.
  { rewrite Hp, IHp, <- !app_assoc. apply Permutation_app_head. rewrite !app_assoc. apply Permutation_app_tail, Permutation_app_comm. }
  intros y [Hy|Hy]%elem_of_app; [by exists l, r, rest', (concat rs)|].
  destruct (IH y Hy) as (l1 & r1 & rest1 & others & H1 & H2 & H3 & H4 & H5). exists l1, r1, rest1, (r ++ others). split_and!; try done.
  rewrite H4, !app_assoc. apply Permutation_app_tail, Permutation_app_comm.
Qed.

Lemma best_of_concat k j ls rs out : j <= k -> 0 <= k -> Forall2 (best_of lt k) ls rs -> best_of lt j (concat rs) out -> best_of lt j (concat ls) out.
Proof.
  intros Hj Hk Hall (Ho & orest & Hop & Hole). destruct (best_parts k ls rs Hall) as (rest & Hp & Hrest).
  pose proof (vsize_nonneg rest) as Hr0. assert (vsize (concat ls) = vsize (concat rs) + vsize rest) as El by (unfold vsize; rewrite Hp, length_app; lia).
  assert (forall y, y ∈ rest -> k <= vsize (concat rs)) as Hbig.
  { intros y (l & r & rest' & others & Hs & Hl & _ & Ho' & Hy)%Hrest. pose proof (vsize_nonneg others).
    assert (vsize l = vsize r + vsize rest') as H1 by (unfold vsize; rewrite Hl, length_app; lia).
    assert (vsize (concat rs) = vsize r + vsize others) as H2 by (unfold vsize; rewrite Ho', length_app; lia).
    destruct rest' as [|z rest']; [by apply elem_of_nil in Hy|]. rewrite vsize_cons in H1. pose proof (vsize_nonneg rest'). lia. }
  split.
  - destruct rest as [|y rest]; [unfold vsize in El; cbn in El; unfold vsize in *; lia|]. specialize (Hbig y ltac:(by left)). lia.
  - exists (orest ++ rest). split; [by rewrite Hp, Hop, app_assoc|]. intros x y Hx [Hy|Hy]%elem_of_app; [by apply Hole|].
    destruct (Hrest y Hy) as (l & r & rest' & others & Hs & Hl & Hle & Ho' & Hy'). apply (left_out k l r rest' others out orest x y); try done; [lia|].
    by rewrite <- Ho'.
Qed.

Lemma best_of_app k l l' r r' out : 0 <= k ->
  best_of lt k l r -> best_of lt k l' r' -> best_of lt k (r ++ r') out -> best_of lt k (l ++ l') out.
Proof.
  intros Hk Hl Hl' Ho. pose proof (best_of_concat k k [l; l'] [r; r'] out) as H. cbn in H. rewrite !app_nil_r in H. apply H; [done|done| |done]. do 2 (constructor; [done|]). constructor.
Qed.
End SortDesc.

(** Offering any sequence to a PriorityQueue of capacity [k] and popping
    it empty yields [min k n] elements, the greatest of the sequence, in
    descending order; no operation reads or writes outside the heap's array. *)
Theorem heap_top_k {A} `{!Inhabited A} (lt : A -> A -> bool) (k : Z) (l : list A) :
  StrictWeak lt -> 0 <= k < 2 ^ 31 ->
  exists v, top_k (Q := heap A) lt k l = Ret v /\ best_of lt k l v /\ descending lt v.
Proof. intros Hlt Hk. by apply top_k_spec. Qed.

Lemma heap_top_k_witness : 0 <= 3 < 2 ^ 31 /\
  exists v, top_k (Q := heap Z) (fun a b => a <? b) 3 [5; 1; 9; 7; 2] = Ret v /\
    best_of (fun a b => a <? b) 3 [5; 1; 9; 7; 2] v /\ descending (fun a b => a <? b) v.
Proof. split; [lia|]. apply heap_top_k; [apply (StrictWeak_key (fun x => x))|lia]. Defined.

Example heap_top_k_ex : top_k (Q := heap Z) (fun a b => a <? b) 3 [5; 1; 9; 7; 2] = Ret [9; 7; 5].
Proof. vm_compute. reflexivity. Qed.
