(* ===== verification/Storage.v ===== *)
(** * Containers saved to files

Models mining-manager/util/fcontainer_febird.h: a vector is written to a file
of its own when it has grown since it was last saved, and read back when
the file exists. The febird archives are not part of the repository: a file
holds the vector that was written to it. *)
From S2P Require Import Prelude.

(** A file that is missing, holds a vector, or cannot be read. *)
Inductive file (A : Type) := Missing | Content (l : list A) | Corrupt.
Arguments Missing {_}.
Arguments Content {_} _.
Arguments Corrupt {_}.

Section Storage.
Context {A : Type}.

(** [can_write]: opening and writing the file succeeds. *)
Definition save_container (can_write : bool) (container : list A) (f : file A) : bool * file A :=
  if can_write then (true, Content container) else (false, f).

(** The overload with the number of elements saved before. *)
Definition save_grown (can_write : bool) (container : list A) (count : Z) (f : file A) : bool * Z * file A :=
  let containerSize := u32 (vsize container) in
  if containerSize <=? count then (true, count, f)
  else
    let (ok, f) := save_container can_write container f in
    if ok then (true, containerSize, f) else (false, count, f).

(** A missing file leaves the container alone. *)
Definition load_container (f : file A) (container : list A) : bool * list A :=
  match f with
  | Missing => (true, container)
  | Content l => (true, l)
  | Corrupt => (false, container)
  end.

Definition load_counted (f : file A) (container : list A) (count : Z) : bool * list A * Z :=
  let (ok, container) := load_container f container in
  if ok then (true, container, u32 (vsize container)) else (false, container, count).
End Storage.

(** ** What the files hold *)

(** [f] holds the [count] elements of [l] that were saved: [l] may have grown
    since. A vector that was cleared and filled again counts none, and its old
    file will be replaced. *)
Definition saved_upto {A} (l : list A) (count : Z) (f : file A) : Prop :=
  match f with
  | Missing => count = 0
  | Content saved => (count = 0 /\ l <> []) \/ (saved `prefix_of` l /\ count = vsize saved)
  | Corrupt => False
  end.

Lemma never_saved {A} (l : list A) : saved_upto l 0 Missing.
Proof. done. Qed.

Lemma saved_grown {A} (l l' : list A) count f :
  l `prefix_of` l' -> saved_upto l count f -> saved_upto l' count f.
Proof.
  destruct f; [done| |done]. intros Hp [[-> Hl] | [H ->]]; [left|right; split; [by etrans|done]].
  split; [done|]. intros ->. by apply prefix_nil_inv in Hp.
Qed.

Lemma vsize_nil_inv {A} (l : list A) : vsize l <= 0 -> l = [].
Proof. destruct l; [done|]. rewrite vsize_cons. pose proof (vsize_nonneg l). lia. Qed.

(** Saving keeps what the file holds, whether it can be written or not; when
    it succeeds, the whole vector is counted and read back, by any container that
    is empty if the vector is. *)
Lemma save_grown_ok {A} (w : bool) (l : list A) count f :
  vsize l < 2 ^ 32 -> saved_upto l count f ->
  exists ok n f', save_grown w l count f = (ok, n, f') /\ saved_upto l n f' /\ (w = true -> ok = true) /\
    (ok = true -> n = vsize l /\
       forall container c, (l = [] -> container = []) -> load_counted f' container c = (true, l, vsize l)).
Proof.
  intros Hl Hf. unfold save_grown, save_container, load_counted, load_container. pose proof (vsize_nonneg l).
  rewrite u32_small by lia. destruct (Z.leb_spec (vsize l) count) as [Hc|Hc].
  - exists true, count, f. split; [done|]. split; [done|]. split; [done|]. intros _. destruct f as [|saved|]; [| |done].
    + cbn in Hf. subst count. apply vsize_nil_inv in Hc as ->. split; [done|]. intros container c ->; done.
    + destruct Hf as [[-> Hne] | [[rest ->] ->]]; [by apply vsize_nil_inv in Hc|].
      assert (rest = []) as -> by (rewrite vsize_app in Hc; apply vsize_nil_inv; lia).
      rewrite app_nil_r in *. split; [done|]. intros container c _. rewrite u32_small by lia. done.
  - destruct w.
    + exists true, (vsize l), (Content l). split; [done|]. split; [by right|]. split; [done|]. intros _. split; [done|].
      intros container c _. rewrite u32_small by lia. done.
    + exists false, count, f. done.
Qed.
