(* ===== verification/DocIterator.v ===== *)
(** * Document iterators: the interface and its abstract cursor

Models search-manager/DocumentIterator.h: the virtual operations [next],
[doc], [skipTo] and [tf] as a class, what a caller relies on as laws
against an abstract cursor, and the code that drives an iterator: the
default [DocumentIterator::skipTo], the loop of
[SearchThreadWorker::doSearch_] and the document ranges of
[SearchThreadMaster]. *)
From S2P Require Import Prelude.

(** search-manager/DocumentIterator.h: [MAX_DOC_ID], [MAX_COUNT]. *)
Definition MAX_DOC_ID : Z := 0xFFFFFFFF.
Definition MAX_COUNT : Z := 0xFFFFFFFF.

(** The virtual interface. [di_doc] is total: what it answers before the
    first [next] or after the end is unspecified by the laws below. *)
Class DocIterator (S : Type) := {
  di_next : S -> res (bool * S);
  di_doc : S -> Z;
  di_skipTo : Z -> S -> res (Z * S);
  di_tf : S -> res Z
}.

(** ** The abstract cursor

A cursor that was never moved has [cu_fresh = true] and [cu_pend] holds
every document; afterwards [cu_pend] starts with the current document,
and is empty past the end. *)
Record cursor := Cursor { cu_fresh : bool; cu_pend : list Z }.

Definition cursor_wf (c : cursor) : Prop :=
  ssorted (cu_pend c) /\ forall d, d ∈ cu_pend c -> 0 <= d < MAX_DOC_ID.

Definition pend_after_next (c : cursor) : list Z :=
  if cu_fresh c then cu_pend c else tail (cu_pend c).

Definition cursor_next (c : cursor) : bool * cursor :=
  let p := pend_after_next c in (negb (bool_decide (p = [])), Cursor false p).

Definition pend_from (t : Z) (p : list Z) : list Z := filter (fun d => t <= d) p.

#[global] Arguments pend_from : simpl never.

Definition cursor_skipTo (t : Z) (c : cursor) : Z * cursor :=
  let p := pend_from t (cu_pend c) in (default MAX_DOC_ID (head p), Cursor false p).

(** The reference iterator: a posting list read by an index reader whose
    [skipTo] stays on the current document when that is the target. *)
#[export] Instance cursor_DocIterator : DocIterator cursor := {
  di_next c := Ret (cursor_next c);
  di_doc c := default MAX_DOC_ID (head (cu_pend c));
  di_skipTo t c := Ret (cursor_skipTo t c);
  di_tf _ := Ret 1
}.

(** What a client that only calls [next] and [doc] relies on: the iterator
    simulates a cursor. *)
Class DocNextSpec (S : Type) `{!DocIterator S} := {
  di_rep : S -> cursor -> Prop;
  di_rep_wf : forall s c, di_rep s c -> cursor_wf c;
  di_next_spec : forall s c, di_rep s c -> exists s',
    di_next s = Ret (fst (cursor_next c), s') /\ di_rep s' (snd (cursor_next c));
  di_doc_spec : forall s d p, di_rep s (Cursor false (d :: p)) -> di_doc s = d
}.

(** The whole contract, [skipTo] included. *)
Class DocIteratorSpec (S : Type) `{!DocIterator S} := {
  di_next_part :: DocNextSpec S;
  di_skipTo_spec : forall s c t, di_rep s c -> 0 <= t < MAX_DOC_ID -> exists s',
    di_skipTo t s = Ret (fst (cursor_skipTo t c), s') /\
    di_rep s' (snd (cursor_skipTo t c))
}.

(** [skipTo] where the caller can rely on it: [can t c] says when an iterator
    at [c] may be asked to skip to [t]. Every caller may leave the current
    document ([before]); an iterator that stays on the current document when
    that is the target may always be asked ([always]). *)
Definition before (t : Z) (c : cursor) : Prop := cu_fresh c = true \/ forall x p, cu_pend c = x :: p -> x < t.
Definition always (t : Z) (c : cursor) : Prop := True.

Class CanSkip (can : Z -> cursor -> Prop) : Prop := {
  can_mono : forall t u c, can t c -> t <= u -> can u c;
  can_before : forall t c, before t c -> can t c;
  can_head : forall t d p q, can t (Cursor false (d :: p)) -> can t (Cursor false (d :: q))
}.

#[export] Instance before_CanSkip : CanSkip before.
Proof.
  split; [|done|].
  - intros t u c [H|H] Hle; [by left|right]. intros x p E. specialize (H x p E). lia.
  - intros t d p q [H|H]; [done|right]. intros x r [= <- _]. by apply (H d p).
Qed.

#[export] Instance always_CanSkip : CanSkip always.
Proof. done. Qed.

Class SkipLaw (S : Type) `{!DocIterator S, !DocNextSpec S} (can : Z -> cursor -> Prop) : Prop :=
  skip_law : forall s c t, di_rep s c -> 0 <= t < MAX_DOC_ID -> can t c -> exists s',
    di_skipTo t s = Ret (fst (cursor_skipTo t c), s') /\ di_rep s' (snd (cursor_skipTo t c)).

#[export] Instance spec_SkipLaw {S} `{!DocIterator S, !DocIteratorSpec S} can : SkipLaw S can.
Proof. intros s c t H Ht _. by apply di_skipTo_spec. Qed.

(** An iterator whose failed [skipTo] leaves [doc()] at [MAX_DOC_ID]. *)
Class DocIteratorMax (S : Type) `{!DocIterator S, !DocIteratorSpec S} :=
  di_skipTo_max : forall s c t s', di_rep s c -> 0 <= t < MAX_DOC_ID ->
    di_skipTo t s = Ret (MAX_DOC_ID, s') -> di_doc s' = MAX_DOC_ID.

(** What a search asks of an iterator nobody read yet: to go to the begin of
    the search's range, with [doc()] at [MAX_DOC_ID] when nothing is there. *)
Class StartLaw (S : Type) `{!DocIterator S, !DocNextSpec S} : Prop :=
  start_law : forall (s : S) (p : list Z) (t : Z), di_rep s (Cursor true p) -> 0 <= t < MAX_DOC_ID -> exists s' : S,
    di_skipTo t s = Ret (fst (cursor_skipTo t (Cursor true p)), s') /\
    di_rep s' (snd (cursor_skipTo t (Cursor true p))) /\
    (fst (cursor_skipTo t (Cursor true p)) = MAX_DOC_ID -> di_doc s' = MAX_DOC_ID).

#[export] Instance spec_StartLaw {S} `{!DocIterator S, !DocIteratorSpec S, !DocIteratorMax S} : StartLaw S.
Proof.
  intros s p t H Ht. destruct (di_skipTo_spec s _ t H Ht) as (s' & E & H'). exists s'. split; [done|]. split; [done|].
  intros Hm. apply (di_skipTo_max s _ t s' H Ht). by rewrite E, Hm.
Qed.

(** ** Facts on cursors *)

Lemma pend_from_elem t p d : d ∈ pend_from t p <-> d ∈ p /\ t <= d.
Proof. unfold pend_from. rewrite list_elem_of_filter. tauto. Qed.

Lemma pend_from_sorted t p : ssorted p -> ssorted (pend_from t p).
Proof. apply ssorted_filter. Qed.

Lemma pend_from_nil t p : pend_from t p = [] <-> forall d, d ∈ p -> d < t.
Proof.
  split.
  - intros E d Hd. destruct (decide (t <= d)); [|lia].
    assert (d ∈ pend_from t p) as Hin by by apply pend_from_elem.
    rewrite E in Hin. by apply elem_of_nil in Hin.
  - intros H. destruct (pend_from t p) as [|d l] eqn:E; [done|].
    assert (d ∈ pend_from t p) as [Hd Ht]%pend_from_elem by (rewrite E; by left).
    specialize (H d Hd). lia.
Qed.

Lemma pend_from_head t p d l :
  pend_from t p = d :: l -> d ∈ p /\ t <= d.
Proof. intros E. apply pend_from_elem. rewrite E. by left. Qed.

Lemma pend_from_all t p : (forall d, d ∈ p -> t <= d) -> pend_from t p = p.
Proof.
  intros H. unfold pend_from. induction p as [|x p IH]; [done|].
  rewrite filter_cons_True by (apply H; by left).
  f_equal. apply IH. intros d Hd. apply H. by right.
Qed.

Lemma pend_from_cons_lt t d p : d < t -> pend_from t (d :: p) = pend_from t p.
Proof. intros H. unfold pend_from. apply filter_cons_False. lia. Qed.

Lemma pend_from_cons_ge t d p : t <= d -> pend_from t (d :: p) = d :: pend_from t p.
Proof. intros H. unfold pend_from. by apply filter_cons_True. Qed.

Lemma pend_from_le t u p : t <= u -> pend_from u (pend_from t p) = pend_from u p.
Proof.
  intros H. unfold pend_from. rewrite list_filter_filter_l; [done|]. intros; lia.
Qed.

Lemma cursor_wf_next c : cursor_wf c -> cursor_wf (snd (cursor_next c)).
Proof.
  intros [Hs Hb]. unfold cursor_wf, pend_after_next; cbn.
  unfold pend_after_next. destruct (cu_fresh c); [done|].
  split; [by apply ssorted_tail|]. intros d Hd.
  apply Hb. by apply ssorted_elem_tail in Hd as [? _].
Qed.

Lemma cursor_wf_skipTo t c : cursor_wf c -> cursor_wf (snd (cursor_skipTo t c)).
Proof.
  intros [Hs Hb]. split; cbn; [by apply pend_from_sorted|].
  intros d [Hd _]%pend_from_elem. auto.
Qed.

Lemma cursor_wf_nil b : cursor_wf (Cursor b []).
Proof. split; [constructor|]. by intros d ?%elem_of_nil. Qed.

(** A failed or successful [skipTo], read off its answer. *)
Lemma cursor_skipTo_max t c :
  cursor_wf c -> fst (cursor_skipTo t c) = MAX_DOC_ID ->
  cu_pend (snd (cursor_skipTo t c)) = [].
Proof.
  intros [Hs Hb]. cbn. destruct (pend_from t (cu_pend c)) as [|d l] eqn:E; [done|].
  cbn. intros ->. apply pend_from_head in E as [Hd _]. specialize (Hb _ Hd). lia.
Qed.

Lemma cursor_skipTo_found t c d l :
  cursor_wf c -> pend_from t (cu_pend c) = d :: l ->
  fst (cursor_skipTo t c) = d /\ d < MAX_DOC_ID /\ t <= d.
Proof.
  intros [Hs Hb] E. cbn. rewrite E. cbn.
  apply pend_from_head in E as [Hd Ht]. specialize (Hb _ Hd). lia.
Qed.

Lemma pend_from_done t d p : ssorted (d :: p) -> t <= d -> pend_from t (d :: p) = d :: p.
Proof.
  intros Hs Ht. apply pend_from_all. intros x Hx.
  pose proof (ssorted_head_le _ _ _ Hs Hx). lia.
Qed.

Lemma cursor_wf_size c : cursor_wf c -> vsize (cu_pend c) <= MAX_DOC_ID.
Proof.
  intros [Hs Hb]. pose proof (ssorted_length _ 0 MAX_DOC_ID Hs Hb).
  unfold MAX_DOC_ID in *; lia.
Qed.

Lemma pend_after_next_size c : vsize (pend_after_next c) <= vsize (cu_pend c).
Proof.
  unfold pend_after_next. destruct (cu_fresh c), (cu_pend c) as [|d l];
    cbn [tail]; rewrite ?vsize_cons; lia.
Qed.

#[export] Instance cursor_DocNextSpec : DocNextSpec cursor.
Proof.
  refine {| di_rep (s c : cursor) := s = c /\ cursor_wf c |}.
  - by intros s c [_ H].
  - intros s c [-> H]. eexists. split; [done|]. split; [done|]. by apply cursor_wf_next.
  - by intros s d p [-> _].
Defined.

#[export] Instance cursor_DocIteratorSpec : DocIteratorSpec cursor.
Proof.
  refine {| di_next_part := cursor_DocNextSpec |}.
  intros s c t [-> H] _. eexists. split; [done|]. split; [done|].
  by apply cursor_wf_skipTo.
Defined.

#[export] Instance cursor_DocIteratorMax : DocIteratorMax cursor.
Proof. intros s c t s' _ _ [= H <-]. cbn in *. done. Qed.
#[export] Instance cursor_StartLaw : StartLaw (DocNextSpec0 := cursor_DocNextSpec) cursor.
Proof. exact (spec_StartLaw (DocIteratorSpec0 := cursor_DocIteratorSpec)). Qed.

(** ** The default [DocumentIterator::skipTo]

do { if (!next()) return MAX_DOC_ID; currDoc = doc(); } while (target > currDoc) *)
Section DefaultSkipTo.
Context {S : Type} `{!DocIterator S}.

Definition default_skipTo_body (target : Z) (s : S) : res (S + (Z * S)) :=
  let* (b, s) := di_next s in
  if negb b then Ret (inr (MAX_DOC_ID, s))
  else
    let currDoc := di_doc s in
    if currDoc <? target then Ret (inl s) else Ret (inr (currDoc, s)).

Definition default_skipTo (target : Z) : S -> res (Z * S) :=
  while_loop (default_skipTo_body target).

Context `{!DocNextSpec S}.

Lemma default_skipTo_step target p c s :
  di_rep s c /\ pend_from target (pend_after_next c) = p ->
  0 <= vsize (pend_after_next c) /\
  ((exists c' s', default_skipTo_body target s = Ret (inl s') /\
      (di_rep s' c' /\ pend_from target (pend_after_next c') = p) /\
      vsize (pend_after_next c') < vsize (pend_after_next c)) \/
   (exists r, default_skipTo_body target s = Ret (inr r) /\
      fst r = default MAX_DOC_ID (head p) /\ di_rep (snd r) (Cursor false p))).
Proof.
  intros [H <-]. split; [apply vsize_nonneg|].
  pose proof (cursor_wf_next c (di_rep_wf _ _ H)) as [Hs _].
  destruct (di_next_spec s c H) as (s' & E & H'). unfold default_skipTo_body.
  rewrite E. cbn in *. destruct (pend_after_next c) as [|d l]; cbn.
  - right. by eexists.
  - rewrite (di_doc_spec _ _ _ H'). destruct (Z.ltb_spec d target).
    + left. eexists _, s'. split; [done|]. split; [split; [exact H'|]|].
      * cbn. by rewrite pend_from_cons_lt.
      * cbn. rewrite vsize_cons. unfold pend_after_next; cbn. lia.
    + right. eexists. split; [done|]. by rewrite (pend_from_done target d l).
Qed.

(** The default always moves at least once, then stops at the first
    document that reaches the target. *)
Lemma default_skipTo_spec s c target :
  di_rep s c ->
  let p := pend_from target (pend_after_next c) in
  exists s', default_skipTo target s = Ret (default MAX_DOC_ID (head p), s') /\
    di_rep s' (Cursor false p).
Proof.
  intros H p.
  destruct (while_loop_rule _ _ _ _ (default_skipTo_step target p) c s)
    as ([d s'] & E & H1 & H2); [done| |].
  - pose proof (pend_after_next_size c).
    pose proof (cursor_wf_size c (di_rep_wf _ _ H)). unfold MAX_DOC_ID, loop_fuel in *. lia.
  - cbn in *. subst d. unfold default_skipTo. eauto.
Qed.
End DefaultSkipTo.

(** ** Reading an iterator to its end

while (it.next()) result.push_back(it.doc()); *)
Section Drain.
Context {S : Type} `{!DocIterator S}.

Definition drain_body (st : S * list Z) : res (S * list Z + list Z) :=
  let (s, acc) := st in
  let* (b, s) := di_next s in
  if b then Ret (inl (s, acc ++ [di_doc s])) else Ret (inr acc).

Definition drain (s : S) : res (list Z) := while_loop drain_body (s, []).

Context `{!DocNextSpec S}.

Lemma drain_step target c st :
  (di_rep st.1 c /\ st.2 ++ pend_after_next c = target) ->
  0 <= vsize (pend_after_next c) /\
  ((exists c' st', drain_body st = Ret (inl st') /\
      (di_rep st'.1 c' /\ st'.2 ++ pend_after_next c' = target) /\
      vsize (pend_after_next c') < vsize (pend_after_next c)) \/
   (exists r, drain_body st = Ret (inr r) /\ r = target)).
Proof.
  destruct st as [s acc]; cbn [fst snd]. intros [H <-]. split; [apply vsize_nonneg|].
  destruct (di_next_spec s c H) as (s' & E & H'). unfold drain_body. rewrite E. rsimpl. cbn in *.
  destruct (pend_after_next c) as [|d l]; cbn.
  - right. eexists. split; [done|]. by rewrite app_nil_r.
  - left. eexists _, _. split; [done|]. cbn. split; [split; [done|]|].
    + rewrite (di_doc_spec _ _ _ H'). unfold pend_after_next; cbn. by rewrite <- app_assoc.
    + unfold pend_after_next; cbn. rewrite vsize_cons. lia.
Qed.

Lemma drain_spec s c : di_rep s c -> drain s = Ret (pend_after_next c).
Proof.
  intros H. destruct (while_loop_rule _ _ _ _ (drain_step (pend_after_next c)) c (s, []))
    as (r & E & ->); [done| |done].
  pose proof (pend_after_next_size c). pose proof (cursor_wf_size c (di_rep_wf _ _ H)).
  unfold MAX_DOC_ID, loop_fuel in *. lia.
Qed.
End Drain.

(** ** Concrete posting lists *)

(** A reader of the posting list [p] that was not read yet. *)
Definition posting (p : list Z) : cursor := Cursor true p.

Fixpoint sorted_above (lo : Z) (p : list Z) : bool :=
  match p with
  | [] => true
  | d :: p => (lo <=? d) && (d <? MAX_DOC_ID) && sorted_above (d + 1) p
  end.

Lemma sorted_above_spec lo p :
  sorted_above lo p = true -> ssorted p /\ forall d, d ∈ p -> lo <= d < MAX_DOC_ID.
Proof.
  revert lo. induction p as [|x p IH]; intros lo; cbn.
  - intros _. split; [constructor|]. by intros d ?%elem_of_nil.
  - intros [[H1 H2]%andb_prop H3]%andb_prop. destruct (IH _ H3) as [Hs Hb]. split.
    + constructor; [done|]. rewrite Forall_forall. intros y Hy. specialize (Hb y Hy). lia.
    + intros d [->|Hd]%elem_of_cons; [lia|]. specialize (Hb d Hd). lia.
Qed.

Lemma posting_wf p : sorted_above 0 p = true -> cursor_wf (posting p).
Proof. intros H. by apply sorted_above_spec. Qed.

Lemma postings_rep ps :
  forallb (sorted_above 0) ps = true -> Forall2 di_rep (map posting ps) (map posting ps).
Proof.
  induction ps as [|p ps IH]; cbn; [constructor|]. intros [H1 H2]%andb_prop.
  constructor; [|by apply IH]. split; [done|]. by apply posting_wf.
Qed.

Lemma postings_fresh ps : Forall (fun c => cu_fresh c = true) (map posting ps).
Proof. induction ps; constructor; done. Qed.
