(* ===== verification/OrIterator.v ===== *)
(** * The OR iterator and its NOT filter

Models search-manager/ORDocumentIterator.{h,cpp} and
NOTDocumentIterator.{h,cpp}: [or_core] is the part both classes share
(children, queue, current document; [do_next], [do_skipTo]), and [or_iter]
adds the NOT iterator that [ORDocumentIterator::next] and [skipTo] consult.
A pointer of the queue is the index of a child in [docIteratorList_], and
[None] is a child that was set to NULL. *)
From S2P Require Import Prelude PQueue DocIterator.

Record or_core (S Q : Type) := OrCore {
  docIteratorList_ : list (option (S * bool));  (* the child, its [current_] flag *)
  pDocIteratorQueue_ : option Q;
  or_currDoc_ : Z
}.
Arguments OrCore {_ _} _ _ _.
Arguments docIteratorList_ {_ _} _.
Arguments pDocIteratorQueue_ {_ _} _.
Arguments or_currDoc_ {_ _} _.

Section OrOps.
Context {S Q : Type} `{!DocIterator S, !PQueue Q nat}.
Notation children := (list (option (S * bool))).

(** [doc()] of the child a queue entry points to. *)
Definition child_doc (l : children) (i : nat) : Z :=
  match l !! i with Some (Some (s, _)) => di_doc s | _ => 0 end.

(** DocumentIteratorQueue::lessThan *)
Definition lessThan (l : children) (o1 o2 : nat) : bool :=
  child_doc l o1 <? child_doc l o2.

(** [top()], NULL when the queue is empty. *)
Definition queue_top (q : Q) : res (option nat) :=
  if pq_size q <? 1 then Ret None else Some <$> pq_top q.

(** One turn of the loop of [initDocIteratorQueue]. *)
Definition init_child (i : nat) (st : children * Q) : res (children * Q) :=
  let (l, q) := st in
  match l !! i with
  | Some (Some (s, _)) =>
      let* (b, s') := di_next s in
      if b then
        let l := <[i := Some (s', false)]> l in
        let* (_, q) := pq_insert (lessThan l) i q in
        Ret (l, q)
      else Ret (<[i := None]> l, q)
  | _ => Ret (l, q)
  end.

Definition initDocIteratorQueue (st : or_core S Q) : res (or_core S Q) :=
  let l := docIteratorList_ st in
  if vsize l <? 1 then Ret st
  else
    let* (l, q) := mfold init_child (seq 0 (length l)) (l, pq_new (vsize l)) in
    Ret (OrCore l (Some q) (or_currDoc_ st)).

Definition setCurrent (b : bool) (i : nat) (l : children) : children :=
  alter (option_map (fun '(s, _) => (s, b))) i l.

(** The loop over [docIteratorList_] that sets every flag. *)
Definition mark_all (currDoc : Z) (l : children) : children :=
  map (option_map (fun '(s, _) => (s, currDoc =? di_doc s))) l.

(** The loop over the queue in the first [do_next]. *)
Definition mark_queue (currDoc : Z) (q : Q) (l : children) : res children :=
  mfold (fun n l =>
    let* i := pq_getAt q (Z.of_nat n) in
    Ret (setCurrent (currDoc =? child_doc l i) i l)) (seq 0 (Z.to_nat (pq_size q))) l.

(** while (top != NULL && top->isCurrent()) ... of [do_next] *)
Definition advance_body (st : children * Q) : res (children * Q + children * Q * option nat) :=
  let (l, q) := st in
  let* top := queue_top q in
  match top with
  | None => Ret (inr (l, q, None))
  | Some i =>
      match l !! i with
      | Some (Some (s, true)) =>
          let* (b, s') := di_next s in
          let l := <[i := Some (s', false)]> l in
          if b then let* q := pq_adjustTop (lessThan l) q in Ret (inl (l, q))
          else let* (_, q) := pq_pop (lessThan l) q in Ret (inl (l, q))
      | Some (Some (s, false)) => Ret (inr (l, q, Some i))
      | _ => Undef
      end
  end.

(** The end of the first [do_next], after the queue was built. *)
Definition or_start (st : or_core S Q) : res (bool * or_core S Q) :=
  match pDocIteratorQueue_ st with
  | None => Ret (false, st)
  | Some q =>
      let* top := queue_top q in
      match top with
      | None => Ret (false, st)
      | Some i =>
          let currDoc := child_doc (docIteratorList_ st) i in
          let* l := mark_queue currDoc q (docIteratorList_ st) in
          Ret (true, OrCore l (Some q) currDoc)
      end
  end.

Definition or_do_next (st : or_core S Q) : res (bool * or_core S Q) :=
  match pDocIteratorQueue_ st with
  | None => let* st := initDocIteratorQueue st in or_start st
  | Some q =>
      let* (l, q, top) := while_loop advance_body (docIteratorList_ st, q) in
      match top with
      | None => Ret (false, OrCore l (Some q) (or_currDoc_ st))
      | Some i =>
          let currDoc := child_doc l i in
          Ret (true, OrCore (mark_all currDoc l) (Some q) currDoc)
      end
  end.

(** do ... while (true) of [do_skipTo] *)
Definition skip_body (target : Z) (st : children * Q)
  : res (children * Q + children * Q * Z) :=
  let (l, q) := st in
  let* top := queue_top q in
  match top with
  | None => Undef
  | Some i =>
      let currDoc := child_doc l i in
      let l := mark_all currDoc l in
      if target <=? currDoc then
        Ret (inr (l, q, if pq_size q <? 1 then MAX_DOC_ID else currDoc))
      else
        match l !! i with
        | Some (Some (s, b)) =>
            let* (nFoundId, s') := di_skipTo target s in
            let l := <[i := Some (s', b)]> l in
            if (MAX_DOC_ID =? nFoundId) || (nFoundId <? target) then
              let* (_, q) := pq_pop (lessThan l) q in
              if pq_size q <? 1 then Ret (inr (l, q, MAX_DOC_ID)) else Ret (inl (l, q))
            else let* q := pq_adjustTop (lessThan l) q in Ret (inl (l, q))
        | _ => Undef
        end
  end.

(** [do_skipTo] once the queue exists. *)
Definition or_skip_queue (target : Z) (l : children) (q : Q) : res (Z * or_core S Q) :=
  if pq_size q <? 1 then Ret (MAX_DOC_ID, OrCore l (Some q) MAX_DOC_ID)
  else
    let* (l, q, d) := while_loop (skip_body target) (l, q) in
    Ret (d, OrCore l (Some q) d).

Definition or_skip_from (target : Z) (st : or_core S Q) : res (Z * or_core S Q) :=
  match pDocIteratorQueue_ st with
  | None => Ret (MAX_DOC_ID, OrCore (docIteratorList_ st) None MAX_DOC_ID)
  | Some q => or_skip_queue target (docIteratorList_ st) q
  end.

Definition or_do_skipTo (target : Z) (st : or_core S Q) : res (Z * or_core S Q) :=
  let* st :=
    match pDocIteratorQueue_ st with
    | None => initDocIteratorQueue st
    | Some _ => Ret st
    end in
  or_skip_from target st.

(** [tf]: the greatest among the current children of the queue. *)
Definition or_tf (st : or_core S Q) : res Z :=
  match pDocIteratorQueue_ st with
  | None => Undef
  | Some q =>
      mfold (fun n maxtf =>
        let* i := pq_getAt q (Z.of_nat n) in
        match docIteratorList_ st !! i with
        | Some (Some (s, true)) =>
            let* tf := di_tf s in Ret (if maxtf <? tf then tf else maxtf)
        | Some (Some (_, false)) => Ret maxtf
        | _ => Undef
        end) (seq 0 (Z.to_nat (pq_size q))) 0
  end.
End OrOps.

(** Read the fields of a state that was just built. *)
#[local] Ltac ocbn :=
  cbn [cu_fresh cu_pend docIteratorList_ pDocIteratorQueue_ or_currDoc_].

(** ** Correctness of [do_next] and [do_skipTo] *)
Section OrCorrect.
Context {S Q : Type} `{!DocIterator S, !DocNextSpec S, !PQueue Q nat, !PQueueSpec Q nat}.
Notation children := (list (option (S * bool))).
Implicit Types (l : children) (L : list nat) (P : nat -> list Z).

(** Child [i] has flag [f] and still holds the documents [p]. *)
Definition live l (i : nat) (f : bool) (p : list Z) : Prop :=
  exists s, l !! i = Some (Some (s, f)) /\ di_rep s (Cursor false p).

Lemma live_doc l i f d p : live l i f (d :: p) -> child_doc l i = d.
Proof. intros (s & E & H). unfold child_doc. rewrite E. by eapply di_doc_spec. Qed.

Lemma live_wf l i f p : live l i f p -> cursor_wf (Cursor false p).
Proof. intros (s & E & H). by eapply di_rep_wf. Qed.

Lemma child_doc_insert_ne l i j o : j <> i -> child_doc (<[i := o]> l) j = child_doc l j.
Proof. intros H. unfold child_doc. by rewrite list_lookup_insert_ne. Qed.

(** The queue holds the children [L]; [fl] relates heads and flags. *)
Definition core_ok (fl : Z -> bool -> Prop) m l (q : Q) L P : Prop :=
  NoDup L /\ pq_rep (lessThan l) m q L /\
  forall i, i ∈ L -> exists d p f, P i = d :: p /\ fl d f /\ live l i f (d :: p).

Definition union_of L P (x : Z) : Prop := exists i, i ∈ L /\ x ∈ P i.

Lemma core_ok_mono (fl fl' : Z -> bool -> Prop) m l q L P :
  core_ok fl m l q L P -> (forall d f, fl d f -> fl' d f) -> core_ok fl' m l q L P.
Proof.
  intros (Hn & Hq & H) Hfl. split_and!; [done..|]. intros i Hi.
  destruct (H i Hi) as (d & p & f & E & Hf & Hl). eauto 10.
Qed.

Lemma core_ok_perm fl m l q L L' P :
  core_ok fl m l q L P -> L ≡ₚ L' -> core_ok fl m l q L' P.
Proof.
  intros (Hn & Hq & H) HL. split_and!; [by rewrite <- HL|by eapply pq_rep_perm|].
  intros i Hi. rewrite <- HL in Hi. eauto.
Qed.

Lemma union_of_perm L L' P x : L ≡ₚ L' -> union_of L P x <-> union_of L' P x.
Proof. intros H. unfold union_of. by setoid_rewrite H. Qed.

(** The child on top of the queue moved on and still has documents. *)
Lemma core_ok_adjust fl m l q i L P (s' : S) f d p :
  core_ok fl m l q (i :: L) P -> pq_top q = Ret i ->
  di_rep s' (Cursor false (d :: p)) -> fl d f ->
  exists q', pq_adjustTop (lessThan (<[i := Some (s', f)]> l)) q = Ret q' /\
    core_ok fl m (<[i := Some (s', f)]> l) q' (i :: L) (<[i := d :: p]> P).
Proof.
  intros (Hn & Hq & H) Ht Hs Hf. pose proof Hn as [Hi Hn']%NoDup_cons.
  destruct (pq_adjustTop_spec (lessThan l) (lessThan (<[i := Some (s', f)]> l)) m q i L)
    as (q' & E & Hq'); try done; try apply StrictWeak_key.
  { intros x y Hx Hy. unfold lessThan. rewrite !child_doc_insert_ne; [done|set_solver..]. }
  exists q'. split; [done|]. split_and!; [done..|].
  intros j Hj. destruct (decide (j = i)) as [->|Hne].
  - rewrite fn_lookup_insert. exists d, p, f. split_and!; [done..|].
    exists s'. split; [|done]. apply list_lookup_insert_eq.
    destruct (H i ltac:(by left)) as (? & ? & ? & _ & _ & (? & E2 & _)).
    by eapply lookup_lt_Some.
  - rewrite fn_lookup_insert_ne by done.
    destruct (H j Hj) as (d0 & p0 & f0 & E0 & Hf0 & (s0 & E1 & Hr)).
    exists d0, p0, f0. split_and!; [done..|]. exists s0.
    by rewrite list_lookup_insert_ne.
Qed.

(** The child on top of the queue is exhausted. *)
Lemma core_ok_pop fl m l q i L P (o : option (S * bool)) :
  core_ok fl m l q (i :: L) P -> pq_top q = Ret i ->
  exists q', pq_pop (lessThan (<[i := o]> l)) q = Ret (i, q') /\
    core_ok fl m (<[i := o]> l) q' L P.
Proof.
  intros (Hn & Hq & H) Ht. pose proof Hn as [Hi Hn']%NoDup_cons.
  destruct (pq_pop_spec (lessThan l) m q (i :: L)) as (i' & L' & Ht' & HL & _ & Hpop);
    [apply StrictWeak_key|done..|].
  rewrite Ht in Ht'. injection Ht' as <-. apply Permutation_cons_inv in HL.
  destruct (Hpop (lessThan (<[i := o]> l))) as (q' & E & Hq'); [apply StrictWeak_key| |].
  { intros x y Hx Hy. rewrite <- HL in Hx, Hy. unfold lessThan.
    rewrite !child_doc_insert_ne; [done|set_solver..]. }
  exists q'. split; [done|]. split_and!; [done|by eapply pq_rep_perm|].
  intros j Hj. assert (j <> i) by set_solver.
  destruct (H j ltac:(by right)) as (d0 & p0 & f0 & E0 & Hf0 & (s0 & E1 & Hr)).
  exists d0, p0, f0. split_and!; [done..|]. exists s0. by rewrite list_lookup_insert_ne.
Qed.

(** What [top()] answers. *)
Lemma queue_top_spec fl m l q L P :
  core_ok fl m l q L P ->
  (L = [] /\ queue_top q = Ret None) \/
  (exists i L' d p f, L ≡ₚ i :: L' /\ queue_top q = Ret (Some i) /\ pq_top q = Ret i /\
     P i = d :: p /\ fl d f /\ live l i f (d :: p) /\ forall x, union_of L P x -> d <= x).
Proof.
  intros (Hn & Hq & H). unfold queue_top. rewrite (pq_size_spec _ _ _ _ Hq).
  destruct L as [|j L]; [by left|right].
  rewrite vsize_cons. pose proof (vsize_nonneg L). destruct (Z.ltb_spec (1 + vsize L) 1); [lia|].
  destruct (pq_top_spec (lessThan l) m q (j :: L)) as (i & L' & Et & HL & Hmin);
    [apply StrictWeak_key|done..|].
  assert (i ∈ j :: L) as Hi by (rewrite HL; by left).
  destruct (H i Hi) as (d & p & f & E & Hf & Hl).
  exists i, L', d, p, f. rewrite Et. split_and!; try done.
  intros x (k & Hk & Hx). destruct (H k Hk) as (d' & p' & f' & E' & _ & Hl').
  specialize (Hmin k Hk). unfold lessThan in Hmin.
  rewrite (live_doc _ _ _ _ _ Hl), (live_doc _ _ _ _ _ Hl') in Hmin.
  rewrite E' in Hx. destruct (live_wf _ _ _ _ Hl') as [Hs _].
  pose proof (ssorted_head_le _ _ _ Hs Hx). lia.
Qed.

(** The documents left in the queue, a measure of the loops. *)
Fixpoint left_size L P : Z :=
  match L with [] => 0 | i :: L => vsize (P i) + left_size L P end.

Lemma left_size_nonneg L P : 0 <= left_size L P.
Proof. induction L as [|i L IH]; cbn; [lia|]. pose proof (vsize_nonneg (P i)). lia. Qed.

Lemma left_size_perm L L' P : L ≡ₚ L' -> left_size L P = left_size L' P.
Proof. induction 1; cbn; lia. Qed.

Lemma left_size_insert L P i p : i ∉ L -> left_size L (<[i := p]> P) = left_size L P.
Proof.
  induction L as [|j L IH]; intros Hi; [done|]. cbn.
  rewrite IH by set_solver. rewrite fn_lookup_insert_ne by set_solver. done.
Qed.

Lemma left_size_bound fl m l q L P :
  core_ok fl m l q L P -> left_size L P < Z.pos loop_fuel.
Proof.
  intros (Hn & Hq & H). pose proof (pq_rep_size _ _ _ _ Hq) as Hm.
  enough (left_size L P <= vsize L * MAX_DOC_ID) by (unfold MAX_DOC_ID, loop_fuel in *; lia).
  clear Hn Hq Hm. induction L as [|i L IH]; cbn; [unfold vsize; cbn; lia|].
  rewrite vsize_cons. specialize (IH ltac:(intros; apply H; by right)).
  destruct (H i ltac:(by left)) as (d & p & f & E & _ & Hl). rewrite E.
  pose proof (cursor_wf_size _ (live_wf _ _ _ _ Hl)). cbn in *. lia.
Qed.

Lemma vsize_list_insert l i o : vsize (<[i := o]> l) = vsize l.
Proof. unfold vsize. by rewrite length_insert. Qed.

(** *** The flags *)
Lemma child_doc_mark_all cd l i : child_doc (mark_all cd l) i = child_doc l i.
Proof.
  unfold child_doc, mark_all. rewrite list_lookup_fmap.
  destruct (l !! i) as [[[s f]|]|]; done.
Qed.

Lemma core_ok_mark_all fl m l q L P cd :
  core_ok fl m l q L P -> (forall x, union_of L P x -> cd <= x) ->
  core_ok (fun d f => cd <= d /\ f = (cd =? d)) m (mark_all cd l) q L P.
Proof.
  intros (Hn & Hq & H) Hmin. split_and!; [done| |].
  - eapply pq_rep_agree; [done|]. intros x y _ _. unfold lessThan.
    by rewrite !child_doc_mark_all.
  - intros i Hi. destruct (H i Hi) as (d & p & f & E & Hf & Hl).
    exists d, p, (cd =? d). split_and!; [done|apply Hmin; exists i; rewrite E; set_solver|done|].
    pose proof (live_doc _ _ _ _ _ Hl) as Ed. unfold child_doc in Ed.
    destruct Hl as (s & Es & Hr). rewrite Es in Ed. exists s. split; [|done].
    unfold mark_all. rewrite list_lookup_fmap, Es. cbn. by rewrite Ed.
Qed.

(** *** The loop of [do_next] *)

(** Flags as [do_next] and [do_skipTo] leave them for the document [c0]. *)
Definition marked (c0 d : Z) (f : bool) : Prop := c0 <= d /\ f = (c0 =? d).

(** [R] is what is left of the union after [c0]. *)
Definition adv_inv (c0 m n : Z) (R : Z -> Prop) (g : list nat * (nat -> list Z))
    (st : children * Q) : Prop :=
  core_ok (marked c0) m st.1 st.2 g.1 g.2 /\ vsize st.1 = n /\
  forall x, R x <-> c0 < x /\ union_of g.1 g.2 x.

Definition adv_post (c0 m n : Z) (R : Z -> Prop) (r : children * Q * option nat) : Prop :=
  let '(l, q, top) := r in
  exists L P, core_ok (fun d _ => c0 < d) m l q L P /\ vsize l = n /\
    (forall x, R x <-> union_of L P x) /\
    match top with
    | None => L = []
    | Some i => R (child_doc l i) /\ forall x, R x -> child_doc l i <= x
    end.

Lemma union_cons i L P x : union_of (i :: L) P x <-> x ∈ P i \/ union_of L P x.
Proof.
  unfold union_of. setoid_rewrite elem_of_cons. split.
  - intros (j & [->|Hj] & Hx); eauto.
  - intros [Hx|(j & Hj & Hx)]; eauto.
Qed.

Lemma union_insert_ne i L P p x : i ∉ L -> union_of L (<[i := p]> P) x <-> union_of L P x.
Proof.
  intros Hi. unfold union_of. split; intros (j & Hj & Hx); exists j; (split; [done|]).
  - by rewrite fn_lookup_insert_ne in Hx by set_solver.
  - by rewrite fn_lookup_insert_ne by set_solver.
Qed.

Lemma union_sub i L P p' : i ∉ L ->
  forall x, union_of (i :: L) (<[i := p']> P) x <-> x ∈ p' \/ union_of L P x.
Proof. intros Hi x. by rewrite union_cons, fn_lookup_insert, union_insert_ne. Qed.

Lemma advance_step c0 m n R g st : adv_inv c0 m n R g st ->
  0 <= left_size g.1 g.2 /\
  ((exists g' st', advance_body st = Ret (inl st') /\ adv_inv c0 m n R g' st' /\
      left_size g'.1 g'.2 < left_size g.1 g.2) \/
   (exists r, advance_body st = Ret (inr r) /\ adv_post c0 m n R r)).
Proof.
  destruct st as [l q], g as [L P]. intros (Hok & Hm & HR); cbn in *.
  split; [apply left_size_nonneg|]. unfold advance_body.
  destruct (queue_top_spec _ _ _ _ _ _ Hok)
    as [[-> ->]|(i & L' & d & p & f & HL & -> & Et & EP & [Hcd Hf] & Hl & Hmin)]; rsimpl.
  - right. eexists. split; [done|]. exists [], P. split_and!; [|done| |done].
    + destruct Hok as (? & ? & _). split_and!; [done..|]. by intros i ?%elem_of_nil.
    + intros x. rewrite HR. split; [by intros [_ ?]|]. intros (j & Hj & _). by apply elem_of_nil in Hj.
  - pose proof Hl as (s & Es & Hr). rewrite Es. subst f.
    pose proof (core_ok_perm _ _ _ _ _ _ _ Hok HL) as Hok'.
    assert (i ∉ L') as Hi by (destruct Hok' as (?%NoDup_cons & _); tauto).
    destruct (Z.eqb_spec c0 d) as [->|Hne].
    + left. destruct (di_next_spec s _ Hr) as (s' & -> & Hr'). cbn in Hr' |- *. rsimpl.
      destruct (live_wf _ _ _ _ Hl) as [Hs _].
      destruct p as [|d' p]; cbn.
      * destruct (core_ok_pop _ _ _ _ _ _ _ (Some (s', false)) Hok' Et) as (q' & -> & Hok2). rsimpl.
        exists (L', P), (<[i := Some (s', false)]> l, q'). split; [done|]. split; [split_and!|]; cbn.
        -- done.
        -- by rewrite <- Hm; unfold vsize; rewrite length_insert.
        -- intros x. rewrite HR, (union_of_perm _ _ _ _ HL), union_cons, EP. set_solver by lia.
        -- rewrite (left_size_perm _ _ _ HL). cbn. rewrite EP, vsize_cons. unfold vsize; cbn. lia.
      * pose proof (ssorted_head_lt _ _ d' Hs ltac:(by left)).
        destruct (core_ok_adjust _ _ _ _ _ _ _ s' false d' p Hok' Et Hr') as (q' & -> & Hok2).
        { split; lia. }
        rsimpl. exists (i :: L', <[i := d' :: p]> P), (<[i := Some (s', false)]> l, q').
        split; [done|]. split; [split_and!|]; cbn.
        -- done.
        -- by rewrite <- Hm; unfold vsize; rewrite length_insert.
        -- intros x. rewrite HR, (union_of_perm _ _ _ _ HL), union_cons, EP, union_sub by done.
           rewrite !elem_of_cons. split; [|tauto]. intros [Hx [[->|?]|?]]; [lia|tauto..].
        -- rewrite (left_size_perm _ _ _ HL). cbn.
           rewrite fn_lookup_insert, left_size_insert, EP, !vsize_cons by done. lia.
    + right. eexists. split; [done|]. exists L, P.
      rewrite (live_doc _ _ _ _ _ Hl). split_and!; [|done| | |].
      * destruct Hok as (Hn & Hq & H). split_and!; [done..|].
        intros j Hj. destruct (H j Hj) as (d2 & p2 & f2 & E2 & [Hc2 Hf2] & Hl2).
        exists d2, p2, f2. split_and!; [done| |done].
        enough (d <= d2) by lia. apply Hmin. exists j. rewrite E2. set_solver.
      * intros x. rewrite HR. split; [tauto|]. intros Hx. split; [|done].
        specialize (Hmin x Hx). lia.
      * apply HR. split; [lia|]. rewrite (union_of_perm _ _ _ _ HL), union_cons, EP. set_solver.
      * intros x [_ Hx]%HR. by apply Hmin.
Qed.

(** *** The state between calls *)

(** Before the queue exists: child [i] is at the cursor [C i], which has no
    document where the child is NULL. *)
Definition fresh_children l (C : nat -> cursor) : Prop :=
  forall i o, l !! i = Some o ->
    match o with Some (s, _) => di_rep s (C i) | None => pend_after_next (C i) = [] end.

Definition fresh_union l (C : nat -> cursor) (x : Z) : Prop :=
  exists i, (i < length l)%nat /\ x ∈ pend_after_next (C i).

Definition or_rep (st : or_core S Q) (c : cursor) : Prop :=
  cursor_wf c /\ vsize (docIteratorList_ st) < 2 ^ 31 /\
  match pDocIteratorQueue_ st with
  | None =>
      (cu_fresh c = true \/ docIteratorList_ st = []) /\
      exists C, fresh_children (docIteratorList_ st) C /\
        forall x, x ∈ cu_pend c <-> fresh_union (docIteratorList_ st) C x
  | Some q =>
      cu_fresh c = false /\
      exists m L P, core_ok (marked (or_currDoc_ st)) m (docIteratorList_ st) q L P /\
        (forall x, x ∈ cu_pend c <-> union_of L P x) /\
        (L <> [] -> or_currDoc_ st ∈ cu_pend c)
  end.

Lemma or_rep_doc st d p : or_rep st (Cursor false (d :: p)) -> or_currDoc_ st = d.
Proof.
  intros ([Hs _] & _ & H). cbn in *. destruct (pDocIteratorQueue_ st) as [q|].
  - destruct H as (_ & m & L & P & Hok & Hu & Hc).
    assert (L <> []) as HL.
    { intros ->. destruct (proj1 (Hu d) ltac:(by left)) as (j & Hj & _). by apply elem_of_nil in Hj. }
    pose proof (ssorted_head_le _ _ _ Hs (Hc HL)).
    destruct (proj1 (Hu d) ltac:(by left)) as (j & Hj & Hd).
    destruct Hok as (_ & _ & Hok).
    destruct (Hok j Hj) as (d' & p' & f & E & [Hm _] & Hl). rewrite E in Hd.
    destruct (live_wf _ _ _ _ Hl) as [Hs' _]. pose proof (ssorted_head_le _ _ _ Hs' Hd). lia.
  - destruct H as ([?|E] & C & _ & Hu); [done|]. rewrite E in Hu.
    destruct (proj1 (Hu d) ltac:(by left)) as (j & Hj & _). cbn in Hj. lia.
Qed.

Definition init_inv m l0 (C : nat -> cursor) (rest : list nat) (st : children * Q) : Prop :=
  exists k L P, rest = seq k (length l0 - k) /\ (k <= length l0)%nat /\
    length st.1 = length l0 /\ L ⊆+ seq 0 k /\
    core_ok (fun _ f => f = false) m st.1 st.2 L P /\
    (forall x, union_of L P x <-> exists i, (i < k)%nat /\ x ∈ pend_after_next (C i)) /\
    forall i, (k <= i)%nat -> st.1 !! i = l0 !! i.

Lemma init_child_step l0 C i rest st :
  vsize l0 < 2 ^ 31 -> fresh_children l0 C -> init_inv (vsize l0) l0 C (i :: rest) st ->
  exists st', init_child i st = Ret st' /\ init_inv (vsize l0) l0 C rest st'.
Proof.
  intros Hm Hf (k & L & P & Er & Hk & Hlen & HL & Hok & Hu & Heq).
  destruct st as [l q]; cbn in *.
  destruct (length l0 - k)%nat as [|r] eqn:Ek; [done|].
  injection Er as -> Er.
  destruct (lookup_lt_is_Some_2 l0 k ltac:(lia)) as [o Eo].
  pose proof (Hf k o Eo) as Hr. destruct o as [[s f]|].
  2: { eexists. unfold init_child. rewrite Heq, Eo by done. split; [done|].
    exists (Datatypes.S k), L, P. cbn [fst snd]. split_and!; [rewrite Er; f_equal; lia|lia|done| |done| |].
    - etrans; [done|]. rewrite seq_S. by apply submseteq_inserts_r.
    - intros x. rewrite Hu. split; intros (j & Hj & Hx); exists j; (split; [|done]); [lia|].
      destruct (decide (j = k)) as [->|]; [|lia]. rewrite Hr in Hx. by apply elem_of_nil in Hx.
    - intros j Hj. apply Heq. lia. }
  unfold init_child. rewrite Heq, Eo by done.
  destruct (di_next_spec s _ Hr) as (s' & -> & Hr'). cbn in Hr'. cbn [fst cursor_next]. rsimpl.
  assert (k ∉ L) as HkL.
  { intros Hin. apply (elem_of_submseteq _ _ _ Hin) in HL. apply elem_of_seq in HL. lia. }
  destruct (pend_after_next (C k)) as [|d p] eqn:Ep; cbn.
  - eexists. split; [done|]. exists (Datatypes.S k), L, P. cbn [fst snd]. split_and!; try lia.
    + rewrite Er. f_equal. lia.
    + by rewrite length_insert.
    + etrans; [done|]. rewrite seq_S. apply submseteq_inserts_r. done.
    + destruct Hok as (Hn & Hq & H). split_and!; [done| |].
      * eapply pq_rep_agree; [done|]. intros x y Hx Hy. unfold lessThan.
        rewrite !child_doc_insert_ne; [done|set_solver..].
      * intros j Hj. destruct (H j Hj) as (d & p & f' & E & Hf' & s2 & E2 & Hr2).
        exists d, p, f'. split_and!; [done..|]. exists s2.
        rewrite list_lookup_insert_ne by set_solver. done.
    + intros x. rewrite Hu. split; intros (j & Hj & Hx); exists j; (split; [|done]); [lia|].
      destruct (decide (j = k)) as [->|]; [|lia]. rewrite Ep in Hx. by apply elem_of_nil in Hx.
    + intros j Hj. rewrite list_lookup_insert_ne by lia. apply Heq. lia.
  - assert (vsize L < vsize l0) as HszL.
    { apply submseteq_length in HL. rewrite length_seq in HL. unfold vsize. lia. }
    destruct Hok as (Hn & Hq & H).
    destruct (pq_insert_spec (lessThan (<[k:=Some (s', false)]> l)) (vsize l0) q L k)
      as (Hins & _ & _); [apply StrictWeak_key| |].
    { eapply pq_rep_agree; [done|]. intros x y Hx Hy. unfold lessThan.
      rewrite !child_doc_insert_ne; [done|set_solver..]. }
    destruct (Hins HszL) as (q' & -> & Hq'). rsimpl. eexists. split; [done|].
    exists (Datatypes.S k), (k :: L), (<[k := d :: p]> P). cbn [fst snd]. split_and!; try lia.
    + rewrite Er. f_equal. lia.
    + by rewrite length_insert.
    + rewrite seq_S. rewrite (Permutation_app_comm _ [_]). by apply submseteq_skip.
    + split_and!; [by apply NoDup_cons|done|]. intros j [->|Hj]%elem_of_cons.
      * exists d, p, false. rewrite fn_lookup_insert. split_and!; [done..|].
        exists s'. split; [|done]. apply list_lookup_insert_eq. lia.
      * destruct (H j Hj) as (d2 & p2 & f2 & E & Hf2 & s2 & E2 & Hr2).
        assert (j <> k) by set_solver.
        exists d2, p2, f2. rewrite fn_lookup_insert_ne by done. split_and!; [done..|].
        exists s2. by rewrite list_lookup_insert_ne.
    + intros x. rewrite union_sub, Hu by done. split.
      * intros [Hx|(j & Hj & Hx)]; [exists k; rewrite Ep; split; [lia|done]|].
        exists j. split; [lia|done].
      * intros (j & Hj & Hx). destruct (decide (j = k)) as [->|]; [left; by rewrite Ep in Hx|].
        right. exists j. split; [lia|done].
    + intros j Hj. rewrite list_lookup_insert_ne by lia. apply Heq. lia.
Qed.

Lemma init_queue_spec l0 C cd :
  1 <= vsize l0 < 2 ^ 31 -> fresh_children l0 C ->
  exists l q L P, initDocIteratorQueue (OrCore l0 None cd) = Ret (OrCore l (Some q) cd) /\
    vsize l = vsize l0 /\ core_ok (fun _ f => f = false) (vsize l0) l q L P /\
    forall x, union_of L P x <-> fresh_union l0 C x.
Proof.
  intros Hm Hf. unfold initDocIteratorQueue; cbn [docIteratorList_ or_currDoc_].
  destruct (Z.ltb_spec (vsize l0) 1); [lia|].
  destruct (mfold_rule init_child (init_inv (vsize l0) l0 C) (seq 0 (length l0))
    (l0, pq_new (vsize l0))) as ([l q] & -> & k & L & P & Er & Hk & Hlen & _ & Hok & Hu & _).
  - intros i rest st. apply init_child_step; [lia|done].
  - exists 0%nat, [], (fun _ => []). cbn. split_and!; [by rewrite Nat.sub_0_r|lia|done|done| | |done].
    + split_and!; [constructor|apply pq_new_spec; lia|]. by intros i ?%elem_of_nil.
    + intros x. split; [intros (i & Hi & _); by apply elem_of_nil in Hi|intros (i & Hi & _); lia].
  - rsimpl. exists l, q, L, P. split_and!; [done|unfold vsize in *; cbn in *; lia|done|].
    intros x. rewrite Hu. cbn in *.
    destruct (length l0 - k)%nat eqn:E; [|done]. by replace k with (length l0) by lia.
Qed.

(** *** The first [do_next] marks the queue only *)
Lemma setCurrent_doc b j l i : child_doc (setCurrent b j l) i = child_doc l i.
Proof.
  unfold child_doc, setCurrent. destruct (decide (i = j)) as [->|].
  - rewrite list_lookup_alter_eq. destruct (l !! j) as [[[s f]|]|]; done.
  - by rewrite list_lookup_alter_ne.
Qed.

Lemma setCurrent_live b j l i f p :
  live l i f p -> live (setCurrent b j l) i (if decide (i = j) then b else f) p.
Proof.
  intros (s & E & Hr). exists s. split; [|done]. unfold setCurrent. case_decide as Hd.
  - subst. by rewrite list_lookup_alter_eq, E.
  - by rewrite list_lookup_alter_ne.
Qed.

Lemma mark_queue_spec cd m l0 q K :
  pq_rep (lessThan l0) m q K ->
  exists l, mark_queue cd q l0 = Ret l /\ length l = length l0 /\
    (forall i, child_doc l i = child_doc l0 i) /\
    forall i f p, i ∈ K -> live l0 i f p -> live l i (cd =? child_doc l0 i) p.
Proof.
  intros Hq. destruct (pq_getAt_spec _ _ _ _ Hq) as (K' & HK & Hget).
  pose proof (pq_size_spec _ _ _ _ Hq) as Hs. rewrite Hs in Hget.
  assert (vsize K = vsize K') as HsK by (unfold vsize; by rewrite HK).
  unfold mark_queue. rewrite Hs.
  replace (Z.to_nat (vsize K)) with (length K') by (rewrite HsK; unfold vsize; lia).
  destruct (mfold_rule (fun n l => let* i := pq_getAt q (Z.of_nat n) in
      Ret (setCurrent (cd =? child_doc l i) i l))
    (fun rest l => exists k, rest = seq k (length K' - k) /\ (k <= length K')%nat /\
      length l = length l0 /\
      (forall i, child_doc l i = child_doc l0 i) /\
      forall i f p, live l0 i f p ->
        live l i (if decide (i ∈ take k K') then cd =? child_doc l0 i else f) p)
    (seq 0 (length K')) l0) as (l & E & k & Er & Hk & Hlen & Hd & Hl).
  - intros n rest l (k & Er & Hk & Hlen & Hd & Hl).
    destruct (length K' - k)%nat eqn:Ek; [done|]. injection Er as -> Er.
    destruct (lookup_lt_is_Some_2 K' k ltac:(lia)) as [i Ei].
    rewrite Hget by (rewrite HsK; unfold vsize; lia).
    assert (vget K' (Z.of_nat k) = Ret i) as ->.
    { apply vget_Ret. split; [lia|]. by rewrite Nat2Z.id. }
    rsimpl. eexists. split; [done|]. exists (Datatypes.S k). split_and!; [|lia| | |].
    + rewrite Er. f_equal. lia.
    + unfold setCurrent. by rewrite length_alter.
    + intros j. by rewrite setCurrent_doc.
    + intros j f p Hj. specialize (Hl j f p Hj). apply (setCurrent_live (cd =? child_doc l i) i) in Hl.
      rewrite (take_S_r _ _ _ Ei). rewrite Hd in Hl |- *. destruct (decide (j = i)) as [->|].
      * rewrite (decide_True (P := i ∈ _ ++ _)) by set_solver. done.
      * erewrite decide_ext; [exact Hl|]. rewrite elem_of_app, list_elem_of_singleton. tauto.
  - exists 0%nat. cbn. split_and!; [by rewrite Nat.sub_0_r|lia|done|done|].
    intros i f p H. destruct (decide _) as [Hin|]; [by apply elem_of_nil in Hin|done].
  - exists l. split_and!; [done..|]. intros i f p Hi Hl0. specialize (Hl i f p Hl0).
    destruct (length K' - k)%nat eqn:Ek; [|done].
    rewrite take_ge in Hl by lia. by rewrite decide_True in Hl by by rewrite <- HK.
Qed.

Lemma or_rep_tail l q cd c :
  or_rep (OrCore l (Some q) cd) c -> forall x, x ∈ tail (cu_pend c) <-> x ∈ cu_pend c /\ cd < x.
Proof.
  intros H x. pose proof H as ([Hs _] & _ & Hf & _). destruct c as [f p]; cbn in *. subst f.
  rewrite ssorted_elem_tail by done. destruct p as [|d p]; cbn.
  - split; by intros [?%elem_of_nil _].
  - apply or_rep_doc in H; cbn in H. subst d. naive_solver.
Qed.

Lemma or_rep_marked fl m l q L P cd p :
  core_ok fl m l q L P -> vsize l < 2 ^ 31 -> cursor_wf (Cursor false p) ->
  (forall x, x ∈ p <-> union_of L P x) -> cd ∈ p -> (forall x, x ∈ p -> cd <= x) ->
  or_rep (OrCore (mark_all cd l) (Some q) cd) (Cursor false p).
Proof.
  intros Hok Hsz Hwf Hu Hin Hmin.
  assert (vsize (mark_all cd l) = vsize l) as E.
  { unfold vsize, mark_all. by rewrite length_map. }
  split; [done|]. split; [ocbn; by rewrite E|]. split; [done|].
  ocbn. exists m, L, P. split_and!; [|done|done].
  eapply core_ok_mark_all; [done|]. intros x Hx. by apply Hmin, Hu.
Qed.

Lemma or_rep_done fl m l q P cd :
  core_ok fl m l q [] P -> vsize l < 2 ^ 31 ->
  or_rep (OrCore l (Some q) cd) (Cursor false []).
Proof.
  intros (Hn & Hq & _) Hsz. split; [apply cursor_wf_nil|]. split; [done|]. split; [done|]. ocbn.
  exists m, [], P. split; [split; [done|]; split; [done|]; by intros i ?%elem_of_nil|].
  split; [|done]. intros x. split; [by intros ?%elem_of_nil|]. intros (j & Hj & _). by apply elem_of_nil in Hj.
Qed.

Lemma union_nil P x : ~ union_of [] P x.
Proof. intros (j & Hj & _). by apply elem_of_nil in Hj. Qed.

Lemma elems_nil_of (p : list Z) (U : Z -> Prop) :
  (forall x, x ∈ p <-> U x) -> (forall x, ~ U x) -> p = [].
Proof. intros H HU. apply elem_of_nil_inv. intros x Hx%H. by apply HU in Hx. Qed.

Lemma cons_of_elem (p : list Z) x : x ∈ p -> exists y t, p = y :: t.
Proof. destruct p; [by intros ?%elem_of_nil|eauto]. Qed.

Lemma or_next_started l q cd c :
  or_rep (OrCore l (Some q) cd) c ->
  exists st', or_do_next (OrCore l (Some q) cd) = Ret (fst (cursor_next c), st') /\
    or_rep st' (snd (cursor_next c)).
Proof.
  intros Hrep. pose proof (or_rep_tail _ _ _ _ Hrep) as Htl.
  destruct Hrep as (Hwf & Hsz & Ef & m & L & P & Hok & Hu & Hc); cbn in *.
  pose proof (cursor_wf_next c Hwf) as Hwf'.
  unfold or_do_next; ocbn.
  unfold cursor_next, pend_after_next in *. rewrite Ef in *. cbn in Hwf'.
  destruct (while_loop_rule _ _ _ _ (advance_step cd m (vsize l) (fun x => x ∈ tail (cu_pend c)))
    (L, P) (l, q)) as ([[l' q'] top] & -> & L' & P' & Hok' & Hsz' & Hu' & Htop); cbn.
  - split_and!; [done..|]. intros x. rewrite Htl, Hu. tauto.
  - by eapply left_size_bound.
  - rewrite <- Hsz' in Hsz. destruct top as [i|]; cbn.
    + destruct Htop as [Hi Hmin]. destruct (cons_of_elem _ _ Hi) as (y & t & E).
      eexists. split; [by rewrite bool_decide_eq_false_2 by by rewrite E|].
      by eapply or_rep_marked.
    + subst L'. rewrite (elems_nil_of _ _ Hu' (union_nil P')). cbn.
      eexists. split; [done|]. by eapply or_rep_done.
Qed.

(** The queue just built, with its least child on top. *)
Lemma or_start_spec m l q L P cd p :
  core_ok (fun _ f => f = false) m l q L P -> vsize l < 2 ^ 31 -> cursor_wf (Cursor false p) ->
  (forall x, x ∈ p <-> union_of L P x) ->
  exists st', or_start (OrCore l (Some q) cd) = Ret (negb (bool_decide (p = [])), st') /\
    or_rep st' (Cursor false p).
Proof.
  intros Hok Hsz Hwf Hu. unfold or_start; ocbn.
  destruct (queue_top_spec _ _ _ _ _ _ Hok)
    as [[-> ->]|(i & L' & d & t & f & HL & -> & Et & EP & Hf' & Hli & Hmin)]; rsimpl.
  - rewrite (elems_nil_of _ _ Hu (union_nil P)). cbn. eexists. split; [done|].
    by eapply or_rep_done.
  - pose proof Hok as (Hn & Hq & H).
    destruct (mark_queue_spec (child_doc l i) _ _ _ _ Hq) as (l2 & -> & Hlen & Hd & Hl2). rsimpl.
    rewrite (live_doc _ _ _ _ _ Hli) in *.
    assert (d ∈ p) as Hin.
    { apply Hu. exists i. rewrite HL, EP. set_solver. }
    destruct (cons_of_elem _ _ Hin) as (y & t' & E).
    eexists. split; [by rewrite bool_decide_eq_false_2 by by rewrite E|].
    split; [done|]. split; [ocbn; unfold vsize in *; lia|]. split; [done|]. exists m, L, P. ocbn. split_and!; [|done|done].
    split_and!; [done| |].
    + eapply pq_rep_agree; [done|]. intros x z _ _. unfold lessThan. by rewrite !Hd.
    + intros j Hj. destruct (H j Hj) as (d' & p' & f' & E' & _ & Hlj).
      exists d', p', (d =? d'). split_and!; [done|split; [apply Hmin; exists j; rewrite E'; set_solver|done]|].
      specialize (Hl2 j f' _ Hj Hlj). by rewrite (live_doc _ _ _ _ _ Hlj) in Hl2.
Qed.

Lemma or_next_fresh l cd c :
  or_rep (OrCore l None cd) c ->
  exists st', or_do_next (OrCore l None cd) = Ret (fst (cursor_next c), st') /\
    or_rep st' (snd (cursor_next c)).
Proof.
  intros (Hwf & Hsz & Ef & C & Hf & Hu); cbn in *.
  pose proof (cursor_wf_next c Hwf) as Hwf'.
  unfold or_do_next; ocbn.
  destruct (decide (l = [])) as [->|Hl].
  { cbn. assert (cu_pend c = []) as E.
    { apply (elems_nil_of _ _ Hu). intros x (i & Hi & _). cbn in Hi. lia. }
    unfold cursor_next, pend_after_next. rewrite E. destruct (cu_fresh c); cbn.
    all: eexists; (split; [done|]); split; [apply cursor_wf_nil|].
    all: split; [done|]; split; [by right|]. all: exists C; by rewrite E in Hu. }
  destruct Ef as [Ef|?]; [|done].
  destruct (init_queue_spec l C cd) as (l' & q & L & P & -> & Hsz' & Hok & HU); [|done|].
  { destruct l; [done|]. rewrite vsize_cons in *. pose proof (vsize_nonneg l). lia. }
  unfold cursor_next, pend_after_next in *. rewrite Ef in *. rsimpl. cbn in Hwf'.
  eapply or_start_spec; [done|by rewrite Hsz'|done|]. intros x. by rewrite Hu, HU.
Qed.

(** [do_next] refines the cursor of the union. *)
Lemma or_do_next_spec st c : or_rep st c ->
  exists st', or_do_next st = Ret (fst (cursor_next c), st') /\ or_rep st' (snd (cursor_next c)).
Proof.
  destruct st as [l [q|] cd]; [apply or_next_started|apply or_next_fresh].
Qed.

(** *** [do_skipTo] *)
Definition any_flag (d : Z) (f : bool) : Prop := True.

(** [R] is the part of the union from [target] on. *)
Definition skip_inv (target m n : Z) (R : Z -> Prop) (g : list nat * (nat -> list Z))
    (st : children * Q) : Prop :=
  core_ok any_flag m st.1 st.2 g.1 g.2 /\ vsize st.1 = n /\ g.1 <> [] /\
  forall x, R x <-> target <= x /\ union_of g.1 g.2 x.

Definition skip_post (m n : Z) (R : Z -> Prop) (r : children * Q * Z) : Prop :=
  let '(l, q, d) := r in
  exists l0 L P, core_ok any_flag m l0 q L P /\ vsize l0 = n /\
    (forall x, R x <-> union_of L P x) /\
    ((L = [] /\ d = MAX_DOC_ID /\ l = l0) \/
     (R d /\ (forall x, R x -> d <= x) /\ l = mark_all d l0)).

Context `{!SkipLaw S before}.

Lemma skip_step target m n R g st :
  0 <= target < MAX_DOC_ID -> skip_inv target m n R g st ->
  0 <= left_size g.1 g.2 /\
  ((exists g' st', skip_body target st = Ret (inl st') /\ skip_inv target m n R g' st' /\
      left_size g'.1 g'.2 < left_size g.1 g.2) \/
   (exists r, skip_body target st = Ret (inr r) /\ skip_post m n R r)).
Proof.
  destruct st as [l q], g as [L P]. intros Ht (Hok & Hm & HL0 & HR). cbn [fst snd] in *.
  split; [apply left_size_nonneg|]. unfold skip_body.
  pose proof Hok as (_ & Hq & _). rewrite (pq_size_spec _ _ _ _ Hq).
  pose proof (nonempty_size L HL0).
  destruct (queue_top_spec _ _ _ _ _ _ Hok)
    as [[-> _]|(i & L' & d & p & f & HL & -> & Et & EP & _ & Hli & Hmin)]; [done|]. rsimpl.
  rewrite (live_doc _ _ _ _ _ Hli).
  destruct (Z.leb_spec target d).
  { right. eexists. split; [done|]. destruct (Z.ltb_spec (vsize L) 1); [lia|].
    exists l, L, P. split_and!; [done..| |].
    - intros x. rewrite HR. split; [tauto|]. intros Hx. split; [|done].
      specialize (Hmin x Hx). lia.
    - right. split_and!; [|intros x [_ Hx]%HR; by apply Hmin|done].
      apply HR. split; [done|]. exists i. rewrite HL, EP. set_solver. }
  assert (Hmin' : forall x, union_of L P x -> d <= x) by done.
  pose proof (core_ok_mark_all any_flag m l q L P d Hok Hmin') as Hok1.
  apply (core_ok_mono _ any_flag) in Hok1; [|done].
  assert (vsize (mark_all d l) = n) as Hm1.
  { rewrite <- Hm. unfold vsize, mark_all. by rewrite length_map. }
  pose proof Hok1 as (_ & _ & Hall).
  destruct (Hall i ltac:(rewrite HL; by left)) as (d1 & p1 & f1 & E1 & _ & Hl1).
  rewrite EP in E1. injection E1 as <- <-.
  pose proof Hl1 as (s & -> & Hr).
  destruct (skip_law (can := before) s _ target Hr Ht) as (s' & -> & Hr'); [by right; intros ? ? [= <- _]|]. cbn in Hr'.
  rsimpl. cbn [cursor_skipTo cu_pend].
  pose proof (core_ok_perm _ _ _ _ _ _ _ Hok1 HL) as Hok2.
  assert (i ∉ L') as Hi by (destruct Hok2 as (?%NoDup_cons & _); tauto).
  destruct (live_wf _ _ _ _ Hl1) as [Hs Hb]. cbn in Hs, Hb.
  assert (forall x, target <= x -> x ∈ d :: p <-> x ∈ pend_from target (d :: p)) as Hx.
  { intros x Hx. rewrite pend_from_elem. tauto. }
  assert (vsize (pend_from target (d :: p)) < vsize (d :: p)) as Hlt.
  { rewrite pend_from_cons_lt, vsize_cons by lia. unfold vsize, pend_from.
    pose proof (length_filter (fun d => target <= d) p). lia. }
  destruct (pend_from target (d :: p)) as [|d' p'] eqn:Ep; cbn [head].
  - cbn [default id from_option]. rewrite Z.eqb_refl. cbn [orb].
    destruct (core_ok_pop _ _ _ _ _ _ _ (Some (s', f1)) Hok2 Et) as (q' & -> & Hok3). rsimpl.
    pose proof Hok3 as (_ & Hq3 & _). rewrite (pq_size_spec _ _ _ _ Hq3).
    assert (forall x, R x <-> target <= x /\ union_of L' P x) as HR'.
    { intros x. rewrite HR, (union_of_perm _ _ _ _ HL), union_cons, EP.
      split; [|tauto]. intros [H1 [H2|H2]]; [|done].
      apply (Hx x H1) in H2. by apply elem_of_nil in H2. }
    destruct (Z.ltb_spec (vsize L') 1).
    + right. eexists. split; [done|].
      assert (L' = []) as ->.
      { destruct L' as [|j L']; [done|]. rewrite vsize_cons in *. pose proof (vsize_nonneg L'). lia. }
      eexists _, [], P. split_and!; [done|by rewrite vsize_list_insert| |by left].
      intros x. rewrite HR'. split; [tauto|]. intros Hn. by apply union_nil in Hn.
    + left. exists (L', P), (<[i := Some (s', f1)]> (mark_all d l), q'). split; [done|].
      split; [split_and!|]; cbn [fst snd]; [done|by rewrite vsize_list_insert| |done|].
      * intros ->. by cbn in *.
      * rewrite (left_size_perm _ _ _ HL). cbn. rewrite EP. pose proof (vsize_nonneg (d :: p)).
        rewrite vsize_cons in *. pose proof (vsize_nonneg p). lia.
  - destruct (pend_from_head _ _ _ _ Ep) as [Hd1 Hd2]. specialize (Hb d' Hd1).
    cbn [default id from_option]. destruct (Z.eqb_spec MAX_DOC_ID d'); [lia|].
    destruct (Z.ltb_spec d' target); [lia|]. cbn [orb].
    destruct (core_ok_adjust _ _ _ _ _ _ _ s' f1 d' p' Hok2 Et Hr' I) as (q' & -> & Hok3). rsimpl.
    left. exists (i :: L', <[i := d' :: p']> P), (<[i := Some (s', f1)]> (mark_all d l), q').
    split; [done|]. split; [split_and!|]; cbn [fst snd]; [done|by rewrite vsize_list_insert|done| |].
    + intros x. rewrite HR, (union_of_perm _ _ _ _ HL), union_cons, EP, union_sub by done.
      split; intros [G1 G2]; (split; [done|]); pose proof (Hx x G1); tauto.
    + rewrite (left_size_perm _ _ _ HL). cbn [left_size].
      rewrite fn_lookup_insert, left_size_insert, EP by done. lia.
Qed.

Lemma or_rep_nil_list l cd c : or_rep (OrCore l None cd) c -> l = [] -> cu_pend c = [].
Proof.
  intros (_ & _ & _ & C & _ & Hu) ->. cbn in Hu. apply (elems_nil_of _ _ Hu).
  intros x (i & Hi & _). cbn in Hi. lia.
Qed.

Lemma or_skip_loop target m l q L P p :
  0 <= target < MAX_DOC_ID -> vsize l < 2 ^ 31 ->
  core_ok any_flag m l q L P -> (forall x, x ∈ p <-> union_of L P x) ->
  cursor_wf (Cursor false p) ->
  exists st',
    or_skip_queue target l q =
    Ret (default MAX_DOC_ID (head (pend_from target p)), st') /\
    or_rep st' (Cursor false (pend_from target p)) /\
    (pend_from target p = [] -> or_currDoc_ st' = MAX_DOC_ID).
Proof.
  intros Ht Hsz Hok Hu Hwf. pose proof Hok as (_ & Hq & _).
  unfold or_skip_queue.
  rewrite (pq_size_spec _ _ _ _ Hq). destruct (Z.ltb_spec (vsize L) 1).
  - assert (L = []) as ->.
    { destruct L as [|j L]; [done|]. rewrite vsize_cons in *. pose proof (vsize_nonneg L). lia. }
    rewrite (elems_nil_of _ _ Hu (union_nil P)). cbn. eexists. split; [done|].
    split; [by eapply or_rep_done|done].
  - destruct (while_loop_rule _ _ _ _
      (fun g st => skip_step target m (vsize l) (fun x => x ∈ pend_from target p) g st Ht) (L, P) (l, q))
      as ([[l' q'] d] & -> & l0 & L' & P' & Hok' & Hsz' & Hu' & HC).
    + split_and!; [done..| |].
      * cbn. intros ->. by cbn in *.
      * intros x. rewrite pend_from_elem, Hu. tauto.
    + by eapply left_size_bound.
    + rsimpl. rewrite <- Hsz' in Hsz.
      destruct HC as [(-> & -> & ->)|(Hd & Hmin & ->)].
      * rewrite (elems_nil_of _ _ Hu' (union_nil P')). cbn. eexists. split; [done|].
        split; [by eapply or_rep_done|done].
      * pose proof (cursor_wf_skipTo target _ Hwf) as Hwf'. cbn in Hwf'.
        destruct (pend_from target p) as [|y t] eqn:E; [by apply elem_of_nil in Hd|].
        assert (y = d) as ->.
        { destruct Hwf' as [Hs' _]. pose proof (ssorted_head_le _ _ _ Hs' Hd).
          pose proof (Hmin y ltac:(by left)). lia. }
        cbn. eexists. split; [done|]. split; [|done]. by eapply or_rep_marked.
Qed.

(** [do_skipTo] refines the cursor of the union. *)
Lemma or_do_skipTo_spec st c target :
  or_rep st c -> 0 <= target < MAX_DOC_ID ->
  exists st', or_do_skipTo target st = Ret (fst (cursor_skipTo target c), st') /\
    or_rep st' (snd (cursor_skipTo target c)) /\
    (fst (cursor_skipTo target c) = MAX_DOC_ID -> or_currDoc_ st' = MAX_DOC_ID).
Proof.
  intros Hrep Ht. pose proof Hrep as (Hwf & Hsz & H).
  assert (cursor_wf (Cursor false (cu_pend c))) as Hwf1 by apply Hwf.
  assert (fst (cursor_skipTo target c) = MAX_DOC_ID -> pend_from target (cu_pend c) = []) as Hmax.
  { intros E. by apply (cursor_skipTo_max _ _ Hwf) in E. }
  destruct st as [l [q|] cd]; unfold or_do_skipTo, or_skip_from; cbn in Hsz, H; rsimpl; ocbn; rsimpl.
  - destruct H as (Ef & m & L & P & Hok & Hu & _).
    destruct (or_skip_loop target m l q L P (cu_pend c)) as (st' & -> & Hr & Hd); [done..| |done|done|].
    { by eapply core_ok_mono. }
    eexists. split; [done|]. split; [done|]. tauto.
  - destruct (decide (l = [])) as [->|Hl].
    + pose proof (or_rep_nil_list _ _ _ Hrep eq_refl) as E. cbn. rewrite E. cbn.
      eexists. split; [done|]. split; [|done]. split; [apply cursor_wf_nil|].
      split; [done|]. split; [by right|]. destruct H as (_ & C & Hf & Hu). exists C.
      by rewrite E in Hu.
    + destruct H as ([Ef|?] & C & Hf & Hu); [|done].
      destruct (init_queue_spec l C cd) as (l' & q & L & P & -> & Hsz' & Hok & HU); [|done|].
      { pose proof (nonempty_size l Hl). lia. }
      rsimpl. ocbn. setoid_rewrite <- HU in Hu. rewrite <- Hsz' in Hsz, Hok.
      destruct (or_skip_loop target (vsize l') l' q L P (cu_pend c)) as (st' & -> & Hr & Hd); [done..| |done|done|].
      { by eapply core_ok_mono. }
      eexists. split; [done|]. split; [done|]. tauto.
Qed.
End OrCorrect.

#[export] Instance or_core_DocIterator {S Q} `{!DocIterator S, !PQueue Q nat} :
    DocIterator (or_core S Q) := {
  di_next := or_do_next;
  di_doc := or_currDoc_;
  di_skipTo := or_do_skipTo;
  di_tf := or_tf
}.

#[export] Instance or_core_DocNextSpec {S Q}
    `{!DocIterator S, !DocNextSpec S, !PQueue Q nat, !PQueueSpec Q nat} :
  DocNextSpec (or_core S Q).
Proof.
  refine {| di_rep := or_rep |}.
  - by intros s c [H _].
  - intros s c. apply or_do_next_spec.
  - intros s d p. apply or_rep_doc.
Defined.

#[export] Instance or_core_DocIteratorSpec {S Q}
    `{!DocIterator S, !DocNextSpec S, !SkipLaw S before, !PQueue Q nat, !PQueueSpec Q nat} :
  DocIteratorSpec (or_core S Q).
Proof.
  refine {| di_next_part := or_core_DocNextSpec |}.
  intros s c t H Ht. destruct (or_do_skipTo_spec s c t H Ht) as (s' & E & Hr & _). eauto.
Defined.

#[export] Instance or_core_DocIteratorMax {S Q}
    `{!DocIterator S, !DocNextSpec S, !SkipLaw S before, !PQueue Q nat, !PQueueSpec Q nat} :
  DocIteratorMax (or_core S Q).
Proof.
  intros s c t s' H Ht E. destruct (or_do_skipTo_spec s c t H Ht) as (s2 & E2 & _ & Hd).
  cbn in E. rewrite E2 in E. injection E as E <-. by apply Hd.
Qed.

(** ** ORDocumentIterator with its NOT iterator *)
Record or_iter (S Q N : Type) := OrIter {
  oi_core : or_core S Q;
  hasNot_ : bool;
  currDocOfNOTIter_ : Z;
  initNOTIterator_ : bool;
  pNOTDocIterator_ : option N
}.
Arguments OrIter {_ _ _} _ _ _ _ _.
Arguments oi_core {_ _ _} _.
Arguments hasNot_ {_ _ _} _.
Arguments currDocOfNOTIter_ {_ _ _} _.
Arguments initNOTIterator_ {_ _ _} _.
Arguments pNOTDocIterator_ {_ _ _} _.

Section OrNotOps.
Context {S Q N : Type} `{!DocIterator S, !PQueue Q nat, !DocIterator N}.

(** The constructor; [currDoc_] is not initialised, so it is an argument. *)
Definition ORDocumentIterator (junk : Z) : or_iter S Q N :=
  OrIter (OrCore [] None junk) false MAX_DOC_ID false None.

(** if (pNOTDocIterator_->next()) currDocOfNOTIter_ = ...->doc(); else MAX_DOC_ID *)
Definition not_next (n : N) : res (Z * N) :=
  let* (b, n) := di_next n in
  Ret (if b then di_doc n else MAX_DOC_ID, n).

Definition or_move_together (core : or_core S Q) (n : N) : res (bool * or_core S Q * Z * N) :=
  while_loop (fun '(core, n) =>
    let* (ret, core) := or_do_next core in
    let* (nd, n) := not_next n in
    if ret && (or_currDoc_ core =? nd) then Ret (inl (core, n))
    else Ret (inr (ret, core, nd, n))) (core, n).

Definition or_next (it : or_iter S Q N) : res (bool * or_iter S Q N) :=
  if negb (hasNot_ it) then
    let* (ret, core) := or_do_next (oi_core it) in
    Ret (ret, OrIter core (hasNot_ it) (currDocOfNOTIter_ it) (initNOTIterator_ it)
                (pNOTDocIterator_ it))
  else
    match pNOTDocIterator_ it with
    | None => Undef
    | Some n =>
        let* (nd, n) :=
          if negb (initNOTIterator_ it) then not_next n
          else Ret (currDocOfNOTIter_ it, n) in
        let* (ret, core) := or_do_next (oi_core it) in
        let cur := or_currDoc_ core in
        let* (nd, n) := if nd <? cur then di_skipTo cur n else Ret (nd, n) in
        if cur =? nd then
          let* (ret, core, nd, n) := or_move_together core n in
          Ret (ret, OrIter core true nd true (Some n))
        else
          let* _ := assert_res (cur <? nd) in
          Ret (ret, OrIter core true nd true (Some n))
    end.

Definition or_skipTo (target : Z) (it : or_iter S Q N) : res (Z * or_iter S Q N) :=
  if negb (hasNot_ it) then
    let* (d, core) := or_do_skipTo target (oi_core it) in
    Ret (d, OrIter core (hasNot_ it) (currDocOfNOTIter_ it) (initNOTIterator_ it)
              (pNOTDocIterator_ it))
  else
    match pNOTDocIterator_ it with
    | None => Undef
    | Some n =>
        let* (d, core, nd, n) := while_loop (fun '(currentDoc, core, n) =>
          let* (nFoundId, core) := or_do_skipTo currentDoc core in
          let* (nd, n) := di_skipTo currentDoc n in
          if negb (nFoundId =? MAX_DOC_ID) &&
             ((nFoundId =? currentDoc) && (nd =? currentDoc)) then
            Ret (inr (MAX_DOC_ID, core, nd, n))
          else if negb (nFoundId =? MAX_DOC_ID) && (nFoundId =? nd) then
            Ret (inl (nFoundId, core, n))
          else Ret (inr (nFoundId, core, nd, n))) (target, oi_core it, n) in
        Ret (d, OrIter core true nd (initNOTIterator_ it) (Some n))
    end.
End OrNotOps.

#[export] Instance or_iter_DocIterator {S Q N}
    `{!DocIterator S, !PQueue Q nat, !DocIterator N} : DocIterator (or_iter S Q N) := {
  di_next := or_next;
  di_doc it := or_currDoc_ (oi_core it);
  di_skipTo := or_skipTo;
  di_tf it := or_tf (oi_core it)
}.

(** [add]: the NOT children go to a NOTDocumentIterator of their own. *)
Definition core_add {S Q} (s : S) (core : or_core S Q) : or_core S Q :=
  OrCore (docIteratorList_ core ++ [Some (s, false)]) (pDocIteratorQueue_ core) (or_currDoc_ core).

Definition or_add {S Q} (isNot : bool) (s : S) (it : or_iter S Q (or_core S Q))
  : or_iter S Q (or_core S Q) :=
  if isNot then
    let n := default (OrCore [] None 0) (pNOTDocIterator_ it) in
    OrIter (oi_core it) true (currDocOfNOTIter_ it) (initNOTIterator_ it) (Some (core_add s n))
  else
    OrIter (core_add s (oi_core it)) (hasNot_ it) (currDocOfNOTIter_ it) (initNOTIterator_ it)
      (pNOTDocIterator_ it).

(** ** The NOT filter of [next]

When every document of the NOT iterator is also a document of some child,
[next] enumerates the set difference. *)
Section OrNotCorrect.
Context {S Q N : Type} `{!DocIterator S, !DocNextSpec S, !SkipLaw S before, !PQueue Q nat, !PQueueSpec Q nat}.
Context `{!DocIterator N, !DocIteratorSpec N}.

Definition minus (a n : list Z) : list Z := filter (fun x => x ∉ n) a.

Definition head_doc (p : list Z) : Z := default MAX_DOC_ID (head p).

#[global] Arguments minus : simpl never.

Lemma minus_cons_keep d a n : d ∉ n -> minus (d :: a) n = d :: minus a n.
Proof. intros H. unfold minus. by apply filter_cons_True. Qed.

Lemma minus_elem a n x : x ∈ minus a n <-> x ∈ a /\ x ∉ n.
Proof. unfold minus. rewrite list_elem_of_filter. tauto. Qed.

Lemma not_next_spec (n : N) cn :
  di_rep n cn -> exists n', not_next n = Ret (head_doc (pend_after_next cn), n') /\
    di_rep n' (Cursor false (pend_after_next cn)).
Proof.
  intros H. destruct (di_next_spec n cn H) as (n' & E & H'). unfold not_next. rewrite E. rsimpl.
  eexists. split; [|exact H']. cbn in H'. cbn. unfold head_doc.
  destruct (pend_after_next cn) as [|d p]; cbn; [done|].
  by rewrite (di_doc_spec _ _ _ H').
Qed.

(** The positive part [ca] and the NOT part [cn] of an iterator. *)
Definition or_not_rep (it : or_iter S Q N) (c : cursor) : Prop :=
  exists n ca cn, hasNot_ it = true /\ pNOTDocIterator_ it = Some n /\
    or_rep (oi_core it) ca /\ di_rep n cn /\
    0 <= or_currDoc_ (oi_core it) < MAX_DOC_ID /\
    cu_fresh c = cu_fresh ca /\ cu_fresh cn = cu_fresh ca /\
    initNOTIterator_ it = negb (cu_fresh ca) /\
    cu_pend c = minus (cu_pend ca) (cu_pend cn) /\
    (forall x, x ∈ cu_pend cn -> x ∈ cu_pend ca) /\
    (cu_fresh ca = false ->
       currDocOfNOTIter_ it = head_doc (cu_pend cn) /\
       forall d, head (cu_pend ca) = Some d -> d ∉ cu_pend cn).

Lemma init_keeps_doc (st st' : or_core S Q) :
  initDocIteratorQueue st = Ret st' -> or_currDoc_ st' = or_currDoc_ st.
Proof.
  unfold initDocIteratorQueue. case_match; [by intros [= <-]|].
  intros ([l q] & _ & E)%bind_Ret_inv. by injection E as <-.
Qed.

Lemma or_do_next_false (st st' : or_core S Q) :
  or_do_next st = Ret (false, st') -> or_currDoc_ st' = or_currDoc_ st.
Proof.
  unfold or_do_next. destruct (pDocIteratorQueue_ st).
  - intros ([[l q0] top] & _ & H)%bind_Ret_inv. destruct top; [done|]. by injection H as <-.
  - intros (st0 & E & H)%bind_Ret_inv. rewrite <- (init_keeps_doc _ _ E). clear E.
    unfold or_start in H. destruct (pDocIteratorQueue_ st0); [|by injection H as <-].
    apply bind_Ret_inv in H as (top & _ & H). destruct top; [|by injection H as <-].
    by apply bind_Ret_inv in H as (l & _ & ?).
Qed.

(** [do_next] and the document it leaves. *)
Lemma or_do_next_doc (core : or_core S Q) ca :
  or_rep core ca -> 0 <= or_currDoc_ core < MAX_DOC_ID ->
  exists core', or_do_next core = Ret (negb (bool_decide (pend_after_next ca = [])), core') /\
    or_rep core' (Cursor false (pend_after_next ca)) /\
    0 <= or_currDoc_ core' < MAX_DOC_ID /\
    forall d, head (pend_after_next ca) = Some d -> or_currDoc_ core' = d.
Proof.
  intros H Hd. destruct (or_do_next_spec core ca H) as (core' & E & H'). cbn in E, H'.
  exists core'. split_and!; [done|done| | |].
  all: destruct (pend_after_next ca) as [|d p] eqn:Ep; cbn in *.
  all: try (apply or_do_next_false in E; rewrite E; tauto).
  - rewrite (or_rep_doc _ _ _ H'). destruct H' as ([_ Hb] & _). apply Hb. by left.
  - rewrite (or_rep_doc _ _ _ H'). destruct H' as ([_ Hb] & _). apply Hb. by left.
  - done.
  - intros ? [= <-]. by apply (or_rep_doc _ _ p).
Qed.

Lemma minus_cons_both d pa pn :
  ssorted (d :: pa) -> minus (d :: pa) (d :: pn) = minus pa pn.
Proof.
  intros Hs. unfold minus. rewrite filter_cons_False by set_solver.
  apply filter_ext_in. intros x Hx. pose proof (ssorted_head_lt _ _ _ Hs Hx).
  rewrite not_elem_of_cons. split; [tauto|]. intros ?. split; [lia|done].
Qed.

(** What [next] leaves when [R] is the rest of the difference. *)
Definition not_post (R : list Z) (r : bool * or_core S Q * Z * N) : Prop :=
  let '(ret, core, nd, n) := r in
  exists a' n', or_rep core (Cursor false a') /\ di_rep n (Cursor false n') /\
    0 <= or_currDoc_ core < MAX_DOC_ID /\ nd = head_doc n' /\
    minus a' n' = R /\ (forall x, x ∈ n' -> x ∈ a') /\
    (forall d, head a' = Some d -> d ∉ n') /\ ret = negb (bool_decide (R = [])).

Lemma not_post_intro core n a' n' :
  or_rep core (Cursor false a') -> di_rep n (Cursor false n') ->
  0 <= or_currDoc_ core < MAX_DOC_ID -> (forall x, x ∈ n' -> x ∈ a') ->
  (forall d, head a' = Some d -> d ∉ n') ->
  not_post (minus a' n') (negb (bool_decide (a' = [])), core, head_doc n', n).
Proof.
  intros Hr Hn Hd Hsub Hh. exists a', n'. split_and!; try done; try tauto.
  f_equal. apply bool_decide_ext. split; [by intros ->|]. destruct a' as [|d a']; [done|].
  intros E. assert (d ∈ minus (d :: a') n') as Hin.
  { apply minus_elem. split; [by left|by apply Hh]. }
  rewrite E in Hin. by apply elem_of_nil in Hin.
Qed.

(** The heads of the two parts, when the NOT part is included. *)
Lemma head_not_in d pa pn :
  ssorted (d :: pa) -> ssorted pn -> (forall x, x ∈ pn -> x ∈ d :: pa) ->
  d <> head_doc pn -> d ∉ pn.
Proof.
  intros Hs Hn Hsub Hne Hin. destruct pn as [|e pn]; [by apply elem_of_nil in Hin|].
  cbn in Hne. pose proof (ssorted_head_le _ _ _ Hn Hin).
  pose proof (ssorted_head_le _ _ _ Hs (Hsub e ltac:(by left))). lia.
Qed.

Lemma subset_tails d pa pn :
  ssorted (d :: pn) -> (forall x, x ∈ d :: pn -> x ∈ d :: pa) -> forall x, x ∈ pn -> x ∈ pa.
Proof.
  intros Hs Hsub x Hx. pose proof (ssorted_head_lt _ _ _ Hs Hx).
  pose proof (Hsub x ltac:(by right)) as [->|?]%elem_of_cons; [lia|done].
Qed.

Definition move_inv (R : list Z) (g : Z * list Z * list Z) (st : or_core S Q * N) : Prop :=
  let '(d, pa, pn) := g in
  or_rep st.1 (Cursor false (d :: pa)) /\ di_rep st.2 (Cursor false (d :: pn)) /\
  0 <= or_currDoc_ st.1 < MAX_DOC_ID /\ (forall x, x ∈ pn -> x ∈ pa) /\ minus pa pn = R.

Lemma move_together_spec R g core n :
  move_inv R g (core, n) ->
  exists r, or_move_together core n = Ret r /\ not_post R r.
Proof.
  intros H. unfold or_move_together.
  eapply (while_loop_rule _ (move_inv R) (fun g => vsize g.1.2) (not_post R)); [|exact H|].
  - clear g core n H. intros [[d pa] pn] [core n] (Hc & Hn & Hd & Hsub & HR). cbn [fst snd] in *.
    split; [apply vsize_nonneg|].
    destruct (or_do_next_doc core _ Hc Hd) as (core' & -> & Hc' & Hd' & Hh).
    destruct (not_next_spec n _ Hn) as (n' & En & Hn'). unfold pend_after_next in *.
    cbn [cu_fresh cu_pend tail] in *. rsimpl. rewrite En. rsimpl.
    pose proof Hc' as (Hwf & _). pose proof (di_rep_wf _ _ Hn') as Hwfn.
    destruct Hwf as [Hs _], Hwfn as [Hsn _]. cbn in Hs, Hsn.
    destruct pa as [|d' pa].
    + rewrite bool_decide_eq_true_2 by done. right. eexists. split; [done|].
      subst R. by apply not_post_intro.
    + rewrite bool_decide_eq_false_2 by done. rewrite (Hh d' eq_refl).
      destruct (Z.eqb_spec d' (head_doc pn)) as [E|Hne].
      * destruct pn as [|e pn].
        { cbn in E. rewrite <- (Hh d' eq_refl) in E. lia. }
        cbn in E. subst e. left. exists (d', pa, pn), (core', n'). split; [done|].
        cbn [fst snd]. split; [split; [done|]; split; [done|]; split; [done|]; split|].
        -- by apply (subset_tails d').
        -- subst R. by rewrite minus_cons_both.
        -- rewrite vsize_cons. lia.
      * right. eexists. split; [done|]. subst R.
        apply (not_post_intro core' n' (d' :: pa) pn); [done..|].
        intros ? [= <-]. by apply (head_not_in d' pa).
  - destruct g as [[d pa] pn]. destruct H as (([Hs Hb] & _) & _). cbn in *.
    pose proof (ssorted_length _ 0 MAX_DOC_ID Hs Hb). rewrite vsize_cons in *.
    unfold MAX_DOC_ID, loop_fuel in *. lia.
Qed.

Lemma or_next_unfold (core : or_core S Q) nd0 i0 (n : N) :
  or_next (OrIter core true nd0 i0 (Some n)) =
  (let* (nd, n) := if negb i0 then not_next n else Ret (nd0, n) in
   let* (ret, core) := or_do_next core in
   let cur := or_currDoc_ core in
   let* (nd, n) := if nd <? cur then di_skipTo cur n else Ret (nd, n) in
   if cur =? nd then
     let* (ret, core, nd, n) := or_move_together core n in
     Ret (ret, OrIter core true nd true (Some n))
   else
     let* _ := assert_res (cur <? nd) in
     Ret (ret, OrIter core true nd true (Some n))).
Proof. done. Qed.

Lemma or_not_rep_intro R ret core nd n :
  not_post R (ret, core, nd, n) ->
  ret = negb (bool_decide (R = [])) /\
  or_not_rep (OrIter core true nd true (Some n)) (Cursor false R).
Proof.
  intros (a' & n' & Hc & Hn & Hd & -> & HR & Hsub & Hh & ->). split; [done|].
  exists n, (Cursor false a'), (Cursor false n'). cbn. split_and!; try done; try lia.
Qed.

(** The common part of a first and a later [next]: both iterators moved to
    [pa] and [pn]. *)
Lemma or_not_settle core n pa pn :
  or_rep core (Cursor false pa) -> di_rep n (Cursor false pn) ->
  0 <= or_currDoc_ core < MAX_DOC_ID ->
  (forall d, head pa = Some d -> or_currDoc_ core = d) ->
  (forall x, x ∈ pn -> x ∈ pa) ->
  exists it,
    (let cur := or_currDoc_ core in
     let* (nd, n) := if head_doc pn <? cur then di_skipTo cur n else Ret (head_doc pn, n) in
     if cur =? nd then
       let* (ret, core, nd, n) := or_move_together core n in
       Ret (ret, OrIter core true nd true (Some n))
     else
       let* _ := assert_res (cur <? nd) in
       Ret (negb (bool_decide (pa = [])), OrIter core true nd true (Some n))) =
    Ret (negb (bool_decide (minus pa pn = [])), it) /\
    or_not_rep it (Cursor false (minus pa pn)).
Proof.
  intros Hc Hn Hd Hh Hsub. cbv zeta.
  pose proof Hc as ([Hs Hb] & _). pose proof (di_rep_wf _ _ Hn) as [Hsn Hbn].
  cbn in Hs, Hb, Hsn, Hbn.
  assert (or_currDoc_ core <= head_doc pn) as Hle.
  { destruct pn as [|e pn]; cbn; [lia|]. pose proof (Hsub e ltac:(by left)) as He.
    destruct pa as [|d pa]; [by apply elem_of_nil in He|].
    rewrite (Hh d eq_refl). by apply (ssorted_head_le d pa). }
  destruct (Z.ltb_spec (head_doc pn) (or_currDoc_ core)); [lia|]. rsimpl.
  destruct (Z.eqb_spec (or_currDoc_ core) (head_doc pn)) as [E|Hne].
  - destruct pn as [|e pn]; [cbn in E; lia|]. cbn in E.
    pose proof (Hsub e ltac:(by left)) as He.
    destruct pa as [|d pa]; [by apply elem_of_nil in He|].
    pose proof (Hh d eq_refl) as E2. assert (e = d) as -> by lia.
    destruct (move_together_spec (minus pa pn) (d, pa, pn) core n) as ([[[ret core'] nd] n'] & -> & Hp).
    { split; [done|]; split; [done|]; split; [done|]; split; [by apply (subset_tails d)|done]. }
    apply or_not_rep_intro in Hp as [-> Hp]. rsimpl.
    rewrite minus_cons_both by done. eauto.
  - destruct (Z.ltb_spec (or_currDoc_ core) (head_doc pn)); [|lia]. rsimpl.
    pose proof (not_post_intro core n pa pn Hc Hn Hd Hsub) as Hp.
    apply or_not_rep_intro in Hp as [E Hp]; [unfold negb in E; rewrite E; eauto|].
    intros d Ed. destruct pa as [|d' pa]; [done|]. injection Ed as ->.
    apply (head_not_in d pa); [done..|]. by rewrite <- (Hh d eq_refl).
Qed.

Lemma or_not_next_spec it c :
  or_not_rep it c ->
  exists it', or_next it = Ret (fst (cursor_next c), it') /\ or_not_rep it' (snd (cursor_next c)).
Proof.
  intros (n & ca & cn & Eh & En & Hc & Hn & Hd & Ef & Efn & Ei & Ep & Hsub & Hst).
  destruct it as [core hn nd0 i0 on].
  cbn [oi_core hasNot_ currDocOfNOTIter_ initNOTIterator_ pNOTDocIterator_] in *. subst hn on.
  destruct (or_do_next_doc core ca Hc Hd) as (core' & E & Hc' & Hd' & Hh).
  rewrite or_next_unfold, Ei. unfold cursor_next. unfold pend_after_next in *.
  rewrite Ef, Ep. destruct (cu_fresh ca); cbn [negb].
  - destruct (not_next_spec n cn Hn) as (n' & En & Hn'). unfold pend_after_next in *.
    rewrite Efn in *. rewrite En. rsimpl. rewrite E. rsimpl.
    by apply or_not_settle.
  - destruct (Hst eq_refl) as [-> Hhd]. rsimpl. rewrite E. rsimpl.
    destruct ca as [fa pa], cn as [fn pn]. cbn [cu_fresh cu_pend fst snd] in *. subst fn.
    assert (tail (minus pa pn) = minus (tail pa) pn) as ->.
    { destruct pa as [|d pa]; [done|]. by rewrite minus_cons_keep by by apply Hhd. }
    apply or_not_settle; [done..|]. intros x Hx. pose proof (Hsub x Hx) as Hx'.
    destruct pa as [|d pa]; [done|]. apply elem_of_cons in Hx' as [->|]; [|done].
    by apply (Hhd d) in Hx.
Qed.

(** With a NOT iterator or without one. *)
Definition or_iter_rep (it : or_iter S Q N) (c : cursor) : Prop :=
  hasNot_ it = false /\ or_rep (oi_core it) c \/ or_not_rep it c.

Lemma minus_sorted a n : ssorted a -> ssorted (minus a n).
Proof. apply ssorted_filter. Qed.

#[export] Instance or_iter_DocNextSpec : DocNextSpec (or_iter S Q N).
Proof.
  refine {| di_rep := or_iter_rep |}.
  - intros it c [[_ [H _]]|(n & ca & cn & H)]; [done|].
    destruct H as (_ & _ & [Hwf _] & _ & _ & _ & _ & _ & Ep & _).
    destruct Hwf as [Hs Hb]. split; rewrite Ep; [by apply minus_sorted|].
    intros d [Hd _]%minus_elem. by apply Hb.
  - intros it c [[Eh H]|H].
    + destruct (or_do_next_spec _ _ H) as (core' & E & H'). cbn. unfold or_next.
      rewrite Eh. cbn [negb]. rewrite E. rsimpl. eexists. split; [done|]. left. by split.
    + destruct (or_not_next_spec it c H) as (it' & E & H'). exists it'. split; [done|]. by right.
  - intros it d p [[_ H]|(n & ca & cn & H)]; [by apply (or_rep_doc _ _ p)|].
    destruct H as (_ & _ & Hr & _ & _ & Ef & _ & _ & Ep & _ & Hst). cbn in Ef, Ep |- *.
    destruct (Hst ltac:(done)) as [_ Hh]. destruct ca as [f [|d' pa]]; cbn in *; [done|].
    subst f. rewrite minus_cons_keep in Ep by by apply Hh.
    injection Ep as -> _. by apply (or_rep_doc _ _ pa).
Defined.
End OrNotCorrect.

(** ** Building an iterator and reading it *)
Section OrTop.
Context {S Q : Type} `{!DocIterator S, !DocNextSpec S, !SkipLaw S before, !PQueue Q nat, !PQueueSpec Q nat}.
Notation iter := (or_iter S Q (or_core S Q)).

(** [add] of every positive child, then of every NOT child. *)
Definition or_build (junk : Z) (pos neg : list S) : iter :=
  foldl (fun it s => or_add true s it)
    (foldl (fun it s => or_add false s it) (ORDocumentIterator junk) pos) neg.

Definition union_list (cs : list cursor) : list Z := ssort (concat (map cu_pend cs)).

Lemma union_list_elem cs x : x ∈ union_list cs <-> exists c, c ∈ cs /\ x ∈ cu_pend c.
Proof.
  unfold union_list. rewrite ssort_elem, list_elem_of_In, in_concat.
  setoid_rewrite in_map_iff. setoid_rewrite <- list_elem_of_In. naive_solver.
Qed.

Lemma union_list_wf b cs : Forall cursor_wf cs -> cursor_wf (Cursor b (union_list cs)).
Proof.
  intros H. split; [apply ssort_sorted|]. cbn. intros d (c & Hc & Hd)%union_list_elem.
  rewrite Forall_forall in H. by apply (H c Hc).
Qed.

(** A child, or a NULL entry, which enumerates nothing. *)
Definition slot_rep (o : option (S * bool)) (c : cursor) : Prop :=
  match o with Some (s, _) => di_rep s c | None => c = Cursor true [] end.

Lemma slot_rep_wf o c : slot_rep o c -> cursor_wf c.
Proof. destruct o as [[s b]|]; cbn; [apply di_rep_wf|intros ->; apply cursor_wf_nil]. Qed.

Lemma or_rep_slots junk (l : list (option (S * bool))) (cs : list cursor) :
  Forall2 slot_rep l cs -> Forall (fun c => cu_fresh c = true) cs -> vsize l < 2 ^ 31 ->
  or_rep (OrCore l (@None Q) junk) (Cursor true (union_list cs)).
Proof.
  intros H Hf Hsz. split; [|split]; [|done|].
  - apply union_list_wf. rewrite Forall_forall. intros c Hc.
    apply list_elem_of_lookup in Hc as [i Hi].
    destruct (Forall2_lookup_r _ _ _ _ _ H Hi) as (o & _ & Hr). by eapply slot_rep_wf.
  - split; [by left|]. exists (fun i => default (Cursor true []) (cs !! i)). split.
    + intros i o Ho. cbn [docIteratorList_] in Ho.
      destruct (Forall2_lookup_l _ _ _ _ _ H Ho) as (c & -> & Hr). cbn.
      destruct o as [[s b]|]; cbn in Hr; [done|]. by subst.
    + cbn. intros x. rewrite union_list_elem. unfold fresh_union.
      rewrite (Forall2_length _ _ _ H). rewrite Forall_forall in Hf. split.
      * intros (c & Hc & Hx). apply list_elem_of_lookup in Hc as Hi. destruct Hi as [i Hi].
        exists i. split; [by eapply lookup_lt_Some|]. rewrite Hi. cbn.
        unfold pend_after_next. by rewrite Hf.
      * intros (i & Hi & Hx). destruct (lookup_lt_is_Some_2 _ _ Hi) as [c Ec].
        rewrite Ec in Hx. cbn in Hx. assert (c ∈ cs) as Hc by by eapply list_elem_of_lookup_2.
        unfold pend_after_next in Hx. rewrite Hf in Hx by done. eauto.
Qed.

(** The children as [add] stores them. *)
Lemma or_rep_children junk (ss : list S) (cs : list cursor) :
  Forall2 di_rep ss cs -> Forall (fun c => cu_fresh c = true) cs -> vsize ss < 2 ^ 31 ->
  or_rep (OrCore ((fun s => Some (s, false)) <$> ss) (@None Q) junk)
    (Cursor true (union_list cs)).
Proof.
  intros H Hf Hsz. apply or_rep_slots; [by apply Forall2_fmap_l|done|]. unfold vsize in *. by rewrite length_fmap.
Qed.

Lemma or_add_pos_all l q junk (it : iter) ss :
  oi_core it = OrCore l q junk ->
  foldl (fun it s => or_add false s it) it ss =
  OrIter (OrCore (l ++ ((fun s => Some (s, false)) <$> ss)) q junk)
    (hasNot_ it) (currDocOfNOTIter_ it) (initNOTIterator_ it) (pNOTDocIterator_ it).
Proof.
  revert l it. induction ss as [|s ss IH]; intros l it E; cbn.
  - rewrite app_nil_r, <- E. by destruct it.
  - rewrite (IH (l ++ [Some (s, false)])); [|cbn; by rewrite E]. by rewrite <- app_assoc.
Qed.

Lemma or_add_neg_all l (it : iter) ss :
  pNOTDocIterator_ it = Some (OrCore l None 0) -> hasNot_ it = true ->
  foldl (fun it s => or_add true s it) it ss =
  OrIter (oi_core it) true (currDocOfNOTIter_ it) (initNOTIterator_ it)
    (Some (OrCore (l ++ ((fun s => Some (s, false)) <$> ss)) None 0)).
Proof.
  revert l it. induction ss as [|s ss IH]; intros l it E Eh; cbn.
  - rewrite app_nil_r, <- E, <- Eh. by destruct it.
  - rewrite (IH (l ++ [Some (s, false)])); [|cbn; by rewrite E|done]. by rewrite <- app_assoc.
Qed.

Lemma or_build_pos junk pos :
  or_build junk pos [] =
  OrIter (OrCore ((fun s => Some (s, false)) <$> pos) None junk) false MAX_DOC_ID false None.
Proof. unfold or_build. cbn. by rewrite (or_add_pos_all [] None junk). Qed.

Lemma or_build_neg junk pos neg :
  neg <> [] ->
  or_build junk pos neg =
  OrIter (OrCore ((fun s => Some (s, false)) <$> pos) None junk) true MAX_DOC_ID false
    (Some (OrCore ((fun s => Some (s, false)) <$> neg) None 0)).
Proof.
  intros H. unfold or_build. rewrite (or_add_pos_all [] None junk) by done.
  destruct neg as [|s neg]; [done|]. cbn. by rewrite (or_add_neg_all [Some (s, false)]).
Qed.
End OrTop.

Section OrProperties.
Context {S Q : Type} `{!DocIterator S, !DocNextSpec S, !SkipLaw S before, !PQueue Q nat, !PQueueSpec Q nat}.

(** C14: an ORDocumentIterator over children that honour the iterator
    contract enumerates exactly the union of their documents, each document
    once and in increasing order. *)
Theorem or_enumerates_union junk (ss : list S) (cs : list cursor) :
  Forall2 di_rep ss cs -> Forall (fun c => cu_fresh c = true) cs -> vsize ss < 2 ^ 31 ->
  exists l, drain (or_build (Q := Q) junk ss []) = Ret l /\ ssorted l /\
    forall x, x ∈ l <-> exists c, c ∈ cs /\ x ∈ cu_pend c.
Proof.
  intros H Hf Hsz. rewrite or_build_pos. eexists. split_and!.
  - apply (drain_spec _ (Cursor true (union_list cs))). left. split; [done|].
    by apply or_rep_children.
  - apply ssort_sorted.
  - apply union_list_elem.
Qed.

(** [skipTo(target)] of an ORDocumentIterator without NOT children
    answers the least document of the union that is at least [target], or
    MAX_DOC_ID when there is none; reading on enumerates what follows. *)
Theorem or_skipTo_union junk (ss : list S) (cs : list cursor) target :
  Forall2 di_rep ss cs -> Forall (fun c => cu_fresh c = true) cs -> vsize ss < 2 ^ 31 ->
  0 <= target < MAX_DOC_ID ->
  let rest := pend_from target (union_list cs) in
  exists it, or_skipTo target (or_build (Q := Q) junk ss []) = Ret (default MAX_DOC_ID (head rest), it) /\
    di_doc it = default MAX_DOC_ID (head rest) /\ drain it = Ret (tail rest).
Proof.
  intros H Hf Hsz Ht rest. rewrite or_build_pos. unfold or_skipTo; cbn [hasNot_ oi_core negb].
  destruct (or_do_skipTo_spec _ _ target (or_rep_children junk ss cs H Hf Hsz) Ht)
    as (core & -> & Hr & Hm). rsimpl. cbn in Hr, Hm. fold rest in Hr, Hm |- *.
  eexists. split; [done|]. split.
  - cbn. fold rest. destruct rest as [|d l]; [by apply Hm|]. by apply (or_rep_doc _ _ l).
  - apply (drain_spec _ (Cursor false rest)). left. by split.
Qed.

(** When the documents of the NOT children are among those of the other
    children, an ORDocumentIterator enumerates the set difference. *)
Theorem or_not_difference junk (ss ns : list S) (cs cns : list cursor) :
  Forall2 di_rep ss cs -> Forall (fun c => cu_fresh c = true) cs -> vsize ss < 2 ^ 31 ->
  Forall2 di_rep ns cns -> Forall (fun c => cu_fresh c = true) cns -> vsize ns < 2 ^ 31 ->
  0 <= junk < MAX_DOC_ID ->
  (forall x, x ∈ union_list cns -> x ∈ union_list cs) ->
  exists l, drain (or_build (Q := Q) junk ss ns) = Ret l /\ ssorted l /\
    forall x, x ∈ l <-> x ∈ union_list cs /\ x ∉ union_list cns.
Proof.
  intros H Hf Hsz Hn Hfn Hszn Hj Hsub.
  exists (minus (union_list cs) (union_list cns)).
  split_and!; [|apply minus_sorted, ssort_sorted|apply minus_elem].
  destruct (decide (ns = [])) as [->|Hne].
  - apply Forall2_nil_inv_l in Hn as ->. rewrite or_build_pos.
    rewrite (drain_spec _ (Cursor true (union_list cs))).
    + unfold minus; cbn. f_equal. symmetry. apply filter_all. by intros x _ ?%elem_of_nil.
    + left. split; [done|]. by apply or_rep_children.
  - rewrite or_build_neg by done.
    apply (drain_spec _ (Cursor true (minus (union_list cs) (union_list cns)))). right.
    eexists _, (Cursor true (union_list cs)), (Cursor true (union_list cns)).
    cbn. split_and!; try done; try lia; by apply or_rep_children.
Qed.
End OrProperties.

(** ** Concrete iterators over posting lists *)

(** An OR over posting lists, with the binary heap as its queue. *)
Definition posting_or (pos neg : list (list Z)) : or_iter cursor (heap nat) (or_core cursor (heap nat)) :=
  or_build 0 (map posting pos) (map posting neg).

Lemma or_enumerates_union_witness :
  exists l, drain (posting_or [[1; 5]; [3; 5; 9]] []) = Ret l /\ ssorted l /\
    forall x, x ∈ l <-> exists c, c ∈ map posting [[1; 5]; [3; 5; 9]] /\ x ∈ cu_pend c.
Proof.
  apply (or_enumerates_union 0); [|apply postings_fresh|done]. by apply postings_rep.
Defined.

Lemma or_skipTo_union_witness :
  exists it, or_skipTo 4 (posting_or [[1; 5]; [3; 5; 9]] []) = Ret (5, it) /\
    di_doc it = 5 /\ drain it = Ret [9].
Proof.
  apply (or_skipTo_union 0 _ (map posting [[1; 5]; [3; 5; 9]]) 4);
    [by apply postings_rep|apply postings_fresh|done|done].
Defined.

Lemma or_not_difference_witness :
  exists l, drain (posting_or [[1; 5]; [3; 5; 9]] [[5]; [1]]) = Ret l /\ ssorted l /\
    forall x, x ∈ l <-> x ∈ [1; 3; 5; 9] /\ x ∉ [1; 5].
Proof.
  apply (or_not_difference 0 _ _ (map posting [[1; 5]; [3; 5; 9]]) (map posting [[5]; [1]]));
    [by apply postings_rep|apply postings_fresh|done|by apply postings_rep|apply postings_fresh|done
    |done|].
  intros x [->|[->|[]%elem_of_nil]%elem_of_cons]%elem_of_cons; by vm_compute; repeat constructor.
Defined.

(** Without that inclusion the NOT filter of an ORDocumentIterator fails:
    after a matched pair of documents [move_together_with_not] advances both
    sides once and stops when the NOT document is the smaller one, so the
    documents 5 and 9 without 5, 7 and 9 still answer 9. *)
Theorem or_next_keeps_excluded :
  drain (posting_or [[5; 9]] [[5; 7; 9]]) = Ret [9].
Proof. vm_compute. reflexivity. Qed.

(** [skipTo] with a NOT iterator both loses and keeps documents: without
    document 5, [skipTo(5)] on 5 and 9 answers MAX_DOC_ID although 9 qualifies
    and leaves [doc()] at the excluded 5; without 4 and 5, [skipTo(3)] answers
    the excluded 5. *)
Theorem or_skipTo_not_wrong :
  (let* (d, it) := or_skipTo 5 (posting_or [[5; 9]] [[5]]) in Ret (d, di_doc it))
    = Ret (MAX_DOC_ID, 5) /\
  (let* (d, it) := or_skipTo 3 (posting_or [[5; 9]] [[4; 5]]) in Ret (d, di_doc it))
    = Ret (5, 5).
Proof. split; vm_compute; reflexivity. Qed.
