(* ===== verification/AndIterator.v ===== *)
(** * The AND iterator

Models search-manager/ANDDocumentIterator.{h,cpp}: a list of children that
is rotated while they are brought to a common document ([do_next],
[do_skipTo]), and the NOT iterator consulted by [next] and [skipTo]. *)
From S2P Require Import Prelude PQueue DocIterator OrIterator.

(** [nIteratorNum_] is kept beside the list, as in the code. *)
Record and_core (S : Type) := AndCore {
  docIterList_ : list S;
  nIteratorNum_ : Z;
  and_currDoc_ : Z
}.
Arguments AndCore {_} _ _ _.
Arguments docIterList_ {_} _.
Arguments nIteratorNum_ {_} _.
Arguments and_currDoc_ {_} _.

Section AndOps.
Context {S : Type} `{!DocIterator S}.

(** while (nMatch < nIteratorNum_) ... of [do_next]; the state is the list,
    [target] and [nMatch]. *)
Definition and_match_body (n : Z) (st : list S * Z * Z)
  : res (list S * Z * Z + list S * Z * Z) :=
  let '(l, target, nMatch) := st in
  if nMatch <? n then
    match l with
    | [] => Undef
    | s :: rest =>
        let* (nearTarget, s) := di_skipTo target s in
        if nearTarget =? target then Ret (inl (rest ++ [s], target, nMatch + 1))
        else if nearTarget =? MAX_DOC_ID then Ret (inr (s :: rest, target, 1))
        else if target <? nearTarget then Ret (inl (rest ++ [s], nearTarget, 1))
        else Ret (inr (s :: rest, target, 1))
    end
  else Ret (inr (l, target, nMatch)).

Definition and_do_next (st : and_core S) : res (bool * and_core S) :=
  let n := nIteratorNum_ st in
  if n =? 0 then Ret (false, st)
  else
    match docIterList_ st with
    | [] => Undef
    | s :: rest =>
        let* (b, s) := di_next s in
        if negb b then Ret (false, AndCore (s :: rest) n (and_currDoc_ st))
        else if n =? 1 then Ret (true, AndCore (s :: rest) n (di_doc s))
        else
          let* (l, target, nMatch) :=
            while_loop (and_match_body n) (rest ++ [s], di_doc s, 1) in
          if nMatch =? n then Ret (true, AndCore l n target)
          else Ret (false, AndCore l n (and_currDoc_ st))
    end.

(** The loop of [do_skipTo]; the state adds [nFoundId]. *)
Definition and_skip_body (n : Z) (st : list S * Z * Z * Z)
  : res (list S * Z * Z * Z + list S * Z * Z * Z) :=
  let '(l, target, nMatch, nFoundId) := st in
  if nMatch <? n then
    match l with
    | [] => Undef
    | s :: rest =>
        let* (nFoundId, s) := di_skipTo target s in
        if MAX_DOC_ID =? nFoundId then Ret (inr (s :: rest, target, nMatch, nFoundId))
        else if nFoundId =? target then Ret (inl (rest ++ [s], target, nMatch + 1, nFoundId))
        else if target <? nFoundId then Ret (inl (rest ++ [s], nFoundId, 1, nFoundId))
        else Ret (inr (s :: rest, target, nMatch, nFoundId))
    end
  else Ret (inr (l, target, nMatch, nFoundId)).

Definition and_do_skipTo (target : Z) (st : and_core S) : res (Z * and_core S) :=
  let n := vsize (docIterList_ st) in
  let* (l, target, nMatch, nFoundId) :=
    while_loop (and_skip_body n) (docIterList_ st, target, 0, MAX_DOC_ID) in
  if nMatch =? n then Ret (nFoundId, AndCore l (nIteratorNum_ st) target)
  else Ret (MAX_DOC_ID, AndCore l (nIteratorNum_ st) MAX_DOC_ID).

(** [tf]: the least of the children. *)
Definition and_tf (st : and_core S) : res Z :=
  mfold (fun s mintf =>
    let* tf := di_tf s in
    Ret (if tf <? mintf then tf else mintf)) (docIterList_ st) MAX_COUNT.
End AndOps.

#[export] Instance and_core_DocIterator {S} `{!DocIterator S} : DocIterator (and_core S) := {
  di_next := and_do_next;
  di_doc := and_currDoc_;
  di_skipTo := and_do_skipTo;
  di_tf := and_tf
}.

(** ** Correctness of [do_next] and [do_skipTo] *)
Section AndCorrect.
Context {S : Type} `{!DocIterator S, !DocNextSpec S}.
(** When a child may be asked to skip. *)
Context (can : Z -> cursor -> Prop) `{!CanSkip can, !SkipLaw S can}.
Implicit Types (l : list S) (cl : list cursor).

(** The child is on document [t]. *)
Definition at_doc (t : Z) (c : cursor) : Prop :=
  cu_fresh c = false /\ head (cu_pend c) = Some t.

Definition in_all cl (x : Z) : Prop := forall c, c ∈ cl -> x ∈ cu_pend c.

(** [skipTo(t)] of a child: it is on [t], past [t], or exhausted. *)
Lemma front_step s c t :
  di_rep s c -> 0 <= t < MAX_DOC_ID -> can t c ->
  exists d s' c', di_skipTo t s = Ret (d, s') /\ di_rep s' c' /\
    (forall x, x ∈ cu_pend c' <-> x ∈ cu_pend c /\ t <= x) /\
    (d = MAX_DOC_ID /\ c' = Cursor false [] \/ t <= d < MAX_DOC_ID /\ at_doc d c').
Proof.
  intros H Ht Hc. destruct (skip_law (can := can) s c t H Ht Hc) as (s' & E & H').
  eexists _, s', _. split; [exact E|]. split; [exact H'|]. cbn.
  split; [intros x; by rewrite pend_from_elem|].
  destruct (pend_from t (cu_pend c)) as [|d p] eqn:Ep; cbn; [by left|right].
  destruct (pend_from_head _ _ _ _ Ep) as [Hd Htd].
  pose proof (di_rep_wf s c H) as [_ Hb]. specialize (Hb d Hd). split; [lia|done].
Qed.

Lemma at_doc_least t c s : di_rep s c -> at_doc t c -> t ∈ cu_pend c /\ forall x, x ∈ cu_pend c -> t <= x.
Proof.
  intros H [_ Hh]. destruct (di_rep_wf s c H) as [Hs _].
  destruct (cu_pend c) as [|d p]; [done|]. injection Hh as ->. split; [by left|].
  intros x Hx. by eapply ssorted_head_le.
Qed.

(** The children that the loop comes to next may be asked to skip to [t],
    unless the first of them is exhausted, which ends the loop. *)
Definition todo_ok (t : Z) cl : Prop := Forall (can t) cl \/ exists cl', cl = Cursor false [] :: cl'.

Lemma can_nil t b : can t (Cursor b []).
Proof. apply can_before. right. by intros ? ? ?. Qed.

Lemma todo_ok_head t c cl : todo_ok t (c :: cl) -> can t c.
Proof. intros [[H _]%Forall_cons|(cl' & [= -> ->])]; [done|apply can_nil]. Qed.

Lemma at_doc_can t u c : t < u -> at_doc t c -> can u c.
Proof.
  intros Hlt [Ef Hh]. apply can_before. right. intros x p E. rewrite E in Hh. injection Hh as ->. done.
Qed.

(** The loops: the last [m] children are on the target [t]; [R] is the part
    of the intersection that is still to come. *)
Definition and_inv (n : Z) (R : Z -> Prop) (g : list cursor * Z * Z) (st : list S * Z * Z) : Prop :=
  let '(cl, t, m) := g in
  let '(l, target, nMatch) := st in
  target = t /\ nMatch = m /\ vsize l = n /\ Forall2 di_rep l cl /\ 0 <= t < MAX_DOC_ID /\
  (exists cl1 cl2, cl = cl1 ++ cl2 /\ vsize cl2 = m /\ Forall (at_doc t) cl2 /\ todo_ok t cl1) /\
  (forall x, R x <-> t <= x /\ in_all cl x).

Definition and_measure (n : Z) (g : list cursor * Z * Z) : Z :=
  let '(_, t, m) := g in (MAX_DOC_ID - t) * (n + 1) + (n - m).

(** Exhausted: the front child has no document left. *)
Definition and_dead (n : Z) (R : Z -> Prop) (l : list S) : Prop :=
  vsize l = n /\ (forall x, ~ R x) /\
  exists cl, Forall2 di_rep l (Cursor false [] :: cl).

Definition and_found (n : Z) (R : Z -> Prop) (l : list S) (t : Z) : Prop :=
  vsize l = n /\ 0 <= t < MAX_DOC_ID /\ exists cl, Forall2 di_rep l cl /\ Forall (at_doc t) cl /\
    (forall x, R x <-> in_all cl x).

(** One turn of either loop while a child is missing. *)
Lemma and_inv_step n R g s rest t m :
  and_inv n R g (s :: rest, t, m) -> m < n -> 1 <= n ->
  exists d s', di_skipTo t s = Ret (d, s') /\
    ((d = MAX_DOC_ID /\ and_dead n R (s' :: rest)) \/
     (d = t /\ exists g', and_inv n R g' (rest ++ [s'], t, m + 1) /\
        and_measure n g' < and_measure n g) \/
     (t < d < MAX_DOC_ID /\ exists g', and_inv n R g' (rest ++ [s'], d, 1) /\
        and_measure n g' < and_measure n g)).
Proof.
  destruct g as [[cl t'] m']. intros (E1 & E2 & Hl & Hr & Ht & (cl1 & cl2 & -> & Hm & Hat & Htodo) & HR) Hmn Hn. subst t' m'.
  assert (vsize (s :: rest) = vsize (cl1 ++ cl2)) as Hsz.
  { unfold vsize. by rewrite (Forall2_length _ _ _ Hr). }
  destruct cl1 as [|c cl1]; [rewrite Hl in Hsz; cbn in Hsz; lia|].
  cbn in Hr. apply Forall2_cons in Hr as [Hc Hr].
  destruct (front_step s c t Hc Ht (todo_ok_head _ _ _ Htodo)) as (d & s' & c' & E & Hc' & Hx & Hd).
  exists d, s'. split; [done|].
  assert (forall x, R x -> x ∈ cu_pend c') as Hsub.
  { intros x [Htx Hin]%HR. apply Hx. split; [|done]. apply Hin. by left. }
  assert (forall u x, t <= u -> (forall y, R y -> u <= y) ->
            R x <-> u <= x /\ in_all ((cl1 ++ cl2) ++ [c']) x) as HR'.
  { intros u x Hu Hall. split.
    - intros Hrx. split; [by apply Hall|]. intros k [Hk| ->%list_elem_of_singleton]%elem_of_app.
      + apply HR in Hrx as [_ Hin]. apply Hin. by right.
      + by apply Hsub.
    - intros [Hux Hin]. apply HR. split; [lia|]. intros k [->|Hk]%elem_of_cons.
      + apply (Hx x). apply Hin. set_solver.
      + apply Hin. set_solver. }
  assert (vsize (rest ++ [s']) = n) as Hl'.
  { rewrite vsize_app. rewrite vsize_cons in Hl. change (vsize [s']) with 1. lia. }
  assert (Forall2 di_rep (rest ++ [s']) ((cl1 ++ cl2) ++ [c'])) as Hr'.
  { apply Forall2_app; [done|]. by repeat constructor. }
  destruct Hd as [[-> ->]|[Hd Hat']].
  - left. split; [done|]. split_and!; [by rewrite vsize_cons in *| |].
    + intros x Hrx%Hsub. by apply elem_of_nil in Hrx.
    + exists (cl1 ++ cl2). by constructor.
  - assert (Forall (can t) cl1) as Hcan.
    { destruct Htodo as [[_ ?]%Forall_cons|(cl' & [= -> ->])]; [done|]. exfalso.
      destruct (cu_pend c') as [|y p] eqn:Ep; [destruct Hat' as [_ Hh]; by rewrite Ep in Hh|].
      destruct (proj1 (Hx y) ltac:(by left)) as [?%elem_of_nil _]. done. }
    destruct (decide (d = t)) as [->|].
    + right; left. split; [done|]. exists ((cl1 ++ cl2) ++ [c'], t, vsize cl2 + 1).
      split; [split; [done|]; split; [lia|]; split; [done|]; split; [done|]; split; [done|]; split|cbn; lia].
      * exists cl1, (cl2 ++ [c']). rewrite <- app_assoc, vsize_app. split_and!; [done|done| |by left].
        apply Forall_app. split; [done|]. by constructor.
      * intros x. apply HR'; [lia|]. by intros y [? _]%HR.
    + right; right. split; [lia|]. exists ((cl1 ++ cl2) ++ [c'], d, 1).
      split; [split; [done|]; split; [done|]; split; [done|]; split; [done|]; split; [lia|]; split|].
      * exists (cl1 ++ cl2), [c']. split_and!; [done|done|by constructor|]. left. apply Forall_app. split.
        -- eapply Forall_impl; [exact Hcan|]. intros k Hk. by apply (can_mono t); [|lia].
        -- eapply Forall_impl; [exact Hat|]. intros k. apply at_doc_can. lia.
      * intros x. apply HR'; [lia|]. intros y Hy%Hsub.
        by apply (at_doc_least d c' s' Hc' Hat').
      * unfold and_measure. pose proof (vsize_nonneg cl2). nia.
Qed.

Lemma and_inv_found n R g l t m :
  and_inv n R g (l, t, m) -> ~ m < n -> 1 <= n -> and_found n R l t /\ m = n.
Proof.
  destruct g as [[cl t'] m']. intros (E1 & E2 & Hl & Hr & Ht & (cl1 & cl2 & -> & Hm & Hat & Htodo) & HR) Hmn Hn. subst t' m'.
  assert (cl1 = []) as ->.
  { destruct cl1 as [|c cl1]; [done|]. apply Forall2_length in Hr. cbn in Hr.
    rewrite length_app in Hr. unfold vsize in *. lia. }
  cbn [app] in *. split; [|pose proof (Forall2_length _ _ _ Hr); unfold vsize in *; lia].
  split; [done|]. split; [done|]. exists cl2. split_and!; [done..|].
  intros x. rewrite HR. split; [tauto|]. intros Hin.
  split; [|done]. destruct cl2 as [|c cl2].
  { apply Forall2_nil_inv_r in Hr as ->. unfold vsize in *; cbn in *. lia. }
  destruct l as [|s l]; [by apply Forall2_nil_cons_inv in Hr|].
  apply Forall2_cons in Hr as [Hc _]. apply Forall_cons in Hat as [Ha _].
  apply (at_doc_least t c s Hc Ha). apply Hin. by left.
Qed.

Lemma and_measure_nonneg n R g st : and_inv n R g st -> 0 <= and_measure n g.
Proof.
  destruct g as [[cl t'] m'], st as [[l t] m].
  intros (_ & <- & Hl & Hr & Ht & (cl1 & cl2 & -> & <- & _ & _) & _).
  pose proof (Forall2_length _ _ _ Hr) as E. rewrite length_app in E. cbn.
  unfold vsize in *. nia.
Qed.

Lemma and_measure_bound n R g st :
  n < 2 ^ 31 -> and_inv n R g st -> and_measure n g < Z.pos loop_fuel.
Proof.
  destruct g as [[cl t'] m'], st as [[l t] m].
  intros Hn (_ & <- & Hl & Hr & Ht & (cl1 & cl2 & -> & <- & _ & _) & _). cbn.
  pose proof (vsize_nonneg cl2). pose proof (vsize_nonneg l). unfold MAX_DOC_ID, loop_fuel in *. nia.
Qed.

(** The outcome of a loop, told by [nMatch]. *)
Definition and_outcome (n : Z) (R : Z -> Prop) (l : list S) (t m : Z) : Prop :=
  and_dead n R l /\ m <> n \/ and_found n R l t /\ m = n.

Lemma and_inv_cons n R g l t m :
  1 <= n -> and_inv n R g (l, t, m) -> exists s rest, l = s :: rest.
Proof.
  intros Hn Hi. destruct l as [|s rest]; [|eauto].
  destruct g as [[cl t'] m']. destruct Hi as (_ & _ & Hl & _). unfold vsize in Hl; cbn in Hl. lia.
Qed.

Lemma and_inv_target n R g l t m : and_inv n R g (l, t, m) -> 0 <= t < MAX_DOC_ID.
Proof. destruct g as [[cl t'] m']. intros (<- & _ & _ & _ & Ht & _). lia. Qed.

Lemma and_match_step n R g st :
  2 <= n -> and_inv n R g st ->
  0 <= and_measure n g /\
  ((exists g' st', and_match_body n st = Ret (inl st') /\ and_inv n R g' st' /\
      and_measure n g' < and_measure n g) \/
   (exists r, and_match_body n st = Ret (inr r) /\ and_outcome n R r.1.1 r.1.2 r.2)).
Proof.
  destruct st as [[l t] m]. intros Hn Hinv. split; [by eapply and_measure_nonneg|].
  unfold and_match_body. destruct (Z.ltb_spec m n) as [Hm|Hm].
  - destruct (and_inv_cons n R g l t m) as (s & rest & ->); [lia|done|].
    pose proof (and_inv_target _ _ _ _ _ _ Hinv) as Ht.
    destruct (and_inv_step _ _ _ _ _ _ _ Hinv Hm ltac:(lia))
      as (d & s' & -> & [[-> Hd]|[[-> (g' & Hi & Hlt)]|[Hd (g' & Hi & Hlt)]]]); rsimpl.
    + destruct (Z.eqb_spec MAX_DOC_ID t) as [E|]; [lia|].
      rewrite Z.eqb_refl. right. eexists. split; [done|]. left. cbn. split; [done|lia].
    + rewrite Z.eqb_refl. left. eauto.
    + destruct (Z.eqb_spec d t); [lia|]. destruct (Z.eqb_spec d MAX_DOC_ID); [lia|].
      destruct (Z.ltb_spec t d); [|lia]. left. eauto.
  - right. eexists. split; [done|]. right. cbn.
    eapply and_inv_found; [done|lia|lia].
Qed.

(** The loop of [do_skipTo] keeps the last answer, [nFoundId]. *)
Definition skip_found (st : list S * Z * Z * Z) : Prop :=
  let '(_, t, m, d) := st in m <= 0 \/ d = t.

Lemma and_skip_step n R g st :
  1 <= n -> and_inv n R g st.1 /\ skip_found st ->
  0 <= and_measure n g /\
  ((exists g' st', and_skip_body n st = Ret (inl st') /\ (and_inv n R g' st'.1 /\ skip_found st') /\
      and_measure n g' < and_measure n g) \/
   (exists r, and_skip_body n st = Ret (inr r) /\
      let '(l, t, m, d) := r in and_outcome n R l t m /\ (m = n -> d = t))).
Proof.
  destruct st as [[[l t] m] d0]. intros Hn [Hinv Hf]. cbn [fst] in Hinv.
  split; [by eapply and_measure_nonneg|].
  unfold and_skip_body. destruct (Z.ltb_spec m n) as [Hm|Hm].
  - destruct (and_inv_cons n R g l t m) as (s & rest & ->); [lia|done|].
    pose proof (and_inv_target _ _ _ _ _ _ Hinv) as Ht.
    destruct (and_inv_step _ _ _ _ _ _ _ Hinv Hm ltac:(lia))
      as (d & s' & -> & [[-> Hd]|[[-> (g' & Hi & Hlt)]|[Hd (g' & Hi & Hlt)]]]); rsimpl.
    + rewrite Z.eqb_refl. right. eexists. split; [done|]. cbn. split; [left; split; [done|lia]|lia].
    + destruct (Z.eqb_spec MAX_DOC_ID t); [lia|]. rewrite Z.eqb_refl. left.
      eexists g', _. split; [done|]. split; [split; [done|by right]|done].
    + destruct (Z.eqb_spec MAX_DOC_ID d); [lia|]. destruct (Z.eqb_spec d t); [lia|].
      destruct (Z.ltb_spec t d); [|lia]. left.
      eexists g', _. split; [done|]. split; [split; [done|by right]|done].
  - right. eexists. split; [done|]. cbn in Hf.
    destruct (and_inv_found _ _ _ _ _ _ Hinv) as [Hfd ->]; [lia|lia|].
    split; [by right|]. intros _. destruct Hf; [lia|done].
Qed.

(** *** The state between calls *)
Definition and_rep (st : and_core S) (c : cursor) : Prop :=
  let l := docIterList_ st in
  cursor_wf c /\ nIteratorNum_ st = vsize l /\ 1 <= vsize l < 2 ^ 31 /\
  exists cl, Forall2 di_rep l cl /\
    ((cu_fresh c = true /\ Forall (fun k => cu_fresh k = true) cl /\
        forall x, x ∈ cu_pend c <-> in_all cl x) \/
     (cu_fresh c = false /\ Forall (at_doc (and_currDoc_ st)) cl /\
        forall x, x ∈ cu_pend c <-> in_all cl x) \/
     (c = Cursor false [] /\ exists cl', cl = Cursor false [] :: cl')).

Lemma and_found_rep n (p : list Z) l t :
  and_found n (fun x => x ∈ p) l t -> 1 <= n < 2 ^ 31 -> cursor_wf (Cursor false p) ->
  and_rep (AndCore l n t) (Cursor false p) /\ head p = Some t.
Proof.
  intros (Hl & Ht & cl & Hr & Hat & HR) Hn Hwf.
  assert (and_rep (AndCore l n t) (Cursor false p)) as Hrep.
  { split; [done|]. cbn. split; [done|]. split; [lia|]. exists cl. split; [done|]. by right; left. }
  split; [done|].
  destruct l as [|s l]; [unfold vsize in Hl; cbn in Hl; lia|].
  destruct cl as [|k cl]; [by inversion Hr|]. apply Forall2_cons in Hr as [Hk Hr].
  assert (Hall : forall k', k' ∈ k :: cl -> t ∈ cu_pend k' /\ forall x, x ∈ cu_pend k' -> t <= x).
  { intros k' Hk'. rewrite Forall_forall in Hat. specialize (Hat k' Hk').
    apply list_elem_of_lookup in Hk' as [i Hi].
    destruct (Forall2_lookup_r di_rep (s :: l) (k :: cl) i k') as (s0 & _ & Hs0); [by constructor|done|].
    by apply (at_doc_least t k' s0). }
  assert (t ∈ p) as Htp by (apply HR; intros k' Hk'; by apply Hall).
  destruct p as [|d p]; [by apply elem_of_nil in Htp|].
  destruct Hwf as [Hs _]. pose proof (ssorted_head_le _ _ _ Hs Htp).
  pose proof (proj1 (HR d) ltac:(by left) k ltac:(by left)) as Hd.
  destruct (Hall k ltac:(by left)) as [_ Hmin]. specialize (Hmin d Hd). cbn. f_equal. lia.
Qed.

Lemma and_dead_rep n l t :
  and_dead n (fun x => x ∈ []) l -> 1 <= n < 2 ^ 31 -> and_rep (AndCore l n t) (Cursor false []).
Proof.
  intros (Hl & _ & cl & Hr) Hn. split; [apply cursor_wf_nil|]. cbn. split; [done|]. split; [lia|].
  eexists. split; [exact Hr|]. right; right. eauto.
Qed.

Lemma and_rep_doc st d p : and_rep st (Cursor false (d :: p)) -> and_currDoc_ st = d.
Proof.
  destruct st as [l n t]. intros (Hwf & Hn & Hsz & cl & Hr & [[? _]|[(_ & Hat & HR)|[? _]]]);
    [done| |done]. cbn in *.
  destruct l as [|s l]; [unfold vsize in Hsz; cbn in Hsz; lia|].
  destruct cl as [|k cl]; [by inversion Hr|].
  apply Forall2_cons in Hr as [Hk Hr]. apply Forall_cons in Hat as Hat'. destruct Hat' as [Hak _].
  destruct (at_doc_least t k s Hk Hak) as [Ht Hmin].
  pose proof (proj1 (HR d) ltac:(by left) k ltac:(by left)) as Hd. specialize (Hmin d Hd).
  assert (t ∈ d :: p) as Htp.
  { apply HR. intros k' Hk'. rewrite Forall_forall in Hat. specialize (Hat k' Hk').
    destruct Hat as [_ Hh]. destruct (cu_pend k') as [|e q]; [done|]. injection Hh as ->. by left. }
  destruct Hwf as [Hs _]. pose proof (ssorted_head_le _ _ _ Hs Htp). lia.
Qed.

(** The documents to come, seen from the front child. *)
Lemma and_rep_front s rest n t c :
  and_rep (AndCore (s :: rest) n t) c ->
  exists k cl, di_rep s k /\ Forall2 di_rep rest cl /\
    (forall x, x ∈ pend_after_next c <-> x ∈ pend_after_next k /\ in_all cl x) /\
    (forall d p, pend_after_next k = d :: p -> Forall (can d) cl).
Proof.
  intros Hrep. pose proof Hrep as (Hwf & Hn & Hsz & cl & Hr & Hcases). cbn in Hr.
  destruct cl as [|k cl]; [by inversion Hr|]. apply Forall2_cons in Hr as [Hk Hr].
  exists k, cl. split; [done|]. split; [done|]. split.
  2: { intros d p Ep. unfold pend_after_next in Ep. destruct Hcases as [(Ef & Hf & _)|[(Ef & Hat & _)|(-> & cl' & Ecl)]].
    - apply Forall_cons in Hf as [_ Hf]. eapply Forall_impl; [exact Hf|]. intros k' Hk'. apply can_before. by left.
    - apply Forall_cons in Hat as [[Hfk Hhk] Hat]. rewrite Hfk in Ep. eapply Forall_impl; [exact Hat|]. intros k'. apply at_doc_can.
      destruct (di_rep_wf s k Hk) as [Hsk _]. cbn in Hhk. destruct (cu_pend k) as [|e q]; [done|]. injection Hhk as ->. cbn in Ep. subst q.
      apply (ssorted_head_lt _ _ _ Hsk). by left.
    - by injection Ecl as -> ->. }
  intros x. assert (Hall : in_all (k :: cl) x <-> x ∈ cu_pend k /\ in_all cl x).
  { unfold in_all. split.
    - intros H. split; [apply H; by left|]. intros k' Hk'. apply H. by right.
    - intros [H1 H2] k' [->|Hk']%elem_of_cons; [done|by apply H2]. }
  unfold pend_after_next. destruct Hcases as [(Ef & Hf & HR)|[(Ef & Hat & HR)|(-> & cl' & Ecl)]].
  - apply Forall_cons in Hf as [Hfk _]. by rewrite Ef, Hfk, HR.
  - apply Forall_cons in Hat as Hat'. destruct Hat' as [[Hfk Hhk] _]. rewrite Ef, Hfk.
    destruct Hwf as [Hs _]. destruct (di_rep_wf s k Hk) as [Hsk _].
    rewrite !ssorted_elem_tail by done. rewrite HR, Hall. cbn in Hhk. rewrite Hhk.
    destruct (cu_pend c) as [|d p] eqn:Ep; cbn.
    + assert (~ (x ∈ cu_pend k /\ in_all cl x)).
      { rewrite <- Hall, <- HR. by intros ?%elem_of_nil. }
      tauto.
    + destruct c as [f p']; cbn in *. subst f p'.
      pose proof (and_rep_doc _ _ _ Hrep) as E. cbn in E. subst t. naive_solver.
  - injection Ecl as -> ->. cbn. split; [by intros ?%elem_of_nil|by intros [?%elem_of_nil _]].
Qed.

Lemma and_next_inv n (p : list Z) rest s' d pk cl :
  vsize (s' :: rest) = n -> di_rep s' (Cursor false (d :: pk)) -> Forall2 di_rep rest cl -> Forall (can d) cl ->
  (forall x, x ∈ p <-> in_all (Cursor false (d :: pk) :: cl) x) ->
  and_inv n (fun x => x ∈ p) (cl ++ [Cursor false (d :: pk)], d, 1) (rest ++ [s'], d, 1).
Proof.
  intros Hn Hs' Hr Hcan HR. destruct (di_rep_wf _ _ Hs') as [Hs Hb]. cbn in Hs, Hb.
  split; [done|]. split; [done|]. split.
  { rewrite vsize_app. change (vsize [s']) with 1. rewrite vsize_cons in Hn. lia. }
  split; [by apply Forall2_app; [|repeat constructor]|].
  split; [apply Hb; by left|]. split.
  - exists cl, [Cursor false (d :: pk)]. split_and!; [done|done|by repeat constructor|by left].
  - intros x. rewrite HR. unfold in_all. split.
    + intros H. split; [|intros k' [Hk'| ->%list_elem_of_singleton]%elem_of_app; apply H; set_solver].
      apply (ssorted_head_le d pk); [done|]. apply (H (Cursor false (d :: pk))). by left.
    + intros [_ H] k' Hk'. apply H. set_solver.
Qed.

Lemma and_next_loop n (p : list Z) rest s' d pk cl :
  2 <= n < 2 ^ 31 -> vsize (s' :: rest) = n ->
  di_rep s' (Cursor false (d :: pk)) -> Forall2 di_rep rest cl -> Forall (can d) cl ->
  (forall x, x ∈ p <-> in_all (Cursor false (d :: pk) :: cl) x) ->
  exists l2 t2 m2, while_loop (and_match_body n) (rest ++ [s'], d, 1) = Ret (l2, t2, m2) /\
    and_outcome n (fun x => x ∈ p) l2 t2 m2.
Proof.
  intros Hn Hsz Hs' Hr Hcan HR. pose proof (and_next_inv n p rest s' d pk cl Hsz Hs' Hr Hcan HR) as Hi.
  destruct (while_loop_rule _ _ _ _
    (fun g st => and_match_step n (fun x => x ∈ p) g st ltac:(lia)) _ _ Hi)
    as ([[l2 t2] m2] & E & Hout); [|eauto].
  eapply and_measure_bound; [|exact Hi]. lia.
Qed.

Lemma and_rep_result n (p : list Z) l t m :
  1 <= n < 2 ^ 31 -> cursor_wf (Cursor false p) ->
  and_outcome n (fun x => x ∈ p) l t m ->
  (m = n -> exists p', p = t :: p' /\ and_rep (AndCore l n t) (Cursor false p)) /\
  (m <> n -> p = [] /\ forall t', and_rep (AndCore l n t') (Cursor false p)).
Proof.
  intros Hn Hwf [[Hd Hm]|[Hf ->]]; (split; intros E; [try done|try done]).
  - assert (p = []) as ->.
    { apply elem_of_nil_inv. intros x Hx. by apply Hd in Hx. }
    split; [done|]. intros t'. by apply and_dead_rep.
  - destruct (and_found_rep n p l t Hf Hn Hwf) as [Hf' Hh].
    destruct p as [|d0 p0]; [done|]. cbn in Hh. injection Hh as ->. eauto.
Qed.

(** [do_next] refines the cursor of the intersection. *)
Lemma and_do_next_spec st c : and_rep st c ->
  exists st', and_do_next st = Ret (fst (cursor_next c), st') /\ and_rep st' (snd (cursor_next c)).
Proof.
  intros Hrep. pose proof Hrep as (Hwf & Hn & Hsz & _). pose proof (cursor_wf_next c Hwf) as Hwf'.
  destruct st as [l n t]; cbn in Hn, Hsz. unfold and_do_next.
  cbn [nIteratorNum_ docIterList_ and_currDoc_]. rewrite <- Hn in Hsz.
  destruct (Z.eqb_spec n 0); [lia|].
  destruct l as [|s rest]; [unfold vsize in Hn; cbn in Hn; lia|].
  destruct (and_rep_front _ _ _ _ _ Hrep) as (k & cl & Hk & Hr & HR & Hcan).
  destruct (di_next_spec s k Hk) as (s' & -> & Hs'). unfold cursor_next in *. cbn [fst snd] in *. rsimpl.
  set (p := pend_after_next c) in *.
  assert (vsize (s' :: rest) = n) as Hn' by (by rewrite vsize_cons in *).
  destruct (pend_after_next k) as [|d pk] eqn:Ek.
  - assert (p = []) as Ep.
    { apply elem_of_nil_inv. intros x [Hx _]%HR. by apply elem_of_nil in Hx. }
    rewrite Ep in *. cbn. eexists. split; [done|]. apply and_dead_rep; [|done]. split; [done|].
    split; [by intros x ?%elem_of_nil|]. exists cl. by constructor.
  - rewrite bool_decide_eq_false_2 by done. rewrite (di_doc_spec _ _ _ Hs').
    specialize (Hcan d pk eq_refl). assert (forall x, x ∈ p <-> in_all (Cursor false (d :: pk) :: cl) x) as HR'.
    { intros x. rewrite HR. unfold in_all. split.
      - intros [H1 H2] k' [->|Hk']%elem_of_cons; [done|by apply H2].
      - intros H. split; [apply (H (Cursor false (d :: pk))); by left|].
        intros k' Hk'. apply H. by right. }
    destruct (Z.eqb_spec n 1) as [->|].
    + destruct rest as [|s2 rest]; [|rewrite !vsize_cons in Hn'; pose proof (vsize_nonneg rest); lia].
      pose proof (and_next_inv _ p _ _ _ _ _ Hn' Hs' Hr Hcan HR') as Hi.
      destruct (and_inv_found _ _ _ _ _ _ Hi) as [Hf _]; [lia|lia|].
      destruct (and_found_rep _ _ _ _ Hf) as [Hf' Hh]; [lia|done|].
      destruct p as [|d0 p0]; [done|]. cbn. eauto.
    + destruct (and_next_loop n p rest s' d pk cl ltac:(lia) Hn' Hs' Hr Hcan HR') as (l2 & t2 & m2 & -> & Hout).
      rsimpl. destruct (and_rep_result n p l2 t2 m2 Hsz Hwf' Hout) as [Hy Hno].
      destruct (Z.eqb_spec m2 n) as [E|E].
      * destruct (Hy E) as (p' & Ep & Hrep'). rewrite Ep. cbn. rewrite Ep in Hrep'. eauto.
      * destruct (Hno E) as (Ep & Hrep'). rewrite Ep in *. cbn. eauto.
Qed.

Lemma and_skip_inv target l n t c :
  and_rep (AndCore l n t) c -> 0 <= target < MAX_DOC_ID -> can target c ->
  exists g, and_inv n (fun x => x ∈ pend_from target (cu_pend c)) g (l, target, 0).
Proof.
  intros Hrep Ht Hcan. pose proof Hrep as (Hwf & Hn & Hsz & cl & Hr & Hcases). cbn in Hn, Hr. exists (cl, target, 0).
  split; [done|]. split; [done|]. split; [done|]. split; [done|]. split; [done|]. split.
  - exists cl, []. split_and!; [by rewrite app_nil_r|done|constructor|].
    destruct Hcases as [(_ & Hf & _)|[(Ef & Hat & HR)|(-> & cl' & ->)]]; [left|left|right; by exists cl'].
    + eapply Forall_impl; [exact Hf|]. intros k Hk. apply can_before. by left.
    + destruct c as [f [|d p]]; cbn in Ef; subst f.
      { destruct l as [|s l]; [unfold vsize in Hsz; cbn in Hsz; lia|]. exfalso. apply (elem_of_nil t). apply HR. intros k Hk.
        rewrite Forall_forall in Hat. destruct (Hat k Hk) as [_ Hh]. cbn in Hh. destruct (cu_pend k); [done|]. injection Hh as ->. by left. }
      pose proof (and_rep_doc _ _ _ Hrep) as E. cbn in E. subst t. cbn in Hat. eapply Forall_impl; [exact Hat|]. intros [g q] [Eg Hh]. cbn in Eg, Hh. subst g.
      destruct q as [|e q]; [done|]. injection Hh as ->. by eapply can_head.
  - intros x. rewrite pend_from_elem.
    destruct Hcases as [(_ & _ & HR)|[(_ & _ & HR)|(-> & cl' & ->)]]; [rewrite HR; tauto..|].
    cbn. split; [by intros [?%elem_of_nil _]|].
    intros [_ H]. by pose proof (H _ ltac:(by left)) as ?%elem_of_nil.
Qed.

(** [do_skipTo] refines the cursor of the intersection. *)
Lemma and_do_skipTo_spec st c target :
  and_rep st c -> 0 <= target < MAX_DOC_ID -> can target c ->
  exists st', and_do_skipTo target st = Ret (fst (cursor_skipTo target c), st') /\
    and_rep st' (snd (cursor_skipTo target c)) /\
    (fst (cursor_skipTo target c) = MAX_DOC_ID -> and_currDoc_ st' = MAX_DOC_ID).
Proof.
  intros Hrep Ht Hcan. pose proof Hrep as (Hwf & Hn & Hsz & _).
  pose proof (cursor_wf_skipTo target c Hwf) as Hwf'.
  destruct st as [l n t]; cbn in Hn, Hsz. rewrite <- Hn in Hsz.
  destruct (and_skip_inv target l n t c Hrep Ht Hcan) as [g Hi].
  unfold and_do_skipTo. cbn [docIterList_ nIteratorNum_]. rewrite <- Hn.
  unfold cursor_skipTo in *. cbn [fst snd cu_pend] in *.
  set (p := pend_from target (cu_pend c)) in *.
  destruct (while_loop_rule _ _ _ _
    (fun g st => and_skip_step n (fun x => x ∈ p) g st ltac:(lia)) g (l, target, 0, MAX_DOC_ID))
    as ([[[l2 t2] m2] d2] & -> & Hout & Hd2).
  - split; [done|]. left. lia.
  - by eapply (and_measure_bound n); [lia|].
  - rsimpl. destruct (and_rep_result n p l2 t2 m2 Hsz Hwf' Hout) as [Hy Hno].
    destruct (Z.eqb_spec m2 n) as [E|E].
    + destruct (Hy E) as (p' & Ep & Hrep'). rewrite (Hd2 E). rewrite Ep in *. cbn.
      eexists. split; [done|]. split; [done|]. done.
    + destruct (Hno E) as (Ep & Hrep'). rewrite Ep in *. cbn. eauto.
Qed.
End AndCorrect.

#[export] Instance and_core_DocNextSpec {S} `{!DocIterator S, !DocNextSpec S, !SkipLaw S before} :
  DocNextSpec (and_core S).
Proof.
  refine {| di_rep := and_rep |}.
  - by intros s c [H _].
  - intros s c. apply (and_do_next_spec before).
  - intros s d p. apply and_rep_doc.
Defined.

#[export] Instance and_core_DocIteratorSpec {S} `{!DocIterator S, !DocIteratorSpec S} :
  DocIteratorSpec (and_core S).
Proof.
  refine {| di_next_part := and_core_DocNextSpec |}.
  intros s c t H Ht. destruct (and_do_skipTo_spec always s c t H Ht) as (s' & E & Hr & _); [done|]. eauto.
Defined.

#[export] Instance and_core_SkipLaw {S} `{!DocIterator S, !DocNextSpec S, !SkipLaw S before} :
  SkipLaw (and_core S) before.
Proof.
  intros s c t H Ht Hc. destruct (and_do_skipTo_spec before s c t H Ht Hc) as (s' & E & Hr & _). eauto.
Qed.

#[export] Instance and_core_DocIteratorMax {S} `{!DocIterator S, !DocIteratorSpec S} :
  DocIteratorMax (and_core S).
Proof.
  intros s c t s' H Ht E. destruct (and_do_skipTo_spec always s c t H Ht) as (s2 & E2 & _ & Hd); [done|].
  cbn in E. rewrite E2 in E. injection E as E <-. by apply Hd.
Qed.

(** ** ANDDocumentIterator with its NOT iterator *)
Record and_iter (S N : Type) := AndIter {
  ai_core : and_core S;
  ai_hasNot_ : bool;
  ai_currDocOfNOTIter_ : Z;
  ai_initNOTIterator_ : bool;
  ai_pNOTDocIterator_ : option N
}.
Arguments AndIter {_ _} _ _ _ _ _.
Arguments ai_core {_ _} _.
Arguments ai_hasNot_ {_ _} _.
Arguments ai_currDocOfNOTIter_ {_ _} _.
Arguments ai_initNOTIterator_ {_ _} _.
Arguments ai_pNOTDocIterator_ {_ _} _.

Section AndNotOps.
Context {S N : Type} `{!DocIterator S, !DocIterator N}.

Definition ANDDocumentIterator (junk : Z) : and_iter S N :=
  AndIter (AndCore [] 0 junk) false MAX_DOC_ID false None.

(** [move_together_with_not]; its tail call is another turn of the loop. *)
Definition and_move_body (st : and_core S * Z * N)
  : res (and_core S * Z * N + bool * and_core S * Z * N) :=
  let '(core, nd, n) := st in
  let* (ret, core) := and_do_next core in
  if negb ret then Ret (inr (false, core, nd, n))
  else
    let* (nd, n) := not_next n in
    let cur := and_currDoc_ core in
    if cur <? nd then Ret (inr (ret, core, nd, n))
    else if cur =? nd then Ret (inl (core, nd, n))
    else
      let* (nd, n) := di_skipTo cur n in
      if cur =? nd then Ret (inl (core, nd, n)) else Ret (inr (ret, core, nd, n)).

Definition and_move_together (core : and_core S) (nd : Z) (n : N)
  : res (bool * and_core S * Z * N) := while_loop and_move_body (core, nd, n).

(** [next] after both iterators were initialised. *)
Definition and_next_not (core : and_core S) (nd : Z) (n : N)
  : res (bool * and_core S * Z * N) :=
  let* (ret, core) := and_do_next core in
  let cur := and_currDoc_ core in
  if cur =? nd then and_move_together core nd n
  else if cur <? nd then Ret (ret, core, nd, n)
  else
    let* (nd, n) := di_skipTo cur n in
    if cur =? nd then and_move_together core nd n else Ret (ret, core, nd, n).

Definition and_next (it : and_iter S N) : res (bool * and_iter S N) :=
  if negb (ai_hasNot_ it) then
    let* (ret, core) := and_do_next (ai_core it) in
    Ret (ret, AndIter core (ai_hasNot_ it) (ai_currDocOfNOTIter_ it)
                (ai_initNOTIterator_ it) (ai_pNOTDocIterator_ it))
  else
    match docIterList_ (ai_core it) with
    | [] => Ret (false, it)
    | _ =>
        match ai_pNOTDocIterator_ it with
        | None => Undef
        | Some n =>
            let* (nd, n) :=
              if negb (ai_initNOTIterator_ it) then not_next n
              else Ret (ai_currDocOfNOTIter_ it, n) in
            let* (ret, core, nd, n) := and_next_not (ai_core it) nd n in
            Ret (ret, AndIter core true nd true (Some n))
        end
    end.

Definition and_skipTo (target : Z) (it : and_iter S N) : res (Z * and_iter S N) :=
  if negb (ai_hasNot_ it) then
    let* (d, core) := and_do_skipTo target (ai_core it) in
    Ret (d, AndIter core (ai_hasNot_ it) (ai_currDocOfNOTIter_ it)
              (ai_initNOTIterator_ it) (ai_pNOTDocIterator_ it))
  else
    match ai_pNOTDocIterator_ it with
    | None => Undef
    | Some n =>
        let* (d, core, nd, n) := while_loop (fun '(currentDoc, core, n) =>
          let* (nFoundId, core) := and_do_skipTo currentDoc core in
          let* (nd, n) := di_skipTo currentDoc n in
          if negb (nFoundId =? MAX_DOC_ID) &&
             ((nFoundId =? currentDoc) && (nd =? currentDoc)) then
            Ret (inr (MAX_DOC_ID, core, nd, n))
          else if negb (nFoundId =? MAX_DOC_ID) && (nFoundId =? nd) then
            Ret (inl (nFoundId, core, n))
          else Ret (inr (nFoundId, core, nd, n))) (target, ai_core it, n) in
        Ret (d, AndIter core true nd (ai_initNOTIterator_ it) (Some n))
    end.
End AndNotOps.

#[export] Instance and_iter_DocIterator {S N} `{!DocIterator S, !DocIterator N} :
    DocIterator (and_iter S N) := {
  di_next := and_next;
  di_doc it := and_currDoc_ (ai_core it);
  di_skipTo := and_skipTo;
  di_tf it := and_tf (ai_core it)
}.

(** [add] *)
Definition and_add {S Q} (isNot : bool) (s : S) (it : and_iter S (or_core S Q))
  : and_iter S (or_core S Q) :=
  if isNot then
    let n := default (OrCore [] None 0) (ai_pNOTDocIterator_ it) in
    AndIter (ai_core it) true (ai_currDocOfNOTIter_ it) (ai_initNOTIterator_ it) (Some (core_add s n))
  else
    let core := ai_core it in
    AndIter (AndCore (docIterList_ core ++ [s]) (nIteratorNum_ core + 1) (and_currDoc_ core))
      (ai_hasNot_ it) (ai_currDocOfNOTIter_ it) (ai_initNOTIterator_ it) (ai_pNOTDocIterator_ it).

Section AndNotCorrect.
Context {S N : Type} `{!DocIterator S, !DocNextSpec S, !SkipLaw S before, !DocIterator N, !DocIteratorSpec N}.

Lemma and_do_next_false (st st' : and_core S) :
  and_do_next st = Ret (false, st') -> and_currDoc_ st' = and_currDoc_ st.
Proof.
  unfold and_do_next. case_match; [by intros [= <-]|].
  destruct (docIterList_ st) as [|s rest]; [done|].
  intros ([b s'] & _ & E)%bind_Ret_inv. destruct b; cbn in E; [|by injection E as <-].
  case_match; [done|]. apply bind_Ret_inv in E as ([[l t] m] & _ & E).
  case_match; [done|]. by injection E as <-.
Qed.

(** [do_next] and the document it leaves. *)
Lemma and_do_next_doc (core : and_core S) ca :
  and_rep core ca -> 0 <= and_currDoc_ core < MAX_DOC_ID ->
  exists core', and_do_next core = Ret (negb (bool_decide (pend_after_next ca = [])), core') /\
    and_rep core' (Cursor false (pend_after_next ca)) /\
    0 <= and_currDoc_ core' < MAX_DOC_ID /\
    forall d p, pend_after_next ca = d :: p -> and_currDoc_ core' = d.
Proof.
  intros H Hd. destruct (and_do_next_spec before core ca H) as (core' & E & H'). cbn in E, H'.
  exists core'. split; [done|]. split; [done|].
  destruct (pend_after_next ca) as [|d p] eqn:Ep; cbn in *.
  - apply and_do_next_false in E. rewrite E. split; [tauto|done].
  - pose proof (and_rep_doc _ _ _ H') as Ed. rewrite Ed. destruct H' as ([_ Hb] & _).
    split; [apply Hb; by left|]. by intros ? ? [= <- <-].
Qed.

(** What [next] leaves when [R] is the rest of the difference. *)
Definition and_not_post (R : list Z) (r : bool * and_core S * Z * N) : Prop :=
  let '(ret, core, nd, n) := r in
  exists a' n', and_rep core (Cursor false a') /\ di_rep n (Cursor false n') /\
    0 <= and_currDoc_ core < MAX_DOC_ID /\ minus a' n' = R /\
    (forall d p, a' = d :: p -> nd = head_doc n' /\ d < nd) /\
    ret = negb (bool_decide (a' = [])).

(** The minuend dropped the documents below [d]. *)
Lemma minus_pend_from d a n :
  (forall x, x ∈ a -> d <= x) -> minus a (pend_from d n) = minus a n.
Proof.
  intros Hd. apply filter_ext_in. intros x Hx. rewrite pend_from_elem.
  specialize (Hd x Hx). tauto.
Qed.

Definition and_move_inv (R : list Z) (g : Z * list Z * list Z) (st : and_core S * Z * N) : Prop :=
  let '(d, pa, pn) := g in
  and_rep st.1.1 (Cursor false (d :: pa)) /\ di_rep st.2 (Cursor false (d :: pn)) /\
  0 <= and_currDoc_ st.1.1 < MAX_DOC_ID /\ minus pa pn = R.

Lemma and_not_post_end R core nd n n' :
  and_rep core (Cursor false []) -> di_rep n (Cursor false n') ->
  0 <= and_currDoc_ core < MAX_DOC_ID -> R = [] -> and_not_post R (false, core, nd, n).
Proof. intros H1 H2 H3 ->. exists [], n'. by repeat (split; [done|]). Qed.

Lemma and_not_post_more core nd n d p n' :
  and_rep core (Cursor false (d :: p)) -> di_rep n (Cursor false n') ->
  0 <= and_currDoc_ core < MAX_DOC_ID -> nd = head_doc n' -> d < nd ->
  and_not_post (minus (d :: p) n') (true, core, nd, n).
Proof.
  intros H1 H2 H3 H4 H5. exists (d :: p), n'. split_and!; try done; try lia.
  by intros ? ? [= <- <-].
Qed.

(** The current document [d] against the NOT iterator. *)
Lemma and_compare core n d pa pn :
  and_rep core (Cursor false (d :: pa)) -> di_rep n (Cursor false pn) ->
  0 <= and_currDoc_ core < MAX_DOC_ID ->
  (d < head_doc pn -> and_not_post (minus (d :: pa) pn) (true, core, head_doc pn, n)) /\
  (d = head_doc pn -> exists pn', and_move_inv (minus (d :: pa) pn) (d, pa, pn') (core, head_doc pn, n)) /\
  (head_doc pn < d -> exists nd n', di_skipTo d n = Ret (nd, n') /\
     (d = nd /\ (exists pn', and_move_inv (minus (d :: pa) pn) (d, pa, pn') (core, nd, n')) \/
      d <> nd /\ and_not_post (minus (d :: pa) pn) (true, core, nd, n'))).
Proof.
  intros Hc Hn Hd. pose proof Hc as ([Hs Hb] & _). cbn in Hs, Hb.
  pose proof (Hb d ltac:(by left)) as Hdb.
  assert (Hm : forall core nd n pn', and_rep core (Cursor false (d :: pa)) ->
    di_rep n (Cursor false (d :: pn')) -> 0 <= and_currDoc_ core < MAX_DOC_ID ->
    and_move_inv (minus (d :: pa) (d :: pn')) (d, pa, pn') (core, nd, n)).
  { intros core' nd n' pn' H1 H2 H3. split; [done|]. split; [done|]. split; [done|].
    by rewrite minus_cons_both. }
  split_and!.
  - intros Hlt. by apply and_not_post_more.
  - intros E. destruct pn as [|e pn]; [cbn in E; lia|]. cbn in E. subst e. eauto.
  - intros Hlt. destruct (di_skipTo_spec n _ d Hn Hdb) as (n' & E & Hn').
    cbn in E, Hn'. eexists _, n'. split; [exact E|].
    rewrite <- (minus_pend_from d (d :: pa) pn) by (intros x; by apply ssorted_head_le).
    destruct (di_rep_wf _ _ Hn') as [Hsn Hbn]. cbn in Hsn, Hbn.
    destruct (pend_from d pn) as [|e q] eqn:Ep; cbn.
    + right. split; [lia|]. apply and_not_post_more; try done. lia.
    + destruct (pend_from_head _ _ _ _ Ep) as [_ Hde].
      destruct (decide (d = e)) as [<-|]; [left; split; [done|]; exists q; by eapply (Hm _ 0)|right].
      split; [done|]. apply and_not_post_more; try done; cbn; lia.
Qed.

Lemma and_move_step R g st : and_move_inv R g st ->
  0 <= vsize g.1.2 /\
  ((exists g' st', and_move_body st = Ret (inl st') /\ and_move_inv R g' st' /\
      vsize g'.1.2 < vsize g.1.2) \/
   (exists r, and_move_body st = Ret (inr r) /\ and_not_post R r)).
Proof.
  destruct g as [[d pa] pn], st as [[core nd] n]. intros (Hc & Hn & Hd & HR). cbn [fst snd] in *.
  split; [apply vsize_nonneg|]. unfold and_move_body.
  destruct (and_do_next_doc core _ Hc Hd) as (core' & -> & Hc' & Hd' & Hh). rsimpl.
  unfold pend_after_next in *. cbn [cu_fresh cu_pend tail] in *.
  destruct pa as [|d' pa].
  { cbn. right. eexists. split; [done|]. by eapply and_not_post_end. }
  rewrite bool_decide_eq_false_2 by done.
  destruct (not_next_spec n _ Hn) as (n' & -> & Hn'). unfold pend_after_next in *.
  cbn [cu_fresh cu_pend tail] in *. rsimpl. rewrite (Hh d' pa eq_refl).
  destruct (and_compare core' n' d' pa pn Hc' Hn' Hd') as (H1 & H2 & H3).
  rewrite HR in H1, H2, H3.
  destruct (Z.ltb_spec d' (head_doc pn)); [right; eauto|].
  destruct (Z.eqb_spec d' (head_doc pn)) as [E|].
  - destruct (H2 E) as (pn' & Hi). left. eexists (d', pa, pn'), _. split; [done|]. split; [done|].
    cbn. rewrite vsize_cons. lia.
  - destruct (H3 ltac:(lia)) as (nd' & n2 & -> & [[<- (pn' & Hi)]|[Hne Hp]]); rsimpl.
    + rewrite Z.eqb_refl. left. eexists (d', pa, pn'), _. split; [done|]. split; [done|].
      cbn. rewrite vsize_cons. lia.
    + destruct (Z.eqb_spec d' nd'); [done|]. right. eauto.
Qed.

Lemma and_move_spec R g core nd n :
  and_move_inv R g (core, nd, n) ->
  exists r, and_move_together core nd n = Ret r /\ and_not_post R r.
Proof.
  intros H. eapply (while_loop_rule _ _ _ _ (and_move_step R) g); [done|].
  destruct g as [[d pa] pn]. destruct H as ((Hwf & _) & _). cbn.
  pose proof (cursor_wf_size _ Hwf) as Hsz. cbn in Hsz. rewrite vsize_cons in Hsz.
  unfold MAX_DOC_ID, loop_fuel in *. lia.
Qed.

(** The core is exhausted: nothing is asked of the NOT iterator's state. *)
Lemma and_move_dead core nd n n' :
  and_rep core (Cursor false []) -> di_rep n (Cursor false n') ->
  0 <= and_currDoc_ core < MAX_DOC_ID ->
  exists r, and_move_together core nd n = Ret r /\ and_not_post [] r.
Proof.
  intros Hc Hn Hd.
  destruct (while_loop_rule and_move_body (fun (_ : unit) st => st = (core, nd, n)) (fun _ => 0)
    (and_not_post [])) with (g := tt) (s := (core, nd, n)) as (r & E & Hr); [|done|done|eauto].
  intros _ _ ->. split; [done|]. right.
  destruct (and_do_next_doc core _ Hc Hd) as (core' & E & Hc' & Hd' & _). cbn in E, Hc'.
  eexists. unfold and_move_body. rewrite E. split; [done|]. by eapply and_not_post_end.
Qed.

(** [next] once both iterators are initialised. *)
Lemma and_next_not_spec core ca nd n pn :
  and_rep core ca -> di_rep n (Cursor false pn) -> 0 <= and_currDoc_ core < MAX_DOC_ID ->
  (pend_after_next ca <> [] -> nd = head_doc pn) ->
  exists r, and_next_not core nd n = Ret r /\ and_not_post (minus (pend_after_next ca) pn) r.
Proof.
  intros Hc Hn Hd Hnd. unfold and_next_not.
  destruct (and_do_next_doc core ca Hc Hd) as (core' & -> & Hc' & Hd' & Hh). rsimpl.
  destruct (pend_after_next ca) as [|d pa].
  - cbn [bool_decide decide_rel]. change (minus [] pn) with (@nil Z).
    destruct (Z.eqb_spec (and_currDoc_ core') nd); [by eapply and_move_dead|].
    destruct (Z.ltb_spec (and_currDoc_ core') nd).
    + eexists. split; [done|]. by eapply and_not_post_end.
    + destruct (di_skipTo_spec n _ (and_currDoc_ core') Hn Hd') as (n' & -> & Hn'). rsimpl.
      cbn in Hn'. case_match; [by eapply and_move_dead|].
      eexists. split; [done|]. by eapply and_not_post_end.
  - rewrite bool_decide_eq_false_2 by done. rewrite (Hnd ltac:(done)).
    rewrite (Hh d pa eq_refl).
    destruct (and_compare core' n d pa pn Hc' Hn Hd') as (H1 & H2 & H3).
    destruct (Z.eqb_spec d (head_doc pn)) as [E|].
    + destruct (H2 E) as (pn' & Hi). by eapply and_move_spec.
    + destruct (Z.ltb_spec d (head_doc pn)); [eauto|].
      destruct (H3 ltac:(lia)) as (nd' & n2 & -> & [[<- (pn' & Hi)]|[Hne Hp]]); rsimpl.
      * rewrite Z.eqb_refl. by eapply and_move_spec.
      * destruct (Z.eqb_spec d nd'); [done|]. eauto.
Qed.

Definition and_not_rep (it : and_iter S N) (c : cursor) : Prop :=
  exists n ca cn, ai_hasNot_ it = true /\ ai_pNOTDocIterator_ it = Some n /\
    and_rep (ai_core it) ca /\ di_rep n cn /\
    0 <= and_currDoc_ (ai_core it) < MAX_DOC_ID /\
    cu_fresh c = cu_fresh ca /\ cu_fresh cn = cu_fresh ca /\
    ai_initNOTIterator_ it = negb (cu_fresh ca) /\
    cu_pend c = minus (cu_pend ca) (cu_pend cn) /\
    (cu_fresh ca = false -> forall d p, cu_pend ca = d :: p ->
       ai_currDocOfNOTIter_ it = head_doc (cu_pend cn) /\ d < head_doc (cu_pend cn)).

Lemma and_not_rep_intro R ret core nd n :
  and_not_post R (ret, core, nd, n) ->
  ret = negb (bool_decide (R = [])) /\
  and_not_rep (AndIter core true nd true (Some n)) (Cursor false R).
Proof.
  intros (a' & n' & Hc & Hn & Hd & HR & Hst & ->). split.
  - f_equal. apply bool_decide_ext. subst R. destruct a' as [|d p]; [done|].
    split; [done|]. destruct (Hst d p eq_refl) as [-> Hlt]. rewrite minus_cons_keep; [done|].
    intros Hin. destruct (di_rep_wf _ _ Hn) as [Hs _]. cbn in Hs.
    destruct n' as [|e q]; [by apply elem_of_nil in Hin|]. cbn in Hlt.
    pose proof (ssorted_head_le _ _ _ Hs Hin). lia.
  - exists n, (Cursor false a'), (Cursor false n'). cbn.
    split_and!; try done; try lia. intros _ d p E. destruct (Hst d p E). subst nd. done.
Qed.

Lemma and_not_next_spec it c :
  and_not_rep it c ->
  exists it', and_next it = Ret (fst (cursor_next c), it') /\ and_not_rep it' (snd (cursor_next c)).
Proof.
  intros (n & ca & cn & Eh & En & Hc & Hn & Hd & Ef & Efn & Ei & Ep & Hst).
  destruct it as [core hn nd0 i0 on].
  cbn [ai_core ai_hasNot_ ai_currDocOfNOTIter_ ai_initNOTIterator_ ai_pNOTDocIterator_] in *.
  subst hn on. unfold and_next.
  cbn [ai_core ai_hasNot_ ai_currDocOfNOTIter_ ai_initNOTIterator_ ai_pNOTDocIterator_ negb].
  destruct (docIterList_ core) as [|s0 l0] eqn:El.
  { destruct Hc as (_ & _ & [Hsz _] & _). rewrite El in Hsz. unfold vsize in Hsz; cbn in Hsz. lia. }
  clear El s0 l0. unfold cursor_next. cbn [fst snd].
  assert (exists nd n' pn, (if negb i0 then not_next n else Ret (nd0, n)) = Ret (nd, n') /\
    di_rep n' (Cursor false pn) /\ (pend_after_next ca <> [] -> nd = head_doc pn) /\
    pend_after_next c = minus (pend_after_next ca) pn) as (nd & n' & pn & -> & Hn' & Hnd & ->).
  { unfold pend_after_next. rewrite Ef, Ep, Ei. destruct (cu_fresh ca); cbn [negb].
    - destruct (not_next_spec n cn Hn) as (n' & E & Hn'). unfold pend_after_next in *.
      rewrite Efn in *. eexists _, n', _. split; [exact E|]. by split_and!.
    - destruct cn as [f pn]; cbn in *. subst f. exists nd0, n, pn. split; [done|]. split; [done|].
      destruct (cu_pend ca) as [|d p]; [done|]. destruct (Hst eq_refl d p eq_refl) as [-> Hlt].
      split; [done|]. cbn. rewrite minus_cons_keep; [done|]. intros Hin.
      destruct (di_rep_wf _ _ Hn) as [Hs _]. cbn in Hs.
      destruct pn as [|e q]; [by apply elem_of_nil in Hin|]. cbn in Hlt.
      pose proof (ssorted_head_le _ _ _ Hs Hin). lia. }
  rsimpl. destruct (and_next_not_spec core ca nd n' pn Hc Hn' Hd Hnd) as ([[[ret core'] nd'] n2] & -> & Hp).
  rsimpl. apply and_not_rep_intro in Hp as [-> Hp]. eauto.
Qed.
End AndNotCorrect.

Section AndTop.
Context {S Q : Type} `{!DocIterator S, !DocNextSpec S, !SkipLaw S before, !PQueue Q nat, !PQueueSpec Q nat}.
Notation iter := (and_iter S (or_core S Q)).

(** With a NOT iterator or without one. *)
Definition and_iter_rep (it : iter) (c : cursor) : Prop :=
  ai_hasNot_ it = false /\ and_rep (ai_core it) c \/ and_not_rep it c.

#[export] Instance and_iter_DocNextSpec : DocNextSpec iter.
Proof.
  refine {| di_rep := and_iter_rep |}.
  - intros it c [[_ [H _]]|(n & ca & cn & H)]; [done|].
    destruct H as (_ & _ & [[Hs Hb] _] & _ & _ & _ & _ & _ & Ep & _).
    split; rewrite Ep; [by apply minus_sorted|].
    intros d [Hd _]%minus_elem. by apply Hb.
  - intros it c [[Eh H]|H].
    + destruct (and_do_next_spec before _ _ H) as (core' & E & H'). cbn. unfold and_next.
      rewrite Eh. cbn [negb]. rewrite E. rsimpl. eexists. split; [done|]. left. by split.
    + destruct (and_not_next_spec it c H) as (it' & E & H'). exists it'. split; [done|]. by right.
  - intros it d p [[_ H]|(n & ca & cn & H)]; [by apply (and_rep_doc _ _ p)|].
    destruct H as (_ & _ & Hr & Hn & _ & Ef & Efn & _ & Ep & Hst). cbn in Ef, Ep |- *.
    destruct ca as [f [|d' pa]]; cbn in *; [done|]. subst f.
    destruct (Hst eq_refl d' pa eq_refl) as [_ Hlt].
    rewrite minus_cons_keep in Ep; [injection Ep as -> _; by apply (and_rep_doc _ _ pa)|].
    intros Hin. destruct Hn as ([Hs _] & _).
    destruct (cu_pend cn) as [|e q]; [by apply elem_of_nil in Hin|]. cbn in Hlt.
    pose proof (ssorted_head_le _ _ _ Hs Hin). lia.
Defined.

Definition and_build (junk : Z) (pos neg : list S) : iter :=
  foldl (fun it s => and_add true s it)
    (foldl (fun it s => and_add false s it) (ANDDocumentIterator junk) pos) neg.

(** The documents every child holds. *)
Definition inter_list (cs : list cursor) : list Z :=
  match cs with
  | [] => []
  | c :: cs => filter (fun x => Forall (fun k => x ∈ cu_pend k) cs) (cu_pend c)
  end.

Lemma inter_list_elem cs x :
  cs <> [] -> x ∈ inter_list cs <-> forall c, c ∈ cs -> x ∈ cu_pend c.
Proof.
  intros Hne. destruct cs as [|c cs]; [done|]. cbn. rewrite list_elem_of_filter, Forall_forall.
  split.
  - intros [H1 H2] k [->|Hk]%elem_of_cons; [done|by apply H1].
  - intros H. split; [intros k Hk; apply H; by right|apply H; by left].
Qed.

Lemma inter_list_wf b cs : Forall cursor_wf cs -> cursor_wf (Cursor b (inter_list cs)).
Proof.
  intros H. destruct cs as [|c cs]; [apply cursor_wf_nil|].
  apply Forall_cons in H as [[Hs Hb] _]. split; cbn; [by apply ssorted_filter|].
  intros d [_ Hd]%list_elem_of_filter. by apply Hb.
Qed.

Lemma Forall2_rep_wf (ss : list S) cs : Forall2 di_rep ss cs -> Forall cursor_wf cs.
Proof. induction 1; constructor; [by eapply di_rep_wf|done]. Qed.

Lemma and_rep_children junk (ss : list S) (cs : list cursor) :
  Forall2 di_rep ss cs -> Forall (fun c => cu_fresh c = true) cs -> 1 <= vsize ss < 2 ^ 31 ->
  and_rep (AndCore ss (vsize ss) junk) (Cursor true (inter_list cs)).
Proof.
  intros H Hf Hsz. split; [by apply inter_list_wf, (Forall2_rep_wf ss)|].
  split; [done|]. split; [done|]. exists cs. split; [done|]. left. split_and!; [done..|].
  intros x. apply inter_list_elem. intros ->. inversion H; subst. unfold vsize in Hsz; cbn in Hsz. lia.
Qed.

Lemma and_add_pos_all l junk (it : iter) ss :
  ai_core it = AndCore l (vsize l) junk ->
  foldl (fun it s => and_add false s it) it ss =
  AndIter (AndCore (l ++ ss) (vsize (l ++ ss)) junk)
    (ai_hasNot_ it) (ai_currDocOfNOTIter_ it) (ai_initNOTIterator_ it) (ai_pNOTDocIterator_ it).
Proof.
  revert l it. induction ss as [|s ss IH]; intros l it E; cbn.
  - rewrite app_nil_r, <- E. by destruct it.
  - rewrite (IH (l ++ [s])); [|cbn; rewrite E; cbn; by rewrite vsize_app]. by rewrite <- app_assoc.
Qed.

Lemma and_add_neg_all l (it : iter) ss :
  ai_pNOTDocIterator_ it = Some (OrCore l None 0) -> ai_hasNot_ it = true ->
  foldl (fun it s => and_add true s it) it ss =
  AndIter (ai_core it) true (ai_currDocOfNOTIter_ it) (ai_initNOTIterator_ it)
    (Some (OrCore (l ++ ((fun s => Some (s, false)) <$> ss)) None 0)).
Proof.
  revert l it. induction ss as [|s ss IH]; intros l it E Eh; cbn.
  - rewrite app_nil_r, <- E, <- Eh. by destruct it.
  - rewrite (IH (l ++ [Some (s, false)])); [|cbn; by rewrite E|done]. by rewrite <- app_assoc.
Qed.

Lemma and_build_pos junk pos :
  and_build junk pos [] = AndIter (AndCore pos (vsize pos) junk) false MAX_DOC_ID false None.
Proof. unfold and_build. cbn. by rewrite (and_add_pos_all [] junk). Qed.

Lemma and_build_neg junk pos neg :
  neg <> [] ->
  and_build junk pos neg =
  AndIter (AndCore pos (vsize pos) junk) true MAX_DOC_ID false
    (Some (OrCore ((fun s => Some (s, false)) <$> neg) None 0)).
Proof.
  intros H. unfold and_build. rewrite (and_add_pos_all [] junk) by done.
  destruct neg as [|s neg]; [done|]. cbn. by rewrite (and_add_neg_all [Some (s, false)]).
Qed.
End AndTop.

Section AndProperties.
Context {S Q : Type} `{!DocIterator S, !DocIteratorSpec S, !PQueue Q nat, !PQueueSpec Q nat}.

(** C15: an ANDDocumentIterator over children that honour the iterator
    contract enumerates exactly the intersection of their documents, each
    once and in increasing order. *)
Theorem and_enumerates_intersection junk (ss : list S) (cs : list cursor) :
  Forall2 di_rep ss cs -> Forall (fun c => cu_fresh c = true) cs -> 1 <= vsize ss < 2 ^ 31 ->
  exists l, drain (and_build (Q := Q) junk ss []) = Ret l /\ ssorted l /\
    forall x, x ∈ l <-> forall c, c ∈ cs -> x ∈ cu_pend c.
Proof.
  intros H Hf Hsz. rewrite and_build_pos. exists (inter_list cs).
  pose proof (and_rep_children junk ss cs H Hf Hsz) as Hrep. split_and!.
  - apply (drain_spec _ (Cursor true (inter_list cs))). left. by split.
  - by destruct Hrep as ([? _] & _).
  - intros x. apply inter_list_elem. intros ->. inversion H; subst.
    unfold vsize in Hsz; cbn in Hsz. lia.
Qed.

(** [skipTo(target)] of an ANDDocumentIterator without NOT children
    answers the least common document that is at least [target], or
    MAX_DOC_ID when there is none; reading on enumerates what follows. *)
Theorem and_skipTo_intersection junk (ss : list S) (cs : list cursor) target :
  Forall2 di_rep ss cs -> Forall (fun c => cu_fresh c = true) cs -> 1 <= vsize ss < 2 ^ 31 ->
  0 <= target < MAX_DOC_ID ->
  let rest := pend_from target (inter_list cs) in
  exists it, and_skipTo target (and_build (Q := Q) junk ss []) = Ret (default MAX_DOC_ID (head rest), it) /\
    di_doc it = default MAX_DOC_ID (head rest) /\ drain it = Ret (tail rest).
Proof.
  intros H Hf Hsz Ht rest. rewrite and_build_pos. unfold and_skipTo; cbn [ai_hasNot_ ai_core negb].
  destruct (and_do_skipTo_spec always _ _ target (and_rep_children junk ss cs H Hf Hsz) Ht I)
    as (core & -> & Hr & Hm). rsimpl. cbn in Hr, Hm. fold rest in Hr, Hm |- *.
  eexists. split; [done|]. split.
  - cbn. fold rest. destruct rest as [|d l]; [by apply Hm|]. by apply (and_rep_doc _ _ l).
  - apply (drain_spec _ (Cursor false rest)). left. by split.
Qed.

(** With NOT children, [next] of an ANDDocumentIterator enumerates the
    documents common to the other children that no NOT child holds. *)
Theorem and_not_difference junk (ss ns : list S) (cs cns : list cursor) :
  Forall2 di_rep ss cs -> Forall (fun c => cu_fresh c = true) cs -> 1 <= vsize ss < 2 ^ 31 ->
  Forall2 di_rep ns cns -> Forall (fun c => cu_fresh c = true) cns -> vsize ns < 2 ^ 31 ->
  0 <= junk < MAX_DOC_ID ->
  exists l, drain (and_build (Q := Q) junk ss ns) = Ret l /\ ssorted l /\
    forall x, x ∈ l <->
      (forall c, c ∈ cs -> x ∈ cu_pend c) /\ ~ exists c, c ∈ cns /\ x ∈ cu_pend c.
Proof.
  intros H Hf Hsz Hn Hfn Hszn Hj. exists (minus (inter_list cs) (union_list cns)).
  pose proof (and_rep_children junk ss cs H Hf Hsz) as Hrep.
  assert (cs <> []) as Hne.
  { intros ->. inversion H; subst. unfold vsize in Hsz; cbn in Hsz. lia. }
  split_and!.
  - destruct (decide (ns = [])) as [->|Hns].
    + apply Forall2_nil_inv_l in Hn as ->. rewrite and_build_pos.
      rewrite (drain_spec _ (Cursor true (inter_list cs))); [|left; by split].
      unfold minus; cbn. f_equal. symmetry. apply filter_all. by intros x _ ?%elem_of_nil.
    + rewrite and_build_neg by done.
      apply (drain_spec _ (Cursor true (minus (inter_list cs) (union_list cns)))). right.
      eexists _, (Cursor true (inter_list cs)), (Cursor true (union_list cns)).
      cbn. split_and!; try done; try lia. by apply or_rep_children.
  - apply minus_sorted. by destruct Hrep as ([? _] & _).
  - intros x. by rewrite minus_elem, inter_list_elem, union_list_elem.
Qed.
End AndProperties.

(** ** Concrete iterators over posting lists *)

Definition posting_and (pos neg : list (list Z)) : and_iter cursor (or_core cursor (heap nat)) :=
  and_build 0 (map posting pos) (map posting neg).

Lemma and_enumerates_intersection_witness :
  exists l, drain (posting_and [[1; 3; 5; 9]; [3; 5; 8; 9]] []) = Ret l /\ ssorted l /\
    forall x, x ∈ l <-> forall c, c ∈ map posting [[1; 3; 5; 9]; [3; 5; 8; 9]] -> x ∈ cu_pend c.
Proof.
  apply (and_enumerates_intersection 0); [|apply postings_fresh|done]. by apply postings_rep.
Defined.

Lemma and_skipTo_intersection_witness :
  exists it, and_skipTo 4 (posting_and [[1; 3; 5; 9]; [3; 5; 8; 9]] []) = Ret (5, it) /\
    di_doc it = 5 /\ drain it = Ret [9].
Proof.
  apply (and_skipTo_intersection 0 _ (map posting [[1; 3; 5; 9]; [3; 5; 8; 9]]) 4);
    [by apply postings_rep|apply postings_fresh|done|done].
Defined.

Lemma and_not_difference_witness :
  exists l, drain (posting_and [[1; 3; 5; 9]; [3; 5; 8; 9]] [[2; 5]]) = Ret l /\ ssorted l /\
    forall x, x ∈ l <->
      (forall c, c ∈ map posting [[1; 3; 5; 9]; [3; 5; 8; 9]] -> x ∈ cu_pend c) /\
      ~ exists c, c ∈ map posting [[2; 5]] /\ x ∈ cu_pend c.
Proof.
  apply (and_not_difference 0); [by apply postings_rep|apply postings_fresh|done
    |by apply postings_rep|apply postings_fresh|done|done].
Defined.

(** [skipTo] with a NOT iterator is wrong for ANDDocumentIterator in the
    same two ways as for ORDocumentIterator. *)
Theorem and_skipTo_not_wrong :
  (let* (d, it) := and_skipTo 5 (posting_and [[5; 9]] [[5]]) in Ret (d, di_doc it))
    = Ret (MAX_DOC_ID, 5) /\
  (let* (d, it) := and_skipTo 3 (posting_and [[5; 9]] [[4; 5]]) in Ret (d, di_doc it))
    = Ret (5, 5).
Proof. split; vm_compute; reflexivity. Qed.
