(* ===== verification/AllDocIterator.v ===== *)
(** * Every document but the deleted ones

Models search-manager/AllDocumentIterator.h: the iterator behind
[SELECT *] with a sort, which counts document ids upwards and steps over
the ids that a posting reader of deleted documents ([delTermDocFreqs_])
holds. *)
From S2P Require Import Prelude DocIterator.

(** [currDelDoc_] is unset without a reader of deleted documents. *)
Record all_iter (D : Type) := AllIter {
  delTermDocFreqs_ : option (D * Z);  (* the reader, [currDelDoc_] *)
  all_currDoc_ : Z;
  maxDoc_ : Z
}.
Arguments AllIter {_} _ _ _.
Arguments delTermDocFreqs_ {_} _.
Arguments all_currDoc_ {_} _.
Arguments maxDoc_ {_} _.

Section AllOps.
Context {D : Type} `{!DocIterator D}.

(** [delTermDocFreqs_->next()] and [doc()], or MAX_DOC_ID. *)
Definition del_next (d : D) : res (Z * D) :=
  let* (b, d) := di_next d in
  Ret (if b then di_doc d else MAX_DOC_ID, d).

Definition AllDocumentIterator (d : option D) (maxDoc : Z) : res (all_iter D) :=
  match d with
  | None => Ret (AllIter None 0 maxDoc)
  | Some d => let* (cd, d) := del_next d in Ret (AllIter (Some (d, cd)) 0 maxDoc)
  end.

(** [++] of a docid_t. *)
Definition incr (d : Z) : Z := u32 (d + 1).

Definition move_del_body (m : Z) (st : D * Z) : res (D * Z + D * Z * Z) :=
  let (d, cur) := st in
  let cur := incr cur in
  let* (cd, d) := del_next d in
  if (cur =? cd) && (cur <=? m) then Ret (inl (d, cur)) else Ret (inr (d, cd, cur)).

Definition move_with_del (maxDoc : Z) (d : D) (cur : Z) : res (bool * all_iter D) :=
  let* (d, cd, cur) := while_loop (move_del_body maxDoc) (d, cur) in
  Ret (cur <=? maxDoc, AllIter (Some (d, cd)) cur maxDoc).

Definition all_next (it : all_iter D) : res (bool * all_iter D) :=
  let maxDoc := maxDoc_ it in
  let cur := incr (all_currDoc_ it) in
  match delTermDocFreqs_ it with
  | None => Ret (cur <=? maxDoc, AllIter None cur maxDoc)
  | Some (d, cd) =>
      if cur =? cd then move_with_del maxDoc d cur
      else if cur <? cd then Ret (cur <=? maxDoc, AllIter (Some (d, cd)) cur maxDoc)
      else
        let* (cd, d) := di_skipTo cur d in
        if cur =? cd then move_with_del maxDoc d cur
        else Ret (cur <=? maxDoc, AllIter (Some (d, cd)) cur maxDoc)
  end.

(** currDoc_ > target ? currDoc_ : ++target, with the new target. *)
Definition past (cur target : Z) : Z * Z :=
  if target <? cur then (cur, target) else (incr target, incr target).

Definition found (cur maxDoc : Z) : Z := if maxDoc <? cur then MAX_DOC_ID else cur.

Definition all_do_skipTo (target : Z) (it : all_iter D) : res (Z * all_iter D) :=
  let (cur, _) := past (all_currDoc_ it) target in
  Ret (found cur (maxDoc_ it), AllIter (delTermDocFreqs_ it) cur (maxDoc_ it)).

Definition skip_del_body (maxDoc : Z) (st : D * Z * Z) : res (D * Z * Z + D * Z * Z) :=
  let '(d, cur, target) := st in
  let (cur, target) := past cur target in
  let* (cd, d) := di_skipTo cur d in
  if (cur =? cd) && (cur <=? maxDoc) then Ret (inl (d, cur, target))
  else Ret (inr (d, cd, cur)).

Definition skip_with_del (maxDoc target : Z) (d : D) (cur : Z) : res (Z * all_iter D) :=
  let* (d, cd, cur) := while_loop (skip_del_body maxDoc) (d, cur, target) in
  Ret (found cur maxDoc, AllIter (Some (d, cd)) cur maxDoc).

Definition all_skipTo (target : Z) (it : all_iter D) : res (Z * all_iter D) :=
  let maxDoc := maxDoc_ it in
  match delTermDocFreqs_ it with
  | None => all_do_skipTo target it
  | Some (d, cd) =>
      if cd <=? target then skip_with_del maxDoc target d (all_currDoc_ it)
      else
        let (cur, _) := past (all_currDoc_ it) target in
        let* (d, cd, cur) := while_loop (fun '(d, cd, cur) =>
          if (cur =? cd) && negb (cd =? MAX_DOC_ID) then
            let* (cd, d) := di_skipTo cur d in
            Ret (inl (d, cd, incr cur))
          else Ret (inr (d, cd, cur))) (d, cd, cur) in
        Ret (found cur maxDoc, AllIter (Some (d, cd)) cur maxDoc)
  end.
End AllOps.

#[export] Instance all_iter_DocIterator {D} `{!DocIterator D} : DocIterator (all_iter D) := {
  di_next := all_next;
  di_doc := all_currDoc_;
  di_skipTo := all_skipTo;
  di_tf _ := Ret 1
}.

Example all_next_ex :
  (let* it := AllDocumentIterator (Some (posting [2; 3; 6])) 7 in drain it) = Ret [1; 4; 5; 7].
Proof. vm_compute. reflexivity. Qed.

Example all_skip_ex :
  (let* it := AllDocumentIterator (Some (posting [5; 6])) 9 in
   let* (d, it) := all_skipTo 4 it in Ret (d, all_currDoc_ it)) = Ret (6, 6).
Proof. vm_compute. reflexivity. Qed.

(** ** What [next] enumerates *)
Section AllCorrect.
Context {D : Type} `{!DocIterator D, !DocNextSpec D}.

(** The documents from [lo] to [m] that are not in [p]. *)
Definition alive (m : Z) (p : list Z) (lo : Z) : list Z :=
  filter (fun x => x ∉ p) (seqZ lo (m + 1 - lo)).

#[global] Arguments alive : simpl never.

Lemma alive_elem m p lo x : x ∈ alive m p lo <-> lo <= x <= m /\ x ∉ p.
Proof.
  unfold alive. rewrite list_elem_of_filter, elem_of_seqZ.
  split; intros [? ?]; (split; [|done || lia]); done || lia.
Qed.

Lemma alive_end m p lo : m < lo -> alive m p lo = [].
Proof. intros H. unfold alive. by rewrite seqZ_nil by lia. Qed.

Lemma alive_step m p lo : lo <= m ->
  alive m p lo = (if decide (lo ∈ p) then alive m p (lo + 1) else lo :: alive m p (lo + 1)).
Proof.
  intros H. unfold alive. rewrite seqZ_cons by lia. rewrite filter_cons.
  replace (Z.pred (m + 1 - lo)) with (m + 1 - (lo + 1)) by lia. unfold Z.succ.
  destruct (decide (lo ∈ p)).
  - rewrite decide_False by tauto. done.
  - by rewrite decide_True.
Qed.

(** Documents below [lo] do not matter. *)
Lemma alive_below m p q lo :
  (forall x, lo <= x -> x ∈ p <-> x ∈ q) -> alive m p lo = alive m q lo.
Proof.
  intros H. unfold alive. apply filter_ext_in. intros x Hx%elem_of_seqZ.
  rewrite H by lia. done.
Qed.

(** The reader of deleted documents still holds [p]. *)
Definition del_rep (d : D) (cd : Z) (p : list Z) : Prop :=
  di_rep d (Cursor false p) /\ cd = default MAX_DOC_ID (head p).

Lemma del_next_spec d c :
  di_rep d c -> exists cd d', del_next d = Ret (cd, d') /\ del_rep d' cd (pend_after_next c).
Proof.
  intros H. destruct (di_next_spec d c H) as (d' & E & H'). unfold del_next. rewrite E. rsimpl.
  eexists _, d'. split; [done|]. cbn in H'. split; [done|]. cbn.
  destruct (pend_after_next c) as [|x p]; cbn; [done|]. by rewrite (di_doc_spec _ _ _ H').
Qed.

(** Standing on [cur], next is the first document alive after [lo - 1]. *)
Definition next_post (m : Z) (p : list Z) (lo : Z) (r : bool * all_iter D) : Prop :=
  exists d cd p', delTermDocFreqs_ r.2 = Some (d, cd) /\ del_rep d cd p' /\ maxDoc_ r.2 = m /\
    match alive m p lo with
    | [] => r.1 = false
    | x :: l => r.1 = true /\ all_currDoc_ r.2 = x /\ lo <= x <= m /\ l = alive m p' (x + 1)
    end.

Lemma next_post_intro m p lo d cd p' cur :
  del_rep d cd p' -> lo <= cur ->
  (cur <= m -> (cur ∉ p') /\ alive m p lo = alive m p' cur) ->
  (m < cur -> alive m p lo = []) ->
  next_post m p lo (cur <=? m, AllIter (Some (d, cd)) cur m).
Proof.
  intros Hd Hlo Hin Hout. exists d, cd, p'. split; [done|]. split; [done|]. split; [done|]. cbn.
  destruct (Z.leb_spec cur m) as [Hc|Hc].
  - destruct (Hin Hc) as [Hn ->]. rewrite alive_step by done. rewrite decide_False by done.
    split_and!; done || lia.
  - by rewrite Hout.
Qed.

Lemma del_sorted d cd p : del_rep d cd p -> ssorted p /\ forall x, x ∈ p -> cd <= x < MAX_DOC_ID.
Proof.
  intros [H ->]. destruct (di_rep_wf _ _ H) as [Hs Hb]. cbn in Hs, Hb. split; [done|].
  intros x Hx. specialize (Hb x Hx). destruct p as [|y p]; [by apply elem_of_nil in Hx|].
  pose proof (ssorted_head_le _ _ _ Hs Hx). cbn. lia.
Qed.

Definition move_del_post (m : Z) (p : list Z) (x : Z) (r : D * Z * Z) : Prop :=
  let '(d, cd, cur) := r in
  exists p', del_rep d cd p' /\ x + 1 <= cur /\
    (cur <= m -> (cur ∉ p') /\ alive m p (x + 1) = alive m p' cur) /\
    (m < cur -> alive m p (x + 1) = []).

Lemma move_del_step m p x g st :
  m < MAX_DOC_ID - 1 ->
  (exists p', di_rep st.1 (Cursor false (g :: p')) /\ st.2 = g /\ 0 <= g <= m + 1 /\
     alive m p' (g + 1) = alive m p (x + 1) /\ x <= g) ->
  0 <= m + 1 - g /\
  ((exists g' st', move_del_body m st = Ret (inl st') /\
     (exists p', di_rep st'.1 (Cursor false (g' :: p')) /\ st'.2 = g' /\ 0 <= g' <= m + 1 /\
        alive m p' (g' + 1) = alive m p (x + 1) /\ x <= g') /\ m + 1 - g' < m + 1 - g) \/
   (exists r, move_del_body m st = Ret (inr r) /\ move_del_post m p x r)).
Proof.
  destruct st as [d cur]. cbn [fst snd]. intros Hm (p' & Hd & -> & Hg & Hl & Hxg). split; [lia|].
  destruct (del_next_spec d _ Hd) as (cd & d' & E & Hd'). unfold pend_after_next in Hd'. cbn in Hd'.
  unfold move_del_body. rewrite E. rsimpl. unfold incr.
  rewrite u32_small by (unfold MAX_DOC_ID in *; lia).
  pose proof (del_sorted _ _ _ Hd') as [Hs Hb].
  destruct (di_rep_wf _ _ Hd) as [Hs0 _]. cbn in Hs0.
  destruct (Z.eqb_spec (g + 1) cd) as [Ecd|Hne]; cbn.
  - destruct (Z.leb_spec (g + 1) m).
    + destruct p' as [|y p']; [destruct Hd' as [_ ->]; unfold MAX_DOC_ID in *; cbn in Ecd; lia|].
      destruct Hd' as [Hd' Ey]. cbn in Ey. assert (y = g + 1) as -> by lia.
      left. eexists (g + 1), _. split; [done|]. split; [|lia].
      exists p'. cbn. split; [done|]. split; [done|]. split; [lia|]. split; [|lia].
      rewrite <- Hl. rewrite (alive_step _ _ (g + 1)) by lia. rewrite decide_True by (by left).
      apply alive_below. intros z Hz. rewrite elem_of_cons. split; [tauto|]. intros [->|?]; [lia|done].
    + right. eexists. split; [done|]. exists p'. split; [done|]. split; [lia|].
      split; [lia|]. intros _. rewrite <- Hl. by apply alive_end.
  - right. eexists. split; [done|]. exists p'. split; [done|]. split; [lia|]. split.
    + intros _. split; [|done]. intros Hin. destruct p' as [|y p']; [by apply elem_of_nil in Hin|].
      destruct Hd' as [_ Ey]. cbn in Ey. subst cd. specialize (Hb _ Hin).
      pose proof (ssorted_head_lt _ _ y Hs0 ltac:(by left)). lia.
    + intros Hlt. rewrite <- Hl. by apply alive_end.
Qed.

Lemma move_with_del_spec m d x p :
  di_rep d (Cursor false (x :: p)) -> 0 <= x <= m + 1 -> m < MAX_DOC_ID - 1 ->
  exists r, move_with_del m d x = Ret r /\ next_post m p (x + 1) r.
Proof.
  intros Hd Hx Hm. unfold move_with_del.
  destruct (while_loop_rule _ _ _ _ (fun g st => move_del_step m p x g st Hm) x (d, x))
    as ([[d' cd] cur] & E & p' & Hd' & Hc & Hin & Hout).
  - exists p. cbn. split_and!; done || lia.
  - unfold MAX_DOC_ID, loop_fuel in *. lia.
  - rewrite E. rsimpl. eexists. split; [done|].
    by apply (next_post_intro m p (x + 1) d' cd p').
Qed.

Lemma next_post_alive m p q lo lo' r :
  next_post m q lo' r -> lo <= lo' -> alive m p lo = alive m q lo' -> next_post m p lo r.
Proof.
  intros (d & cd & p' & E & Hd & Hm & H) Hlo Ha. exists d, cd, p'. rewrite Ha.
  split; [done|]. split; [done|]. split; [done|].
  destruct (alive m q lo') as [|x l]; [done|]. destruct H as (? & ? & ? & ?).
  split_and!; done || lia.
Qed.

Lemma alive_deleted m x p : alive m (x :: p) x = alive m p (x + 1).
Proof.
  destruct (decide (x <= m)); [|by rewrite !alive_end by lia].
  rewrite alive_step by done. rewrite decide_True by (by left).
  apply alive_below. intros z Hz. rewrite elem_of_cons. split; [|tauto]. intros [->|?]; [lia|done].
Qed.

Context `{!DocIteratorSpec D}.

(** The two outcomes of comparing [cur] with a deleted document not below it. *)
Lemma all_next_here d cd cur m p :
  del_rep d cd p -> cur <= cd -> 0 <= cur <= m + 1 -> m < MAX_DOC_ID - 1 ->
  exists r, (if cur =? cd then move_with_del m d cur
             else Ret (cur <=? m, AllIter (Some (d, cd)) cur m)) = Ret r /\ next_post m p cur r.
Proof.
  intros Hd Hle Hc Hm. pose proof (del_sorted _ _ _ Hd) as [_ Hb].
  destruct (Z.eqb_spec cur cd) as [<-|Hne].
  - destruct p as [|y p]; [destruct Hd as [_ ->]; cbn in Hc; lia|].
    destruct Hd as [Hd Ey]. cbn in Ey. subst y.
    destruct (move_with_del_spec m d cur p Hd ltac:(lia) Hm) as (r & -> & Hr).
    exists r. split; [done|]. eapply next_post_alive; [done|lia|]. apply alive_deleted.
  - eexists. split; [done|]. apply (next_post_intro m p cur d cd p); [done|lia| |apply alive_end].
    intros _. split; [|done]. intros Hin. specialize (Hb _ Hin). lia.
Qed.
End AllCorrect.

Section AllNext.
Context {D : Type} `{!DocIterator D, !DocIteratorSpec D}.

(** Standing on [cur] with [p] still to come in the reader: documents after
    [cur] are deleted when they are in [p]. *)
Lemma all_next_spec (d : D) cd cur m p :
  del_rep d cd p -> 0 <= cur <= m -> m < MAX_DOC_ID - 1 ->
  exists r, all_next (AllIter (Some (d, cd)) cur m) = Ret r /\ next_post m p (cur + 1) r.
Proof.
  intros Hd Hc Hm. unfold all_next. cbn [delTermDocFreqs_ all_currDoc_ maxDoc_].
  unfold incr. rewrite u32_small by (unfold MAX_DOC_ID in *; lia).
  pose proof (all_next_here d cd (cur + 1) m p Hd) as H0.
  destruct (Z.eqb_spec (cur + 1) cd) as [E|Hne]; [apply H0; lia|].
  destruct (Z.ltb_spec (cur + 1) cd) as [Hlt|Hge]; [apply H0; lia|].
  clear H0. destruct Hd as [Hd _].
  destruct (di_skipTo_spec d _ (cur + 1) Hd) as (d' & -> & Hd'); [unfold MAX_DOC_ID in *; lia|].
  rsimpl. cbn in Hd'. cbn [cursor_skipTo cu_pend].
  set (p1 := pend_from (cur + 1) p) in *.
  assert (del_rep d' (default MAX_DOC_ID (head p1)) p1) as Hd1 by done.
  destruct (all_next_here d' _ (cur + 1) m p1 Hd1) as (r & E & Hr); [|lia|lia|].
  - destruct p1 as [|y q] eqn:Ep; cbn; [unfold MAX_DOC_ID in *; lia|].
    apply pend_from_head in Ep as [_ ?]. lia.
  - exists r. split; [exact E|]. eapply next_post_alive; [done|lia|].
    apply alive_below. intros x Hx. unfold p1. rewrite pend_from_elem. tauto.
Qed.

Definition all_inv (m : Z) (target : list Z) (g : Z) (st : all_iter D * list Z) : Prop :=
  exists d cd p, st.1 = AllIter (Some (d, cd)) g m /\ del_rep d cd p /\ 0 <= g <= m /\
    st.2 ++ alive m p (g + 1) = target.

Lemma all_drain_step m target g st :
  m < MAX_DOC_ID - 1 -> all_inv m target g st ->
  0 <= m - g /\
  ((exists g' st', drain_body st = Ret (inl st') /\ all_inv m target g' st' /\ m - g' < m - g) \/
   (exists r, drain_body st = Ret (inr r) /\ r = target)).
Proof.
  destruct st as [it acc]. intros Hm (d & cd & p & E0 & Hd & Hg & Ht). cbn [fst snd] in *. subst it.
  split; [lia|]. unfold drain_body.
  destruct (all_next_spec d cd g m p Hd Hg Hm) as ([b it'] & E & Hp). cbn [di_next all_iter_DocIterator].
  rewrite E. rsimpl. destruct Hp as (d' & cd' & p' & E1 & Hd' & Em & H). cbn [fst snd] in *.
  destruct (alive m p (g + 1)) as [|x l].
  - subst b. right. eexists. split; [done|]. by rewrite <- Ht, app_nil_r.
  - destruct H as (-> & Ex & Hx & ->). left. eexists x, _. split; [done|]. split; [|lia].
    exists d', cd', p'. destruct it' as [del c m']. cbn in *. subst del c m'.
    split_and!; [done|done|lia|lia|]. by rewrite <- Ht, <- app_assoc.
Qed.

(** An AllDocumentIterator enumerates the document ids from 1 to the
    greatest one that its reader of deleted documents does not hold. *)
Theorem all_enumerates_undeleted (d : D) c m :
  di_rep d c -> 0 <= m < MAX_DOC_ID - 1 ->
  exists it l, AllDocumentIterator (Some d) m = Ret it /\ drain it = Ret l /\
    ssorted l /\ forall x, x ∈ l <-> 1 <= x <= m /\ x ∉ pend_after_next c.
Proof.
  intros Hd Hm. unfold AllDocumentIterator.
  destruct (del_next_spec d c Hd) as (cd & d' & -> & Hd'). rsimpl.
  eexists _, (alive m (pend_after_next c) 1). split; [done|]. split; [|split; [|apply alive_elem]].
  - destruct (while_loop_rule _ _ _ _
      (fun g st => all_drain_step m (alive m (pend_after_next c) 1) g st ltac:(lia)) 0
      (AllIter (Some (d', cd)) 0 m, [])) as (r & E & ->); [| |exact E].
    + exists d', cd, (pend_after_next c). cbn. split_and!; done || lia.
    + unfold MAX_DOC_ID, loop_fuel in *. lia.
  - apply ssorted_filter, ssorted_seqZ.
Qed.
End AllNext.

Lemma all_enumerates_undeleted_witness :
  exists it l, AllDocumentIterator (Some (posting [2; 3; 6])) 7 = Ret it /\ drain it = Ret l /\
    ssorted l /\ forall x, x ∈ l <-> 1 <= x <= 7 /\ x ∉ [2; 3; 6].
Proof.
  apply (all_enumerates_undeleted _ (posting [2; 3; 6])); [|done].
  split; [done|]. by apply posting_wf.
Defined.

(** ** [skipTo] *)

(** [skipTo(target)] of an AllDocumentIterator that has not passed the
    target answers a document after the target, never the target itself (the
    posting readers it is combined with answer the target when they hold it). *)
Theorem all_skipTo_strict target cur m :
  0 <= cur <= target -> target < MAX_DOC_ID ->
  all_skipTo target (AllIter (@None (cursor * Z)) cur m) =
    Ret (found (target + 1) m, AllIter None (target + 1) m).
Proof.
  intros H Ht. unfold all_skipTo, all_do_skipTo, past. cbn [delTermDocFreqs_ all_currDoc_ maxDoc_].
  destruct (Z.ltb_spec target cur); [lia|]. unfold incr.
  by rewrite u32_small by (unfold MAX_DOC_ID in *; lia).
Qed.

Lemma all_skipTo_strict_witness :
  all_skipTo 8 (AllIter (@None (cursor * Z)) 0 20) = Ret (9, AllIter None 9 20).
Proof. by apply (all_skipTo_strict 8 0 20). Defined.

(** With consecutive deleted documents [skipTo] can answer a deleted one,
    and a further call then never returns: without 5 and 6, [skipTo(4)]
    answers the deleted 6 and [skipTo(5)] loops for any number of turns. *)
Theorem all_skipTo_deleted_diverges :
  exists it it6 d st, AllDocumentIterator (Some (posting [5; 6])) 9 = Ret it /\
    all_skipTo 4 it = Ret (6, it6) /\
    delTermDocFreqs_ it6 = Some (d, 5) /\ all_skipTo 5 it6 = skip_with_del 9 5 d 6 /\
    (forall p, loop p (skip_del_body 9) (d, 6, 5) = Ret (inl st)).
Proof.
  set (d := Cursor false [5; 6]).
  exists (AllIter (Some (d, 5)) 0 9), (AllIter (Some (d, 5)) 6 9), d, (Cursor false [6], 6, 5).
  split; [vm_compute; reflexivity|]. split; [vm_compute; reflexivity|].
  split; [reflexivity|]. split; [reflexivity|].
  apply (loop_enters_stuck (skip_del_body 9)); vm_compute; reflexivity.
Qed.
