(* ===== verification/PhraseMatch.v ===== *)
(** * Matching a phrase in a document

Models the tests [isQualified] of ExactPhraseDocumentIterator.h,
OrderedPhraseDocumentIterator.h, NearbyPhraseDocumentIterator.h and
WildcardPhraseDocumentIterator.h of search-manager/ on the positions
[offsets_] that the terms of the phrase have in a document. The arrays [ptrs_]
are explicit: a position that was passed is not looked at again. *)
From S2P Require Import Prelude.

(** while (ptrs_[i] < offsets_[i].size() && offsets_[i][ptrs_[i]] < bound) ptrs_[i]++ *)
Definition forward_body (o : list Z) (bound : Z) (ptr : Z) : res (Z + Z) :=
  if ptr <? vsize o then
    let* x := vget o ptr in Ret (if x <? bound then inl (ptr + 1) else inr ptr)
  else Ret (inr ptr).
Definition forward (o : list Z) (bound ptr : Z) : res Z := while_loop (forward_body o bound) ptr.

(** ** OrderedPhraseDocumentIterator::isQualified *)
Fixpoint ordered_rest (offsets : list (list Z)) (step : Z) : res bool :=
  match offsets with
  | [] => Ret true
  | o :: offsets =>
      let* ptr := forward o step 0 in
      if ptr =? vsize o then Ret false else let* step := vget o ptr in ordered_rest offsets step
  end.

Definition ordered_match (offsets : list (list Z)) : res bool :=
  match offsets with
  | [] => Undef
  | o :: offsets => let* step := vget o 0 in ordered_rest offsets step
  end.

(** ** ExactPhraseDocumentIterator::isQualified *)
Inductive round := Matches | Fails | Retry.

(** for (; i < offsets_.size(); i++) ...: the pointers of the terms [i], ... *)
Fixpoint exact_round (offsets : list (list Z)) (ptrs : list Z) (start : Z) : res (round * list Z) :=
  match offsets, ptrs with
  | [], _ => Ret (Matches, ptrs)
  | o :: offsets, ptr :: ptrs =>
      let* ptr := forward o start ptr in
      if ptr =? vsize o then Ret (Fails, ptr :: ptrs)
      else
        let* x := vget o ptr in
        if start + 1 <? x then Ret (Retry, ptr :: ptrs)
        else let* (r, ptrs) := exact_round offsets ptrs x in Ret (r, ptr :: ptrs)
  | _, [] => Undef
  end.

Definition exact_body (o : list Z) (offsets : list (list Z)) (st : Z * list Z) : res (Z * list Z + bool) :=
  let (ptr0, ptrs) := st in
  let* start := vget o ptr0 in
  let* (r, ptrs) := exact_round offsets ptrs start in
  match r with
  | Matches => Ret (inr true)
  | Fails => Ret (inr false)
  | Retry => Ret (if ptr0 + 1 =? vsize o then inr false else inl (ptr0 + 1, ptrs))
  end.

Definition exact_match (offsets : list (list Z)) : res bool :=
  match offsets with
  | [] => Undef
  | o :: offsets => while_loop (exact_body o offsets) (0, map (fun _ => 0) offsets)
  end.

(** ** NearbyPhraseDocumentIterator::findMatch, isQualified *)
Section Nearby.
Context (range_ : Z).

Fixpoint findMatch (offsets : list (list Z)) (ptrs : list Z) (off : Z) : res (bool * list Z) :=
  match offsets, ptrs with
  | [], _ => Ret (true, ptrs)
  | o :: offsets, ptr :: ptrs =>
      let* ptr := forward o off ptr in
      while_loop (fun st : Z * list Z =>
        let (ptr, ptrs) := st in
        if ptr <? vsize o then
          let* x := vget o ptr in
          if x <=? u32 (off + range_) then
            let* (b, ptrs) := findMatch offsets ptrs x in
            Ret (if b then inr (true, ptr :: ptrs) else inl (ptr + 1, ptrs))
          else Ret (inr (false, ptr :: ptrs))
        else Ret (inr (false, ptr :: ptrs))) (ptr, ptrs)
  | _, [] => Undef
  end.

(** For each occurrence of the first term. *)
Fixpoint nearby_each (first : list Z) (offsets : list (list Z)) (ptrs : list Z) : res bool :=
  match first with
  | [] => Ret false
  | x :: first =>
      let* (b, ptrs) := findMatch offsets ptrs x in
      if b then Ret true else nearby_each first offsets ptrs
  end.

Definition nearby_match (offsets : list (list Z)) : res bool :=
  match offsets with
  | [] => Undef
  | o :: offsets => nearby_each o offsets (map (fun _ => 0) offsets)
  end.
End Nearby.

(** ** WildcardPhraseDocumentIterator::isQualified

A term of the query with its [asterisk_mask_] and [question_mark_count_]. *)
Record wild_term := Wild { asterisk : bool; question_marks : Z; w_offsets : list Z }.

Inductive wild_outcome := WMatches | WFails | WRetry | WNext (n : nat).

(** for (; i < offsets_.size(); i++, offset++) ...: [n] counts the terms passed. *)
Fixpoint wild_round (terms : list wild_term) (ptrs : list Z) (start offset : Z) (n : nat) : res (wild_outcome * list Z) :=
  match terms, ptrs with
  | [], _ => Ret (WMatches, ptrs)
  | t :: terms, ptr :: ptrs =>
      let offset := offset + question_marks t in
      let* ptr := forward (w_offsets t) (start + offset) ptr in
      if ptr =? vsize (w_offsets t) then Ret (WFails, ptr :: ptrs)
      else if asterisk t then Ret (WNext n, ptr :: ptrs)
      else
        let* x := vget (w_offsets t) ptr in
        if x =? start + offset then
          let* (r, ptrs) := wild_round terms ptrs start (offset + 1) (S n) in Ret (r, ptr :: ptrs)
        else Ret (WRetry, ptr :: ptrs)
  | _, [] => Undef
  end.

(** while (true) ...: the terms and the pointers from [pos] on. *)
Definition wild_body (st : list wild_term * list Z) : res (list wild_term * list Z + bool) :=
  match st with
  | (t :: terms, ptr :: ptrs) =>
      if ptr =? vsize (w_offsets t) then Ret (inr false)
      else
        let* start := vget (w_offsets t) ptr in
        let* (r, ptrs) := wild_round terms ptrs start 1 0 in
        match r with
        | WMatches => Ret (inr true)
        | WFails => Ret (inr false)
        | WRetry => Ret (inl (t :: terms, (ptr + 1) :: ptrs))
        | WNext n => Ret (inl (drop n terms, drop n ptrs))
        end
  | _ => Undef
  end.

Definition wild_match (terms : list wild_term) : res bool := while_loop wild_body (terms, map (fun _ => 0) terms).

(** ** Moving a pointer forward *)

(** Every position before the pointer is below the bound. *)
Definition skips (o : list Z) (ptr b : Z) : Prop := 0 <= ptr <= vsize o /\ forall y, y ∈ take (Z.to_nat ptr) o -> y < b.

Lemma skips_0 o b : skips o 0 b.
Proof. split; [split; [lia|apply vsize_nonneg]|]. by intros y ?%elem_of_nil. Qed.

Lemma skips_mono o ptr b b' : skips o ptr b -> b <= b' -> skips o ptr b'.
Proof. intros [H1 H2] Hb. split; [done|]. intros y Hy. specialize (H2 y Hy). lia. Qed.

Lemma vget_split (o : list Z) ptr x : vget o ptr = Ret x ->
  o = take (Z.to_nat ptr) o ++ x :: drop (Z.to_nat (ptr + 1)) o /\
  take (Z.to_nat (ptr + 1)) o = take (Z.to_nat ptr) o ++ [x] /\ drop (Z.to_nat ptr) o = x :: drop (Z.to_nat (ptr + 1)) o.
Proof.
  intros [H0 H]%vget_Ret. replace (Z.to_nat (ptr + 1)) with (S (Z.to_nat ptr)) by lia.
  split_and!; [by rewrite take_drop_middle|by apply take_S_r|by apply drop_S].
Qed.

Lemma vget_elem (o : list Z) ptr x : vget o ptr = Ret x -> x ∈ o.
Proof. intros [_ H]%vget_Ret. by eapply list_elem_of_lookup_2. Qed.

Lemma vget_size (o : list Z) ptr x : vget o ptr = Ret x -> 0 <= ptr < vsize o.
Proof. intros [H0 H]%vget_Ret. apply lookup_lt_Some in H. unfold vsize. lia. Qed.

Lemma elem_drop (o : list Z) n y : y ∈ drop n o -> y ∈ o.
Proof. intros H. rewrite <- (take_drop n o). apply elem_of_app. by right. Qed.

Lemma sorted_after (o : list Z) ptr x y : ssorted o -> vget o ptr = Ret x -> y ∈ drop (Z.to_nat (ptr + 1)) o -> x < y.
Proof.
  intros Hs Hx Hy. destruct (vget_split o ptr x Hx) as (E & _). rewrite E in Hs.
  apply StronglySorted_app in Hs as (_ & _ & Hs). by eapply ssorted_head_lt.
Qed.

Lemma sorted_before (o : list Z) ptr x y : ssorted o -> vget o ptr = Ret x -> y ∈ take (Z.to_nat ptr) o -> y < x.
Proof.
  intros Hs Hx Hy. destruct (vget_split o ptr x Hx) as (E & _). rewrite E in Hs.
  apply StronglySorted_app in Hs as (Hs & _ & _). apply Hs; [done|by left].
Qed.

Lemma skips_next o ptr b x : ssorted o -> vget o ptr = Ret x -> x < b -> skips o (ptr + 1) b.
Proof.
  intros Hs Hx Hb. pose proof (vget_size _ _ _ Hx). split; [lia|].
  destruct (vget_split o ptr x Hx) as (_ & -> & _). intros y [Hy| ->%list_elem_of_singleton]%elem_of_app; [|done].
  pose proof (sorted_before _ _ _ _ Hs Hx Hy). lia.
Qed.

(** The positions of a term in a document, in order; [loc_t] has 32 bits. *)
Definition positions (o : list Z) : Prop := ssorted o /\ forall y, y ∈ o -> 0 <= y < 2 ^ 32.

Lemma positions_size o : positions o -> vsize o <= 2 ^ 32.
Proof. intros [Hs Hb]. pose proof (ssorted_length o 0 (2 ^ 32) Hs Hb). lia. Qed.

(** The pointer passes positions below the bound only. *)
Lemma forward_run o b ptr : positions o -> 0 <= ptr <= vsize o ->
  exists q, forward o b ptr = Ret q /\ ptr <= q <= vsize o /\
    (forall y, y ∈ take (Z.to_nat q) o -> y ∈ take (Z.to_nat ptr) o \/ y < b) /\
    (q <> vsize o -> exists x, vget o q = Ret x /\ b <= x).
Proof.
  intros Hpos Hp. unfold forward.
  edestruct (while_loop_rule (forward_body o b)
    (fun p s => s = p /\ ptr <= p <= vsize o /\ forall y, y ∈ take (Z.to_nat p) o -> y ∈ take (Z.to_nat ptr) o \/ y < b)
    (fun p => vsize o - p)
    (fun q => ptr <= q <= vsize o /\ (forall y, y ∈ take (Z.to_nat q) o -> y ∈ take (Z.to_nat ptr) o \/ y < b) /\
      (q <> vsize o -> exists x, vget o q = Ret x /\ b <= x))) with (g := ptr) as (q & -> & Hq); [| | |by exists q].
  - intros p s (-> & Hr & Hb). split; [lia|]. unfold forward_body. destruct (Z.ltb_spec p (vsize o)).
    + destruct (vget_in_range o p ltac:(lia)) as [x Hx]. rewrite Hx. rsimpl. destruct (Z.ltb_spec x b).
      * left. eexists (p + 1), _. split; [done|]. split; [|lia]. split_and!; [done|lia..|]. intros y.
        destruct (vget_split o p x Hx) as (_ & -> & _). intros [Hy| ->%list_elem_of_singleton]%elem_of_app; [by apply Hb|by right].
      * right. eexists. split; [done|]. split_and!; [lia|lia|done|]. intros _. by exists x.
    + right. eexists. split; [done|]. split_and!; [lia|lia|done|]. intros Hne. lia.
  - split_and!; [done|lia|lia|]. intros y Hy. by left.
  - pose proof (positions_size o Hpos). unfold loop_fuel. lia.
Qed.

(** The pointer stops at the least position that reaches the bound. *)
Lemma forward_spec o b ptr : positions o -> skips o ptr b ->
  exists q, forward o b ptr = Ret q /\ skips o q b /\
    ((q = vsize o /\ forall y, y ∈ o -> y < b) \/
     (q <> vsize o /\ exists x, vget o q = Ret x /\ b <= x /\ forall y, y ∈ o -> b <= y -> x <= y)).
Proof.
  intros Hpos [Hp Hb]. destruct (forward_run o b ptr Hpos Hp) as (q & -> & Hr & Ht & Hx). exists q. split; [done|].
  assert (forall y, y ∈ take (Z.to_nat q) o -> y < b) as Hlt by (intros y [Hy|Hy]%Ht; [by apply Hb|done]).
  split; [split; [lia|done]|]. destruct (decide (q = vsize o)) as [->|Hne].
  - left. split; [done|]. intros y Hy. apply Hlt. rewrite take_ge; [done|]. unfold vsize. lia.
  - right. split; [done|]. destruct (Hx Hne) as (x & Ex & Hbx). exists x. split_and!; [done|done|]. intros y Hy Hby.
    destruct (vget_split o q x Ex) as (E & _). rewrite E in Hy.
    apply elem_of_app in Hy as [Hy|[->|Hy]%elem_of_cons]; [specialize (Hlt y Hy); lia|lia|].
    pose proof (sorted_after o q x y (proj1 Hpos) Ex Hy). lia.
Qed.

(** ** What a phrase means

A choice of one position for each term, every two consecutive positions
related by [R]. *)
Fixpoint chain (R : Z -> Z -> Prop) (b : Z) (offsets : list (list Z)) : Prop :=
  match offsets with
  | [] => True
  | o :: offsets => exists x, x ∈ o /\ R b x /\ chain R x offsets
  end.

Definition phrase (R : Z -> Z -> Prop) (offsets : list (list Z)) : Prop :=
  match offsets with
  | [] => False
  | o :: offsets => exists x, x ∈ o /\ chain R x offsets
  end.

(** *** The terms in order *)
Lemma chain_le_mono b b' offsets : b <= b' -> chain Z.le b' offsets -> chain Z.le b offsets.
Proof. destruct offsets as [|o offsets]; [done|]. intros Hb (x & Hx & Hbx & Hc). exists x. split_and!; [done|lia|done]. Qed.

Lemma ordered_rest_spec offsets b : Forall positions offsets ->
  exists r, ordered_rest offsets b = Ret r /\ (r = true <-> chain Z.le b offsets).
Proof.
  intros H. revert b. induction H as [|o offsets Ho _ IH]; intros b; cbn [ordered_rest chain].
  { exists true. tauto. }
  destruct (forward_spec o b 0 Ho (skips_0 o b)) as (q & -> & Hq & [[-> Hlt]|[Hne (x & Hx & Hb & Hmin)]]); rsimpl.
  - rewrite Z.eqb_refl. exists false. split; [done|]. split; [done|]. intros (x & Hx & Hb & _). specialize (Hlt x Hx). lia.
  - destruct (Z.eqb_spec q (vsize o)); [done|]. rewrite Hx. rsimpl. destruct (IH x) as (r & -> & Hr).
    exists r. split; [done|]. rewrite Hr. split.
    + intros Hc. exists x. split_and!; [by eapply vget_elem|done|done].
    + intros (y & Hy & Hby & Hc). eapply chain_le_mono; [|exact Hc]. by apply Hmin.
Qed.

Lemma ordered_match_spec o offsets : o <> [] -> Forall positions (o :: offsets) ->
  exists r, ordered_match (o :: offsets) = Ret r /\ (r = true <-> phrase Z.le (o :: offsets)).
Proof.
  intros Hne [Ho Hpos]%Forall_cons. destruct o as [|x o]; [done|]. cbn [ordered_match]. change (vget (x :: o) 0) with (Ret x). cbn [res_bind].
  destruct (ordered_rest_spec offsets x Hpos) as (r & -> & Hr). exists r. split; [done|]. rewrite Hr. split.
  - intros Hc. exists x. split; [by left|done].
  - intros (y & Hy & Hc). eapply chain_le_mono; [|exact Hc]. by apply (ssorted_head_le x o); [apply Ho|].
Qed.

(** *** Terms next to each other *)
Definition next_to (x y : Z) : Prop := x <= y <= x + 1.

(** The pointers are behind every choice of positions from [b] on. *)
Fixpoint ptrs_inv (offsets : list (list Z)) (ptrs : list Z) (b : Z) : Prop :=
  match offsets, ptrs with
  | [], [] => True
  | o :: offsets, ptr :: ptrs => skips o ptr b /\ forall y, y ∈ o -> b <= y -> ptrs_inv offsets ptrs y
  | _, _ => False
  end.

Lemma ptrs_inv_mono offsets ptrs b b' : b <= b' -> ptrs_inv offsets ptrs b -> ptrs_inv offsets ptrs b'.
Proof.
  intros Hb. destruct offsets as [|o offsets], ptrs as [|ptr ptrs]; cbn; [done..|].
  intros [H1 H2]. split; [by eapply skips_mono|]. intros y Hy Hle. apply H2; [done|lia].
Qed.

Lemma ptrs_inv_0 offsets b : ptrs_inv offsets (map (fun _ => 0) offsets) b.
Proof.
  revert b. induction offsets as [|o offsets IH]; intros b; cbn; [done|]. split; [apply skips_0|]. intros y _ _. apply IH.
Qed.

(** Consecutive terms of the query have no position in common. *)
Fixpoint apart (o : list Z) (offsets : list (list Z)) : Prop :=
  match offsets with
  | [] => True
  | o' :: offsets => (forall x, x ∈ o -> x ∉ o') /\ apart o' offsets
  end.

(** What a round from [b], a position in [prev], answers. *)
Definition exact_answer (prev : list Z) (offsets : list (list Z)) (b : Z) (r : round) (ptrs : list Z) : Prop :=
  match r with
  | Matches => chain next_to b offsets
  | Fails => forall b', b <= b' -> ~ chain next_to b' offsets
  | Retry => ptrs_inv offsets ptrs b /\ (apart prev offsets -> ~ chain next_to b offsets)
  end.

Lemma exact_round_spec prev offsets ptrs b : Forall positions offsets -> ptrs_inv offsets ptrs b -> b ∈ prev ->
  exists r ptrs', exact_round offsets ptrs b = Ret (r, ptrs') /\ exact_answer prev offsets b r ptrs'.
Proof.
  intros Hpos. revert prev ptrs b. induction Hpos as [|o offsets Ho _ IH]; intros prev [|ptr ptrs] b Hinv Hb; cbn in Hinv; try done.
  { by exists Matches, []. }
  destruct Hinv as [Hsk Hinv]. cbn [exact_round].
  destruct (forward_spec o b ptr Ho Hsk) as (q & -> & Hq & [[-> Hlt]|[Hne (x & Hx & Hbx & Hmin)]]); rsimpl.
  - rewrite Z.eqb_refl. eexists Fails, _. split; [done|]. intros b' Hb' (y & Hy & Hby & _). specialize (Hlt y Hy). unfold next_to in Hby. lia.
  - destruct (Z.eqb_spec q (vsize o)); [done|]. rewrite Hx. rsimpl. destruct (Z.ltb_spec (b + 1) x).
    + eexists Retry, _. split; [done|]. split; [by split|]. intros _ (y & Hy & Hby & _). unfold next_to in Hby.
      specialize (Hmin y Hy ltac:(lia)). lia.
    + destruct (IH o ptrs x) as (r & ptrs' & -> & Hr); [by apply Hinv; [eapply vget_elem|]|by eapply vget_elem|].
      rsimpl. exists r, (q :: ptrs'). split; [done|]. destruct r; cbn [exact_answer] in *.
      * exists x. split_and!; [by eapply vget_elem|unfold next_to; lia|done].
      * intros b' Hb' (y & Hy & Hby & Hc). unfold next_to in Hby. apply (Hr y); [|done]. apply Hmin; [done|lia].
      * destruct Hr as [Hinv' Hno]. split.
        -- split; [done|]. intros y Hy Hby. eapply ptrs_inv_mono; [|exact Hinv']. by apply Hmin.
        -- intros [Hap1 Hap2] (y & Hy & Hby & Hc). unfold next_to in Hby. specialize (Hno Hap2).
           specialize (Hmin y Hy ltac:(lia)).
           assert (x <> b) by (intros ->; apply (Hap1 b Hb); by eapply vget_elem). by replace y with x in Hc by lia.
Qed.

Lemma exact_match_spec o offsets : o <> [] -> Forall positions (o :: offsets) ->
  exists r, exact_match (o :: offsets) = Ret r /\
    (r = true -> phrase next_to (o :: offsets)) /\ (apart o offsets -> phrase next_to (o :: offsets) -> r = true).
Proof.
  intros Hne [Ho Hpos]%Forall_cons. unfold exact_match.
  assert (vsize o <= 2 ^ 32) as Hsz by by apply positions_size. assert (0 < vsize o) as H0.
  { destruct o; [done|]. rewrite vsize_cons. pose proof (vsize_nonneg o). lia. }
  edestruct (while_loop_rule (exact_body o offsets)
    (fun ptr0 '(p, ptrs) => p = ptr0 /\ 0 <= p < vsize o /\ (forall x, vget o p = Ret x -> ptrs_inv offsets ptrs x) /\
       (apart o offsets -> forall x, x ∈ take (Z.to_nat p) o -> ~ chain next_to x offsets))
    (fun ptr0 => vsize o - ptr0) (fun r => (r = true -> phrase next_to (o :: offsets)) /\ (apart o offsets -> phrase next_to (o :: offsets) -> r = true)))
    with (g := 0) as (r & -> & Hr); [| | |by exists r].
  - intros ptr0 [p ptrs] (-> & Hp & Hinv & Hdead). split; [lia|]. unfold exact_body.
    destruct (vget_in_range o ptr0 Hp) as [x Hx]. rewrite Hx. rsimpl.
    destruct (exact_round_spec o offsets ptrs x Hpos (Hinv x Hx)) as (r & ptrs' & -> & Hr); [by eapply vget_elem|]. rsimpl.
    destruct (vget_split o ptr0 x Hx) as (Eo & Etake & _). pose proof (proj1 Ho) as Hs.
    destruct r; cbn [exact_answer] in Hr.
    + right. eexists. split; [done|]. split; [|done]. intros _. exists x. split; [by eapply vget_elem|done].
    + right. eexists. split; [done|]. split; [done|]. intros Hap (y & Hy & Hc). exfalso. rewrite Eo in Hy.
      apply elem_of_app in Hy as [Hy|Hy]; [by apply (Hdead Hap y)|]. apply (Hr y); [|done].
      apply elem_of_cons in Hy as [->|Hy]; [lia|]. pose proof (sorted_after o ptr0 x y Hs Hx Hy). lia.
    + destruct Hr as [Hinv' Hno]. assert (apart o offsets -> forall y, y ∈ take (Z.to_nat (ptr0 + 1)) o -> ~ chain next_to y offsets) as Hdead'.
      { intros Hap y Hy. rewrite Etake in Hy. apply elem_of_app in Hy as [Hy| ->%list_elem_of_singleton]; [by apply Hdead|by apply Hno]. }
      destruct (Z.eqb_spec (ptr0 + 1) (vsize o)) as [E|E].
      * right. eexists. split; [done|]. split; [done|]. intros Hap (y & Hy & Hc). exfalso. apply (Hdead' Hap y); [|done].
        rewrite E, take_ge; [done|]. unfold vsize. lia.
      * left. eexists (ptr0 + 1), (ptr0 + 1, ptrs'). split; [done|]. split; [|lia]. split_and!; [done|lia|lia| |done].
        intros y Hy. eapply ptrs_inv_mono; [|exact Hinv']. enough (x < y) by lia. eapply sorted_after; [done|exact Hx|].
        destruct (vget_split o _ y Hy) as (_ & _ & ->). by left.
  - split_and!; [done|lia|lia| |].
    + intros x _. apply ptrs_inv_0.
    + intros _ x Hx. by apply elem_of_nil in Hx.
  - unfold loop_fuel. lia.
Qed.

(** *** Terms near each other *)
Definition near (range_ x y : Z) : Prop := x <= y <= x + range_.

Section NearbySpec.
Context (range_ : Z) (Hrange : 0 <= range_).

(** What a pointer has passed is below [b] or begins no match. *)
Fixpoint near_inv (offsets : list (list Z)) (ptrs : list Z) (b : Z) : Prop :=
  match offsets, ptrs with
  | [], [] => True
  | o :: offsets, ptr :: ptrs =>
      0 <= ptr <= vsize o /\
      (forall y, y ∈ take (Z.to_nat ptr) o -> y < b \/ ~ chain (near range_) y offsets) /\
      forall y, y ∈ drop (Z.to_nat ptr) o -> b <= y -> near_inv offsets ptrs y
  | _, _ => False
  end.

Lemma near_inv_mono offsets ptrs b b' : b <= b' -> near_inv offsets ptrs b -> near_inv offsets ptrs b'.
Proof.
  intros Hb. destruct offsets as [|o offsets], ptrs as [|ptr ptrs]; cbn; [done..|].
  intros (H1 & H2 & H3). split_and!; [lia|lia| |].
  - intros y Hy. destruct (H2 y Hy); [left; lia|by right].
  - intros y Hy Hle. apply H3; [done|lia].
Qed.

Lemma near_inv_0 offsets b : near_inv offsets (map (fun _ => 0) offsets) b.
Proof.
  revert b. induction offsets as [|o offsets IH]; intros b; cbn; [done|]. split_and!; [lia|apply vsize_nonneg| |].
  - intros y Hy. by apply elem_of_nil in Hy.
  - intros y _ _. apply IH.
Qed.

(** Sums of a position and the range do not wrap. *)
Definition in_reach (o : list Z) : Prop := forall y, y ∈ o -> y + range_ < 2 ^ 32.

Lemma findMatch_spec offsets ptrs b : Forall positions offsets -> Forall in_reach offsets -> near_inv offsets ptrs b ->
  0 <= b -> b + range_ < 2 ^ 32 ->
  exists r ptrs', findMatch range_ offsets ptrs b = Ret (r, ptrs') /\ (r = true <-> chain (near range_) b offsets) /\
    (r = false -> near_inv offsets ptrs' b).
Proof.
  intros Hpos Hreach. revert ptrs b. induction Hpos as [|o offsets Ho _ IH]; intros [|ptr ptrs] b Hinv Hb0 Hb; cbn in Hinv; try done.
  { by exists true, []. }
  apply Forall_cons in Hreach as [Hro Hreach]. destruct Hinv as (Hp & Hdead & Hinv). pose proof (proj1 Ho) as Hs.
  cbn [findMatch]. destruct (forward_run o b ptr Ho Hp) as (q & -> & Hq & Hpass & Hx). rsimpl.
  assert (forall y, y ∈ take (Z.to_nat q) o -> y < b \/ ~ chain (near range_) y offsets) as Hdead'.
  { intros y [Hy|Hy]%Hpass; [by apply Hdead|by left]. }
  assert (forall y, y ∈ drop (Z.to_nat q) o -> b <= y /\ near_inv offsets ptrs y) as Hinv'.
  { intros y Hy. assert (b <= y) as Hby.
    { destruct (decide (q = vsize o)) as [->|Hne]; [rewrite drop_ge in Hy by (unfold vsize; lia); by apply elem_of_nil in Hy|].
      destruct (Hx Hne) as (x & Ex & Hbx). destruct (vget_split o q x Ex) as (_ & _ & E). rewrite E in Hy.
      apply elem_of_cons in Hy as [->|Hy]; [done|]. pose proof (sorted_after o q x y Hs Ex Hy). lia. }
    split; [done|]. apply Hinv; [|done]. replace (Z.to_nat q) with (Z.to_nat ptr + Z.to_nat (q - ptr))%nat in Hy by lia.
    rewrite <- drop_drop in Hy. by apply elem_drop in Hy. }
  clear Hpass Hx Hinv Hdead. rewrite u32_small by lia.
  match goal with |- context [while_loop ?body _] => edestruct (while_loop_rule body
    (fun p '(p', ptrs) => p' = p /\ 0 <= p <= vsize o /\
      (forall y, y ∈ take (Z.to_nat p) o -> y < b \/ ~ chain (near range_) y offsets) /\
      (forall y, y ∈ drop (Z.to_nat p) o -> b <= y /\ near_inv offsets ptrs y))
    (fun p => vsize o - p)
    (fun r => (r.1 = true <-> chain (near range_) b (o :: offsets)) /\ (r.1 = false -> near_inv (o :: offsets) r.2 b)))
    with (g := q) as ([r ptrs'] & -> & Hr); [| | |by exists r, ptrs'] end.
  - intros p [p' ps] (-> & Hr & Hd & Hi). split; [lia|].
    assert ((forall y, y ∈ drop (Z.to_nat p) o -> b + range_ < y) -> exists r, Ret (inr (A := Z * list Z) (false, p :: ps)) = Ret (inr r) /\
        (r.1 = true <-> chain (near range_) b (o :: offsets)) /\ (r.1 = false -> near_inv (o :: offsets) r.2 b)) as Hfail.
    { intros Hno. eexists. split; [done|]. cbn [fst snd]. split.
      - split; [done|]. intros (y & Hy & [Hy1 Hy2] & Hc). exfalso. rewrite <- (take_drop (Z.to_nat p) o) in Hy.
        apply elem_of_app in Hy as [Hy|Hy]; [destruct (Hd y Hy); [lia|done]|]. specialize (Hno y Hy). lia.
      - intros _. split_and!; [lia|lia|done|]. intros y Hy _. by apply Hi. }
    destruct (Z.ltb_spec p (vsize o)).
    + destruct (vget_in_range o p ltac:(lia)) as [x Hx]. rewrite Hx. rsimpl.
      destruct (vget_split o p x Hx) as (_ & Et & Ed). destruct (Hi x) as [Hbx Hix]; [rewrite Ed; by left|].
      destruct (Z.leb_spec x (b + range_)).
      * destruct (IH Hreach ps x Hix) as (r & ps' & -> & Hr1 & Hr2); [lia|apply Hro; by eapply vget_elem|]. rsimpl. destruct r.
        -- right. eexists. split; [done|]. cbn [fst snd]. split; [|done]. split; [|done]. intros _. exists x.
           split_and!; [by eapply vget_elem|by split|by apply Hr1].
        -- left. eexists (p + 1), _. split; [done|]. split; [|lia]. split_and!; [done|lia|lia| |].
           ++ intros y Hy. rewrite Et in Hy. apply elem_of_app in Hy as [Hy| ->%list_elem_of_singleton]; [by apply Hd|].
              right. intros Hc. by apply Hr1 in Hc.
           ++ intros y Hy. pose proof (sorted_after o p x y Hs Hx Hy). split; [lia|].
              eapply near_inv_mono; [|by apply Hr2]. lia.
      * right. apply Hfail. intros y Hy. rewrite Ed in Hy. apply elem_of_cons in Hy as [->|Hy]; [lia|]. pose proof (sorted_after o p x y Hs Hx Hy). lia.
    + right. apply Hfail. intros y Hy. rewrite drop_ge in Hy by (unfold vsize in *; lia). by apply elem_of_nil in Hy.
  - split_and!; [done|lia|lia|done|done].
  - pose proof (positions_size o Ho). unfold loop_fuel. lia.
Qed.

Lemma nearby_each_spec first offsets ptrs : ssorted first -> (forall y, y ∈ first -> 0 <= y /\ y + range_ < 2 ^ 32) ->
  Forall positions offsets -> Forall in_reach offsets -> (forall y, y ∈ first -> near_inv offsets ptrs y) ->
  exists r, nearby_each range_ first offsets ptrs = Ret r /\ (r = true <-> exists x, x ∈ first /\ chain (near range_) x offsets).
Proof.
  intros Hs Hf Hpos Hreach. revert ptrs. induction first as [|x first IH]; intros ptrs Hinv; cbn [nearby_each].
  { exists false. split; [done|]. split; [done|]. intros (x & Hx & _). by apply elem_of_nil in Hx. }
  destruct (Hf x ltac:(by left)) as [H0 H1].
  destruct (findMatch_spec offsets ptrs x Hpos Hreach (Hinv x ltac:(by left)) H0 H1) as (r & ptrs' & -> & Hr1 & Hr2). rsimpl. destruct r.
  - exists true. split; [done|]. split; [|done]. intros _. exists x. split; [by left|by apply Hr1].
  - destruct (IH (ssorted_tail _ Hs) (fun y Hy => Hf y ltac:(by right)) ptrs') as (r & -> & Hr).
    { intros y Hy. eapply near_inv_mono; [|by apply Hr2]. pose proof (ssorted_head_lt _ _ _ Hs Hy). lia. }
    exists r. split; [done|]. rewrite Hr. split.
    + intros (y & Hy & Hc). exists y. split; [by right|done].
    + intros (y & [->|Hy]%elem_of_cons & Hc); [by apply Hr1 in Hc|]. by exists y.
Qed.

Lemma nearby_match_spec o offsets : Forall positions (o :: offsets) -> Forall in_reach (o :: offsets) ->
  exists r, nearby_match range_ (o :: offsets) = Ret r /\ (r = true <-> phrase (near range_) (o :: offsets)).
Proof.
  intros [Ho Hpos]%Forall_cons [Hro Hreach]%Forall_cons. cbn [nearby_match phrase].
  apply nearby_each_spec; [apply Ho| |done|done|].
  - intros y Hy. split; [by apply Ho|by apply Hro].
  - intros y _. apply near_inv_0.
Qed.
End NearbySpec.

(** *** Wildcards

The terms from [start] on: the next term is at the offset reached, or anywhere
from it on after an asterisk, where the offsets begin anew. *)
Fixpoint wild_ok (start offset : Z) (terms : list wild_term) : Prop :=
  match terms with
  | [] => True
  | t :: terms =>
      let offset := offset + question_marks t in
      if asterisk t then exists x, x ∈ w_offsets t /\ start + offset <= x /\ wild_ok x 1 terms
      else start + offset ∈ w_offsets t /\ wild_ok start (offset + 1) terms
  end.

Definition wild_phrase (terms : list wild_term) : Prop :=
  match terms with
  | [] => False
  | t :: terms => exists x, x ∈ w_offsets t /\ wild_ok x 1 terms
  end.

Fixpoint wild_inv (terms : list wild_term) (ptrs : list Z) (start offset : Z) : Prop :=
  match terms, ptrs with
  | [], [] => True
  | t :: terms, ptr :: ptrs =>
      let offset := offset + question_marks t in
      skips (w_offsets t) ptr (start + offset) /\
      if asterisk t then ptrs = map (fun _ => 0) terms else wild_inv terms ptrs start (offset + 1)
  | _, _ => False
  end.

Lemma wild_inv_mono terms ptrs start start' offset : start <= start' ->
  wild_inv terms ptrs start offset -> wild_inv terms ptrs start' offset.
Proof.
  intros Hle. revert ptrs offset. induction terms as [|t terms IH]; intros [|ptr ptrs] offset; cbn; [done..|].
  intros [H1 H2]. split; [eapply skips_mono; [done|lia]|]. destruct (asterisk t); [done|by apply IH].
Qed.

Lemma wild_inv_0 terms start offset : wild_inv terms (map (fun _ => 0) terms) start offset.
Proof.
  revert offset. induction terms as [|t terms IH]; intros offset; cbn; [done|]. split; [apply skips_0|].
  destruct (asterisk t); [done|apply IH].
Qed.

Lemma wild_after offset terms (o : list Z) ptr x start : positions o -> skips o ptr (start + offset) ->
  (exists y, y ∈ o /\ start + offset <= y /\ wild_ok y 1 terms) -> vget o ptr = Ret x ->
  exists y, y ∈ drop (Z.to_nat ptr) o /\ wild_ok y 1 terms.
Proof.
  intros Ho [_ Hsk] (y & Hy & Hle & Hok) Hx. exists y. split; [|done]. rewrite <- (take_drop (Z.to_nat ptr) o) in Hy.
  apply elem_of_app in Hy as [Hy|Hy]; [|done]. specialize (Hsk y Hy). lia.
Qed.

(** What a round from [start] answers. *)
Definition wild_answer (terms : list wild_term) (start offset : Z) (n : nat) (r : wild_outcome) (ptrs : list Z) : Prop :=
  match r with
  | WMatches => wild_ok start offset terms
  | WFails => forall s, start <= s -> ~ wild_ok s offset terms
  | WRetry => wild_inv terms ptrs start offset /\ ~ wild_ok start offset terms
  | WNext m => exists k t rest ptr, m = (n + k)%nat /\ drop k terms = t :: rest /\
      drop k ptrs = ptr :: map (fun _ => 0) rest /\ 0 <= ptr <= vsize (w_offsets t) /\
      (forall s, start <= s -> wild_ok s offset terms -> exists y, y ∈ drop (Z.to_nat ptr) (w_offsets t) /\ wild_ok y 1 rest) /\
      (forall y, y ∈ drop (Z.to_nat ptr) (w_offsets t) -> wild_ok y 1 rest -> wild_ok start offset terms)
  end.

Lemma wild_round_spec terms ptrs start offset n : Forall (fun t => positions (w_offsets t)) terms ->
  wild_inv terms ptrs start offset ->
  exists r ptrs', wild_round terms ptrs start offset n = Ret (r, ptrs') /\ wild_answer terms start offset n r ptrs'.
Proof.
  intros Hpos. revert ptrs offset n. induction Hpos as [|t terms Ho _ IH]; intros [|ptr ptrs] offset n Hinv; cbn in Hinv; try done.
  { by exists WMatches, []. }
  destruct Hinv as [Hsk Hinv]. cbn [wild_round]. set (off := offset + question_marks t) in *.
  destruct (forward_spec _ (start + off) ptr Ho Hsk) as (q & -> & Hq & [[-> Hlt]|[Hne (x & Hx & Hbx & Hmin)]]); rsimpl.
  - rewrite Z.eqb_refl. eexists WFails, _. split; [done|]. intros s Hs. cbn [wild_ok]. fold off. destruct (asterisk t).
    + intros (y & Hy & Hle & _). specialize (Hlt y Hy). lia.
    + intros [Hy _]. specialize (Hlt _ Hy). lia.
  - destruct (Z.eqb_spec q (vsize (w_offsets t))); [done|]. destruct (asterisk t) eqn:Ea.
    + eexists (WNext n), _. split; [done|]. exists 0%nat, t, terms, q. rewrite Hinv. split_and!; [lia|done|done|apply Hq..| |].
      * intros s Hs Hok. cbn [wild_ok] in Hok. rewrite Ea in Hok. fold off in Hok. eapply (wild_after (s - start + off) _ _ _ _ start); [done| | |exact Hx].
        -- eapply skips_mono; [exact Hq|lia].
        -- destruct Hok as (y & Hy & Hle & Hok). exists y. split_and!; [done|lia|done].
      * intros y Hy Hok. cbn [wild_ok]. rewrite Ea. fold off. exists y. split_and!; [by eapply elem_drop| |done].
        destruct (vget_split _ q x Hx) as (_ & _ & E). rewrite E in Hy. apply elem_of_cons in Hy as [->|Hy]; [done|].
        pose proof (sorted_after _ q x y (proj1 Ho) Hx Hy). lia.
    + rewrite Hx. rsimpl. destruct (Z.eqb_spec x (start + off)) as [->|Hnx].
      * destruct (IH ptrs (off + 1) (S n) Hinv) as (r & ptrs' & -> & Hr). rsimpl. exists r, (q :: ptrs'). split; [done|].
        assert (start + off ∈ w_offsets t) as Hin by by eapply vget_elem.
        destruct r as [| | |m]; cbn [wild_answer wild_ok wild_inv] in *; rewrite Ea; fold off.
        -- done.
        -- intros s Hs [_ Hok]. by apply (Hr s Hs).
        -- destruct Hr as [Hr1 Hr2]. split; [by split|]. by intros [_ Hok].
        -- destruct Hr as (k & t' & rest & p & -> & Et & Ep & Hp & H1 & H2). exists (S k), t', rest, p.
           split_and!; [lia|done|done|apply Hp..| |].
           ++ intros s Hs [_ Hok]. by apply (H1 s Hs).
           ++ intros y Hy Hok. split; [done|by apply (H2 y)].
      * eexists WRetry, _. split; [done|]. cbn [wild_answer wild_inv wild_ok]. rewrite Ea. fold off. split; [by split|].
        intros [Hin _]. specialize (Hmin _ Hin ltac:(lia)). lia.
Qed.

Definition wild_size (terms : list wild_term) : Z := foldr (fun t n => vsize (w_offsets t) + 1 + n) 0 terms.

Lemma wild_size_nonneg terms : 0 <= wild_size terms.
Proof. induction terms as [|t terms IH]; cbn; [lia|]. fold (wild_size terms). pose proof (vsize_nonneg (w_offsets t)). lia. Qed.

Lemma wild_size_drop n terms : wild_size (drop n terms) <= wild_size terms.
Proof.
  revert n. induction terms as [|t terms IH]; intros [|n]; cbn; [lia..|].
  fold (wild_size terms) (wild_size (drop n terms)). specialize (IH n).
  pose proof (vsize_nonneg (w_offsets t)). lia.
Qed.

Lemma wild_size_bound terms : Forall (fun t => positions (w_offsets t)) terms -> wild_size terms <= vsize terms * (2 ^ 32 + 1).
Proof.
  induction 1 as [|t terms Ho _ IH]; [done|]. cbn. fold (wild_size terms). rewrite vsize_cons.
  pose proof (positions_size _ Ho). lia.
Qed.

Lemma wild_match_spec terms : terms <> [] -> vsize terms < 2 ^ 32 -> Forall (fun t => positions (w_offsets t)) terms ->
  exists r, wild_match terms = Ret r /\ (r = true <-> wild_phrase terms).
Proof.
  intros Hne Hsz Hpos. unfold wild_match.
  edestruct (while_loop_rule wild_body
    (fun g st => st = g /\ exists t rest ptr ptrs, g = (t :: rest, ptr :: ptrs) /\ 0 <= ptr <= vsize (w_offsets t) /\
       Forall (fun t => positions (w_offsets t)) (t :: rest) /\
       (forall x, vget (w_offsets t) ptr = Ret x -> wild_inv rest ptrs x 1) /\
       (wild_phrase terms <-> exists y, y ∈ drop (Z.to_nat ptr) (w_offsets t) /\ wild_ok y 1 rest))
    (fun g => wild_size g.1 - default 0 (head g.2))
    (fun r => r = true <-> wild_phrase terms)) with (g := (terms, map (fun _ : wild_term => 0) terms)) as (r & -> & Hr); [| | |by exists r].
  - intros [g1 g2] st (-> & t & rest & ptr & ptrs & [= -> ->] & Hp & Hall & Hinv & Hgoal). apply Forall_cons in Hall as [Ho Hall].
    cbn [fst snd head option_map default wild_size foldr]. fold (wild_size rest). pose proof (wild_size_nonneg rest).
    pose proof (wild_size_nonneg rest) as Hrest. cbn [fst snd head option_map default from_option id] in *.
    split; [cbn [wild_size foldr]; fold (wild_size rest); lia|]. cbn [wild_body]. destruct (Z.eqb_spec ptr (vsize (w_offsets t))) as [->|Hne'].
    + right. eexists. split; [done|]. rewrite Hgoal. split; [done|]. intros (y & Hy & _).
      rewrite drop_ge in Hy by (unfold vsize; lia). by apply elem_of_nil in Hy.
    + destruct (vget_in_range (w_offsets t) ptr ltac:(lia)) as [x Hx]. rewrite Hx. rsimpl.
      destruct (vget_split _ ptr x Hx) as (_ & _ & Ed). pose proof (proj1 Ho) as Hs.
      assert (forall y, y ∈ drop (Z.to_nat ptr) (w_offsets t) -> x <= y) as Hxy.
      { intros y Hy. rewrite Ed in Hy. apply elem_of_cons in Hy as [->|Hy]; [lia|]. pose proof (sorted_after _ ptr x y Hs Hx Hy). lia. }
      destruct (wild_round_spec rest ptrs x 1 0 Hall (Hinv x Hx)) as (r & ptrs' & -> & Hr). rsimpl. destruct r as [| | |m]; cbn [wild_answer] in Hr.
      * right. eexists. split; [done|]. split; [|done]. intros _. apply Hgoal. exists x. split; [rewrite Ed; by left|done].
      * right. eexists. split; [done|]. split; [done|]. intros (y & Hy & Hok)%Hgoal. exfalso. by apply (Hr y (Hxy y Hy)).
      * left. destruct Hr as [Hi Hno]. eexists (t :: rest, (ptr + 1) :: ptrs'), _. split; [done|]. split; [|cbn; fold (wild_size rest); lia].
        split; [done|]. exists t, rest, (ptr + 1), ptrs'. split_and!; [done|lia|lia|by constructor| |].
        -- intros y Hy. eapply wild_inv_mono; [|exact Hi]. enough (x < y) by lia. eapply sorted_after; [done|exact Hx|].
           destruct (vget_split _ _ y Hy) as (_ & _ & ->). by left.
        -- rewrite Hgoal, Ed. split; intros (y & Hy & Hok); exists y; (split; [|done]); [|by right].
           apply elem_of_cons in Hy as [->|Hy]; done.
      * left. destruct Hr as (k & t' & rest' & p & -> & Et & Ep & Hp' & H1 & H2). cbn [Nat.add].
        eexists (t' :: rest', p :: map (fun _ => 0) rest'), _. rewrite Et, Ep. split; [done|]. split.
        -- split; [done|]. exists t', rest', p, (map (fun _ => 0) rest'). split_and!; [done|apply Hp'..| | |].
           ++ rewrite <- Et. by apply Forall_drop.
           ++ intros y _. apply wild_inv_0.
           ++ rewrite Hgoal. split.
              ** intros (y & Hy & Hok). by apply (H1 y (Hxy y Hy)).
              ** intros (y & Hy & Hok). exists x. split; [rewrite Ed; by left|by apply (H2 y)].
        -- cbn [fst snd head option_map]. rewrite <- Et. pose proof (wild_size_drop k rest). cbn. fold (wild_size rest). lia.
  - split; [done|]. destruct terms as [|t rest]; [done|]. exists t, rest, 0, (map (fun _ => 0) rest).
    split_and!; [done|lia|apply vsize_nonneg|done| |done]. intros x _. apply wild_inv_0.
  - pose proof (wild_size_bound terms Hpos). destruct terms as [|t rest]; [done|]. cbn [map head fst snd]. unfold loop_fuel. cbn. cbn in H. lia.
Qed.

(** ** Phrases that the exact test gets wrong

A phrase that repeats a word matches the word alone, and a position that two
terms share hides the phrase. *)
Lemma exact_repeated_word : exact_match [[5]; [5]] = Ret true.
Proof. done. Qed.

Lemma exact_misses_phrase : exact_match [[5]; [5; 6]; [7]] = Ret false /\ phrase next_to [[5]; [5; 6]; [7]].
Proof.
  split; [vm_compute; reflexivity|]. exists 5. split; [by left|]. exists 6. split; [set_solver|]. split; [unfold next_to; lia|].
  exists 7. split; [by left|]. split; [unfold next_to; lia|done].
Qed.

(** The range of the nearby test includes the position itself. *)
Lemma nearby_repeated_word : nearby_match 3 [[5]; [5]] = Ret true.
Proof. done. Qed.
