(* ===== verification/PhraseIterator.v ===== *)
(** * The iterators of phrases

Models search-manager/PhraseDocumentIterator.h and its subclasses: the readers
of the positions of the terms are brought to a common document, which is
returned when the positions of the terms in it pass the test of the subclass
(PhraseMatch.v). [skipTo] is the default of DocumentIterator. The index is an
interface. *)
From S2P Require Import Prelude PQueue DocIterator PhraseMatch.

(** What a TermPositions adds to a reader of documents. *)
Class TermPositions (D : Type) := {
  nextPosition : D -> res (Z * D);
  BAD_POSITION : Z
}.

(** The subclass, with its own members. *)
Inductive phrase_kind :=
| PExact
| POrdered
| PNearby (range_ : Z)
| PWildcard (asterisk_mask_ : list bool) (question_mark_count_ : list Z).

Record phrase_iter (D : Type) := PhraseIter {
  kind_ : phrase_kind;
  termids_ : list Z;
  property_ : string;
  inited_ : bool;
  ph_hasNext_ : bool;
  termDocReaders_ : list D;
  ph_currDoc_ : Z;
  offsets_ : list (list Z)
}.
Arguments PhraseIter {_} _ _ _ _ _ _ _ _.
Arguments kind_ {_} _.
Arguments termids_ {_} _.
Arguments property_ {_} _.
Arguments inited_ {_} _.
Arguments ph_hasNext_ {_} _.
Arguments termDocReaders_ {_} _.
Arguments ph_currDoc_ {_} _.
Arguments offsets_ {_} _.

Definition PhraseDocumentIterator {D} (kind : phrase_kind) (termids : list Z) (property : string) (junk : Z) : phrase_iter D :=
  PhraseIter kind termids property false false [] junk [].

(** WildcardPhraseDocumentIterator: the positions of * and ? among the terms. *)
Definition WildcardPhraseDocumentIterator {D} (termids asterisk_positions question_mark_positions : list Z) (property : string) (junk : Z)
  : res (phrase_iter D) :=
  let* asterisk_mask := mfold (fun i mask => vset mask i true) asterisk_positions (vresize (vsize termids + 1) false []) in
  let* question_mark_count := mfold (fun i cnt => let* n := vget cnt i in vset cnt i (n + 1)) question_mark_positions
    (vresize (vsize termids + 1) 0 []) in
  Ret (PhraseDocumentIterator (PWildcard asterisk_mask question_mark_count) termids property junk).

Section PhraseOps.
Context {D : Type} `{!DocIterator D, !TermPositions D}.

(** [getTermReader] of the collection (NULL or not); [seek] and
    [termPositions] of a term of a property. *)
Context (getTermReader : option (string -> Z -> option D)).
Notation iter := (phrase_iter D).

Fixpoint seek_all (seek : Z -> option D) (termids : list Z) : bool * list D :=
  match termids with
  | [] => (true, [])
  | t :: termids =>
      match seek t with
      | None => (false, [])
      | Some d => let (b, l) := seek_all seek termids in (b, d :: l)
      end
  end.

(** [init] of the subclasses, which call that of the base class. *)
Definition ph_init (it : iter) : bool * iter :=
  match termids_ it with
  | [] => (false, it)
  | _ =>
      match getTermReader with
      | None => (false, it)
      | Some reader =>
          let (succ, l) := seek_all (reader (property_ it)) (termids_ it) in
          (succ, PhraseIter (kind_ it) (termids_ it) (property_ it) (inited_ it) (ph_hasNext_ it) l (ph_currDoc_ it)
            (if succ then vresize (vsize l) [] (offsets_ it) else offsets_ it))
      end
  end.

(** if (!inited_) { hasNext_ = init(); inited_ = true; } *)
Definition ensure_init (it : iter) : iter :=
  if inited_ it then it
  else
    let (hasNext, it) := ph_init it in
    PhraseIter (kind_ it) (termids_ it) (property_ it) true hasNext (termDocReaders_ it) (ph_currDoc_ it) (offsets_ it).

(** while (nMatch < termDocReaders_.size()) ... *)
Definition ph_match_body (st : list D * Z * Z * Z) : res (list D * Z * Z * Z + option Z * list D) :=
  let '(l, start, target, nMatch) := st in
  if nMatch <? vsize l then
    let i := start mod vsize l in
    let* s := vget l i in
    let* (nearTarget, s) := di_skipTo target s in
    let* l := vset l i s in
    if (MAX_DOC_ID =? nearTarget) || (nearTarget <? target) then Ret (inr (None, l))
    else if nearTarget =? target then Ret (inl (l, u64 (start + 1), target, nMatch + 1))
    else Ret (inl (l, u64 (start + 1), nearTarget, 1))
  else Ret (inr (Some target, l)).

Definition ph_do_next (l : list D) (currDoc : Z) : res (bool * list D * Z) :=
  let* s := vget l 0 in
  let* (b, s) := di_next s in
  let* l := vset l 0 s in
  if negb b then Ret (false, l, MAX_DOC_ID)
  else
    let* (r, l) := while_loop ph_match_body (l, 1, di_doc s, 1) in
    match r with
    | Some target => Ret (true, l, target)
    | None => Ret (false, l, MAX_DOC_ID)
    end.

(** while (true) { loc_t o = nextPosition(); if (o == BAD_POSITION) break; offsets_[i].push_back(o); } *)
Definition read_body (st : D * list Z) : res (D * list Z + list Z * D) :=
  let (d, acc) := st in
  let* (o, d) := nextPosition d in
  Ret (if o =? BAD_POSITION then inr (acc, d) else inl (d, acc ++ [o])).
Definition read_positions (d : D) : res (list Z * D) := while_loop read_body (d, []).

(** The reading of all positions; the exact test gives up at a term without
    any, which leaves the readers behind it and their [offsets_]. *)
Fixpoint read_all (exact : bool) (l : list D) (offsets : list (list Z)) : res (bool * list D * list (list Z)) :=
  match l, offsets with
  | d :: l, _ :: offsets =>
      let* (o, d) := read_positions d in
      if exact && is_nil o then Ret (false, d :: l, o :: offsets)
      else
        let* (b, l, offsets) := read_all exact l offsets in Ret (b, d :: l, o :: offsets)
  | _, [] => Ret (true, l, [])
  | [], _ => Undef
  end.

Definition wild_terms (mask : list bool) (cnt : list Z) (offsets : list (list Z)) : list wild_term :=
  zip_with (fun p o => Wild p.1 p.2 o) (zip mask cnt) offsets.

(** The test on the positions. *)
Definition positions_match (kind : phrase_kind) (offsets : list (list Z)) : res bool :=
  match kind with
  | PExact => exact_match offsets
  | POrdered => ordered_match offsets
  | PNearby range => nearby_match range offsets
  | PWildcard mask cnt => wild_match (wild_terms mask cnt offsets)
  end.

Definition is_exact (kind : phrase_kind) : bool := match kind with PExact => true | _ => false end.

Definition isQualified (kind : phrase_kind) (l : list D) (offsets : list (list Z)) : res (bool * list D * list (list Z)) :=
  let* (ok, l, offsets) := read_all (is_exact kind) l offsets in
  if ok then let* b := positions_match kind offsets in Ret (b, l, offsets) else Ret (false, l, offsets).

(** while (hasNext_) { hasNext_ = do_next(); if (hasNext_ && isQualified()) break; } *)
Definition ph_next_body (it : iter) : res (iter + bool * iter) :=
  if negb (ph_hasNext_ it) then Ret (inr (false, it))
  else
    let* (b, l, currDoc) := ph_do_next (termDocReaders_ it) (ph_currDoc_ it) in
    if negb b then Ret (inl (PhraseIter (kind_ it) (termids_ it) (property_ it) (inited_ it) false l currDoc (offsets_ it)))
    else
      let* (ok, l, offsets) := isQualified (kind_ it) l (offsets_ it) in
      let it := PhraseIter (kind_ it) (termids_ it) (property_ it) (inited_ it) true l currDoc offsets in
      Ret (if ok then inr (true, it) else inl it).

Definition ph_next (it : iter) : res (bool * iter) := while_loop ph_next_body (ensure_init it).

Definition ph_tf (it : iter) : res Z :=
  mfold (fun d mintf => let* tf := di_tf d in Ret (if tf <? mintf then tf else mintf)) (termDocReaders_ (ensure_init it)) MAX_COUNT.

(** The operations but [skipTo], and all of them with the default [skipTo]. *)
Definition phrase_base : DocIterator iter :=
  {| di_next := ph_next; di_doc := ph_currDoc_; di_skipTo _ _ := Undef; di_tf := ph_tf |}.
Definition phrase_ops : DocIterator iter :=
  {| di_next := ph_next; di_doc := ph_currDoc_; di_skipTo := default_skipTo (DocIterator0 := phrase_base); di_tf := ph_tf |}.
End PhraseOps.

(** ** What a phrase iterator relies on *)

(** The positions of the current document, of which [pos_rep] says how many
    were not read. *)
Definition here (P : Z -> list Z) (c : cursor) : list Z :=
  match cu_pend c with [] => [] | x :: _ => P x end.

Class TermPositionsSpec (D : Type) `{!DocIterator D, !TermPositions D} := {
  pos_rep : (Z -> list Z) -> D -> cursor -> list Z -> Prop;
  pos_rep_wf : forall P d c l, pos_rep P d c l -> cursor_wf c;
  pos_next_spec : forall P d c l, pos_rep P d c l -> exists d',
    di_next d = Ret (fst (cursor_next c), d') /\ pos_rep P d' (snd (cursor_next c)) (here P (snd (cursor_next c)));
  pos_doc_spec : forall P d x p l, pos_rep P d (Cursor false (x :: p)) l -> di_doc d = x;
  pos_skipTo_spec : forall P d c l t, pos_rep P d c l -> 0 <= t < MAX_DOC_ID -> before t c -> exists d',
    di_skipTo t d = Ret (fst (cursor_skipTo t c), d') /\ pos_rep P d' (snd (cursor_skipTo t c)) (here P (snd (cursor_skipTo t c)));
  pos_read : forall P d c x l, pos_rep P d c (x :: l) -> x <> BAD_POSITION /\ exists d',
    nextPosition d = Ret (x, d') /\ pos_rep P d' c l;
  pos_read_end : forall P d c, pos_rep P d c [] -> exists d', nextPosition d = Ret (BAD_POSITION, d') /\ pos_rep P d' c []
}.

(** A reader of the posting list of a term with its positions. *)
Record pos_cursor := PosCursor { pc_cursor : cursor; pc_positions : Z -> list Z; pc_left : list Z }.

#[export] Instance pos_cursor_DocIterator : DocIterator pos_cursor := {
  di_next s := let (b, c) := cursor_next (pc_cursor s) in Ret (b, PosCursor c (pc_positions s) (here (pc_positions s) c));
  di_doc s := di_doc (pc_cursor s);
  di_skipTo t s := let (r, c) := cursor_skipTo t (pc_cursor s) in Ret (r, PosCursor c (pc_positions s) (here (pc_positions s) c));
  di_tf s := Ret (vsize (here (pc_positions s) (pc_cursor s)))
}.

#[export] Instance pos_cursor_TermPositions : TermPositions pos_cursor := {
  nextPosition s := match pc_left s with
    | [] => Ret (2 ^ 32 - 1, s)
    | x :: l => Ret (x, PosCursor (pc_cursor s) (pc_positions s) l)
    end;
  BAD_POSITION := 2 ^ 32 - 1
}.

#[export] Instance pos_cursor_spec : TermPositionsSpec pos_cursor.
Proof.
  refine {| pos_rep P (d : pos_cursor) c l := d = PosCursor c P l /\ cursor_wf c /\ ((2 ^ 32 - 1) ∉ l) /\ (forall x, (2 ^ 32 - 1) ∉ P x) |}.
  - intros P d c l (_ & H & _). done.
  - intros P d c l (-> & Hwf & _ & HP). eexists. split; [done|]. split_and!; [done|by apply cursor_wf_next| |done].
    unfold here. destruct (cu_pend _); [apply not_elem_of_nil|done].
  - intros P d x p l (-> & _). done.
  - intros P d c l t (-> & Hwf & _ & HP) Ht _. eexists. split; [done|]. split_and!; [done|by apply cursor_wf_skipTo| |done].
    unfold here. destruct (cu_pend _); [apply not_elem_of_nil|done].
  - intros P d c x l (-> & Hwf & [Hx Hl]%not_elem_of_cons & HP). cbn. split; [done|]. eexists. split; [done|]. done.
  - intros P d c (-> & Hwf & Hl & HP). eexists. split; [done|]. done.
Defined.

(** ** The vector of readers, seen from the reader that comes next *)
Definition rot {A} (k : Z) (l : list A) : list A := drop (Z.to_nat (k mod vsize l)) l ++ take (Z.to_nat (k mod vsize l)) l.

Lemma rot_step {A} k (l : list A) s : vget l (k mod vsize l) = Ret s ->
  exists l', rot k l = s :: l' /\ forall s', rot (k + 1) (<[Z.to_nat (k mod vsize l) := s']> l) = l' ++ [s'].
Proof.
  intros [H0 H]%vget_Ret. pose proof (lookup_lt_Some _ _ _ H) as Hlt. set (n := vsize l) in *. set (i := Z.to_nat (k mod n)) in *.
  assert (0 < n) as Hn by (subst n; unfold vsize in *; lia). pose proof (Z.mod_pos_bound k n Hn).
  exists (drop (S i) l ++ take i l). unfold rot. fold n i. split; [by rewrite (drop_S _ _ _ H)|]. intros s'.
  assert (vsize (<[i := s']> l) = n) as -> by (unfold vsize; by rewrite length_insert).
  destruct (decide (k mod n = n - 1)) as [E|E].
  - replace ((k + 1) mod n) with 0.
    + cbn [Z.to_nat drop take]. rewrite app_nil_r. rewrite (insert_take_drop l i s') by done.
      rewrite (drop_ge l (S i)); [done|]. subst n i. unfold vsize in *. lia.
    + rewrite <- Zplus_mod_idemp_l, E. replace (n - 1 + 1) with n by lia. by rewrite Z_mod_same_full.
  - replace ((k + 1) mod n) with (k mod n + 1).
    + replace (Z.to_nat (k mod n + 1)) with (S i) by lia.
      rewrite drop_insert_lt, (take_S_r _ i s'), take_insert_ge by (lia || by apply list_lookup_insert_eq). by rewrite app_assoc.
    + rewrite <- Zplus_mod_idemp_l. symmetry. apply Z.mod_small. lia.
Qed.

Lemma rot_perm {A} k (l : list A) : rot k l ≡ₚ l.
Proof. unfold rot. rewrite Permutation_app_comm. by rewrite take_drop. Qed.

Lemma rot_Forall2 {A B} (R : A -> B -> Prop) k (l : list A) (m : list B) : length l = length m ->
  Forall2 R (rot k l) (rot k m) <-> Forall2 R l m.
Proof.
  intros Hlen. unfold rot, vsize. rewrite <- Hlen. set (i := Z.to_nat _).
  rewrite <- (take_drop i l) at 3. rewrite <- (take_drop i m) at 3.
  split; intros H; apply Forall2_app_inv in H as [H1 H2]; try (by apply Forall2_app);
    rewrite ?length_drop, ?length_take, Hlen; done.
Qed.

Section DoNext.
Context {D : Type} `{!DocIterator D, !TermPositions D, !TermPositionsSpec D}.
Notation ghost := ((Z -> list Z) * cursor)%type.

Definition g_rep (s : D) (g : ghost) : Prop := exists l, pos_rep g.1 s g.2 l.
Definition g_at (t : Z) (s : D) (g : ghost) : Prop := pos_rep g.1 s g.2 (g.1 t) /\ exists p, g.2 = Cursor false (t :: p).
Definition g_before (t : Z) (s : D) (g : ghost) : Prop := g_rep s g /\ before t g.2.
Definition in_all (gl : list ghost) (x : Z) : Prop := Forall (fun g => x ∈ cu_pend g.2) gl.

#[export] Instance in_all_perm : Proper ((≡ₚ) ==> eq ==> iff) in_all.
Proof. intros l l' H x y ->. unfold in_all. by rewrite H. Qed.

Lemma g_at_rep t s g : g_at t s g -> g_rep s g.
Proof. intros [H _]. by eexists. Qed.

Lemma g_at_before t t' s g : t < t' -> g_at t s g -> g_before t' s g.
Proof. intros Hlt [H (p & E)]. split; [by eexists|]. right. rewrite E. cbn. intros x q [= <- _]. done. Qed.

Lemma g_at_le t s g x : g_at t s g -> x ∈ cu_pend g.2 -> t <= x.
Proof.
  intros [H (p & E)] Hx. destruct (pos_rep_wf _ _ _ _ H) as [Hs _]. rewrite E in Hs, Hx. cbn in Hs, Hx. by apply (ssorted_head_le t p).
Qed.

(** One reader skips to [t]. *)
Lemma g_skip t s g : g_before t s g -> 0 <= t < MAX_DOC_ID -> exists r s' c, di_skipTo t s = Ret (r, s') /\
  cu_pend c = pend_from t (cu_pend g.2) /\ g_rep s' (g.1, c) /\
  (r = MAX_DOC_ID /\ cu_pend c = [] \/ (t <= r < MAX_DOC_ID /\ g_at r s' (g.1, c))).
Proof.
  intros [[l H] Hb] Ht. destruct (pos_skipTo_spec _ _ _ _ t H Ht Hb) as (s' & E & H').
  pose proof (pos_rep_wf _ _ _ _ H) as [_ Hbd]. exists (fst (cursor_skipTo t g.2)), s', (snd (cursor_skipTo t g.2)). split; [exact E|]. split; [done|]. split; [by eexists|].
  cbn in *. destruct (pend_from t (cu_pend g.2)) as [|x p] eqn:Ep; [by left|right]. cbn.
  destruct (pend_from_head _ _ _ _ Ep) as [Hx Htx]. specialize (Hbd x Hx). split; [lia|]. split; [done|]. by exists p.
Qed.

Definition ph_mu (n : Z) (G : list ghost * Z * Z * Z) : Z := let '(_, _, t, m) := G in (MAX_DOC_ID - t) * n + (n - m).

Definition ph_inv (n : Z) (A : Z -> Prop) (Ps : list (Z -> list Z)) (G : list ghost * Z * Z * Z) (st : list D * Z * Z * Z) : Prop :=
  let '(gl, start, t, m) := G in
  exists l, st = (l, start, t, m) /\ vsize l = n /\ map fst gl = Ps /\ 0 <= t < MAX_DOC_ID /\ 1 <= m <= n /\ n < 2 ^ 31 /\
    0 <= start /\ start + ph_mu n G < 2 ^ 64 /\ (forall x, A x <-> in_all gl x) /\
    exists todo done gtodo gdone, rot start l = todo ++ done /\ rot start gl = gtodo ++ gdone /\
      Forall2 (g_before t) todo gtodo /\ Forall2 (g_at t) done gdone /\ vsize done = m.

Definition ph_found (A : Z -> Prop) (Ps : list (Z -> list Z)) (r : option Z * list D) : Prop :=
  match r.1 with
  | None => forall x, ~ A x
  | Some t => exists gl, Forall2 (g_at t) r.2 gl /\ map fst gl = Ps /\ forall x, A x <-> in_all gl x
  end.

Lemma map_fst_insert (gl : list ghost) i P c c' : gl !! i = Some (P, c) -> map fst (<[i := (P, c')]> gl) = map fst gl.
Proof.
  intros H. rewrite list_fmap_insert. apply list_insert_id. by rewrite list_lookup_fmap, H.
Qed.

Lemma in_all_app gl gl' x : in_all (gl ++ gl') x <-> in_all gl x /\ in_all gl' x.
Proof. unfold in_all. by rewrite Forall_app. Qed.

Lemma in_all_cons g gl x : in_all (g :: gl) x <-> x ∈ cu_pend g.2 /\ in_all gl x.
Proof. unfold in_all. by rewrite Forall_cons. Qed.

Lemma in_all_one g x : in_all [g] x <-> x ∈ cu_pend g.2.
Proof. rewrite in_all_cons. unfold in_all. rewrite Forall_nil. tauto. Qed.

Lemma in_all_done t done gdone x : Forall2 (g_at t) done gdone -> done <> [] -> in_all gdone x -> t <= x.
Proof.
  intros H Hne Hx. destruct H as [|s g done gdone Hg _]; [done|]. apply in_all_cons in Hx as [Hx _]. by eapply g_at_le.
Qed.

Lemma ph_match_step n A Ps G st : ph_inv n A Ps G st -> 0 <= ph_mu n G /\
  ((exists G' st', ph_match_body st = Ret (inl st') /\ ph_inv n A Ps G' st' /\ ph_mu n G' < ph_mu n G) \/
   (exists r, ph_match_body st = Ret (inr r) /\ ph_found A Ps r)).
Proof.
  destruct G as [[[gl start] t] m].
  intros (l & -> & Hn & Hfst & Ht & Hm & Hn31 & H0 & Hmu & HA & todo & don & gtodo & gdon & El & Eg & Htodo & Hdon & Hlen).
  cbn [ph_mu] in *. split; [nia|]. cbn [ph_match_body]. rewrite Hn.
  assert (length l = length gl) as Hll.
  { rewrite <- (Permutation_length (rot_perm start l)), <- (Permutation_length (rot_perm start gl)), El, Eg, !length_app.
    by rewrite (Forall2_length _ _ _ Htodo), (Forall2_length _ _ _ Hdon). }
  assert (don <> []) as Hdne by (intros ->; unfold vsize in Hlen; cbn in Hlen; lia).
  destruct (Z.ltb_spec m n).
  - destruct todo as [|s todo].
    { exfalso. assert (vsize (rot start l) = n) as E by (unfold vsize in *; by rewrite (Permutation_length (rot_perm start l))).
      rewrite El in E. cbn in E. lia. }
    destruct gtodo as [|g gtodo]; [by inversion Htodo|]. apply Forall2_cons in Htodo as [Hg Htodo].
    set (i := start mod n). pose proof (Z.mod_pos_bound start n ltac:(lia)) as Hi. fold i in Hi.
    destruct (vget_in_range l i ltac:(lia)) as [s0 Hs]. destruct (vget_in_range gl i) as [g0 Hg0]; [unfold vsize in *; lia|].
    assert (vsize gl = n) as Hngl by (unfold vsize in *; lia).
    destruct (rot_step start l s0) as (tl & Er & Hrot); [by rewrite Hn|].
    destruct (rot_step start gl g0) as (gtl & Erg & Hrotg); [by rewrite Hngl|].
    rewrite Hn in Hrot. rewrite Hngl in Hrotg. fold i in Hrot, Hrotg.
    rewrite El in Er. injection Er as <- <-. rewrite Eg in Erg. injection Erg as <- <-.
    rewrite Hs. rsimpl. destruct (g_skip t s g Hg Ht) as (r & s' & c & -> & Ec & Hrep & Hr). rsimpl.
    assert (0 <= i < vsize l) as Hil by lia. rewrite (vset_Ret l i s' Hil). rsimpl.
    assert (forall x, A x <-> x ∈ cu_pend c /\ in_all (gtodo ++ gdon) x) as HA'.
    { intros x. rewrite HA, <- (rot_perm start gl), Eg. cbn [app]. rewrite in_all_cons, Ec, pend_from_elem. split; [|tauto].
      intros [Hx Hall]. split_and!; [done| |done]. apply in_all_app in Hall as [_ Hall]. by eapply in_all_done. }
    destruct Hr as [[-> Hnil]|[Hr Hat]].
    + right. cbn [Z.eqb orb]. eexists. split; [done|]. intros x [Hx _]%HA'. rewrite Hnil in Hx. by apply elem_of_nil in Hx.
    + left. destruct (Z.eqb_spec MAX_DOC_ID r); [lia|]. destruct (Z.ltb_spec r t); [lia|]. cbn [orb].
      rewrite u64_small by nia.
      assert (map fst (<[Z.to_nat i := (g.1, c)]> gl) = Ps) as Hfst'.
      { rewrite <- Hfst. destruct g as [P cg]. eapply map_fst_insert. by apply vget_Ret in Hg0 as [_ ->]. }
      assert (vsize (<[Z.to_nat i := s']> l) = n) as Hn' by (unfold vsize in *; by rewrite length_insert).
      assert (forall x, A x <-> in_all (<[Z.to_nat i := (g.1, c)]> gl) x) as HA2.
      { intros x. rewrite HA', <- (rot_perm (start + 1) (<[Z.to_nat i := (g.1, c)]> gl)), Hrotg, (in_all_app _ [_]), in_all_one. cbn [snd]. tauto. }
      destruct (Z.eqb_spec r t) as [->|Hne].
      * eexists (<[Z.to_nat i := (g.1, c)]> gl, start + 1, t, m + 1), _. split; [done|]. split; [|cbn; lia].
        eexists. split; [done|]. cbn [ph_mu]. split_and!; [done|done|lia..|done|].
        exists todo, (don ++ [s']), gtodo, (gdon ++ [(g.1, c)]). split_and!; [by rewrite Hrot, <- app_assoc|by rewrite Hrotg, <- app_assoc|done| |].
        -- apply Forall2_app; [done|]. by constructor.
        -- rewrite vsize_app, Hlen. done.
      * eexists (<[Z.to_nat i := (g.1, c)]> gl, start + 1, r, 1), _. split; [done|]. split; [|cbn; nia].
        eexists. split; [done|]. cbn [ph_mu]. split_and!; [done|done|lia..|nia|done|].
        exists (todo ++ don), [s'], (gtodo ++ gdon), [(g.1, c)]. split_and!; [done|done| |by constructor|done].
        apply Forall2_app.
        -- eapply Forall2_impl; [exact Htodo|]. intros x y [Hx1 Hx2]. split; [done|]. destruct Hx2 as [|Hx2]; [by left|right].
           intros z p Hz. specialize (Hx2 z p Hz). lia.
        -- eapply Forall2_impl; [exact Hdon|]. intros x y. apply g_at_before. lia.
  - right. eexists. split; [done|]. exists gl. assert (m = n) as -> by lia. split_and!; [|done|done].
    assert (todo = []) as ->.
    { assert (vsize (rot start l) = n) as E by (rewrite <- Hn; unfold vsize; by rewrite (Permutation_length (rot_perm start l))).
      rewrite El, vsize_app in E. destruct todo; [done|]. rewrite vsize_cons in E. pose proof (vsize_nonneg todo). lia. }
    apply Forall2_nil_inv_l in Htodo as ->. cbn [app] in El, Eg. apply (proj1 (rot_Forall2 (g_at t) start l gl Hll)). by rewrite El, Eg.
Qed.

(** Between two calls: no reader was moved, or all are at one document. *)
Definition g_started (o : option Z) (s : D) (g : ghost) : Prop :=
  g_rep s g /\ match o with None => cu_fresh g.2 = true | Some d => exists p, g.2 = Cursor false (d :: p) end.

Definition to_come (gl : list ghost) (x : Z) : Prop := Forall (fun g => x ∈ pend_after_next g.2) gl.

Lemma g_started_next o s g d x : g_started o s g -> match o with None => True | Some cur => cur < d end -> d <= x ->
  g_before d s g /\ (x ∈ pend_after_next g.2 <-> x ∈ cu_pend g.2).
Proof.
  intros [Hr Ho] Hd Hx. destruct o as [cur|].
  - destruct Ho as (p & E). split; [split; [done|]; right; rewrite E; cbn; by intros z q [= <- _]|].
    rewrite E. cbn. rewrite elem_of_cons. split; [tauto|]. intros [->|?]; [lia|done].
  - split; [split; [done|by left]|]. unfold pend_after_next. by rewrite Ho.
Qed.

Lemma rot_1 {A} (a : A) l : rot 1 (a :: l) = l ++ [a].
Proof.
  unfold rot. rewrite vsize_cons. destruct l as [|b l]; [done|].
  rewrite Z.mod_small; [done|]. rewrite vsize_cons. pose proof (vsize_nonneg l). lia.
Qed.

Lemma ph_do_next_spec o l gl cur : l <> [] -> vsize l < 2 ^ 31 -> Forall2 (g_started o) l gl ->
  exists b l' d, ph_do_next l cur = Ret (b, l', d) /\
    if b then exists gl', Forall2 (g_at d) l' gl' /\ map fst gl' = map fst gl /\ forall x, to_come gl x <-> in_all gl' x
    else forall x, ~ to_come gl x.
Proof.
  intros Hne Hsz H. destruct H as [|s g l gl [[left Hg] Ho] H]; [done|]. unfold ph_do_next. change (vget (s :: l) 0) with (Ret s). cbn [res_bind].
  destruct (pos_next_spec _ _ _ _ Hg) as (s' & -> & Hs'). pose proof (pos_rep_wf _ _ _ _ Hg) as [Hsort _].
  cbn [res_bind]. rewrite vset_Ret by (rewrite vsize_cons; pose proof (vsize_nonneg l); lia). change (<[Z.to_nat 0 := s']> (s :: l)) with (s' :: l). cbn [res_bind].
  pose proof (pos_rep_wf _ _ _ _ Hs') as [Hsort' Hb']. cbn [cursor_next fst snd cu_pend] in *.
  destruct (pend_after_next g.2) as [|d p] eqn:Ep.
  { rewrite bool_decide_eq_true_2 by done. eexists false, _, _. split; [done|]. intros x Hx. apply Forall_cons in Hx as [Hx _]. rewrite Ep in Hx. by apply elem_of_nil in Hx. }
  cbn [res_bind]. rewrite bool_decide_eq_false_2 by done. cbn [negb]. rewrite (pos_doc_spec _ _ _ _ _ Hs'). cbn [here cu_pend] in Hs'.
  assert (match o with None => True | Some cur => cur < d end) as Hd.
  { destruct o as [c0|]; [|done]. destruct Ho as (q & E). rewrite E in Ep, Hsort. cbn in Ep, Hsort. subst q.
    apply (ssorted_head_lt _ _ _ Hsort). by left. }
  assert (0 <= d < MAX_DOC_ID) as Hdr by (apply Hb'; by left).
  assert (1 <= vsize (s' :: l)) as H1 by (rewrite vsize_cons; pose proof (vsize_nonneg l); lia).
  assert (vsize (s' :: l) < 2 ^ 31) as H31 by (rewrite vsize_cons in *; done).
  assert (forall x, to_come (g :: gl) x <-> in_all ((g.1, Cursor false (d :: p)) :: gl) x) as HA.
  { intros x. unfold to_come. rewrite Forall_cons, in_all_cons, Ep. cbn [snd cu_pend].
    enough (x ∈ d :: p -> Forall (fun g => x ∈ pend_after_next g.2) gl <-> in_all gl x) by tauto.
    intros Hx. pose proof (ssorted_head_le _ _ _ Hsort' Hx) as Hle. clear -H Hd Hle. unfold in_all.
    induction H as [|s g l gl Hg _ IH]; [by rewrite !Forall_nil|]. rewrite !Forall_cons, IH.
    by rewrite (proj2 (g_started_next o s g d x Hg Hd Hle)). }
  destruct (while_loop_rule ph_match_body (ph_inv (vsize (s' :: l)) (to_come (g :: gl)) (map fst (g :: gl))) (ph_mu (vsize (s' :: l)))
    (ph_found (to_come (g :: gl)) (map fst (g :: gl)))) with (g := ((g.1, Cursor false (d :: p)) :: gl, 1, d, 1)) (s := (s' :: l, 1, d, 1))
    as ([r l'] & -> & Hr).
  - intros G st. apply ph_match_step.
  - exists (s' :: l). cbn [ph_mu]. split_and!; [done..|lia|lia|lia|lia|lia|lia| |exact HA|].
    + unfold MAX_DOC_ID in *. nia.
    + exists l, [s'], gl, [(g.1, Cursor false (d :: p))]. rewrite !rot_1. split_and!; [done|done| | |done].
      * eapply Forall2_impl; [exact H|]. intros s1 g1 Hg1. by apply (g_started_next o s1 g1 d d).
      * constructor; [|constructor]. split; [done|]. by exists p.
  - cbn [ph_mu]. unfold MAX_DOC_ID, loop_fuel in *. nia.
  - cbn [res_bind]. destruct r as [t|]; cbn [ph_found fst snd] in Hr.
    + destruct Hr as (gl' & H2 & Hf & HA'). exists true, l', t. split; [done|]. exists gl'. done.
    + exists false, l', MAX_DOC_ID. done.
Qed.

(** *** Reading the positions *)
Lemma read_positions_spec P d c l : pos_rep P d c l -> positions l -> exists d', read_positions d = Ret (l, d') /\ pos_rep P d' c [].
Proof.
  intros H Hpos. unfold read_positions.
  edestruct (while_loop_rule read_body (fun k st => pos_rep P st.1 c k /\ st.2 ++ k = l) vsize (fun r => r.1 = l /\ pos_rep P r.2 c []))
    with (g := l) as ([r d'] & -> & Hr); [| | |exists d'; cbn in Hr; destruct Hr as [-> Hr]; done].
  - intros k [s acc] [Hs E]; cbn [fst snd] in *. split; [apply vsize_nonneg|]. unfold read_body. destruct k as [|x k].
    + destruct (pos_read_end _ _ _ Hs) as (s' & -> & Hs'). rsimpl. rewrite Z.eqb_refl. right. eexists. split; [done|]. cbn.
      by rewrite app_nil_r in E.
    + destruct (pos_read _ _ _ _ _ Hs) as (Hne & s' & -> & Hs'). rsimpl. destruct (Z.eqb_spec x BAD_POSITION); [done|].
      left. eexists k, _. split; [done|]. cbn. rewrite vsize_cons. split; [|lia]. split; [done|]. by rewrite <- app_assoc.
  - done.
  - pose proof (positions_size l Hpos). unfold loop_fuel. lia.
Qed.

Lemma read_all_spec exact t l gl offsets : Forall2 (g_at t) l gl -> length offsets = length l ->
  Forall (fun g => positions (g.1 t) /\ g.1 t <> []) gl -> exists l' ,
  read_all exact l offsets = Ret (true, l', map (fun g => g.1 t) gl) /\ Forall2 (g_started (Some t)) l' gl.
Proof.
  intros H. revert offsets. induction H as [|d g l gl [Hr Hp] H IH]; intros [|o offsets] Hlen Hg; cbn in Hlen; try done.
  { by exists []. }
  apply Forall_cons in Hg as [[Hpos Hne] Hg]. cbn [read_all].
  destruct (read_positions_spec _ _ _ _ Hr Hpos) as (d' & -> & Hr'). cbn [res_bind].
  replace (is_nil (g.1 t)) with false by (destruct (g.1 t); done). rewrite andb_false_r.
  destruct (IH offsets ltac:(lia) Hg) as (l' & -> & Hl'). cbn [res_bind]. eexists. split; [done|]. constructor; [|done].
  split; [by eexists|done].
Qed.
End DoNext.

(** ** The test of a subclass, and what it means *)
Definition kind_ok (kind : phrase_kind) (offsets : list (list Z)) : Prop :=
  match kind with
  | PExact | POrdered => True
  | PNearby range => 0 <= range /\ Forall (in_reach range) offsets
  | PWildcard mask cnt => length mask = S (length offsets) /\ length cnt = S (length offsets)
  end.

(** The positions of the terms in a document that holds all of them. *)
Definition test_ok (kind : phrase_kind) (offsets : list (list Z)) : Prop :=
  offsets <> [] /\ vsize offsets < 2 ^ 31 /\ Forall (fun o => positions o /\ o <> []) offsets /\ kind_ok kind offsets.

Definition test (kind : phrase_kind) (offsets : list (list Z)) : bool :=
  match positions_match kind offsets with Ret b => b | _ => false end.

Definition phrase_matches (kind : phrase_kind) (offsets : list (list Z)) : Prop :=
  match kind with
  | PExact => phrase next_to offsets
  | POrdered => phrase Z.le offsets
  | PNearby range => phrase (near range) offsets
  | PWildcard mask cnt => wild_phrase (wild_terms mask cnt offsets)
  end.

(** The exact test misses a phrase only where two terms share a position. *)
Definition test_complete (kind : phrase_kind) (offsets : list (list Z)) : Prop :=
  match kind, offsets with PExact, o :: offsets => apart o offsets | _, _ => True end.

Lemma test_spec kind offsets : test_ok kind offsets ->
  positions_match kind offsets = Ret (test kind offsets) /\
  (test kind offsets = true -> phrase_matches kind offsets) /\
  (test_complete kind offsets -> phrase_matches kind offsets -> test kind offsets = true).
Proof.
  intros (Hne & Hsz & Hall & Hk). assert (Forall positions offsets) as Hpos by (eapply Forall_impl; [exact Hall|]; by intros o []).
  destruct offsets as [|o offsets]; [done|]. apply Forall_cons in Hall as [[Ho Hone] Hall]. unfold test.
  assert (forall r P, positions_match kind (o :: offsets) = Ret r -> (r = true -> P) /\ (test_complete kind (o :: offsets) -> P -> r = true) ->
    positions_match kind (o :: offsets) = Ret (match positions_match kind (o :: offsets) with Ret b => b | _ => false end) /\
    (match positions_match kind (o :: offsets) with Ret b => b | _ => false end = true -> P) /\
    (test_complete kind (o :: offsets) -> P -> match positions_match kind (o :: offsets) with Ret b => b | _ => false end = true)) as Hr.
  { by intros r P -> ?. }
  destruct kind as [| |range|mask cnt]; cbn [positions_match test_complete phrase_matches kind_ok] in *.
  - destruct (exact_match_spec o offsets Hone Hpos) as (r & E & H1 & H2). by apply (Hr r).
  - destruct (ordered_match_spec o offsets Hone Hpos) as (r & E & H). apply (Hr r); [done|]. tauto.
  - destruct Hk as [H0 Hreach]. destruct (nearby_match_spec range H0 o offsets Hpos Hreach) as (r & E & H). apply (Hr r); [done|]. tauto.
  - destruct (wild_match_spec (wild_terms mask cnt (o :: offsets))) as (r & E & H).
    + destruct mask, cnt; cbn in Hk; try lia. done.
    + unfold wild_terms, vsize in *. rewrite length_zip_with. lia.
    + unfold wild_terms. clear -Hpos. generalize (zip mask cnt). generalize dependent (o :: offsets). clear o offsets.
      induction 1 as [|o l Ho _ IH]; intros [|p q]; cbn; constructor; [done|apply IH].
    + apply (Hr r); [done|]. tauto.
Qed.

(** ** The iterator enumerates the documents that hold the phrase *)
Section PhraseSpec.
Context {D : Type} `{!DocIterator D, !TermPositions D, !TermPositionsSpec D}.
Context (getTermReader : option (string -> Z -> option D)).
Notation iter := (phrase_iter D).
Notation ghost := ((Z -> list Z) * cursor)%type.

Definition offsets_in (gl : list ghost) (x : Z) : list (list Z) := map (fun g => g.1 x) gl.

(** The terms are read; [o] is the current document, if there is one. *)
Definition ph_live (it : iter) (o : option Z) (gl : list ghost) (p : list Z) : Prop :=
  Forall2 (g_started o) (termDocReaders_ it) gl /\ length (offsets_ it) = length (termDocReaders_ it) /\
  (forall x, to_come gl x -> test_ok (kind_ it) (offsets_in gl x)) /\
  (forall x, x ∈ p <-> to_come gl x /\ test (kind_ it) (offsets_in gl x) = true).

Definition ph_state (it : iter) (o : option Z) (p : list Z) : Prop :=
  inited_ it = true /\ (if ph_hasNext_ it then termDocReaders_ it <> [] /\ vsize (termDocReaders_ it) < 2 ^ 31 /\ exists gl, ph_live it o gl p else p = []).

Definition ph_rep (it : iter) (c : cursor) : Prop :=
  cursor_wf c /\
  if cu_fresh c then ph_state (ensure_init getTermReader it) None (cu_pend c)
  else match cu_pend c with
       | [] => ph_state it None []
       | d :: p => ph_currDoc_ it = d /\ ph_hasNext_ it = true /\ ph_state it (Some d) p
       end.

Lemma to_come_started gl d l x : Forall2 (g_started (Some d)) l gl -> to_come gl x <-> in_all gl x /\ (x <> d \/ gl = []).
Proof.
  induction 1 as [|s g l gl [[k Hr] (p & E)] _ IH]; unfold to_come, in_all in *; [rewrite !Forall_nil; naive_solver|].
  rewrite !Forall_cons, IH, E. cbn. rewrite elem_of_cons. pose proof (pos_rep_wf _ _ _ _ Hr) as [Hs _]. rewrite E in Hs. cbn in Hs.
  split.
  - intros (Hx & Hall & _). pose proof (ssorted_head_lt _ _ _ Hs Hx). split; [split; [by right|done]|left; lia].
  - intros ([Hx Hall] & Hne). assert (x <> d) by naive_solver. split; [naive_solver|]. split; [done|by left].
Qed.

Lemma g_at_started t l gl : Forall2 (g_at t) l gl -> Forall2 (g_started (Some t)) l gl.
Proof. intros H. eapply Forall2_impl; [exact H|]. intros s g [Hr Hp]. split; [by eexists|done]. Qed.

Definition last_doc (o : option Z) : Z := default (-1) o.

Lemma ph_next_step R (g : option Z) it : ssorted R -> (forall x, x ∈ R -> 0 <= x < MAX_DOC_ID) ->
  ph_state it g R /\ -1 <= last_doc g < MAX_DOC_ID ->
  0 <= MAX_DOC_ID - last_doc g + (if ph_hasNext_ it then 1 else 0) /\
  ((exists g' it', ph_next_body it = Ret (inl it') /\ (ph_state it' g' R /\ -1 <= last_doc g' < MAX_DOC_ID) /\
      MAX_DOC_ID - last_doc g' + (if ph_hasNext_ it' then 1 else 0) < MAX_DOC_ID - last_doc g + (if ph_hasNext_ it then 1 else 0)) \/
   (exists r, ph_next_body it = Ret (inr r) /\ r.1 = negb (bool_decide (R = [])) /\ ph_rep r.2 (Cursor false R))).
Proof.
  intros HsR HbR [[Hin Hst] Hg]. split; [destruct (ph_hasNext_ it); lia|]. unfold ph_next_body. destruct (ph_hasNext_ it) eqn:Eh; cbn [negb].
  2: { right. eexists. split; [done|]. subst R. split; [done|]. split; [apply cursor_wf_nil|]. cbn. split; [done|]. by rewrite Eh. }
  destruct Hst as (Hne & Hsz & gl & Hl & Hlen & Hok & HR).
  destruct (ph_do_next_spec g (termDocReaders_ it) gl (ph_currDoc_ it) Hne Hsz Hl) as (b & l' & d & -> & Hb). cbn [res_bind].
  destruct b; cbn [negb].
  2: { left. eexists g, _. split; [done|]. cbn [ph_hasNext_]. split; [|lia]. split; [|done]. split; [done|]. cbn.
       destruct R as [|x R]; [done|]. destruct (proj1 (HR x) ltac:(by left)) as [Hx _]. by apply Hb in Hx. }
  destruct Hb as (gl' & Hat & Hfst & Hto). pose proof (Forall2_length _ _ _ Hl) as Hll. pose proof (Forall2_length _ _ _ Hat) as Hll'.
  assert (forall x, offsets_in gl' x = offsets_in gl x) as Hoff.
  { intros x. unfold offsets_in. rewrite <- (map_map fst (fun P => P x) gl'), <- (map_map fst (fun P => P x) gl). by rewrite Hfst. }
  assert (length gl' = length gl) as Hgg by (rewrite <- (length_map fst gl'), <- (length_map fst gl); by rewrite Hfst).
  assert (termDocReaders_ it <> [] -> gl' <> []) as Hgne by (intros Hd ->; destruct (termDocReaders_ it); [done|cbn in *; lia]).
  assert (in_all gl' d) as Hd.
  { clear -Hat. induction Hat as [|s g l gl [_ (p & E)] _ IH]; [constructor|]. constructor; [|done]. rewrite E. by left. }
  assert (to_come gl d) as Hdt by by apply Hto. pose proof (Hok d Hdt) as Hokd. pose proof Hokd as (_ & _ & Hall & _).
  assert (0 <= d < MAX_DOC_ID /\ last_doc g < d) as [Hdr Hdg].
  { destruct Hl as [|s g0 l gl0 [[k Hr] Ho] _]; [done|]. apply Forall_cons in Hdt as [Hd0 _].
    pose proof (cursor_wf_next _ (pos_rep_wf _ _ _ _ Hr)) as [_ Hbd]. specialize (Hbd d Hd0). split; [lia|].
    destruct g as [e|]; cbn; [|lia]. destruct Ho as (p & E). pose proof (pos_rep_wf _ _ _ _ Hr) as [Hs _]. rewrite E in Hs, Hd0. cbn in Hs, Hd0.
    by apply (ssorted_head_lt e p). }
  unfold isQualified. destruct (read_all_spec (is_exact (kind_ it)) d l' gl' (offsets_ it) Hat) as (l2 & -> & Hl2); [lia| |].
  { rewrite Hfst || idtac. rewrite <- (Hoff d) in Hall. unfold offsets_in in Hall. by rewrite Forall_map in Hall. }
  cbn [res_bind]. fold (offsets_in gl' d). rewrite Hoff. destruct (test_spec _ _ Hokd) as (-> & _). cbn [res_bind].
  pose proof (Forall2_length _ _ _ Hl2) as Hll2.
  assert (forall x, to_come gl' x <-> to_come gl x /\ x <> d) as Hto'.
  { intros x. rewrite (to_come_started gl' d l' x (g_at_started _ _ _ Hat)), Hto. specialize (Hgne Hne). naive_solver. }
  assert (forall p kind, kind = kind_ it -> (forall x, x ∈ p <-> x ∈ R /\ x <> d) ->
    ph_state (PhraseIter kind (termids_ it) (property_ it) (inited_ it) true l2 d (offsets_in gl d)) (Some d) p) as Hst'.
  { intros p kind -> Hp. split; [done|]. cbn. split; [intros ->; specialize (Hgne Hne); destruct gl'; [done|cbn in Hll2; lia]|].
    split; [unfold vsize in *; lia|]. exists gl'. split_and!; [done|cbn; unfold offsets_in; rewrite length_map; lia| |].
    - intros x Hx. rewrite Hoff. by apply Hok, Hto'.
    - intros x. cbn [kind_]. rewrite Hp, HR, Hto', Hoff. tauto. }
  assert (forall x, x ∈ R -> d <= x) as Hleast.
  { intros x [Hx _]%HR. apply Hto in Hx. apply (in_all_done d l' gl' x Hat); [|done].
    intros ->. specialize (Hgne Hne). destruct gl'; [done|]. cbn in Hll'. lia. }
  destruct (test (kind_ it) (offsets_in gl d)) eqn:Et.
  - right. eexists. split; [done|]. cbn [fst snd]. assert (d ∈ R) as HdR by by apply HR.
    destruct R as [|e R]; [by apply elem_of_nil in HdR|]. assert (e = d) as ->.
    { pose proof (Hleast e ltac:(by left)). pose proof (ssorted_head_le _ _ _ HsR HdR). lia. }
    split; [done|]. split; [by split|]. cbn [cu_fresh cu_pend]. split_and!; [done|done|]. apply Hst'; [done|]. intros x.
    rewrite elem_of_cons. split; [|naive_solver]. intros Hx. pose proof (ssorted_head_lt _ _ _ HsR Hx). split; [by right|lia].
  - left. eexists (Some d), _. split; [done|]. cbn [ph_hasNext_ last_doc default from_option id] in *. split; [|lia]. split; [|lia].
    apply Hst'; [done|]. intros x. split; [|tauto]. intros Hx. split; [done|]. intros ->. apply HR in Hx as [_ Hx]. congruence.
Qed.

Lemma ph_state_after it c : ph_rep it c -> ph_state (ensure_init getTermReader it)
  (if cu_fresh c then None else match cu_pend c with [] => None | d :: _ => Some d end) (pend_after_next c).
Proof.
  intros [_ H]. unfold pend_after_next. destruct (cu_fresh c); [done|]. destruct (cu_pend c) as [|d p].
  - unfold ensure_init. by rewrite (proj1 H).
  - destruct H as (_ & _ & H). unfold ensure_init. by rewrite (proj1 H).
Qed.

Lemma ph_next_spec it c : ph_rep it c -> exists it', ph_next getTermReader it = Ret (fst (cursor_next c), it') /\ ph_rep it' (snd (cursor_next c)).
Proof.
  intros H. pose proof (cursor_wf_next c (proj1 H)) as [Hs Hb]. cbn [cursor_next snd cu_pend] in Hs, Hb.
  pose proof (ph_state_after it c H) as Hst. unfold ph_next, cursor_next. cbn [fst snd].
  set (o := if cu_fresh c then None else match cu_pend c with [] => None | d :: _ => Some d end) in *.
  assert (-1 <= last_doc o < MAX_DOC_ID) as Ho.
  { unfold o. destruct H as [[_ Hbd] _]. destruct (cu_fresh c); [done|]. destruct (cu_pend c) as [|d p]; [done|]. cbn.
    specialize (Hbd d ltac:(by left)). lia. }
  destruct (while_loop_rule ph_next_body (fun (p : option Z * bool) it => ph_hasNext_ it = p.2 /\ (ph_state it p.1 (pend_after_next c) /\ -1 <= last_doc p.1 < MAX_DOC_ID))
    (fun p => MAX_DOC_ID - last_doc p.1 + (if p.2 then 1 else 0)) (fun r => r.1 = negb (bool_decide (pend_after_next c = [])) /\ ph_rep r.2 (Cursor false (pend_after_next c))))
    with (g := (o, ph_hasNext_ (ensure_init getTermReader it))) (s := ensure_init getTermReader it) as ([b it'] & -> & Hr).
  - intros [g h] it1 [Eh Hit]; cbn [fst snd] in *. subst h. destruct (ph_next_step (pend_after_next c) g it1 Hs Hb Hit) as [Hpos [(g' & it' & E & Hst' & Hlt)|Hd]].
    + split; [done|]. left. exists (g', ph_hasNext_ it'), it'. done.
    + split; [done|]. by right.
  - done.
  - cbn [fst snd]. unfold MAX_DOC_ID, loop_fuel in *. destruct (ph_hasNext_ _); lia.
  - cbn [fst snd] in Hr. destruct Hr as [-> Hr]. eauto.
Qed.

Definition phrase_DocNextSpec : @DocNextSpec iter (phrase_ops getTermReader).
Proof.
  refine {| di_rep := ph_rep : iter -> cursor -> Prop |}.
  - by intros it c [H _].
  - apply ph_next_spec.
  - intros it d p [_ H]. cbn in H |- *. apply H.
Defined.
End PhraseSpec.

(** ** From the terms of a query *)
Section PhraseDocs.
Context (postings : Z -> list Z) (term_positions : Z -> Z -> list Z).

Definition offsets_at (termids : list Z) (x : Z) : list (list Z) := map (fun id => term_positions id x) termids.

(** The documents with all terms that pass the test. *)
Definition phrase_docs (kind : phrase_kind) (termids : list Z) : list Z :=
  match termids with
  | [] => []
  | id :: rest => filter (fun x => Forall (fun id => x ∈ postings id) rest /\ test kind (offsets_at termids x) = true) (postings id)
  end.

Lemma phrase_docs_elem kind termids x : termids <> [] ->
  x ∈ phrase_docs kind termids <-> Forall (fun id => x ∈ postings id) termids /\ test kind (offsets_at termids x) = true.
Proof.
  destruct termids as [|id rest]; [done|]. intros _. cbn [phrase_docs]. rewrite list_elem_of_filter, Forall_cons. tauto.
Qed.

End PhraseDocs.

Section PhraseTop.
Context {D : Type} `{!DocIterator D, !TermPositions D, !TermPositionsSpec D}.
Context (reader : string -> Z -> option D) (property : string) (postings : Z -> list Z) (term_positions : Z -> Z -> list Z).

(** What the index finds of a term. *)
Definition seek_ok : Prop := forall id, match reader property id with
  | Some d => exists l, pos_rep (term_positions id) d (Cursor true (postings id)) l
  | None => postings id = []
  end.

Notation offsets_at := (offsets_at term_positions).
Notation phrase_docs := (phrase_docs postings term_positions).

Hypothesis Hseek : seek_ok.

Lemma seek_all_spec termids b l : seek_all (reader property) termids = (b, l) ->
  if b then Forall2 (g_started None) l (map (fun id => (term_positions id, Cursor true (postings id))) termids)
  else exists id, id ∈ termids /\ postings id = [].
Proof.
  revert b l. induction termids as [|id termids IH]; intros b l; cbn [seek_all map]; [by intros [= <- <-]|].
  pose proof (Hseek id) as Hid. destruct (reader property id) as [d|].
  - destruct (seek_all (reader property) termids) as [b' l'] eqn:E. intros [= <- <-]. specialize (IH _ _ eq_refl). destruct b'.
    + constructor; [|done]. split; done.
    + destruct IH as (id' & Hid' & E'). exists id'. split; [by right|done].
  - intros [= <- <-]. exists id. split; [by left|done].
Qed.

Lemma phrase_fresh_rep kind termids junk : vsize termids < 2 ^ 31 ->
  (forall id, cursor_wf (Cursor true (postings id))) ->
  (forall x, Forall (fun id => x ∈ postings id) termids -> test_ok kind (offsets_at termids x)) ->
  ph_rep (Some reader) (PhraseDocumentIterator kind termids property junk : phrase_iter D) (Cursor true (phrase_docs kind termids)).
Proof.
  intros Hsz Hwf Hok. split.
  - destruct termids as [|id termids]; [apply cursor_wf_nil|]. destruct (Hwf id) as [Hs Hb]. cbn in Hs, Hb. split; cbn; [by apply ssorted_filter|].
    intros d [_ Hd]%list_elem_of_filter. by apply Hb.
  - cbn [cu_fresh cu_pend]. unfold ensure_init, ph_init. cbn [inited_ PhraseDocumentIterator termids_ property_].
    destruct termids as [|id termids]; [done|]. set (ids := id :: termids) in *.
    destruct (seek_all (reader property) ids) as [b l] eqn:E. pose proof (seek_all_spec _ _ _ E) as H. split; [done|]. cbn [ph_hasNext_ termDocReaders_]. destruct b.
    + pose proof (Forall2_length _ _ _ H) as Hlen. rewrite length_map in Hlen. split; [intros ->; done|].
      split; [unfold vsize in *; lia|].
      exists (map (fun id => (term_positions id, Cursor true (postings id))) ids). unfold ph_live. cbn [termDocReaders_ kind_ offsets_ PhraseDocumentIterator].
      assert (forall x, to_come (map (fun id => (term_positions id, Cursor true (postings id))) ids) x <-> Forall (fun id => x ∈ postings id) ids) as Hto.
      { intros x. unfold to_come. by rewrite Forall_map. }
      assert (forall x, offsets_in (map (fun id => (term_positions id, Cursor true (postings id))) ids) x = offsets_at ids x) as Hoff.
      { intros x. unfold offsets_in, offsets_at. by rewrite map_map. }
      split_and!; [done|..].
      * unfold vresize, vsize. rewrite length_app, length_take, length_replicate. cbn. lia.
      * intros x Hx. rewrite Hoff. by apply Hok, Hto.
      * intros x. rewrite Hto, Hoff. by apply phrase_docs_elem.
    + destruct H as (id' & Hid & Ep). destruct (phrase_docs kind ids) as [|x p] eqn:Ed; [done|].
      assert (x ∈ phrase_docs kind ids) as Hx by (rewrite Ed; by left). apply phrase_docs_elem in Hx as [Hx _]; [|done].
      rewrite Forall_forall in Hx. specialize (Hx id' Hid). rewrite Ep in Hx. by apply elem_of_nil in Hx.
Qed.

(** C13: an iterator of a phrase, read to its end, returns in order the documents
    that hold every term and in which the positions pass the test of its kind:
    these documents hold the phrase, and every document that holds it is
    returned. The exact test needs that no two consecutive terms share a
    position. *)
Theorem phrase_documents kind termids junk : termids <> [] -> vsize termids < 2 ^ 31 ->
  (forall id, cursor_wf (Cursor true (postings id))) ->
  (forall x, Forall (fun id => x ∈ postings id) termids -> test_ok kind (offsets_at termids x)) ->
  exists ds, drain (DocIterator0 := phrase_ops (Some reader)) (PhraseDocumentIterator kind termids property junk : phrase_iter D) = Ret ds /\
    ssorted ds /\
    forall x, (x ∈ ds -> Forall (fun id => x ∈ postings id) termids /\ phrase_matches kind (offsets_at termids x)) /\
      (Forall (fun id => x ∈ postings id) termids -> test_complete kind (offsets_at termids x) ->
       phrase_matches kind (offsets_at termids x) -> x ∈ ds).
Proof.
  intros Hne Hsz Hwf Hok. exists (phrase_docs kind termids). pose proof (phrase_fresh_rep kind termids junk Hsz Hwf Hok) as Hr. split_and!.
  - apply (drain_spec (DocIterator0 := phrase_ops (Some reader)) (DocNextSpec0 := phrase_DocNextSpec (Some reader))
      (PhraseDocumentIterator kind termids property junk) (Cursor true (phrase_docs kind termids)) Hr).
  - destruct Hr as [[Hs _] _]. done.
  - intros x. split.
    + intros [Hx Ht]%phrase_docs_elem; [|done]. split; [done|]. destruct (test_spec kind _ (Hok x Hx)) as (_ & H1 & _). by apply H1.
    + intros Hx Hc Hm. destruct (test_spec kind _ (Hok x Hx)) as (_ & _ & H2). apply phrase_docs_elem; [done|]. split; [done|by apply H2].
Qed.
End PhraseTop.

(** An index of two terms. *)
Definition ex_postings (id : Z) : list Z := if id =? 1 then [3; 7; 9] else if id =? 2 then [7; 9] else [].
Definition ex_positions (id x : Z) : list Z :=
  if id =? 1 then if x =? 7 then [4; 10] else [1] else if x =? 7 then [11] else [8].
Definition ex_reader (_ : string) (id : Z) : option pos_cursor :=
  if (id =? 1) || (id =? 2) then Some (PosCursor (Cursor true (ex_postings id)) (ex_positions id) []) else None.

Lemma ex_positions_ok id x : positions (ex_positions id x) /\ ex_positions id x <> [].
Proof.
  unfold ex_positions. destruct (id =? 1), (x =? 7); (split; [split|done]); try (repeat constructor; lia); intros y; set_unfold; lia.
Qed.

Lemma ex_seek_ok : seek_ok ex_reader "title" ex_postings ex_positions.
Proof.
  intros id. unfold ex_reader. destruct ((id =? 1) || (id =? 2)) eqn:E.
  - exists []. split_and!; [done| |apply not_elem_of_nil|].
    + unfold ex_postings. destruct (id =? 1); [by apply (posting_wf [3; 7; 9])|]. destruct (id =? 2); [by apply (posting_wf [7; 9])|apply cursor_wf_nil].
    + intros x Hx. destruct (ex_positions_ok id x) as [[_ Hb] _]. unfold ex_positions in *. destruct (id =? 1), (x =? 7); set_unfold in Hx; lia.
  - apply orb_false_iff in E as [E1 E2]. unfold ex_postings. by rewrite E1, E2.
Qed.

Lemma phrase_documents_witness : exists ds,
  drain (DocIterator0 := phrase_ops (Some ex_reader)) (PhraseDocumentIterator PExact [1; 2] "title" 0 : phrase_iter pos_cursor) = Ret ds /\
  7 ∈ ds /\ 9 ∉ ds.
Proof.
  destruct (phrase_documents ex_reader "title" ex_postings ex_positions ex_seek_ok PExact [1; 2] 0) as (ds & E & _ & H).
  - done.
  - vm_compute. reflexivity.
  - intros id. unfold ex_postings. destruct (id =? 1); [by apply (posting_wf [3; 7; 9])|].
    destruct (id =? 2); [by apply (posting_wf [7; 9])|apply cursor_wf_nil].
  - intros x _. split; [done|]. split; [vm_compute; reflexivity|]. split; [|done].
    constructor; [apply ex_positions_ok|]. constructor; [apply ex_positions_ok|constructor].
  - exists ds. split; [exact E|]. split.
    + apply H; [repeat constructor; cbn; set_solver| |].
      * split; [|done]. cbn. set_solver.
      * exists 10. split; [cbn; set_solver|]. exists 11. split; [cbn; set_solver|]. split; [unfold next_to; lia|done].
    + intros H9. apply H in H9 as [_ (x & Hx & y & Hy & Hn & _)].
      cbn in Hx, Hy. unfold next_to in Hn. set_unfold. lia.
Defined.
