(* ===== verification/WandIterator.v ===== *)
(** * The WAND iterator

Models search-manager/WANDDocumentIterator.{h,cpp}: the children are kept in a
std::multimap by their current document; a document is returned when the upper
bounds of the children up to it sum to more than the threshold (the pivot).
The upper bounds are 32-bit floats. *)
From S2P Require Import Prelude PQueue Float64 DocIterator OrIterator.

(** ** Floats *)
Definition f32_add : spec_float -> spec_float -> spec_float := SFadd 24 128.
Definition f32_sub : spec_float -> spec_float -> spec_float := SFsub 24 128.
Definition f32_mul : spec_float -> spec_float -> spec_float := SFmul 24 128.
Definition f32_div : spec_float -> spec_float -> spec_float := SFdiv 24 128.
Definition f32_of (z : Z) : spec_float := binary_normalize 24 128 z 0 false.
Definition f32_half : spec_float := binary_normalize 24 128 1 (-1) false.
Definition f32_zero : spec_float := S754_zero false.
(** std::numeric_limits<float>::max() *)
Definition f32_max : spec_float := binary_normalize 24 128 (2 ^ 24 - 1) 104 false.

(** setUB: [missRate_] was set to the number of children that were wanted. *)
Definition miss_rate (missRate_ : spec_float) (size : Z) : spec_float := f32_div (f32_sub missRate_ (f32_of (u16 size))) missRate_.

(** The virtual [getUB] of a child. *)
Class UpperBound (S : Type) := { getUB : S -> spec_float }.

(** getUB of WAND and AND: the sum over the children that are not NULL. *)
Definition sum_ub {S} `{!UpperBound S} (l : list (option S)) (missRate_ : spec_float) : spec_float :=
  f32_div (foldl (fun sum o => match o with Some s => f32_add sum (getUB s) | None => sum end) f32_zero l) (f32_sub (f32_of 1) missRate_).

(** getUB of OR: the least. *)
Definition min_ub {S} `{!UpperBound S} (l : list (option S)) (missRate_ : spec_float) : spec_float :=
  f32_div (foldl (fun m o => match o with Some s => let ub := getUB s in if flt ub m then ub else m | None => m end) f32_max l)
    (f32_sub (f32_of 1) missRate_).

(** ** The iterator *)
Record wand_iter (S : Type) := WandIter {
  wd_list : list (option (S * bool));   (* the child, its [current_] flag *)
  wd_sorter : list (Z * nat);           (* the multimap *)
  wd_currDoc : Z;
  wd_threshold : spec_float;
  wd_pivot : Z
}.
Arguments WandIter {_} _ _ _ _ _.
Arguments wd_list {_} _.
Arguments wd_sorter {_} _.
Arguments wd_currDoc {_} _.
Arguments wd_threshold {_} _.
Arguments wd_pivot {_} _.

Definition WANDDocumentIterator {S} : wand_iter S := WandIter [] [] 0 f32_zero 0.

Definition wand_add {S} (s : S) (it : wand_iter S) : wand_iter S :=
  WandIter (wd_list it ++ [Some (s, false)]) (wd_sorter it) (wd_currDoc it) (wd_threshold it) (wd_pivot it).

(** std::multimap::insert: behind the entries of the same key. *)
Fixpoint mm_insert (k : Z) (i : nat) (l : list (Z * nat)) : list (Z * nat) :=
  match l with
  | [] => [(k, i)]
  | p :: l' => if p.1 <=? k then p :: mm_insert k i l' else (k, i) :: l
  end.

Section WandOps.
Context {S : Type} `{!DocIterator S, !UpperBound S}.
Notation children := (list (option (S * bool))).
Notation sorter := (list (Z * nat)).
Notation iter := (wand_iter S).

Definition wand_ub (missRate_ : spec_float) (it : iter) : spec_float :=
  sum_ub (map (option_map fst) (wd_list it)) missRate_.

(** [initThreshold], after the children's. *)
Definition wand_initThreshold (missRate_ threshold : spec_float) (it : iter) : iter :=
  let sumUBs := wand_ub missRate_ it in
  WandIter (wd_list it) (wd_sorter it) (wd_currDoc it)
    (if fgt threshold f32_zero then f32_mul sumUBs threshold else f32_mul sumUBs f32_half) (wd_pivot it).

Definition wand_setThreshold (realThreshold : spec_float) (it : iter) : iter :=
  WandIter (wd_list it) (wd_sorter it) (wd_currDoc it) realThreshold (wd_pivot it).

(** One turn of the loop of [initDocIteratorSorter]. *)
Definition wand_init_child (i : nat) (st : children * sorter) : res (children * sorter) :=
  let (l, m) := st in
  match l !! i with
  | Some (Some (s, _)) =>
      let* (b, s) := di_next s in
      Ret (if b then (<[i := Some (s, false)]> l, mm_insert (di_doc s) i m) else (<[i := None]> l, m))
  | _ => Ret (l, m)
  end.
Definition initDocIteratorSorter (st : children * sorter) : res (children * sorter) :=
  mfold wand_init_child (seq 0 (length st.1)) st.

(** [findPivot] *)
Fixpoint findPivot_ (threshold : spec_float) (l : children) (m : sorter) (sumUB : spec_float) : res (option Z) :=
  match m with
  | [] => Ret None
  | (k, i) :: m =>
      match l !! i with
      | Some (Some (s, _)) =>
          let sumUB := f32_add sumUB (getUB s) in
          if fgt sumUB threshold then Ret (Some k) else findPivot_ threshold l m sumUB
      | _ => Undef
      end
  end.
Definition findPivot (threshold : spec_float) (l : children) (m : sorter) : res (option Z) := findPivot_ threshold l m f32_zero.

(** [processPrePostings] of a sorter with entries. *)
Definition pre_body (target : Z) (st : children * sorter) : res (children * sorter + bool * (children * sorter)) :=
  let (l, m) := st in
  match m with
  | [] => Undef
  | (_, i) :: m' =>
      match l !! i with
      | Some (Some (s, b)) =>
          if di_doc s <? target then
            let* (nFoundId, s) := di_skipTo target s in
            let l := <[i := Some (s, b)]> l in
            if (MAX_DOC_ID =? nFoundId) || (nFoundId <? target) then
              Ret (if is_nil m' then inr (false, (l, m')) else inl (l, m'))
            else Ret (inl (l, mm_insert (di_doc s) i m'))
          else Ret (inr (true, st))
      | _ => Undef
      end
  end.
Definition processPrePostings (target : Z) (st : children * sorter) : res (bool * (children * sorter)) :=
  if is_nil st.2 then Ret (false, st) else while_loop (pre_body target) st.

(** while (front != NULL && front->isCurrent()) ...: none when it ran empty. *)
Definition wand_advance_body (st : children * sorter) : res (children * sorter + bool * (children * sorter)) :=
  let (l, m) := st in
  match m with
  | [] => Undef
  | (_, i) :: m' =>
      match l !! i with
      | Some (Some (s, true)) =>
          let* (b, s) := di_next s in
          let l := <[i := Some (s, false)]> l in
          if b then Ret (inl (l, mm_insert (di_doc s) i m'))
          else Ret (if is_nil m' then inr (false, (l, m')) else inl (l, m'))
      | Some (Some (s, false)) => Ret (inr (true, st))
      | _ => Undef
      end
  end.

Definition wand_mark (currDoc : Z) (l : children) : children := map (option_map (fun '(s, _) => (s, currDoc =? di_doc s))) l.

(** do { ... } while (true) of [do_next] *)
Definition wand_next_body (it : iter) : res (iter + bool * iter) :=
  let thr := wd_threshold it in
  let* (l, m) := (if is_nil (wd_sorter it) then initDocIteratorSorter (wd_list it, wd_sorter it) else Ret (wd_list it, wd_sorter it)) in
  if is_nil m then Ret (inr (false, WandIter l m (wd_currDoc it) thr (wd_pivot it)))
  else
    let* (ok, (l, m)) := while_loop wand_advance_body (l, m) in
    if negb ok then Ret (inr (false, WandIter l m (wd_currDoc it) thr (wd_pivot it)))
    else
      let* pivot := findPivot thr l m in
      match pivot with
      | None => Ret (inr (false, WandIter l m (wd_currDoc it) thr (wd_pivot it)))
      | Some pivot =>
          if pivot <=? wd_currDoc it then
            let* (ok, (l, m)) := processPrePostings (u32 (wd_currDoc it + 1)) (l, m) in
            let it := WandIter l m (wd_currDoc it) thr pivot in
            Ret (if ok then inl it else inr (false, it))
          else
            let front := match m with (_, i) :: _ => l !! i | [] => None end in
            match front with
            | Some (Some (s, _)) =>
                if di_doc s =? pivot then
                  let* (_, (l, m)) := processPrePostings pivot (l, m) in
                  Ret (inr (true, WandIter (wand_mark pivot l) m pivot thr pivot))
                else
                  let* (ok, (l, m)) := processPrePostings pivot (l, m) in
                  let it := WandIter l m (wd_currDoc it) thr pivot in
                  Ret (if ok then inl it else inr (false, it))
            | _ => Undef
            end
      end.
Definition wand_next (it : iter) : res (bool * iter) := while_loop wand_next_body it.

Definition wand_skipTo (target : Z) (it : iter) : res (Z * iter) :=
  let thr := wd_threshold it in
  let* (l, m) := (if is_nil (wd_sorter it) then initDocIteratorSorter (wd_list it, wd_sorter it) else Ret (wd_list it, wd_sorter it)) in
  if is_nil m then Ret (MAX_DOC_ID, WandIter l m MAX_DOC_ID thr (wd_pivot it))
  else
    let l := map (option_map (fun '(s, _) => (s, false))) l in
    let* (ok, (l, m)) := processPrePostings target (l, m) in
    if negb ok then Ret (MAX_DOC_ID, WandIter l m (wd_currDoc it) thr (wd_pivot it))
    else
      let* (b, it) := wand_next (WandIter l m (wd_currDoc it) thr (wd_pivot it)) in
      if b then Ret (wd_currDoc it, it)
      else Ret (MAX_DOC_ID, WandIter (wd_list it) (wd_sorter it) MAX_DOC_ID (wd_threshold it) (wd_pivot it)).

Definition wand_ops : DocIterator iter :=
  {| di_next := wand_next; di_doc := wd_currDoc; di_skipTo := wand_skipTo; di_tf _ := Ret 0 |}.
End WandOps.

(** ** The multimap *)
Lemma wd_insert_perm k i m : mm_insert k i m ≡ₚ (k, i) :: m.
Proof.
  induction m as [|p m IH]; cbn; [done|]. destruct (p.1 <=? k); [|done]. rewrite IH. apply Permutation_swap.
Qed.

Notation mm_sorted := (StronglySorted (fun a b : Z * nat => a.1 <= b.1)).

Lemma mm_insert_sorted k i m : mm_sorted m -> mm_sorted (mm_insert k i m).
Proof.
  induction 1 as [|p m Hm IH Hp]; cbn; [repeat constructor|]. destruct (Z.leb_spec p.1 k).
  - constructor; [done|]. rewrite wd_insert_perm. by constructor.
  - constructor; [by constructor|]. constructor; [cbn; lia|]. eapply Forall_impl; [exact Hp|]. cbn. lia.
Qed.

(** ** A threshold below every upper bound: nothing is pruned

The threshold is 0 until [initThreshold], which a combined iterator, an AND, an
OR and a custom iterator do not pass on to their children. *)

(** Reading a child does not change its upper bound. *)
Class UpperBoundStable (S : Type) `{!DocIterator S, !UpperBound S} :=
  ub_next : forall s b s', di_next s = Ret (b, s') -> getUB s' = getUB s.

Section WandSpec.
Context {S : Type} `{!DocIterator S, !DocNextSpec S, !UpperBound S, !UpperBoundStable S}.
Notation children := (list (option (S * bool))).
Notation iter := (wand_iter S).
Context (thr : spec_float).

Definition above (s : S) : Prop := fgt (f32_add f32_zero (getUB s)) thr = true.

(** The children of the sorter are at the document of their key, the others
    are at their end; all keys have reached [cd]. *)
Definition wd_ok (cd : Z) (l : children) (m : list (Z * nat)) (P : nat -> list Z) : Prop :=
  NoDup m.*2 /\ mm_sorted m /\
  (forall k i, (k, i) ∈ m -> cd <= k /\ exists p s, P i = k :: p /\ l !! i = Some (Some (s, cd =? k)) /\ di_rep s (Cursor false (k :: p)) /\ above s) /\
  (forall i s f, l !! i = Some (Some (s, f)) -> i ∉ m.*2 -> di_rep s (Cursor false []) /\ above s).

Definition union_m (m : list (Z * nat)) (P : nat -> list Z) (x : Z) : Prop := exists i, i ∈ m.*2 /\ x ∈ P i.

Definition pend_sum (m : list (Z * nat)) (P : nat -> list Z) : Z := foldr (fun p n => vsize (P p.2) + n) 0 m.

Lemma pend_sum_nonneg m P : 0 <= pend_sum m P.
Proof. induction m as [|p m IH]; cbn; [lia|]. pose proof (vsize_nonneg (P p.2)). unfold pend_sum in IH. lia. Qed.

Lemma pend_sum_perm m m' P : m ≡ₚ m' -> pend_sum m P = pend_sum m' P.
Proof. induction 1 as [|? ? ? _ IH|? ? ?|? ? ? _ IH1 _ IH2]; cbn; unfold pend_sum in *; lia. Qed.

Lemma pend_sum_ext m P P' : (forall i, i ∈ m.*2 -> P i = P' i) -> pend_sum m P = pend_sum m P'.
Proof.
  induction m as [|p m IH]; intros H; cbn; [done|]. rewrite (H p.2) by (cbn; by left). unfold pend_sum in IH. rewrite IH; [done|].
  intros i Hi. apply H. cbn. by right.
Qed.

Lemma pend_sum_bound cd l m P : wd_ok cd l m P -> pend_sum m P <= vsize m * MAX_DOC_ID.
Proof.
  intros (_ & _ & H & _). induction m as [|[k i] m IH]; cbn; [done|]. unfold pend_sum in IH. rewrite vsize_cons.
  destruct (H k i ltac:(by left)) as (_ & p & s & -> & _ & Hr & _). pose proof (cursor_wf_size _ (di_rep_wf _ _ Hr)). cbn in *.
  specialize (IH (fun k' i' Hin => H k' i' ltac:(by right))). lia.
Qed.

Lemma elem_snd (m : list (Z * nat)) k i : (k, i) ∈ m -> i ∈ m.*2.
Proof. intros H. apply list_elem_of_fmap. by exists (k, i). Qed.

Lemma wd_ok_head cd l k i m P : wd_ok cd l ((k, i) :: m) P -> exists p s,
  P i = k :: p /\ l !! i = Some (Some (s, cd =? k)) /\ di_rep s (Cursor false (k :: p)) /\ above s /\ cd <= k /\ (i ∉ m.*2) /\
  forall x, union_m ((k, i) :: m) P x -> k <= x.
Proof.
  intros (Hn & Hs & H & _). destruct (H k i ltac:(by left)) as (Hk & p & s & E & El & Hr & Ha). exists p, s.
  apply NoDup_cons in Hn as [Hi _]. split_and!; [done..|]. intros x (j & Hj & Hx).
  apply list_elem_of_fmap in Hj as ([k' j'] & -> & Hin). destruct (H k' j' Hin) as (_ & p' & s' & E' & _ & Hr' & _). cbn in Hx. rewrite E' in Hx.
  destruct (di_rep_wf _ _ Hr') as [Hs' _]. pose proof (ssorted_head_le _ _ _ Hs' Hx).
  apply StronglySorted_inv in Hs as [_ Hall]. apply elem_of_cons in Hin as [[= -> ->]|Hin]; [lia|].
  rewrite Forall_forall in Hall. specialize (Hall _ Hin). cbn in Hall. lia.
Qed.

(** The child in front moves on, to [p]. *)
Lemma wd_ok_drop cd l k i m P s' : wd_ok cd l ((k, i) :: m) P -> di_rep s' (Cursor false []) -> above s' ->
  wd_ok cd (<[i := Some (s', false)]> l) m P.
Proof.
  intros (Hn & Hs & H & H') Hr Ha. apply NoDup_cons in Hn as [Hi Hn]. apply StronglySorted_inv in Hs as [Hs _]. split_and!; [done|done| |].
  - intros k' j Hj. destruct (H k' j ltac:(by right)) as (Hk & p & s & ? & E & ?). split; [done|]. exists p, s.
    rewrite list_lookup_insert_ne; [done|]. intros ->. by apply Hi, (elem_snd _ k').
  - intros j s f E Hj. destruct (decide (i = j)) as [<-|Hne].
    + destruct (decide (i < length l)%nat).
      * rewrite list_lookup_insert_eq in E by done. by injection E as <- <-.
      * rewrite lookup_ge_None_2 in E; [done|]. rewrite length_insert. lia.
    + rewrite list_lookup_insert_ne in E by done. apply (H' j s f E). cbn. intros [->|]%elem_of_cons; done.
Qed.

Lemma wd_ok_move cd l k i m P s' k' p : wd_ok cd l ((k, i) :: m) P -> di_rep s' (Cursor false (k' :: p)) -> above s' -> cd < k' ->
  wd_ok cd (<[i := Some (s', false)]> l) (mm_insert k' i m) (<[i := k' :: p]> P).
Proof.
  intros Hok Hr Ha Hlt. destruct (wd_ok_head _ _ _ _ _ _ Hok) as (p0 & s0 & _ & El & _ & _ & _ & Hi & _).
  pose proof Hok as (Hn & Hs & H & H'). apply NoDup_cons in Hn as [_ Hn]. apply StronglySorted_inv in Hs as [Hs _].
  assert (i < length l)%nat as Hil by (by apply lookup_lt_is_Some_1; rewrite El).
  split_and!.
  - rewrite wd_insert_perm. cbn. by apply NoDup_cons.
  - by apply mm_insert_sorted.
  - intros k2 j. rewrite wd_insert_perm. intros [[= -> ->]|Hj]%elem_of_cons.
    + split; [lia|]. exists p, s'. rewrite fn_lookup_insert, list_lookup_insert_eq by done. destruct (Z.eqb_spec cd k'); [lia|]. done.
    + destruct (H k2 j ltac:(by right)) as (Hk & p2 & s2 & ? & E & ?). split; [done|]. exists p2, s2.
      assert (j <> i) by (intros ->; by apply Hi, (elem_snd _ k2)).
      rewrite fn_lookup_insert_ne, list_lookup_insert_ne by done. done.
  - intros j s f E. rewrite wd_insert_perm. cbn. intros [Hji Hj]%not_elem_of_cons. rewrite list_lookup_insert_ne in E by done.
    apply (H' j s f E). cbn. by intros [->|]%elem_of_cons.
Qed.

Lemma union_m_perm m m' P x : m ≡ₚ m' -> union_m m P x <-> union_m m' P x.
Proof. intros E. unfold union_m. by setoid_rewrite E. Qed.

Lemma union_m_cons k i m P x : union_m ((k, i) :: m) P x <-> x ∈ P i \/ union_m m P x.
Proof.
  unfold union_m. cbn. split.
  - intros (j & [->|Hj]%elem_of_cons & Hx); [by left|right]. by exists j.
  - intros [Hx|(j & Hj & Hx)]; [exists i|exists j]; (split; [|done]); [by left|by right].
Qed.

Lemma union_m_insert i p m P x : i ∉ m.*2 -> union_m m (<[i := p]> P) x <-> union_m m P x.
Proof.
  intros Hi. unfold union_m. split; intros (j & Hj & Hx); exists j; (split; [done|]);
    (assert (j <> i) by (intros ->; done)); [by rewrite fn_lookup_insert_ne in Hx|by rewrite fn_lookup_insert_ne].
Qed.

Lemma next_above (s : S) b s' : above s -> di_next s = Ret (b, s') -> above s'.
Proof. unfold above. intros Ha E. by rewrite (ub_next _ _ _ E). Qed.

(** *** Leaving the current document *)
Definition wd_inv (n : nat) (cd : Z) (R : list Z) (g : list (Z * nat) * (nat -> list Z)) (st : children * list (Z * nat)) : Prop :=
  length st.1 = n /\ st.2 = g.1 /\ g.1 <> [] /\ wd_ok cd st.1 g.1 g.2 /\ forall x, x ∈ R <-> cd < x /\ union_m g.1 g.2 x.

Definition wd_post (n : nat) (cd : Z) (R : list Z) (r : bool * (children * list (Z * nat))) : Prop :=
  length r.2.1 = n /\ exists P, wd_ok cd r.2.1 r.2.2 P /\ (forall x, x ∈ R <-> union_m r.2.2 P x) /\
    if r.1 then exists k i m, r.2.2 = (k, i) :: m /\ cd < k else r.2.2 = [].

Lemma wd_advance_step n cd R g st : wd_inv n cd R g st -> 0 <= pend_sum g.1 g.2 /\
  ((exists g' st', wand_advance_body st = Ret (inl st') /\ wd_inv n cd R g' st' /\ pend_sum g'.1 g'.2 < pend_sum g.1 g.2) \/
   (exists r, wand_advance_body st = Ret (inr r) /\ wd_post n cd R r)).
Proof.
  destruct g as [m P], st as [l m0]. intros (Hl & Em & Hne & Hok & HR); cbn [fst snd] in *. subst m0. split; [apply pend_sum_nonneg|].
  destruct m as [|[k i] m]; [done|].
  destruct (wd_ok_head _ _ _ _ _ _ Hok) as (p & s & EP & El & Hr & Ha & Hk & Hi & Hle). unfold wand_advance_body. rewrite El.
  destruct (Z.eqb_spec cd k) as [<-|Hne2].
  - destruct (di_next_spec s _ Hr) as (s' & E & Hr'). rewrite E. pose proof (next_above _ _ _ Ha E) as Ha'. cbn [cursor_next pend_after_next cu_fresh cu_pend tail fst snd] in *. cbn [res_bind].
    destruct (di_rep_wf _ _ Hr) as [Hsort _]. cbn in Hsort.
    destruct p as [|k' p].
    + rewrite bool_decide_eq_true_2 by done. cbn [negb]. pose proof (wd_ok_drop _ _ _ _ _ _ s' Hok Hr' Ha') as Hok'.
      assert (forall x, x ∈ R <-> cd < x /\ union_m m P x) as HR'.
      { intros x. rewrite HR, union_m_cons, EP, elem_of_cons, elem_of_nil. intuition lia. }
      destruct m as [|q m]; cbn [is_nil].
      * right. eexists. split; [done|]. split; [cbn; by rewrite length_insert|]. exists P. split_and!; [done| |done]. intros x. rewrite HR'. split; [by intros []|].
        intros (j & Hj & _). by apply elem_of_nil in Hj.
      * left. eexists (q :: m, P), _. split; [done|]. split; [split_and!; [cbn; by rewrite length_insert|done..]|]. cbn. rewrite EP. unfold vsize. cbn. lia.
    + rewrite bool_decide_eq_false_2 by done. cbn [negb]. rewrite (di_doc_spec _ _ _ Hr').
      pose proof (ssorted_head_lt _ _ k' Hsort ltac:(by left)) as Hlt. left. eexists (mm_insert k' i m, <[i := k' :: p]> P), _. split; [done|]. split.
      * split_and!; cbn [fst snd]; [by rewrite length_insert|done|intros E0|by apply (wd_ok_move _ _ cd)|].
        -- pose proof (wd_insert_perm k' i m) as Hp. rewrite E0 in Hp. by apply Permutation_nil_cons in Hp.
        -- intros x. rewrite HR, (union_m_perm _ _ _ _ (wd_insert_perm k' i m)), !union_m_cons, fn_lookup_insert, EP, union_m_insert by done.
           rewrite (elem_of_cons (k' :: p)). intuition lia.
      * cbn [fst snd]. rewrite (pend_sum_perm _ _ _ (wd_insert_perm k' i m)). cbn. rewrite fn_lookup_insert, EP, !vsize_cons.
        fold (pend_sum m (<[i := k' :: p]> P)) (pend_sum m P). rewrite (pend_sum_ext m (<[i := k' :: p]> P) P); [lia|].
        intros j Hj. apply fn_lookup_insert_ne. by intros ->.
  - right. eexists. split; [done|]. split; [done|]. exists P. cbn [fst snd]. split_and!; [done| |exists k, i, m; split; [done|lia]].
    intros x. rewrite HR. split; [by intros []|]. intros Hx. split; [|done]. specialize (Hle x Hx). lia.
Qed.

(** *** The first documents of the children *)
Definition wd_fresh (l : children) (C : nat -> cursor) : Prop :=
  forall i o, l !! i = Some o -> exists s f, o = Some (s, f) /\ di_rep s (C i) /\ above s.

Definition wd_init_inv (l0 : children) (C : nat -> cursor) (rest : list nat) (st : children * list (Z * nat)) : Prop :=
  exists k P, rest = seq k (length l0 - k) /\ (k <= length l0)%nat /\ length st.1 = length l0 /\
    (forall i, i ∈ st.2.*2 -> (i < k)%nat) /\
    (forall i, (k <= i)%nat -> st.1 !! i = l0 !! i) /\
    wd_ok 0 (take k st.1) st.2 P /\
    forall x, union_m st.2 P x <-> exists i, (i < k)%nat /\ x ∈ pend_after_next (C i).

Lemma wd_ok_snoc_none cd l m P : wd_ok cd l m P -> wd_ok cd (l ++ [None]) m P.
Proof.
  intros (Hn & Hs & H & H'). split_and!; [done|done| |].
  - intros k i Hi. destruct (H k i Hi) as (Hk & p & s & ? & E & ?). split; [done|]. exists p, s. rewrite lookup_app_l; [done|].
    by apply lookup_lt_is_Some_1; rewrite E.
  - intros i s f E Hi. apply (H' i s f); [|done]. apply lookup_app_Some in E as [E|[_ E]]; [done|].
    destruct (i - length l)%nat as [|n]; cbn in E; [done|]. by destruct n.
Qed.

Lemma wd_ok_snoc cd l m P s k p : wd_ok cd l m P -> (forall i, i ∈ m.*2 -> (i < length l)%nat) -> di_rep s (Cursor false (k :: p)) -> above s -> cd < k ->
  wd_ok cd (l ++ [Some (s, false)]) (mm_insert k (length l) m) (<[length l := k :: p]> P).
Proof.
  intros (Hn & Hs & H & H') Hlt Hr Ha Hk. split_and!.
  - rewrite wd_insert_perm. cbn. apply NoDup_cons. split; [|done]. intros Hi. specialize (Hlt _ Hi). lia.
  - by apply mm_insert_sorted.
  - intros k2 i. rewrite wd_insert_perm. intros [[= -> ->]|Hi]%elem_of_cons.
    + split; [lia|]. exists p, s. rewrite fn_lookup_insert, list_lookup_middle by done. destruct (Z.eqb_spec cd k); [lia|done].
    + destruct (H k2 i Hi) as (Hk2 & p2 & s2 & ? & E & ?). split; [done|]. exists p2, s2.
      pose proof (Hlt i (elem_snd _ _ _ Hi)). rewrite fn_lookup_insert_ne by lia. rewrite lookup_app_l by lia. done.
  - intros i s2 f E. rewrite wd_insert_perm. cbn. intros [Hne Hi]%not_elem_of_cons.
    apply lookup_app_Some in E as [E|[Hge E]]; [by apply (H' i s2 f)|].
    destruct (i - length l)%nat as [|n] eqn:En; cbn in E; [|by destruct n]. lia.
Qed.

Lemma wd_init_step l0 C i rest st : wd_fresh l0 C -> (forall i x, (i < length l0)%nat -> x ∈ pend_after_next (C i) -> 0 < x) ->
  wd_init_inv l0 C (i :: rest) st -> exists st', wand_init_child i st = Ret st' /\ wd_init_inv l0 C rest st'.
Proof.
  intros Hf Hpos (k & P & Er & Hk & Hlen & Hlt & Heq & Hok & Hu). destruct st as [l m]; cbn [fst snd] in *.
  destruct (length l0 - k)%nat as [|r] eqn:Ek; [done|]. injection Er as -> Er.
  destruct (lookup_lt_is_Some_2 l0 k ltac:(lia)) as [o Eo]. destruct (Hf k o Eo) as (s & f & -> & Hr & Ha).
  unfold wand_init_child. rewrite Heq, Eo by done. destruct (di_next_spec s _ Hr) as (s' & E & Hr'). rewrite E.
  pose proof (next_above _ _ _ Ha E) as Ha'. cbn [cursor_next fst snd res_bind] in *.
  assert (length (take k l) = k) as Htk by (rewrite length_take; lia).
  assert (forall o', take (Datatypes.S k) (<[k := o']> l) = take k l ++ [o']) as Htake.
  { intros o'. rewrite (take_S_r _ k o') by (apply list_lookup_insert_eq; lia). by rewrite take_insert_ge. }
  assert (forall x, (exists i, (i < Datatypes.S k)%nat /\ x ∈ pend_after_next (C i)) <->
    x ∈ pend_after_next (C k) \/ exists i, (i < k)%nat /\ x ∈ pend_after_next (C i)) as Hsucc.
  { intros x. split.
    - intros (i & Hi & Hx). destruct (decide (i = k)) as [->|]; [by left|right]. exists i. split; [lia|done].
    - intros [Hx|(i & Hi & Hx)]; [exists k|exists i]; (split; [lia|done]). }
  destruct (pend_after_next (C k)) as [|d p] eqn:Ep.
  - rewrite bool_decide_eq_true_2 by done. cbn [negb]. eexists. split; [done|]. exists (Datatypes.S k), P. cbn [fst snd]. split_and!.
    + rewrite Er. f_equal. lia.
    + lia.
    + by rewrite length_insert.
    + intros i Hi. specialize (Hlt i Hi). lia.
    + intros i Hi. rewrite list_lookup_insert_ne by lia. apply Heq. lia.
    + rewrite Htake. by apply wd_ok_snoc_none.
    + intros x. rewrite Hu, Hsucc, elem_of_nil. tauto.
  - rewrite bool_decide_eq_false_2 by done. cbn [negb]. rewrite (di_doc_spec _ _ _ Hr'). eexists. split; [done|].
    exists (Datatypes.S k), (<[k := d :: p]> P). cbn [fst snd]. split_and!.
    + rewrite Er. f_equal. lia.
    + lia.
    + by rewrite length_insert.
    + intros i. rewrite wd_insert_perm. cbn. intros [->|Hi]%elem_of_cons; [lia|]. specialize (Hlt i Hi). lia.
    + intros i Hi. rewrite list_lookup_insert_ne by lia. apply Heq. lia.
    + rewrite Htake. rewrite <- Htk at 2 3. apply wd_ok_snoc; [done| |done|done|].
      * intros i Hi. rewrite Htk. by apply Hlt.
      * apply (Hpos k); [lia|]. rewrite Ep. by left.
    + intros x. rewrite (union_m_perm _ _ _ _ (wd_insert_perm d k m)), union_m_cons, fn_lookup_insert, union_m_insert, Hu, Hsucc; [done|].
      intros Hi. specialize (Hlt k Hi). lia.
Qed.

Lemma wd_init l0 C : wd_fresh l0 C -> (forall i x, (i < length l0)%nat -> x ∈ pend_after_next (C i) -> 0 < x) ->
  exists l m P, initDocIteratorSorter (l0, []) = Ret (l, m) /\ length l = length l0 /\ wd_ok 0 l m P /\
    forall x, union_m m P x <-> exists i, (i < length l0)%nat /\ x ∈ pend_after_next (C i).
Proof.
  intros Hf Hpos. unfold initDocIteratorSorter. cbn [fst].
  destruct (mfold_rule wand_init_child (wd_init_inv l0 C) (seq 0 (length l0)) (l0, [])) as ([l m] & -> & k & P & Er & Hk & Hlen & _ & _ & Hok & Hu).
  - intros i rest st. by apply wd_init_step.
  - exists 0%nat, (fun _ => []). cbn. split_and!; [by rewrite Nat.sub_0_r|lia|done| |done| |].
    + by intros i ?%elem_of_nil.
    + split_and!; [constructor|constructor| |]; [by intros ? ? ?%elem_of_nil|done].
    + intros x. split; [intros (i & Hi & _); by apply elem_of_nil in Hi|intros (i & Hi & _); lia].
  - cbn [fst snd] in *. destruct (length l0 - k)%nat eqn:Ek; [|done]. assert (k = length l0) as -> by lia.
    rewrite take_ge in Hok by lia. by exists l, m, P.
Qed.

(** When every child is at its end, nothing is put into the sorter. *)
Lemma wd_init_dead l : (forall i s f, l !! i = Some (Some (s, f)) -> di_rep s (Cursor false []) /\ above s) ->
  exists l', initDocIteratorSorter (l, []) = Ret (l', []) /\ length l' = length l /\
    forall i s f, l' !! i = Some (Some (s, f)) -> di_rep s (Cursor false []) /\ above s.
Proof.
  intros H. unfold initDocIteratorSorter. cbn [fst].
  destruct (mfold_rule wand_init_child (fun _ st => st.2 = [] /\ length st.1 = length l /\
    forall i s f, st.1 !! i = Some (Some (s, f)) -> di_rep s (Cursor false []) /\ above s) (seq 0 (length l)) (l, [])) as ([l' m] & -> & E & Hlen & H'); [|done|].
  - intros i rest [l1 m1] (E & Hlen & H1); cbn [fst snd] in *. subst m1. unfold wand_init_child.
    destruct (l1 !! i) as [[[s f]|]|] eqn:Ei; [|by exists (l1, [])|by exists (l1, [])]. destruct (H1 i s f Ei) as [Hr _].
    destruct (di_next_spec s _ Hr) as (s' & -> & _). cbn. eexists. split; [done|]. cbn. split_and!; [done|by rewrite length_insert|].
    intros j s1 f1. destruct (decide (j = i)) as [->|]; [|rewrite list_lookup_insert_ne by done; apply H1].
    rewrite list_lookup_insert_eq by (by apply lookup_lt_is_Some_1; rewrite Ei). done.
  - cbn [fst snd] in *. subst m. by exists l'.
Qed.

(** *** The states between calls of [next] *)
Definition wand_rep (it : iter) (c : cursor) : Prop :=
  cursor_wf c /\ (forall x, x ∈ cu_pend c -> 0 < x) /\ vsize (wd_list it) < 2 ^ 31 /\ wd_threshold it = thr /\
  if cu_fresh c then
    wd_sorter it = [] /\ wd_currDoc it = 0 /\ exists C, wd_fresh (wd_list it) C /\
      forall x, x ∈ cu_pend c <-> exists i, (i < length (wd_list it))%nat /\ x ∈ pend_after_next (C i)
  else
    (cu_pend c <> [] -> wd_currDoc it ∈ cu_pend c) /\
    exists P, wd_ok (wd_currDoc it) (wd_list it) (wd_sorter it) P /\ forall x, x ∈ cu_pend c <-> union_m (wd_sorter it) P x.

Lemma wd_ok_least cd l m P x : wd_ok cd l m P -> union_m m P x -> cd <= x.
Proof.
  intros (_ & _ & H & _) (i & Hi & Hx). apply list_elem_of_fmap in Hi as ([k j] & -> & Hin). destruct (H k j Hin) as (Hk & p & s & E & _ & Hr & _).
  cbn in Hx. rewrite E in Hx. destruct (di_rep_wf _ _ Hr) as [Hs _]. pose proof (ssorted_head_le _ _ _ Hs Hx). lia.
Qed.

Lemma wd_ok_size cd l m P : wd_ok cd l m P -> vsize m <= vsize l.
Proof.
  intros (Hn & _ & H & _). unfold vsize. enough (length m.*2 <= length (seq 0 (length l)))%nat as Hle by (rewrite length_fmap, length_seq in Hle; lia).
  apply NoDup_incl_length; [by apply NoDup_ListNoDup|]. intros i Hi%list_elem_of_In.
  apply list_elem_of_fmap in Hi as ([k j] & -> & Hin). destruct (H k j Hin) as (_ & p & s & _ & E & _).
  apply in_seq. cbn. split; [lia|]. by apply lookup_lt_is_Some_1; rewrite E.
Qed.

Lemma wand_first (it : iter) c : wand_rep it c -> exists l m,
  (if is_nil (wd_sorter it) then initDocIteratorSorter (wd_list it, wd_sorter it) else Ret (wd_list it, wd_sorter it)) = Ret (l, m) /\
  length l = length (wd_list it) /\
  ((m = [] /\ pend_after_next c = [] /\ exists P, wd_ok (wd_currDoc it) l m P) \/
   (exists P, wd_inv (length (wd_list it)) (wd_currDoc it) (pend_after_next c) (m, P) (l, m))).
Proof.
  intros ([Hs Hb] & Hpos & Hsz & Et & H). unfold pend_after_next. destruct (cu_fresh c).
  - destruct H as (Em & Ecd & C & Hf & Hu). rewrite Em. cbn [is_nil].
    destruct (wd_init (wd_list it) C Hf) as (l & m & P & -> & Hlen & Hok & Hu').
    { intros i x Hi Hx. apply Hpos, Hu. by exists i. }
    exists l, m. split; [done|]. split; [done|]. rewrite Ecd. destruct m as [|q m].
    + left. split; [done|]. split; [|by exists P]. destruct (cu_pend c) as [|x p]; [done|].
      destruct (proj2 (Hu' x)) as (i & Hi & _); [by apply Hu; left|]. by apply elem_of_nil in Hi.
    + right. exists P. split_and!; [done|done|done|done|]. cbn [fst snd]. intros x. rewrite Hu', <- Hu. split; [|tauto]. intros Hx. split; [by apply Hpos|done].
  - destruct H as (Hcd & P & Hok & Hu). destruct (wd_sorter it) as [|q m] eqn:Em; cbn [is_nil].
    + destruct (wd_init_dead (wd_list it)) as (l & -> & Hlen & Hl).
      { intros i s f E. destruct Hok as (_ & _ & _ & H'). apply (H' i s f E). apply not_elem_of_nil. }
      exists l, []. split; [done|]. split; [done|]. left. split; [done|]. split.
      * destruct (cu_pend c) as [|x p]; [done|]. destruct (proj1 (Hu x)) as (i & Hi & _); [by left|]. by apply elem_of_nil in Hi.
      * exists P. split_and!; [constructor|constructor|by intros ? ? ?%elem_of_nil|]. intros i s f E _. by apply (Hl i s f).
    + exists (wd_list it), (q :: m). split; [done|]. split; [done|]. right. exists P. split_and!; [done|done|done|done|]. cbn [fst snd].
      intros x. rewrite <- Hu. destruct (cu_pend c) as [|d p] eqn:Ep.
      { cbn. rewrite elem_of_nil. tauto. }
      assert (wd_currDoc it = d) as ->.
      { specialize (Hcd ltac:(done)). pose proof (ssorted_head_le _ _ _ Hs Hcd).
        pose proof (wd_ok_least _ _ _ _ d Hok (proj1 (Hu d) ltac:(by left))). lia. }
      cbn [tail]. rewrite elem_of_cons. split.
      * intros Hx. pose proof (ssorted_head_lt _ _ _ Hs Hx). tauto.
      * intros [Hlt [->|Hx]]; [lia|done].
Qed.

Lemma wd_ok_mark cd l k i m P : wd_ok cd l ((k, i) :: m) P -> wd_ok k (wand_mark k l) ((k, i) :: m) P.
Proof.
  intros (Hn & Hs & H & H'). split_and!; [done|done| |].
  - intros k2 j Hj. destruct (H k2 j Hj) as (_ & p & s & EP & El & Hr & Ha). split.
    { apply StronglySorted_inv in Hs as [_ Hall]. apply elem_of_cons in Hj as [[= -> ->]|Hj]; [lia|]. rewrite Forall_forall in Hall. by apply (Hall _ Hj). }
    exists p, s. split_and!; [done| |done|done]. unfold wand_mark. rewrite list_lookup_fmap, El. cbn. by rewrite (di_doc_spec _ _ _ Hr).
  - intros j s f. unfold wand_mark. rewrite list_lookup_fmap. destruct (l !! j) as [[[s0 f0]|]|] eqn:E; cbn; [|done|done].
    intros [= <- <-]. by apply (H' j s0 f0).
Qed.

Lemma while_loop_once {A B} (body : A -> res (A + B)) a b : body a = Ret (inr b) -> while_loop body a = Ret b.
Proof.
  intros E. destruct (while_loop_rule body (fun (_ : unit) s => s = a) (fun _ => 0) (fun r => r = b)) with (g := tt) (s := a) as (r & -> & ->); [| | |done].
  - intros [] s ->. split; [done|]. right. by exists b.
  - done.
  - done.
Qed.

Lemma wand_next_spec (it : iter) c : wand_rep it c -> exists it', wand_next it = Ret (fst (cursor_next c), it') /\ wand_rep it' (snd (cursor_next c)).
Proof.
  intros H. pose proof H as (Hwf & Hpos & Hsz & Et & _). pose proof (cursor_wf_next c Hwf) as Hwf'.
  assert (forall x, x ∈ pend_after_next c -> 0 < x) as Hpos'.
  { intros x Hx. apply Hpos. unfold pend_after_next in Hx. destruct (cu_fresh c); [done|]. destruct (cu_pend c); [done|by right]. }
  destruct (wand_first it c H) as (l & m & E & Hlen & Hlm). unfold cursor_next in Hwf' |- *. cbn [fst snd] in Hwf' |- *. set (R := pend_after_next c) in *.
  enough (exists it', wand_next_body it = Ret (inr (negb (bool_decide (R = [])), it')) /\ wand_rep it' (Cursor false R)) as (it' & Eb & Hr).
  { exists it'. split; [|done]. unfold wand_next. by apply while_loop_once. }
  assert (forall l m cd piv P, length l = length (wd_list it) -> wd_ok cd l m P -> (R <> [] -> cd ∈ R) -> (forall x, x ∈ R <-> union_m m P x) ->
    wand_rep (WandIter l m cd thr piv) (Cursor false R)) as Hrep.
  { intros l1 m1 cd1 piv1 P1 Hl1 Hok1 Hcd1 Hu1. split; [done|]. split; [done|]. split; [unfold vsize in *; cbn; lia|]. split; [done|]. cbn [cu_fresh cu_pend].
    split; [done|]. by exists P1. }
  unfold wand_next_body. rewrite E, Et. cbn [res_bind]. destruct Hlm as [(-> & ER & P & Hok)|(P & Hinv)].
  - cbn [is_nil]. rewrite ER. eexists. split; [done|]. rewrite <- ER. apply (Hrep _ _ _ _ P); [done|done|by rewrite ER|].
    rewrite ER. intros x. split; [by intros ?%elem_of_nil|]. intros (i & Hi & _). by apply elem_of_nil in Hi.
  - pose proof Hinv as (_ & _ & Hne & Hok & _). cbn [fst snd] in Hne, Hok. destruct m as [|q m]; [done|]. cbn [is_nil].
    edestruct (while_loop_rule wand_advance_body (wd_inv (length (wd_list it)) (wd_currDoc it) R) (fun g => pend_sum g.1 g.2) (wd_post (length (wd_list it)) (wd_currDoc it) R)) with (g := (q :: m, P)) as ([ok [l' m']] & E' & Hlen' & P' & Hok' & Hu' & Hend).
    { apply wd_advance_step. }
    { exact Hinv. }
    { cbn [fst snd]. pose proof (pend_sum_bound _ _ _ _ Hok). pose proof (wd_ok_size _ _ _ _ Hok). unfold MAX_DOC_ID, loop_fuel, vsize in *. lia. }
    rewrite E'. cbn [res_bind fst snd] in *.
    destruct ok; cbn [negb].
    + destruct Hend as (k & i & m2 & -> & Hlt). destruct (wd_ok_head _ _ _ _ _ _ Hok') as (p & s & EP & El & Hr & Ha & _ & _ & Hle).
      unfold findPivot. cbn [findPivot_]. rewrite El. unfold above in Ha. rewrite Ha. cbn [res_bind].
      destruct (Z.leb_spec k (wd_currDoc it)); [lia|]. cbn iota zeta. rewrite (di_doc_spec _ _ _ Hr), Z.eqb_refl.
      unfold processPrePostings. cbn [snd is_nil]. rewrite (while_loop_once _ _ (true, (l', (k, i) :: m2))).
      2: { unfold pre_body. rewrite El, (di_doc_spec _ _ _ Hr), Z.ltb_irrefl. done. }
      cbn [res_bind]. assert (k ∈ R) as HkR by (apply Hu'; apply union_m_cons; left; rewrite EP; by left).
      eexists. rewrite bool_decide_eq_false_2 by (intros E0; rewrite E0 in HkR; by apply elem_of_nil in HkR). split; [done|].
      apply (Hrep _ _ _ _ P'); [unfold wand_mark; by rewrite length_map|by eapply wd_ok_mark|done|done].
    + subst m'. assert (R = []) as ER. { destruct R as [|x p]; [done|]. destruct (proj1 (Hu' x)) as (i & Hi & _); [by left|]. by apply elem_of_nil in Hi. }
      rewrite ER. eexists. split; [done|]. rewrite <- ER. by apply (Hrep _ _ _ _ P'); [|done|rewrite ER|].
Qed.

Definition wand_DocNextSpec : @DocNextSpec iter wand_ops.
Proof.
  refine {| di_rep := wand_rep : iter -> cursor -> Prop |}.
  - by intros it c [H _].
  - apply wand_next_spec.
  - intros it d p (Hwf & _ & _ & _ & Hcd & P & Hok & Hu). cbn in *. destruct Hwf as [Hs _]. cbn in Hs.
    specialize (Hcd ltac:(done)). pose proof (ssorted_head_le _ _ _ Hs Hcd).
    pose proof (wd_ok_least _ _ _ _ d Hok (proj1 (Hu d) ltac:(by left))). lia.
Defined.

Lemma wand_fresh_rep ss cs : Forall2 di_rep ss cs -> Forall (fun c => cu_fresh c = true /\ forall x, x ∈ cu_pend c -> 0 < x) cs -> Forall above ss ->
  vsize ss < 2 ^ 31 -> wand_rep (WandIter ((fun s => Some (s, false)) <$> ss) [] 0 thr 0) (Cursor true (union_list cs)).
Proof.
  intros H Hf Ha Hsz. split.
  { apply union_list_wf. clear -H. induction H; constructor; [by eapply di_rep_wf|done]. }
  split. { intros x (c & Hc & Hx)%union_list_elem. rewrite Forall_forall in Hf. by apply (Hf c Hc). }
  split. { unfold vsize in *. cbn. by rewrite length_fmap. }
  split; [done|]. cbn [cu_fresh cu_pend wd_list wd_sorter wd_currDoc]. split; [done|]. split; [done|].
  exists (fun i => default (Cursor true []) (cs !! i)). split.
  - intros i o. rewrite list_lookup_fmap. destruct (ss !! i) as [s|] eqn:Es; [|done]. intros [= <-].
    destruct (Forall2_lookup_l _ _ _ _ _ H Es) as (c & -> & Hr). exists s, false. rewrite Forall_lookup in Ha. split_and!; [done|done|by apply (Ha i)].
  - intros x. rewrite union_list_elem, length_fmap, (Forall2_length _ _ _ H). rewrite Forall_forall in Hf. split.
    + intros (c & Hc & Hx). pose proof (Hf c Hc) as [Ec _]. apply list_elem_of_lookup in Hc as [i Hi]. exists i.
      split; [by eapply lookup_lt_Some|]. rewrite Hi. cbn. unfold pend_after_next. by rewrite Ec.
    + intros (i & Hi & Hx). destruct (lookup_lt_is_Some_2 _ _ Hi) as [c Ec]. rewrite Ec in Hx. cbn in Hx.
      assert (c ∈ cs) as Hc by by eapply list_elem_of_lookup_2. unfold pend_after_next in Hx. rewrite (proj1 (Hf c Hc)) in Hx. by exists c.
Qed.
End WandSpec.

Lemma wand_add_all {S} (ss : list S) it : foldl (fun it s => wand_add s it) it ss =
  WandIter (wd_list it ++ ((fun s => Some (s, false)) <$> ss)) (wd_sorter it) (wd_currDoc it) (wd_threshold it) (wd_pivot it).
Proof.
  revert it. induction ss as [|s ss IH]; intros it; cbn; [rewrite app_nil_r; by destruct it|].
  rewrite IH. cbn. by rewrite <- app_assoc.
Qed.
