(* ===== verification/WildcardIterator.v ===== *)
(** * The wildcard iterator

Models search-manager/WildcardDocumentIterator.{h,cpp}: an OR iterator whose
children are offered to a queue that keeps the [maxTermThreshold_] most
frequent ones; the first [next] reads each of these and keeps those that have a
document. *)
From S2P Require Import Prelude PQueue TopK DocIterator OrIterator.

(** [df()] of a TermDocumentIterator. *)
Class DocFreq (S : Type) := df : S -> Z.

Record wild_iter (S Q W : Type) := WildIter {
  maxTermThreshold_ : Z;
  pWildcardDocIteratorQueue_ : option W;
  wi_core : or_core S Q
}.
Arguments WildIter {_ _ _} _ _ _.
Arguments maxTermThreshold_ {_ _ _} _.
Arguments pWildcardDocIteratorQueue_ {_ _ _} _.
Arguments wi_core {_ _ _} _.

Section WildOps.
Context {S Q W : Type} `{!DocIterator S, !DocFreq S, !PQueue Q nat, !PQueue W S}.
Notation iter := (wild_iter S Q W).
Notation children := (list (option (S * bool))).

Definition WildcardDocumentIterator (maxTerms junk : Z) : iter := WildIter maxTerms None (OrCore [] None junk).

(** WildcardDocumentIteratorQueue::lessThan *)
Definition rarer (o1 o2 : S) : bool := df o1 <? df o2.

(** [add] of a term iterator. *)
Definition wild_add (s : S) (it : iter) : res iter :=
  let w := match pWildcardDocIteratorQueue_ it with Some w => w | None => pq_new (maxTermThreshold_ it) end in
  let* (_, w) := pq_insert rarer s w in
  Ret (WildIter (maxTermThreshold_ it) (Some w) (wi_core it)).

Definition numIterators (it : iter) : Z :=
  match pWildcardDocIteratorQueue_ it with Some w => pq_size w | None => 0 end.

(** One turn of the loop of [initDocIteratorQueue]. *)
Definition wild_init_child (w : W) (n : nat) (st : children * Q) : res (children * Q) :=
  let (l, q) := st in
  let* s := pq_getAt w (Z.of_nat n) in
  let* (b, s) := di_next s in
  if b then
    let i := length l in
    let l := l ++ [Some (s, false)] in
    let* (_, q) := pq_insert (lessThan l) i q in
    Ret (l, q)
  else Ret (l, q).

Definition wild_init (it : iter) : res (or_core S Q) :=
  match pWildcardDocIteratorQueue_ it with
  | None => Undef
  | Some w =>
      let core := wi_core it in
      if pq_size w <? 1 then Ret core
      else
        let* (l, q) := mfold (wild_init_child w) (seq 0 (Z.to_nat (pq_size w))) (docIteratorList_ core, pq_new (pq_size w)) in
        Ret (OrCore l (Some q) (or_currDoc_ core))
  end.

Definition wild_set_core (it : iter) (core : or_core S Q) : iter :=
  WildIter (maxTermThreshold_ it) (pWildcardDocIteratorQueue_ it) core.

(** [next] and [skipTo] are those of ORDocumentIterator, which call this
    class's [initDocIteratorQueue]. *)
Definition wild_next (it : iter) : res (bool * iter) :=
  let* (b, core) :=
    match pDocIteratorQueue_ (wi_core it) with
    | None => let* core := wild_init it in or_start core
    | Some _ => or_do_next (wi_core it)
    end in
  Ret (b, wild_set_core it core).

Definition wild_skipTo (target : Z) (it : iter) : res (Z * iter) :=
  let* core :=
    match pDocIteratorQueue_ (wi_core it) with
    | None => wild_init it
    | Some _ => Ret (wi_core it)
    end in
  let* (d, core) := or_skip_from target core in
  Ret (d, wild_set_core it core).

Definition wild_ops : DocIterator iter :=
  {| di_next := wild_next; di_doc it := or_currDoc_ (wi_core it); di_skipTo := wild_skipTo; di_tf it := or_tf (wi_core it) |}.
End WildOps.

(** ** The union of the kept terms *)
Section WildSpec.
Context {S Q W : Type} `{!DocIterator S, !DocNextSpec S, !DocFreq S, !PQueue Q nat, !PQueueSpec Q nat, !PQueue W S, !PQueueSpec W S}.
Notation iter := (wild_iter S Q W).
Notation children := (list (option (S * bool))).
Implicit Types (l : children).

(** The queue of the wildcard iterator holds [ss], in some order. *)
Definition wild_fresh (it : iter) (cs : list cursor) : Prop :=
  pDocIteratorQueue_ (wi_core it) = None /\ docIteratorList_ (wi_core it) = [] /\
  exists w m ss, pWildcardDocIteratorQueue_ it = Some w /\ pq_rep rarer m w ss /\ ss <> [] /\
    Forall2 di_rep ss cs.

Definition wild_rep (it : iter) (c : cursor) : Prop :=
  cursor_wf c /\
  match pDocIteratorQueue_ (wi_core it) with
  | None => cu_fresh c = true /\ exists cs, wild_fresh it cs /\
      forall x, x ∈ cu_pend c <-> exists k, k ∈ cs /\ x ∈ pend_after_next k
  | Some _ => or_rep (wi_core it) c
  end.

(** After the first [k] of [ss] were read. *)
Definition wild_init_inv (m : Z) (ss : list S) (cs : list cursor) (rest : list nat) (st : children * Q) : Prop :=
  exists k L P, rest = seq k (length ss - k) /\ (k <= length ss)%nat /\ (length st.1 <= k)%nat /\
    L ⊆+ seq 0 (length st.1) /\ core_ok (fun _ f => f = false) m st.1 st.2 L P /\
    forall x, union_of L P x <-> exists c, c ∈ take k cs /\ x ∈ pend_after_next c.

Lemma core_ok_snoc m l q L P (s : S) d p :
  core_ok (fun _ f => f = false) m l q L P -> L ⊆+ seq 0 (length l) -> vsize l < m -> di_rep s (Cursor false (d :: p)) ->
  exists q', pq_insert (lessThan (l ++ [Some (s, false)])) (length l) q = Ret (true, q') /\
    core_ok (fun _ f => f = false) m (l ++ [Some (s, false)]) q' (length l :: L) (<[length l := d :: p]> P).
Proof.
  intros (Hn & Hq & H) HL Hlt Hr.
  assert (forall i, i ∈ L -> (i < length l)%nat) as HLl.
  { intros i Hi. apply (elem_of_submseteq _ _ _ Hi) in HL. apply elem_of_seq in HL. lia. }
  assert (length l ∉ L) as Hi by (intros Hin; specialize (HLl _ Hin); lia).
  destruct (pq_insert_spec (lessThan (l ++ [Some (s, false)])) m q L (length l)) as (Hins & _ & _); [apply StrictWeak_key| |].
  { eapply pq_rep_agree; [done|]. intros x y Hx Hy. unfold lessThan, child_doc. by rewrite !(lookup_app_l l) by auto. }
  destruct Hins as (q' & E & Hq').
  { apply submseteq_length in HL. rewrite length_seq in HL. unfold vsize in *. lia. }
  exists q'. split; [done|]. split_and!; [by apply NoDup_cons|done|].
  intros j [->|Hj]%elem_of_cons.
  - rewrite fn_lookup_insert. exists d, p, false. split_and!; [done..|]. exists s. split; [|done].
    by apply list_lookup_middle.
  - destruct (H j Hj) as (d' & p' & f & E' & Hf & s' & Es & Hr'). assert (length l <> j) by (specialize (HLl _ Hj); lia). rewrite fn_lookup_insert_ne by done.
    exists d', p', f. split_and!; [done..|]. exists s'. by rewrite lookup_app_l by auto.
Qed.

Lemma take_S_union k cs c x : cs !! k = Some c ->
  (exists c', c' ∈ take (Datatypes.S k) cs /\ x ∈ pend_after_next c') <->
  x ∈ pend_after_next c \/ exists c', c' ∈ take k cs /\ x ∈ pend_after_next c'.
Proof.
  intros E. rewrite (take_S_r _ _ _ E). setoid_rewrite elem_of_app. setoid_rewrite list_elem_of_singleton. naive_solver.
Qed.

Lemma wild_init_step m w ss cs n rest st :
  (forall i, 0 <= i < vsize ss -> pq_getAt w i = vget ss i) -> Forall2 di_rep ss cs -> vsize ss <= m ->
  wild_init_inv m ss cs (n :: rest) st ->
  exists st', wild_init_child w n st = Ret st' /\ wild_init_inv m ss cs rest st'.
Proof.
  intros Hget Hss Hm (k & L & P & Er & Hk & Hlen & HL & Hok & Hu).
  destruct (length ss - k)%nat eqn:Ek; [done|]. injection Er as -> Er.
  destruct (lookup_lt_is_Some_2 ss k ltac:(lia)) as [s Es].
  destruct (Forall2_lookup_l _ _ _ _ _ Hss Es) as (c & Ec & Hr).
  destruct st as [l q]; cbn [fst snd] in *. unfold wild_init_child.
  rewrite Hget by (unfold vsize; lia).
  assert (vget ss (Z.of_nat k) = Ret s) as -> by (apply vget_Ret; split; [lia|by rewrite Nat2Z.id]). rsimpl.
  destruct (di_next_spec s c Hr) as (s' & -> & Hr'). cbn in Hr'. cbn [fst cursor_next res_bind].
  pose proof (take_S_union k cs c) as Htake.
  destruct (pend_after_next c) as [|d p] eqn:Ep; cbn [negb bool_decide decide_rel].
  - eexists. split; [done|]. exists (Datatypes.S k), L, P. cbn [fst snd]. split_and!; [rewrite Er; f_equal; lia|lia|lia|done|done|].
    intros x. rewrite Htake, Hu by done. rewrite elem_of_nil. tauto.
  - rewrite bool_decide_eq_false_2 by done. cbn [negb].
    destruct (core_ok_snoc m l q L P s' d p Hok HL ltac:(unfold vsize in *; lia) Hr') as (q' & -> & Hok'). rsimpl.
    eexists. split; [done|]. exists (Datatypes.S k), (length l :: L), (<[length l := d :: p]> P). cbn [fst snd].
    rewrite length_app. cbn [length]. split_and!; [rewrite Er; f_equal; lia|lia|lia| |done|].
    + rewrite Nat.add_1_r, seq_S. rewrite (Permutation_app_comm _ [_]). by apply submseteq_skip.
    + intros x. rewrite Htake, union_sub, Hu by (done || (intros Hin; apply (elem_of_submseteq _ _ _ Hin) in HL; apply elem_of_seq in HL; lia)).
      tauto.
Qed.

Lemma wild_init_spec it cs : wild_fresh it cs ->
  exists l q m L P, wild_init it = Ret (OrCore l (Some q) (or_currDoc_ (wi_core it))) /\ vsize l < 2 ^ 31 /\
    core_ok (fun _ f => f = false) m l q L P /\
    forall x, union_of L P x <-> exists c, c ∈ cs /\ x ∈ pend_after_next c.
Proof.
  intros (_ & El & w & m & ss & Ew & Hw & Hne & Hss). unfold wild_init. rewrite Ew, El.
  destruct (pq_getAt_spec _ _ _ _ Hw) as (ss' & Hp & Hget). rewrite (pq_size_spec _ _ _ _ Hw) in Hget |- *.
  pose proof (pq_rep_size _ _ _ _ Hw) as Hm.
  assert (vsize ss = vsize ss') as Esz by (unfold vsize; by rewrite Hp).
  destruct (Permutation_Forall2 Hp Hss) as (cs' & Hcs & Hss').
  destruct (Z.ltb_spec (vsize ss) 1) as [Hlt|Hge].
  { destruct ss; [done|]. rewrite vsize_cons in *. pose proof (vsize_nonneg ss). lia. }
  replace (Z.to_nat (vsize ss)) with (length ss') by (rewrite Esz; unfold vsize; lia).
  destruct (mfold_rule (wild_init_child w) (wild_init_inv (vsize ss) ss' cs') (seq 0 (length ss')) ([], pq_new (vsize ss)))
    as ([l q] & -> & k & L & P & Er & Hk & Hlen & HL & Hok & Hu).
  - intros n rest st. apply wild_init_step; [by rewrite <- Esz|done|lia].
  - exists 0%nat, [], (fun _ => []). cbn. split_and!; [by rewrite Nat.sub_0_r|lia|lia|done| |].
    + split_and!; [constructor|apply pq_new_spec; lia|]. by intros i ?%elem_of_nil.
    + intros x. split; [intros (i & Hi & _); by apply elem_of_nil in Hi|intros (c & Hc & _); by apply elem_of_nil in Hc].
  - cbn [fst snd] in *. rsimpl. exists l, q, (vsize ss), L, P. split_and!; [done|unfold vsize in *; lia|done|].
    destruct (length ss' - k)%nat eqn:E; [|done].
    intros x. rewrite Hu, take_ge by (rewrite <- (Forall2_length _ _ _ Hss'); lia). by setoid_rewrite Hcs.
Qed.

(** Once built, the queue stays. *)
Notation started core := (is_Some (pDocIteratorQueue_ core)).

Lemma or_start_started (core core' : or_core S Q) b : started core -> or_start core = Ret (b, core') -> started core'.
Proof.
  intros [q E]. unfold or_start. rewrite E. intros (top & _ & H)%bind_Ret_inv. destruct top; [|injection H as _ <-; by rewrite E].
  apply bind_Ret_inv in H as (l & _ & H). injection H as _ <-. done.
Qed.

Lemma or_do_next_started (core core' : or_core S Q) b : started core -> or_do_next core = Ret (b, core') -> started core'.
Proof.
  intros [q E]. unfold or_do_next. rewrite E. intros ([[l q'] top] & _ & H)%bind_Ret_inv. destruct top; injection H as _ <-; done.
Qed.

Lemma or_skip_started (core core' : or_core S Q) t d : started core -> or_skip_from t core = Ret (d, core') -> started core'.
Proof.
  intros [q E]. unfold or_skip_from, or_skip_queue. rewrite E. destruct (_ <? 1); [intros [= _ <-]; done|].
  intros ([[l q'] x] & _ & H)%bind_Ret_inv. injection H as _ <-. done.
Qed.

Lemma wild_rep_started it core c : started core -> or_rep core c -> wild_rep (wild_set_core it core) c.
Proof. intros [q E] Hr. split; [by destruct Hr|]. cbn [wi_core wild_set_core]. by rewrite E. Qed.

Lemma wild_next_spec it c : wild_rep it c -> exists it', wild_next it = Ret (fst (cursor_next c), it') /\ wild_rep it' (snd (cursor_next c)).
Proof.
  intros [Hwf H]. unfold wild_next. destruct (pDocIteratorQueue_ (wi_core it)) eqn:Eq.
  - destruct (or_do_next_spec _ _ H) as (core' & E & Hr). rewrite E. eexists. split; [done|].
    apply wild_rep_started; [|done]. eapply or_do_next_started; [by rewrite Eq|done].
  - destruct H as (Ef & cs & Hcs & Hu). destruct (wild_init_spec _ _ Hcs) as (l & q & m & L & P & -> & Hsz & Hok & HU). rsimpl.
    unfold cursor_next, pend_after_next. rewrite Ef.
    destruct (or_start_spec m l q L P (or_currDoc_ (wi_core it)) (cu_pend c) Hok Hsz) as (core' & E & Hr); [exact Hwf|by intros x; rewrite Hu, HU|].
    rewrite E. eexists. split; [done|]. apply wild_rep_started; [|done]. by eapply or_start_started, E.
Qed.

Lemma wild_skipTo_spec `{!SkipLaw S before} it c t : wild_rep it c -> 0 <= t < MAX_DOC_ID ->
  exists it', wild_skipTo t it = Ret (fst (cursor_skipTo t c), it') /\ wild_rep it' (snd (cursor_skipTo t c)).
Proof.
  intros [Hwf H] Ht. unfold wild_skipTo. destruct (pDocIteratorQueue_ (wi_core it)) eqn:Eq.
  - destruct (or_do_skipTo_spec _ _ t H Ht) as (core' & E & Hr & _). unfold or_do_skipTo in E. rewrite Eq in E. rsimpl.
    cbn [res_bind] in E. rewrite E. eexists. split; [done|].
    apply wild_rep_started; [|done]. eapply or_skip_started; [by rewrite Eq|done].
  - destruct H as (Ef & cs & Hcs & Hu). destruct (wild_init_spec _ _ Hcs) as (l & q & m & L & P & -> & Hsz & Hok & HU). rsimpl.
    destruct (or_skip_loop t m l q L P (cu_pend c) Ht Hsz) as (core' & E & Hr & _); [by eapply core_ok_mono|by intros x; rewrite Hu, HU|exact Hwf|].
    unfold or_skip_from; cbn [pDocIteratorQueue_ docIteratorList_]. rewrite E. eexists. split; [done|].
    apply wild_rep_started; [|done]. eapply (or_skip_started (OrCore l (Some q) 0)); [done|]. exact E.
Qed.

Definition wild_DocNextSpec : @DocNextSpec iter wild_ops.
Proof.
  refine {| di_rep := wild_rep : iter -> cursor -> Prop |}.
  - by intros it c [H _].
  - apply wild_next_spec.
  - intros it d p [Hwf H]. cbn. destruct (pDocIteratorQueue_ (wi_core it)); [|by destruct H].
    by eapply or_rep_doc.
Defined.

(** ** The kept terms are the most frequent ones *)
Definition wild_add_all (ss : list S) (it : iter) : res iter := mfold wild_add ss it.

Lemma wild_add_offer it w ss : pWildcardDocIteratorQueue_ it = Some w ->
  wild_add_all ss it = let* w := offer_all rarer ss w in Ret (WildIter (maxTermThreshold_ it) (Some w) (wi_core it)).
Proof.
  unfold wild_add_all, offer_all. revert it w. induction ss as [|s ss IH]; intros it w E; cbn.
  - destruct it; cbn in *. by rewrite E.
  - unfold wild_add at 1. rewrite E. destruct (pq_insert rarer s w) as [[b w']| | |]; cbn; [|done..]. by rewrite (IH _ w').
Qed.

Context (docs : S -> list Z).
Notation cur s := (Cursor true (docs s)).

Lemma best_of_sub (k : Z) (l r : list S) : best_of rarer k l r -> r ⊆ l.
Proof. intros (_ & rest & Hp & _) x Hx. rewrite Hp. set_solver. Qed.

(** A wildcard iterator to which [ss] were added keeps the [k] most frequent
    and represents the union of their documents. *)
Lemma wild_build_rep k junk (ss : list S) : 1 <= k < 2 ^ 31 -> ss <> [] ->
  Forall (fun s => di_rep s (cur s)) ss ->
  exists it kept, wild_add_all ss (WildcardDocumentIterator k junk : iter) = Ret it /\
    best_of rarer k ss kept /\ numIterators it = vsize kept /\
    wild_rep it (Cursor true (union_list (map (fun s => cur s) kept))).
Proof.
  intros Hk Hne Hss. destruct ss as [|s ss]; [done|].
  destruct (offer_all_spec (Q := W) rarer k (s :: ss) (pq_new k) [] []) as (w & kept & E & Hw & Hb).
  { apply pq_new_spec. lia. }
  { split; [unfold vsize; cbn; lia|]. exists []. split; [done|]. by intros x y ?%elem_of_nil. }
  cbn [app] in Hb. pose proof Hb as [Hsz _]. pose proof (best_of_sub _ _ _ Hb) as Hsub.
  assert (Forall (fun s => di_rep s (cur s)) kept) as Hkc.
  { rewrite Forall_forall in Hss |- *. auto. }
  assert (kept <> []) as Hkne.
  { intros ->. rewrite vsize_cons in Hsz. pose proof (vsize_nonneg ss). unfold vsize in Hsz at 1; cbn in Hsz. lia. }
  eexists (WildIter k (Some w) (OrCore [] None junk)), kept. split_and!; [|done| |].
  - unfold wild_add_all. cbn [mfold]. unfold offer_all in E. cbn [mfold] in E. unfold wild_add at 1.
    cbn [pWildcardDocIteratorQueue_ maxTermThreshold_ wi_core WildcardDocumentIterator].
    destruct (pq_insert rarer s (pq_new k)) as [[b w']| | |]; cbn [res_bind] in E |- *; [|done..].
    pose proof (wild_add_offer (WildIter k (Some w') (OrCore [] None junk)) w' ss eq_refl) as H.
    unfold wild_add_all, offer_all in H. rewrite H, E. done.
  - cbn. by apply (pq_size_spec rarer k w kept).
  - split.
    + apply union_list_wf. apply Forall_map. eapply Forall_impl; [exact Hkc|]. intros s'. apply di_rep_wf.
    + cbn. split; [done|]. exists (map (fun s => cur s) kept). split.
      * split; [done|]. split; [done|]. exists w, k, kept. split_and!; [done..|]. by apply Forall2_fmap_r, Forall_Forall2_diag.
      * intros x. rewrite union_list_elem. split; intros (c & Hc & Hx); exists c; (split; [done|]);
          apply list_elem_of_fmap in Hc as (s' & -> & _); exact Hx.
Qed.

(** C40: a wildcard iterator to which term iterators were added keeps the [k]
    most frequent of them; read to its end it returns in order the documents
    that one of the kept terms holds. *)
Theorem wildcard_documents k junk (ss : list S) : 1 <= k < 2 ^ 31 -> ss <> [] ->
  Forall (fun s => di_rep s (cur s)) ss ->
  exists it kept ds, wild_add_all ss (WildcardDocumentIterator k junk : iter) = Ret it /\
    best_of rarer k ss kept /\ drain (DocIterator0 := wild_ops) it = Ret ds /\ ssorted ds /\
    forall x, x ∈ ds <-> exists s, s ∈ kept /\ x ∈ docs s.
Proof.
  intros Hk Hne Hss. destruct (wild_build_rep k junk ss Hk Hne Hss) as (it & kept & E & Hb & _ & Hr).
  eexists it, kept, _. split; [done|]. split; [done|]. split.
  - exact (drain_spec (DocIterator0 := wild_ops) (DocNextSpec0 := wild_DocNextSpec) it _ Hr).
  - split; [apply ssort_sorted|]. intros x. cbn. rewrite union_list_elem. split.
    + intros (c & (s & -> & Hs)%list_elem_of_fmap & Hx). eauto.
    + intros (s & Hs & Hx). exists (cur s). split; [|done]. apply list_elem_of_fmap. eauto.
Qed.
End WildSpec.

(** A posting list has its length as frequency. *)
#[export] Instance cursor_DocFreq : DocFreq cursor := fun c => vsize (cu_pend c).
#[export] Instance cursor_Inhabited : Inhabited cursor := populate (posting []).

Lemma wildcard_documents_witness : exists it kept ds,
  wild_add_all [posting [4; 6]; posting [1]; posting [2; 4; 9]] (WildcardDocumentIterator 2 0 : wild_iter cursor (heap nat) (heap cursor)) = Ret it /\
  best_of rarer 2 [posting [4; 6]; posting [1]; posting [2; 4; 9]] kept /\
  drain (DocIterator0 := wild_ops) it = Ret ds /\ ssorted ds /\ forall x, x ∈ ds <-> exists s, s ∈ kept /\ x ∈ cu_pend s.
Proof.
  apply wildcard_documents; [done|done|]. rewrite !Forall_cons. split_and!; [..|done]; (split; [done|]); by apply posting_wf.
Defined.
