(* ===== verification/QueryIter.v ===== *)
(** * The iterators of a query

The trees of document iterators that search-manager/QueryBuilder.cpp builds:
readers of the documents of a term (TermDocumentIterator.{h,cpp},
SearchTermDocumentIterator.h), of a term that only adds to the rank
(RankTermDocumentIterator.h), of a term over several properties
(VirtualTermDocumentIterator.h), of a filter (FilterDocumentIterator.h), of a
phrase (PhraseIterator.v), of all documents (AllDocIterator.v), and AND, OR, WAND and personal iterators and the
scorer of several properties (MultiPropertyScorer.{h,cpp}) over such trees,
and the wildcard iterator over readers (WildcardIterator.v). The
virtual operations of a tree run those of its children; [q_ops n] are the
operations of the trees of depth at most [n]. *)
From S2P Require Import Prelude PQueue Float64 DocIterator OrIterator AndIterator AllDocIterator PhraseMatch PhraseIterator WandIterator WildcardIterator.

(** The members of a TermDocumentIterator besides its reader. *)
Record term_data := TermData { t_property : string; t_termIndex : Z; t_df : Z; t_ub : spec_float }.

Record term_iter (D : Type) := TermIter { ti_data : term_data; pTermDocReader_ : option D }.
Arguments TermIter {_} _ _.
Arguments ti_data {_} _.
Arguments pTermDocReader_ {_} _.

#[export] Instance term_iter_DocFreq {D} : DocFreq (term_iter D) := fun t => t_df (ti_data t).
#[export] Instance term_iter_Inhabited {D} : Inhabited (term_iter D) := populate (TermIter (TermData "" 0 0 f32_zero) None).

Section Term.
Context {D : Type} `{!DocIterator D}.

(** The operations of a TermDocumentIterator. *)
Definition term_next (o : option D) : res (bool * option D) :=
  match o with Some d => let* (b, d) := di_next d in Ret (b, Some d) | None => Ret (false, None) end.
Definition term_doc (o : option D) : Z := match o with Some d => di_doc d | None => 0 end.
Definition term_skipTo (target : Z) (o : option D) : res (Z * option D) :=
  match o with Some d => let* (r, d) := di_skipTo target d in Ret (r, Some d) | None => Undef end.
Definition term_tf (o : option D) : res Z := match o with Some d => di_tf d | None => Undef end.

#[export] Instance term_ops : DocIterator (term_iter D) := {
  di_next it := let* (b, o) := term_next (pTermDocReader_ it) in Ret (b, TermIter (ti_data it) o);
  di_doc it := term_doc (pTermDocReader_ it);
  di_skipTo target it := let* (r, o) := term_skipTo target (pTermDocReader_ it) in Ret (r, TermIter (ti_data it) o);
  di_tf it := term_tf (pTermDocReader_ it)
}.
End Term.

Inductive qiter (D Q : Type) :=
| QTerm (it : term_iter D)
| QRank (nextResponse_ hasNext_ isCurrent_ : bool) (currDoc_ : Z) (it : term_iter D)
| QVirtual (OrDocIterator_ : option (qiter D Q))
| QFilter (termDocFreqs_ : D)
| QPhrase (it : phrase_iter D)
| QAnd (missRate_ : spec_float) (it : and_iter (qiter D Q) (or_core (qiter D Q) Q))
| QPersonal (nextResponse_ hasNext_ personal_current_ : bool) (missRate_ : spec_float) (it : and_iter (qiter D Q) (or_core (qiter D Q) Q))
| QOr (missRate_ : spec_float) (it : or_iter (qiter D Q) Q (or_core (qiter D Q) Q))
| QScorer (indexPropertyIdList_ : list Z) (missRate_ : spec_float) (it : or_iter (qiter D Q) Q (or_core (qiter D Q) Q))
| QWildcard (missRate_ : spec_float) (it : wild_iter (term_iter D) Q (heap (term_iter D)))
| QWand (missRate_ : spec_float) (it : wand_iter (qiter D Q))
| QAll (it : all_iter D).
Arguments QTerm {_ _} _.
Arguments QRank {_ _} _ _ _ _ _.
Arguments QVirtual {_ _} _.
Arguments QFilter {_ _} _.
Arguments QPhrase {_ _} _.
Arguments QAnd {_ _} _ _.
Arguments QPersonal {_ _} _ _ _ _ _.
Arguments QOr {_ _} _ _.
Arguments QScorer {_ _} _ _ _.
Arguments QWildcard {_ _} _ _.
Arguments QWand {_ _} _ _.
Arguments QAll {_ _} _.

(** [add]: the readers ignore it, a virtual term replaces what it had. A
    wildcard iterator is built complete, the builder adds nothing to it. *)
Definition q_add {D Q} (isNot : bool) (child parent : qiter D Q) : qiter D Q :=
  match parent with
  | QTerm _ | QRank _ _ _ _ _ | QFilter _ | QPhrase _ | QWildcard _ _ | QAll _ => parent
  | QVirtual _ => QVirtual (Some child)
  | QAnd r it => QAnd r (and_add isNot child it)
  | QPersonal a b c r it => QPersonal a b c r (and_add isNot child it)
  | QOr r it => QOr r (or_add isNot child it)
  | QScorer ids r it => QScorer ids r (or_add isNot child it)
  | QWand r it => QWand r (wand_add child it)
  end.

Section Level.
Context {D Q : Type} `{!DocIterator D, !TermPositions D, !PQueue Q nat} {I : DocIterator (qiter D Q)} {U : UpperBound (qiter D Q)}.
Context (getTermReader : option (string -> Z -> option D)).

(** The operations of a tree from those of its children. *)
Definition level_next (it : qiter D Q) : res (bool * qiter D Q) :=
  match it with
  | QTerm t => let* (b, t) := di_next t in Ret (b, QTerm t)
  | QRank response hasNext isCurrent cur t =>
      if hasNext then
        let* (hasNext, t) := di_next t in Ret (response, QRank response hasNext hasNext cur t)
      else Ret (response, it)
  | QVirtual None => Undef
  | QVirtual (Some o) => let* (b, o) := di_next o in Ret (b, QVirtual (Some o))
  | QFilter d => let* (b, d) := di_next d in Ret (b, QFilter d)
  | QPhrase p => let* (b, p) := ph_next getTermReader p in Ret (b, QPhrase p)
  | QAnd r a => let* (b, a) := and_next a in Ret (b, QAnd r a)
  | QPersonal response hasNext _ r a =>
      if hasNext then
        let* (hasNext, a) := and_next a in Ret (response, QPersonal response hasNext hasNext r a)
      else Ret (response, QPersonal response hasNext hasNext r a)
  | QOr r o => let* (b, o) := or_next o in Ret (b, QOr r o)
  | QScorer ids r o => let* (b, o) := or_next o in Ret (b, QScorer ids r o)
  | QWildcard r w => let* (b, w) := wild_next w in Ret (b, QWildcard r w)
  | QWand r w => let* (b, w) := wand_next w in Ret (b, QWand r w)
  | QAll x => let* (b, x) := di_next x in Ret (b, QAll x)
  end.

Definition level_doc (it : qiter D Q) : Z :=
  match it with
  | QTerm t | QRank _ _ _ _ t => di_doc t
  | QVirtual None => 0
  | QVirtual (Some o) => di_doc o
  | QFilter d => di_doc d
  | QPhrase p => ph_currDoc_ p
  | QAnd _ a | QPersonal _ _ _ _ a => and_currDoc_ (ai_core a)
  | QOr _ o | QScorer _ _ o => or_currDoc_ (oi_core o)
  | QWildcard _ w => or_currDoc_ (wi_core w)
  | QWand _ w => wd_currDoc w
  | QAll x => di_doc x
  end.

(** PersonalSearchDocumentIterator::skipTo: [currDoc_] is the member of its
    base class. *)
Definition and_set_currDoc (d : Z) (a : and_iter (qiter D Q) (or_core (qiter D Q) Q)) : and_iter (qiter D Q) (or_core (qiter D Q) Q) :=
  AndIter (AndCore (docIterList_ (ai_core a)) (nIteratorNum_ (ai_core a)) d)
    (ai_hasNot_ a) (ai_currDocOfNOTIter_ a) (ai_initNOTIterator_ a) (ai_pNOTDocIterator_ a).

Definition level_skipTo (target : Z) (it : qiter D Q) : res (Z * qiter D Q) :=
  match it with
  | QTerm t => let* (r, t) := di_skipTo target t in Ret (r, QTerm t)
  | QRank response hasNext isCurrent cur t =>
      let* (cur, t) := (if cur <? target then di_skipTo target t else Ret (cur, t)) in
      Ret (target, QRank response hasNext (target =? cur) cur t)
  | QVirtual None => Undef
  | QVirtual (Some o) => let* (r, o) := di_skipTo target o in Ret (r, QVirtual (Some o))
  | QFilter d => let* (r, d) := di_skipTo target d in Ret (r, QFilter d)
  | QPhrase p => let* (r, p) := di_skipTo (DocIterator := phrase_ops getTermReader) target p in Ret (r, QPhrase p)
  | QAnd m a => let* (r, a) := and_skipTo target a in Ret (r, QAnd m a)
  | QPersonal response hasNext _ m a =>
      let* a := (if and_currDoc_ (ai_core a) <? target then let* (r, a) := and_skipTo target a in Ret (and_set_currDoc r a) else Ret a) in
      Ret (target, QPersonal response hasNext (target =? and_currDoc_ (ai_core a)) m a)
  | QOr m o => let* (r, o) := or_skipTo target o in Ret (r, QOr m o)
  | QScorer ids m o => let* (r, o) := or_skipTo target o in Ret (r, QScorer ids m o)
  | QWildcard m w => let* (r, w) := wild_skipTo target w in Ret (r, QWildcard m w)
  | QWand m w => let* (r, w) := wand_skipTo target w in Ret (r, QWand m w)
  | QAll x => let* (r, x) := di_skipTo target x in Ret (r, QAll x)
  end.

(** VirtualTermDocumentIterator::tf: the readers are those of the children of
    the OR iterator, which own them. *)
Definition virtual_tf (o : qiter D Q) : res Z :=
  match o with
  | QOr _ o => mfold (fun c freq => match c with
      | Some (QTerm t, _) => let* f := di_tf t in Ret (u32 (freq + f))
      | _ => Undef
      end) (docIteratorList_ (oi_core o)) 0
  | _ => Undef
  end.

Definition level_tf (it : qiter D Q) : res Z :=
  match it with
  | QTerm t | QRank _ _ _ _ t => di_tf t
  | QVirtual None => Undef
  | QVirtual (Some o) => virtual_tf o
  | QFilter d => di_tf d
  | QPhrase p => ph_tf getTermReader p
  | QAnd _ a | QPersonal _ _ _ _ a => and_tf (ai_core a)
  | QOr _ o | QScorer _ _ o => or_tf (oi_core o)
  | QWildcard _ w => or_tf (wi_core w)
  | QWand _ w => Ret 0
  | QAll x => di_tf x
  end.

Definition level_ops : DocIterator (qiter D Q) :=
  {| di_next := level_next; di_doc := level_doc; di_skipTo := level_skipTo; di_tf := level_tf |}.

(** *** The upper bounds that WAND prunes by *)
Definition term_ub : UpperBound (term_iter D) := {| getUB t := t_ub (ti_data t) |}.

Definition level_getUB (it : qiter D Q) : spec_float :=
  match it with
  | QTerm t | QRank _ _ _ _ t => t_ub (ti_data t)
  | QVirtual _ | QFilter _ | QPhrase _ | QAll _ => f32_zero
  | QAnd r a | QPersonal _ _ _ r a => sum_ub (map Some (docIterList_ (ai_core a))) r
  | QOr r o | QScorer _ r o => min_ub (map (option_map fst) (docIteratorList_ (oi_core o))) r
  | QWildcard r w => min_ub (UpperBound0 := term_ub) (map (option_map fst) (docIteratorList_ (wi_core w))) r
  | QWand r w => wand_ub r w
  end.

Context (ubmap : string -> Z -> spec_float) (setUB : qiter D Q -> res (qiter D Q)).

Definition term_setUB (it : term_iter D) : term_iter D :=
  let t := ti_data it in
  TermIter (TermData (t_property t) (t_termIndex t) (t_df t) (ubmap (t_property t) (t_termIndex t))) (pTermDocReader_ it).

(** An entry that is NULL: OR's [setUB] and WAND's [initThreshold] dereference
    it, the others skip it. *)
Definition slot_setUB {S} (setUB : S -> res S) (skip : bool) (o : option (S * bool)) : res (option (S * bool)) :=
  match o with
  | Some (s, b) => let* s := setUB s in Ret (Some (s, b))
  | None => if skip then Ret None else Undef
  end.

Definition or_set_list (l : list (option (qiter D Q * bool))) (o : or_iter (qiter D Q) Q (or_core (qiter D Q) Q)) :=
  OrIter (OrCore l (pDocIteratorQueue_ (oi_core o)) (or_currDoc_ (oi_core o))) (hasNot_ o) (currDocOfNOTIter_ o) (initNOTIterator_ o) (pNOTDocIterator_ o).
Definition and_set_list (l : list (qiter D Q)) (a : and_iter (qiter D Q) (or_core (qiter D Q) Q)) :=
  AndIter (AndCore l (nIteratorNum_ (ai_core a)) (and_currDoc_ (ai_core a))) (ai_hasNot_ a) (ai_currDocOfNOTIter_ a) (ai_initNOTIterator_ a) (ai_pNOTDocIterator_ a).
Definition wand_set_list (l : list (option (qiter D Q * bool))) (w : wand_iter (qiter D Q)) :=
  WandIter l (wd_sorter w) (wd_currDoc w) (wd_threshold w) (wd_pivot w).

Definition level_setUB (it : qiter D Q) : res (qiter D Q) :=
  match it with
  | QTerm t => Ret (QTerm (term_setUB t))
  | QRank a b c d t => Ret (QRank a b c d (term_setUB t))
  | QVirtual _ | QFilter _ | QPhrase _ | QAll _ => Ret it
  | QAnd r a =>
      let* l := each setUB (docIterList_ (ai_core a)) in Ret (QAnd (miss_rate r (vsize l)) (and_set_list l a))
  | QPersonal x y z r a =>
      let* l := each setUB (docIterList_ (ai_core a)) in Ret (QPersonal x y z (miss_rate r (vsize l)) (and_set_list l a))
  | QOr r o =>
      let* l := each (slot_setUB setUB false) (docIteratorList_ (oi_core o)) in Ret (QOr (miss_rate r (vsize l)) (or_set_list l o))
  | QScorer ids r o =>
      let* l := each (slot_setUB setUB true) (docIteratorList_ (oi_core o)) in Ret (QScorer ids r (or_set_list l o))
  | QWildcard r w =>
      let core := wi_core w in
      let* l := each (slot_setUB (fun t => Ret (term_setUB t)) false) (docIteratorList_ core) in
      Ret (QWildcard (miss_rate r (vsize l)) (wild_set_core w (OrCore l (pDocIteratorQueue_ core) (or_currDoc_ core))))
  | QWand r w =>
      match wd_list w with
      | [] => Ret it
      | _ => let* l := each (slot_setUB setUB true) (wd_list w) in Ret (QWand (miss_rate r (vsize l)) (wand_set_list l w))
      end
  end.

(** [initThreshold]: only the scorer and WAND hand it on. *)
Context (threshold : spec_float) (initThreshold : qiter D Q -> res (qiter D Q)).
Definition level_initThreshold (it : qiter D Q) : res (qiter D Q) :=
  match it with
  | QScorer ids r o =>
      let* l := each (slot_setUB initThreshold true) (docIteratorList_ (oi_core o)) in Ret (QScorer ids r (or_set_list l o))
  | QWand r w =>
      let* l := each (slot_setUB initThreshold false) (wd_list w) in
      Ret (QWand r (wand_initThreshold r threshold (wand_set_list l w)))
  | _ => Ret it
  end.
End Level.

(** ** The operations of trees of bounded depth *)
Section Depth.
Context {D Q : Type} `{!DocIterator D, !TermPositions D, !PQueue Q nat}.
Context (getTermReader : option (string -> Z -> option D)).

Definition no_ops : DocIterator (qiter D Q) :=
  {| di_next _ := NoFuel; di_doc _ := 0; di_skipTo _ _ := NoFuel; di_tf _ := NoFuel |}.

Fixpoint q_ub (n : nat) : UpperBound (qiter D Q) :=
  match n with O => {| getUB _ := f32_zero |} | S n => {| getUB := level_getUB (U := q_ub n) |} end.

Fixpoint q_ops (n : nat) : DocIterator (qiter D Q) :=
  match n with O => no_ops | S n => level_ops (I := q_ops n) (U := q_ub n) getTermReader end.

Fixpoint q_setUB (ubmap : string -> Z -> spec_float) (n : nat) : qiter D Q -> res (qiter D Q) :=
  match n with O => fun _ => NoFuel | S n => level_setUB ubmap (q_setUB ubmap n) end.

Fixpoint q_initThreshold (threshold : spec_float) (n : nat) : qiter D Q -> res (qiter D Q) :=
  match n with O => fun _ => NoFuel | S n => level_initThreshold (U := q_ub n) threshold (q_initThreshold threshold n) end.
End Depth.

(** ** The trees represent cursors

Every iterator but the NOT part of AND and OR, the rank-only terms, the
personal ones, WAND and that of all documents honours the contract under [next] and under [skipTo] to
a document behind the current one. *)
#[export] Instance term_DocNextSpec {D} `{!DocIterator D, !DocNextSpec D} : DocNextSpec (term_iter D).
Proof.
  refine {| di_rep (it : term_iter D) c := exists d, pTermDocReader_ it = Some d /\ di_rep d c |}.
  - intros it c (d & _ & H). by eapply di_rep_wf.
  - intros it c (d & E & H). destruct (di_next_spec d c H) as (d' & En & H'). cbn. rewrite E. cbn. rewrite En.
    eexists. split; [done|]. by exists d'.
  - intros it d p (d' & E & H). cbn. rewrite E. by apply (di_doc_spec d' d p).
Defined.

#[export] Instance term_SkipLaw {D} `{!DocIterator D, !DocNextSpec D, !SkipLaw D before} : SkipLaw (term_iter D) before.
Proof.
  intros it c t (d & E & H) Ht Hb. destruct (skip_law d c t H Ht Hb) as (d' & Es & H'). cbn. rewrite E. cbn. rewrite Es.
  eexists. split; [done|]. by exists d'.
Qed.

(** The default [skipTo] moves on first, which a caller that leaves the
    current document does not notice. *)
Lemma pend_from_before t c : before t c -> pend_from t (pend_after_next c) = pend_from t (cu_pend c).
Proof.
  intros H. unfold pend_after_next. destruct c as [f p]; cbn. destruct f; [done|]. destruct p as [|x p]; [done|]. cbn.
  destruct H as [H|H]; [done|]. by rewrite pend_from_cons_lt by by eapply H.
Qed.

Section LevelSpec.
Context {D Q : Type} `{!DocIterator D, !DocNextSpec D, !SkipLaw D before, !TermPositions D, !TermPositionsSpec D, !PQueue Q nat, !PQueueSpec Q nat}.
Context {I : DocIterator (qiter D Q)} {U : UpperBound (qiter D Q)}.
Context (getTermReader : option (string -> Z -> option D)).
Notation ops := (level_ops (I := I) (U := U) getTermReader).

Section Rep.
Context {IS : DocNextSpec (qiter D Q)}.

Definition level_rep (it : qiter D Q) (c : cursor) : Prop :=
  match it with
  | QTerm t => di_rep t c
  | QVirtual (Some o) => di_rep o c
  | QFilter d => di_rep d c
  | QPhrase p => ph_rep getTermReader p c
  | QAnd _ a => ai_hasNot_ a = false /\ and_rep (ai_core a) c
  | QOr _ o | QScorer _ _ o => hasNot_ o = false /\ or_rep (oi_core o) c
  | QWildcard _ w => wild_rep w c
  | _ => False
  end.

Lemma level_rep_wf it c : level_rep it c -> cursor_wf c.
Proof.
  destruct it as [t| |[o|]|d|p|r a| |r o|i r o|r w|r w|x]; cbn; try done.
  - intros (d & _ & H). exact (di_rep_wf d c H).
  - apply di_rep_wf.
  - apply di_rep_wf.
  - by intros [H _].
  - by intros [_ [H _]].
  - by intros [_ [H _]].
  - by intros [_ [H _]].
  - by intros [H _].
Qed.

Lemma level_doc_spec it d p : level_rep it (Cursor false (d :: p)) -> level_doc it = d.
Proof.
  destruct it as [t| |[o|]|x|q|r a| |r o|i r o|r w|r w|y]; cbn [level_rep level_doc]; try done.
  - apply di_doc_spec.
  - apply di_doc_spec.
  - apply di_doc_spec.
  - apply (di_doc_spec (DocIterator0 := phrase_ops getTermReader) (DocNextSpec := phrase_DocNextSpec getTermReader)).
  - intros [_ H]. by apply (and_rep_doc _ _ p).
  - intros [_ H]. by apply (or_rep_doc _ _ p).
  - intros [_ H]. by apply (or_rep_doc _ _ p).
  - apply (di_doc_spec (DocIterator0 := wild_ops) (DocNextSpec := wild_DocNextSpec)).
Qed.

Context {SL : SkipLaw (qiter D Q) before}.

Lemma level_next_spec it c : level_rep it c ->
  exists it', level_next getTermReader it = Ret (fst (cursor_next c), it') /\ level_rep it' (snd (cursor_next c)).
Proof.
  destruct it as [t| |[o|]|d|p|r a| |r o|i r o|r w|r w|x]; cbn [level_rep level_next]; try done.
  - intros H. destruct (di_next_spec t c H) as (t' & E & H'). rewrite E. by eexists.
  - intros H. destruct (di_next_spec o c H) as (o' & E & H'). rewrite E. by eexists.
  - intros H. destruct (di_next_spec d c H) as (d' & E & H'). rewrite E. by eexists.
  - intros H. destruct (ph_next_spec _ _ _ H) as (p' & E & H'). rewrite E. by eexists.
  - intros [Hn H]. destruct (and_do_next_spec before _ _ H) as (a' & E & H'). unfold and_next. rewrite Hn. cbn [negb]. rewrite E. by eexists.
  - intros [Hn H]. destruct (or_do_next_spec _ _ H) as (o' & E & H'). unfold or_next. rewrite Hn. cbn [negb]. rewrite E. by eexists.
  - intros [Hn H]. destruct (or_do_next_spec _ _ H) as (o' & E & H'). unfold or_next. rewrite Hn. cbn [negb]. rewrite E. by eexists.
  - intros H. destruct (wild_next_spec _ _ H) as (w' & E & H'). rewrite E. by eexists.
Qed.

Definition level_DocNextSpec : @DocNextSpec (qiter D Q) ops.
Proof.
  refine {| di_rep := level_rep : qiter D Q -> cursor -> Prop |}.
  - apply level_rep_wf.
  - apply level_next_spec.
  - apply level_doc_spec.
Defined.

Lemma level_skip_spec it c t : level_rep it c -> 0 <= t < MAX_DOC_ID -> before t c ->
  exists it', level_skipTo getTermReader t it = Ret (fst (cursor_skipTo t c), it') /\ level_rep it' (snd (cursor_skipTo t c)).
Proof.
  destruct it as [x| |[o|]|d|p|r a| |r o|i r o|r w|r w|y]; cbn [level_rep level_skipTo]; try done; intros H Ht Hb.
  - destruct (skip_law x c t H Ht Hb) as (x' & E & H'). rewrite E. by eexists.
  - destruct (skip_law o c t H Ht Hb) as (o' & E & H'). rewrite E. by eexists.
  - destruct (skip_law d c t H Ht Hb) as (d' & E & H'). rewrite E. by eexists.
  - destruct (default_skipTo_spec (DocNextSpec0 := phrase_DocNextSpec getTermReader) p c t H) as (p' & E & H').
    rewrite pend_from_before in E, H' by done.
    assert (di_skipTo (DocIterator := phrase_ops getTermReader) t p = default_skipTo (DocIterator0 := phrase_ops getTermReader) t p) as -> by done.
    rewrite E. by eexists.
  - destruct H as [Hn H]. destruct (and_do_skipTo_spec before _ _ t H Ht Hb) as (a' & E & H' & _). unfold and_skipTo. rewrite Hn. cbn [negb]. rewrite E. by eexists.
  - destruct H as [Hn H]. destruct (or_do_skipTo_spec _ _ t H Ht) as (o' & E & H' & _). unfold or_skipTo. rewrite Hn. cbn [negb]. rewrite E. by eexists.
  - destruct H as [Hn H]. destruct (or_do_skipTo_spec _ _ t H Ht) as (o' & E & H' & _). unfold or_skipTo. rewrite Hn. cbn [negb]. rewrite E. by eexists.
  - destruct (wild_skipTo_spec _ _ t H Ht) as (w' & E & H'). rewrite E. by eexists.
Qed.

Lemma level_SkipLaw : SkipLaw (DocIterator0 := ops) (DocNextSpec0 := level_DocNextSpec) (qiter D Q) before.
Proof. intros it c t. apply level_skip_spec. Qed.

(** Where nothing skips, a tree may also be an AND with NOT children or an OR of
    such trees. *)
Context {TS : DocNextSpec (qiter D Q)}.

Definition top_rep (it : qiter D Q) (c : cursor) : Prop :=
  level_rep it c \/
  match it with
  | QAnd _ a => and_iter_rep a c
  | QOr _ o | QScorer _ _ o => hasNot_ o = false /\ or_rep (DocNextSpec0 := TS) (oi_core o) c
  | _ => False
  end.

Definition top_DocNextSpec : @DocNextSpec (qiter D Q) ops.
Proof.
  refine {| di_rep := top_rep : qiter D Q -> cursor -> Prop |}.
  - intros it c [H|H]; [by apply (level_rep_wf it)|]. destruct it; try done.
    + apply (di_rep_wf (DocNextSpec := and_iter_DocNextSpec) it c H).
    + by destruct H as [_ [H _]].
    + by destruct H as [_ [H _]].
  - intros it c [H|H]; [destruct (level_next_spec it c H) as (it' & E & H'); exists it'; split; [done|by left]|].
    destruct it as [| | | | |r a| |r o|i r o| | |]; try done.
    + destruct (di_next_spec (DocNextSpec := and_iter_DocNextSpec) a c H) as (a' & E & H'). cbn in E.
      cbn [di_next level_next level_ops]. rewrite E. eexists. split; [done|]. by right.
    + destruct H as [Hn H]. destruct (or_do_next_spec (DocNextSpec0 := TS) _ _ H) as (o' & E & H').
      cbn [di_next level_next level_ops]. unfold or_next. rewrite Hn. cbn [negb]. rewrite E. eexists. split; [done|]. by right.
    + destruct H as [Hn H]. destruct (or_do_next_spec (DocNextSpec0 := TS) _ _ H) as (o' & E & H').
      cbn [di_next level_next level_ops]. unfold or_next. rewrite Hn. cbn [negb]. rewrite E. eexists. split; [done|]. by right.
  - intros it d p [H|H]; [by apply (level_doc_spec it d p)|]. destruct it as [| | | | |r a| |r o|i r o| | |]; try done.
    + apply (di_doc_spec (DocNextSpec := and_iter_DocNextSpec) a d p H).
    + destruct H as [_ H]. by apply (or_rep_doc (DocNextSpec0 := TS) _ _ p).
    + destruct H as [_ H]. by apply (or_rep_doc (DocNextSpec0 := TS) _ _ p).
Defined.
End Rep.
End LevelSpec.

(** ** Trees of bounded depth *)
Section DepthSpec.
Context {D Q : Type} `{!DocIterator D, !DocNextSpec D, !SkipLaw D before, !TermPositions D, !TermPositionsSpec D, !PQueue Q nat, !PQueueSpec Q nat}.
Context (getTermReader : option (string -> Z -> option D)).
Notation ops n := (q_ops (D := D) (Q := Q) getTermReader n).

Definition no_spec : @DocNextSpec (qiter D Q) no_ops.
Proof. by refine {| di_rep (it : qiter D Q) (c : cursor) := False |}. Defined.

Fixpoint q_spec (n : nat) : { s : @DocNextSpec _ (ops n) & SkipLaw (DocIterator0 := ops n) (DocNextSpec0 := s) (qiter D Q) before } :=
  match n with
  | O => existT no_spec (fun it c t H _ _ => match H : False with end)
  | S n =>
      let s := q_spec n in
      existT (level_DocNextSpec (IS := projT1 s) (SL := projT2 s) getTermReader) (level_SkipLaw (IS := projT1 s) (SL := projT2 s) getTermReader)
  end.

(** What a tree represents: [q_rep] under [next] and [skipTo], [q_top] under [next]. *)
Definition q_rep (n : nat) : qiter D Q -> cursor -> Prop := di_rep (DocNextSpec := projT1 (q_spec n)).

Fixpoint q_top_spec (n : nat) : @DocNextSpec _ (ops n) :=
  match n with
  | O => no_spec
  | S n => top_DocNextSpec (IS := projT1 (q_spec n)) (SL := projT2 (q_spec n)) (TS := q_top_spec n) getTermReader
  end.
Definition q_top (n : nat) : qiter D Q -> cursor -> Prop := di_rep (DocNextSpec := q_top_spec n).

Lemma q_rep_top n it c : q_rep n it c -> q_top n it c.
Proof. destruct n; [done|]. intros H. by left. Qed.

Lemma q_drain n it c : q_top n it c -> drain (DocIterator0 := ops n) it = Ret (pend_after_next c).
Proof. apply (drain_spec (DocIterator0 := ops n) (DocNextSpec0 := q_top_spec n)). Qed.
End DepthSpec.
