(* ===== verification/OntologyRep.v ===== *)
(** * The representation of an ontology

Models mining-manager/group-manager/ontology_rep_item.h and ontology_rep.h:
the items of a group or attribute result in pre-order with their levels,
and [OntologyRep::merge], which adds up the attribute results of several
nodes and keeps the [topGroupNum] best names. [std::map] is [OrdMap], the
izenelib priority queue the interface [PQueue]. *)
From S2P Require Import Prelude OrdMap Float64 PQueue TopK.

(** ontology_rep_item.h *)
Record item (T : Type) := Item {
  level : Z;
  text : T;
  id : Z;
  doc_count : Z;
  score : spec_float
}.
Arguments Item {_} _ _ _ _ _.
Arguments level {_} _.
Arguments text {_} _.
Arguments id {_} _.
Arguments doc_count {_} _.
Arguments score {_} _.

(** [OntologyRepItem(level, text, id, count)]: the score is 0. *)
Definition mk_item {T} (l : Z) (t : T) (i c : Z) : item T := Item l t i c d0.

Definition item_eqb {T} `{!EqDecision T} (a b : item T) : bool :=
  (level a =? level b) && bool_decide (text a = text b) && (id a =? id b) &&
  (doc_count a =? doc_count b) && feq (score a) (score b).

Definition add_count {T} (a : item T) (c : Z) : item T :=
  Item (level a) (text a) (id a) (u32 (doc_count a + c)) (score a).

(** [a.doc_count += b.doc_count; a.score += b.score] *)
Definition add_item {T} (a b : item T) : item T :=
  Item (level a) (text a) (id a) (u32 (doc_count a + doc_count b)) (dadd (score a) (score b)).

Section OntologyRep.
Context {T : Type} `{!TextOrder T}.
Notation items := (list (item T)).

(** [operator==] *)
Fixpoint rep_eqb (a b : items) : bool :=
  match a, b with
  | [], [] => true
  | x :: a, y :: b => item_eqb x y && rep_eqb a b
  | _, _ => false
  end.

(** The loop that adopts the first non-empty list and drops the empty ones. *)
Fixpoint adopt (self : items) (others : list items) : items * list items :=
  match others with
  | [] => (self, [])
  | o :: others' =>
      match o with
      | [] => adopt self others'
      | _ =>
          match self with
          | [] => adopt o others'
          | _ => let (s, os) := adopt self others' in (s, o :: os)
          end
      end
  end.

(** Nothing to add: cut after [topGroupNum] groups. *)
Fixpoint cut_groups (topGroupNum group_num : Z) (l : items) : items :=
  match l with
  | [] => []
  | i :: l' =>
      let group_num := if level i =? 0 then group_num + 1 else group_num in
      if topGroupNum <? group_num then [] else i :: cut_groups topGroupNum group_num l'
  end.

(** [name_item_map], [nv_item_map], and the name [current_nvmap_it] points to. *)
Record maps := Maps {
  name_item_map : list (T * item T);
  nv_item_map : list (T * list (T * item T));
  current : option T
}.

Definition set_value (m : maps) (name : T) (i : item T) : maps :=
  match om_find (nv_item_map m) name with
  | Some values =>
      Maps (name_item_map m) (om_set (nv_item_map m) name (om_set values (text i) i)) (current m)
  | None => m
  end.

(** The items of the list itself. *)
Definition load_item (i : item T) (m : maps) : res maps :=
  if level i =? 0 then
    Ret (Maps (om_set (name_item_map m) (text i) i)
              (om_insert (nv_item_map m) (text i) []).1 (Some (text i)))
  else
    match current m with
    | Some name => Ret (set_value m name i)
    | None => Undef
    end.

(** The items of another list; the flag is [newname]. *)
Definition add_other_item (i : item T) (st : maps * bool) : res (maps * bool) :=
  let (m, newname) := st in
  if level i =? 0 then
    let (names, inserted) := om_insert (name_item_map m) (text i) i in
    let names :=
      if inserted then names
      else match om_find names (text i) with
           | Some j => om_set names (text i) (add_item j i)
           | None => names
           end in
    Ret (Maps names (om_insert (nv_item_map m) (text i) []).1 (Some (text i)), inserted)
  else
    match current m with
    | Some name =>
        if newname then Ret (set_value m name i, newname)
        else
          match om_find (nv_item_map m) name with
          | Some values =>
              match om_find values (text i) with
              | Some j => Ret (set_value m name (add_item j i), newname)
              | None => Ret (set_value m name i, newname)
              end
          | None => Undef
          end
    | None => Undef
    end.

Definition add_other (o : items) (m : maps) : res maps :=
  let* (m, _) := mfold add_other_item o (m, false) in Ret m.

(** [AttrNameScoreQueue::lessThan] *)
Definition name_lessThan (p1 p2 : T * spec_float) : bool := flt p1.2 p2.2.

(** The values of a name, by descending score. *)
Definition sorted_values (values : list (T * item T)) : items :=
  rev (map snd (foldl (fun m v => mm_insert flt m (score v.2) v.2) [] values)).

(** A name and its values, as they are written to the result. *)
Definition emit (m : maps) (name : T) : items :=
  match om_find (name_item_map m) name with
  | Some i => [i]
  | None => [Item 0 name 0 0 d0]
  end ++ match om_find (nv_item_map m) name with Some vs => sorted_values vs | None => [] end.

Section Merge.
Context {Q : Type} `{!PQueue Q (T * spec_float)}.

(** The names of the best scores, best first. *)
Definition top_names (topGroupNum : Z) (names : list (T * item T)) : res (list T) :=
  let* q := offer_all name_lessThan (map (fun n => (text n.2, score n.2)) names)
              (pq_new (Q := Q) topGroupNum) in
  let* (v, _) := pop_into name_lessThan (pq_size q) q in
  Ret (map fst v).

(** [merge]: the merged list, and what is left of [others]. *)
Definition merge (topGroupNum : Z) (self : items) (others : list items) : res (items * list items) :=
  let (self, others) := adopt self others in
  match others with
  | [] =>
      if (topGroupNum =? 0) || (vsize self <=? topGroupNum) then Ret (self, [])
      else Ret (cut_groups topGroupNum 0 self, [])
  | _ =>
      let* m := mfold load_item self (Maps [] [] None) in
      let* m := mfold add_other others m in
      let topGroupNum := if topGroupNum =? 0 then s32 (vsize (name_item_map m)) else topGroupNum in
      let* names := top_names topGroupNum (name_item_map m) in
      Ret (concat (map (emit m) names), others)
  end.
End Merge.
End OntologyRep.
Arguments maps : clear implicits.

#[local] Instance item_inhabited : Inhabited (Z * spec_float) := populate (0, d0).

Definition ex_item (l t c s : Z) : item Z := Item l t 0 c (dbl s 0).

Example merge_names_ex :
  (let* (r, _) := merge (Q := heap (Z * spec_float)) 2
     [ex_item 0 10 1 5; ex_item 1 1 2 3; ex_item 1 2 2 4]
     [ []; [ex_item 0 20 7 1; ex_item 1 1 1 1; ex_item 0 30 2 9];
       [ex_item 0 10 1 6; ex_item 1 1 5 8; ex_item 1 3 1 1] ] in
   Ret (map (fun i => (level i, text i, doc_count i)) r)) =
  Ret [(0, 10, 2); (1, 1, 7); (1, 2, 2); (1, 3, 1); (0, 30, 2)].
Proof. vm_compute. reflexivity. Qed.

(** ** What a merge adds up *)
Section MergeSpec.
Context {T : Type} `{!TextOrder T}.
Notation items := (list (item T)).

(** A name with its values; the pre-order list of a representation. *)
Definition group : Type := item T * items.
Definition name (g : group) : T := text g.1.
Definition unroll (gs : list group) : items := concat (map (fun g => g.1 :: g.2) gs).

Definition wf_group (g : group) : Prop :=
  level g.1 = 0 /\ Forall (fun i => level i <> 0) g.2 /\ NoDup (map text g.2).
Definition wf_rep (gs : list group) : Prop := Forall wf_group gs /\ NoDup (map name gs).

(** The items a name has in several representations, and those of a value. *)
Definition names_of (gs : list group) (t : T) : items :=
  map fst (filter (fun g => name g = t) gs).
Definition with_text (l : items) (v : T) : items := filter (fun i => text i = v) l.
Definition values_of (gs : list group) (t v : T) : items :=
  concat (map (fun g => with_text g.2 v) (filter (fun g => name g = t) gs)).

(** Their sum: the first item with the counts and scores of the others added. *)
Definition sum_items (l : items) : option (item T) :=
  match l with [] => None | i :: l => Some (foldl add_item i l) end.

Lemma sum_items_snoc l i :
  sum_items (l ++ [i]) = Some (match sum_items l with Some j => add_item j i | None => i end).
Proof. destruct l as [|j l]; cbn; [done|]. by rewrite foldl_app. Qed.

Lemma sum_items_text l i t :
  sum_items l = Some i -> Forall (fun j => text j = t) l -> text i = t.
Proof.
  destruct l as [|j l]; [done|]. cbn. intros [= <-] H. apply Forall_cons in H as [H _].
  revert j H. induction l as [|k l IH]; intros j H; [done|]. cbn. by apply IH.
Qed.

Lemma names_of_snoc gs g t :
  names_of (gs ++ [g]) t = names_of gs t ++ (if decide (name g = t) then [g.1] else []).
Proof.
  unfold names_of. rewrite filter_app, map_app. f_equal. rewrite filter_cons. by case_decide.
Qed.

Lemma values_of_snoc gs g t v :
  values_of (gs ++ [g]) t v = values_of gs t v ++ (if decide (name g = t) then with_text g.2 v else []).
Proof.
  unfold values_of. rewrite filter_app, map_app, concat_app. f_equal. rewrite filter_cons.
  case_decide; [cbn; by rewrite app_nil_r|done].
Qed.

Lemma values_of_new gs t v : names_of gs t = [] -> values_of gs t v = [].
Proof. unfold names_of, values_of. by destruct (filter _ gs). Qed.

(** The maps hold the sums of the representations read so far. *)
Definition values_ok (f : T -> items) (vs : list (T * item T)) : Prop :=
  om_sorted vs /\ forall v, om_find vs v = sum_items (f v) /\ Forall (fun i => text i = v) (f v).

Definition reflects (gs : list group) (m : maps T) : Prop :=
  om_sorted (name_item_map m) /\ om_sorted (nv_item_map m) /\
  (forall t, om_find (name_item_map m) t = sum_items (names_of gs t)) /\
  (forall t, match om_find (nv_item_map m) t with
             | Some vs => names_of gs t <> [] /\ values_ok (values_of gs t) vs
             | None => names_of gs t = []
             end).

(** The values of one group, while they are added under [t]: [old] are the
    items they had before. *)
Definition adding (t : T) (f : T -> items) (m0 m : maps T) : Prop :=
  name_item_map m = name_item_map m0 /\ current m = Some t /\ om_sorted (nv_item_map m) /\
  (exists vs, om_find (nv_item_map m) t = Some vs /\ values_ok f vs) /\
  (forall t', t' <> t -> om_find (nv_item_map m) t' = om_find (nv_item_map m0) t').

Lemma om_sorted_nil {K V} `{!TextOrder K} : om_sorted (@nil (K * V)).
Proof. constructor. Qed.

Lemma values_ok_ext (f g : T -> items) vs : values_ok f vs -> (forall v, f v = g v) -> values_ok g vs.
Proof. intros [H1 H2] E. split; [done|]. intros v. by rewrite <- E. Qed.

Lemma values_ok_add f vs i :
  values_ok f vs ->
  values_ok (fun v => f v ++ (if decide (text i = v) then [i] else []))
    (om_set vs (text i) (match om_find vs (text i) with Some j => add_item j i | None => i end)).
Proof.
  intros [Hs Hf]. split; [by apply om_set_sorted|]. intros v. destruct (Hf v) as [Hv Ht]. split.
  - destruct (decide (text i = v)) as [<-|Hne].
    + rewrite om_find_set_eq, sum_items_snoc. by rewrite Hv.
    + rewrite app_nil_r, om_find_set_ne by done. done.
  - apply Forall_app. split; [done|]. case_decide; [|constructor]. by repeat constructor.
Qed.

Lemma set_value_adding t f m0 m i vs :
  adding t f m0 m -> om_find (nv_item_map m) t = Some vs ->
  exists m', m' = set_value m t (match om_find vs (text i) with Some j => add_item j i | None => i end) /\
    adding t (fun v => f v ++ (if decide (text i = v) then [i] else [])) m0 m'.
Proof.
  intros (H1 & H2 & H3 & (vs' & Hvs & Hok) & H5) E. rewrite Hvs in E. injection E as ->.
  eexists. split; [done|]. unfold set_value. rewrite Hvs.
  assert (text (match om_find vs (text i) with Some j => add_item j i | None => i end) = text i) as ->.
  { destruct (om_find vs (text i)) as [j|] eqn:E; [|done]. cbn. destruct Hok as [_ Hf].
    destruct (Hf (text i)) as [E2 Ht]. rewrite E in E2. by eapply sum_items_text. }
  split; [done|]. split; [done|]. split; [by apply om_set_sorted|]. split.
  - cbn. eexists. rewrite om_find_set_eq. split; [done|]. by apply values_ok_add.
  - intros t' Hne. cbn. rewrite om_find_set_ne by done. by apply H5.
Qed.

(** The values of a group are added one by one. [newname] skips the search. *)
Lemma add_values t newname (l : items) : forall f m0 m,
  adding t f m0 m -> Forall (fun i => level i <> 0) l -> NoDup (map text l) ->
  (newname = true -> forall i, i ∈ l -> f (text i) = []) ->
  exists m', mfold add_other_item l (m, newname) = Ret (m', newname) /\
    adding t (fun v => f v ++ with_text l v) m0 m'.
Proof.
  induction l as [|i l IH]; intros f m0 m Hm Hlev Hnd Hnew.
  { exists m. split; [done|]. destruct Hm as (H1 & H2 & H3 & (vs & Hvs & Hok) & H5).
    split_and!; try done. exists vs. split; [done|]. eapply values_ok_ext; [done|].
    intros v. by rewrite app_nil_r. }
  apply Forall_cons in Hlev as [Hl0 Hlev]. cbn in Hnd. apply NoDup_cons in Hnd as [Hni Hnd].
  pose proof Hm as (H1 & H2 & H3 & (vs & Hvs & Hok) & H5).
  destruct (set_value_adding t f m0 m i vs Hm Hvs) as (m1 & Em1 & Hm1).
  assert (add_other_item i (m, newname) = Ret (m1, newname)) as E.
  { unfold add_other_item. destruct (Z.eqb_spec (level i) 0); [done|]. rewrite H2.
    destruct newname.
    - rewrite Em1. destruct Hok as [_ Hf]. destruct (Hf (text i)) as [-> _].
      by rewrite (Hnew eq_refl i) by (by left).
    - rewrite Hvs, Em1. by destruct (om_find vs (text i)). }
  cbn [mfold]. rewrite E. rsimpl.
  destruct (IH (fun v => f v ++ (if decide (text i = v) then [i] else [])) m0 m1) as (m2 & E2 & Hm2); try done.
  - intros Hn j Hj. rewrite (Hnew Hn) by (by right). cbn. rewrite decide_False; [done|].
    intros Ht. apply Hni. rewrite Ht. rewrite list_elem_of_fmap. by exists j.
  - exists m2. split; [done|]. destruct Hm2 as (G1 & G2 & G3 & (vs2 & Hvs2 & Hok2) & G5).
    split_and!; try done. exists vs2. split; [done|]. eapply values_ok_ext; [done|].
    intros v. cbn beta. rewrite <- app_assoc. f_equal. unfold with_text. rewrite filter_cons.
    by destruct (decide (text i = v)).
Qed.

Lemma add_group gs g m b :
  reflects gs m -> wf_group g ->
  exists m', mfold add_other_item (g.1 :: g.2) (m, b) = Ret (m', bool_decide (names_of gs (name g) = [])) /\
    reflects (gs ++ [g]) m'.
Proof.
  intros (Hs1 & Hs2 & Hn & Hv) (Hl0 & Hlev & Hnd). cbn [mfold]. unfold add_other_item at 1.
  destruct (Z.eqb_spec (level g.1) 0); [|done]. unfold om_insert. rewrite Hn.
  change (text g.1) with (name g). set (t := name g) in *.
  set (names' := om_set (name_item_map m) t
    (match sum_items (names_of gs t) with Some j => add_item j g.1 | None => g.1 end)).
  change (match om_find (nv_item_map m) t with Some _ => (nv_item_map m, false)
    | None => (om_set (nv_item_map m) t [], true) end) with (om_insert (nv_item_map m) t []).
  set (nv' := (om_insert (nv_item_map m) t []).1).
  assert (exists m1, m1 = Maps names' nv' (Some t) /\ adding t (values_of gs t) m1 m1) as (m1 & Em1 & Hm1).
  { eexists. split; [done|]. specialize (Hv t). subst nv'. unfold om_insert.
    destruct (om_find (nv_item_map m) t) as [vs|] eqn:E; split; cbn; try done; (split; [done|]).
    - split; [done|]. split; [|done]. exists vs. by destruct Hv.
    - split; [by apply om_set_sorted|]. split; [|done]. exists []. rewrite om_find_set_eq. split; [done|].
      split; [apply om_sorted_nil|]. intros v. rewrite values_of_new by done. by split; [|constructor]. }
  destruct (add_values t (bool_decide (names_of gs t = [])) g.2 (values_of gs t) m1 m1 Hm1 Hlev Hnd)
    as (m2 & E2 & G1 & G2 & G3 & (vs & Hvs & Hok) & G5).
  { intros Hb i _. apply bool_decide_eq_true in Hb. by apply values_of_new. }
  exists m2. split.
  { etrans; [|exact E2]. rewrite Em1. unfold names'.
    destruct (names_of gs t) as [|j l] eqn:E; rsimpl.
    - by rewrite bool_decide_eq_true_2 by done.
    - rewrite bool_decide_eq_false_2 by done. cbn [sum_items]. rewrite (Hn t), E. done. }
  subst m1. cbn in G1, G5. split; [rewrite G1; by apply om_set_sorted|]. split; [done|]. split.
  - intros t'. rewrite G1, names_of_snoc. unfold names'. fold t. destruct (decide (t = t')) as [<-|Hne].
    + by rewrite om_find_set_eq, sum_items_snoc.
    + by rewrite app_nil_r, om_find_set_ne.
  - intros t'. rewrite names_of_snoc. fold t. destruct (decide (t = t')) as [<-|Hne].
    + rewrite Hvs. split; [by destruct (names_of gs t)|]. eapply values_ok_ext; [done|].
      intros v. rewrite values_of_snoc. fold t. by rewrite decide_True.
    + rewrite G5 by done. specialize (Hv t'). subst nv'.
      assert (om_find (om_insert (nv_item_map m) t []).1 t' = om_find (nv_item_map m) t') as ->.
      { unfold om_insert. destruct (om_find (nv_item_map m) t); [done|]. by apply om_find_set_ne. }
      rewrite app_nil_r. destruct (om_find (nv_item_map m) t') as [vs'|]; [|done].
      destruct Hv as [Hv1 Hv2]. split; [done|]. eapply values_ok_ext; [done|].
      intros v. rewrite values_of_snoc. fold t. by rewrite decide_False, app_nil_r.
Qed.

Lemma load_values (l : items) : forall m, Forall (fun i => level i <> 0) l ->
  mfold load_item l m = (let* (m', _) := mfold add_other_item l (m, true) in Ret m').
Proof.
  induction l as [|i l IH]; intros m Hl; [done|]. apply Forall_cons in Hl as [Hi Hl].
  cbn [mfold]. unfold load_item at 1, add_other_item at 1.
  destruct (Z.eqb_spec (level i) 0); [done|]. destruct (current m); rsimpl; [|done]. by apply IH.
Qed.

(** A group of the list itself whose name is new. *)
Lemma load_group gs g m :
  reflects gs m -> wf_group g -> names_of gs (name g) = [] ->
  exists m', mfold load_item (g.1 :: g.2) m = Ret m' /\ reflects (gs ++ [g]) m'.
Proof.
  intros Hm Hg Hnew. destruct (add_group gs g m true Hm Hg) as (m' & E & Hm').
  exists m'. split; [|done]. destruct Hm as (_ & _ & Hn & _), Hg as (Hl0 & Hlev & _).
  revert E. cbn [mfold]. unfold load_item at 1, add_other_item at 1.
  destruct (Z.eqb_spec (level g.1) 0); [|done].
  unfold om_insert at 1. change (text g.1) with (name g). rewrite (Hn (name g)), Hnew. rsimpl.
  cbn [sum_items]. rewrite load_values by done. intros ->. done.
Qed.

Lemma unroll_cons g gs : unroll (g :: gs) = (g.1 :: g.2) ++ unroll gs.
Proof. done. Qed.

Lemma names_of_not_in gs t : t ∉ map name gs -> names_of gs t = [].
Proof.
  intros H. unfold names_of. induction gs as [|g gs IH]; [done|]. cbn in H.
  rewrite filter_cons_False by (intros <-; apply H; by left). apply IH. intros Hin. apply H. by right.
Qed.

Lemma load_rep gs1 : forall gs m, reflects gs m -> wf_rep (gs ++ gs1) ->
  exists m', mfold load_item (unroll gs1) m = Ret m' /\ reflects (gs ++ gs1) m'.
Proof.
  induction gs1 as [|g gs1 IH]; intros gs m Hm Hwf.
  { exists m. by rewrite app_nil_r. }
  destruct Hwf as [Hwf Hnd].
  destruct (load_group gs g m Hm) as (m1 & E1 & Hm1).
  - rewrite Forall_app, Forall_cons in Hwf. tauto.
  - apply names_of_not_in. rewrite map_app in Hnd. apply NoDup_app in Hnd as (_ & Hnd & _).
    intros Hin. apply (Hnd _ Hin). by left.
  - rewrite unroll_cons, mfold_app, E1. rsimpl.
    destruct (IH (gs ++ [g]) m1 Hm1) as (m' & E & Hm'); [by rewrite <- app_assoc|].
    exists m'. rewrite <- app_assoc in Hm'. done.
Qed.

Lemma add_rep gs1 : forall gs m b, reflects gs m -> Forall wf_group gs1 ->
  exists m' b', mfold add_other_item (unroll gs1) (m, b) = Ret (m', b') /\ reflects (gs ++ gs1) m'.
Proof.
  induction gs1 as [|g gs1 IH]; intros gs m b Hm Hwf.
  { exists m, b. by rewrite app_nil_r. }
  apply Forall_cons in Hwf as [Hg Hwf]. destruct (add_group gs g m b Hm Hg) as (m1 & E1 & Hm1).
  rewrite unroll_cons, mfold_app, E1. rsimpl.
  match goal with |- context [mfold add_other_item _ (m1, ?b1)] => destruct (IH _ m1 b1 Hm1 Hwf) as (m' & b' & E & Hm') end.
  exists m', b'. rewrite <- app_assoc in Hm'. done.
Qed.

Lemma add_reps gss : forall gs m, reflects gs m -> Forall (Forall wf_group) gss ->
  exists m', mfold add_other (map unroll gss) m = Ret m' /\ reflects (gs ++ concat gss) m'.
Proof.
  induction gss as [|gs1 gss IH]; intros gs m Hm Hwf.
  { exists m. cbn. by rewrite app_nil_r. }
  apply Forall_cons in Hwf as [Hg Hwf]. cbn [map mfold].
  destruct (add_rep gs1 gs m false Hm Hg) as (m1 & b & E & Hm1). unfold add_other at 1. rewrite E. rsimpl.
  destruct (IH _ m1 Hm1 Hwf) as (m' & E' & Hm'). exists m'. cbn. rewrite app_assoc. done.
Qed.

Lemma reflects_nil : reflects [] (Maps [] [] None).
Proof. split_and!; try apply om_sorted_nil; done. Qed.

(** *** The order of the result *)
Lemma mm_insert_ascending {V} (m : list (spec_float * V)) k i :
  Forall (fun p => is_num p.1 = true) m -> is_num k = true ->
  StronglySorted (fun a b => flt b.1 a.1 = false) m ->
  StronglySorted (fun a b => flt b.1 a.1 = false) (mm_insert flt m k i).
Proof.
  intros Hn Hk Hs. induction Hs as [|[k' i'] m Hs IH Ha]; cbn; [repeat constructor|].
  apply Forall_cons in Hn as [Hk' Hn]. cbn in Hk'. destruct (flt k k') eqn:E.
  - constructor; [by constructor|]. constructor; cbn.
    + by apply flt_asym.
    + rewrite Forall_forall in Ha, Hn |- *. intros p Hp. specialize (Ha p Hp). specialize (Hn p Hp).
      cbn in *. destruct (flt p.1 k) eqn:E2; [|done]. by rewrite (flt_trans _ _ _ E2 E) in Ha.
  - constructor; [by apply IH|]. rewrite Forall_forall in Ha |- *. intros p Hp.
    rewrite mm_insert_perm in Hp. apply elem_of_cons in Hp as [->|Hp]; [done|]. by apply Ha.
Qed.

Lemma sorted_values_ok (vs : list (T * item T)) :
  Forall (fun p => is_num (score p.2) = true) vs ->
  sorted_values vs ≡ₚ map snd vs /\ descending (fun a b => flt (score a) (score b)) (sorted_values vs).
Proof.
  intros Hn. unfold sorted_values.
  assert (forall (vs : list (T * item T)) (m : list (spec_float * item T)),
    Forall (fun p => is_num (score p.2) = true) vs ->
    Forall (fun p => is_num p.1 = true /\ p.1 = score p.2) m ->
    StronglySorted (fun a b => flt b.1 a.1 = false) m ->
    let m' := foldl (fun m v => mm_insert flt m (score v.2) v.2) m vs in
    map snd m' ≡ₚ map snd m ++ map snd vs /\
    Forall (fun p => is_num p.1 = true /\ p.1 = score p.2) m' /\
    StronglySorted (fun a b => flt b.1 a.1 = false) m') as H.
  { clear vs Hn. induction vs as [|v vs IH]; intros m Hv Hm Hs; cbn; [by rewrite app_nil_r|].
    apply Forall_cons in Hv as [Hv1 Hv].
    destruct (IH (mm_insert flt m (score v.2) v.2)) as (H1 & H2 & H3); [done| | |].
    - rewrite (mm_insert_perm flt m). by constructor.
    - apply mm_insert_ascending; [|done..]. eapply Forall_impl; [exact Hm|]. by intros p [? _].
    - split; [|done]. rewrite H1, (mm_insert_perm flt m). cbn. apply Permutation_middle. }
  destruct (H vs []) as (H1 & H2 & H3); [done|constructor|constructor|]. cbn in H1.
  set (m' := foldl _ _ _) in *. split.
  - rewrite <- H1, <- map_rev, <- (Permutation_rev m'). done.
  - apply StronglySorted_rev. clear H1. clearbody m'.
    induction m' as [|p m IH]; cbn; [constructor|]. apply StronglySorted_cons in H3 as [Hp H3].
    apply Forall_cons in H2 as [[_ H2] H2']. constructor; [by apply IH|].
    apply Forall_forall. intros j Hj. rewrite Forall_forall in Hp. rewrite Forall_forall in H2'. apply list_elem_of_fmap in Hj as (q & -> & Hq).
    rewrite <- H2. destruct (H2' q Hq) as [_ <-]. by apply Hp.
Qed.

Lemma adopt_ok (others : list items) : forall self,
  adopt self others = match filter (fun l => l <> []) (self :: others) with
                      | [] => ([], [])
                      | s :: os => (s, os)
                      end.
Proof.
  induction others as [|o others IH]; intros self; cbn [adopt].
  - destruct self; [done|]. by rewrite filter_cons_True.
  - destruct o as [|i o].
    + rewrite IH. destruct self; [by rewrite !filter_cons_False by (intros ?; done)|].
      rewrite !filter_cons_True, filter_cons_False by (done || by intros []). done.
    + destruct self as [|j self].
      * rewrite IH, (filter_cons_False _ []), filter_cons_True by (done || by intros []). done.
      * rewrite IH, !filter_cons_True by done. done.
Qed.

Lemma concat_filter_nonempty {A} (ls : list (list A)) :
  concat (filter (fun l => l <> []) ls) = concat ls.
Proof.
  induction ls as [|[|a l] ls IH]; [done|..].
  - rewrite filter_cons_False by (by intros []). done.
  - rewrite filter_cons_True by done. cbn [concat]. by rewrite IH.
Qed.

Lemma filter_unroll (gss : list (list group)) :
  filter (fun l => l <> []) (map unroll gss) = map unroll (filter (fun l => l <> []) gss).
Proof.
  induction gss as [|[|g gs] gss IH]; [done|..]; cbn [map].
  - by rewrite !filter_cons_False by (by intros []).
  - rewrite !filter_cons_True by done. cbn [map]. by rewrite IH.
Qed.

(** The result's groups: every one carries the sums of its name. *)
Definition sums (gs : list group) (g : group) : Prop :=
  sum_items (names_of gs (name g)) = Some g.1 /\
  descending (fun a b => flt (score a) (score b)) g.2 /\
  NoDup (map text g.2) /\
  forall i, i ∈ g.2 <-> sum_items (values_of gs (name g) (text i)) = Some i.

Definition numeric_scores (gs : list group) : Prop :=
  (forall t i, sum_items (names_of gs t) = Some i -> is_num (score i) = true) /\
  (forall t v i, sum_items (values_of gs t v) = Some i -> is_num (score i) = true).

Lemma emit_sums gs m t :
  reflects gs m -> numeric_scores gs -> names_of gs t <> [] ->
  exists g, emit m t = g.1 :: g.2 /\ name g = t /\ sums gs g /\
    om_find (name_item_map m) t = Some g.1.
Proof.
  intros (Hs1 & Hs2 & Hn & Hv) [Hnum1 Hnum2] Ht. specialize (Hv t).
  destruct (om_find (nv_item_map m) t) as [vs|] eqn:Evs; [|done]. destruct Hv as [_ [Hvs Hf]].
  destruct (sum_items (names_of gs t)) as [i|] eqn:Ei; [|by destruct (names_of gs t)].
  assert (text i = t) as Hti.
  { eapply sum_items_text; [done|]. unfold names_of. apply Forall_forall. intros j Hj.
    apply list_elem_of_fmap in Hj as (g & -> & Hg). by apply list_elem_of_filter in Hg as [<- _]. }
  assert (forall p, p ∈ vs -> text p.2 = p.1 /\ sum_items (values_of gs t p.1) = Some p.2) as Hp.
  { intros [v j] Hin. apply (om_find_elem vs v j Hvs) in Hin. destruct (Hf v) as [E Hall].
    rewrite Hin in E. split; [|done]. cbn. by eapply sum_items_text. }
  destruct (sorted_values_ok vs) as [Hperm Hdesc].
  { apply Forall_forall. intros p Hin. by eapply Hnum2, Hp. }
  assert (map text (map snd vs) = map fst vs) as Htexts.
  { clear - Hp. induction vs as [|p vs IH]; [done|]. cbn. rewrite IH by (intros; apply Hp; by right).
    f_equal. apply Hp. by left. }
  exists (i, sorted_values vs). unfold emit. rewrite Hn, Ei, Evs. split; [done|]. split; [done|].
  split; [|done]. unfold sums, name. cbn [fst snd]. rewrite Hti. split; [done|]. split; [done|]. split.
  - rewrite Hperm, Htexts. clear - Hvs. unfold om_sorted in Hvs.
    induction Hvs as [|k l Hl IH Hk]; constructor; [|done]. intros Hin. rewrite Forall_forall in Hk.
    by destruct (tlt_irrefl k (Hk k Hin)).
  - intros j. rewrite Hperm, list_elem_of_fmap. split.
    + intros ([v j'] & -> & Hin). destruct (Hp _ Hin) as [E1 E2]. cbn in *. by rewrite E1.
    + intros E. destruct (Hf (text j)) as [E2 _]. rewrite E in E2. exists (text j, j).
      split; [done|]. by apply om_find_elem.
Qed.

Section MergeTheorem.
Context {Q : Type} `{!PQueue Q (T * spec_float), !PQueueSpec Q (T * spec_float)}.

Lemma top_names_ok gs m k :
  reflects gs m -> numeric_scores gs -> 0 <= k < 2 ^ 31 ->
  exists v, top_names (Q := Q) k (name_item_map m) = Ret (map fst v) /\
    best_of name_lessThan k (map (fun n => (text n.2, score n.2)) (name_item_map m)) v /\
    descending name_lessThan v.
Proof.
  intros (Hs1 & Hs2 & Hn & Hv) [Hnum1 _] Hk. unfold top_names.
  destruct (top_k_agree (Q := Q) (fun a b : T * spec_float => klt a.2 b.2) name_lessThan k
    (map (fun n => (text n.2, score n.2)) (name_item_map m)) Hk) as (v & E & Hb & Hd).
  - intros x y Hx Hy. apply list_elem_of_fmap in Hx as ([t i] & -> & Hx), Hy as ([t' i'] & -> & Hy).
    unfold name_lessThan. cbn. apply klt_flt; eapply Hnum1; rewrite <- Hn; by apply om_find_elem.
  - exists v. split; [|done]. revert E. unfold top_k.
    destruct (offer_all _ _ _) as [q| | |]; rsimpl; try done.
    destruct (pop_into _ _ _) as [[w q']| | |]; rsimpl; try done. by intros [= ->].
Qed.

Lemma merge_two topGroupNum gs0 gss all :
  all = concat (gs0 :: gss) ->
  Forall wf_rep (gs0 :: gss) ->
  2 <= vsize (filter (fun l => l <> []) (gs0 :: gss)) ->
  numeric_scores all ->
  0 <= topGroupNum < 2 ^ 31 -> vsize all < 2 ^ 31 ->
  exists out names others',
    merge (Q := Q) topGroupNum (unroll gs0) (map unroll gss) = Ret (unroll out, others') /\
    Forall (sums all) out /\
    NoDup (map fst names) /\ (forall t, t ∈ map fst names <-> names_of all t <> []) /\
    best_of name_lessThan (if topGroupNum =? 0 then vsize names else topGroupNum) names
      (map (fun g => (name g, score g.1)) out) /\
    descending (fun g g' => flt (score g.1) (score g'.1)) out.
Proof.
  intros Hall Hwf Htwo Hnum Htop Hsize. unfold merge. rewrite adopt_ok.
  change (unroll gs0 :: map unroll gss) with (map unroll (gs0 :: gss)).
  rewrite filter_unroll. pose proof (concat_filter_nonempty (gs0 :: gss)) as Hcc. rewrite <- Hall in Hcc.
  assert (Forall wf_rep (filter (fun l => l <> []) (gs0 :: gss))) as Hwf2.
  { apply Forall_forall. intros x [_ Hx]%list_elem_of_filter. rewrite Forall_forall in Hwf. by apply Hwf. }
  destruct (filter _ (gs0 :: gss)) as [|h [|h2 rest]]; [by unfold vsize in Htwo; cbn in *; lia..|].
  cbn [map]. apply Forall_cons in Hwf2 as [Hh Hrest].
  destruct (load_rep h [] _ reflects_nil Hh) as (m1 & E1 & Hm1). rewrite E1. cbn [res_bind].
  assert (Forall (Forall wf_group) (h2 :: rest)) as Hrest2 by (eapply Forall_impl; [exact Hrest|]; by intros ? []).
  destruct (add_reps (h2 :: rest) _ m1 Hm1 Hrest2) as (m & E2 & Hm). cbn [map] in E2. rewrite E2. cbn [res_bind].
  cbn [app] in Hm. change (h ++ concat (h2 :: rest)) with (concat (h :: h2 :: rest)) in Hm. rewrite Hcc in Hm.
  pose proof Hm as (Hs1 & Hs2 & Hn & Hv).
  assert (vsize (name_item_map m) <= vsize all) as Hlen.
  { pose proof (om_sorted_NoDup _ Hs1) as Hnd.
    assert (length (map fst (name_item_map m)) <= length (map name all))%nat as Hle.
    { apply submseteq_length, NoDup_submseteq; [done|]. intros t Ht.
      apply list_elem_of_fmap in Ht as ([t' i] & -> & Hin). cbn.
      apply (om_find_elem _ _ _ Hs1) in Hin. rewrite Hn in Hin.
      destruct (decide (t' ∈ map name all)); [done|]. by rewrite names_of_not_in in Hin. }
    rewrite !length_map in Hle. unfold vsize. lia. }
  set (names := map (fun n => (text n.2, score n.2)) (name_item_map m)).
  assert (vsize (name_item_map m) = vsize names) as Hsz by (unfold vsize, names; by rewrite length_map).
  set (k := if topGroupNum =? 0 then s32 (vsize (name_item_map m)) else topGroupNum).
  assert (k = if topGroupNum =? 0 then vsize names else topGroupNum) as Hk.
  { unfold k. rewrite s32_small, Hsz; [done|]. pose proof (vsize_nonneg (name_item_map m)). lia. }
  destruct (top_names_ok all m k Hm Hnum) as (v & -> & Hb & Hd).
  { unfold k. pose proof (vsize_nonneg (name_item_map m)).
    destruct (topGroupNum =? 0); [rewrite s32_small; lia|done]. }
  cbn [res_bind]. fold names in Hb.
  assert (map fst names = map fst (name_item_map m)) as Hfst.
  { unfold names. rewrite map_map. apply map_ext_in. intros [t i] Hin. cbn.
    apply list_elem_of_In, (om_find_elem _ _ _ Hs1) in Hin. rewrite Hn in Hin.
    eapply sum_items_text; [done|]. apply Forall_forall. intros j Hj.
    apply list_elem_of_fmap in Hj as (g & -> & Hg). by apply list_elem_of_filter in Hg as [<- _]. }
  assert (forall t, t ∈ map fst names <-> names_of all t <> []) as Hnames.
  { intros t. rewrite Hfst. split.
    - intros Ht. apply list_elem_of_fmap in Ht as ([t' i] & -> & Hin). cbn.
      apply (om_find_elem _ _ _ Hs1) in Hin. rewrite Hn in Hin. by destruct (names_of all t').
    - intros Ht. specialize (Hn t). destruct (sum_items (names_of all t)) as [i|] eqn:E;
        [|by destruct (names_of all t)].
      apply (om_find_elem _ _ _ Hs1) in Hn. apply list_elem_of_fmap. by exists (t, i). }
  assert (exists out, concat (map (emit m) (map fst v)) = unroll out /\ Forall (sums all) out /\
    map (fun g => (name g, score g.1)) out = v) as (out & Eout & Hsums & Hv2).
  { assert (forall p, p ∈ v -> p ∈ names) as Hin.
    { destruct Hb as (_ & r & Hp & _). intros p Hp'. rewrite Hp. apply elem_of_app. by left. }
    clear Hb Hd. induction v as [|p v IH]; [by exists []|].
    destruct IH as (out & E & H1 & H2); [intros; apply Hin; by right|].
    assert (p ∈ names) as Hp by (apply Hin; by left).
    destruct (emit_sums all m p.1 Hm Hnum) as (g & Eg & Hng & Hg & Hfind).
    { apply Hnames. apply list_elem_of_fmap. by exists p. }
    exists (g :: out). split; [cbn; by rewrite E, Eg|]. split; [by constructor|].
    cbn. rewrite H2. f_equal. unfold names in Hp. apply list_elem_of_fmap in Hp as ([t i] & -> & Hti).
    cbn in *. apply (om_find_elem _ _ _ Hs1) in Hti.
    assert (text i = t) as <-.
    { rewrite Hn in Hti. eapply sum_items_text; [done|]. apply Forall_forall. intros j Hj.
      apply list_elem_of_fmap in Hj as (g' & -> & Hg'). by apply list_elem_of_filter in Hg' as [<- _]. }
    rewrite Hti in Hfind. injection Hfind as <-. by rewrite Hng. }
  exists out, names. eexists. rewrite Eout. split; [done|]. split; [done|].
  split; [rewrite Hfst; by apply om_sorted_NoDup|]. split; [done|]. rewrite Hv2, <- Hk. split; [done|].
  rewrite <- Hv2 in Hd. clear - Hd. unfold descending in *.
  induction out as [|g out IH]; [constructor|]. apply StronglySorted_cons in Hd as [Hg Hd].
  constructor; [by apply IH|]. apply Forall_forall. intros g' Hin. rewrite Forall_forall in Hg.
  apply (Hg (name g', score g'.1)). apply list_elem_of_fmap. by exists g'.
Qed.

(** One result alone is cut after its first groups. *)
Lemma cut_groups_unroll k gs : Forall wf_group gs -> forall n, cut_groups k n (unroll gs) = unroll (take (Z.to_nat (k - n)) gs).
Proof.
  induction 1 as [|[i l] gs (Hi & Hl & _) _ IH]; intros n; [by rewrite take_nil|].
  cbn [fst snd] in *. change (unroll ((i, l) :: gs)) with (i :: l ++ unroll gs). cbn [cut_groups]. rewrite Hi. change (0 =? 0) with true. cbn iota.
  destruct (Z.ltb_spec k (n + 1)) as [Hk|Hk].
  - by replace (Z.to_nat (k - n)) with 0%nat by lia.
  - replace (Z.to_nat (k - n)) with (S (Z.to_nat (k - (n + 1)))) by lia. cbn [take].
    change (unroll ((i, l) :: ?x)) with (i :: l ++ unroll x). f_equal. rewrite <- IH. clear IH Hi.
    induction Hl as [|x l Hx _ IHl]; [done|]. cbn [app cut_groups]. rewrite (proj2 (Z.eqb_neq _ _)) by done.
    rewrite (proj2 (Z.ltb_ge _ _)) by lia. by rewrite IHl.
Qed.

Lemma unroll_length gs : (length gs <= length (unroll gs))%nat.
Proof. induction gs as [|[i l] gs IH]; [done|]. change (unroll ((i, l) :: gs)) with (i :: l ++ unroll gs). cbn. rewrite length_app. lia. Qed.

Lemma merge_one topGroupNum gs0 gss : Forall wf_rep (gs0 :: gss) -> 0 <= topGroupNum ->
  vsize (filter (fun l => l <> []) (gs0 :: gss)) < 2 ->
  merge (Q := Q) topGroupNum (unroll gs0) (map unroll gss) =
  Ret (unroll (if topGroupNum =? 0 then concat (gs0 :: gss) else take (Z.to_nat topGroupNum) (concat (gs0 :: gss))), []).
Proof.
  intros Hwf Htop Hone. unfold merge. rewrite adopt_ok. change (unroll gs0 :: map unroll gss) with (map unroll (gs0 :: gss)).
  rewrite filter_unroll. pose proof (concat_filter_nonempty (gs0 :: gss)) as <-.
  assert (Forall wf_rep (filter (fun l => l <> []) (gs0 :: gss))) as Hwf2.
  { apply Forall_forall. intros x [_ Hx]%list_elem_of_filter. rewrite Forall_forall in Hwf. by apply Hwf. }
  destruct (filter _ (gs0 :: gss)) as [|h [|h2 rest]]; [| |rewrite !vsize_cons in Hone; pose proof (vsize_nonneg rest); lia].
  - cbn [map concat]. rewrite take_nil. by destruct (topGroupNum =? 0), (_ || _).
  - apply Forall_inv in Hwf2 as [Hh _]. cbn [map concat]. rewrite app_nil_r. destruct (Z.eqb_spec topGroupNum 0) as [|Hne]; [done|]. cbn [orb].
    destruct (Z.leb_spec (vsize (unroll h)) topGroupNum) as [Hle|Hgt].
    + rewrite firstn_all2; [done|]. pose proof (unroll_length h). unfold vsize in Hle. lia.
    + rewrite cut_groups_unroll by done. by rewrite Z.sub_0_r.
Qed.

(** C21: merging attribute results succeeds. If at least two are non-empty the
    result consists of the [topGroupNum] names of the best total scores (all names
    when it is 0), best first - not of the greatest document counts -; each name,
    and each value below it, has the sum of its document counts and scores over all
    the inputs, and the values of a name are in descending order of their scores.
    Otherwise it is the one non-empty result, cut after its first [topGroupNum]
    names. *)
Theorem merge_sums topGroupNum gs0 gss all :
  all = concat (gs0 :: gss) -> Forall wf_rep (gs0 :: gss) -> numeric_scores all ->
  0 <= topGroupNum < 2 ^ 31 -> vsize all < 2 ^ 31 ->
  exists out others', merge (Q := Q) topGroupNum (unroll gs0) (map unroll gss) = Ret (unroll out, others') /\
    if 2 <=? vsize (filter (fun l => l <> []) (gs0 :: gss)) then
      exists names, Forall (sums all) out /\
        NoDup (map fst names) /\ (forall t, t ∈ map fst names <-> names_of all t <> []) /\
        best_of name_lessThan (if topGroupNum =? 0 then vsize names else topGroupNum) names
          (map (fun g => (name g, score g.1)) out) /\
        descending (fun g g' => flt (score g.1) (score g'.1)) out
    else out = if topGroupNum =? 0 then all else take (Z.to_nat topGroupNum) all.
Proof.
  intros -> Hwf Hnum Htop Hsize. destruct (Z.leb_spec 2 (vsize (filter (fun l => l <> []) (gs0 :: gss)))) as [Htwo|Hone].
  - destruct (merge_two topGroupNum gs0 gss _ eq_refl Hwf Htwo Hnum Htop Hsize) as (out & names & others' & E & H).
    exists out, others'. split; [exact E|]. by exists names.
  - rewrite merge_one by (done || lia). by eexists _, [].
Qed.
End MergeTheorem.
End MergeSpec.

Definition sample_rep : list (group (T := Z)) :=
  [(ex_item 0 10 1 5, [ex_item 1 1 2 3; ex_item 1 2 2 4])].
Definition sample_others : list (list (group (T := Z))) :=
  [[(ex_item 0 20 7 1, [ex_item 1 1 1 1])]; [(ex_item 0 10 1 6, [ex_item 1 2 5 8])]].

Lemma sample_numeric : numeric_scores (concat (sample_rep :: sample_others)).
Proof.
  split.
  - intros t i. unfold names_of. cbn [concat sample_rep sample_others app].
    rewrite !filter_cons, filter_nil. unfold name. cbn [fst snd text ex_item].
    repeat case_decide; subst; try done; by intros [= <-].
  - intros t v i. unfold values_of, with_text. cbn [concat sample_rep sample_others app].
    rewrite !filter_cons, filter_nil. unfold name. cbn [fst snd text ex_item].
    repeat case_decide; subst; try done; cbn [map concat fst snd]; rewrite !filter_cons, !filter_nil;
      cbn [text ex_item]; repeat case_decide; subst; try done; by intros [= <-].
Qed.

Lemma merge_sums_witness : exists out others',
  merge (Q := heap (Z * spec_float)) 1 (unroll sample_rep) (map unroll sample_others) = Ret (unroll out, others') /\
  exists names, Forall (sums (concat (sample_rep :: sample_others))) out /\
    NoDup (map fst names) /\
    (forall t, t ∈ map fst names <-> names_of (concat (sample_rep :: sample_others)) t <> []) /\
    best_of name_lessThan (if 1 =? 0 then vsize names else 1) names
      (map (fun g => (name g, score g.1)) out) /\
    descending (fun g g' : group => flt (score g.1) (score g'.1)) out.
Proof.
  apply (merge_sums 1 sample_rep sample_others).
  - reflexivity.
  - repeat constructor; cbn; try done; try (intros H; repeat (apply elem_of_cons in H as [H|H]; [done|]));
      by apply elem_of_nil in H.
  - apply sample_numeric.
  - lia.
  - reflexivity.
Defined.
