(* ===== verification/NumericRange.v ===== *)
(** * Counting documents by numeric ranges

Models mining-manager/group-manager/NumericRangeGroupCounter.{h,cpp}
([addDoc], [getGroupRep]) and [GroupRep::mergeNumericRangeGroup]: a segment
tree of 700 leaves, 70 + 7 inner nodes and a root in one vector. The
vector is shown to count the documents below each node, and the merge of
two vectors to be the vector of both document sets. *)
From S2P Require Import Prelude.

Definition LEVEL_1_OF_SEGMENT_TREE : Z := 7.

Definition bound_ : list Z :=
  [0; 1000; 10000; 100000; 1000000; 10000000; 100000000; 1000000000].

(** [segmentTree_(111 * LEVEL_1_OF_SEGMENT_TREE + 1)] *)
Definition new_tree : list Z := replicate (Z.to_nat (111 * LEVEL_1_OF_SEGMENT_TREE + 1)) 0.

(** for (exponent = 1; value >= bound_[exponent]; ++exponent); *)
Definition exponent_body (value : Z) (exponent : Z) : res (Z + Z) :=
  let* b := vget bound_ exponent in
  if b <=? value then Ret (inl (exponent + 1)) else Ret (inr exponent).

(** The leaf [addDoc] increments for a value. *)
Definition leaf_index (value : Z) : res Z :=
  let* top := vget bound_ LEVEL_1_OF_SEGMENT_TREE in
  let value := Z.min value (top - 1) in
  let* exponent := while_loop (exponent_body value) 1 in
  let* b := vget bound_ exponent in
  Ret (100 * (exponent - 1) + Z.quot value (Z.quot b 100)).

Section Counter.
(** [numericPropertyTable_->getInt32Value(doc, value, false)] *)
Context (getInt32Value : Z -> option Z).

Definition addDoc (doc : Z) (segmentTree_ : list Z) : res (list Z) :=
  match getInt32Value doc with
  | Some value =>
      if 0 <? value then
        let* i := leaf_index value in
        let* c := vget segmentTree_ i in
        vset segmentTree_ i (u32 (c + 1))
      else Ret segmentTree_
  | None => Ret segmentTree_
  end.
End Counter.

(** [*it0 += *(it++)], [n] times; the state is the vector and [it]. *)
Definition add_children (n it0 : Z) (st : list Z * Z) : res (list Z * Z) :=
  mfold (fun _ '(v, it) =>
    let* a := vget v it0 in let* b := vget v it in
    let* v := vset v it0 (u32 (a + b)) in Ret (v, it + 1)) (seqZ 0 n) st.

(** [getGroupRep]: the vector moved into the group representation. *)
Definition getGroupRep (segmentTree_ : list Z) : res (list Z) :=
  let* (v, it, it0) :=
    mfold (fun _ '(v, it, it0) =>
      let* (v, it) := add_children 10 it0 (v, it) in Ret (v, it, it0 + 1))
      (seqZ 0 (LEVEL_1_OF_SEGMENT_TREE * 11)) (segmentTree_, 0, 100 * LEVEL_1_OF_SEGMENT_TREE) in
  let* (v, it) := add_children LEVEL_1_OF_SEGMENT_TREE it0 (v, it) in
  Ret v.

(** One vector of [mergeNumericRangeGroup]: [*(p) += *(op)] at one index. *)
Definition add_at (other : list Z) (p : Z) (v : list Z) : res (list Z) :=
  let* a := vget v p in let* b := vget other p in vset v p (u32 (a + b)).

Definition merge_level3 (other : list Z) (st : list Z * Z) : res (list Z * Z) :=
  mfold (fun _ '(v, l3) => let* v := add_at other l3 v in Ret (v, l3 + 1)) (seqZ 0 10) st.

Definition merge_level2 (other : list Z) (st : list Z * Z * Z) : res (list Z * Z * Z) :=
  mfold (fun _ '(v, l2, l3) =>
    let* o2 := vget other l2 in
    if negb (o2 =? 0) then
      let* (v, l3) := merge_level3 other (v, l3) in
      let* v := add_at other l2 v in Ret (v, l2 + 1, l3)
    else Ret (v, l2 + 1, l3 + 10)) (seqZ 0 10) st.

Definition merge_level1 (other : list Z) (st : list Z * Z * Z * Z) : res (list Z * Z * Z * Z) :=
  mfold (fun _ '(v, l1, l2, l3) =>
    let* o1 := vget other l1 in
    if negb (o1 =? 0) then
      let* (v, l2, l3) := merge_level2 other (v, l2, l3) in
      let* v := add_at other l1 v in Ret (v, l1 + 1, l2, l3)
    else Ret (v, l1 + 1, l2 + 10, l3 + 100)) (seqZ 0 LEVEL_1_OF_SEGMENT_TREE) st.

(** The vector of one property. [back()] is the last element. *)
Definition merge_range (v other : list Z) : res (list Z) :=
  let* ob := vget other (vsize other - 1) in
  if ob =? 0 then Ret v
  else
    let level2 := 100 * LEVEL_1_OF_SEGMENT_TREE in
    let* v := (let* a := vget v (vsize v - 1) in vset v (vsize v - 1) (u32 (a + ob))) in
    let* (v, _, _, _) := merge_level1 other (v, level2 + 10 * LEVEL_1_OF_SEGMENT_TREE, level2, 0) in
    Ret v.

(** ** The leaf of a value *)
Lemma bound_at e : 1 <= e <= 7 -> vget bound_ e = Ret (10 ^ (e + 2)).
Proof.
  intros H. assert (e = 1 \/ e = 2 \/ e = 3 \/ e = 4 \/ e = 5 \/ e = 6 \/ e = 7) as D by lia.
  destruct D as [->|[->|[->|[->|[->|[->| ->]]]]]]; reflexivity.
Qed.

Lemma exponent_ok value : 0 < value < 10 ^ 9 ->
  exists e, while_loop (exponent_body value) 1 = Ret e /\
    1 <= e <= 7 /\ value < 10 ^ (e + 2) /\ (e = 1 \/ 10 ^ (e + 1) <= value).
Proof.
  intros Hv.
  apply (while_loop_rule (exponent_body value)
    (fun e s => s = e /\ 1 <= e <= 7 /\ (e = 1 \/ 10 ^ (e + 1) <= value)) (fun e => 7 - e) _) with (g := 1).
  - intros g s (-> & H1 & H2). split; [lia|]. unfold exponent_body.
    rewrite bound_at by done. rsimpl.
    destruct (Z.leb_spec (10 ^ (g + 2)) value); [left|right; by exists g].
    exists (g + 1), (g + 1). split; [done|]. split; [|lia]. split; [done|].
    assert (g <> 7) by (intros ->; change (7 + 2) with 9 in *; lia).
    split; [lia|]. right. by replace (g + 1 + 1) with (g + 2) by lia.
  - split; [done|]. lia.
  - unfold loop_fuel. lia.
Qed.

(** The values a leaf stands for: [lo, hi). *)
Definition leaf_lo (i : Z) : Z := 10 ^ (i / 100 + 1) * (i mod 100).
Definition leaf_hi (i : Z) : Z := 10 ^ (i / 100 + 1) * (i mod 100 + 1).

(** For every positive 32-bit value, [addDoc] picks a leaf inside the
    tree; the leaf's range holds the value, or the value is at least the upper
    bound 10^9 and the leaf is the last one. The leaves above the first hundred use
    their upper 90 cells only. *)
Theorem leaf_index_range value :
  0 < value ->
  exists i, leaf_index value = Ret i /\ 0 <= i < 700 /\
    leaf_lo i <= Z.min value (10 ^ 9 - 1) < leaf_hi i /\ (i < 100 \/ 10 <= i mod 100).
Proof.
  intros Hv. unfold leaf_index. change (vget bound_ LEVEL_1_OF_SEGMENT_TREE) with (Ret (10 ^ 9)). rsimpl. set (w := Z.min value (10 ^ 9 - 1)).
  assert (0 < w < 10 ^ 9) as Hw by lia. clearbody w.
  destruct (exponent_ok w Hw) as (e & -> & He & Hhi & Hlo). rsimpl.
  rewrite bound_at by done. rsimpl. eexists. split; [done|].
  assert (10 ^ (e + 2) = 10 ^ e * 100) as -> by (rewrite Z.pow_add_r by lia; reflexivity).
  assert (10 ^ (e + 2) = 10 ^ e * 100) as E2 by (rewrite Z.pow_add_r by lia; reflexivity).
  rewrite E2 in Hhi. rewrite Z.quot_mul by lia.
  assert (0 < 10 ^ e) as Hp by (apply Z.pow_pos_nonneg; lia).
  rewrite Z.quot_div_nonneg by lia. set (q := w / 10 ^ e).
  assert (10 ^ e * q <= w < 10 ^ e * (q + 1)) as Hq.
  { pose proof (Z.div_mod w (10 ^ e) ltac:(lia)). pose proof (Z.mod_pos_bound w (10 ^ e) Hp).
    unfold q. lia. }
  assert (0 <= q < 100) as Hq2 by nia.
  assert ((100 * (e - 1) + q) / 100 = e - 1) as Ed.
  { rewrite Z.mul_comm, Z.div_add_l, Z.div_small by lia. lia. }
  assert ((100 * (e - 1) + q) mod 100 = q) as Em.
  { rewrite Z.mul_comm, Z.add_comm, Z.mod_add, Z.mod_small by lia. done. }
  unfold leaf_lo, leaf_hi. rewrite Ed, Em. replace (e - 1 + 1) with e by lia.
  split; [lia|]. split; [lia|]. destruct Hlo as [->|Hlo]; [lia|]. right.
  rewrite Z.pow_add_r in Hlo by lia. nia.
Qed.

Lemma leaf_index_range_witness : 0 < 123456 /\
  exists i, leaf_index 123456 = Ret i /\ 0 <= i < 700 /\
    leaf_lo i <= Z.min 123456 (10 ^ 9 - 1) < leaf_hi i /\ (i < 100 \/ 10 <= i mod 100).
Proof. split; [lia|]. apply leaf_index_range. lia. Defined.

(** ** The tree counts the documents below each node *)

(** Whether a leaf is node [idx] or lies below it. *)
Definition below (idx leaf : Z) : bool :=
  if idx <? 700 then leaf =? idx
  else if idx <? 770 then leaf / 10 =? idx - 700
  else if idx <? 777 then leaf / 100 =? idx - 770
  else true.

(** The documents' leaves, below node [idx]. *)
Definition under (ls : list Z) (idx : Z) : Z := u32 (count (below idx) ls).

Definition leaves_ok (ls : list Z) : Prop := Forall (fun l => 0 <= l < 700) ls.

(** The vector while documents are added, and when it is complete. *)
Definition counting (ls : list Z) (v : list Z) : Prop :=
  vec_is 778 (fun i => if i <? 700 then under ls i else 0) v.
Definition complete (ls : list Z) (v : list Z) : Prop := vec_is 778 (under ls) v.

Lemma new_tree_counting : counting [] new_tree.
Proof.
  eapply vec_is_ext; [by apply (vec_is_replicate 778)|]. intros i _. by destruct (i <? 700).
Qed.

Lemma counting_add ls v i :
  counting ls v -> 0 <= i < 700 ->
  exists v', (let* c := vget v i in vset v i (u32 (c + 1))) = Ret v' /\ counting (ls ++ [i]) v'.
Proof.
  intros Hv Hi. rewrite (proj2 Hv) by lia. rsimpl.
  destruct (vec_is_set _ _ _ i (u32 ((if i <? 700 then under ls i else 0) + 1)) Hv)
    as (v' & E & Hv'); [lia|].
  exists v'. split; [done|]. eapply vec_is_ext; [done|]. intros j Hj. cbn beta.
  unfold under. rewrite count_app, count_cons, count_nil.
  destruct (Z.ltb_spec j 700) as [Hj7|], (Z.eqb_spec j i) as [->|Hne]; try lia.
  - destruct (Z.ltb_spec i 700); [|lia]. rewrite u32_add_l. do 2 f_equal.
    unfold below. destruct (Z.ltb_spec i 700); [|lia]. by rewrite Z.eqb_refl.
  - f_equal. assert (below j i = false) as ->; [|lia].
    unfold below. destruct (Z.ltb_spec j 700); [|lia]. destruct (Z.eqb_spec i j); lia.
Qed.

(** Position of a leaf's branch among the children of [idx], and the first
    of these children. *)
Definition digit (idx leaf : Z) : Z :=
  if idx <? 770 then leaf mod 10 else if idx <? 777 then leaf / 10 mod 10 else leaf / 100.
Definition first_child (idx : Z) : Z := if idx <? 777 then 10 * (idx - 700) else 770.
Definition arity (idx : Z) : Z := if idx <? 777 then 10 else 7.

#[local] Ltac Zify.zify_post_hook ::= Z.to_euclidean_division_equations.

Lemma below_child idx j leaf :
  700 <= idx < 778 -> 0 <= j < arity idx -> 0 <= leaf < 700 ->
  below (first_child idx + j) leaf = below idx leaf && (digit idx leaf =? j).
Proof.
  intros Hi Hj Hl. apply Bool.eq_true_iff_eq. rewrite andb_true_iff, Z.eqb_eq.
  unfold below, first_child, digit, arity in *. destruct (Z.ltb_spec idx 777).
  - destruct (Z.ltb_spec idx 700); [lia|]. destruct (Z.ltb_spec (10 * (idx - 700) + j) 700).
    + destruct (Z.ltb_spec idx 770); [|lia]. rewrite !Z.eqb_eq. lia.
    + destruct (Z.ltb_spec idx 770); [lia|].
      destruct (Z.ltb_spec (10 * (idx - 700) + j) 770); [|lia]. rewrite !Z.eqb_eq. lia.
  - destruct (Z.ltb_spec (770 + j) 700); [lia|]. destruct (Z.ltb_spec (770 + j) 770); [lia|].
    destruct (Z.ltb_spec (770 + j) 777); [|lia]. destruct (Z.ltb_spec idx 700); [lia|].
    destruct (Z.ltb_spec idx 770); [lia|]. rewrite Z.eqb_eq. lia.
Qed.

Lemma digit_lt idx leaf : 700 <= idx < 778 -> 0 <= leaf < 700 -> 0 <= digit idx leaf < arity idx.
Proof.
  intros Hi Hl. unfold digit, arity.
  destruct (Z.ltb_spec idx 777), (Z.ltb_spec idx 770); lia.
Qed.

Lemma add_children_ok ls v idx :
  leaves_ok ls -> 700 <= idx < 778 ->
  vec_is 778 (fun i => if i <? idx then under ls i else 0) v ->
  exists v', add_children (arity idx) idx (v, first_child idx) = Ret (v', first_child idx + arity idx) /\
    vec_is 778 (fun i => if i <? idx + 1 then under ls i else 0) v'.
Proof.
  intros Hls Hi Hv. unfold add_children.
  edestruct (mfold_seqZ (fun (_ : Z) '(v, it) =>
      let* a := vget v idx in let* b := vget v it in
      let* v := vset v idx (u32 (a + b)) in Ret (v, it + 1))
    (fun j '(v, it) => it = first_child idx + j /\ vec_is 778 (fun i => if i <? idx then under ls i else
        if i =? idx then u32 (count (fun l => below idx l && (digit idx l <? j)) ls) else 0) v)
    0 (arity idx) (v, first_child idx)) as ([v' it'] & E & -> & Hv').
  - unfold arity. destruct (idx <? 777); lia.
  - intros j [w it] Hj (-> & Hw). rewrite !(proj2 Hw) by (unfold arity, first_child in *; destruct (idx <? 777) eqn:?; lia).
    rsimpl. assert (first_child idx + j < idx) as Hc.
    { unfold first_child, arity in *. destruct (Z.ltb_spec idx 777); lia. }
    destruct (Z.ltb_spec idx idx); [lia|]. rewrite Z.eqb_refl.
    destruct (Z.ltb_spec (first_child idx + j) idx); [|lia].
    match goal with |- context [vset w idx ?a] =>
      destruct (vec_is_set _ _ _ idx a Hw) as (w' & -> & Hw'); [lia|] end. rsimpl.
    eexists (_, _). split; [done|]. split; [lia|]. eapply vec_is_ext; [done|]. intros i Hi2. cbn beta.
    destruct (Z.eqb_spec i idx) as [->|]; [|done]. destruct (Z.ltb_spec idx idx); [lia|].
    unfold under. rewrite u32_add_l, u32_add_r. f_equal. symmetry. apply count_split.
    intros l Hl. unfold leaves_ok in Hls. rewrite Forall_forall in Hls. specialize (Hls l Hl).
    rewrite below_child by (done || lia).
    destruct (below idx l); cbn; [|done]. destruct (Z.ltb_spec (digit idx l) (j + 1)),
      (Z.ltb_spec (digit idx l) j), (Z.eqb_spec (digit idx l) j); cbn; lia.
  - split; [lia|]. eapply vec_is_ext; [done|]. intros i Hi2. cbn beta.
    destruct (Z.ltb_spec i idx); [done|]. destruct (Z.eqb_spec i idx); [|done].
    erewrite (count_ext _ (fun _ => false)).
    { rewrite (count_split _ (fun _ => false) (fun _ => false)) by done.
      assert (forall l : list Z, count (fun _ => false) l = 0) as -> ; [|done].
      clear. induction l; [done|]. rewrite count_cons. lia. }
    intros l Hl. unfold leaves_ok in Hls. rewrite Forall_forall in Hls. specialize (Hls l Hl).
    pose proof (digit_lt idx l ltac:(lia) Hls). destruct (Z.ltb_spec (digit idx l) 0); [lia|].
    by rewrite andb_false_r.
  - rewrite Z.add_0_l in *. exists v'. split; [done|]. eapply vec_is_ext; [done|]. intros i Hi2. cbn beta.
    destruct (Z.ltb_spec i idx), (Z.ltb_spec i (idx + 1)), (Z.eqb_spec i idx); try lia; try done.
    subst. unfold under. f_equal. apply count_ext. intros l Hl.
    unfold leaves_ok in Hls. rewrite Forall_forall in Hls. specialize (Hls l Hl).
    pose proof (digit_lt idx l ltac:(lia) Hls). destruct (Z.ltb_spec (digit idx l) (arity idx)); [|lia].
    by rewrite andb_true_r.
Qed.

Lemma getGroupRep_complete ls v :
  leaves_ok ls -> counting ls v -> exists v', getGroupRep v = Ret v' /\ complete ls v'.
Proof.
  intros Hls Hv. unfold getGroupRep.
  edestruct (mfold_seqZ (fun (_ : Z) '(v, it, it0) =>
      let* (v, it) := add_children 10 it0 (v, it) in Ret (v, it, it0 + 1))
    (fun i '(v, it, it0) => it = 10 * i /\ it0 = 700 + i /\
       vec_is 778 (fun j => if j <? 700 + i then under ls j else 0) v)
    0 (LEVEL_1_OF_SEGMENT_TREE * 11) (v, 0, 100 * LEVEL_1_OF_SEGMENT_TREE))
    as ([[v1 it1] it01] & -> & -> & -> & Hv1); [done| |done|].
  - intros i [[w it] it0] Hi (-> & -> & Hw). unfold LEVEL_1_OF_SEGMENT_TREE in Hi.
    destruct (add_children_ok ls w (700 + i) Hls ltac:(lia) Hw) as (w' & E & Hw').
    unfold arity, first_child in E. destruct (Z.ltb_spec (700 + i) 777); [|lia].
    replace (10 * (700 + i - 700)) with (10 * i) in E by lia. rewrite E. rsimpl.
    eexists (_, _, _). split; [done|]. split; [lia|]. split; [lia|].
    by rewrite Z.add_assoc.
  - rsimpl. destruct (add_children_ok ls v1 777 Hls ltac:(lia) Hv1) as (w' & E & Hw').
    change (arity 777) with LEVEL_1_OF_SEGMENT_TREE in E. cbn [first_child] in E.
    change (first_child 777) with (10 * (0 + LEVEL_1_OF_SEGMENT_TREE * 11)) in E.
    change (700 + (0 + LEVEL_1_OF_SEGMENT_TREE * 11)) with 777. rewrite E. rsimpl.
    exists w'. split; [done|]. eapply vec_is_ext; [done|]. intros i Hi. cbn beta.
    destruct (Z.ltb_spec i (777 + 1)); [done|lia].
Qed.

(** ** Merging two trees *)
Section MergeRange.
Context (ls ks : list Z).
Context (o : list Z).
Hypothesis Ho : complete ks o.
Hypothesis Hks : leaves_ok ks.
Hypothesis Hsmall : vsize ks < 2 ^ 32.

(** The nodes merged so far, from the three cursors. *)
Definition merged (l1 l2 l3 i : Z) : bool :=
  (i =? 777) || (770 <=? i) && (i <? l1) || (700 <=? i) && (i <? l2) && (i <? 770) ||
  (i <? l3) && (i <? 700).

Definition merging (l1 l2 l3 : Z) (w : list Z) : Prop :=
  vec_is 778 (fun i => if merged l1 l2 l3 i then under (ls ++ ks) i else under ls i) w.

Lemma under_app i : under (ls ++ ks) i = u32 (under ls i + under ks i).
Proof. unfold under. by rewrite count_app, u32_add_l, u32_add_r. Qed.

Lemma merging_step l1 l2 l3 l1' l2' l3' p w :
  merging l1 l2 l3 w -> 0 <= p < 778 -> merged l1 l2 l3 p = false ->
  (forall i, 0 <= i < 778 -> merged l1' l2' l3' i = (i =? p) || merged l1 l2 l3 i) ->
  exists w', add_at o p w = Ret w' /\ merging l1' l2' l3' w'.
Proof.
  intros Hw Hp Hf Hm. unfold add_at. rewrite (proj2 Hw), (proj2 Ho) by done. rsimpl.
  match goal with |- context [vset w p ?a] =>
    destruct (vec_is_set _ _ _ p a Hw Hp) as (w' & -> & Hw') end.
  exists w'. split; [done|]. eapply vec_is_ext; [done|]. intros i Hi. cbn beta.
  rewrite Hm, Hf by done. destruct (Z.eqb_spec i p) as [->|]; [|done]. cbn. by rewrite under_app.
Qed.

(** Cursors that pass nodes without documents of [other]. *)
Lemma merging_skip l1 l2 l3 l1' l2' l3' w :
  merging l1 l2 l3 w ->
  (forall i, 0 <= i < 778 -> merged l1' l2' l3' i = true ->
     merged l1 l2 l3 i = true \/ under ks i = 0) ->
  (forall i, 0 <= i < 778 -> merged l1 l2 l3 i = true -> merged l1' l2' l3' i = true) ->
  merging l1' l2' l3' w.
Proof.
  intros Hw H1 H2. eapply vec_is_ext; [done|]. intros i Hi. cbn beta.
  destruct (merged l1 l2 l3 i) eqn:E; [by rewrite H2|].
  destruct (merged l1' l2' l3' i) eqn:E'; [|done].
  destruct (H1 i Hi E') as [?|Hz]; [congruence|]. rewrite under_app, Hz, Z.add_0_r.
  unfold under. unfold u32. by rewrite Zmod_mod.
Qed.

Lemma under_zero p i :
  under ks p = 0 -> (forall l, 0 <= l < 700 -> below i l = true -> below p l = true) ->
  under ks i = 0.
Proof.
  unfold under. intros H Hb. pose proof (count_bounds (below p) ks). rewrite u32_small in H by lia.
  assert (count (below i) ks <= count (below p) ks).
  { apply count_le. intros l Hl. unfold leaves_ok in Hks. rewrite Forall_forall in Hks. auto. }
  pose proof (count_bounds (below i) ks). rewrite u32_small by lia. lia.
Qed.

Lemma under_zero_level2 b i :
  0 <= b < 70 -> under ks (700 + b) = 0 -> 10 * b <= i < 10 * b + 10 -> under ks i = 0.
Proof.
  intros Hb Hz Hi. apply (under_zero (700 + b)); [done|]. intros l Hl. unfold below.
  destruct (Z.ltb_spec i 700); [|lia]. destruct (Z.ltb_spec (700 + b) 700); [lia|].
  destruct (Z.ltb_spec (700 + b) 770); [|lia]. rewrite !Z.eqb_eq. lia.
Qed.

Lemma under_zero_level1 a i :
  0 <= a < 7 -> under ks (770 + a) = 0 ->
  100 * a <= i < 100 * a + 100 \/ 700 + 10 * a <= i < 700 + 10 * a + 10 -> under ks i = 0.
Proof.
  intros Ha Hz Hi. apply (under_zero (770 + a)); [done|]. intros l Hl. unfold below.
  destruct (Z.ltb_spec (770 + a) 700); [lia|]. destruct (Z.ltb_spec (770 + a) 770); [lia|].
  destruct (Z.ltb_spec (770 + a) 777); [|lia].
  destruct (Z.ltb_spec i 700); [rewrite !Z.eqb_eq; lia|].
  destruct (Z.ltb_spec i 770); [rewrite !Z.eqb_eq; lia|lia].
Qed.

Lemma merge_level3_ok l1 l2 l3 w :
  merging l1 l2 l3 w -> 0 <= l3 <= 690 ->
  exists w', merge_level3 o (w, l3) = Ret (w', l3 + 10) /\ merging l1 l2 (l3 + 10) w'.
Proof.
  intros Hw Hl. unfold merge_level3.
  edestruct (mfold_seqZ (fun (_ : Z) '(v, l3) => let* v := add_at o l3 v in Ret (v, l3 + 1))
    (fun k '(v, l) => l = l3 + k /\ merging l1 l2 (l3 + k) v) 0 10 (w, l3))
    as ([w' l'] & E & -> & Hw'); [done| |by rewrite Z.add_0_r|by exists w'].
  intros k [v l] Hk (-> & Hv).
  destruct (merging_step l1 l2 (l3 + k) l1 l2 (l3 + (k + 1)) (l3 + k) v Hv) as (v' & -> & Hv').
  - lia.
  - unfold merged. lia.
  - intros i Hi. unfold merged. lia.
  - rsimpl. eexists (_, _). split; [done|]. split; [lia|done].
Qed.

Lemma merge_level2_ok l1 a w :
  merging l1 (700 + 10 * a) (100 * a) w -> 0 <= a < 7 ->
  exists w', merge_level2 o (w, 700 + 10 * a, 100 * a) =
      Ret (w', 700 + 10 * (a + 1), 100 * (a + 1)) /\
    merging l1 (700 + 10 * (a + 1)) (100 * (a + 1)) w'.
Proof.
  intros Hw Ha. unfold merge_level2.
  match goal with |- context [mfold ?f _ _] => set (body := f) end.
  edestruct (mfold_seqZ body (fun j '(v, l2, l3) => l2 = 700 + (10 * a + j) /\ l3 = 10 * (10 * a + j) /\
      merging l1 (700 + (10 * a + j)) (10 * (10 * a + j)) v) 0 10 (w, 700 + 10 * a, 100 * a))
    as ([[w' l2'] l3'] & E & -> & -> & Hw'); [done| | |].
  3: { rewrite E. exists w'. split.
    - f_equal. f_equal; [f_equal|]; lia.
    - replace (700 + 10 * (a + 1)) with (700 + (10 * a + (0 + 10))) by lia.
      by replace (100 * (a + 1)) with (10 * (10 * a + (0 + 10))) by lia. }
  2: { split; [lia|]. split; [lia|]. rewrite Z.add_0_r. by replace (10 * (10 * a)) with (100 * a) by lia. }
  intros j [[v l2] l3] Hj (-> & -> & Hv). unfold body. set (b := 10 * a + j) in *.
  replace (10 * a + (j + 1)) with (b + 1) by lia.
  rewrite (proj2 Ho) by lia. rsimpl. destruct (Z.eqb_spec (under ks (700 + b)) 0) as [Hz|_].
  - eexists (_, _, _). split; [done|]. split; [lia|]. split; [lia|].
    apply (merging_skip _ _ _ _ _ _ v Hv).
    + intros i Hi Hm. destruct (Z.eqb_spec i (700 + b)) as [->|]; [by right|].
      destruct (decide (10 * b <= i < 10 * b + 10)).
      * right. apply (under_zero_level2 b); [lia|done|done].
      * left. unfold merged in *. lia.
    + intros i Hi. unfold merged. lia.
  - destruct (merge_level3_ok _ _ _ v Hv) as (v1 & -> & Hv1); [lia|]. rsimpl.
    destruct (merging_step _ _ _ l1 (700 + (b + 1)) (10 * (b + 1)) (700 + b) v1 Hv1) as (v2 & -> & Hv2).
    + lia.
    + unfold merged. lia.
    + intros i Hi. unfold merged. lia.
    + eexists (_, _, _). split; [done|]. split; [lia|]. split; [lia|done].
Qed.

Lemma merge_level1_ok w :
  merging 770 700 0 w ->
  exists w' l1 l2 l3, merge_level1 o (w, 770, 700, 0) = Ret (w', l1, l2, l3) /\ merging 777 770 700 w'.
Proof.
  intros Hw. unfold merge_level1, LEVEL_1_OF_SEGMENT_TREE.
  match goal with |- context [mfold ?f _ _] => set (body := f) end.
  edestruct (mfold_seqZ body (fun a '(v, l1, l2, l3) => l1 = 770 + a /\ l2 = 700 + 10 * a /\ l3 = 100 * a /\
      merging (770 + a) (700 + 10 * a) (100 * a) v) 0 7 (w, 770, 700, 0))
    as ([[[w' l1'] l2'] l3'] & E & -> & -> & -> & Hw'); [done| |done|].
  2: { rewrite E. by eauto 10. }
  intros a [[[v l1] l2] l3] Ha (-> & -> & -> & Hv). unfold body.
  rewrite (proj2 Ho) by lia. rsimpl. destruct (Z.eqb_spec (under ks (770 + a)) 0) as [Hz|_].
  - eexists (_, _, _, _). split; [done|]. split; [lia|]. split; [lia|]. split; [lia|].
    apply (merging_skip _ _ _ _ _ _ v Hv).
    + intros i Hi Hm. destruct (Z.eqb_spec i (770 + a)) as [->|]; [by right|].
      destruct (decide (100 * a <= i < 100 * a + 100 \/ 700 + 10 * a <= i < 700 + 10 * a + 10)).
      * right. apply (under_zero_level1 a); [lia|done|done].
      * left. unfold merged in *. lia.
    + intros i Hi. unfold merged. lia.
  - destruct (merge_level2_ok _ a v Hv) as (v1 & -> & Hv1); [lia|]. rsimpl.
    destruct (merging_step _ _ _ (770 + (a + 1)) (700 + 10 * (a + 1)) (100 * (a + 1)) (770 + a) v1 Hv1)
      as (v2 & -> & Hv2).
    + lia.
    + unfold merged. lia.
    + intros i Hi. unfold merged. lia.
    + eexists (_, _, _, _). split; [done|]. split; [lia|]. split; [lia|]. split; [lia|done].
Qed.
End MergeRange.

Lemma merge_range_ok ls ks v o :
  complete ls v -> complete ks o -> leaves_ok ks -> vsize ks < 2 ^ 32 ->
  exists v', merge_range v o = Ret v' /\ complete (ls ++ ks) v'.
Proof.
  intros Hv Ho Hks Hsmall. unfold merge_range. rewrite (proj1 Ho), (proj1 Hv).
  change (778 - 1) with 777. rewrite (proj2 Ho) by lia. rsimpl.
  assert (under ks 777 = vsize ks) as Hroot.
  { unfold under. rewrite (count_ext _ (fun _ => true)) by done.
    assert (count (fun _ => true) ks = vsize ks) as ->.
    { clear. induction ks as [|k ks IH]; [done|]. rewrite count_cons, vsize_cons, IH. done. }
    apply u32_small. pose proof (vsize_nonneg ks). lia. }
  destruct (Z.eqb_spec (under ks 777) 0) as [Hz|_].
  - exists v. split; [done|]. rewrite Hroot in Hz. destruct ks; [by rewrite app_nil_r|].
    rewrite vsize_cons in Hz. pose proof (vsize_nonneg ks). lia.
  - rewrite (proj2 Hv) by lia. rsimpl.
    destruct (vec_is_set _ _ _ 777 (u32 (under ls 777 + under ks 777)) Hv) as (w & -> & Hw); [lia|]. rsimpl.
    destruct (merge_level1_ok ls ks o Ho Hks Hsmall w) as (w' & l1 & l2 & l3 & E & Hw').
    + eapply vec_is_ext; [done|]. intros i Hi. cbn beta. unfold merged.
      destruct (Z.eqb_spec i 777) as [->|]; cbn; [by rewrite under_app|].
      destruct (Z.ltb_spec i 770), (Z.leb_spec 770 i), (Z.ltb_spec i 700), (Z.leb_spec 700 i),
        (Z.ltb_spec i 0); cbn; done || lia.
    + change (merge_level1 o (w, 100 * LEVEL_1_OF_SEGMENT_TREE + 10 * LEVEL_1_OF_SEGMENT_TREE,
        100 * LEVEL_1_OF_SEGMENT_TREE, 0)) with (merge_level1 o (w, 770, 700, 0)).
      rewrite E. exists w'. split; [done|]. eapply vec_is_ext; [done|]. intros i Hi. cbn beta.
      unfold merged. destruct (Z.eqb_spec i 777), (Z.leb_spec 770 i), (Z.ltb_spec i 777),
        (Z.leb_spec 700 i), (Z.ltb_spec i 770), (Z.ltb_spec i 700); cbn; done || lia.
Qed.

Section Documents.
Context (getInt32Value : Z -> option Z).

(** A counter fed with the documents, then asked for its result. *)
Definition tree_of (docs : list Z) : res (list Z) :=
  let* v := mfold (addDoc getInt32Value) docs new_tree in getGroupRep v.

Definition doc_leaf (doc : Z) : option Z :=
  match getInt32Value doc with
  | Some v => if 0 <? v then match leaf_index v with Ret i => Some i | _ => None end else None
  | None => None
  end.

Lemma doc_leaf_range doc l : doc_leaf doc = Some l -> 0 <= l < 700.
Proof.
  unfold doc_leaf. destruct (getInt32Value doc) as [v|]; [|done].
  destruct (Z.ltb_spec 0 v); [|done]. destruct (leaf_index_range v) as (i & -> & Hi & _); [done|].
  by intros [= <-].
Qed.

Lemma leaves_ok_docs docs : leaves_ok (omap doc_leaf docs).
Proof.
  apply Forall_forall. intros l (d & _ & E)%list_elem_of_omap. by eapply doc_leaf_range.
Qed.

Lemma addDocs_counting docs : forall ls v, counting ls v ->
  exists v', mfold (addDoc getInt32Value) docs v = Ret v' /\ counting (ls ++ omap doc_leaf docs) v'.
Proof.
  induction docs as [|d docs IH]; intros ls v Hv; cbn [mfold].
  { exists v. cbn. by rewrite app_nil_r. }
  assert (exists v1, addDoc getInt32Value d v = Ret v1 /\
    counting (ls ++ match doc_leaf d with Some l => [l] | None => [] end) v1) as (v1 & -> & Hv1).
  { unfold addDoc, doc_leaf. destruct (getInt32Value d) as [x|]; [|exists v; by rewrite app_nil_r].
    destruct (Z.ltb_spec 0 x); [|exists v; by rewrite app_nil_r].
    destruct (leaf_index_range x) as (i & -> & Hi & _); [done|]. rsimpl. by apply counting_add. }
  rsimpl. destruct (IH _ _ Hv1) as (v2 & -> & Hv2). exists v2. split; [done|].
  rewrite <- app_assoc in Hv2. by destruct (doc_leaf d) eqn:E; cbn; rewrite ?E.
Qed.

Lemma tree_of_complete docs :
  exists v, tree_of docs = Ret v /\ complete (omap doc_leaf docs) v.
Proof.
  unfold tree_of. destruct (addDocs_counting docs [] _ new_tree_counting) as (v & -> & Hv).
  rsimpl. apply getGroupRep_complete; [apply leaves_ok_docs|done].
Qed.

Lemma leaves_length docs : vsize (omap doc_leaf docs) <= vsize docs.
Proof.
  unfold vsize. induction docs as [|d docs IH]; cbn; [done|]. destruct (doc_leaf d); cbn; lia.
Qed.

Lemma count_omap (P : Z -> bool) docs :
  count P (omap doc_leaf docs) =
    count (fun d => match doc_leaf d with Some l => P l | None => false end) docs.
Proof.
  induction docs as [|d docs IH]; [done|]. cbn. rewrite count_cons.
  destruct (doc_leaf d); [|done]. rewrite count_cons. by rewrite IH.
Qed.

(** Every node of the finished segment tree holds the number of documents
    whose value has its leaf below the node: the range cells, the two levels
    above them and, at [back()], all documents with a positive value. *)
Theorem tree_counts docs :
  vsize docs < 2 ^ 32 ->
  exists v, tree_of docs = Ret v /\ vsize v = 778 /\
    forall i, 0 <= i < 778 -> vget v i = Ret
      (count (fun d => match doc_leaf d with Some l => below i l | None => false end) docs).
Proof.
  intros Hn. destruct (tree_of_complete docs) as (v & E & Hsz & Hv). exists v.
  split; [done|]. split; [done|]. intros i Hi. rewrite Hv by done. unfold under.
  rewrite count_omap, u32_small; [done|].
  pose proof (count_bounds (fun d => match doc_leaf d with Some l => below i l | None => false end) docs). lia.
Qed.

(** Merging the segment trees of two document sets (the shortcuts for
    empty subtrees included) gives the segment tree of all the documents. *)
Theorem merge_range_tree docs docs' :
  vsize docs' < 2 ^ 32 ->
  exists v o, tree_of docs = Ret v /\ tree_of docs' = Ret o /\
    merge_range v o = tree_of (docs ++ docs').
Proof.
  intros Hn. destruct (tree_of_complete docs) as (v & E & Hv).
  destruct (tree_of_complete docs') as (o & Eo & Ho). exists v, o.
  split; [done|]. split; [done|].
  destruct (merge_range_ok _ _ v o Hv Ho) as (w & -> & Hw).
  - apply leaves_ok_docs.
  - pose proof (leaves_length docs'). lia.
  - destruct (tree_of_complete (docs ++ docs')) as (w' & -> & Hw').
    rewrite omap_app in Hw'. by rewrite (vec_is_inj _ _ _ _ Hw Hw').
Qed.
End Documents.

Definition sample_table (doc : Z) : option Z := if doc <? 50 then Some (doc * 37) else None.

Lemma tree_counts_witness : vsize [1; 2; 60] < 2 ^ 32 /\
  exists v, tree_of sample_table [1; 2; 60] = Ret v /\ vsize v = 778 /\
    forall i, 0 <= i < 778 -> vget v i = Ret
      (count (fun d => match doc_leaf sample_table d with Some l => below i l | None => false end) [1; 2; 60]).
Proof. split; [reflexivity|]. apply tree_counts. reflexivity. Defined.

Lemma merge_range_tree_witness : vsize [3; 7] < 2 ^ 32 /\
  exists v o, tree_of sample_table [1; 2; 60] = Ret v /\ tree_of sample_table [3; 7] = Ret o /\
    merge_range v o = tree_of sample_table ([1; 2; 60] ++ [3; 7]).
Proof. split; [reflexivity|]. apply merge_range_tree. reflexivity. Defined.
