(* ===== verification/RangeLabels.v ===== *)
(** * Ranges of a numeric property

Models [NumericRangeGroupCounter::toOntologyRepItemList] of
mining-manager/group-manager/NumericRangeGroupCounter.cpp: the segment tree
of NumericRange.v is split into at most seven ranges (more for sparse
trees), each reported with its bounds and its number of documents. *)
From stdpp Require Import pretty.
From S2P Require Import Prelude PQueue Float64 OrdMap OntologyRep NumericRange.

Definition MAX_RANGE_NUMBER : Z := 7.

(** [split], and the ranges left to give away. *)
Definition initial_split (v : list Z) (level1 : Z) : res (list Z * Z) :=
  mfold (fun i '(split, rangeNumber) =>
    let* c := vget v (level1 + i) in
    Ret (split ++ [if negb (c =? 0) then 1 else 0],
         if negb (c =? 0) then rangeNumber - 1 else rangeNumber))
    (seqZ 0 LEVEL_1_OF_SEGMENT_TREE) ([], MAX_RANGE_NUMBER).

(** (double) level1[i] * level1[i] / split[i] / (split[i] + 1) *)
Definition variance_reduce (count split : Z) : spec_float :=
  ddiv (ddiv (dmul (dbl count 0) (dbl count 0)) (dbl split 0)) (dbl (u32 (split + 1)) 0).

Definition find_best (v : list Z) (level1 : Z) (split : list Z) : res Z :=
  let* (best, _) :=
    mfold (fun i '(best, bestVarianceReduce) =>
      let* c := vget v (level1 + i) in let* s := vget split i in
      if c <=? s then Ret (best, bestVarianceReduce)
      else
        let varianceReduce := variance_reduce c s in
        if (best =? -1) || fgt varianceReduce bestVarianceReduce then Ret (i, varianceReduce)
        else Ret (best, bestVarianceReduce))
      (seqZ 0 LEVEL_1_OF_SEGMENT_TREE) (-1, d0) in
  Ret best.

(** while (rangeNumber > 0) *)
Definition split_body (v : list Z) (level1 : Z) (st : list Z * Z) : res (list Z * Z + list Z) :=
  let (split, rangeNumber) := st in
  if 0 <? rangeNumber then
    let* best := find_best v level1 split in
    if negb (best =? -1) then
      let* s := vget split best in
      let* split := vset split best (u32 (s + 1)) in
      Ret (inl (split, rangeNumber - 1))
    else Ret (inr split)
  else Ret (inr split).

Definition range : Type := Z * Z * Z.

Section Part.
(** One node of the first level: its vector and the starts of its rows. *)
Context (v : list Z) (level1 level2 level3 atom split_i : Z).

(** while (level2[end.first] == 0) --end.first; *)
Definition last_row_body (first : Z) : res (Z + Z) :=
  let* c := vget v (level2 + first) in
  if c =? 0 then Ret (inl (first - 1)) else Ret (inr first).

(** while ( *vit == 0 ) { --end.second; --vit; } *)
Definition last_cell_body (st : Z * Z) : res (Z * Z + Z) :=
  let (second, vit) := st in
  let* c := vget v vit in
  if c =? 0 then Ret (inl (second - 1, vit - 1)) else Ret (inr second).

(** while (level2[stop.first] == 0) ++stop.first; *)
Definition first_row_body (first : Z) : res (Z + Z) :=
  let* c := vget v (level2 + first) in
  if c =? 0 then Ret (inl (first + 1)) else Ret (inr first).

(** while ( *vit == 0 ) { ++stop.second; ++vit; } *)
Definition first_cell_body (st : Z * Z) : res (Z * Z + Z * Z) :=
  let (second, vit) := st in
  let* c := vget v vit in
  if c =? 0 then Ret (inl (second + 1, vit + 1)) else Ret (inr (second, vit)).

(** while (++stop.second < 10 && *(++vit) == 0); *)
Definition next_cell_body (st : Z * Z) : res (Z * Z + Z * Z) :=
  let (second, vit) := st in
  let second := second + 1 in
  if second <? 10 then
    let vit := vit + 1 in
    let* c := vget v vit in
    if c =? 0 then Ret (inl (second, vit)) else Ret (inr (second, vit))
  else Ret (inr (second, vit)).

(** while (level2[++stop.first] == 0); *)
Definition next_row_body (first : Z) : res (Z + Z) :=
  let first := first + 1 in
  let* c := vget v (level2 + first) in
  if c =? 0 then Ret (inl first) else Ret (inr first).

(** The next cell with documents: [stop.first], [stop.second], [vit]. *)
Definition advance (st : Z * Z * Z) : res (Z * Z * Z) :=
  let '(first, second, vit) := st in
  let* (second, vit) := while_loop next_cell_body (second, vit) in
  if second =? 10 then
    let* first := while_loop next_row_body first in
    let* (second, vit) := while_loop first_cell_body (0, level3 + 10 * first) in
    Ret (first, second, vit)
  else Ret (first, second, vit).

(** The state of the inner loop: the cursor, tempCount, difference, tempStop. *)
Record walk := Walk { stop : Z * Z * Z; tempCount : Z; difference : Z; tempStop : Z * Z }.

Definition fill_body (w : walk) : res (walk + walk) :=
  let '(first, second, vit) := stop w in
  let* c := vget v vit in
  let* total := vget v level1 in
  let newDifference := s32 (difference w + c) in
  if 0 <=? newDifference + difference w then Ret (inr w)
  else
    let w := if negb (newDifference =? difference w)
             then Walk (stop w) (u32 (tempCount w + c)) newDifference (first, second) else w in
    if tempCount w =? total then Ret (inr w)
    else
      let* stop' := advance (stop w) in
      Ret (inl (Walk stop' (tempCount w) (difference w) (tempStop w))).

(** One turn of [for (j = 0; j < split[i] - 1; j++)]; the state is the ranges
    emitted, the cursor, tempCount, oldCount and j. *)
Definition range_body (st : list range * (Z * Z * Z) * Z * Z * Z)
  : res (list range * (Z * Z * Z) * Z * Z * Z + list range * (Z * Z * Z) * Z) :=
  let '(out, stop0, temp, old, j) := st in
  if j <? u32 (split_i - 1) then
    let* total := vget v level1 in
    let difference := s32 (temp - u32 (u32 ((j + 1) * total) - 1) / split_i - 1) in
    let* w := while_loop fill_body (Walk stop0 temp difference (0, 0)) in
    let temp := tempCount w in
    if negb (old =? temp) then
      let '(of_, os, _) := stop0 in
      let (tf, ts) := tempStop w in
      let out := out ++ [(atom * (10 * of_ + os), atom * (10 * tf + ts + 1) - 1, u32 (temp - old))] in
      if temp =? total then Ret (inr (out, stop w, temp))
      else Ret (inl (out, stop w, temp, temp, j + 1))
    else Ret (inl (out, stop w, temp, old, j + 1))
  else Ret (inr (out, stop0, temp)).

Definition part_ranges : res (list range) :=
  let* end_first := while_loop last_row_body 9 in
  let* end_second := while_loop last_cell_body (9, level3 + 10 * end_first + 9) in
  let* first := while_loop first_row_body 0 in
  let* (second, vit) := while_loop first_cell_body (0, level3 + 10 * first) in
  let* (out, stop, temp) := while_loop range_body ([], (first, second, vit), 0, 0, 0) in
  let* total := vget v level1 in
  if negb (temp =? total) then
    let '(sf, ss, _) := stop in
    Ret (out ++ [(atom * (10 * sf + ss), atom * (10 * end_first + end_second + 1) - 1,
                  u32 (total - temp))])
  else Ret out.
End Part.

(** The ranges of one property's vector. *)
Definition tree_ranges (v : list Z) : res (list range) :=
  let level3 := 0 in
  let level2 := level3 + 100 * LEVEL_1_OF_SEGMENT_TREE in
  let level1 := level2 + 10 * LEVEL_1_OF_SEGMENT_TREE in
  let* (split, rangeNumber) := initial_split v level1 in
  let* split := while_loop (split_body v level1) (split, rangeNumber) in
  let* (out, _, _, _) :=
    mfold (fun i '(out, level1, level2, level3) =>
      let* s := vget split i in
      if s =? 0 then Ret (out, level1 + 1, level2 + 10, level3 + 100)
      else
        let* b := vget bound_ (i + 1) in
        let* rs := part_ranges v level1 level2 level3 (Z.quot b 100) s in
        Ret (out ++ rs, level1 + 1, level2 + 10, level3 + 100))
      (seqZ 0 LEVEL_1_OF_SEGMENT_TREE) ([], level1, level2, level3) in
  Ret out.

(** ss << lo << "-" << hi *)
Definition range_label (lo hi : Z) : string := pretty lo +:+ "-" +:+ pretty hi.

Section Items.
(** The text type, and its conversion from a UTF-8 string. *)
Context {T : Type} (ustring : string -> T).

Definition range_items (property : string) (v : list Z) : res (list (item T)) :=
  let* back := vget v (vsize v - 1) in
  let* rs := tree_ranges v in
  Ret (mk_item 0 (ustring property) 0 back ::
       map (fun '(lo, hi, c) => mk_item 1 (ustring (range_label lo hi)) 0 c) rs).

(** [toOntologyRepItemList]: appended to the string groups. *)
Definition numericRange_toOntologyRepItemList (reps : list (string * list Z)) (itemList : list (item T))
  : res (list (item T)) :=
  mfold (fun '(property, v) itemList =>
    let* items := range_items property v in Ret (itemList ++ items)) reps itemList.
End Items.

Example ranges_ex :
  (let* v := tree_of (fun d => Some d) [3; 12; 17; 18; 250; 999; 1000; 5500; 20000] in tree_ranges v) =
  Ret [(0, 9, 1); (10, 19, 3); (250, 259, 1); (990, 999, 1); (1000, 1099, 1); (5500, 5599, 1); (20000, 20999, 1)].
Proof. vm_compute. reflexivity. Qed.

(** ** One node of the first level *)
#[local] Ltac Zify.zify_post_hook ::= Z.to_euclidean_division_equations.

Section PartProof.
(** [F p]: the documents in the first [p] of the node's hundred cells. *)
Context (v : list Z) (l1 l2 l3 atom split_i : Z) (F : Z -> Z).
Hypothesis HF0 : F 0 = 0.
Hypothesis Hmono : forall p q, 0 <= p <= q -> q <= 100 -> F p <= F q.
Hypothesis Hbig : 0 < F 100 < 2 ^ 32.
Hypothesis Hcell : forall p, 0 <= p < 100 -> vget v (l3 + p) = Ret (F (p + 1) - F p).
Hypothesis Hrow : forall k, 0 <= k < 10 -> vget v (l2 + k) = Ret (F (10 * k + 10) - F (10 * k)).
Hypothesis Htot : vget v l1 = Ret (F 100).

Definition cur (p : Z) : Z * Z * Z := (p / 10, p mod 10, l3 + p).

Lemma F_range p : 0 <= p <= 100 -> 0 <= F p <= F 100.
Proof. intros Hp. pose proof (Hmono 0 p). pose proof (Hmono p 100). lia. Qed.

Lemma first_cell_ok a :
  0 <= a <= 90 -> a mod 10 = 0 -> F a < F (a + 10) ->
  exists q, while_loop (first_cell_body v) (0, l3 + a) = Ret (q mod 10, l3 + q) /\
    a <= q < a + 10 /\ F q = F a /\ F q < F (q + 1).
Proof.
  intros Ha Hm Hlt.
  destruct (while_loop_rule (first_cell_body v)
    (fun q st => st = (q - a, l3 + q) /\ a <= q < a + 10 /\ F q = F a) (fun q => a + 10 - q)
    (fun r => exists q, r = (q mod 10, l3 + q) /\ a <= q < a + 10 /\ F q = F a /\ F q < F (q + 1)) )
    with (g := a) (s := (0, l3 + a)) as (b & E & q & -> & H).
  - intros q st (-> & Hq & HFq). split; [lia|]. unfold first_cell_body.
    rewrite Hcell by lia. rsimpl. destruct (Z.eqb_spec (F (q + 1) - F q) 0).
    + left. exists (q + 1), (q - a + 1, l3 + q + 1). split; [done|]. split; [|lia].
      split; [f_equal; lia|]. assert (q + 1 <> a + 10) by (intros Hq'; rewrite Hq' in *; lia). lia.
    + right. eexists. split; [done|]. exists q. split; [f_equal; lia|].
      pose proof (Hmono q (q + 1)). lia.
  - split; [f_equal; lia|]. lia.
  - unfold loop_fuel. lia.
  - exists q. done.
Qed.

Lemma next_row_ok a f :
  0 <= f < 10 -> F (10 * f + 10) = F a -> F a < F 100 ->
  exists f', while_loop (next_row_body v l2) f = Ret f' /\
    f < f' < 10 /\ F (10 * f') = F a /\ F (10 * f') < F (10 * f' + 10).
Proof.
  intros Hf He Hlt.
  destruct (while_loop_rule (next_row_body v l2)
    (fun g st => st = g /\ f <= g < 10 /\ F (10 * g + 10) = F a) (fun g => 10 - g)
    (fun f' => f < f' < 10 /\ F (10 * f') = F a /\ F (10 * f') < F (10 * f' + 10)))
    with (g := f) (s := f) as (b & E & H); [|split_and!; done || lia|unfold loop_fuel; lia|by exists b].
  intros g st (-> & Hg & HFg). split; [lia|]. unfold next_row_body.
  assert (g <> 9) by (intros ->; change (10 * 9 + 10) with 100 in *; lia).
  rewrite Hrow by lia. rsimpl. replace (10 * (g + 1)) with (10 * g + 10) by lia.
  destruct (Z.eqb_spec (F (10 * g + 10 + 10) - F (10 * g + 10)) 0).
  - left. exists (g + 1), (g + 1). split; [done|]. split; [|lia]. split; [done|]. split; [lia|].
    replace (10 * (g + 1) + 10) with (10 * g + 10 + 10) by lia. lia.
  - right. eexists. split; [done|]. replace (10 * (g + 1)) with (10 * g + 10) by lia.
    pose proof (Hmono (10 * g + 10) (10 * g + 10 + 10)). lia.
Qed.

Lemma advance_ok p :
  0 <= p < 100 -> F (p + 1) < F 100 ->
  exists q, advance v l2 l3 (cur p) = Ret (cur q) /\ p < q < 100 /\ F q = F (p + 1) /\ F q < F (q + 1).
Proof.
  intros Hp Hlt. unfold advance, cur. set (row := 10 * (p / 10)).
  assert (row <= p < row + 10) as Hrowp by (unfold row; lia).
  destruct (while_loop_rule (next_cell_body v)
    (fun r st => st = (r - row, l3 + r) /\ p <= r < row + 10 /\ F (r + 1) = F (p + 1)) (fun r => 100 - r)
    (fun st => st = (10, l3 + (row + 9)) /\ F (row + 10) = F (p + 1) \/
       exists q, st = (q - row, l3 + q) /\ p < q < row + 10 /\ F q = F (p + 1) /\ F q < F (q + 1)))
    with (g := p) (s := (p mod 10, l3 + p)) as (b & E & H).
  - intros r st (-> & Hr & HFr). split; [unfold row in *; lia|]. unfold next_cell_body.
    destruct (Z.ltb_spec (r - row + 1) 10).
    + replace (l3 + r + 1) with (l3 + (r + 1)) by lia. rewrite Hcell by (unfold row in *; lia). rsimpl.
      destruct (Z.eqb_spec (F (r + 1 + 1) - F (r + 1)) 0).
      * left. exists (r + 1), (r - row + 1, l3 + (r + 1)). split; [done|]. split; [|lia].
        split; [f_equal; lia|]. lia.
      * right. eexists. split; [done|]. right. exists (r + 1). split; [f_equal; lia|].
        pose proof (Hmono (r + 1) (r + 1 + 1)). unfold row in *. lia.
    + right. eexists. split; [done|]. left. assert (r = row + 9) as -> by lia.
      split; [f_equal; lia|]. by replace (row + 10) with (row + 9 + 1) by lia.
  - split; [f_equal; unfold row; lia|]. lia.
  - unfold loop_fuel. lia.
  - rewrite E. rsimpl. destruct H as [[-> HF]|(q & -> & Hq & HF & Hc)].
    + cbn [Z.eqb]. change (10 =? 10) with true. cbn iota.
      destruct (next_row_ok (p + 1) (p / 10)) as (f & -> & Hf & HFf & Hfc); [lia|by fold row|done|]. rsimpl.
      destruct (first_cell_ok (10 * f)) as (q & -> & Hq & HFq & Hqc); [lia|lia|done|]. rsimpl.
      exists q. split; [f_equal; f_equal; f_equal; lia|]. unfold row in *. lia.
    + destruct (Z.eqb_spec (q - row) 10); [lia|]. exists q.
      split; [f_equal; f_equal; f_equal; unfold row in *; lia|]. unfold row in *. lia.
Qed.

Lemma last_cell_ok :
  exists k e, while_loop (last_row_body v l2) 9 = Ret k /\
    while_loop (last_cell_body v) (9, l3 + 10 * k + 9) = Ret (e - 10 * k) /\
    0 <= e < 100 /\ F e < F (e + 1) /\ F (e + 1) = F 100.
Proof.
  destruct (while_loop_rule (last_row_body v l2)
    (fun k st => st = k /\ 0 <= k < 10 /\ F (10 * k + 10) = F 100) (fun k => k)
    (fun k => 0 <= k < 10 /\ F (10 * k + 10) = F 100 /\ F (10 * k) < F 100))
    with (g := 9) (s := 9) as (k & Ek & Hk & HFk & Hlt); [|split_and!; done || lia|unfold loop_fuel; lia|].
  - intros k st (-> & Hk & HFk). split; [lia|]. unfold last_row_body. rewrite Hrow by done. rsimpl.
    destruct (Z.eqb_spec (F (10 * k + 10) - F (10 * k)) 0).
    + left. exists (k - 1), (k - 1). split; [done|]. split; [|lia]. split; [done|].
      assert (k <> 0) by (intros ->; rewrite Z.mul_0_r, HF0 in *; lia).
      split; [lia|]. replace (10 * (k - 1) + 10) with (10 * k) by lia. lia.
    + right. eexists. split; [done|]. pose proof (Hmono (10 * k) (10 * k + 10)). lia.
  - exists k. destruct (while_loop_rule (last_cell_body v)
      (fun r st => st = (r - 10 * k, l3 + r) /\ 10 * k <= r < 10 * k + 10 /\ F (r + 1) = F 100) (fun r => r)
      (fun s => exists e, s = e - 10 * k /\ 10 * k <= e < 10 * k + 10 /\ F e < F (e + 1) /\ F (e + 1) = F 100))
      with (g := 10 * k + 9) (s := (9, l3 + 10 * k + 9)) as (s & Es & e & -> & He & Hc & HFe).
    + intros r st (-> & Hr & HFr). split; [lia|]. unfold last_cell_body. rewrite Hcell by lia. rsimpl.
      destruct (Z.eqb_spec (F (r + 1) - F r) 0).
      * left. exists (r - 1), (r - 10 * k - 1, l3 + r - 1). split; [done|]. split; [|lia].
        split; [f_equal; lia|]. assert (r <> 10 * k) by (intros ->; lia).
        replace (r - 1 + 1) with r by lia. lia.
      * right. eexists. split; [done|]. exists r. split; [done|]. pose proof (Hmono r (r + 1)). lia.
    + split; [f_equal; lia|]. split; [lia|]. by replace (10 * k + 9 + 1) with (10 * k + 10) by lia.
    + unfold loop_fuel. lia.
    + exists e. split; [done|]. split; [done|]. lia.
Qed.

(** The inner loop fills a range from cell [a] on. *)
Definition filled (a : Z) (w : walk) (p : Z) : Prop :=
  p = a /\ tempCount w = F a \/
  exists t, tempStop w = (t / 10, t mod 10) /\ a <= t < p /\ F (t + 1) = F p /\ F a < F (t + 1).

Definition fill_post (a : Z) (w : walk) : Prop :=
  exists p, stop w = cur p /\ a <= p < 100 /\ F p < F (p + 1) /\
    (tempCount w = F p /\ filled a w p \/
     tempCount w = F 100 /\ F (p + 1) = F 100 /\ tempStop w = (p / 10, p mod 10)).

Lemma u32_small_F p : 0 <= p <= 100 -> u32 (F p) = F p.
Proof. intros Hp. pose proof (F_range p Hp). apply u32_small. lia. Qed.

Lemma s32_add_ne d c : - 2 ^ 31 <= d < 2 ^ 31 -> 0 < c < 2 ^ 32 -> s32 (d + c) <> d.
Proof.
  intros Hd Hc. unfold s32, u32. intros H.
  pose proof (Z.mod_pos_bound (d + c) (2 ^ 32) ltac:(lia)).
  destruct (Z.ltb_spec ((d + c) mod 2 ^ 32) (2 ^ 31)); lia.
Qed.

Lemma s32_range z : - 2 ^ 31 <= s32 z < 2 ^ 31.
Proof.
  unfold s32. pose proof (u32_range z). destruct (Z.ltb_spec (u32 z) (2 ^ 31)); lia.
Qed.

Lemma fill_ok a d :
  0 <= a < 100 -> F a < F (a + 1) -> - 2 ^ 31 <= d < 2 ^ 31 ->
  exists w, while_loop (fill_body v l1 l2 l3) (Walk (cur a) (F a) d (0, 0)) = Ret w /\ fill_post a w.
Proof.
  intros Ha Hac Hd.
  apply (while_loop_rule (fill_body v l1 l2 l3)
    (fun p w => stop w = cur p /\ a <= p < 100 /\ F p < F (p + 1) /\ tempCount w = F p /\ filled a w p /\
       - 2 ^ 31 <= difference w < 2 ^ 31) (fun p => 100 - p) _) with (g := a).
  - intros p w (Hs & Hp & Hc & Ht & Hf & Hdw). split; [lia|]. unfold fill_body. rewrite Hs.
    change (cur p) with (p / 10, p mod 10, l3 + p). cbv iota beta.
    rewrite Hcell, Htot by lia. rsimpl. cbv zeta. change (p / 10, p mod 10, l3 + p) with (cur p).
    pose proof (F_range p). pose proof (F_range (p + 1)).
    destruct (0 <=? s32 (difference w + (F (p + 1) - F p)) + difference w).
    { right. eexists. split; [done|]. exists p. split_and!; try done || lia. by left. }
    pose proof (s32_add_ne (difference w) (F (p + 1) - F p) Hdw).
    destruct (Z.eqb_spec (s32 (difference w + (F (p + 1) - F p))) (difference w)); [lia|].
    cbn [negb tempCount stop]. rewrite Ht.
    replace (F p + (F (p + 1) - F p)) with (F (p + 1)) by lia. rewrite u32_small_F by lia.
    destruct (Z.eqb_spec (F (p + 1)) (F 100)) as [He|Hne].
    + right. eexists. split; [done|]. exists p. split_and!; try done || lia. by right.
    + left. destruct (advance_ok p) as (q & -> & Hq & HFq & Hqc); [lia|lia|].
      rsimpl. exists q. eexists. split; [done|]. split; [|lia]. cbn [stop tempCount difference].
      split_and!; try done || lia.
      * right. exists p. cbn. split_and!; try done || lia. pose proof (Hmono a p). lia.
      * apply s32_range.
      * apply s32_range.
  - split_and!; cbn; try done || lia. by left.
  - unfold loop_fuel. lia.
Qed.

(** Ranges of cells [p..q] that cover the documents from cell [a] to [b]. *)
Fixpoint chain (a : Z) (out : list range) (b : Z) : Prop :=
  match out with
  | [] => a <= b /\ F a = F b
  | (lo, hi, c) :: rest =>
      exists p q, a <= p <= q /\ q < 100 /\ F p = F a /\ F p < F (p + 1) /\
        lo = atom * p /\ hi = atom * (q + 1) - 1 /\ c = F (q + 1) - F p /\ chain (q + 1) rest b
  end.

Lemma chain_snoc out : forall a p q b,
  chain a out p -> p <= q < 100 -> F p < F (p + 1) -> q + 1 <= b -> F (q + 1) = F b ->
  chain a (out ++ [(atom * p, atom * (q + 1) - 1, F (q + 1) - F p)]) b.
Proof.
  induction out as [|[[lo hi] c] out IH]; intros a p q b H Hq Hc Hb He; cbn in *.
  - destruct H as [H1 H2]. exists p, q. split_and!; done || lia.
  - destruct H as (p' & q' & H1 & H2 & H3 & H4 & H5 & H6 & H7 & H8).
    exists p', q'. split_and!; try done || lia. by apply IH.
Qed.

Lemma chain_to out : forall a p b, chain a out p -> p <= b -> F p = F b -> chain a out b.
Proof.
  induction out as [|[[lo hi] c] out IH]; intros a p b H Hb He; cbn in *; [lia|].
  destruct H as (p' & q' & H). exists p', q'. intuition eauto.
Qed.

Lemma cur_cell p : 10 * (p / 10) + p mod 10 = p.
Proof. lia. Qed.

Definition ranges_post (r : list range * (Z * Z * Z) * Z) : Prop :=
  let '(out, st, temp) := r in
  temp = F 100 /\ chain 0 out 100 \/
  exists p, st = cur p /\ 0 <= p < 100 /\ temp = F p /\ F p < F (p + 1) /\ chain 0 out p.

Lemma ranges_loop_ok p0 :
  0 <= p0 < 100 -> F p0 = 0 -> F p0 < F (p0 + 1) ->
  exists r, while_loop (range_body v l1 l2 l3 atom split_i) ([], cur p0, 0, 0, 0) = Ret r /\ ranges_post r.
Proof.
  intros Hp0 HFp0 Hc0. pose proof (u32_range (split_i - 1)) as Hu.
  apply (while_loop_rule (range_body v l1 l2 l3 atom split_i)
    (fun j st => let '(out, st0, temp, old, j') := st in j' = j /\ 0 <= j <= u32 (split_i - 1) /\
       exists p, st0 = cur p /\ 0 <= p < 100 /\ temp = F p /\ old = F p /\ F p < F (p + 1) /\ chain 0 out p)
    (fun j => u32 (split_i - 1) - j) _) with (g := 0).
  - intros j [[[[out st0] temp] old] j'] (-> & Hj & p & -> & Hp & -> & -> & Hc & Hch). split; [lia|].
    unfold range_body. destruct (Z.ltb_spec j (u32 (split_i - 1))); cycle 1.
    { right. eexists. split; [done|]. right. exists p. done. }
    rewrite Htot. rsimpl.
    match goal with |- context [Walk (cur p) (F p) ?d (0, 0)] =>
      destruct (fill_ok p d) as (w & -> & Hw); [done|done|apply s32_range|] end. rsimpl.
    destruct Hw as (p' & Hs & Hp' & Hc' & Hcase). pose proof (F_range p). pose proof (F_range (p' + 1)).
    assert (0 <= F p' <= F 100) by (apply F_range; lia).
    destruct Hcase as [[Ht [[-> _]|(t & Hts & Hpt & Ht1 & Ht2)]]|(Ht & He & Hts)]; rewrite Ht.
    + rewrite Z.eqb_refl. cbn [negb]. left. exists (j + 1). eexists. split; [done|].
      split; [|lia]. split; [done|]. split; [lia|]. exists p. by rewrite Hs.
    + rewrite Ht1 in Ht2. destruct (Z.eqb_spec (F p) (F p')); [lia|]. cbn [negb]. unfold cur at 1. rewrite Hts.
      destruct (Z.eqb_spec (F p') (F 100)); [pose proof (F_range (p' + 1)); lia|].
      left. exists (j + 1). eexists. split; [done|]. split; [|lia]. split; [done|]. split; [lia|].
      exists p'. rewrite Hs. split_and!; try done || lia.
      rewrite !cur_cell, u32_small by lia. rewrite <- Ht1. apply chain_snoc; done || lia.
    + pose proof (Hmono p p'). destruct (Z.eqb_spec (F p) (F 100)); [lia|]. cbn [negb]. unfold cur at 1.
      rewrite Hts, Z.eqb_refl. right. eexists. split; [done|]. left. split; [done|].
      rewrite !cur_cell, u32_small by lia. rewrite <- He. apply chain_snoc; done || lia.
  - split; [done|]. split; [lia|]. exists p0. split_and!; try done || lia. cbn. lia.
  - unfold loop_fuel. lia.
Qed.

Lemma part_ranges_ok :
  exists out, part_ranges v l1 l2 l3 atom split_i = Ret out /\ chain 0 out 100.
Proof.
  unfold part_ranges. destruct last_cell_ok as (k & e & -> & E2 & He & Hec & HFe). rsimpl.
  rewrite E2. rsimpl.
  destruct (while_loop_rule (first_row_body v l2)
    (fun g st => st = g /\ 0 <= g < 10 /\ F (10 * g) = 0) (fun g => 10 - g)
    (fun f => 0 <= f < 10 /\ F (10 * f) = 0 /\ 0 < F (10 * f + 10)))
    with (g := 0) (s := 0) as (f & -> & Hf & HFf & Hfc); [|split_and!; done || lia|unfold loop_fuel; lia|].
  { intros g st (-> & Hg & HFg). split; [lia|]. unfold first_row_body. rewrite Hrow by lia. rsimpl.
    destruct (Z.eqb_spec (F (10 * g + 10) - F (10 * g)) 0).
    - left. exists (g + 1), (g + 1). split; [done|]. split; [|lia]. split; [done|].
      assert (g <> 9) by (intros ->; change (10 * 9 + 10) with 100 in *; lia).
      split; [lia|]. replace (10 * (g + 1)) with (10 * g + 10) by lia. lia.
    - right. eexists. split; [done|]. pose proof (Hmono (10 * g) (10 * g + 10)). lia. }
  rsimpl. destruct (first_cell_ok (10 * f)) as (p & -> & Hp & HFp & Hc); [lia|lia|lia|].
  rsimpl. assert (f = p / 10) as -> by lia. change (p / 10, p mod 10, l3 + p) with (cur p).
  destruct (ranges_loop_ok p) as ([[out st] temp] & -> & Hpost); [lia|lia|done|]. rsimpl. rewrite Htot. rsimpl.
  destruct Hpost as [[-> Hch]|(q & -> & Hq & -> & Hqc & Hch)].
  - rewrite Z.eqb_refl. cbn [negb]. by exists out.
  - pose proof (F_range (q + 1)). destruct (Z.eqb_spec (F q) (F 100)); [lia|]. cbn [negb]. unfold cur at 1.
    eexists. split; [done|]. pose proof (F_range q). pose proof (Hmono (e + 1) q).
    rewrite u32_small by lia. replace (10 * k + (e - 10 * k)) with e by lia. rewrite cur_cell, <- HFe.
    apply chain_snoc; try done; lia.
Qed.
End PartProof.

(** ** The ranges of a whole tree *)

(** The documents in the ranges, and ranges in increasing order. *)
Definition total (rs : list range) : Z := foldr (fun r acc => r.2 + acc) 0 rs.
Definition ordered (rs : list range) : Prop := StronglySorted (fun r r' => r.1.2 < r'.1.1) rs.

Lemma total_app rs rs' : total (rs ++ rs') = total rs + total rs'.
Proof. unfold total. induction rs as [|r rs IH]; [done|]. cbn. lia. Qed.

Lemma chain_props atom F out : forall a b,
  0 <= a -> 0 < atom -> chain atom F a out b ->
  Forall (fun '(lo, hi, c) => exists p q, a <= p <= q /\ q < 100 /\ F p < F (p + 1) /\
    lo = atom * p /\ hi = atom * (q + 1) - 1 /\ c = F (q + 1) - F p) out /\
  ordered out /\
  total out = F b - F a.
Proof.
  induction out as [|[[lo hi] c] out IH]; intros a b Ha Hat H; cbn in H.
  { split; [constructor|]. split; [constructor|]. cbn. lia. }
  destruct H as (p & q & H1 & H2 & H3 & H4 & -> & -> & -> & H8).
  destruct (IH (q + 1) b ltac:(lia) Hat H8) as (I1 & I2 & I3). split_and!.
  - constructor; [by exists p, q|]. eapply Forall_impl; [exact I1|]. intros [[lo hi] c].
    intros (p' & q' & H). exists p', q'. intuition lia.
  - constructor; [done|]. eapply Forall_impl; [exact I1|]. intros [[lo hi] c] (p' & q' & H & _ & _ & -> & _). cbn. nia.
  - unfold total in *. cbn. lia.
Qed.

Section TreeProof.
Context (v : list Z) (ls : list Z).
Hypothesis Hv : complete ls v.
Hypothesis Hls : leaves_ok ls.
Hypothesis Hgood : Forall (fun l => l < 100 \/ 10 <= l mod 100) ls.
Hypothesis Hsmall : vsize ls < 2 ^ 32.

(** The documents in the cells [a .. b - 1] of the tree. *)
Definition between (a b : Z) : Z := count (fun l => (a <=? l) && (l <? b)) ls.

Lemma leaf_bounds l : l ∈ ls -> 0 <= l < 700 /\ (l < 100 \/ 10 <= l mod 100).
Proof. unfold leaves_ok in Hls. rewrite Forall_forall in Hls. rewrite Forall_forall in Hgood. auto. Qed.

Lemma between_split a b c : a <= b <= c -> between a c = between a b + between b c.
Proof. intros H. apply count_split. intros l _. lia. Qed.

Lemma between_range a b : 0 <= between a b < 2 ^ 32.
Proof. pose proof (count_bounds (fun l => (a <=? l) && (l <? b)) ls). unfold between. lia. Qed.

Lemma between_self a : between a a = 0.
Proof.
  unfold between. rewrite (count_ext _ (fun _ => false)); [|intros l _; lia].
  clear. generalize ls. intros k. induction k as [|l k IH]; [done|]. rewrite count_cons. by rewrite IH.
Qed.

Lemma node_between idx a b :
  0 <= idx < 778 -> (forall l, 0 <= l < 700 -> below idx l = ((a <=? l) && (l <? b))) ->
  vget v idx = Ret (between a b).
Proof.
  intros Hi Hb. rewrite (proj2 Hv) by done. f_equal. unfold under, between.
  rewrite (count_ext (below idx) (fun l => (a <=? l) && (l <? b))).
  - apply u32_small. apply between_range.
  - intros l Hl. by apply Hb, leaf_bounds.
Qed.

Lemma node_cell l : 0 <= l < 700 -> vget v l = Ret (between l (l + 1)).
Proof.
  intros Hl. apply node_between; [lia|]. intros k Hk. unfold below.
  destruct (Z.ltb_spec l 700); lia.
Qed.

Lemma node_row k : 0 <= k < 70 -> vget v (700 + k) = Ret (between (10 * k) (10 * k + 10)).
Proof.
  intros Hk. apply node_between; [lia|]. intros l Hl. unfold below.
  destruct (Z.ltb_spec (700 + k) 700); [lia|]. destruct (Z.ltb_spec (700 + k) 770); [|lia].
  apply Bool.eq_true_iff_eq. rewrite andb_true_iff, Z.eqb_eq, Z.leb_le, Z.ltb_lt. lia.
Qed.

Lemma node_part i : 0 <= i < 7 -> vget v (770 + i) = Ret (between (100 * i) (100 * i + 100)).
Proof.
  intros Hi. apply node_between; [lia|]. intros l Hl. unfold below.
  destruct (Z.ltb_spec (770 + i) 700); [lia|]. destruct (Z.ltb_spec (770 + i) 770); [lia|].
  destruct (Z.ltb_spec (770 + i) 777); [|lia].
  apply Bool.eq_true_iff_eq. rewrite andb_true_iff, Z.eqb_eq, Z.leb_le, Z.ltb_lt. lia.
Qed.

Notation part i := (between (100 * i) (100 * i + 100)).

(** A split gives every non-empty part at least one range, and no more ranges
    than it has documents. *)
Definition split_ok (split : list Z) : Prop :=
  exists f, vec_is 7 f split /\ forall i, 0 <= i < 7 -> (f i = 0 <-> part i = 0) /\ 0 <= f i <= part i.

Lemma initial_split_ok :
  exists split r, initial_split v 770 = Ret (split, r) /\ split_ok split /\ r <= 7.
Proof.
  unfold initial_split.
  match goal with |- context [mfold ?g _ _] => set (body := g) end.
  edestruct (mfold_seqZ body
    (fun i '(split, r) => vec_is i (fun j => if negb (part j =? 0) then 1 else 0) split /\ r <= 7)
    0 LEVEL_1_OF_SEGMENT_TREE ([], MAX_RANGE_NUMBER)) as ([split r] & E & Hs & Hr); [done| | |].
  - intros i [split r] Hi [Hs Hr]. unfold LEVEL_1_OF_SEGMENT_TREE in Hi. unfold body. rewrite node_part by lia. rsimpl.
    eexists (_, _). split; [done|]. split; [by apply vec_is_snoc in Hs|].
    destruct (part i =? 0); cbn; lia.
  - split; [apply vec_is_nil|]. unfold MAX_RANGE_NUMBER. lia.
  - exists split, r. split; [done|]. split; [|done]. eexists. split; [done|].
    intros i Hi. cbn beta. pose proof (between_range (100 * i) (100 * i + 100)).
    destruct (Z.eqb_spec (part i) 0); cbn; lia.
Qed.

Lemma find_best_ok split f :
  vec_is 7 f split ->
  exists b, find_best v 770 split = Ret b /\ (b = -1 \/ 0 <= b < 7 /\ f b < part b).
Proof.
  intros Hs. unfold find_best.
  match goal with |- context [mfold ?g _ _] => set (body := g) end.
  edestruct (mfold_seqZ body
    (fun i '(b, _) => b = -1 \/ 0 <= b < 7 /\ f b < part b)
    0 LEVEL_1_OF_SEGMENT_TREE (-1, d0)) as ([b x] & E & Hb); [done| |by left|].
  - intros i [b x] Hi Hb. unfold LEVEL_1_OF_SEGMENT_TREE in Hi. unfold body.
    rewrite node_part, (proj2 Hs) by lia. rsimpl. destruct (Z.leb_spec (part i) (f i)); [by eexists (_, _)|].
    cbv zeta. destruct (b =? -1);
      [|destruct (fgt (variance_reduce (part i) (f i)) x)]; eexists (_, _); (split; [done|]); done || (right; lia).
  - rewrite E. rsimpl. by exists b.
Qed.

Lemma split_loop_ok split r :
  split_ok split -> r <= 7 ->
  exists split', while_loop (split_body v 770) (split, r) = Ret split' /\ split_ok split'.
Proof.
  intros Hs Hr. apply (while_loop_rule (split_body v 770)
    (fun g st => split_ok st.1 /\ g = Z.max 0 st.2) (fun g => g) _) with (g := Z.max 0 r);
    [|done|unfold loop_fuel; lia].
  intros g [s k] [Hok ->]. split; [lia|]. unfold split_body. cbn [fst snd] in *.
  destruct (Z.ltb_spec 0 k); [|right; by eexists].
  destruct Hok as (f & Hf & Hi). destruct (find_best_ok s f Hf) as (b & -> & Hb). rsimpl.
  destruct Hb as [->|[Hb Hlt]]; [right; eexists; split; [done|]; by exists f|].
  destruct (Z.eqb_spec b (-1)); [lia|]. cbn [negb]. rewrite (proj2 Hf) by done. rsimpl.
  pose proof (between_range (100 * b) (100 * b + 100)). destruct (Hi b Hb) as [Hz Hle].
  rewrite u32_small by lia. destruct (vec_is_set 7 f s b (f b + 1) Hf Hb) as (s' & -> & Hs'). rsimpl.
  left. exists (Z.max 0 (k - 1)), (s', k - 1). split; [done|]. split; [|lia]. split; [|done]. cbn.
  eexists. split; [done|]. intros i Hi2. cbn beta. destruct (Z.eqb_spec i b) as [->|]; [lia|by apply Hi].
Qed.

(** A range counts the documents in its cells; its first cell is not empty. *)
Definition range_ok (r : range) : Prop :=
  let '(lo, hi, c) := r in
  exists i p q, 0 <= i < 7 /\ 0 <= p <= q /\ q < 100 /\ (i = 0 \/ 10 <= p) /\
    lo = 10 ^ (i + 1) * p /\ hi = 10 ^ (i + 1) * (q + 1) - 1 /\
    c = between (100 * i + p) (100 * i + q + 1) /\ 0 < c.

Lemma part_ranges_tree i s :
  0 <= i < 7 -> 0 < part i ->
  exists out, part_ranges v (770 + i) (700 + 10 * i) (100 * i) (10 ^ (i + 1)) s = Ret out /\
    chain (10 ^ (i + 1)) (fun p => between (100 * i) (100 * i + p)) 0 out 100.
Proof.
  intros Hi Hpos. apply part_ranges_ok.
  - rewrite Z.add_0_r. apply between_self.
  - intros p q Hp Hq. rewrite (between_split (100 * i) (100 * i + p) (100 * i + q)) by lia.
    pose proof (between_range (100 * i + p) (100 * i + q)). lia.
  - pose proof (between_range (100 * i) (100 * i + 100)). lia.
  - intros p Hp. rewrite node_cell by lia. f_equal.
    rewrite (between_split (100 * i) (100 * i + p) (100 * i + (p + 1))) by lia.
    replace (100 * i + (p + 1)) with (100 * i + p + 1) by lia. lia.
  - intros k Hk. rewrite <- Z.add_assoc, node_row by lia. f_equal.
    rewrite (between_split (100 * i) (100 * i + 10 * k) (100 * i + (10 * k + 10))) by lia.
    replace (10 * (10 * i + k)) with (100 * i + 10 * k) by lia.
    replace (100 * i + (10 * k + 10)) with (100 * i + 10 * k + 10) by lia. lia.
  - by apply node_part.
Qed.

(** A part's non-empty cells are the upper ninety, except in the first part. *)
Lemma occupied_cell i p :
  0 <= i < 7 -> 0 <= p < 100 -> between (100 * i) (100 * i + p) < between (100 * i) (100 * i + (p + 1)) ->
  i = 0 \/ 10 <= p.
Proof.
  intros Hi Hp Hlt. rewrite (between_split (100 * i) (100 * i + p) (100 * i + (p + 1))) in Hlt by lia.
  destruct (decide (i = 0 \/ 10 <= p)) as [|Hn]; [done|]. exfalso.
  assert (between (100 * i + p) (100 * i + (p + 1)) = 0) as Hz; [|lia].
  rewrite <- (between_self 0). apply count_ext. intros l Hl.
  destruct (leaf_bounds l Hl) as [_ Hg]. apply Bool.eq_true_iff_eq.
  rewrite !andb_true_iff, !Z.leb_le, !Z.ltb_lt. lia.
Qed.

Lemma chain_ranges i out :
  0 <= i < 7 -> chain (10 ^ (i + 1)) (fun p => between (100 * i) (100 * i + p)) 0 out 100 ->
  Forall range_ok out /\ ordered out /\
  total out = part i /\
  Forall (fun r : range => (i = 0 \/ 10 ^ (i + 2) <= r.1.1) /\ r.1.2 < 10 ^ (i + 3)) out.
Proof.
  intros Hi Hch. assert (0 < 10 ^ (i + 1)) as Hat by (apply Z.pow_pos_nonneg; lia).
  destruct (chain_props _ _ out 0 100 ltac:(lia) Hat Hch) as (H1 & H2 & H3).
  split_and!; [|done|rewrite H3, Z.add_0_r, between_self; lia|].
  - eapply Forall_impl; [exact H1|]. intros [[lo hi] c] (p & q & Hp & Hq & Hc & -> & -> & ->).
    exists i, p, q. split; [done|]. split; [done|]. split; [done|]. split; [eapply occupied_cell; done || lia|].
    split; [done|]. split; [done|].
    rewrite (between_split (100 * i) (100 * i + p) (100 * i + (q + 1))) by lia.
    rewrite (between_split (100 * i) (100 * i + p) (100 * i + (p + 1))) in Hc by lia.
    replace (100 * i + q + 1) with (100 * i + (q + 1)) by lia. split; [lia|].
    rewrite (between_split (100 * i + p) (100 * i + (p + 1)) (100 * i + (q + 1))) by lia.
    pose proof (between_range (100 * i + (p + 1)) (100 * i + (q + 1))). lia.
  - eapply Forall_impl; [exact H1|]. intros [[lo hi] c] (p & q & Hp & Hq & Hc & -> & -> & ->). cbn [fst snd].
    pose proof (occupied_cell i p Hi ltac:(lia) Hc) as Hocc.
    replace (i + 2) with (i + 1 + 1) by lia. replace (i + 3) with (i + 1 + 2) by lia.
    rewrite !(Z.pow_add_r _ (i + 1)) by lia. change (10 ^ 1) with 10. change (10 ^ 2) with 100. nia.
Qed.

Lemma between_all : between 0 700 = vsize ls.
Proof.
  unfold between. rewrite (count_ext _ (fun _ => true)).
  - clear. generalize ls. intros k. induction k as [|l k IH]; [done|]. by rewrite count_cons, vsize_cons, IH.
  - intros l Hl. destruct (leaf_bounds l Hl). lia.
Qed.

(** What the loop over the parts has emitted before part [i]. *)
Definition emitted (i : Z) (out : list range) : Prop :=
  Forall range_ok out /\ ordered out /\
  total out = between 0 (100 * i) /\
  Forall (fun r : range => r.1.2 < 10 ^ (i + 2)) out /\ (i = 0 -> out = []).

Lemma emitted_next i out rs :
  0 <= i < 7 -> emitted i out ->
  Forall range_ok rs -> ordered rs ->
  total rs = part i ->
  Forall (fun r : range => (i = 0 \/ 10 ^ (i + 2) <= r.1.1) /\ r.1.2 < 10 ^ (i + 3)) rs ->
  emitted (i + 1) (out ++ rs).
Proof.
  intros Hi (H1 & H2 & H3 & H4 & H5) R1 R2 R3 R4.
  assert (10 ^ (i + 1 + 2) = 10 ^ (i + 2) * 10) as Hp10.
  { replace (i + 1 + 2) with (i + 2 + 1) by lia. rewrite Z.pow_add_r by lia. lia. }
  assert (0 < 10 ^ (i + 2)) by (apply Z.pow_pos_nonneg; lia).
  split; [by apply Forall_app|]. split; [|split; [|split]].
  - apply StronglySorted_app. split_and!; [|done|done]. intros r1 r2 Hr1 Hr2.
    rewrite Forall_forall in H4. rewrite Forall_forall in R4.
    destruct (R4 r2 Hr2) as [[Hi0|Hlo] _]; [|specialize (H4 r1 Hr1); lia].
    rewrite H5 in Hr1 by done. by apply elem_of_nil in Hr1.
  - rewrite total_app, H3, R3. rewrite (between_split 0 (100 * i) (100 * (i + 1))) by lia. do 2 f_equal. lia.
  - apply Forall_app. split; (eapply Forall_impl; [done|]); cbn beta; intros r Hr; rewrite Hp10; [lia|].
    replace (i + 3) with (i + 1 + 2) in Hr by lia. lia.
  - lia.
Qed.

Lemma tree_ranges_ok :
  exists rs, tree_ranges v = Ret rs /\ Forall range_ok rs /\
    ordered rs /\
    total rs = vsize ls.
Proof.
  unfold tree_ranges. cbv zeta.
  change (0 + 100 * LEVEL_1_OF_SEGMENT_TREE + 10 * LEVEL_1_OF_SEGMENT_TREE) with 770.
  change (0 + 100 * LEVEL_1_OF_SEGMENT_TREE) with 700.
  destruct initial_split_ok as (split0 & r & -> & Hs0 & Hr). rsimpl.
  destruct (split_loop_ok split0 r Hs0 Hr) as (split & -> & f & Hf & Hsp). rsimpl.
  match goal with |- context [mfold ?g _ _] => set (body := g) end.
  destruct (mfold_seqZ body (fun i '(out, l1, l2, l3) =>
      l1 = 770 + i /\ l2 = 700 + 10 * i /\ l3 = 100 * i /\ emitted i out) 0 LEVEL_1_OF_SEGMENT_TREE ([], 770, 700, 0))
    as ([[[out l1] l2] l3] & -> & _ & _ & _ & H1 & H2 & H3 & _ & _); [done| | |].
  - intros i [[[out l1] l2] l3] Hi (-> & -> & -> & Hem).
    unfold LEVEL_1_OF_SEGMENT_TREE in Hi. unfold body. rewrite (proj2 Hf) by lia. rsimpl.
    destruct (Hsp i ltac:(lia)) as [Hz Hle].
    destruct (Z.eqb_spec (f i) 0) as [Hf0|Hf0].
    + eexists (_, _, _, _). split; [done|]. split; [lia|]. split; [lia|]. split; [lia|].
      rewrite <- (app_nil_r out). apply emitted_next; [lia|done|constructor|constructor| |constructor].
      apply Hz in Hf0. by rewrite Hf0.
    + rewrite bound_at by lia. rsimpl.
      assert (Z.quot (10 ^ (i + 1 + 2)) 100 = 10 ^ (i + 1)) as ->.
      { rewrite Z.pow_add_r by lia. change (10 ^ 2) with 100. by rewrite Z.quot_mul. }
      destruct (part_ranges_tree i (f i)) as (rs & -> & Hch); [lia|lia|]. rsimpl.
      destruct (chain_ranges i rs ltac:(lia) Hch) as (C1 & C2 & C3 & C4).
      eexists (_, _, _, _). split; [done|]. split; [lia|]. split; [lia|]. split; [lia|].
      by apply emitted_next; [lia|..].
  - split; [done|]. split; [done|]. split; [done|]. split_and!; try constructor; try done.
    cbn. by rewrite between_self.
  - rsimpl. exists out. split; [done|]. split; [done|]. split; [done|]. rewrite H3. apply between_all.
Qed.
End TreeProof.

(** ** Documents and values *)

(** Cells of one leaf correspond to values: [w] is in leaf [l]. *)
Lemma cell_value i p q l w :
  0 <= i < 7 -> 0 <= p <= q -> q < 100 -> (i = 0 \/ 10 <= p) ->
  0 <= l < 700 -> (l < 100 \/ 10 <= l mod 100) -> leaf_lo l <= w < leaf_hi l ->
  (100 * i + p <= l < 100 * i + q + 1 <-> 10 ^ (i + 1) * p <= w <= 10 ^ (i + 1) * (q + 1) - 1).
Proof.
  intros Hi Hp Hq Hip Hl Hlp [Hlo Hhi]. unfold leaf_lo, leaf_hi in *.
  set (e := l / 100) in *. set (m := l mod 100) in *.
  assert (l = 100 * e + m /\ 0 <= m < 100 /\ 0 <= e < 7) as (Hle & Hm & He) by lia.
  assert (0 < 10 ^ (i + 1)) by (apply Z.pow_pos_nonneg; lia).
  assert (0 < 10 ^ (e + 1)) by (apply Z.pow_pos_nonneg; lia).
  destruct (Z.lt_trichotomy e i) as [Hlt|[->|Hgt]].
  - assert (10 ^ (i + 1) = 10 ^ (e + 1) * 10 ^ (i - e)) as E by (rewrite <- Z.pow_add_r by lia; f_equal; lia).
    assert (10 ^ 1 <= 10 ^ (i - e)) by (apply Z.pow_le_mono_r; lia).
    split; [lia|]. intros [Hx _]. exfalso. assert (10 <= p) by lia.
    assert (10 ^ (e + 1) * 10 * 10 <= 10 ^ (i + 1) * p) by nia. nia.
  - split; nia.
  - assert (10 ^ (e + 1) = 10 ^ (i + 1) * 10 ^ (e - i)) as E by (rewrite <- Z.pow_add_r by lia; f_equal; lia).
    assert (10 ^ 1 <= 10 ^ (e - i)) by (apply Z.pow_le_mono_r; lia).
    split; [lia|]. intros [_ Hx]. exfalso. assert (10 <= m) by lia.
    assert (10 ^ (i + 1) * 10 * 10 <= 10 ^ (e + 1) * m) by nia. nia.
Qed.

Section DocRanges.
Context (getInt32Value : Z -> option Z).

(** A document with a positive value, clamped below 10^9, in the range. *)
Definition in_range (lo hi doc : Z) : bool :=
  match getInt32Value doc with
  | Some x => (0 <? x) && (lo <=? Z.min x (10 ^ 9 - 1)) && (Z.min x (10 ^ 9 - 1) <=? hi)
  | None => false
  end.

Lemma good_leaves docs :
  Forall (fun l => l < 100 \/ 10 <= l mod 100) (omap (doc_leaf getInt32Value) docs).
Proof.
  apply Forall_forall. intros l (d & _ & E)%list_elem_of_omap. unfold doc_leaf in E.
  destruct (getInt32Value d) as [x|]; [|done]. destruct (Z.ltb_spec 0 x); [|done].
  destruct (leaf_index_range x) as (i & Ei & _ & _ & Hg); [done|]. rewrite Ei in E. by injection E as <-.
Qed.

Lemma range_ok_docs docs r :
  range_ok (omap (doc_leaf getInt32Value) docs) r ->
  r.1.1 <= r.1.2 /\ 0 < r.2 /\ r.2 = count (in_range r.1.1 r.1.2) docs.
Proof.
  destruct r as [[lo hi] c]. intros (i & p & q & Hi & Hp & Hq & Hip & -> & -> & -> & Hpos). cbn [fst snd].
  assert (0 < 10 ^ (i + 1)) by (apply Z.pow_pos_nonneg; lia).
  split; [nia|]. split; [done|]. unfold between. rewrite count_omap. apply count_ext. intros d _.
  unfold in_range, doc_leaf. destruct (getInt32Value d) as [x|]; [|done].
  destruct (Z.ltb_spec 0 x); [|done]. destruct (leaf_index_range x) as (l & -> & Hl & Hw & Hg); [done|].
  pose proof (cell_value i p q l _ Hi Hp Hq Hip Hl Hg Hw) as Hc.
  apply Bool.eq_true_iff_eq. rewrite !andb_true_iff, !Z.leb_le, Z.ltb_lt. cbn [andb]. intuition.
Qed.

(** For the documents of a property counter, the ranges reported by
    [toOntologyRepItemList] are increasing and disjoint, none is empty, each
    has exactly the number of documents whose value lies between the printed
    bounds, and together they have all the documents with a positive value.
    Every loop of the function ends and no access leaves the vector. *)
Theorem ranges_partition docs :
  vsize docs < 2 ^ 32 ->
  exists v rs, tree_of getInt32Value docs = Ret v /\ tree_ranges v = Ret rs /\
    ordered rs /\
    Forall (fun r => r.1.1 <= r.1.2 /\ 0 < r.2 /\ r.2 = count (in_range r.1.1 r.1.2) docs) rs /\
    total rs = count (fun d => match getInt32Value d with Some x => 0 <? x | None => false end) docs.
Proof.
  intros Hn. destruct (tree_of_complete getInt32Value docs) as (v & E & Hv). exists v.
  pose proof (leaves_length getInt32Value docs).
  destruct (tree_ranges_ok v _ Hv (leaves_ok_docs getInt32Value docs) (good_leaves docs) ltac:(lia))
    as (rs & Ers & Hok & Hord & Htot).
  exists rs. split; [done|]. split; [done|]. split; [done|]. split.
  - eapply Forall_impl; [exact Hok|]. apply range_ok_docs.
  - rewrite Htot. clear. induction docs as [|d docs IH]; [done|].
    cbn [omap list_omap]. rewrite count_cons, <- IH. unfold doc_leaf at 1.
    destruct (getInt32Value d) as [x|]; [|done]. destruct (Z.ltb_spec 0 x); [|done].
    destruct (leaf_index_range x) as (l & -> & _); [done|]. apply vsize_cons.
Qed.
End DocRanges.

Lemma ranges_partition_witness : vsize [1; 2; 5; 60] < 2 ^ 32 /\
  exists v rs, tree_of sample_table [1; 2; 5; 60] = Ret v /\ tree_ranges v = Ret rs /\
    ordered rs /\
    Forall (fun r => r.1.1 <= r.1.2 /\ 0 < r.2 /\ r.2 = count (in_range sample_table r.1.1 r.1.2) [1; 2; 5; 60]) rs /\
    total rs = count (fun d => match sample_table d with Some x => 0 <? x | None => false end) [1; 2; 5; 60].
Proof. split; [reflexivity|]. apply ranges_partition. reflexivity. Defined.
