(* ===== verification/GroupRep.v ===== *)
(** * Group representations and their merge

Models mining-manager/group-manager/GroupRep.{h,cpp} and
ontology_rep_item.h: the result of a group-by query as a pre-order list of
items with levels, sorted (value, count) lists and segment trees, and
[GroupRep::merge], which combines the results of two search threads or
nodes.  [recurseStringGroup] is shown to implement the merge of sorted
forests ([merge_forest]), and the numeric merges to add counts. *)
From stdpp Require Import pretty.
From S2P Require Import Prelude PQueue OrdMap Float64 OntologyRep NumericRange RangeLabels.

Section StringGroup.
Context {T : Type} `{!TextOrder T}.
Notation items := (list (item T)).

(** while (it != end && it->level > l) ++it; what is passed, what remains. *)
Fixpoint span_above (l : Z) (s : items) : items * items :=
  match s with
  | i :: s' => if l <? level i then let (a, b) := span_above l s' in (i :: a, b) else ([], s)
  | [] => ([], [])
  end.

Definition head_at_least (l : Z) (s : items) : bool :=
  match s with i :: _ => l <=? level i | [] => false end.

(** The code after the loop of [recurseStringGroup]: skip the rest of this
    level, or insert the rest of the other one. *)
Definition finish_level (l : Z) (st : items * items * items) : items * items * items :=
  let '(pre, rest, orest) := st in
  match rest, orest with
  | i :: rest', _ =>
      if l <=? level i then
        let (a, b) := span_above (l - 1) rest' in (pre ++ i :: a, b, orest)
      else if head_at_least l orest then
        let (a, b) := span_above (l - 1) orest in (pre ++ a, rest, b)
      else st
  | [], _ =>
      if head_at_least l orest then
        let (a, b) := span_above (l - 1) orest in (pre ++ a, rest, b)
      else st
  end.

(** [recurseStringGroup]. The list is kept as what is before [it] and what
    starts at [it]; a turn of its loop is a call with less fuel. *)
Fixpoint recurseStringGroup (fuel : nat) (l : Z) (st : items * items * items)
  : res (items * items * items) :=
  match fuel with
  | O => NoFuel
  | S fuel =>
      let '(pre, rest, orest) := st in
      match rest, orest with
      | i :: rest', o :: orest' =>
          if (l <=? level i) && (l <=? level o) then
            match tcompare (text i) (text o) with
            | Lt =>
                let (a, b) := span_above l rest' in
                recurseStringGroup fuel l (pre ++ i :: a, b, orest)
            | Gt =>
                let (a, b) := span_above l orest' in
                recurseStringGroup fuel l (pre ++ o :: a, rest, b)
            | Eq =>
                let* st := recurseStringGroup fuel (u8 (l + 1))
                             (pre ++ [add_count i (doc_count o)], rest', orest') in
                recurseStringGroup fuel l st
            end
          else Ret (finish_level l st)
      | _, _ => Ret (finish_level l st)
      end
  end.

(** [mergeStringGroup]: the merged list, and what is left in [other], which
    the shortcut swaps with an empty list. *)
Definition mergeStringGroup (s other : items) : res (items * items) :=
  match other, s with
  | [], _ => Ret (s, [])
  | _, [] => Ret (other, [])
  | _, _ =>
      let* (pre, rest, orest) :=
        recurseStringGroup (S (length s + length other)) 0 ([], s, other) in
      Ret (pre ++ rest, other)
  end.
End StringGroup.

(** ** Sorted lists of values and counts *)
Section NumericGroup.
Notation values := (list (spec_float * Z)).

(** The longest prefix on which [P] holds, and the rest. *)
Fixpoint span (P : spec_float -> bool) (l : values) : values * values :=
  match l with
  | x :: l' => if P x.1 then let (a, b) := span P l' in (x :: a, b) else ([], l)
  | [] => ([], [])
  end.

(** while (both && lit->first == olit->first) (lit++)->second += (olit++)->second; *)
Fixpoint add_equal (lit olit : values) : values * values * values :=
  match lit, olit with
  | x :: lit', y :: olit' =>
      if feq x.1 y.1 then
        let '(d, a, b) := add_equal lit' olit' in ((x.1, u32 (x.2 + y.2)) :: d, a, b)
      else ([], lit, olit)
  | _, _ => ([], lit, olit)
  end.

(** One turn of [while (true)]: the list is what is before [lit] and what
    starts at [lit]. *)
Definition numeric_body (st : values * values * values) : res (values * values * values + values) :=
  let '(pre, lit, olit) := st in
  match olit with
  | [] => Ret (inr (pre ++ lit))
  | o :: _ =>
      let (a, lit) := span (fun k => flt k o.1) lit in
      match lit with
      | [] => Ret (inr (pre ++ a ++ olit))
      | x :: _ =>
          let (ins, olit) := span (fun k => fgt x.1 k) olit in
          let '(d, lit, olit) := add_equal lit olit in
          Ret (inl (pre ++ a ++ ins ++ d, lit, olit))
      end
  end.

Definition merge_values (l o : values) : res values := while_loop numeric_body ([], l, o).

(** [mergeNumericGroup] and [mergeNumericRangeGroup]: both lists are walked
    together; an [other] that is shorter is read past its end. *)
Fixpoint merge_lists {V} (f : V -> V -> res V) (its oits : list (string * V)) : res (list (string * V)) :=
  match its with
  | [] => Ret []
  | (name, v) :: its' =>
      match oits with
      | [] => Undef
      | (_, o) :: oits' =>
          let* v' := f v o in let* rest := merge_lists f its' oits' in Ret ((name, v') :: rest)
      end
  end.

Definition merge_groups {V} (f : V -> V -> res V) (its oits : list (string * V))
  : res (list (string * V) * list (string * V)) :=
  match oits, its with
  | [], _ => Ret (its, [])
  | _, [] => Ret (oits, [])
  | _, _ => let* r := merge_lists f its oits in Ret (r, oits)
  end.

Definition mergeNumericGroup := merge_groups merge_values.
Definition mergeNumericRangeGroup := merge_groups merge_range.
End NumericGroup.

(** [ss << std::fixed << std::setprecision(2) << value]: the exact value
    rounded to hundredths, ties to even. *)
Definition hundredths (m : positive) (e : Z) : Z :=
  let n := Z.pos m * 100 in
  if 0 <=? e then Z.shiftl n e
  else
    let d := Z.shiftl 1 (- e) in
    let q := n / d in let r := n mod d in
    if (d <? 2 * r) || ((2 * r =? d) && Z.odd q) then q + 1 else q.

Definition two_digits (z : Z) : string := pretty (z / 10) +:+ pretty (z mod 10).

Definition fixed2 (value : spec_float) : string :=
  match value with
  | S754_nan => "nan"
  | S754_infinity s => if s then "-inf" else "inf"
  | S754_zero s => if s then "-0.00" else "0.00"
  | S754_finite s m e =>
      let h := hundredths m e in
      (if s then "-" else "") +:+ pretty (h / 100) +:+ "." +:+ two_digits (h mod 100)
  end%string.

Example fixed2_ex : fixed2 (dbl (-5) (-1)) = "-2.50"%string /\ fixed2 (dbl 1 (-3)) = "0.12"%string.
Proof. vm_compute. done. Qed.

(** ** The whole representation *)
Record GroupRep (T : Type) := Rep {
  stringGroupRep_ : list (item T);
  numericGroupRep_ : list (string * list (spec_float * Z));
  numericRangeGroupRep_ : list (string * list Z)
}.
Arguments Rep {_} _ _ _.
Arguments stringGroupRep_ {_} _.
Arguments numericGroupRep_ {_} _.
Arguments numericRangeGroupRep_ {_} _.

Section Rep.
Context {T : Type} `{!TextOrder T}.
(** UString from and to UTF-8. *)
Context (ustring : string -> T) (to_utf8 : T -> string).
Notation items := (list (item T)).


Definition empty (r : GroupRep T) : bool :=
  is_nil (stringGroupRep_ r) && is_nil (numericGroupRep_ r) && is_nil (numericRangeGroupRep_ r).

Definition clear : GroupRep T := Rep [] [] [].

(** The comparison of one list of lists in [operator==]. *)
Fixpoint all2 {A} (f : A -> A -> bool) (a b : list A) : bool :=
  match a, b with
  | [], [] => true
  | x :: a, y :: b => f x y && all2 f a b
  | _, _ => false
  end.

Definition rep_eq (a b : GroupRep T) : bool :=
  all2 item_eqb (stringGroupRep_ a) (stringGroupRep_ b) &&
  all2 (fun x y => String.eqb x.1 y.1 && all2 (fun p q => feq p.1 q.1 && (p.2 =? q.2)) x.2 y.2)
    (numericGroupRep_ a) (numericGroupRep_ b) &&
  all2 (fun x y => String.eqb x.1 y.1 && all2 Z.eqb x.2 y.2)
    (numericRangeGroupRep_ a) (numericRangeGroupRep_ b).

(** [merge]: this object and what is left of the other one. *)
Definition merge (r other : GroupRep T) : res (GroupRep T * GroupRep T) :=
  let* (s, os) := mergeStringGroup (stringGroupRep_ r) (stringGroupRep_ other) in
  let* (n, on) := mergeNumericGroup (numericGroupRep_ r) (numericGroupRep_ other) in
  let* (g, og) := mergeNumericRangeGroup (numericRangeGroupRep_ r) (numericRangeGroupRep_ other) in
  Ret (Rep s n g, Rep os on og).

(** The items of one numeric property: its count is the sum of the values'. *)
Definition numeric_items (p : string * list (spec_float * Z)) : items :=
  mk_item 0 (ustring p.1) 0 (foldl (fun count v => u32 (count + v.2)) 0 p.2) ::
  map (fun v => mk_item 1 (ustring (fixed2 v.1)) 0 v.2) p.2.

Definition toOntologyRepItemList (r : GroupRep T) : res (GroupRep T) :=
  let s := stringGroupRep_ r ++ concat (map numeric_items (numericGroupRep_ r)) in
  let* s := numericRange_toOntologyRepItemList ustring (numericRangeGroupRep_ r) s in
  Ret (Rep s [] []).

(** std::priority_queue<uint32_t, ..., std::greater>: the stored numbers in
    increasing order; [top] is the least. *)
Fixpoint q_push (c : Z) (q : list Z) : list Z :=
  match q with
  | [] => [c]
  | x :: q' => if x <? c then x :: q_push c q' else c :: q
  end.

Definition q_top (q : list Z) : res Z := vget q 0.

(** The state of the first loop: the queues of the properties before the
    current one, the current one, and [grouptop]. *)
Definition count_item (grouptop_for_props : string -> option Z) (size : Z) (i : item T)
  (st : list (list Z) * option (list Z) * Z) : res (list (list Z) * option (list Z) * Z) :=
  let '(qs, back, grouptop) := st in
  let* (qs, q, grouptop) :=
    (if level i =? 0 then
       let* _ := match back with Some q => q_top q | None => Ret 0 end in
       Ret (match back with Some q => qs ++ [q] | None => qs end, [],
            match grouptop_for_props (to_utf8 (text i)) with Some k => k | None => s32 size end)
     else
       match back with
       | None => Undef
       | Some q => Ret (qs, if level i =? 1 then q_push (doc_count i) q else q, grouptop)
       end) in
  Ret (qs, Some (if u64 grouptop <? vsize q then tail q else q), grouptop).

(** The state of the second loop: what is kept before the group that may be
    removed, that group, [need_remove_last] and [prop_index]. *)
Definition resize_item (queues : list (list Z)) (i : item T) (st : items * items * bool * Z)
  : res (items * items * bool * Z) :=
  let '(kept, pending, need_remove_last, prop_index) := st in
  if level i =? 0 then
    Ret ((if need_remove_last then kept else kept ++ pending) ++ [i], [], false, prop_index + 1)
  else if level i =? 1 then
    let kept := if need_remove_last then kept else kept ++ pending in
    let* q := vget queues prop_index in
    let* top := q_top q in
    Ret (kept, [i], doc_count i <? top, prop_index)
  else Ret (kept, pending ++ [i], need_remove_last, prop_index).

Definition ResizeTo (grouptop_for_props : string -> option Z) (r : GroupRep T) : res (GroupRep T) :=
  let* r := toOntologyRepItemList r in
  let s := stringGroupRep_ r in
  let* (qs, back, _) := mfold (count_item grouptop_for_props (vsize s)) s ([], None, s32 (vsize s)) in
  let queues := match back with Some q => qs ++ [q] | None => qs end in
  let* (kept, pending, need_remove_last, _) := mfold (resize_item queues) s ([], [], false, -1) in
  Ret (Rep (if need_remove_last then kept else kept ++ pending) [] []).
End Rep.

(** ** The reference: forests of groups *)
Section Forest.
Context {T : Type} `{!TextOrder T}.
Notation items := (list (item T)).

(** A group with its sub-groups, and the groups after it. *)
Inductive forest : Type :=
| FNil
| FCons (t : T) (i c : Z) (s : spec_float) (sub next : forest).

Fixpoint flatten (l : Z) (f : forest) : items :=
  match f with
  | FNil => []
  | FCons t i c s sub next => Item l t i c s :: flatten (l + 1) sub ++ flatten l next
  end.

(** Merging two sorted forests; a group in both keeps the id and the score of
    the first and gets the sum of the counts. *)
Fixpoint merge_forest (f g : forest) {struct f} : forest :=
  match f with
  | FNil => g
  | FCons t i c s sub next =>
      (fix aux (g : forest) : forest :=
         match g with
         | FNil => f
         | FCons t' i' c' s' sub' next' =>
             match tcompare t t' with
             | Lt => FCons t i c s sub (merge_forest next g)
             | Gt => FCons t' i' c' s' sub' (aux next')
             | Eq => FCons t i (u32 (c + c')) s (merge_forest sub sub') (merge_forest next next')
             end
         end) g
  end.

Fixpoint depth (f : forest) : Z :=
  match f with FNil => 0 | FCons _ _ _ _ sub next => Z.max (1 + depth sub) (depth next) end.

(** The names of the groups increase, on every level. *)
Fixpoint sorted_after (lo : option T) (f : forest) : Prop :=
  match f with
  | FNil => True
  | FCons t _ _ _ sub next =>
      match lo with Some l => tlt l t | None => True end /\
      sorted_after None sub /\ sorted_after (Some t) next
  end.

(** The number of documents in the group a path of names leads to. *)
Fixpoint count_at (f : forest) (p : list T) : Z :=
  match f with
  | FNil => 0
  | FCons t _ c _ sub next =>
      match p with
      | [] => 0
      | t' :: p' =>
          match tcompare t t' with
          | Eq => match p' with [] => c | _ => count_at sub p' end
          | _ => count_at next p
          end
      end
  end.
End Forest.
Arguments forest : clear implicits.

Example merge_ex :
  let a := flatten 0 (FCons 5 0 3 d0 (FCons 1 0 2 d0 FNil (FCons 4 0 1 d0 FNil FNil)) FNil) in
  let b := flatten 0 (FCons 2 0 9 d0 FNil (FCons 5 0 7 d0 (FCons 1 0 4 d0 FNil (FCons 3 0 3 d0 FNil FNil)) FNil)) in
  (let* (r, _) := mergeStringGroup a b in Ret (map (fun i => (level i, text i, doc_count i)) r)) =
  Ret [(0, 2, 9); (0, 5, 10); (1, 1, 6); (1, 3, 3); (1, 4, 1)].
Proof. vm_compute. reflexivity. Qed.

(** ** [recurseStringGroup] implements the merge of forests *)
Section MergeCorrect.
Context {T : Type} `{!TextOrder T}.
Notation items := (list (item T)).
Implicit Types (f g : forest T) (rest : items).

Fixpoint fsize f : nat :=
  match f with FNil => 0 | FCons _ _ _ _ sub next => S (fsize sub + fsize next) end.

Lemma depth_nonneg f : 0 <= depth f.
Proof. induction f; cbn; lia. Qed.

Lemma flatten_length l f : length (flatten l f) = fsize f.
Proof.
  revert l. induction f as [|t i c s sub IH1 next IH2]; intros l; cbn; [done|].
  by rewrite length_app, IH1, IH2.
Qed.

Lemma head_at_least_mono l l' rest :
  l <= l' -> head_at_least l rest = false -> head_at_least l' rest = false.
Proof. destruct rest as [|i rest]; cbn; [done|]. lia. Qed.

Lemma head_at_least_flatten l f rest :
  head_at_least l rest = false -> head_at_least (l + 1) (flatten l f ++ rest) = false.
Proof.
  intros H. destruct f as [|t i c s sub next]; cbn; [|lia]. by apply (head_at_least_mono l); [lia|].
Qed.

Lemma span_above_cons k (i : item T) s :
  k < level i -> span_above k (i :: s) = (i :: (span_above k s).1, (span_above k s).2).
Proof.
  intros H. cbn. destruct (Z.ltb_spec k (level i)); [|lia]. by destruct (span_above k s).
Qed.

Lemma span_above_stop k rest : head_at_least (k + 1) rest = false -> span_above k rest = ([], rest).
Proof.
  destruct rest as [|i rest]; cbn; [done|]. intros H. destruct (Z.ltb_spec k (level i)); [lia|done].
Qed.

(** The items of a forest are on its level or below. *)
Lemma span_above_forest k l f rest :
  k < l -> span_above k (flatten l f ++ rest) =
    (flatten l f ++ (span_above k rest).1, (span_above k rest).2).
Proof.
  revert l rest. induction f as [|t i c s sub IH1 next IH2]; intros l rest Hl.
  - cbn. by destruct (span_above k rest).
  - cbn [flatten app]. rewrite span_above_cons by done. rewrite <- app_assoc.
    rewrite IH1, IH2 by lia. cbn. by rewrite <- app_assoc.
Qed.

Lemma span_above_flatten k l f rest :
  k < l -> head_at_least (k + 1) rest = false ->
  span_above k (flatten l f ++ rest) = (flatten l f, rest).
Proof.
  intros Hl Hr. rewrite span_above_forest, span_above_stop by done. cbn. by rewrite app_nil_r.
Qed.

(** A group and its sub-groups are passed together. *)
Lemma span_above_sub l sub next rest :
  head_at_least l rest = false ->
  span_above l (flatten (l + 1) sub ++ flatten l next ++ rest) =
    (flatten (l + 1) sub, flatten l next ++ rest).
Proof. intros H. apply span_above_flatten; [lia|]. by apply head_at_least_flatten. Qed.

Lemma span_above_all l sub next rest :
  head_at_least l rest = false ->
  span_above (l - 1) (flatten (l + 1) sub ++ flatten l next ++ rest) =
    (flatten (l + 1) sub ++ flatten l next, rest).
Proof.
  intros H. rewrite !span_above_forest, span_above_stop by (done || lia || by rewrite Z.sub_add).
  cbn. by rewrite app_nil_r.
Qed.

Lemma finish_left l f pre rest orest :
  head_at_least l rest = false -> head_at_least l orest = false ->
  finish_level l (pre, flatten l f ++ rest, orest) = (pre ++ flatten l f, rest, orest).
Proof.
  intros Hr Ho. destruct f as [|t i c s sub next].
  - cbn. rewrite app_nil_r. destruct rest as [|j rest]; cbn in *; rewrite ?Hr, ?Ho; done.
  - cbn [flatten app finish_level level]. destruct (Z.leb_spec l l); [|lia].
    rewrite <- app_assoc. by rewrite span_above_all.
Qed.

Lemma finish_right l g pre rest orest :
  head_at_least l rest = false -> head_at_least l orest = false ->
  finish_level l (pre, rest, flatten l g ++ orest) = (pre ++ flatten l g, rest, orest).
Proof.
  intros Hr Ho.
  assert ((if head_at_least l (flatten l g ++ orest) then
             let (a, b) := span_above (l - 1) (flatten l g ++ orest) in (pre ++ a, rest, b)
           else (pre, rest, flatten l g ++ orest)) = (pre ++ flatten l g, rest, orest)) as E.
  { rewrite span_above_flatten by (lia || by rewrite Z.sub_add). destruct g; cbn.
    - by rewrite Ho, app_nil_r.
    - destruct (Z.leb_spec l l); [done|lia]. }
  destruct rest as [|j rest]; cbn [finish_level]; [done|]. cbn in Hr. by rewrite Hr.
Qed.

Lemma merge_forest_nil_r f : merge_forest f FNil = f.
Proof. by destruct f. Qed.

(** Outside its own level the code sees items above it only. *)
Lemma recurse_ok fuel : forall l f g pre rest orest,
  (fsize f + fsize g < fuel)%nat -> 0 <= l -> l + Z.max (depth f) (depth g) <= 255 ->
  head_at_least l rest = false -> head_at_least l orest = false ->
  recurseStringGroup fuel l (pre, flatten l f ++ rest, flatten l g ++ orest) =
    Ret (pre ++ flatten l (merge_forest f g), rest, orest).
Proof.
  induction fuel as [|fuel IH]; intros l f g pre rest orest Hfuel Hl Hd Hr Ho; [lia|].
  destruct f as [|t i c s sub next].
  { cbn [flatten app merge_forest]. rewrite <- (finish_right l g pre rest orest) by done.
    cbn [recurseStringGroup]. destruct rest as [|j rest]; [done|].
    cbn in Hr. destruct (flatten l g ++ orest); [done|]. by rewrite Hr. }
  destruct g as [|t' i' c' s' sub' next'].
  { rewrite merge_forest_nil_r. rewrite <- (finish_left l _ pre rest orest) by done.
    cbn [recurseStringGroup flatten app level]. destruct orest as [|j orest]; [done|].
    cbn in Ho. by rewrite Ho, andb_false_r. }
  cbn [flatten app recurseStringGroup level text doc_count]. cbn [fsize depth] in *.
  destruct (Z.leb_spec l l); [|lia]. cbn [andb merge_forest].
  rewrite <- !(app_assoc (flatten (l + 1) _)).
  destruct (tcompare t t') eqn:E.
  - pose proof (depth_nonneg sub). rewrite (u8_small (l + 1)) by lia. unfold add_count; cbn [level text id score doc_count].
    rewrite IH; [| |lia|lia|by apply head_at_least_flatten..]; [|lia].
    rsimpl. rewrite IH; [| |lia|lia|done..]; [|lia]. cbn [flatten]. by rewrite <- !app_assoc.
  - rewrite span_above_sub by done.
    change (Item l t' i' c' s' :: flatten (l + 1) sub' ++ flatten l next' ++ orest) with
      ((Item l t' i' c' s' :: flatten (l + 1) sub') ++ flatten l next' ++ orest).
    rewrite app_assoc. change ((Item l t' i' c' s' :: flatten (l + 1) sub') ++ flatten l next')
      with (flatten l (FCons t' i' c' s' sub' next')).
    rewrite IH; [|cbn [fsize]; lia|done|cbn [depth]; lia|done..].
    cbn [flatten]. by rewrite <- !app_assoc.
  - rewrite span_above_sub by done.
    change (Item l t i c s :: flatten (l + 1) sub ++ flatten l next ++ rest) with
      ((Item l t i c s :: flatten (l + 1) sub) ++ flatten l next ++ rest).
    rewrite app_assoc. change ((Item l t i c s :: flatten (l + 1) sub) ++ flatten l next)
      with (flatten l (FCons t i c s sub next)).
    rewrite IH; [|cbn [fsize]; lia|done|cbn [depth]; lia|done..].
    cbn [flatten]. by rewrite <- !app_assoc.
Qed.

(** The pre-order list of the merged forest. *)
Lemma mergeStringGroup_ok f g :
  Z.max (depth f) (depth g) <= 255 ->
  exists other', mergeStringGroup (flatten 0 f) (flatten 0 g) =
    Ret (flatten 0 (merge_forest f g), other').
Proof.
  intros Hd. destruct g as [|t' i' c' s' sub' next'].
  { rewrite merge_forest_nil_r. eexists. cbn. by destruct (flatten 0 f). }
  destruct f as [|t i c s sub next]; [eexists; done|].
  eexists. unfold mergeStringGroup.
  pose proof (recurse_ok (S (length (flatten 0 (FCons t i c s sub next)) +
      length (flatten 0 (FCons t' i' c' s' sub' next')))) 0 (FCons t i c s sub next)
      (FCons t' i' c' s' sub' next') [] [] []) as H.
  rewrite !app_nil_r in H. cbn [flatten] in *.
  rewrite H; [|rewrite <- !(flatten_length 0); cbn [flatten]; lia|lia|done..].
  rsimpl. by rewrite app_nil_r.
Qed.

(** *** Sortedness and counts *)
Lemma sorted_after_weaken lo f : sorted_after lo f -> sorted_after None f.
Proof. destruct f; cbn; [done|]. tauto. Qed.

Lemma merge_sorted f : forall g lo,
  sorted_after lo f -> sorted_after lo g -> sorted_after lo (merge_forest f g).
Proof.
  induction f as [|t i c s sub IH1 next IH2]; intros g lo Hf Hg; [done|].
  induction g as [|t' i' c' s' sub' _ next' IHg] in lo, Hf, Hg |- *; [done|].
  cbn [merge_forest]. destruct Hf as (H1 & H2 & H3), Hg as (G1 & G2 & G3).
  destruct (tcompare t t') eqn:E.
  - apply tcompare_eq in E as <-. cbn [sorted_after]. split; [done|].
    split; [by apply IH1|by apply IH2].
  - split; [done|]. split; [done|]. apply IH2; [done|]. cbn. done.
  - split; [done|]. split; [done|]. apply IHg; [|done]. cbn. split; [by apply tcompare_gt|done].
Qed.

(** A name that is below every group of a level is not on it. *)
Lemma count_at_below f t p : sorted_after (Some t) f -> count_at f (t :: p) = 0.
Proof.
  revert t. induction f as [|t' i c s sub _ next IH]; intros t; cbn; [done|].
  intros (H1 & _ & H3). unfold tlt in H1. rewrite tcompare_antisym, H1. cbn.
  apply IH. destruct next; cbn in *; [done|]. destruct H3 as (H3 & ? & ?).
  split_and!; try done. by eapply tlt_trans.
Qed.

Fixpoint counts_ok f : Prop :=
  match f with
  | FNil => True
  | FCons _ _ c _ sub next => 0 <= c < 2 ^ 32 /\ counts_ok sub /\ counts_ok next
  end.

Lemma count_at_range f p : counts_ok f -> 0 <= count_at f p < 2 ^ 32.
Proof.
  revert p. induction f as [|t i c s sub IH1 next IH2]; intros p; cbn; [done|].
  intros (H1 & H2 & H3). destruct p as [|x p]; [done|].
  destruct (tcompare t x); [destruct p|..]; auto.
Qed.

(** Names of groups that are compared as different. *)
Lemma count_at_other t i c s sub next x p :
  tcompare t x <> Eq -> count_at (FCons t i c s sub next) (x :: p) = count_at next (x :: p).
Proof. intros H. cbn. by destruct (tcompare t x). Qed.

Lemma merge_count_at f : forall g p,
  sorted_after None f -> sorted_after None g -> counts_ok f -> counts_ok g ->
  count_at (merge_forest f g) p = u32 (count_at f p + count_at g p).
Proof.
  induction f as [|t i c s sub IH1 next IH2]; intros g p Hf Hg Cf Cg.
  { cbn. by rewrite u32_small by (by apply count_at_range). }
  induction g as [|t' i' c' s' sub' _ next' IHg].
  { rewrite merge_forest_nil_r, Z.add_0_r. by rewrite u32_small by (by apply count_at_range). }
  destruct p as [|x p]; [cbn [merge_forest]; by destruct (tcompare t t')|].
  pose proof Hf as (_ & F2 & F3). pose proof Hg as (_ & G2 & G3).
  pose proof Cf as (C1 & C2 & C3). pose proof Cg as (D1 & D2 & D3).
  apply sorted_after_weaken in F3 as F3'. apply sorted_after_weaken in G3 as G3'.
  cbn [merge_forest]. destruct (tcompare t t') eqn:E.
  - apply tcompare_eq in E as <-. cbn [count_at]. destruct (tcompare t x); [|by apply IH2..].
    destruct p; [done|]. by apply IH1.
  - destruct (decide (t = x)) as [<-|Hne].
    + rewrite (count_at_below (FCons t' i' c' s' sub' next')) by (by split).
      rewrite Z.add_0_r, u32_small by (by apply count_at_range).
      cbn. by rewrite tcompare_refl.
    + rewrite !(count_at_other t) by (by intros ?%tcompare_eq). by apply IH2.
  - destruct (decide (t' = x)) as [<-|Hne].
    + rewrite (count_at_below (FCons t i c s sub next)) by (split_and!; [by apply tcompare_gt|done..]).
      rewrite Z.add_0_l, u32_small by (by apply count_at_range).
      cbn. by rewrite tcompare_refl.
    + rewrite !(count_at_other t') by (by intros ?%tcompare_eq). by apply IHg.
Qed.

(** C22: on two pre-order lists of groups that are sorted by name on each level
    and at most 255 levels deep, [GroupRep::mergeStringGroup] returns the pre-order
    list of a sorted forest in which every path of names has the sum of the
    two document counts. *)
Theorem mergeStringGroup_counts f g :
  Z.max (depth f) (depth g) <= 255 ->
  sorted_after None f -> sorted_after None g -> counts_ok f -> counts_ok g ->
  exists h other', mergeStringGroup (flatten 0 f) (flatten 0 g) = Ret (flatten 0 h, other') /\
    sorted_after None h /\ forall p, count_at h p = u32 (count_at f p + count_at g p).
Proof.
  intros Hd Hf Hg Cf Cg. exists (merge_forest f g).
  destruct (mergeStringGroup_ok f g Hd) as (other' & E). exists other'. split; [done|].
  split; [by apply merge_sorted|]. intros p. by apply merge_count_at.
Qed.
End MergeCorrect.

Lemma mergeStringGroup_counts_witness :
  let f := FCons 5 0 3 d0 (FCons 1 0 2 d0 FNil (FCons 4 0 1 d0 FNil FNil)) FNil in
  let g := FCons 2 0 9 d0 FNil (FCons 5 0 7 d0 (FCons 1 0 4 d0 FNil (FCons 3 0 3 d0 FNil FNil)) FNil) in
  exists h other', mergeStringGroup (flatten 0 f) (flatten 0 g) = Ret (flatten 0 h, other') /\
    sorted_after None h /\ forall p, count_at h p = u32 (count_at f p + count_at g p).
Proof.
  intros f g. apply (mergeStringGroup_counts f g).
  - vm_compute. done.
  - cbn. unfold tlt. cbn. by repeat split.
  - cbn. unfold tlt. cbn. by repeat split.
  - cbn. lia.
  - cbn. lia.
Defined.

(** ** [ResizeTo] keeps the largest groups *)
Section Resize.

(** The queue of one property after the counts [cs]. *)
Definition queue_add (k : Z) (q : list Z) (c : Z) : list Z :=
  let q := q_push c q in if k <? vsize q then tail q else q.

Definition queue_of (k : Z) (cs : list Z) : list Z := foldl (queue_add k) [] cs.

Lemma q_push_perm c q : q_push c q ≡ₚ c :: q.
Proof.
  induction q as [|x q IH]; cbn; [done|]. destruct (x <? c); [|done]. rewrite IH. apply Permutation_swap.
Qed.

Lemma q_push_sorted c q : StronglySorted Z.le q -> StronglySorted Z.le (q_push c q).
Proof.
  induction 1 as [|x q Hq IH Hx]; cbn; [repeat constructor|]. destruct (Z.ltb_spec x c).
  - constructor; [done|]. rewrite Forall_forall in Hx |- *. intros y Hy. rewrite q_push_perm in Hy.
    apply elem_of_cons in Hy as [->|Hy]; [lia|by apply Hx].
  - repeat constructor; try done. eapply Forall_impl; [exact Hx|]. cbn. lia.
Qed.

(** The queue holds the [k] greatest of [cs] in increasing order. *)
Definition queue_ok (k : Z) (cs q : list Z) : Prop :=
  StronglySorted Z.le q /\ vsize q = Z.min k (vsize cs) /\
  exists rest, cs ≡ₚ q ++ rest /\ forall x y, x ∈ rest -> y ∈ q -> x <= y.

Lemma queue_add_ok k cs q c :
  0 < k -> queue_ok k cs q -> queue_ok k (cs ++ [c]) (queue_add k q c).
Proof.
  intros Hk (Hs & Hsz & rest & Hp & Hle). unfold queue_add.
  pose proof (q_push_sorted c q Hs) as Hs'. pose proof (q_push_perm c q) as Hpp.
  assert (vsize (q_push c q) = 1 + vsize q) as Hsz' by (unfold vsize; rewrite Hpp; cbn; lia).
  destruct (Z.ltb_spec k (vsize (q_push c q))).
  - destruct (q_push c q) as [|m q']; [unfold vsize in Hsz'; cbn in Hsz'; lia|].
    apply StronglySorted_cons in Hs' as [Hm Hs']. cbn [tail]. split; [done|].
    rewrite vsize_cons in *. split; [rewrite vsize_app, vsize_cons; change (vsize []) with 0; lia|].
    exists (m :: rest). split.
    + rewrite <- (Permutation_middle q' rest m). change (m :: q' ++ rest) with ((m :: q') ++ rest).
      rewrite Hpp, Hp. cbn. by rewrite (Permutation_app_comm _ [c]).
    + rewrite Forall_forall in Hm. intros x y [->|Hx]%elem_of_cons Hy; [by apply Hm|].
      assert (m ∈ c :: q) as [->|Hmq]%elem_of_cons by (rewrite <- Hpp; by left).
      * apply Permutation_cons_inv in Hpp. apply Hle; [done|by rewrite <- Hpp].
      * specialize (Hle x m Hx Hmq). specialize (Hm y Hy). lia.
  - split; [done|]. rewrite vsize_app, vsize_cons. change (vsize []) with 0.
    split; [pose proof (vsize_nonneg cs); lia|].
    assert (rest = []) as ->.
    { assert (vsize cs = vsize q + vsize rest) by (unfold vsize; rewrite Hp, length_app; lia).
      destruct rest; [done|]. rewrite vsize_cons in *. pose proof (vsize_nonneg rest). lia. }
    exists []. split; [|by intros x y ?%elem_of_nil]. rewrite Hpp, Hp, !app_nil_r. apply Permutation_app_comm.
Qed.

Lemma queue_of_ok k cs : 0 < k -> queue_ok k cs (queue_of k cs).
Proof.
  intros Hk. unfold queue_of.
  assert (forall cs seen q, queue_ok k seen q -> queue_ok k (seen ++ cs) (foldl (queue_add k) q cs)) as H.
  { clear cs. induction cs as [|c cs IH]; intros seen q Hq; [by rewrite app_nil_r|].
    cbn. replace (seen ++ c :: cs) with ((seen ++ [c]) ++ cs) by by rewrite <- app_assoc.
    apply IH. by apply queue_add_ok. }
  apply (H cs []). split; [constructor|]. split; [unfold vsize; cbn; lia|]. exists []. split; [done|].
  by intros x y ?%elem_of_nil.
Qed.

(** A count is below the top of the queue when [k] counts are greater. *)
Lemma queue_top k cs c :
  0 < k -> c ∈ cs ->
  exists top, q_top (queue_of k cs) = Ret top /\ (c < top <-> k <= count (fun d => c <? d) cs).
Proof.
  intros Hk Hc. destruct (queue_of_ok k cs Hk) as (Hs & Hsz & rest & Hp & Hle).
  assert (1 <= vsize cs) by (destruct cs; [by apply elem_of_nil in Hc|rewrite vsize_cons; pose proof (vsize_nonneg cs); lia]).
  destruct (queue_of k cs) as [|t q]; [unfold vsize at 1 in Hsz; cbn in Hsz; lia|].
  exists t. split; [done|]. apply StronglySorted_cons in Hs as [Ht Hs]. rewrite Forall_forall in Ht.
  assert (count (fun d => c <? d) cs = count (fun d => c <? d) (t :: q) + count (fun d => c <? d) rest) as E.
  { rewrite <- count_app. unfold count, vsize. by rewrite Hp. }
  assert (forall l, count (fun d => c <? d) l <= vsize l) as Hub by (intros l; apply count_bounds).
  rewrite E, count_cons. rewrite vsize_cons in Hsz. destruct (Z.ltb_spec c t) as [Hlt|Hge].
  - split; [intros _|lia].
    assert (count (fun d => c <? d) q = vsize q) as ->.
    { apply count_all. intros x Hx. specialize (Ht x Hx). lia. }
    assert (vsize q + 1 = k \/ rest = []) as [|Hr].
    { destruct rest as [|x rest]; [by right|left].
      assert (vsize cs = 1 + vsize q + (1 + vsize rest)).
      { unfold vsize. rewrite Hp. cbn. rewrite length_app. cbn. lia. }
      pose proof (vsize_nonneg rest). lia. }
    + pose proof (count_bounds (fun d => c <? d) rest). lia.
    + subst rest. rewrite app_nil_r in Hp. rewrite Hp in Hc. exfalso.
      apply elem_of_cons in Hc as [->|Hc]; [lia|]. specialize (Ht c Hc). lia.
  - split; [lia|]. intros Hk2. exfalso. specialize (Hub q).
    assert (count (fun d => c <? d) rest = 0); [|lia].
    apply count_none. intros x Hx. specialize (Hle x t Hx ltac:(by left)). lia.
Qed.
End Resize.

Section ResizeTheorem.
Context {T : Type} (ustring : string -> T) (to_utf8 : T -> string).
Context (grouptop_for_props : string -> option Z).

(** A property, its groups, and what is below each group. *)
Definition prop_groups : Type := item T * list (item T * list (item T)).

Definition flat_groups (gs : list (item T * list (item T))) : list (item T) :=
  concat (map (fun g => g.1 :: g.2) gs).
Definition flat_props (ps : list prop_groups) : list (item T) :=
  concat (map (fun p => p.1 :: flat_groups p.2) ps).

Definition wf_sub (g : item T * list (item T)) : Prop :=
  level g.1 = 1 /\ Forall (fun i => level i <> 0 /\ level i <> 1) g.2.
Definition wf_prop (p : prop_groups) : Prop :=
  level p.1 = 0 /\ p.2 <> [] /\ Forall wf_sub p.2.

Definition counts_of (p : prop_groups) : list Z := map (fun g => doc_count g.1) p.2.

(** The groups that fewer than [k] groups of the property exceed. *)
Definition keep (k : Z) (p : prop_groups) : prop_groups :=
  (p.1, filter (fun g => count (fun d => doc_count g.1 <? d) (counts_of p) < k) p.2).

Definition top_of (size : Z) (p : prop_groups) : Z :=
  match grouptop_for_props (to_utf8 (text p.1)) with Some k => k | None => size end.

Context (size : Z).
Hypothesis Hsize : 0 < size < 2 ^ 31.

Lemma flat_groups_cons g gs : flat_groups (g :: gs) = (g.1 :: g.2) ++ flat_groups gs.
Proof. done. Qed.

Lemma queue_add_small k (q : list Z) : 0 < k < 2 ^ 31 -> vsize q <= k -> (if u64 k <? vsize q then tail q else q) = q.
Proof. intros Hk Hq. rewrite u64_small by lia. destruct (Z.ltb_spec k (vsize q)); [lia|done]. Qed.

Lemma queue_size k cs : 0 < k -> vsize (queue_of k cs) <= k.
Proof. intros Hk. destruct (queue_of_ok k cs Hk) as (_ & -> & _). lia. Qed.

Lemma count_sub_items (subs : list (item T)) qs q k :
  Forall (fun i => level i <> 0 /\ level i <> 1) subs -> 0 < k < 2 ^ 31 -> vsize q <= k ->
  mfold (count_item to_utf8 grouptop_for_props size) subs (qs, Some q, k) = Ret (qs, Some q, k).
Proof.
  intros Hs Hk Hq. induction Hs as [|i subs [H0 H1] Hs IH]; [done|]. cbn [mfold]. unfold count_item at 1.
  destruct (Z.eqb_spec (level i) 0); [done|]. destruct (Z.eqb_spec (level i) 1); [done|]. rsimpl.
  by rewrite queue_add_small.
Qed.

Lemma count_groups k gs : forall qs cs,
  Forall wf_sub gs -> 0 < k < 2 ^ 31 ->
  mfold (count_item to_utf8 grouptop_for_props size) (flat_groups gs) (qs, Some (queue_of k cs), k) =
  Ret (qs, Some (queue_of k (cs ++ map (fun g => doc_count g.1) gs)), k).
Proof.
  induction gs as [|g gs IH]; intros qs cs Hgs Hk; [by rewrite app_nil_r|].
  apply Forall_cons in Hgs as [[Hl Hsub] Hgs]. rewrite flat_groups_cons, mfold_app. cbn [mfold].
  unfold count_item at 1. rewrite Hl. change (1 =? 0) with false. change (1 =? 1) with true. cbn iota. cbn [res_bind].
  rewrite u64_small by lia.
  change (if k <? vsize (q_push (doc_count g.1) (queue_of k cs)) then
      tail (q_push (doc_count g.1) (queue_of k cs)) else q_push (doc_count g.1) (queue_of k cs))
    with (queue_add k (queue_of k cs) (doc_count g.1)).
  assert (queue_add k (queue_of k cs) (doc_count g.1) = queue_of k (cs ++ [doc_count g.1])) as ->.
  { unfold queue_of. by rewrite foldl_app. }
  rewrite count_sub_items by (try done; apply queue_size; lia). cbn [res_bind]. rewrite IH by done.
  by rewrite <- app_assoc.
Qed.

Definition queue_for (p : prop_groups) : list Z := queue_of (top_of size p) (counts_of p).

Definition props_ok (ps : list prop_groups) : Prop :=
  Forall (fun p => wf_prop p /\ 0 < top_of size p < 2 ^ 31) ps.

Lemma queue_for_top p : wf_prop p -> 0 < top_of size p < 2 ^ 31 -> exists t, q_top (queue_for p) = Ret t.
Proof.
  intros (_ & Hne & _) Hk. unfold queue_for, counts_of. destruct (p.2) as [|g gs]; [done|].
  destruct (queue_top (top_of size p) (map (fun g => doc_count g.1) (g :: gs)) (doc_count g.1)) as (t & E & _);
    [lia|by left|]. by exists t.
Qed.

Lemma count_props ps : forall qs back k,
  props_ok ps -> match back with Some q => exists t, q_top q = Ret t | None => True end ->
  exists qs' back' k', mfold (count_item to_utf8 grouptop_for_props size) (flat_props ps) (qs, back, k) =
      Ret (qs', back', k') /\
    (qs' ++ match back' with Some q => [q] | None => [] end) =
    (qs ++ match back with Some q => [q] | None => [] end) ++ map queue_for ps.
Proof.
  induction ps as [|p ps IH]; intros qs back k Hps Hback.
  { exists qs, back, k. split; [done|]. cbn. by rewrite app_nil_r. }
  apply Forall_cons in Hps as [[Hwf Hk] Hps]. pose proof Hwf as (Hl & Hne & Hgs).
  cbn [flat_props map concat]. fold (flat_props ps). rewrite mfold_app. cbn [mfold].
  unfold count_item at 1. rewrite Hl. change (0 =? 0) with true. cbn iota.
  assert ((let* _ := match back with Some q => q_top q | None => Ret 0 end in
      Ret (match back with Some q => qs ++ [q] | None => qs end, [],
        match grouptop_for_props (to_utf8 (text p.1)) with Some k => k | None => s32 size end)) =
    Ret (qs ++ match back with Some q => [q] | None => [] end, [], top_of size p)) as ->.
  { unfold top_of. rewrite s32_small by lia. destruct back as [q|]; [destruct Hback as [t ->]|]; cbn; [done|].
    by rewrite app_nil_r. }
  cbn [res_bind]. rewrite queue_add_small by (try done; unfold vsize; cbn; lia).
  rewrite (count_groups (top_of size p) p.2 _ []) by done. cbn [res_bind app].
  destruct (IH (qs ++ match back with Some q => [q] | None => [] end) (Some (queue_for p)) (top_of size p) Hps)
    as (qs' & back' & k' & E & Hq).
  { by apply queue_for_top. }
  exists qs', back', k'. split; [exact E|]. rewrite Hq. cbn. by rewrite <- app_assoc.
Qed.

(** *** The second pass *)
Lemma resize_sub queues (subs : list (item T)) : forall kept pending need n,
  Forall (fun i => level i <> 0 /\ level i <> 1) subs ->
  mfold (resize_item queues) subs (kept, pending, need, n) = Ret (kept, pending ++ subs, need, n).
Proof.
  intros kept pending need n Hs. revert pending. induction Hs as [|i subs [H0 H1] Hs IH]; intros pending.
  { by rewrite app_nil_r. }
  cbn [mfold]. unfold resize_item at 1.
  destruct (Z.eqb_spec (level i) 0); [done|]. destruct (Z.eqb_spec (level i) 1); [done|]. rsimpl.
  rewrite IH. by rewrite <- app_assoc.
Qed.

Lemma resize_groups queues p n : forall gs kept pending need,
  vget queues n = Ret (queue_for p) -> 0 < top_of size p ->
  Forall wf_sub gs -> (forall g, g ∈ gs -> g ∈ p.2) ->
  exists kept' pending' need', mfold (resize_item queues) (flat_groups gs) (kept, pending, need, n) =
      Ret (kept', pending', need', n) /\
    (if need' then kept' else kept' ++ pending') =
    (if need then kept else kept ++ pending) ++
      flat_groups (filter (fun g => count (fun d => doc_count g.1 <? d) (counts_of p) < top_of size p) gs).
Proof.
  induction gs as [|g gs IH]; intros kept pending need Hq Hk Hwf Hin.
  { exists kept, pending, need. split; [done|]. cbn. by rewrite app_nil_r. }
  apply Forall_cons in Hwf as [[Hl Hsub] Hwf]. rewrite flat_groups_cons, mfold_app. cbn [mfold].
  unfold resize_item at 1. rewrite Hl. change (1 =? 0) with false. change (1 =? 1) with true. cbn iota.
  rewrite Hq. cbn [res_bind].
  destruct (queue_top (top_of size p) (counts_of p) (doc_count g.1) Hk) as (t & Et & Ht).
  { unfold counts_of. apply list_elem_of_fmap. exists g. split; [done|]. apply Hin. by left. }
  unfold queue_for. rewrite Et. cbn [res_bind]. rewrite resize_sub by done. cbn [res_bind].
  destruct (IH (if need then kept else kept ++ pending) ([g.1] ++ g.2) (doc_count g.1 <? t))
    as (k' & p' & n' & E & Hr); [done|done|done|intros; apply Hin; by right|].
  exists k', p', n'. split; [exact E|]. rewrite Hr, filter_cons. destruct (Z.ltb_spec (doc_count g.1) t) as [Hlt|Hge].
  - rewrite decide_False; [done|]. apply Ht in Hlt. lia.
  - rewrite decide_True; [by rewrite flat_groups_cons, <- !app_assoc|].
    destruct (decide (top_of size p <= count (fun d => doc_count g.1 <? d) (counts_of p))) as [H|]; [|lia].
    apply Ht in H. lia.
Qed.

Lemma resize_props queues ps : forall kept pending need n,
  props_ok ps -> 0 <= n + 1 ->
  (forall j p, ps !! j = Some p -> vget queues (n + 1 + Z.of_nat j) = Ret (queue_for p)) ->
  exists kept' pending' need' n', mfold (resize_item queues) (flat_props ps) (kept, pending, need, n) =
      Ret (kept', pending', need', n') /\
    (if need' then kept' else kept' ++ pending') =
    (if need then kept else kept ++ pending) ++ flat_props (map (fun p => keep (top_of size p) p) ps).
Proof.
  induction ps as [|p ps IH]; intros kept pending need n Hps Hn Hq.
  { exists kept, pending, need, n. split; [done|]. cbn. by rewrite app_nil_r. }
  apply Forall_cons in Hps as [[Hwf Hk] Hps]. pose proof Hwf as (Hl & Hne & Hgs).
  cbn [flat_props map concat]. fold (flat_props ps). rewrite mfold_app. cbn [mfold].
  unfold resize_item at 1. rewrite Hl. change (0 =? 0) with true. cbn iota. cbn [res_bind].
  destruct (resize_groups queues p (n + 1) p.2 ((if need then kept else kept ++ pending) ++ [p.1]) [] false)
    as (k' & p' & n' & E & Hr); [|lia|done|done|].
  { specialize (Hq O p eq_refl). by rewrite Z.add_0_r in Hq. }
  rewrite E. cbn [res_bind].
  destruct (IH k' p' n' (n + 1) Hps ltac:(lia)) as (k2 & p2 & b2 & n2 & E2 & Hr2).
  { intros j p1 Hj. rewrite <- (Hq (Datatypes.S j) p1 Hj). f_equal. lia. }
  exists k2, p2, b2, n2. split; [exact E2|]. rewrite Hr2, Hr. rewrite app_nil_r, <- !app_assoc. done.
Qed.
End ResizeTheorem.

(** After [ResizeTo], every property of a group result has exactly those
    of its groups, in their order and with everything below them, whose
    document count is exceeded by fewer than [k] groups of the property, [k]
    being the property's entry of [grouptop_for_props] (all groups without an
    entry). *)
Theorem ResizeTo_keeps {T} (ustring : string -> T) (to_utf8 : T -> string)
    (grouptop_for_props : string -> option Z) (ps : list prop_groups) (r r' : GroupRep T) :
  toOntologyRepItemList ustring r = Ret r' ->
  stringGroupRep_ r' = flat_props ps ->
  let size := vsize (flat_props ps) in
  0 < size < 2 ^ 31 ->
  Forall (fun p => wf_prop p /\ 0 < top_of to_utf8 grouptop_for_props size p < 2 ^ 31) ps ->
  ResizeTo ustring to_utf8 grouptop_for_props r =
    Ret (Rep (flat_props (map (fun p => keep (top_of to_utf8 grouptop_for_props size p) p) ps)) [] []).
Proof.
  intros Er Es size Hsize Hps. unfold ResizeTo. rewrite Er. cbn [res_bind]. rewrite Es. fold size.
  destruct (count_props to_utf8 grouptop_for_props size Hsize ps [] None (s32 size) Hps I)
    as (qs & back & k & -> & Hq). cbn [res_bind].
  assert (match back with Some q => qs ++ [q] | None => qs end =
    map (queue_for to_utf8 grouptop_for_props size) ps) as ->.
  { cbn in Hq. rewrite <- Hq. destruct back; [done|]. by rewrite app_nil_r. }
  destruct (resize_props to_utf8 grouptop_for_props size
    (map (queue_for to_utf8 grouptop_for_props size) ps) ps [] [] false (-1) Hps ltac:(lia))
    as (kept & pending & need & n & -> & Hr).
  { intros j p Hj. apply vget_Ret. split; [lia|]. replace (Z.to_nat (-1 + 1 + Z.of_nat j)) with j by lia.
    rewrite list_lookup_fmap, Hj. done. }
  cbn [res_bind]. by rewrite Hr.
Qed.

Definition sample_props : list (prop_groups (T := Z)) :=
  [(mk_item 0 7 0 12, [(mk_item 1 1 0 3, [mk_item 2 9 0 3]); (mk_item 1 2 0 8, []); (mk_item 1 3 0 1, [])]);
   (mk_item 0 8 0 2, [(mk_item 1 4 0 2, [])])].

Lemma ResizeTo_keeps_witness :
  let grouptop name := if String.eqb name "p" then Some 2 else None in
  let to_utf8 := fun t : Z => if t =? 7 then "p"%string else "q"%string in
  ResizeTo (fun _ => 0) to_utf8 grouptop (Rep (flat_props sample_props) [] []) =
    Ret (Rep (flat_props (map (fun p => keep (top_of to_utf8 grouptop (vsize (flat_props sample_props)) p) p)
                sample_props)) [] []).
Proof.
  intros grouptop to_utf8.
  apply (ResizeTo_keeps (fun _ => 0) to_utf8 grouptop sample_props (Rep (flat_props sample_props) [] [])
           (Rep (flat_props sample_props) [] [])).
  - reflexivity.
  - reflexivity.
  - vm_compute. done.
  - repeat constructor; vm_compute; done.
Defined.

(** A property without groups, followed by another one. *)
Definition empty_prop : GroupRep Z := Rep [mk_item 0 7 0 0; mk_item 0 8 0 2; mk_item 1 4 0 2] [] [].

(** [ResizeTo] reads the top of an empty priority queue (undefined
    behaviour) when a property without groups is followed by another one, and
    when a property's limit is 0. *)
Theorem ResizeTo_empty_queue :
  ResizeTo (fun _ => 0) (fun _ => "p"%string) (fun _ => None) empty_prop = Undef /\
  ResizeTo (fun _ => 0) (fun _ => "p"%string) (fun _ => Some 0)
    (Rep (flat_props sample_props) [] []) = Undef.
Proof. split; vm_compute; reflexivity. Qed.

(** ** The merge of sorted value lists adds the counts *)
Section MergeValues.
Notation values := (list (spec_float * Z)).
Implicit Types (l o pre lit olit : values).

Definition numeric_ok l : Prop :=
  Forall (fun x => is_num x.1 = true) l /\ StronglySorted (fun x y => flt x.1 y.1 = true) l.

(** The documents with the value [k]. *)
Definition vcount (k : spec_float) l : Z :=
  foldr (fun x acc => (if feq x.1 k then x.2 else 0) + acc) 0 l.

Lemma vcount_app k l o : vcount k (l ++ o) = vcount k l + vcount k o.
Proof. unfold vcount. induction l as [|x l IH]; [done|]. cbn. lia. Qed.

Lemma vcount_cons k x l : vcount k (x :: l) = (if feq x.1 k then x.2 else 0) + vcount k l.
Proof. done. Qed.

Lemma numeric_ok_app l o :
  numeric_ok (l ++ o) <-> numeric_ok l /\ numeric_ok o /\
    (forall x y, x ∈ l -> y ∈ o -> flt x.1 y.1 = true).
Proof. unfold numeric_ok. rewrite Forall_app, StronglySorted_app. tauto. Qed.

Lemma numeric_ok_cons x l :
  numeric_ok (x :: l) <-> is_num x.1 = true /\ numeric_ok l /\ (forall y, y ∈ l -> flt x.1 y.1 = true).
Proof. unfold numeric_ok. rewrite Forall_cons, StronglySorted_cons, !Forall_forall. tauto. Qed.

Lemma span_ok P l : l = (span P l).1 ++ (span P l).2 /\ (forall x, x ∈ (span P l).1 -> P x.1 = true) /\
  match (span P l).2 with x :: _ => P x.1 = false | [] => True end.
Proof.
  induction l as [|x l IH]; cbn; [split; [done|]; split; [|done]; by intros x ?%elem_of_nil|].
  destruct (P x.1) eqn:E.
  - destruct (span P l) as [a b]. cbn in *. destruct IH as (-> & H1 & H2). split; [done|]. split; [|done].
    intros y [->|Hy]%elem_of_cons; auto.
  - cbn. split; [done|]. split; [by intros y ?%elem_of_nil|done].
Qed.

(** The loop's state stands for counts [C]. *)
Definition merging_values (C : spec_float -> Z) pre lit olit : Prop :=
  numeric_ok (pre ++ lit) /\ numeric_ok olit /\
  (forall x y, x ∈ pre -> y ∈ olit -> flt x.1 y.1 = true) /\
  (forall k, u32 (vcount k (pre ++ lit) + vcount k olit) = u32 (C k)).

Lemma values_skip C pre a lit olit :
  merging_values C pre (a ++ lit) olit ->
  (forall x y, x ∈ a -> y ∈ olit -> flt x.1 y.1 = true) ->
  merging_values C (pre ++ a) lit olit.
Proof.
  intros (H1 & H2 & H3 & H4) Ha. rewrite app_assoc in *. split; [done|]. split; [done|]. split; [|done].
  intros x y [Hx|Hx]%elem_of_app Hy; auto.
Qed.

Lemma values_insert C pre x lit ins olit :
  merging_values C pre (x :: lit) (ins ++ olit) ->
  (forall y, y ∈ ins -> flt y.1 x.1 = true) ->
  merging_values C (pre ++ ins) (x :: lit) olit.
Proof.
  intros (H1 & H2 & H3 & H4) Hi. apply numeric_ok_app in H1 as (P1 & P2 & P3), H2 as (O1 & O2 & O3).
  split_and!.
  - apply numeric_ok_app. split_and!; [apply numeric_ok_app; split_and!; [done..|]|done|].
    + intros y z Hy Hz. apply H3; [done|]. apply elem_of_app. by left.
    + intros y z [Hy|Hy]%elem_of_app Hz; [auto|]. specialize (Hi y Hy).
      apply numeric_ok_cons in P2 as (_ & _ & P2). apply elem_of_cons in Hz as [->|Hz]; [done|].
      eapply flt_trans; [done|]. by apply P2.
  - done.
  - intros y z [Hy|Hy]%elem_of_app Hz; [apply H3; [done|]; apply elem_of_app; by right|auto].
  - intros k. rewrite <- H4, !vcount_app. f_equal. lia.
Qed.

Lemma values_add C pre x lit y olit :
  merging_values C pre (x :: lit) (y :: olit) -> feq x.1 y.1 = true ->
  merging_values C (pre ++ [(x.1, u32 (x.2 + y.2))]) lit olit.
Proof.
  intros (H1 & H2 & H3 & H4) He. apply numeric_ok_app in H1 as (P1 & P2 & P3).
  apply numeric_ok_cons in P2 as (Nx & P2 & Px), H2 as (Ny & O2 & Oy).
  split_and!.
  - rewrite <- app_assoc. apply numeric_ok_app. split_and!; [done| |].
    + apply numeric_ok_cons. done.
    + intros a b Ha [->|Hb]%elem_of_cons; [apply (P3 a x Ha); by left|]. apply P3; [done|by right].
  - done.
  - intros a b [Ha|Ha]%elem_of_app Hb; [apply H3; [done|by right]|].
    apply list_elem_of_singleton in Ha as ->. cbn. rewrite (flt_feq_l _ y.1 _ He). by apply Oy.
  - intros k. rewrite <- H4, !vcount_app, !vcount_cons. change (vcount k []) with 0. cbn [fst snd].
    assert (feq y.1 k = feq x.1 k) as ->.
    { destruct (is_num k) eqn:Hk.
      - apply Bool.eq_true_iff_eq. rewrite feq_key in He |- * by done. rewrite feq_key by done. by rewrite He.
      - by destruct k, (x.1) as [[]|[]| |[]], (y.1) as [[]|[]| |[]]. }
    destruct (feq x.1 k); [|f_equal; lia].
    replace (vcount k pre + (u32 (x.2 + y.2) + 0) + vcount k lit + vcount k olit) with
      (u32 (x.2 + y.2) + (vcount k pre + vcount k lit + vcount k olit)) by lia.
    rewrite u32_add_l. f_equal. lia.
Qed.

Lemma add_equal_ok C lit : forall pre olit d lit' olit',
  merging_values C pre lit olit -> add_equal lit olit = (d, lit', olit') ->
  merging_values C (pre ++ d) lit' olit' /\
  (length lit' + length olit' <= length lit + length olit)%nat /\
  (forall x y lt ot, lit = x :: lt -> olit = y :: ot -> feq x.1 y.1 = true ->
    (length lit' + length olit' < length lit + length olit)%nat).
Proof.
  induction lit as [|x lit IH]; intros pre olit d lit' olit' Hm E; cbn in E.
  { injection E as <- <- <-. rewrite app_nil_r. split; [done|]. split; [done|]. done. }
  destruct olit as [|y olit].
  { injection E as <- <- <-. rewrite app_nil_r. split; [done|]. split; [done|]. done. }
  destruct (feq x.1 y.1) eqn:Hf.
  - destruct (add_equal lit olit) as [[d' l'] o'] eqn:E'. injection E as <- <- <-.
    destruct (IH (pre ++ [(x.1, u32 (x.2 + y.2))]) olit d' l' o') as (H1 & H2 & _);
      [by apply values_add|done|].
    rewrite <- app_assoc in H1. split; [done|]. cbn. split; [lia|]. intros. lia.
  - injection E as <- <- <-. rewrite app_nil_r. split; [done|]. split; [done|].
    intros ? ? ? ? [= -> ->] [= -> ->]. congruence.
Qed.

(** Merging two increasing lists of numbers and counts,
    [mergeNumericGroup]'s loop ends with an increasing list in which every
    value has the sum of its two counts. *)
Theorem merge_values_counts l o :
  numeric_ok l -> numeric_ok o -> vsize l + vsize o < 2 ^ 64 ->
  exists r, merge_values l o = Ret r /\ numeric_ok r /\
    forall k, u32 (vcount k r) = u32 (vcount k l + vcount k o).
Proof.
  intros Hl Ho Hsize. unfold merge_values.
  apply (while_loop_rule numeric_body
    (fun n '(pre, lit, olit) => n = vsize lit + vsize olit /\
       merging_values (fun k => vcount k l + vcount k o) pre lit olit) (fun n => n) _)
    with (g := vsize l + vsize o); [|split; [done|]; split_and!; try done; by intros x y ?%elem_of_nil|unfold loop_fuel; lia].
  intros n [[pre lit] olit] [-> Hm]. split; [pose proof (vsize_nonneg lit); pose proof (vsize_nonneg olit); lia|].
  unfold numeric_body. destruct olit as [|y olit].
  { right. eexists. split; [done|]. destruct Hm as (H1 & _ & _ & H4). split; [done|].
    intros k. rewrite <- H4. f_equal. cbn. lia. }
  pose proof Hm as (H1 & H2 & H3 & H4). apply numeric_ok_app in H1 as (P1 & P2 & P3).
  destruct (span_ok (fun k => flt k y.1) lit) as (Ea & Ha & Hb).
  destruct (span (fun k => flt k y.1) lit) as [a lit']. cbn [fst snd] in *. subst lit.
  assert (forall x z, x ∈ a -> z ∈ y :: olit -> flt x.1 z.1 = true) as Hay.
  { intros x z Hx Hz. apply numeric_ok_cons in H2 as (_ & _ & H2). specialize (Ha x Hx).
    apply elem_of_cons in Hz as [->|Hz]; [done|]. eapply flt_trans; [done|]. by apply H2. }
  apply (values_skip _ _ a) in Hm; [|done]. destruct lit' as [|x lit'].
  { right. eexists. split; [done|]. destruct Hm as (Q1 & Q2 & Q3 & Q4). rewrite app_nil_r in Q1, Q4.
    rewrite app_assoc. split; [by apply numeric_ok_app|]. intros k. by rewrite <- Q4, vcount_app. }
  destruct (span_ok (fun k => fgt x.1 k) (y :: olit)) as (Ei & Hi & Hj).
  destruct (span (fun k => fgt x.1 k) (y :: olit)) as [ins olit'] eqn:Espan. cbn [fst snd] in *.
  rewrite Ei in Hm. apply values_insert in Hm; [|by intros z Hz; apply Hi].
  destruct (add_equal (x :: lit') olit') as [[d lit2] olit2] eqn:Ead.
  destruct (add_equal_ok _ _ _ _ _ _ _ Hm Ead) as (Hm2 & Hle & Hlt).
  left. exists (vsize lit2 + vsize olit2). eexists (_, _, _). split; [done|].
  split; [split; [done|]; by rewrite <- !app_assoc in *|].
  assert (length (y :: olit) = length ins + length olit')%nat as Elen by (by rewrite Ei, length_app).
  unfold vsize. rewrite length_app. destruct ins as [|z ins]; [|cbn in *; lia].
  destruct olit' as [|y' olit']; [done|]. cbn in Ei. injection Ei as <- <-.
  enough (feq x.1 y.1 = true) as He by (specialize (Hlt _ _ _ _ eq_refl eq_refl He); cbn in *; lia).
  apply flt_total.
  - apply numeric_ok_app in P2 as (_ & P2 & _). by apply numeric_ok_cons in P2 as [? _].
  - by apply numeric_ok_cons in H2 as [? _].
  - done.
  - done.
Qed.
End MergeValues.

Lemma merge_values_counts_witness :
  let l := [(dbl 1 0, 2); (dbl 5 (-1), 1)] in let o := [(dbl 1 0, 3); (dbl 7 0, 4)] in
  exists r, merge_values l o = Ret r /\ numeric_ok r /\
    forall k, u32 (vcount k r) = u32 (vcount k l + vcount k o).
Proof.
  intros l o. apply merge_values_counts.
  - split; repeat constructor.
  - split; repeat constructor.
  - vm_compute. done.
Defined.
