(* ===== verification/PropIdTable.v ===== *)
(** * Value ids of documents

Models mining-manager/group-manager/PropIdTable.h at the instance both of its
users have, [valueid_t = index_t = uint32_t]. One word per document holds no
value, one value, or (top bit set) the position of a counted list in a
second vector. *)
From S2P Require Import Prelude.

Definition INDEX_MSB : Z := 2 ^ 31.
Definition INDEX_MASK : Z := 2 ^ 31 - 1.

Record PropIdTable := IdTable { indexTable_ : list Z; multiValueTable_ : list Z }.

(** The default value of an index is 0; doc id 0 is reserved. *)
Definition new_id_table : PropIdTable := IdTable [0] [].

Definition id_clear (t : PropIdTable) : PropIdTable := IdTable (vresize 1 0 (indexTable_ t)) [].

Definition id_resize (num : Z) (t : PropIdTable) : PropIdTable :=
  IdTable (vresize num 0 (indexTable_ t)) (multiValueTable_ t).

(** [PropIdList]; the iterator is a position in the table's vector. *)
Record PropIdList := IdList { size_ : Z; singleValueId_ : Z; multiValueIter_ : Z }.

Definition no_ids : PropIdList := IdList 0 0 0.

(** [operator[]] of the list, on the vector its iterator points into. *)
Definition id_at (t : PropIdTable) (l : PropIdList) (i : Z) : res Z :=
  if size_ l <=? i then Ret 0
  else if size_ l =? 1 then Ret (singleValueId_ l)
  else vget (multiValueTable_ t) (multiValueIter_ l + i).

Definition getIdList (t : PropIdTable) (docId : Z) : res PropIdList :=
  if vsize (indexTable_ t) <=? docId then Ret no_ids
  else
    let* index := vget (indexTable_ t) docId in
    if negb (Z.land index INDEX_MSB =? 0) then
      let index := Z.land index INDEX_MASK in
      let* n := vget (multiValueTable_ t) index in
      Ret (IdList n 0 (index + 1))
    else if negb (index =? 0) then Ret (IdList 1 index 0)
    else Ret no_ids.

Definition getIdCount (t : PropIdTable) (docId : Z) : res Z :=
  if vsize (indexTable_ t) <=? docId then Ret 0
  else
    let* index := vget (indexTable_ t) docId in
    if negb (Z.land index INDEX_MSB =? 0) then vget (multiValueTable_ t) (Z.land index INDEX_MASK)
    else Ret (if index =? 0 then 0 else 1).

(** The table keeps the longer index vector when the function throws. *)
Definition setIdList (docId : Z) (ids : list Z) (t : PropIdTable) : res PropIdTable :=
  let index := if vsize (indexTable_ t) <=? docId
               then vresize (u32 (docId + 1)) 0 (indexTable_ t) else indexTable_ t in
  match ids with
  | [] => let* index := vset index docId 0 in Ret (IdTable index (multiValueTable_ t))
  | [inputId] =>
      if INDEX_MSB <=? inputId then Throw "property value id is out of range"
      else let* index := vset index docId inputId in Ret (IdTable index (multiValueTable_ t))
  | _ =>
      let valueTableSize := vsize (multiValueTable_ t) in
      if INDEX_MSB <=? valueTableSize then Throw "property value count is out of range"
      else
        let* index := vset index docId (u32 (Z.lor INDEX_MSB valueTableSize)) in
        Ret (IdTable index (multiValueTable_ t ++ u32 (vsize ids) :: ids))
  end.

(** The ids read one by one through [size] and [operator[]]. *)
Definition id_list (t : PropIdTable) (docId : Z) : res (list Z) :=
  let* l := getIdList t docId in
  let* r := mfold (fun i acc => let* x := id_at t l i in Ret (acc ++ [x])) (seqZ 0 (size_ l)) [] in
  Ret r.

Example id_table_ex :
  (let* t := setIdList 2 [7; 8; 9] new_id_table in
   let* t := setIdList 1 [5] t in
   let* t := setIdList 4 [1; 2] t in
   let* a := id_list t 1 in let* b := id_list t 2 in let* c := id_list t 3 in let* d := id_list t 4 in
   Ret [a; b; c; d]) = Ret [[5]; [7; 8; 9]; []; [1; 2]].
Proof. vm_compute. reflexivity. Qed.

(** ** The table as a function from documents to lists *)

(** The word [w] of a document stands for [ids]. *)
Definition word_ok (mv : list Z) (w : Z) (ids : list Z) : Prop :=
  match ids with
  | [] => w = 0
  | [i] => w = i /\ 0 < i < INDEX_MSB
  | _ => exists p, w = INDEX_MSB + p /\ 0 <= p < INDEX_MSB /\
      exists mv1 mv2, mv = mv1 ++ vsize ids :: ids ++ mv2 /\ vsize mv1 = p
  end.

Definition table_rep (t : PropIdTable) (f : Z -> list Z) : Prop :=
  (forall d, 0 <= d < vsize (indexTable_ t) ->
     exists w, vget (indexTable_ t) d = Ret w /\ word_ok (multiValueTable_ t) w (f d)) /\
  (forall d, vsize (indexTable_ t) <= d -> f d = []) /\ vsize (indexTable_ t) <= 2 ^ 32.

(** What a list of ids reads back as: a single id 0 is no id. *)
Definition stored (ids : list Z) : list Z := if decide (ids = [0]) then [] else ids.

Lemma land_msb p : 0 <= p < INDEX_MSB -> Z.land (INDEX_MSB + p) INDEX_MSB = INDEX_MSB /\
  Z.land (INDEX_MSB + p) INDEX_MASK = p /\ Z.land p INDEX_MSB = 0.
Proof.
  unfold INDEX_MSB, INDEX_MASK. intros Hp.
  assert (Z.land p (2 ^ 31) = 0) as H0.
  { apply Z.bits_inj'. intros n Hn. rewrite Z.land_spec, Z.bits_0, Z.pow2_bits_eqb by lia.
    destruct (Z.eqb_spec 31 n) as [<-|]; [|by rewrite andb_false_r].
    rewrite Z.testbit_odd, Z.shiftr_div_pow2, Z.div_small by lia. done. }
  assert (2 ^ 31 + p = Z.lor (2 ^ 31) p) as E.
  { rewrite <- Z.lxor_lor by (by rewrite Z.land_comm).
    rewrite Z.add_nocarry_lxor by (by rewrite Z.land_comm). done. }
  split; [|split; [|done]].
  - rewrite E, Z.land_lor_distr_l, H0, Z.land_diag, Z.lor_0_r. done.
  - change (2 ^ 31 - 1) with (Z.ones 31). rewrite Z.land_ones by lia.
    rewrite <- (Z.mod_add (2 ^ 31 + p) (-1)) by lia. replace (2 ^ 31 + p + -1 * 2 ^ 31) with p by lia.
    by apply Z.mod_small.
Qed.

Lemma lor_msb p : 0 <= p < INDEX_MSB -> u32 (Z.lor INDEX_MSB p) = INDEX_MSB + p.
Proof.
  intros Hp. destruct (land_msb p Hp) as (_ & _ & H0). unfold INDEX_MSB in *.
  rewrite <- Z.lxor_lor by (by rewrite Z.land_comm).
  rewrite <- Z.add_nocarry_lxor by (by rewrite Z.land_comm). apply u32_small. lia.
Qed.

Lemma new_id_table_rep : table_rep new_id_table (fun _ => []).
Proof.
  split; [|split; [done|]].
  - intros d Hd. exists 0. split; [|done]. unfold vsize in Hd. cbn in Hd. by assert (d = 0) as -> by lia.
  - vm_compute. done.
Qed.

(** Reading back the list of a document. *)
Lemma word_list mv w ids :
  word_ok mv w ids ->
  (if negb (Z.land w INDEX_MSB =? 0) then
     exists p, Z.land w INDEX_MASK = p /\ 2 <= vsize ids /\ vget mv p = Ret (vsize ids) /\
       forall i, 0 <= i < vsize ids -> vget mv (p + 1 + i) = vget ids i
   else w = 0 /\ ids = [] \/ w <> 0 /\ ids = [w]).
Proof.
  destruct ids as [|x [|y ids]]; cbn [word_ok].
  - intros ->. cbn. by left.
  - intros [-> Hx]. destruct (land_msb x ltac:(lia)) as (_ & _ & ->). cbn. right. split; [lia|done].
  - intros (p & -> & Hp & mv1 & mv2 & Hmv & Hl). destruct (land_msb p Hp) as (-> & Hm & _). cbn [Z.eqb negb].
    change (INDEX_MSB =? 0) with false. cbn [negb]. exists p. split; [done|].
    split; [rewrite !vsize_cons; pose proof (vsize_nonneg ids); lia|]. unfold vsize in Hl.
    split.
    + apply vget_Ret. split; [lia|]. rewrite Hmv. apply list_lookup_middle. lia.
    + intros i Hi. unfold vget. destruct (Z.ltb_spec (p + 1 + i) 0); [lia|]. destruct (Z.ltb_spec i 0); [lia|].
      rewrite Hmv. replace (Z.to_nat (p + 1 + i)) with (length mv1 + Datatypes.S (Z.to_nat i))%nat by lia.
      rewrite lookup_app_r by lia. replace (length mv1 + Datatypes.S (Z.to_nat i) - length mv1)%nat
        with (Datatypes.S (Z.to_nat i)) by lia.
      cbn [lookup list_lookup]. rewrite (lookup_app_l (x :: y :: ids)); [done|]. unfold vsize in Hi. lia.
Qed.

Lemma read_ids (f : Z -> res Z) ids :
  (forall i, 0 <= i < vsize ids -> f i = vget ids i) ->
  mfold (fun i acc => let* x := f i in Ret (acc ++ [x])) (seqZ 0 (vsize ids)) [] = Ret ids.
Proof.
  intros Hf.
  destruct (mfold_seqZ (fun i acc => let* x := f i in Ret (acc ++ [x]))
    (fun i acc => acc = take (Z.to_nat i) ids) 0 (vsize ids) []) as (r & -> & ->).
  - apply vsize_nonneg.
  - intros i acc Hi ->. rewrite Hf by lia. destruct (vget_in_range ids i ltac:(lia)) as [x Hx].
    rewrite Hx. rsimpl. eexists. split; [done|]. replace (Z.to_nat (i + 1)) with (Datatypes.S (Z.to_nat i)) by lia.
    apply vget_Ret in Hx as [_ Hx]. by rewrite (take_S_r _ _ x).
  - done.
  - f_equal. apply firstn_all2. unfold vsize. lia.
Qed.

Lemma id_list_rep t f d :
  table_rep t f -> 0 <= d -> id_list t d = Ret (f d) /\ getIdCount t d = Ret (vsize (f d)).
Proof.
  intros (Hw & Hout & _) Hd. unfold id_list, getIdList, getIdCount.
  destruct (Z.leb_spec (vsize (indexTable_ t)) d) as [Hge|Hlt].
  { rewrite (Hout d Hge). done. }
  destruct (Hw d ltac:(lia)) as (w & -> & Hok). apply word_list in Hok. cbn [res_bind].
  destruct (negb (Z.land w INDEX_MSB =? 0)).
  - destruct Hok as (p & -> & H2 & Hn & Hi). rewrite Hn. cbn [res_bind size_]. split; [|done].
    rewrite (read_ids (id_at t (IdList (vsize (f d)) 0 (p + 1))) (f d)); [done|].
    intros i Hi2. unfold id_at. cbn. destruct (Z.leb_spec (vsize (f d)) i); [lia|].
    destruct (Z.eqb_spec (vsize (f d)) 1); [lia|]. by apply Hi.
  - destruct Hok as [[-> ->]|[Hne ->]]; [done|]. destruct (Z.eqb_spec w 0); [done|]. done.
Qed.

(** The list and its [operator[]]. *)
Lemma getIdList_rep t f d :
  table_rep t f -> 0 <= d -> exists l, getIdList t d = Ret l /\ size_ l = vsize (f d) /\
    forall i, 0 <= i < vsize (f d) -> id_at t l i = vget (f d) i.
Proof.
  intros (Hw & Hout & _) Hd. unfold getIdList.
  destruct (Z.leb_spec (vsize (indexTable_ t)) d) as [Hge|Hlt].
  { rewrite (Hout d Hge). exists no_ids. split; [done|]. split; [done|]. unfold vsize. cbn. lia. }
  destruct (Hw d ltac:(lia)) as (w & -> & Hok). apply word_list in Hok. cbn [res_bind].
  destruct (negb (Z.land w INDEX_MSB =? 0)).
  - destruct Hok as (p & -> & H2 & Hn & Hi). rewrite Hn. cbn [res_bind]. eexists. split; [done|].
    split; [done|]. intros i Hi2. unfold id_at. cbn. destruct (Z.leb_spec (vsize (f d)) i); [lia|].
    destruct (Z.eqb_spec (vsize (f d)) 1); [lia|]. by apply Hi.
  - destruct Hok as [[-> ->]|[Hne ->]].
    + exists no_ids. split; [done|]. split; [done|]. unfold vsize. cbn. lia.
    + destruct (Z.eqb_spec w 0); [done|]. eexists. split; [done|]. split; [done|].
      intros i Hi. unfold vsize in Hi. cbn in Hi. assert (i = 0) as -> by lia. done.
Qed.

Lemma word_ok_app mv w ids l : word_ok mv w ids -> word_ok (mv ++ l) w ids.
Proof.
  destruct ids as [|x [|y ids]]; [done..|]. intros (p & -> & Hp & mv1 & mv2 & -> & Hl).
  exists p. split; [done|]. split; [done|]. exists mv1, (mv2 ++ l). split; [|done]. rewrite <- app_assoc. cbn. by rewrite <- app_assoc.
Qed.

(** A longer index vector adds documents without ids. *)
Lemma resize_rep t f num :
  table_rep t f -> vsize (indexTable_ t) <= num <= 2 ^ 32 ->
  table_rep (id_resize num t) f /\ vsize (indexTable_ (id_resize num t)) = num.
Proof.
  intros (Hw & Hout & Hsz) Hd. unfold id_resize. cbn [indexTable_]. set (v := indexTable_ t) in *.
  assert (vresize num 0 v = v ++ replicate (Z.to_nat (num - vsize v)) 0) as ->.
  { unfold vresize, vsize in *. rewrite firstn_all2 by lia. do 2 f_equal. lia. }
  assert (vsize (v ++ replicate (Z.to_nat (num - vsize v)) 0) = num) as Hs.
  { rewrite vsize_app. unfold vsize at 2. rewrite length_replicate. lia. }
  split; [|done]. split; [|split]; cbn [indexTable_ multiValueTable_].
  - intros k Hk. rewrite Hs in Hk. destruct (decide (k < vsize v)) as [Hkv|Hkv].
    + destruct (Hw k ltac:(lia)) as (w & E & Hok). exists w. split; [|done].
      apply vget_Ret in E as [H0 E]. apply vget_Ret. split; [lia|]. by apply lookup_app_l_Some.
    + exists 0. rewrite Hout by lia. split; [|done]. apply vget_Ret. split; [lia|].
      unfold vsize in *. rewrite lookup_app_r by lia. apply lookup_replicate_2. lia.
  - intros k Hk. apply Hout. lia.
  - lia.
Qed.

(** The index vector, grown to hold document [d]. *)
Lemma grow_rep t f d :
  table_rep t f -> 0 <= d < 2 ^ 32 - 1 ->
  exists index, (if vsize (indexTable_ t) <=? d then vresize (u32 (d + 1)) 0 (indexTable_ t) else indexTable_ t) = index /\
    d < vsize index /\ table_rep (IdTable index (multiValueTable_ t)) f.
Proof.
  intros Ht Hd. destruct (Z.leb_spec (vsize (indexTable_ t)) d) as [Hge|Hlt].
  - eexists. split; [done|]. rewrite u32_small by lia. destruct (resize_rep t f (d + 1) Ht) as [Hr Hs]; [lia|].
    unfold id_resize in *. cbn [indexTable_] in Hs. split; [lia|exact Hr].
  - eexists. split; [done|]. split; [done|]. by destruct t.
Qed.

Lemma set_word t f d w ids mv' :
  table_rep t f -> 0 <= d < vsize (indexTable_ t) ->
  word_ok mv' w ids -> (exists l, mv' = multiValueTable_ t ++ l) ->
  exists index, vset (indexTable_ t) d w = Ret index /\
    table_rep (IdTable index mv') (fun k => if k =? d then ids else f k).
Proof.
  intros (Hw & Hout & Hsz) Hd Hok [l ->]. rewrite vset_Ret by done. eexists. split; [done|].
  assert (vsize (<[Z.to_nat d:=w]> (indexTable_ t)) = vsize (indexTable_ t)) as Hs
    by (unfold vsize; by rewrite length_insert).
  split; [|split]; cbn [indexTable_ multiValueTable_].
  - intros k Hk. rewrite Hs in Hk. destruct (Z.eqb_spec k d) as [->|Hne].
    + exists w. split; [|done]. apply vget_Ret. split; [lia|]. apply list_lookup_insert_eq. unfold vsize in *. lia.
    + destruct (Hw k Hk) as (w' & E & Hok'). exists w'. split; [|by apply word_ok_app].
      apply vget_Ret in E as [H0 E]. apply vget_Ret. split; [lia|]. by rewrite list_lookup_insert_ne by lia.
  - intros k Hk. rewrite Hs in Hk. destruct (Z.eqb_spec k d); [lia|]. by apply Hout.
  - by rewrite Hs.
Qed.

(** The table is well formed. *)
Definition id_ok (t : PropIdTable) : Prop := exists f, table_rep t f.

Lemma setIdList_size t d ids t' : setIdList d ids t = Ret t' ->
  vsize (multiValueTable_ t') <= vsize (multiValueTable_ t) + vsize ids + 1.
Proof.
  unfold setIdList. pose proof (vsize_nonneg ids). destruct ids as [|x [|y ids]].
  - intros (index & _ & [= <-])%bind_Ret_inv. cbn. lia.
  - destruct (INDEX_MSB <=? x); [done|]. intros (index & _ & [= <-])%bind_Ret_inv. cbn. lia.
  - destruct (INDEX_MSB <=? _); [done|]. intros (index & _ & [= <-])%bind_Ret_inv. cbn [multiValueTable_].
    rewrite vsize_app, vsize_cons. lia.
Qed.

(** The list of a document behind all others lets both vectors grow. *)
Lemma setIdList_grows t d ids t' : setIdList d ids t = Ret t' -> vsize (indexTable_ t) <= d < 2 ^ 32 - 1 ->
  indexTable_ t `prefix_of` indexTable_ t' /\ multiValueTable_ t `prefix_of` multiValueTable_ t'.
Proof.
  intros H Hd. pose proof (vsize_nonneg (indexTable_ t)).
  unfold setIdList in H. rewrite (proj2 (Z.leb_le _ _)), u32_small in H by lia.
  assert (forall x index, vset (vresize (d + 1) 0 (indexTable_ t)) d x = Ret index -> indexTable_ t `prefix_of` index) as Hix.
  { intros x index Hx. unfold vset in Hx. destruct (_ && _); [|done]. injection Hx as <-. unfold vresize, vsize in *.
    rewrite firstn_all2, insert_app_r_alt by lia. by apply prefix_app_r. }
  destruct ids as [|x [|y ids]].
  - apply bind_Ret_inv in H as (index & E & [= <-]). split; [by eapply Hix|done].
  - destruct (INDEX_MSB <=? x); [done|]. apply bind_Ret_inv in H as (index & E & [= <-]). split; [by eapply Hix|done].
  - destruct (INDEX_MSB <=? _); [done|]. apply bind_Ret_inv in H as (index & E & [= <-]).
    split; [by eapply Hix|by apply prefix_app_r].
Qed.

Lemma setIdList_rep t f d ids :
  table_rep t f -> 0 <= d < 2 ^ 32 - 1 -> Forall (fun i => 0 <= i < 2 ^ 32) ids -> vsize ids < 2 ^ 32 ->
  (exists t', setIdList d ids t = Ret t' /\
    table_rep t' (fun k => if k =? d then stored ids else f k)) \/
  ((exists i, ids = [i] /\ INDEX_MSB <= i) \/ 2 <= vsize ids /\ INDEX_MSB <= vsize (multiValueTable_ t)) /\
    exists what, setIdList d ids t = Throw what.
Proof.
  intros Ht Hd Hids Hn. unfold setIdList.
  destruct (grow_rep t f d Ht Hd) as (index & -> & Hdi & Hg). cbv zeta.
  destruct ids as [|x [|y ids]].
  - left. destruct (set_word _ f d 0 [] (multiValueTable_ t) Hg) as (idx & E & Hr);
      [cbn; lia|done|exists []; by rewrite app_nil_r|].
    cbn in E. rewrite E. cbn [res_bind]. eauto.
  - destruct (Z.leb_spec INDEX_MSB x) as [Hx|Hx]; [right; eauto 10|]. left.
    apply Forall_cons in Hids as [Hx0 _].
    destruct (set_word _ f d x (stored [x]) (multiValueTable_ t) Hg) as (idx & E & Hr);
      [cbn; lia| |exists []; by rewrite app_nil_r|cbn in E; rewrite E; cbn [res_bind]; eauto].
    unfold stored. case_decide as Hx1; cbn; [congruence|]. split; [done|].
    assert (x <> 0) by congruence. lia.
  - assert (stored (x :: y :: ids) = x :: y :: ids) as -> by (unfold stored; by rewrite decide_False by done).
    set (l := x :: y :: ids) in *. assert (2 <= vsize l) as H2.
    { unfold l. rewrite !vsize_cons. pose proof (vsize_nonneg ids). lia. }
    destruct (Z.leb_spec INDEX_MSB (vsize (multiValueTable_ t))) as [Hx|Hx]; [right; eauto 10|]. left.
    pose proof (vsize_nonneg (multiValueTable_ t)). rewrite lor_msb by lia. rewrite u32_small by lia.
    destruct (set_word _ f d (INDEX_MSB + vsize (multiValueTable_ t)) l (multiValueTable_ t ++ vsize l :: l) Hg)
      as (idx & E & Hr); [cbn; lia| |by exists (vsize l :: l)|cbn in E; rewrite E; cbn [res_bind]; by eauto].
    exists (vsize (multiValueTable_ t)). split; [done|]. split; [lia|].
    exists (multiValueTable_ t), []. by rewrite app_nil_r.
Qed.

(** Storing the value ids of a document makes exactly that document read
    back as these ids (a single id 0 reads back as none) and leaves every other
    document's list and count as they were; the only errors are a single id of
    31 bits or more and a list vector of 2^31 words, reported by exceptions. *)
Theorem setIdList_get t d ids :
  id_ok t -> 0 <= d < 2 ^ 32 - 1 -> Forall (fun i => 0 <= i < 2 ^ 32) ids -> vsize ids < 2 ^ 32 ->
  (exists t', setIdList d ids t = Ret t' /\ id_ok t' /\
    forall k, 0 <= k ->
      id_list t' k = (if k =? d then Ret (stored ids) else id_list t k) /\
      getIdCount t' k = (if k =? d then Ret (vsize (stored ids)) else getIdCount t k)) \/
  ((exists i, ids = [i] /\ INDEX_MSB <= i) \/ 2 <= vsize ids /\ INDEX_MSB <= vsize (multiValueTable_ t)) /\
    exists what, setIdList d ids t = Throw what.
Proof.
  intros [f Hf] Hd Hids Hn. destruct (setIdList_rep t f d ids Hf Hd Hids Hn) as [(t' & E & Ht')|H]; [left|by right].
  exists t'. split; [done|]. split; [by eexists|]. intros k Hk.
  destruct (id_list_rep _ _ k Ht' Hk) as [-> ->], (id_list_rep _ _ k Hf Hk) as [-> ->].
  by destruct (k =? d).
Qed.

Lemma setIdList_get_witness :
  (exists t', setIdList 3 [4; 5] new_id_table = Ret t' /\ id_ok t' /\
    forall k, 0 <= k ->
      id_list t' k = (if k =? 3 then Ret (stored [4; 5]) else id_list new_id_table k) /\
      getIdCount t' k = (if k =? 3 then Ret (vsize (stored [4; 5])) else getIdCount new_id_table k)) \/
  ((exists i, [4; 5] = [i] /\ INDEX_MSB <= i) \/
     2 <= vsize [4; 5] /\ INDEX_MSB <= vsize (multiValueTable_ new_id_table)) /\
    exists what, setIdList 3 [4; 5] new_id_table = Throw what.
Proof.
  apply setIdList_get.
  - eexists. apply new_id_table_rep.
  - lia.
  - repeat constructor; lia.
  - reflexivity.
Defined.
