(* ===== verification/PropValueTable.v ===== *)
(** * The values of a group property

Models mining-manager/group-manager/PropValueTable.{h,cpp}: a tree of
property values (string, parent and children of each id) and the value ids of
each document. Locks guard whole operations and are not modelled; the
text type is a parameter. *)
From S2P Require Import Prelude OrdMap PropIdTable Storage.

Record PropValueTable (T : Type) := ValueTable {
  propStrVec_ : list T;
  savePropStrNum_ : Z;
  parentIdVec_ : list Z;
  saveParentIdNum_ : Z;
  childMapTable_ : list (list (T * Z));
  valueIdTable_ : PropIdTable;
  saveIndexNum_ : Z;
  saveValueNum_ : Z
}.
Arguments ValueTable {_} _ _ _ _ _ _ _ _.
Arguments propStrVec_ {_} _.
Arguments savePropStrNum_ {_} _.
Arguments parentIdVec_ {_} _.
Arguments saveParentIdNum_ {_} _.
Arguments childMapTable_ {_} _.
Arguments valueIdTable_ {_} _.
Arguments saveIndexNum_ {_} _.
Arguments saveValueNum_ {_} _.

(** The files of one table. *)
Record table_files (T : Type) := Files {
  prop_str_file : file T;
  parent_id_file : file Z;
  index_id_file : file Z;
  value_id_file : file Z;
  parent_str_file : file (Z * T * Z)
}.
Arguments Files {_} _ _ _ _ _.
Arguments prop_str_file {_} _.
Arguments parent_id_file {_} _.
Arguments index_id_file {_} _.
Arguments value_id_file {_} _.
Arguments parent_str_file {_} _.

Section PropValueTable.
Context {T : Type} `{!TextOrder T} (empty_text : T).
Implicit Types (t : PropValueTable T).

(** Id 0 is reserved for the empty value. *)
Definition new_value_table : PropValueTable T :=
  ValueTable [empty_text] 0 [0] 0 [[]] new_id_table 0 0.

(** [operator=] of two different tables, and [t.swap(other)]. *)
Definition value_assign t (other : PropValueTable T) : PropValueTable T :=
  ValueTable (propStrVec_ other) (savePropStrNum_ other) (parentIdVec_ other) (saveParentIdNum_ other)
    (childMapTable_ other) (valueIdTable_ other) (saveIndexNum_ other) (saveValueNum_ other).
Definition value_swap t (other : PropValueTable T) : PropValueTable T * PropValueTable T := (other, t).

Definition value_docIdNum t : Z := vsize (indexTable_ (valueIdTable_ t)).

Definition value_resize (num : Z) t : PropValueTable T :=
  ValueTable (propStrVec_ t) (savePropStrNum_ t) (parentIdVec_ t) (saveParentIdNum_ t)
    (childMapTable_ t) (id_resize num (valueIdTable_ t)) (saveIndexNum_ t) (saveValueNum_ t).

Definition setPropIdList (docId : Z) (inputIdList : list Z) t : res (PropValueTable T) :=
  let* ids := setIdList docId inputIdList (valueIdTable_ t) in
  Ret (ValueTable (propStrVec_ t) (savePropStrNum_ t) (parentIdVec_ t) (saveParentIdNum_ t)
         (childMapTable_ t) ids (saveIndexNum_ t) (saveValueNum_ t)).

Definition propValueStr (pvId : Z) t : res T := vget (propStrVec_ t) pvId.

(** One node of the path of [insertPropValueId]. *)
Definition insert_node (node : T) (st : Z * PropValueTable T) : res (Z * PropValueTable T) :=
  let (pvId, t) := st in
  let* children := vget (childMapTable_ t) pvId in
  match om_find children node with
  | Some id => Ret (id, t)
  | None =>
      let id := u32 (vsize (propStrVec_ t)) in
      if negb (id =? 0) then
        let* table := vset (childMapTable_ t) pvId (om_insert children node id).1 in
        Ret (id, ValueTable (propStrVec_ t ++ [node]) (savePropStrNum_ t) (parentIdVec_ t ++ [pvId])
                   (saveParentIdNum_ t) (table ++ [[]]) (valueIdTable_ t) (saveIndexNum_ t) (saveValueNum_ t))
      else Throw "property value count is out of range"
  end.

Definition insertPropValueId (path : list T) t : res (Z * PropValueTable T) :=
  mfold insert_node path (0, t).

Fixpoint find_path (path : list T) (pvId : Z) t : res Z :=
  match path with
  | [] => Ret pvId
  | node :: path =>
      let* children := vget (childMapTable_ t) pvId in
      match om_find children node with
      | Some id => find_path path id t
      | None => Ret 0
      end
  end.

Definition propValueId (path : list T) t : res Z := find_path path 0 t.

(** for (; pvId; pvId = parentIdVec_[pvId]) path.push_back(propStrVec_[pvId]); *)
Definition path_body t (st : Z * list T) : res (Z * list T + list T) :=
  let (pvId, path) := st in
  if pvId =? 0 then Ret (inr path)
  else
    let* s := vget (propStrVec_ t) pvId in
    let* parent := vget (parentIdVec_ t) pvId in
    Ret (inl (parent, path ++ [s])).

(** The path given is extended and then reversed as a whole. *)
Definition propValuePath (pvId : Z) (path : list T) t : res (list T) :=
  let* path := while_loop (path_body t) (pvId, path) in Ret (rev path).

Definition parents_body t (st : Z * list Z) : res (Z * list Z + list Z) :=
  let (pvId, parentIds) := st in
  if pvId =? 0 then Ret (inr parentIds)
  else
    let* parent := vget (parentIdVec_ t) pvId in
    Ret (inl (parent, parentIds ++ [pvId])).

Definition getParentIds (pvId : Z) t : res (list Z) := while_loop (parents_body t) (pvId, []).

Definition root_body t (st : Z * Z) : res (Z * Z + Z) :=
  let (pvId, rootId) := st in
  if pvId =? 0 then Ret (inr rootId)
  else let* parent := vget (parentIdVec_ t) pvId in Ret (inl (parent, pvId)).

Definition getRootValueId (pvId : Z) t : res Z := while_loop (root_body t) (pvId, 0).

Definition getPropIdList (docId : Z) t : res PropIdList := getIdList (valueIdTable_ t) docId.

Definition getFirstValueId (docId : Z) t : res Z :=
  let* l := getPropIdList docId t in
  if size_ l =? 0 then Ret 0 else id_at (valueIdTable_ t) l 0.

(** The inner loop of [parentIdSet]: stop when the id was inserted before. *)
Definition ancestors_body t (st : Z * gset Z) : res (Z * gset Z + gset Z) :=
  let (pvId, parentSet) := st in
  if pvId =? 0 then Ret (inr parentSet)
  else if bool_decide (pvId ∈ parentSet) then Ret (inr parentSet)
  else
    let* parent := vget (parentIdVec_ t) pvId in
    Ret (inl (parent, {[pvId]} ∪ parentSet)).

Definition parentIdSet (docId : Z) (parentSet : gset Z) t : res (gset Z) :=
  let* l := getPropIdList docId t in
  mfold (fun i parentSet =>
    let* pvId := id_at (valueIdTable_ t) l i in
    while_loop (ancestors_body t) (pvId, parentSet)) (seqZ 0 (size_ l)) parentSet.

Definition testDoc (docId labelId : Z) t : res bool :=
  let* parentSet := parentIdSet docId ∅ t in Ret (bool_decide (labelId ∈ parentSet)).

Definition value_clear t : PropValueTable T :=
  ValueTable (vresize 1 empty_text (propStrVec_ t)) 0 (vresize 1 0 (parentIdVec_ t)) 0 [[]]
    (id_clear (valueIdTable_ t)) 0 0.

(** *** Persistence *)

(** [saveParentId_]: the text file with id, string and parent of each value. *)
Definition saveParentId_ (can_write : bool) t (fs : table_files T) : bool * table_files T :=
  let valueNum := u32 (vsize (propStrVec_ t)) in
  if negb (valueNum =? vsize (parentIdVec_ t)) then (false, fs)
  else if valueNum <=? savePropStrNum_ t then (true, fs)
  else if can_write then
    (true, Files (prop_str_file fs) (parent_id_file fs) (index_id_file fs) (value_id_file fs)
             (Content (imap (fun i '(s, p) => (Z.of_nat i + 1, s, p))
                        (tail (combine (propStrVec_ t) (parentIdVec_ t))))))
  else (false, fs).

(** [flush]; [can_write] tells which of the five files can be written. *)
Definition flush (can_write : bool * bool * bool * bool * bool) t (fs : table_files T)
  : bool * PropValueTable T * table_files T :=
  let '(w0, w1, w2, w3, w4) := can_write in
  let (ok, fs) := saveParentId_ w0 t fs in
  if negb ok then (false, t, fs) else
  let '(ok, n1, f1) := save_grown w1 (propStrVec_ t) (savePropStrNum_ t) (prop_str_file fs) in
  let t := ValueTable (propStrVec_ t) n1 (parentIdVec_ t) (saveParentIdNum_ t)
             (childMapTable_ t) (valueIdTable_ t) (saveIndexNum_ t) (saveValueNum_ t) in
  let fs := Files f1 (parent_id_file fs) (index_id_file fs) (value_id_file fs) (parent_str_file fs) in
  if negb ok then (false, t, fs) else
  let '(ok, n2, f2) := save_grown w2 (parentIdVec_ t) (saveParentIdNum_ t) (parent_id_file fs) in
  let t := ValueTable (propStrVec_ t) n1 (parentIdVec_ t) n2
             (childMapTable_ t) (valueIdTable_ t) (saveIndexNum_ t) (saveValueNum_ t) in
  let fs := Files f1 f2 (index_id_file fs) (value_id_file fs) (parent_str_file fs) in
  if negb ok then (false, t, fs) else
  let '(ok, n3, f3) := save_grown w3 (indexTable_ (valueIdTable_ t)) (saveIndexNum_ t) (index_id_file fs) in
  let t := ValueTable (propStrVec_ t) n1 (parentIdVec_ t) n2
             (childMapTable_ t) (valueIdTable_ t) n3 (saveValueNum_ t) in
  let fs := Files f1 f2 f3 (value_id_file fs) (parent_str_file fs) in
  if negb ok then (false, t, fs) else
  let '(ok, n4, f4) := save_grown w4 (multiValueTable_ (valueIdTable_ t)) (saveValueNum_ t) (value_id_file fs) in
  let t := ValueTable (propStrVec_ t) n1 (parentIdVec_ t) n2 (childMapTable_ t) (valueIdTable_ t) n3 n4 in
  (ok, t, Files f1 f2 f3 f4 (parent_str_file fs)).

(** childMapTable_[parentId][valueStr] = i, for every value. *)
Definition load_children (propStr : list T) (parents : list Z) : res (list (list (T * Z))) :=
  let valueNum := u32 (vsize propStr) in
  mfold (fun i table =>
    let* parentId := vget parents i in
    let* valueStr := vget propStr i in
    let* children := vget table parentId in
    vset table parentId (om_set children valueStr i))
    (seqZ 1 (valueNum - 1)) (replicate (Z.to_nat valueNum) []).

Definition open (t : PropValueTable T) (fs : table_files T) : res (bool * PropValueTable T) :=
  let '(ok, s, n1) := load_counted (prop_str_file fs) (propStrVec_ t) (savePropStrNum_ t) in
  let t := ValueTable s n1 (parentIdVec_ t) (saveParentIdNum_ t)
             (childMapTable_ t) (valueIdTable_ t) (saveIndexNum_ t) (saveValueNum_ t) in
  if negb ok then Ret (false, t) else
  let '(ok, p, n2) := load_counted (parent_id_file fs) (parentIdVec_ t) (saveParentIdNum_ t) in
  let t := ValueTable s n1 p n2 (childMapTable_ t) (valueIdTable_ t) (saveIndexNum_ t) (saveValueNum_ t) in
  if negb ok then Ret (false, t) else
  let '(ok, ix, n3) := load_counted (index_id_file fs) (indexTable_ (valueIdTable_ t)) (saveIndexNum_ t) in
  let t := ValueTable s n1 p n2 (childMapTable_ t)
             (IdTable ix (multiValueTable_ (valueIdTable_ t))) n3 (saveValueNum_ t) in
  if negb ok then Ret (false, t) else
  let '(ok, mv, n4) := load_counted (value_id_file fs) (multiValueTable_ (valueIdTable_ t)) (saveValueNum_ t) in
  let t := ValueTable s n1 p n2 (childMapTable_ t) (IdTable ix mv) n3 n4 in
  if negb ok then Ret (false, t) else
  if negb (u32 (vsize s) =? vsize p) then Ret (false, t)
  else
    let* table := load_children s p in
    Ret (true, ValueTable s n1 p n2 table (IdTable ix mv) n3 n4).
End PropValueTable.

Example value_table_ex :
  (let* (a, t) := insertPropValueId [10; 20; 30] (new_value_table 0) in
   let* (b, t) := insertPropValueId [10; 40] t in
   let* t := setPropIdList 1 [a] t in
   let* t := setPropIdList 2 [b; a] t in
   let* p := propValuePath a [] t in let* q := getParentIds a t in let* r := getRootValueId b t in
   let* x := testDoc 1 b t in let* y := testDoc 2 b t in let* z := testDoc 2 1 t in
   Ret (a, b, p, q, r, [x; y; z])) = Ret (3, 4, [10; 20; 30], [3; 2; 1], 1, [false; true; true]).
Proof. vm_compute. reflexivity. Qed.

(** ** The tree of values *)
Section ValueProofs.
Context {T : Type} `{!TextOrder T} (empty_text : T).
Implicit Types (t : PropValueTable T).

Definition value_num t : Z := vsize (propStrVec_ t).

(** Parents come before their children, and the child maps hold exactly the
    edges. *)
Definition tree_ok t : Prop :=
  1 <= value_num t < 2 ^ 32 /\
  vsize (parentIdVec_ t) = value_num t /\ vsize (childMapTable_ t) = value_num t /\
  (forall id, 0 < id < value_num t -> exists p, vget (parentIdVec_ t) id = Ret p /\ 0 <= p < id) /\
  edges 0 (propStrVec_ t) (parentIdVec_ t) (childMapTable_ t) (value_num t).

Lemma new_tree_ok : tree_ok (new_value_table empty_text).
Proof.
  split; [unfold value_num, vsize; cbn; lia|]. split; [done|]. split; [done|]. split.
  - unfold value_num, vsize. cbn. lia.
  - intros p Hp. unfold vsize in Hp. cbn in Hp. assert (p = 0) as -> by lia. exists []. split; [done|].
    split; [constructor|]. intros s id. cbn. split; [done|]. unfold value_num, vsize. cbn. lia.
Qed.

(** What an insertion keeps: the values there were. *)
Definition extends t t' : Prop :=
  value_num t <= value_num t' /\
  (forall id, 0 < id < value_num t -> vget (propStrVec_ t') id = vget (propStrVec_ t) id /\
     vget (parentIdVec_ t') id = vget (parentIdVec_ t) id) /\
  (forall p s m id, vget (childMapTable_ t) p = Ret m -> om_find m s = Some id ->
     exists m', vget (childMapTable_ t') p = Ret m' /\ om_find m' s = Some id) /\
  valueIdTable_ t' = valueIdTable_ t.

Lemma extends_refl t : extends t t.
Proof. split; [lia|]. split; [done|]. split; [|done]. intros. by eexists. Qed.

Lemma extends_trans t1 t2 t3 : extends t1 t2 -> extends t2 t3 -> extends t1 t3.
Proof.
  intros (A1 & A2 & A3 & A4) (B1 & B2 & B3 & B4). split; [lia|]. split; [|split; [|congruence]].
  - intros id Hid. destruct (A2 id Hid), (B2 id ltac:(lia)). split; congruence.
  - intros p s m id Hm Hf. destruct (A3 p s m id Hm Hf) as (m' & Hm' & Hf'). by eapply B3.
Qed.

Lemma insert_node_ok t pvId node :
  tree_ok t -> 0 <= pvId < value_num t -> value_num t + 1 < 2 ^ 32 ->
  exists id t', insert_node node (pvId, t) = Ret (id, t') /\ tree_ok t' /\ extends t t' /\
    0 < id < value_num t' /\ value_num t' <= value_num t + 1 /\
    vget (parentIdVec_ t') id = Ret pvId /\ vget (propStrVec_ t') id = Ret node.
Proof.
  intros Ht Hid Hbig. pose proof Ht as (Hn & Hp & Hc & Hpar & He). unfold insert_node.
  destruct (He pvId ltac:(lia)) as (m & Em & Hs & Hm). rewrite Em. cbn [res_bind].
  destruct (om_find m node) as [id|] eqn:Ef.
  { apply Hm in Ef as (H1 & H2 & H3). exists id, t. split; [done|]. split; [exact Ht|].
    split; [apply extends_refl|]. split_and!; done || lia. }
  fold (value_num t). rewrite u32_small by lia. destruct (Z.eqb_spec (value_num t) 0) as [|_]; [lia|]. cbn [negb].
  unfold om_insert. rewrite Ef. cbn [fst]. set (n := value_num t) in *.
  set (strs := propStrVec_ t ++ [node]). set (parents := parentIdVec_ t ++ [pvId]).
  assert (forall id, 0 <= id < n -> vget strs id = vget (propStrVec_ t) id /\
    vget parents id = vget (parentIdVec_ t) id) as Hold.
  { intros id Hi. unfold strs, parents. rewrite !vget_app_l by (rewrite ?Hp; done || lia). done. }
  assert (vget parents n = Ret pvId) as Hnp by (unfold parents; rewrite <- Hp; apply vget_app_last).
  assert (vget strs n = Ret node) as Hns by apply vget_app_last.
  destruct (edges_add 0 strs parents (childMapTable_ t) n pvId node) as (m' & table & Em' & Et & Hts & He');
    [lia|lia|done|done|by eapply edges_frame; [|exact He]; intros; apply Hold; lia| |].
  { intros id Hi E1 E2. destruct (Hold id ltac:(lia)) as [H1 H2]. rewrite H1, Hns in E2. rewrite H2, Hnp in E1.
    assert (om_find m node = Some id) by (by apply Hm). congruence. }
  rewrite Em in Em'. injection Em' as <-. rewrite Et. cbn [res_bind].
  eexists n, _. split; [done|]. unfold value_num; cbn [propStrVec_ parentIdVec_ childMapTable_].
  assert (vsize strs = n + 1) as Hsz by (unfold strs; by rewrite vsize_app).
  split; [|split; [|split_and!; done || lia]].
  - unfold tree_ok, value_num; cbn [propStrVec_ parentIdVec_ childMapTable_]. fold strs parents. rewrite Hsz.
    split; [lia|]. split; [unfold parents; by rewrite vsize_app, Hp|]. split; [by rewrite vsize_app, Hts, Hc|].
    assert (forall id, 0 < id < n + 1 -> exists p, vget parents id = Ret p /\ 0 <= p < id) as Hpar'.
    { intros id Hi. destruct (decide (id = n)) as [->|Hne]; [exists pvId; split; [done|lia]|].
      destruct (Hpar id ltac:(lia)) as (p & E & Hlt). exists p. split; [|done]. by rewrite (proj2 (Hold id ltac:(lia))). }
    split; [done|]. apply edges_new_group; [|done]. intros id Hi. destruct (Hpar' id Hi) as (p & E & Hlt).
    rewrite E, Hts, Hc. intros [= ->]. lia.
  - unfold extends, value_num; cbn [propStrVec_ parentIdVec_ childMapTable_ valueIdTable_]. fold strs parents.
    change (vsize (propStrVec_ t)) with n. split; [lia|]. split; [intros id Hi; apply Hold; lia|]. split; [|done].
    intros p s mp id Emp Hf. destruct (decide (0 <= p < n)) as [Hpn|Hpn]; cycle 1.
    { apply vget_Ret in Emp as [H0 Emp]. apply lookup_lt_Some in Emp. unfold vsize in Hc. lia. }
    rewrite vget_app_l by lia. rewrite (vget_vset _ _ _ _ _ Et) by lia.
    destruct (Z.eqb_spec p pvId) as [->|]; [|by exists mp]. eexists. split; [done|].
    rewrite Em in Emp. injection Emp as <-. rewrite om_find_set_ne; [done|done|]. intros ->. congruence.
Qed.

(** *** Paths *)
Definition edge t (p : Z) (s : T) (id : Z) : Prop :=
  0 < id < value_num t /\ vget (parentIdVec_ t) id = Ret p /\ vget (propStrVec_ t) id = Ret s.

Fixpoint path_to t (p : Z) (path : list T) (id : Z) : Prop :=
  match path with
  | [] => id = p
  | s :: path => exists c, edge t p s c /\ path_to t c path id
  end.

Lemma edge_extends t t' p s id : extends t t' -> edge t p s id -> edge t' p s id.
Proof.
  intros (H1 & H2 & _) (H3 & H4 & H5). destruct (H2 id H3) as [E1 E2].
  split; [lia|]. split; congruence.
Qed.

Lemma path_extends t t' path : forall p id, extends t t' -> path_to t p path id -> path_to t' p path id.
Proof.
  induction path as [|s path IH]; intros p id He H; [done|]. destruct H as (c & Hc & H).
  exists c. split; [by eapply edge_extends|]. by apply IH.
Qed.

Lemma path_to_app t path : forall p path2 id,
  path_to t p (path ++ path2) id <-> exists c, path_to t p path c /\ path_to t c path2 id.
Proof.
  induction path as [|s path IH]; intros p path2 id; cbn.
  - split; [by exists p|]. by intros (c & -> & H).
  - split.
    + intros (c & Hc & H). apply IH in H as (d & H1 & H2). exists d. split; [|done]. by exists c.
    + intros (d & (c & Hc & H1) & H2). exists c. split; [done|]. apply IH. by exists d.
Qed.

Lemma insert_path path : forall t pvId,
  tree_ok t -> 0 <= pvId < value_num t -> value_num t + vsize path < 2 ^ 32 ->
  exists id t', mfold insert_node path (pvId, t) = Ret (id, t') /\ tree_ok t' /\ extends t t' /\
    0 <= id < value_num t' /\ path_to t' pvId path id /\ value_num t' <= value_num t + vsize path.
Proof.
  induction path as [|s path IH]; intros t pvId Ht Hp Hn.
  { exists pvId, t. split; [done|]. split; [done|]. split; [apply extends_refl|]. split; [done|]. split; [done|]. unfold vsize. cbn. lia. }
  rewrite vsize_cons in Hn. pose proof (vsize_nonneg path).
  destruct (insert_node_ok t pvId s Ht Hp ltac:(lia)) as (c & t1 & E & Ht1 & Hx & Hc & Hn1 & Hpar & Hstr).
  cbn [mfold]. rewrite E. cbn [res_bind].
  destruct (IH t1 c Ht1 ltac:(lia) ltac:(lia)) as (id & t2 & E2 & Ht2 & Hx2 & Hid & Hpath & Hn2).
  exists id, t2. split; [done|]. split; [done|]. split; [by eapply extends_trans|]. split; [done|]. rewrite vsize_cons. split; [|lia].
  exists c. split; [|done]. apply (edge_extends t1); done.
Qed.

(** A path that is in the tree is found, and inserting it changes nothing. *)
Lemma find_path_ok path : forall t p id,
  tree_ok t -> 0 <= p < value_num t -> path_to t p path id ->
  find_path path p t = Ret id /\ mfold insert_node path (p, t) = Ret (id, t).
Proof.
  induction path as [|s path IH]; intros t p id Ht Hp H; cbn [find_path mfold]; [by rewrite H|].
  destruct H as (c & Hc & H). pose proof Ht as (_ & _ & Hch & _ & He).
  destruct (He p ltac:(lia)) as (m & Em & _ & Hm).
  assert (om_find m s = Some c) as Ef by (by apply Hm).
  assert (insert_node s (p, t) = Ret (c, t)) as -> by (unfold insert_node; rewrite Em; cbn [res_bind]; by rewrite Ef).
  rewrite Em. cbn [res_bind]. rewrite Ef.
  destruct Hc as (Hc & _). by apply IH; [|lia|].
Qed.

Lemma find_path_inv path : forall t p id,
  tree_ok t -> 0 <= p < value_num t -> find_path path p t = Ret id -> id <> 0 -> path_to t p path id.
Proof.
  induction path as [|s path IH]; intros t p id Ht Hp H Hid; cbn [find_path] in H; [by injection H|].
  pose proof Ht as (_ & _ & Hch & _ & He). destruct (He p ltac:(lia)) as (m & Em & _ & Hm).
  rewrite Em in H. cbn [res_bind] in H. destruct (om_find m s) as [c|] eqn:Ef; [|congruence].
  apply Hm in Ef. exists c. split; [done|]. destruct Ef as (Hc & _). apply IH; [done|lia|done|done].
Qed.

Lemma find_path_total path : forall t p,
  tree_ok t -> 0 <= p < value_num t -> exists id, find_path path p t = Ret id /\ 0 <= id < value_num t.
Proof.
  induction path as [|s path IH]; intros t p Ht Hp; cbn [find_path]; [by exists p|].
  pose proof Ht as (Hn & _ & Hch & _ & He). destruct (He p ltac:(lia)) as (m & -> & _ & Hm). cbn [res_bind].
  destruct (om_find m s) as [c|] eqn:Ef; [|exists 0; split; [done|lia]]. apply Hm in Ef as (Hc & _). apply IH; [done|lia].
Qed.

Lemma propValuePath_ok t path id acc :
  tree_ok t -> path_to t 0 path id -> vsize path < 2 ^ 64 ->
  propValuePath id acc t = Ret (path ++ rev acc).
Proof.
  intros Ht Hp Hn. unfold propValuePath.
  destruct (while_loop_rule (path_body t)
    (fun q st => path_to t 0 q st.1 /\ exists r, path = q ++ r /\ st.2 = acc ++ rev r) (fun q => vsize q)
    (fun l => l = acc ++ rev path)) with (g := path) (s := (id, acc)) as (b & -> & ->).
  - intros q [c l] [Hq (r & Hr & Hl)]. cbn [fst snd] in *. split; [apply vsize_nonneg|].
    unfold path_body. destruct q as [|s q _] using rev_ind.
    + cbn in Hq. subst c. right. eexists. split; [done|]. subst. done.
    + apply path_to_app in Hq as (p & Hq & (c' & (Hc & Hpar & Hstr) & Hcc)). cbn in Hcc. subst c'.
      destruct (Z.eqb_spec c 0); [lia|]. rewrite Hstr, Hpar. cbn [res_bind]. left.
      exists q, (p, l ++ [s]). split; [done|]. cbn [fst snd]. split.
      * split; [done|]. exists (s :: r). split; [by rewrite Hr, <- app_assoc|].
        rewrite Hl. cbn. by rewrite app_assoc.
      * rewrite vsize_app. change (vsize [s]) with 1. lia.
  - cbn. split; [done|]. exists []. by rewrite !app_nil_r.
  - unfold loop_fuel. lia.
  - cbn [res_bind]. by rewrite rev_app_distr, rev_involutive.
Qed.

(** Inserting the path of a value returns an id under which the path is
    found again and from which it is read back; inserting it once more changes
    nothing; every value that was in the table keeps its id and its path, and
    the tree stays well formed. *)
Theorem insertPropValueId_ok t path :
  tree_ok t -> value_num t + vsize path < 2 ^ 32 ->
  exists id t', insertPropValueId path t = Ret (id, t') /\ tree_ok t' /\
    propValueId path t' = Ret id /\ propValuePath id [] t' = Ret path /\
    insertPropValueId path t' = Ret (id, t') /\ valueIdTable_ t' = valueIdTable_ t /\
    forall path' id', propValueId path' t = Ret id' -> id' <> 0 -> vsize path' < 2 ^ 64 ->
      propValueId path' t' = Ret id' /\ propValuePath id' [] t' = Ret path'.
Proof.
  intros Ht Hn. pose proof (vsize_nonneg path). pose proof Ht as (Hn1 & _).
  destruct (insert_path path t 0 Ht) as (id & t' & E & Ht' & Hx & Hid & Hpath & _); [lia|done|].
  pose proof Ht' as (Hn2 & _).
  destruct (find_path_ok path t' 0 id Ht') as [Hf Hi]; [lia|done|].
  exists id, t'. split; [done|]. split; [done|]. split; [done|]. split.
  { rewrite (propValuePath_ok t' path id []) by (done || lia). by rewrite app_nil_r. }
  split; [done|]. split; [by destruct Hx as (_ & _ & _ & ?)|].
  intros path' id' Hf' Hid' Hlen. pose proof (find_path_inv path' t 0 id' Ht ltac:(lia) Hf' Hid') as Hp'.
  apply (path_extends t t') in Hp'; [|done]. split.
  - apply (find_path_ok path' t' 0 id' Ht'); [lia|done].
  - rewrite (propValuePath_ok t' path' id' []) by done. by rewrite app_nil_r.
Qed.

(** *** Ancestors *)

(** [l] is the chain of ids from [id] to its root. *)
Fixpoint chain_of t (id : Z) (l : list Z) : Prop :=
  match l with
  | [] => id = 0
  | x :: l => x = id /\ 0 < id < value_num t /\ exists p, vget (parentIdVec_ t) id = Ret p /\ p < id /\ chain_of t p l
  end.

Lemma chain_exists t id :
  tree_ok t -> 0 <= id < value_num t -> exists l, chain_of t id l /\ vsize l <= id.
Proof.
  intros (Hn & Hp & Hc & Hpar & He). induction (Z.lt_wf 0 id) as [id _ IH]. intros Hid.
  destruct (decide (id = 0)) as [->|Hne]; [by exists []|].
  destruct (Hpar id ltac:(lia)) as (p & Ep & Hlt). destruct (IH p ltac:(lia) ltac:(lia)) as (l & Hl & Hsz).
  exists (id :: l). rewrite vsize_cons. split; [|lia]. split; [done|]. split; [lia|]. exists p. split_and!; done || lia.
Qed.

Lemma chain_le t l : forall id x, chain_of t id l -> x ∈ l -> 0 < x <= id.
Proof.
  induction l as [|y l IH]; intros id x H Hx; [by apply elem_of_nil in Hx|].
  destruct H as (-> & Hid & p & _ & Hp & H). apply elem_of_cons in Hx as [->|Hx]; [lia|].
  specialize (IH p x H Hx). lia.
Qed.

Lemma chain_inj t l : forall id k, chain_of t id l -> chain_of t id k -> l = k.
Proof.
  induction l as [|y l IH]; intros id [|z k] H1 H2; cbn in *; [done|lia|lia|].
  destruct H1 as (-> & _ & p & Ep & _ & H1), H2 as (-> & _ & q & Eq & _ & H2). f_equal.
  rewrite Ep in Eq. injection Eq as <-. by eapply IH.
Qed.

(** The chain of an id on the chain of another is its end. *)
Lemma chain_suffix t l : forall id x, chain_of t id l -> x ∈ l ->
  exists l1 l2, l = l1 ++ l2 /\ chain_of t x l2.
Proof.
  induction l as [|y l IH]; intros id x H Hx; [by apply elem_of_nil in Hx|].
  pose proof H as (-> & Hid & p & Ep & Hp & Hl). apply elem_of_cons in Hx as [->|Hx]; [by exists [], (id :: l)|].
  destruct (IH p x Hl Hx) as (l1 & l2 & -> & H2). by exists (id :: l1), l2.
Qed.

Lemma getParentIds_ok t id l :
  chain_of t id l -> vsize l < 2 ^ 64 ->
  getParentIds id t = Ret l /\ getRootValueId id t = Ret (List.last l 0).
Proof.
  intros Hl Hn. split.
  - unfold getParentIds. destruct (while_loop_rule (parents_body t)
      (fun q st => chain_of t st.1 q /\ exists r, l = r ++ q /\ st.2 = r) (fun q => vsize q)
      (fun b => b = l)) with (g := l) (s := (id, @nil Z)) as (b & -> & ->); [| | |done].
    + intros q [c acc] [Hq (r & Hr & Hacc)]. cbn [fst snd] in *. split; [apply vsize_nonneg|]. unfold parents_body.
      destruct q as [|x q]; cbn in Hq.
      * subst. right. eexists. split; [done|]. by rewrite app_nil_r.
      * destruct Hq as (-> & Hc & p & Ep & _ & Hq). destruct (Z.eqb_spec c 0); [lia|]. rewrite Ep. cbn [res_bind].
        left. exists q, (p, acc ++ [c]). split; [done|]. split; [|rewrite vsize_cons; lia].
        split; [done|]. exists (r ++ [c]). by rewrite <- app_assoc, Hacc.
    + split; [done|]. by exists [].
    + unfold loop_fuel. lia.
  - unfold getRootValueId. destruct (while_loop_rule (root_body t)
      (fun q st => chain_of t st.1 q /\ List.last l 0 = List.last q st.2) (fun q => vsize q)
      (fun b => b = List.last l 0)) with (g := l) (s := (id, 0)) as (b & -> & ->); [| | |done].
    + intros q [c acc] [Hq Hr]. cbn [fst snd] in *. split; [apply vsize_nonneg|]. unfold root_body.
      destruct q as [|x q]; cbn in Hq.
      * subst. right. eexists. split; [done|]. done.
      * destruct Hq as (-> & Hc & p & Ep & _ & Hq). destruct (Z.eqb_spec c 0); [lia|]. rewrite Ep. cbn [res_bind].
        left. exists q, (p, c). split; [done|]. split; [|rewrite vsize_cons; lia]. split; [done|].
        rewrite Hr. cbn. destruct q; [done|]. clear. cbn. revert z. induction q as [|y q IH]; intros z; [done|]. cbn. apply IH.
    + done.
    + unfold loop_fuel. lia.
Qed.

Lemma ancestors_loop_ok t id l (X : gset Z) :
  chain_of t id l -> vsize l < 2 ^ 64 ->
  (forall x k, x ∈ X -> chain_of t x k -> forall y, y ∈ k -> y ∈ X) ->
  exists Y, while_loop (ancestors_body t) (id, X) = Ret Y /\ forall x, x ∈ Y <-> x ∈ X \/ x ∈ l.
Proof.
  intros Hl Hn HX. apply (while_loop_rule (ancestors_body t)
    (fun q st => chain_of t st.1 q /\ exists r, l = r ++ q /\ (forall x, x ∈ r -> st.1 < x) /\
       forall x, x ∈ st.2 <-> x ∈ X \/ x ∈ r) (fun q => vsize q) _) with (g := l).
  - intros q [c S] [Hq (r & -> & Hgt & HS)]. cbn [fst snd] in *. split; [apply vsize_nonneg|]. unfold ancestors_body.
    destruct q as [|x q]; cbn in Hq.
    + subst c. right. eexists. split; [done|]. intros x. rewrite HS, app_nil_r. done.
    + pose proof Hq as (-> & Hc & p & Ep & Hpc & Hq'). destruct (Z.eqb_spec c 0); [lia|].
      case_bool_decide as Hin.
      * right. eexists. split; [done|]. apply HS in Hin as [Hin|Hin]; [|specialize (Hgt c Hin); lia].
        intros x. rewrite HS, elem_of_app. split; [tauto|]. intros [?|[?|Hx]]; [tauto..|].
        left. by apply (HX c (c :: q)).
      * rewrite Ep. cbn [res_bind]. left. exists q, (p, {[c]} ∪ S). split; [done|]. split; [|rewrite vsize_cons; lia].
        split; [done|]. exists (r ++ [c]). split; [by rewrite <- app_assoc|]. cbn [fst snd]. split.
        -- intros x [Hx|Hx%list_elem_of_singleton]%elem_of_app; [specialize (Hgt x Hx)|subst x]; lia.
        -- intros x. rewrite elem_of_union, elem_of_singleton, HS, elem_of_app, list_elem_of_singleton. tauto.
  - cbn. split; [done|]. exists []. split; [done|]. split; [by intros x ?%elem_of_nil|]. set_solver.
  - unfold loop_fuel. lia.
Qed.

(** The set holds the ids of the document and all their ancestors. *)
Lemma parentIdSet_ok t f docId :
  tree_ok t -> table_rep (valueIdTable_ t) f -> 0 <= docId ->
  Forall (fun id => 0 <= id < value_num t) (f docId) ->
  exists S, parentIdSet docId ∅ t = Ret S /\ forall x, x ∈ S <-> exists id l, id ∈ f docId /\ chain_of t id l /\ x ∈ l.
Proof.
  intros Ht Hf Hd Hids. unfold parentIdSet, getPropIdList. pose proof Ht as (Hn & _).
  destruct (getIdList_rep _ _ _ Hf Hd) as (il & -> & Hsz & Hat). cbn [res_bind]. rewrite Hsz.
  match goal with |- context [mfold ?g _ _] => set (body := g) end.
  destruct (mfold_seqZ body (fun i (S : gset Z) => forall x, x ∈ S <->
      exists id l, id ∈ take (Z.to_nat i) (f docId) /\ chain_of t id l /\ x ∈ l) 0 (vsize (f docId)) ∅)
    as (S & -> & HS).
  - apply vsize_nonneg.
  - intros i S Hi HS. unfold body. rewrite Hat by lia.
    destruct (vget_in_range (f docId) i ltac:(lia)) as [id Eid]. rewrite Eid. cbn [res_bind].
    apply vget_Ret in Eid as [_ Eid].
    assert (0 <= id < value_num t) as Hid.
    { rewrite Forall_forall in Hids. apply Hids. by eapply list_elem_of_lookup_2. }
    destruct (chain_exists t id Ht Hid) as (l & Hl & Hlen).
    destruct (ancestors_loop_ok t id l S Hl ltac:(lia)) as (S' & E & HS').
    { intros x k Hx Hk y Hy. apply HS in Hx as (id0 & l0 & H1 & H2 & H3). apply HS.
      destruct (chain_suffix t l0 id0 x H2 H3) as (l1 & l2 & -> & H4). exists id0, (l1 ++ l2).
      split; [done|]. split; [done|]. rewrite (chain_inj _ _ _ _ Hk H4) in Hy. apply elem_of_app. by right. }
    exists S'. split; [done|]. intros x. rewrite HS', HS.
    replace (Z.to_nat (i + 1)) with (Datatypes.S (Z.to_nat i)) by lia. rewrite (take_S_r _ _ id) by done. split.
    + intros [(id0 & l0 & H1 & H2 & H3)|Hx]; [exists id0, l0|exists id, l]; rewrite elem_of_app, list_elem_of_singleton; tauto.
    + intros (id0 & l0 & [H1|H1%list_elem_of_singleton]%elem_of_app & H2 & H3); [left; by exists id0, l0|right].
      subst id0. by rewrite (chain_inj _ _ _ _ Hl H2).
  - intros x. split; [set_solver|]. by intros (id & l & ?%elem_of_nil & _).
  - exists S. split; [done|]. intros x. rewrite HS. by rewrite (firstn_all2 (f docId)) by (unfold vsize; lia).
Qed.

(** A document belongs to a group label exactly when the label is one of
    the document's value ids or an ancestor of one ([getParentIds]); every walk
    to the root ends. *)
Theorem testDoc_ancestors t f docId labelId :
  tree_ok t -> table_rep (valueIdTable_ t) f -> 0 <= docId ->
  Forall (fun id => 0 <= id < value_num t) (f docId) ->
  exists b, testDoc docId labelId t = Ret b /\
    (b = true <-> exists id l, id ∈ f docId /\ getParentIds id t = Ret l /\ labelId ∈ l).
Proof.
  intros Ht Hf Hd Hids. unfold testDoc. destruct (parentIdSet_ok t f docId Ht Hf Hd Hids) as (S & -> & HS).
  cbn [res_bind]. eexists. split; [done|]. rewrite bool_decide_eq_true, HS. pose proof Ht as (Hn & _). rewrite Forall_forall in Hids. split.
  - intros (id & l & H1 & H2 & H3). exists id, l. split; [done|]. split; [|done].
    destruct (chain_exists t id Ht (Hids id H1)) as (l' & Hl' & Hlen). rewrite (chain_inj _ _ _ _ H2 Hl') in *.
    pose proof (Hids id H1). by apply getParentIds_ok; [|lia].
  - intros (id & l & H1 & H2 & H3). destruct (chain_exists t id Ht (Hids id H1)) as (l' & Hl' & Hlen).
    pose proof (Hids id H1). destruct (getParentIds_ok t id l' Hl' ltac:(lia)) as [E _].
    rewrite E in H2. injection H2 as ->. by exists id, l.
Qed.

(** *** Saving and loading *)
Lemma load_children_ok propStr parents n :
  vsize propStr = n -> 1 <= n < 2 ^ 32 -> vsize parents = n ->
  (forall id, 0 < id < n -> exists p, vget parents id = Ret p /\ 0 <= p < id) ->
  edges_unambiguous 0 propStr parents n ->
  exists table, load_children propStr parents = Ret table /\ vsize table = n /\ edges 0 propStr parents table n.
Proof.
  intros Hs Hn Hp Hpar Huniq. unfold load_children. rewrite Hs, u32_small by lia. cbv zeta.
  match goal with |- context [mfold ?g _ _] => set (body := g) end.
  destruct (mfold_seqZ body (fun i (table : list (list (T * Z))) => vsize table = n /\ edges 0 propStr parents table i)
    1 (n - 1) (replicate (Z.to_nat n) [])) as (table & E & Ht & He).
  - lia.
  - intros i table Hi (Hsz & He). unfold body. destruct (Hpar i ltac:(lia)) as (p & Ep & Hlt). rewrite Ep. cbn [res_bind].
    destruct (vget_in_range propStr i ltac:(lia)) as [s Es]. rewrite Es. cbn [res_bind].
    destruct (edges_add 0 propStr parents table i p s) as (m & table' & -> & Et & Hsz' & He'); try done; [lia|lia|..].
    { intros id Hid. apply Huniq; lia. }
    cbn [res_bind]. exists table'. split; [done|]. split; [congruence|done].
  - split; [|by apply edges_empty]. unfold vsize. rewrite length_replicate. lia.
  - exists table. split; [done|]. split; [done|]. by replace (1 + (n - 1)) with n in He by lia.
Qed.

Definition no_files : table_files T := Files Missing Missing Missing Missing Missing.

(** The files hold what the table counts as saved. *)
Definition files_hold t (fs : table_files T) : Prop :=
  saved_upto (propStrVec_ t) (savePropStrNum_ t) (prop_str_file fs) /\
  saved_upto (parentIdVec_ t) (saveParentIdNum_ t) (parent_id_file fs) /\
  saved_upto (indexTable_ (valueIdTable_ t)) (saveIndexNum_ t) (index_id_file fs) /\
  saved_upto (multiValueTable_ (valueIdTable_ t)) (saveValueNum_ t) (value_id_file fs).

(** The same table but for the counts of saved elements. *)
Definition same_values t t' : Prop :=
  propStrVec_ t' = propStrVec_ t /\ parentIdVec_ t' = parentIdVec_ t /\
  childMapTable_ t' = childMapTable_ t /\ valueIdTable_ t' = valueIdTable_ t.

Definition sizes_fit t : Prop :=
  1 <= vsize (indexTable_ (valueIdTable_ t)) < 2 ^ 32 /\ vsize (multiValueTable_ (valueIdTable_ t)) < 2 ^ 32.

Lemma new_files_hold : files_hold (new_value_table empty_text) no_files.
Proof. done. Qed.

(** Inserting values lets the vectors grow, and so does the first list of
    a document behind all others. *)
Lemma insert_files_hold path fs : forall t pvId id t',
  mfold insert_node path (pvId, t) = Ret (id, t') -> files_hold t fs -> files_hold t' fs.
Proof.
  induction path as [|s path IH]; intros t pvId id t' H Hf; cbn [mfold] in H; [by injection H as _ <-|].
  destruct (insert_node s (pvId, t)) as [[c t1]| | |] eqn:E; try done. cbn [res_bind] in H. apply (IH _ _ _ _ H).
  unfold insert_node in E. destruct (vget _ _) as [m| | |]; try done. cbn [res_bind] in E.
  destruct (om_find m s); [by injection E as _ <-|]. destruct (negb _); [|done].
  destruct (vset _ _ _) as [m'| | |]; try done. injection E as _ <-. destruct Hf as (H1 & H2 & H3).
  split; [|split; [|done]]; (eapply saved_grown; [|done]); by apply prefix_app_r.
Qed.

Lemma setPropIdList_files_hold docId ids t t' fs :
  setPropIdList docId ids t = Ret t' -> vsize (indexTable_ (valueIdTable_ t)) <= docId < 2 ^ 32 - 1 ->
  files_hold t fs -> files_hold t' fs.
Proof.
  intros H Hd (H1 & H2 & H3 & H4). unfold setPropIdList in H. apply bind_Ret_inv in H as (t1 & E & [= <-]).
  destruct (setIdList_grows _ _ _ _ E Hd). split; [done|]. split; [done|]. by split; eapply saved_grown.
Qed.

Ltac table_fields :=
  cbn [negb propStrVec_ savePropStrNum_ parentIdVec_ saveParentIdNum_ childMapTable_ valueIdTable_ saveIndexNum_ saveValueNum_
    prop_str_file parent_id_file index_id_file value_id_file parent_str_file new_id_table indexTable_ multiValueTable_].

Lemma flush_files_hold t fs can_write :
  tree_ok t -> sizes_fit t -> files_hold t fs ->
  exists ok t' fs', flush can_write t fs = (ok, t', fs') /\ same_values t t' /\ files_hold t' fs' /\
    (can_write = (true, true, true, true, true) -> ok = true) /\
    (ok = true -> exists t'', open (new_value_table empty_text) fs' = Ret (true, t'') /\
       same_values t t'' /\ files_hold t'' fs').
Proof.
  intros Ht [Hix Hmv] (F1 & F2 & F3 & F4). pose proof Ht as (Hn & Hp & Hc & Hpar & He).
  destruct t as [str n1 par n2 ch [ix mv] n3 n4], fs as [f1 f2 f3 f4 f0], can_write as [[[[w0 w1] w2] w3] w4].
  unfold value_num in *. cbn in * |-.
  destruct (saveParentId_ w0 (ValueTable str n1 par n2 ch (IdTable ix mv) n3 n4) (Files f1 f2 f3 f4 f0)) as [ok0 fs0] eqn:E0.
  assert ((w0 = true -> ok0 = true) /\ exists f0', fs0 = Files f1 f2 f3 f4 f0') as (Hok0 & f0' & ->).
  { unfold saveParentId_ in E0. cbn [propStrVec_ parentIdVec_ savePropStrNum_] in E0. rewrite u32_small in E0 by lia.
    destruct (Z.eqb_spec (vsize str) (vsize par)); [|lia]. cbn [negb] in E0.
    destruct (_ <=? _); [|destruct w0]; injection E0 as <- <-; split; done || by eexists. }
  unfold flush. rewrite E0. destruct ok0; [|eexists _, _, _; split; [done|]; split; [done|]; split; [done|]; split; [intros [=]; by apply Hok0|done]].
  destruct (save_grown_ok w1 str n1 f1) as (ok1 & m1 & g1 & E1 & S1 & W1 & L1); [lia|done|].
  destruct (save_grown_ok w2 par n2 f2) as (ok2 & m2 & g2 & E2 & S2 & W2 & L2); [lia|done|].
  destruct (save_grown_ok w3 ix n3 f3) as (ok3 & m3 & g3 & E3 & S3 & W3 & L3); [lia|done|].
  destruct (save_grown_ok w4 mv n4 f4) as (ok4 & m4 & g4 & E4 & S4 & W4 & L4); [lia|done|].
  table_fields. rewrite E1. table_fields.
  destruct ok1; table_fields; [|eexists _, _, _; split; [done|]; split; [done|]; split; [done|]; split; [intros [=]; by apply W1|done]].
  rewrite E2. table_fields.
  destruct ok2; table_fields; [|eexists _, _, _; split; [done|]; split; [done|]; split; [done|]; split; [intros [=]; by apply W2|done]].
  rewrite E3. table_fields.
  destruct ok3; table_fields; [|eexists _, _, _; split; [done|]; split; [done|]; split; [done|]; split; [intros [=]; by apply W3|done]].
  rewrite E4. eexists _, _, _. split; [done|]. split; [done|]. split; [done|]. split; [intros [=]; by apply W4|]. intros ->.
  destruct (L1 eq_refl) as [-> L1'], (L2 eq_refl) as [-> L2'], (L3 eq_refl) as [-> L3'], (L4 eq_refl) as [-> L4'].
  unfold open, new_value_table. table_fields.
  rewrite L1' by (intros ->; unfold vsize in Hn; cbn in Hn; lia). table_fields.
  rewrite L2' by (intros ->; unfold vsize in Hn, Hp; cbn in Hn, Hp; lia). table_fields.
  rewrite L3' by (intros ->; unfold vsize in Hix; cbn in Hix; lia). table_fields.
  rewrite L4' by done. table_fields. rewrite u32_small by lia. destruct (Z.eqb_spec (vsize str) (vsize par)); [|lia]. cbn [negb].
  destruct (load_children_ok str par (vsize str)) as (table & -> & Htab & Hedges); try done; [|].
  { apply (edges_no_clash 0 str par ch); [|lia|done]. intros id Hi. destruct (Hpar id Hi) as (p & Ep & Hlt).
    exists p. split; [done|lia]. }
  cbn [res_bind]. rewrite (edges_unique 0 str par table ch (vsize str)) by (done || congruence). by eexists.
Qed.

(** The states that values, documents in the order of their ids, and flushes
    that may fail at any file lead to, from a new table without files. *)
Inductive table_history : PropValueTable T -> table_files T -> Prop :=
  | history_new : table_history (new_value_table empty_text) no_files
  | history_insert t fs path id t' : table_history t fs -> value_num t + vsize path < 2 ^ 32 ->
      insertPropValueId path t = Ret (id, t') -> table_history t' fs
  | history_document t fs docId ids t' : table_history t fs ->
      vsize (indexTable_ (valueIdTable_ t)) <= docId < 2 ^ 32 - 1 ->
      setPropIdList docId ids t = Ret t' -> table_history t' fs
  | history_flush t fs can_write ok t' fs' : table_history t fs -> sizes_fit t ->
      flush can_write t fs = (ok, t', fs') -> table_history t' fs'.

Lemma tree_ok_same t t' : same_values t t' -> tree_ok t -> tree_ok t'.
Proof. unfold tree_ok, value_num. by intros (-> & -> & -> & _). Qed.

Lemma history_ok t fs : table_history t fs -> tree_ok t /\ files_hold t fs.
Proof.
  induction 1 as [|t fs path id t' _ [Ht Hf] Hn E|t fs d ids t' _ [Ht Hf] Hd E|t fs w ok t' fs' _ [Ht Hf] Hn E].
  - split; [apply new_tree_ok|apply new_files_hold].
  - unfold insertPropValueId in E. pose proof Ht as (Hv & _).
    destruct (insert_path path t 0 Ht) as (id' & t1 & E' & Ht' & _); [lia|done|]. rewrite E in E'. injection E' as <- <-.
    split; [done|]. by eapply insert_files_hold.
  - split; [|by eapply setPropIdList_files_hold]. unfold setPropIdList in E. by apply bind_Ret_inv in E as (t1 & _ & [= <-]).
  - destruct (flush_files_hold t fs w Ht Hn Hf) as (ok1 & t1 & fs1 & E' & Hs & Hf' & _). rewrite E in E'.
    injection E' as <- <- <-. split; [by eapply tree_ok_same|done].
Qed.

End ValueProofs.

Lemma insertPropValueId_ok_witness :
  let t := new_value_table 0 in
  exists id t', insertPropValueId [4; 5] t = Ret (id, t') /\ tree_ok t' /\
    propValueId [4; 5] t' = Ret id /\ propValuePath id [] t' = Ret [4; 5] /\
    insertPropValueId [4; 5] t' = Ret (id, t') /\ valueIdTable_ t' = valueIdTable_ t /\
    forall path' id', propValueId path' t = Ret id' -> id' <> 0 -> vsize path' < 2 ^ 64 ->
      propValueId path' t' = Ret id' /\ propValuePath id' [] t' = Ret path'.
Proof.
  intros t. apply insertPropValueId_ok; [apply new_tree_ok|]. vm_compute. done.
Defined.

(** A table whose first document has no value ids. *)
Lemma testDoc_ancestors_witness :
  exists b, testDoc 5 1 (new_value_table 0) = Ret b /\
    (b = true <-> exists id l, id ∈ ((fun _ : Z => []) 5) /\ getParentIds id (new_value_table 0) = Ret l /\ 1 ∈ l).
Proof.
  apply (testDoc_ancestors (new_value_table 0) (fun _ => []) 5 1).
  - apply new_tree_ok.
  - apply new_id_table_rep.
  - lia.
  - constructor.
Defined.

(** A table that was flushed and has grown since. *)
Definition ex_first : PropValueTable Z :=
  match insertPropValueId [4; 5] (new_value_table 0) with
  | Ret (id, t) => match setPropIdList 1 [id] t with Ret t => t | _ => t end
  | _ => new_value_table 0
  end.
Definition ex_flushed : bool * PropValueTable Z * table_files Z :=
  flush (true, true, true, true, true) ex_first no_files.
Definition ex_grown : PropValueTable Z :=
  match insertPropValueId [4; 6] ex_flushed.1.2 with
  | Ret (id, t) => match setPropIdList 2 [2; id] t with Ret t => t | _ => t end
  | _ => new_value_table 0
  end.

Definition table_of (r : res (Z * PropValueTable Z)) : PropValueTable Z :=
  match r with Ret (_, t) => t | _ => new_value_table 0 end.

Lemma ex_grown_history : table_history 0 ex_grown ex_flushed.2.
Proof.
  eapply (history_document 0 (table_of (insertPropValueId [4; 6] ex_flushed.1.2)) _ 2 [2; 3]); [| |vm_compute; reflexivity].
  - eapply (history_insert 0 ex_flushed.1.2 _ [4; 6]); [|vm_compute; reflexivity|vm_compute; reflexivity].
    eapply (history_flush 0 ex_first no_files (true, true, true, true, true)); [|split; [split; [discriminate|]|]; vm_compute; reflexivity|vm_compute; reflexivity].
    eapply (history_document 0 (table_of (insertPropValueId [4; 5] (new_value_table 0))) no_files 1 [2]);
      [|split; [discriminate|reflexivity]|vm_compute; reflexivity].
    eapply (history_insert 0 (new_value_table 0) no_files [4; 5]); [apply history_new|vm_compute; reflexivity|vm_compute; reflexivity].
  - split; [discriminate|reflexivity].
Qed.

