(* ===== verification/SplitUstr.v ===== *)
(** * Splitting the text of group and attribute properties

Models mining-manager/util/split_ustr.cpp: the scanner of one, possibly
quoted, value and the two splitters over it. A string is the list of its
UCS-2 characters and an iterator is the suffix it stands before. UString is
not part of the repository: [compact], its trimming of spaces, is a parameter
about which nothing is assumed. *)
From S2P Require Import Prelude.

Notation ustr := (list Z).

Definition COLON : Z := 58.
Definition VL : Z := 124.
Definition GT : Z := 62.
Definition COMMA : Z := 44.
Definition SEMI_COLON : Z := 59.
Definition QUOTE : Z := 34.
Definition COMMA_VL : ustr := [COMMA; VL].
Definition COMMA_SEMICOLON_GT : ustr := [COMMA; SEMI_COLON; GT].

(** [delimStr.find(c) != npos] *)
Definition is_delim (delimStr : ustr) (c : Z) : bool := existsb (Z.eqb c) delimStr.

(** The characters up to a delimiter, and the position of that delimiter. *)
Fixpoint scan_to (delimStr : ustr) (it : ustr) : ustr * ustr :=
  match it with
  | [] => ([], [])
  | c :: rest =>
      if is_delim delimStr c then ([], it)
      else let (output, it) := scan_to delimStr rest in (c :: output, it)
  end.

(** The loop behind an opening quote: two quotes are one, a single one ends. *)
Fixpoint scan_quoted (it : ustr) : ustr * ustr :=
  match it with
  | [] => ([], [])
  | c :: rest =>
      if c =? QUOTE then
        match rest with
        | d :: rest' =>
            if d =? QUOTE then let (output, it) := scan_quoted rest' in (d :: output, it)
            else ([], rest)
        | [] => ([], rest)
        end
      else let (output, it) := scan_quoted rest in (c :: output, it)
  end.

Section Split.
Context (compact : ustr -> ustr).

Definition parse_ustr (it : ustr) (delimStr : ustr) : ustr * ustr :=
  match it with
  | c :: rest =>
      if c =? QUOTE then
        let (output, it) := scan_quoted rest in
        (output, (scan_to delimStr it).2)
      else let (output, it) := scan_to delimStr it in (compact output, it)
  | [] => (compact [], [])
  end.

(** if (!value.empty()) path.push_back(value); *)
Definition push_nonempty {A} (path : list (list A)) (value : list A) : list (list A) :=
  match value with [] => path | _ => path ++ [value] end.

(** while (it != endIt && *it == sep): escape it and scan the next value. *)
Definition values_body (sep : Z) (delimStr : ustr) (st : ustr * list ustr)
  : res (ustr * list ustr + ustr * list ustr) :=
  let (it, path) := st in
  match it with
  | c :: it =>
      if c =? sep then
        let (value, it) := parse_ustr it delimStr in Ret (inl (it, push_nonempty path value))
      else Ret (inr st)
  | [] => Ret (inr st)
  end.

Definition group_body (st : ustr * list (list ustr))
  : res (ustr * list (list ustr) + list (list ustr)) :=
  let (it, groupPaths) := st in
  match it with
  | [] => Ret (inr groupPaths)
  | _ =>
      let (value, it) := parse_ustr it COMMA_SEMICOLON_GT in
      let* (it, path) := while_loop (values_body GT COMMA_SEMICOLON_GT) (it, push_nonempty [] value) in
      let groupPaths := push_nonempty groupPaths path in
      match it with
      | [] => Ret (inl ([], groupPaths))
      | c :: it =>
          let* _ := assert_res ((c =? COMMA) || (c =? SEMI_COLON)) in
          Ret (inl (it, groupPaths))
      end
  end.

Definition split_group_path (src : ustr) (groupPaths : list (list ustr)) : res (list (list ustr)) :=
  while_loop group_body (src, groupPaths).

Definition AttrPair : Type := ustr * list ustr.

Definition attr_body (st : ustr * list AttrPair) : res (ustr * list AttrPair + list AttrPair) :=
  let (it, attrPairs) := st in
  match it with
  | [] => Ret (inr attrPairs)
  | _ =>
      let (name, it) := parse_ustr it [COLON] in
      match it, name with
      | [], _ | _, [] => Ret (inr attrPairs)
      | _ :: it, _ =>
          let (value, it) := parse_ustr it COMMA_VL in
          let* (it, values) := while_loop (values_body VL COMMA_VL) (it, push_nonempty [] value) in
          let attrPairs := match values with [] => attrPairs | _ => attrPairs ++ [(name, values)] end in
          match it with
          | [] => Ret (inl ([], attrPairs))
          | c :: it =>
              let* _ := assert_res (c =? COMMA) in
              Ret (inl (it, attrPairs))
          end
      end
  end.

Definition split_attr_pair (src : ustr) (attrPairs : list AttrPair) : res (list AttrPair) :=
  while_loop attr_body (src, attrPairs).

(** ** The scanner stops at a delimiter of its set *)

Definition at_delim (delimStr it : ustr) : Prop :=
  match it with [] => True | c :: _ => is_delim delimStr c = true end.

Lemma scan_to_rest delimStr it :
  at_delim delimStr (scan_to delimStr it).2 /\ vsize (scan_to delimStr it).2 <= vsize it.
Proof.
  induction it as [|c it [IH1 IH2]]; cbn [scan_to]; [by split|].
  destruct (is_delim delimStr c) eqn:E; cbn [snd]; [split; [done|lia]|].
  destruct (scan_to delimStr it) as [o r]. cbn [snd] in *. rewrite vsize_cons. split; [done|lia].
Qed.

Lemma scan_quoted_rest n : forall it, (length it <= n)%nat -> vsize (scan_quoted it).2 <= vsize it.
Proof.
  induction n as [|n IH]; intros [|c it] Hn; cbn [length] in Hn; try (cbn; lia). cbn [scan_quoted].
  rewrite vsize_cons. destruct (c =? QUOTE).
  - destruct it as [|d it]; [cbn; lia|]. cbn [length] in Hn. rewrite vsize_cons.
    destruct (d =? QUOTE); [|cbn [snd]; rewrite vsize_cons; lia]. specialize (IH it ltac:(lia)).
    destruct (scan_quoted it). cbn [snd] in *. lia.
  - specialize (IH it ltac:(lia)). destruct (scan_quoted it). cbn [snd] in *. lia.
Qed.

Lemma parse_ustr_rest it delimStr :
  at_delim delimStr (parse_ustr it delimStr).2 /\ vsize (parse_ustr it delimStr).2 <= vsize it.
Proof.
  destruct it as [|c it]; [by split|]. unfold parse_ustr. destruct (c =? QUOTE).
  - pose proof (scan_quoted_rest _ it (le_n _)) as H. destruct (scan_quoted it) as [o r]. cbn [snd] in *.
    destruct (scan_to_rest delimStr r). rewrite vsize_cons. split; [done|lia].
  - pose proof (scan_to_rest delimStr (c :: it)) as H. by destruct (scan_to delimStr (c :: it)).
Qed.

(** Scanning the values after the first one ends at a delimiter that is not
    the separator, and collects non-empty values. *)
Lemma values_loop sep delimStr it path :
  at_delim delimStr it -> Forall (.≠ []) path -> vsize it < 2 ^ 64 ->
  exists it' path', while_loop (values_body sep delimStr) (it, path) = Ret (it', path') /\
    at_delim delimStr it' /\ (forall c r, it' = c :: r -> c <> sep) /\ vsize it' <= vsize it /\
    Forall (.≠ []) path'.
Proof.
  intros Hd Hp Hl.
  destruct (while_loop_rule (values_body sep delimStr)
    (fun (g : Z) st => g = vsize st.1 /\ at_delim delimStr st.1 /\ Forall (.≠ []) st.2 /\ g <= vsize it)
    (fun g => g)
    (fun b => at_delim delimStr b.1 /\ (forall c r, b.1 = c :: r -> c <> sep) /\ vsize b.1 <= vsize it /\
       Forall (.≠ []) b.2))
    with (g := vsize it) (s := (it, path)) as ([it' path'] & E & H).
  - intros g [[|c r] p] (-> & H1 & H2 & H3); cbn [fst snd] in *; (split; [apply vsize_nonneg|]).
    + right. eexists. split; [done|]. cbn. split_and!; done || lia.
    + cbn [values_body]. destruct (Z.eqb_spec c sep) as [->|Hne].
      * left. pose proof (parse_ustr_rest r delimStr) as [H4 H5]. destruct (parse_ustr r delimStr) as [v r'].
        cbn [snd] in *. rewrite vsize_cons in *. eexists (vsize r'), _. split; [done|]. cbn [fst snd].
        split; [|lia]. split_and!; [done..| |lia].
        unfold push_nonempty. destruct v; [done|]. apply Forall_app. split; [done|]. by constructor.
      * right. eexists. split; [done|]. cbn [fst snd]. split_and!; try done. by intros ? ? [= -> ->].
  - cbn. split_and!; done || lia.
  - unfold loop_fuel. lia.
  - cbn in H. exists it', path'. split; [done|]. destruct H as (? & ? & ? & ?). split_and!; done.
Qed.

Lemma push_first v : Forall (.≠ []) (push_nonempty (@nil ustr) v).
Proof. destruct v; [done|]. by constructor. Qed.

(** What the splitters collect: no empty path, name, list or value. *)
Definition path_ok (path : list ustr) : Prop := path <> [] /\ Forall (.≠ []) path.
Definition pair_ok (p : AttrPair) : Prop := p.1 <> [] /\ path_ok p.2.

(** One turn of a splitter: done, or a shorter text and more results. *)
Definition turn_ok {A} (ok : A -> Prop) (st : ustr * list A) (r : res (ustr * list A + list A)) : Prop :=
  match r with
  | Ret (inr b) => b = st.2
  | Ret (inl (it, b)) => vsize it < vsize st.1 /\ exists l, b = st.2 ++ l /\ Forall ok l
  | _ => False
  end.

Lemma push_path gp path : Forall (.≠ []) path ->
  exists l, push_nonempty gp path = gp ++ l /\ Forall path_ok l.
Proof.
  intros H. destruct path as [|x path]; [exists []; by rewrite app_nil_r|].
  exists [x :: path]. split; [done|]. constructor; [by split|constructor].
Qed.

Lemma group_turn it gp : vsize it < 2 ^ 64 -> turn_ok path_ok (it, gp) (group_body (it, gp)).
Proof.
  intros Hl. destruct it as [|c r]; [done|]. cbn [group_body].
  pose proof (parse_ustr_rest (c :: r) COMMA_SEMICOLON_GT) as [H4 H5].
  destruct (parse_ustr (c :: r) COMMA_SEMICOLON_GT) as [v it1]. cbn [snd] in *.
  destruct (values_loop GT COMMA_SEMICOLON_GT it1 _ H4 (push_first v) ltac:(lia)) as (it2 & path & E & H6 & H7 & H8 & H9).
  rewrite E. cbn [res_bind]. pose proof (vsize_nonneg r). destruct it2 as [|d it2].
  - cbn [turn_ok fst snd]. split; [rewrite vsize_cons; unfold vsize at 1; cbn; lia|]. by apply push_path.
  - assert ((d =? COMMA) || (d =? SEMI_COLON) = true) as ->.
    { cbn in H6. specialize (H7 d it2 eq_refl). destruct (Z.eqb_spec d COMMA); [done|].
      destruct (Z.eqb_spec d SEMI_COLON); [done|]. by destruct (Z.eqb_spec d GT). }
    cbn [assert_res res_bind turn_ok fst snd]. rewrite !vsize_cons in *. split; [lia|]. by apply push_path.
Qed.

Lemma attr_turn it ap : vsize it < 2 ^ 64 -> turn_ok pair_ok (it, ap) (attr_body (it, ap)).
Proof.
  intros Hl. destruct it as [|c r]; [done|]. cbn [attr_body].
  pose proof (parse_ustr_rest (c :: r) [COLON]) as [H4 H5].
  destruct (parse_ustr (c :: r) [COLON]) as [name it1]. cbn [snd] in *.
  destruct it1 as [|d it1]; [done|]. destruct name as [|n0 name]; [done|].
  pose proof (parse_ustr_rest it1 COMMA_VL) as [H6 H7]. destruct (parse_ustr it1 COMMA_VL) as [v it2].
  cbn [snd] in *. rewrite !vsize_cons in *.
  destruct (values_loop VL COMMA_VL it2 _ H6 (push_first v) ltac:(lia)) as (it3 & values & E & H8 & H9 & H10 & H11).
  rewrite E. cbn [res_bind]. set (ap' := match values with [] => ap | _ => _ end).
  assert (exists l, ap' = ap ++ l /\ Forall pair_ok l) as Hl'.
  { unfold ap'. destruct values as [|x values]; [exists []; by rewrite app_nil_r|].
    exists [(n0 :: name, x :: values)]. split; [done|]. constructor; [by repeat split|constructor]. }
  pose proof (vsize_nonneg r). destruct it3 as [|e it3].
  - cbn [turn_ok fst snd]. split; [rewrite vsize_cons; unfold vsize at 1; cbn; lia|]. done.
  - assert ((e =? COMMA) = true) as ->.
    { cbn in H8. specialize (H9 e it3 eq_refl). destruct (Z.eqb_spec e COMMA); [done|].
      by destruct (Z.eqb_spec e VL). }
    cbn [assert_res res_bind turn_ok fst snd]. rewrite !vsize_cons in *. split; [lia|]. done.
Qed.

(** A loop whose turns are all right collects a list that is. *)
Lemma turns_total {A} (ok : A -> Prop) (body : ustr * list A -> res (ustr * list A + list A)) src acc :
  vsize src < 2 ^ 64 ->
  (forall it b, vsize it < 2 ^ 64 -> turn_ok ok (it, b) (body (it, b))) ->
  exists l, while_loop body (src, acc) = Ret (acc ++ l) /\ Forall ok l.
Proof.
  intros Hl Hturn.
  destruct (while_loop_rule body
    (fun (g : Z) st => g = vsize st.1 /\ g <= vsize src /\ exists l, st.2 = acc ++ l /\ Forall ok l)
    (fun g => g) (fun b => exists l, b = acc ++ l /\ Forall ok l))
    with (g := vsize src) (s := (src, acc)) as (b & E & l & -> & H).
  - intros g [it b] (-> & H1 & l & H2 & H3); cbn [fst snd] in *. split; [apply vsize_nonneg|]. subst b.
    specialize (Hturn it (acc ++ l) ltac:(lia)).
    destruct (body (it, acc ++ l)) as [[[it' b']|b']| | |]; try done; cbn in Hturn.
    + left. destruct Hturn as (H4 & k & -> & H5). exists (vsize it'), (it', (acc ++ l) ++ k). split; [done|].
      cbn [fst snd]. split; [|done]. split; [done|]. split; [lia|]. exists (l ++ k).
      rewrite app_assoc. split; [done|]. by apply Forall_app.
    + right. exists b'. split; [done|]. subst b'. by exists l.
  - split; [done|]. split; [done|]. exists []. by rewrite app_nil_r.
  - unfold loop_fuel. lia.
  - by exists l.
Qed.

(** C27: Splitting terminates with a result on every text: the scanner makes
    progress in each turn and only stops at the end or at a character the
    caller expects, so that neither assert of split_ustr.cpp can fail. What is
    appended has no empty path, no empty attribute name, no attribute without
    values and no empty value, whatever the trimming of unquoted values does. *)
Theorem split_total (src : ustr) (groupPaths : list (list ustr)) (attrPairs : list AttrPair) :
  vsize src < 2 ^ 64 ->
  (exists paths, split_group_path src groupPaths = Ret (groupPaths ++ paths) /\ Forall path_ok paths) /\
  (exists pairs, split_attr_pair src attrPairs = Ret (attrPairs ++ pairs) /\ Forall pair_ok pairs).
Proof.
  intros Hl. split.
  - exact (turns_total path_ok group_body src groupPaths Hl group_turn).
  - exact (turns_total pair_ok attr_body src attrPairs Hl attr_turn).
Qed.

(** ** The texts of lists of values *)

(** The quoted form of a value: its quotes are doubled. *)
Definition quote_body (v : ustr) : ustr := flat_map (fun c => if c =? QUOTE then [QUOTE; QUOTE] else [c]) v.
Definition quoted (v : ustr) : ustr := QUOTE :: quote_body v ++ [QUOTE].

(** A value is written quoted, or as it is when it has no delimiter and does
    not begin with a quote. *)
Inductive value_text (delims : ustr) : ustr -> ustr -> Prop :=
| quoted_text v : value_text delims v (quoted v)
| plain_text c s :
    c <> QUOTE -> Forall (fun c => is_delim delims c = false) (c :: s) ->
    value_text delims (compact (c :: s)) (c :: s).

Inductive sep_by {A} (R : A -> ustr -> Prop) (seps : ustr) : list A -> ustr -> Prop :=
| sep_one a s : R a s -> sep_by R seps [a] s
| sep_more a s c l t : R a s -> is_delim seps c = true -> sep_by R seps l t -> sep_by R seps (a :: l) (s ++ c :: t).

Definition path_text : list ustr -> ustr -> Prop := sep_by (value_text COMMA_SEMICOLON_GT) [GT].

Definition pair_text (p : AttrPair) (s : ustr) : Prop :=
  exists sn sv, s = sn ++ COLON :: sv /\ value_text [COLON] p.1 sn /\
    sep_by (value_text COMMA_VL) [VL] p.2 sv.

Lemma scan_to_text delims s rest :
  Forall (fun c => is_delim delims c = false) s -> at_delim delims rest ->
  scan_to delims (s ++ rest) = (s, rest).
Proof.
  intros Hs Hr. induction Hs as [|c s Hc Hs IH]; cbn [app scan_to].
  - destruct rest as [|c r]; [done|]. cbn in Hr |- *. by rewrite Hr.
  - by rewrite Hc, IH.
Qed.

Lemma scan_quoted_text v rest :
  (forall r, rest <> QUOTE :: r) -> scan_quoted (quote_body v ++ QUOTE :: rest) = (v, rest).
Proof.
  intros Hr. induction v as [|c v IH].
  - cbn. destruct rest as [|d r]; [done|]. destruct (Z.eqb_spec d QUOTE) as [->|]; [by destruct (Hr r)|done].
  - unfold quote_body in *. cbn [flat_map]. destruct (Z.eqb_spec c QUOTE) as [->|Hne]; cbn [app scan_quoted].
    + change (QUOTE =? QUOTE) with true. cbn iota. by rewrite IH.
    + destruct (Z.eqb_spec c QUOTE); [done|]. by rewrite IH.
Qed.

Lemma at_delim_quote delims rest :
  at_delim delims rest -> is_delim delims QUOTE = false -> forall r, rest <> QUOTE :: r.
Proof. intros H1 H2 r ->. cbn in H1. congruence. Qed.

Lemma parse_ustr_text delims v s rest :
  value_text delims v s -> at_delim delims rest -> is_delim delims QUOTE = false ->
  parse_ustr (s ++ rest) delims = (v, rest).
Proof.
  intros [w|c t Hc Hs] Hr Hq.
  - unfold quoted. cbn [app parse_ustr]. change (QUOTE =? QUOTE) with true. cbn iota.
    rewrite <- app_assoc. cbn [app]. rewrite scan_quoted_text by (by eapply at_delim_quote).
    pose proof (scan_to_text delims [] rest ltac:(constructor) Hr) as E. cbn [app] in E. by rewrite E.
  - cbn [app]. unfold parse_ustr. destruct (Z.eqb_spec c QUOTE); [done|].
    pose proof (scan_to_text delims (c :: t) rest Hs Hr) as E. cbn [app] in E. by rewrite E.
Qed.

Lemma sep_by_length {A} (R : A -> ustr -> Prop) seps l t : sep_by R seps l t -> vsize l <= vsize t + 1.
Proof.
  induction 1 as [a s Ha|a s c l t Ha Hc Hl IH]; [unfold vsize; cbn; lia|].
  rewrite vsize_cons, vsize_app, vsize_cons. pose proof (vsize_nonneg s). lia.
Qed.

(** [it] stands before the values [vs], each behind a separator. *)
Definition more_values (sep : Z) (delims : ustr) (rest : ustr) (vs : list ustr) (it : ustr) : Prop :=
  vs = [] /\ it = rest \/ exists t, sep_by (value_text delims) [sep] vs t /\ it = sep :: t ++ rest.

Lemma sep_by_first {A} (R : A -> ustr -> Prop) seps a l t rest : sep_by R seps (a :: l) t ->
  exists s it, R a s /\ t ++ rest = s ++ it /\
    (l = [] /\ it = rest \/ exists c t', is_delim seps c = true /\ sep_by R seps l t' /\ it = c :: t' ++ rest).
Proof.
  inversion 1 as [? s Ha|? s c ? t' Ha Hc Hl]; subst.
  - exists t, rest. split; [done|]. split; [done|]. by left.
  - exists s, (c :: t' ++ rest). rewrite <- app_assoc. split; [done|]. split; [done|]. right. by exists c, t'.
Qed.

Lemma one_delim sep c : is_delim [sep] c = true -> c = sep.
Proof. cbn. destruct (Z.eqb_spec c sep); done. Qed.

Lemma values_text_loop sep delims rest vs it path :
  is_delim delims QUOTE = false -> is_delim delims sep = true ->
  at_delim delims rest -> (forall r, rest <> sep :: r) ->
  more_values sep delims rest vs it -> Forall (.≠ []) vs -> vsize it < 2 ^ 64 ->
  while_loop (values_body sep delims) (it, path) = Ret (rest, path ++ vs).
Proof.
  intros Hq Hsep Hrest Hne Hit Hvs Hl.
  destruct (while_loop_rule (values_body sep delims)
    (fun l st => more_values sep delims rest l st.1 /\ Forall (.≠ []) l /\ st.2 ++ l = path ++ vs)
    vsize (fun b => b = (rest, path ++ vs))) with (g := vs) (s := (it, path)) as (b & E & ->); try done.
  - intros l [it' acc] (Hm & Hl' & Hacc). cbn [fst snd] in *. split; [apply vsize_nonneg|].
    destruct Hm as [[-> ->]|(t & Ht & ->)]; cbn [values_body].
    + right. rewrite app_nil_r in Hacc. subst acc. exists (rest, path ++ vs). split; [|done].
      destruct rest as [|c r]; [done|]. destruct (Z.eqb_spec c sep) as [->|]; [by destruct (Hne r)|done].
    + left. rewrite Z.eqb_refl. destruct l as [|v l]; [inversion Ht|].
      destruct (sep_by_first _ _ _ _ _ rest Ht) as (s & it1 & Hv & -> & Hmore).
      assert (more_values sep delims rest l it1) as Hm.
      { destruct Hmore as [?|(c & t' & ->%one_delim & ? & ?)]; [by left|right; by exists t']. }
      assert (at_delim delims it1) as Hd by (destruct Hm as [[_ ->]|(t' & _ & ->)]; done).
      rewrite (parse_ustr_text _ _ _ _ Hv Hd Hq). apply Forall_cons in Hl' as [Hv0 Hl'].
      exists l, (it1, push_nonempty acc v). split; [done|]. cbn [fst snd].
      split; [|rewrite vsize_cons; lia]. split; [done|]. split; [done|].
      rewrite <- Hacc. unfold push_nonempty. destruct v; [done|]. by rewrite <- app_assoc.
  - destruct Hit as [[-> _]|(t & Ht%sep_by_length & ->)]; [done|].
    rewrite vsize_cons, vsize_app in Hl. pose proof (vsize_nonneg rest). unfold loop_fuel. lia.
Qed.

(** Behind the first value the others are collected. *)
Lemma first_and_more sep delims v vs t rest :
  is_delim delims QUOTE = false -> is_delim delims sep = true ->
  at_delim delims rest -> (forall r, rest <> sep :: r) ->
  sep_by (value_text delims) [sep] (v :: vs) t -> Forall (.≠ []) (v :: vs) -> vsize (t ++ rest) < 2 ^ 64 ->
  exists it, parse_ustr (t ++ rest) delims = (v, it) /\
    while_loop (values_body sep delims) (it, push_nonempty [] v) = Ret (rest, v :: vs).
Proof.
  intros Hq Hsep Hrest Hne Ht [Hv Hvs]%Forall_cons Hl.
  destruct (sep_by_first _ _ _ _ _ rest Ht) as (s & it & Hs & E & Hmore).
  assert (more_values sep delims rest vs it) as Hm.
  { destruct Hmore as [?|(c & t' & ->%one_delim & ? & ?)]; [by left|right; by exists t']. }
  assert (at_delim delims it) as Hd by (destruct Hm as [[_ ->]|(t' & _ & ->)]; done).
  exists it. rewrite E in Hl |- *. rewrite vsize_app in Hl. pose proof (vsize_nonneg s).
  split; [by apply parse_ustr_text|]. destruct v as [|c v]; [done|]. cbn [push_nonempty].
  rewrite (values_text_loop sep delims rest vs); try done. lia.
Qed.

(** A loop whose turns take the text of one element each. *)
Lemma elements_loop {A} (R : A -> ustr -> Prop) seps (body : ustr * list A -> res (ustr * list A + list A)) l src :
  (forall acc, body ([], acc) = Ret (inr acc)) ->
  (forall a s acc rest, a ∈ l -> R a s -> at_delim seps rest -> vsize (s ++ rest) < 2 ^ 64 ->
     body (s ++ rest, acc) = Ret (inl (tail rest, acc ++ [a]))) ->
  sep_by R seps l src -> vsize src < 2 ^ 64 ->
  while_loop body (src, []) = Ret l.
Proof.
  intros Hend Hstep Hsrc Hl.
  destruct (while_loop_rule body
    (fun k st => st.2 ++ k = l /\ vsize st.1 < 2 ^ 64 /\ (k = [] /\ st.1 = [] \/ sep_by R seps k st.1))
    vsize (fun b => b = l)) with (g := l) (s := (src, @nil A)) as (b & E & ->).
  - intros k [it acc] (Hacc & Hit & Hk). cbn [fst snd] in *. split; [apply vsize_nonneg|].
    destruct Hk as [[-> ->]|Hk]; [right; exists acc; rewrite app_nil_r in Hacc; by rewrite Hend|left].
    assert (forall a, a ∈ k -> a ∈ l) as Hin by (intros a Ha; rewrite <- Hacc; apply elem_of_app; by right).
    destruct Hk as [a s Ha|a s c k t Ha Hc Hk].
    + pose proof (Hstep a s acc [] (Hin a ltac:(by left)) Ha I) as E. rewrite app_nil_r in E.
      rewrite E by done. exists [], ([], acc ++ [a]). split; [done|]. cbn [fst snd].
      split; [|done]. rewrite app_nil_r. split; [done|]. split; [done|]. by left.
    + rewrite (Hstep a s acc (c :: t)); [|apply Hin; by left|done..]. cbn [tail].
      exists k, (t, acc ++ [a]). split; [done|]. cbn [fst snd]. rewrite <- app_assoc.
      rewrite vsize_app, vsize_cons in Hit. pose proof (vsize_nonneg s).
      split; [|rewrite vsize_cons; lia]. split; [done|]. split; [lia|]. by right.
  - split; [done|]. split; [done|]. by right.
  - apply sep_by_length in Hsrc. unfold loop_fuel. lia.
  - exact E.
Qed.

(** C26: Splitting inverts writing. A list of non-empty paths written value by
    value, with [>] inside a path and commas or semicolons between paths, splits
    into exactly these paths; a list of attributes written as name, colon and
    values between vertical lines splits into exactly these pairs. Each value
    may be quoted, and then hold any characters (delimiters, and quotes that
    are doubled), or stand as it is. *)
Theorem split_roundtrip :
  (forall paths src, vsize src < 2 ^ 64 -> Forall path_ok paths ->
     sep_by path_text [COMMA; SEMI_COLON] paths src -> split_group_path src [] = Ret paths) /\
  (forall pairs src, vsize src < 2 ^ 64 -> Forall pair_ok pairs ->
     sep_by pair_text [COMMA] pairs src -> split_attr_pair src [] = Ret pairs).
Proof.
  split; intros l src Hl Hok Hsrc; rewrite Forall_forall in Hok; unfold split_group_path, split_attr_pair.
  - apply (elements_loop path_text [COMMA; SEMI_COLON]); [done| |done..].
    intros path s acc rest [Hne Hvs]%Hok Ht Hrest Hlen. destruct path as [|v vs]; [done|].
    destruct (first_and_more GT COMMA_SEMICOLON_GT v vs s rest) as (it & E1 & E2); try done.
    { destruct rest as [|c r]; [done|]. cbn in Hrest |- *. destruct (c =? COMMA), (c =? SEMI_COLON); done. }
    { intros r ->. by cbn in Hrest. }
    destruct (s ++ rest) as [|c0 r0] eqn:E0.
    { apply app_eq_nil in E0 as [-> ->]. unfold parse_ustr in E1. injection E1 as E1 <-.
      exfalso. inversion Ht as [? ? Hv|? s' ? ? ? ? ? ? E4]; [inversion Hv|by destruct s']. }
    cbn [group_body]. rewrite E1, E2. cbn [res_bind push_nonempty]. destruct rest as [|c r]; [done|].
    cbn in Hrest. destruct (c =? COMMA); [done|]. by destruct (c =? SEMI_COLON).
  - apply (elements_loop pair_text [COMMA]); [done| |done..].
    intros [name values] s acc rest [Hn [Hne Hvs]]%Hok (sn & sv & -> & Hsn & Hsv) Hrest Hlen.
    cbn [fst snd] in *. destruct values as [|v vs]; [done|].
    rewrite <- app_assoc in Hlen |- *. cbn [app] in Hlen |- *. rewrite !vsize_app, vsize_cons in Hlen.
    pose proof (vsize_nonneg sn).
    destruct (first_and_more VL COMMA_VL v vs sv rest) as (it & E1 & E2); try done.
    { destruct rest as [|c r]; [done|]. cbn in Hrest |- *. by destruct (c =? COMMA). }
    { intros r ->. by cbn in Hrest. }
    { lia. }
    pose proof (parse_ustr_text [COLON] name sn (COLON :: sv ++ rest) Hsn eq_refl eq_refl) as En.
    destruct (sn ++ COLON :: sv ++ rest) as [|c0 r0] eqn:E0; [by destruct sn|].
    cbn [attr_body]. rewrite En. destruct name as [|n0 name]; [done|].
    rewrite E1, E2. cbn [res_bind]. destruct rest as [|c r]; [done|].
    cbn in Hrest. by destruct (c =? COMMA).
Qed.
End Split.

(** ** Examples *)

(** A text of ASCII characters, and the trimming of its spaces. *)
Definition text (s : string) : ustr := map (fun c => Z.of_nat (Ascii.nat_of_ascii c)) (String.list_ascii_of_string s).

Fixpoint trim_left (s : ustr) : ustr :=
  match s with c :: s' => if c =? 32 then trim_left s' else s | [] => [] end.

Definition trim (s : ustr) : ustr := rev (trim_left (rev (trim_left s))).

(** The examples of split_ustr.h, with a quoted value. *)
Example split_examples :
  split_group_path trim (text "life, pc > net ;phone>mobile>cell") [] =
    Ret [[text "life"]; [text "pc"; text "net"]; [text "phone"; text "mobile"; text "cell"]] /\
  split_attr_pair trim (text "brand:oey,year: 2011,size:S|M| L |XL") [] =
    Ret [(text "brand", [text "oey"]); (text "year", [text "2011"]); (text "size", [text "S"; text "M"; text "L"; text "XL"])] /\
  split_attr_pair trim (text "a:" ++ quoted (text "x,y|z" ++ [QUOTE])) [] = Ret [(text "a", [text "x,y|z" ++ [QUOTE]])].
Proof. vm_compute. split_and!; reflexivity. Qed.

Lemma split_total_witness :
  exists pairs, split_attr_pair trim (text "a:b|c,,x") [] = Ret pairs /\ Forall pair_ok pairs.
Proof.
  destruct (split_total trim (text "a:b|c,,x") [] [] eq_refl) as [_ (pairs & E & H)]. by exists pairs.
Defined.

Lemma split_roundtrip_witness :
  split_group_path trim (text "a>" ++ quoted (text "b,c") ++ text ";d") [] = Ret [[text "a"; text "b,c"]; [text "d"]].
Proof.
  apply (proj1 (split_roundtrip trim)); [done|by repeat constructor|].
  apply (sep_more _ _ [text "a"; text "b,c"] (text "a>" ++ quoted (text "b,c")) SEMI_COLON [[text "d"]] (text "d")); [|done|].
  - apply (sep_more _ _ (text "a") (text "a") GT [text "b,c"] (quoted (text "b,c"))); [|done|].
    + change (value_text trim COMMA_SEMICOLON_GT (trim [97]) [97]). apply plain_text; [done|by repeat constructor].
    + constructor. apply quoted_text.
  - constructor. constructor. change (value_text trim COMMA_SEMICOLON_GT (trim [100]) [100]). apply plain_text; [done|by repeat constructor].
Defined.
