(* ===== verification/AttrTable.v ===== *)
(** * The names and values of an attribute property

Models mining-manager/attr-manager/AttrTable.{h,cpp}: attribute names and
values get ids, the ids of a value depend on its name, and each document has a
list of value ids. The text type is a parameter; the lock, which guards whole
operations, and the paths of the files are not modelled. *)
From S2P Require Import Prelude OrdMap PropIdTable Storage.

Record AttrTable (T : Type) := AttrTab {
  nameStrVec_ : list T;
  saveNameStrNum_ : Z;
  nameStrMap_ : list (T * Z);
  valueStrVec_ : list T;
  saveValueStrNum_ : Z;
  nameIdVec_ : list Z;
  saveNameIdNum_ : Z;
  valueStrTable_ : list (list (T * Z));
  valueIdTable_ : PropIdTable;
  saveIndexNum_ : Z;
  saveValueNum_ : Z
}.
Arguments AttrTab {_} _ _ _ _ _ _ _ _ _ _ _.
Arguments nameStrVec_ {_} _.
Arguments saveNameStrNum_ {_} _.
Arguments nameStrMap_ {_} _.
Arguments valueStrVec_ {_} _.
Arguments saveValueStrNum_ {_} _.
Arguments nameIdVec_ {_} _.
Arguments saveNameIdNum_ {_} _.
Arguments valueStrTable_ {_} _.
Arguments valueIdTable_ {_} _.
Arguments saveIndexNum_ {_} _.
Arguments saveValueNum_ {_} _.

(** A line of the text file of names and values. *)
Inductive name_value_row (T : Type) := NameRow (nameId : Z) (name : T) | ValueRow (value : T) (valueId : Z).
Arguments NameRow {_} _ _.
Arguments ValueRow {_} _ _.

(** The files of one table. *)
Record attr_files (T : Type) := AttrFiles {
  name_value_file : file (name_value_row T);
  name_str_file : file T;
  value_str_file : file T;
  name_id_file : file Z;
  attr_index_file : file Z;
  attr_value_file : file Z
}.
Arguments AttrFiles {_} _ _ _ _ _ _.
Arguments name_value_file {_} _.
Arguments name_str_file {_} _.
Arguments value_str_file {_} _.
Arguments name_id_file {_} _.
Arguments attr_index_file {_} _.
Arguments attr_value_file {_} _.

Section AttrTable.
Context {T : Type} `{!TextOrder T} (empty_text : T).
Implicit Types (t : AttrTable T) (fs : attr_files T).

(** Id 0 is reserved for the empty name and value; the maps are empty. *)
Definition new_attr_table : AttrTable T :=
  AttrTab [empty_text] 0 [] [empty_text] 0 [0] 0 [] new_id_table 0 0.

(** Assignments to one member and the count of its saved elements. *)
Definition set_names (v : list T) (n : Z) t := AttrTab v n (nameStrMap_ t) (valueStrVec_ t) (saveValueStrNum_ t)
  (nameIdVec_ t) (saveNameIdNum_ t) (valueStrTable_ t) (valueIdTable_ t) (saveIndexNum_ t) (saveValueNum_ t).
Definition set_values (v : list T) (n : Z) t := AttrTab (nameStrVec_ t) (saveNameStrNum_ t) (nameStrMap_ t) v n
  (nameIdVec_ t) (saveNameIdNum_ t) (valueStrTable_ t) (valueIdTable_ t) (saveIndexNum_ t) (saveValueNum_ t).
Definition set_name_ids (v : list Z) (n : Z) t := AttrTab (nameStrVec_ t) (saveNameStrNum_ t) (nameStrMap_ t)
  (valueStrVec_ t) (saveValueStrNum_ t) v n (valueStrTable_ t) (valueIdTable_ t) (saveIndexNum_ t) (saveValueNum_ t).
Definition set_ids (ids : PropIdTable) (n1 n2 : Z) t := AttrTab (nameStrVec_ t) (saveNameStrNum_ t) (nameStrMap_ t)
  (valueStrVec_ t) (saveValueStrNum_ t) (nameIdVec_ t) (saveNameIdNum_ t) (valueStrTable_ t) ids n1 n2.
Definition set_maps (m : list (T * Z)) (table : list (list (T * Z))) t := AttrTab (nameStrVec_ t) (saveNameStrNum_ t) m
  (valueStrVec_ t) (saveValueStrNum_ t) (nameIdVec_ t) (saveNameIdNum_ t) table (valueIdTable_ t) (saveIndexNum_ t) (saveValueNum_ t).

(** [operator=] of two different tables. *)
Definition attr_assign t (other : AttrTable T) : AttrTable T :=
  AttrTab (nameStrVec_ other) (saveNameStrNum_ other) (nameStrMap_ other) (valueStrVec_ other)
    (saveValueStrNum_ other) (nameIdVec_ other) (saveNameIdNum_ other) (valueStrTable_ other)
    (valueIdTable_ other) (saveIndexNum_ other) (saveValueNum_ other).

(** [t.swap(other)]: the new contents of both. *)
Definition attr_swap t (other : AttrTable T) : AttrTable T * AttrTable T := (other, t).

Definition nameNum t : Z := vsize (nameStrVec_ t).
Definition valueNum t : Z := vsize (valueStrVec_ t).
Definition docIdNum t : Z := vsize (indexTable_ (valueIdTable_ t)).

Definition attr_resize (num : Z) t : AttrTable T :=
  set_ids (id_resize num (valueIdTable_ t)) (saveIndexNum_ t) (saveValueNum_ t) t.

(** The table after the operation, and whether it returned or threw a
    MiningException. The id table keeps the longer index when it throws. *)
Definition setValueIdList (docId : Z) (inputIdList : list Z) t : res (AttrTable T * bool) :=
  match setIdList docId inputIdList (valueIdTable_ t) with
  | Ret ids => Ret (set_ids ids (saveIndexNum_ t) (saveValueNum_ t) t, true)
  | Throw _ =>
      let ids := valueIdTable_ t in
      let ids := if vsize (indexTable_ ids) <=? docId then id_resize (u32 (docId + 1)) ids else ids in
      Ret (set_ids ids (saveIndexNum_ t) (saveValueNum_ t) t, false)
  | Undef => Undef
  | NoFuel => NoFuel
  end.

(** No id: the exception of an overflow, thrown after the map was extended. *)
Definition insertNameId (name : T) t : res (AttrTable T * option Z) :=
  let nameId := u32 (vsize (nameStrVec_ t)) in
  let* _ := assert_res (nameId =? vsize (valueStrTable_ t)) in
  let (nameStrMap, inserted) := om_insert (nameStrMap_ t) name nameId in
  let t := set_maps nameStrMap (valueStrTable_ t) t in
  if inserted then
    if negb (nameId =? 0) then
      Ret (set_names (nameStrVec_ t ++ [name]) (saveNameStrNum_ t)
             (set_maps nameStrMap (valueStrTable_ t ++ [[]]) t), Some nameId)
    else Ret (t, None)
  else Ret (t, om_find nameStrMap name).

Definition nameId (name : T) t : Z := default 0 (om_find (nameStrMap_ t) name).

Definition insertValueId (nameId : Z) (value : T) t : res (AttrTable T * option Z) :=
  let* _ := assert_res (nameId <? vsize (valueStrTable_ t)) in
  let* _ := assert_res (vsize (valueStrVec_ t) =? vsize (nameIdVec_ t)) in
  let valueId := u32 (vsize (valueStrVec_ t)) in
  let* valueStrMap := vget (valueStrTable_ t) nameId in
  let (valueStrMap, inserted) := om_insert valueStrMap value valueId in
  let* table := vset (valueStrTable_ t) nameId valueStrMap in
  let t := set_maps (nameStrMap_ t) table t in
  if inserted then
    if negb (valueId =? 0) then
      Ret (set_name_ids (nameIdVec_ t ++ [nameId]) (saveNameIdNum_ t)
             (set_values (valueStrVec_ t ++ [value]) (saveValueStrNum_ t) t), Some valueId)
    else Ret (t, None)
  else Ret (t, om_find valueStrMap value).

Definition valueId (nameId : Z) (value : T) t : res Z :=
  let* _ := assert_res (nameId <? vsize (valueStrTable_ t)) in
  let* valueStrMap := vget (valueStrTable_ t) nameId in
  Ret (default 0 (om_find valueStrMap value)).

Definition getValueIdList (docId : Z) t : res PropIdList := getIdList (valueIdTable_ t) docId.
Definition getValueIdCount (docId : Z) t : res Z := getIdCount (valueIdTable_ t) docId.
Definition nameStr (nameId : Z) t : res T := vget (nameStrVec_ t) nameId.
Definition valueStr (valueId : Z) t : res T := vget (valueStrVec_ t) valueId.
Definition valueId2NameId (valueId : Z) t : res Z := vget (nameIdVec_ t) valueId.

(** *** Persistence *)

Definition saveNameValuePair_ (can_write : bool) t (f : file (name_value_row T))
  : res (bool * file (name_value_row T)) :=
  let nameNum := u32 (vsize (valueStrTable_ t)) in
  if negb (nameNum =? vsize (nameStrVec_ t)) then Ret (false, f)
  else
    let valueNum := u32 (vsize (valueStrVec_ t)) in
    if (nameNum <=? saveNameStrNum_ t) && (valueNum <=? saveValueStrNum_ t) then Ret (true, f)
    else if negb can_write then Ret (false, f)
    else
      let* rows := mfold (fun nameId rows =>
        let* name := vget (nameStrVec_ t) nameId in
        let* valueStrMap := vget (valueStrTable_ t) nameId in
        Ret (rows ++ NameRow nameId name :: map (fun '(value, id) => ValueRow value id) valueStrMap))
        (seqZ 1 (nameNum - 1)) [] in
      Ret (true, Content rows).

(** [can_write] tells which of the six files can be written; each file that
    is written moves its count of saved elements. *)
Definition flush (can_write : bool * bool * bool * bool * bool * bool) t fs
  : res (bool * AttrTable T * attr_files T) :=
  let '(w0, w1, w2, w3, w4, w5) := can_write in
  let* (ok, f0) := saveNameValuePair_ w0 t (name_value_file fs) in
  let fs := AttrFiles f0 (name_str_file fs) (value_str_file fs) (name_id_file fs) (attr_index_file fs) (attr_value_file fs) in
  if negb ok then Ret (false, t, fs) else
  let '(ok, n1, f1) := save_grown w1 (nameStrVec_ t) (saveNameStrNum_ t) (name_str_file fs) in
  let t := set_names (nameStrVec_ t) n1 t in
  let fs := AttrFiles f0 f1 (value_str_file fs) (name_id_file fs) (attr_index_file fs) (attr_value_file fs) in
  if negb ok then Ret (false, t, fs) else
  let '(ok, n2, f2) := save_grown w2 (valueStrVec_ t) (saveValueStrNum_ t) (value_str_file fs) in
  let t := set_values (valueStrVec_ t) n2 t in
  let fs := AttrFiles f0 f1 f2 (name_id_file fs) (attr_index_file fs) (attr_value_file fs) in
  if negb ok then Ret (false, t, fs) else
  let '(ok, n3, f3) := save_grown w3 (nameIdVec_ t) (saveNameIdNum_ t) (name_id_file fs) in
  let t := set_name_ids (nameIdVec_ t) n3 t in
  let fs := AttrFiles f0 f1 f2 f3 (attr_index_file fs) (attr_value_file fs) in
  if negb ok then Ret (false, t, fs) else
  let '(ok, n4, f4) := save_grown w4 (indexTable_ (valueIdTable_ t)) (saveIndexNum_ t) (attr_index_file fs) in
  let t := set_ids (valueIdTable_ t) n4 (saveValueNum_ t) t in
  let fs := AttrFiles f0 f1 f2 f3 f4 (attr_value_file fs) in
  if negb ok then Ret (false, t, fs) else
  let '(ok, n5, f5) := save_grown w5 (multiValueTable_ (valueIdTable_ t)) (saveValueNum_ t) (attr_value_file fs) in
  let t := set_ids (valueIdTable_ t) n4 n5 t in
  Ret (ok, t, AttrFiles f0 f1 f2 f3 f4 f5).

(** nameStrMap_[nameStrVec_[i]] = i, for every name. *)
Definition load_names (names : list T) : res (list (T * Z)) :=
  mfold (fun i m => let* name := vget names i in Ret (om_set m name i)) (seqZ 0 (vsize names)) [].

(** valueStrTable_[nameIdVec_[i]][valueStrVec_[i]] = i, for every value. *)
Definition load_values (num : Z) (values : list T) (nameIds : list Z) : res (list (list (T * Z))) :=
  mfold (fun i table =>
    let* nameId := vget nameIds i in
    let* m := vget table nameId in
    let* value := vget values i in
    vset table nameId (om_set m value i))
    (seqZ 0 (vsize values)) (replicate (Z.to_nat num) []).

Definition open fs t : res (AttrTable T * bool) :=
  let '(ok, v, n) := load_counted (name_str_file fs) (nameStrVec_ t) (saveNameStrNum_ t) in
  let t := set_names v n t in
  if negb ok then Ret (t, false) else
  let '(ok, v, n) := load_counted (value_str_file fs) (valueStrVec_ t) (saveValueStrNum_ t) in
  let t := set_values v n t in
  if negb ok then Ret (t, false) else
  let '(ok, v, n) := load_counted (name_id_file fs) (nameIdVec_ t) (saveNameIdNum_ t) in
  let t := set_name_ids v n t in
  if negb ok then Ret (t, false) else
  let '(ok, ix, n) := load_counted (attr_index_file fs) (indexTable_ (valueIdTable_ t)) (saveIndexNum_ t) in
  let t := set_ids (IdTable ix (multiValueTable_ (valueIdTable_ t))) n (saveValueNum_ t) t in
  if negb ok then Ret (t, false) else
  let '(ok, mv, n) := load_counted (attr_value_file fs) (multiValueTable_ (valueIdTable_ t)) (saveValueNum_ t) in
  let t := set_ids (IdTable ix mv) (saveIndexNum_ t) n t in
  if negb ok then Ret (t, false) else
  let* names := load_names (nameStrVec_ t) in
  let* _ := assert_res (vsize (valueStrVec_ t) =? vsize (nameIdVec_ t)) in
  let* table := load_values (vsize (nameStrVec_ t)) (valueStrVec_ t) (nameIdVec_ t) in
  Ret (set_maps names table t, true).
End AttrTable.

Definition no_attr_files {T} : attr_files T := AttrFiles Missing Missing Missing Missing Missing Missing.

Example attr_table_ex :
  (let* (t, _) := open no_attr_files (new_attr_table 0) in
   let* (t, n1) := insertNameId 10 t in
   let* (t, v1) := insertValueId 1 20 t in
   let* (t, n2) := insertNameId 11 t in
   let* (t, v2) := insertValueId 2 20 t in
   let* (t, v3) := insertValueId 1 20 t in
   let* (t, ok) := setValueIdList 3 [1; 2] t in
   let* a := valueId2NameId 2 t in let* b := valueId 2 20 t in let* c := getValueIdCount 3 t in
   Ret ([n1; v1; n2; v2; v3], ok, [a; b; c; nameId 11 t; nameId 12 t]))
  = Ret ([Some 1; Some 1; Some 2; Some 2; Some 1], true, [2; 2; 2; 2; 0]).
Proof. vm_compute. reflexivity. Qed.

(** ** Ids of names and values *)
Section AttrProofs.
Context {T : Type} `{!TextOrder T} (empty_text : T).
Implicit Types (t : AttrTable T).

(** The map inverts the vector of names, which has no duplicates. *)
Definition names_ok (names : list T) (m : list (T * Z)) : Prop :=
  om_sorted m /\ forall s id, om_find m s = Some id <-> 0 <= id /\ vget names id = Ret s.

(** The invariant of an opened table. *)
Definition attr_ok t : Prop :=
  1 <= nameNum t < 2 ^ 32 /\ 1 <= valueNum t < 2 ^ 32 /\
  names_ok (nameStrVec_ t) (nameStrMap_ t) /\
  vsize (nameIdVec_ t) = valueNum t /\ vsize (valueStrTable_ t) = nameNum t /\
  (forall v, -1 < v < valueNum t -> exists n, vget (nameIdVec_ t) v = Ret n /\ 0 <= n < nameNum t) /\
  edges (-1) (valueStrVec_ t) (nameIdVec_ t) (valueStrTable_ t) (valueNum t).

(** What an insertion keeps. *)
Definition attr_extends t t' : Prop :=
  (forall n s, 0 <= n < nameNum t -> nameStr n t = Ret s -> nameStr n t' = Ret s) /\
  (forall v n s, 0 <= v < valueNum t -> valueStr v t = Ret s -> valueId2NameId v t = Ret n ->
     valueStr v t' = Ret s /\ valueId2NameId v t' = Ret n) /\
  valueIdTable_ t' = valueIdTable_ t.

Lemma attr_extends_refl t : attr_extends t t.
Proof. by repeat split. Qed.

Lemma vget_range {A} (l : list A) i a : vget l i = Ret a -> 0 <= i < vsize l.
Proof. intros [H1 H2%lookup_lt_Some]%vget_Ret. unfold vsize. lia. Qed.

Lemma names_ok_add names m name :
  names_ok names m -> om_find m name = None ->
  names_ok (names ++ [name]) (om_set m name (vsize names)).
Proof.
  intros [Hs Hm] Hf. split; [by apply om_set_sorted|]. intros s id.
  destruct (decide (s = name)) as [->|Hne].
  - rewrite om_find_set_eq. split.
    + intros [= <-]. split; [apply vsize_nonneg|apply vget_app_last].
    + intros [H0 H]. pose proof (vget_range _ _ _ H) as Hr. rewrite vsize_app in Hr. change (vsize [name]) with 1 in Hr.
      destruct (decide (id = vsize names)) as [->|]; [done|]. rewrite vget_app_l in H by lia.
      assert (om_find m name = Some id) by (by apply Hm). congruence.
  - rewrite om_find_set_ne, Hm by done. split.
    + intros [H0 H]. split; [done|]. by rewrite vget_app_l by (by eapply vget_range).
    + intros [H0 H]. split; [done|]. pose proof (vget_range _ _ _ H) as Hr. rewrite vsize_app in Hr.
      change (vsize [name]) with 1 in Hr. destruct (decide (id = vsize names)) as [->|].
      * rewrite vget_app_last in H. congruence.
      * by rewrite vget_app_l in H by lia.
Qed.

Lemma insertNameId_ok t name :
  attr_ok t -> nameNum t + 1 < 2 ^ 32 ->
  exists t' n, insertNameId name t = Ret (t', Some n) /\ attr_ok t' /\ attr_extends t t' /\
    0 <= n < nameNum t' /\ nameNum t' <= nameNum t + 1 /\ valueNum t' = valueNum t /\
    nameId name t' = n /\ nameStr n t' = Ret name.
Proof.
  intros Ht Hbig. pose proof Ht as (Hn & Hv & [Hs Hm] & Hi & Hc & Hg & He). unfold insertNameId. fold (nameNum t).
  rewrite u32_small, Hc, Z.eqb_refl by lia. cbn [assert_res res_bind]. unfold om_insert.
  destruct (om_find (nameStrMap_ t) name) as [n|] eqn:Ef.
  - exists t, n. rewrite Ef. split; [by destruct t|]. apply Hm in Ef as Hget. destruct Hget as [H0 Hget].
    pose proof (vget_range _ _ _ Hget). split; [done|]. split; [apply attr_extends_refl|].
    unfold nameNum, nameId, nameStr in *. rewrite Ef. split_and!; done || lia.
  - destruct (Z.eqb_spec (nameNum t) 0); [lia|]. cbn [negb].
    match goal with |- context [Ret (?u, Some (nameNum t))] => set (t' := u) end.
    assert (nameNum t' = nameNum t + 1) as Hn' by (unfold nameNum, t'; cbn; by rewrite vsize_app).
    exists t', (nameNum t). split; [done|].
    split; [|split; [|split_and!; try lia; try done]].
    + unfold attr_ok. rewrite Hn'. unfold valueNum, t' in *. cbn in *. split; [lia|]. split; [lia|].
      split; [by apply names_ok_add|]. split; [done|]. split; [by rewrite vsize_app, Hc|]. split.
      * intros v Hvv. destruct (Hg v Hvv) as (k & E & Hlt). exists k. split; [done|lia].
      * apply edges_new_group; [|done]. intros v Hvv E. destruct (Hg v Hvv) as (k & E' & Hlt).
        rewrite E, Hc in E'. injection E'. lia.
    + unfold attr_extends, nameStr, nameNum, t'. cbn. split; [|by split].
      intros k s Hr Hget. by rewrite vget_app_l.
    + unfold nameId, t'. cbn. by rewrite om_find_set_eq.
    + unfold nameStr, t'. cbn. apply vget_app_last.
Qed.

Lemma insertValueId_ok t n value :
  attr_ok t -> 0 <= n < nameNum t -> valueNum t + 1 < 2 ^ 32 ->
  exists t' v, insertValueId n value t = Ret (t', Some v) /\ attr_ok t' /\ attr_extends t t' /\
    0 <= v < valueNum t' /\ valueNum t' <= valueNum t + 1 /\
    nameStrVec_ t' = nameStrVec_ t /\ nameStrMap_ t' = nameStrMap_ t /\
    valueId n value t' = Ret v /\ valueStr v t' = Ret value /\ valueId2NameId v t' = Ret n.
Proof.
  intros Ht Hr Hbig. pose proof Ht as (Hn & Hv & Hm & Hi & Hc & Hg & He).
  unfold insertValueId, valueId. fold (valueNum t). destruct (Z.ltb_spec n (vsize (valueStrTable_ t))); [|lia].
  rewrite Hi, Z.eqb_refl, u32_small by lia. cbn [assert_res res_bind].
  destruct (He n ltac:(lia)) as (m & Em & Hms & Hmm). rewrite Em. cbn [res_bind]. unfold om_insert.
  destruct (om_find m value) as [v|] eqn:Ef.
  - rewrite vset_Ret by lia. cbn [res_bind]. apply Hmm in Ef as Hget. destruct Hget as (H1 & H2 & H3).
    pose proof Em as [H0 Em']%vget_Ret. rewrite list_insert_id by done.
    exists t, v. rewrite Ef. split; [by destruct t|]. split; [done|]. split; [apply attr_extends_refl|].
    destruct (Z.ltb_spec n (vsize (valueStrTable_ t))); [|lia]. cbn [assert_res res_bind]. rewrite Em. cbn [res_bind].
    rewrite Ef. unfold valueStr, valueId2NameId. split_and!; done || lia.
  - set (k := valueNum t) in *. set (values := valueStrVec_ t ++ [value]). set (ids := nameIdVec_ t ++ [n]).
    assert (forall v, 0 <= v < k -> vget values v = vget (valueStrVec_ t) v /\ vget ids v = vget (nameIdVec_ t) v) as Hold.
    { intros v Hvv. unfold values, ids. rewrite !vget_app_l by (rewrite ?Hi; done). done. }
    assert (vget ids k = Ret n) as Hnk by (unfold ids; rewrite <- Hi; apply vget_app_last).
    assert (vget values k = Ret value) as Hvk by apply vget_app_last.
    destruct (edges_add (-1) values ids (valueStrTable_ t) k n value) as (m' & table & Em' & Et & Hts & He');
      [lia|lia|done|done|by eapply edges_frame; [|exact He]; intros; apply Hold; lia| |].
    { intros v Hvv E1 E2. destruct (Hold v ltac:(lia)) as [H1 H2]. rewrite H1, Hvk in E2. rewrite H2, Hnk in E1.
      assert (om_find m value = Some v) by (by apply Hmm). congruence. }
    rewrite Em in Em'. injection Em' as <-. rewrite Et. cbn [res_bind].
    destruct (Z.eqb_spec k 0); [lia|]. cbn [negb]. eexists _, _. split; [done|].
    unfold attr_ok, attr_extends, nameNum, valueNum, valueStr, valueId2NameId, nameStr; cbn; fold values ids.
    assert (vsize values = k + 1) as -> by (unfold values; by rewrite vsize_app). unfold nameNum in *.
    change (vsize (valueStrVec_ t)) with k.
    split; [|split; [|split_and!; try done; try lia]].
    + split; [lia|]. split; [lia|]. split; [done|]. split; [unfold ids; rewrite vsize_app, Hi; done|]. split; [congruence|].
      split; [|done]. intros v Hvv. destruct (decide (v = k)) as [->|]; [by exists n|].
      rewrite (proj2 (Hold v ltac:(lia))). apply Hg. lia.
    + split; [done|]. split; [|done]. intros v n' s Hvv. by destruct (Hold v Hvv) as [-> ->].
    + rewrite Hts. destruct (Z.ltb_spec n (vsize (valueStrTable_ t))); [|lia]. cbn.
      rewrite (vget_vset _ _ _ _ _ Et), Z.eqb_refl by lia. cbn. by rewrite om_find_set_eq.
Qed.

Lemma attr_extends_trans t1 t2 t3 : attr_extends t1 t2 -> attr_extends t2 t3 -> attr_extends t1 t3.
Proof.
  intros (X1 & X2 & X3) (Y1 & Y2 & Y3). split; [|split; [|congruence]].
  - intros k s Hk Hs. pose proof (X1 k s Hk Hs) as Hs'. apply Y1; [by eapply vget_range|done].
  - intros k m s Hk Hs Hm. destruct (X2 k m s Hk Hs Hm) as [Hs' Hm']. apply Y2; [by eapply vget_range|done..].
Qed.

(** C28: inserting the name and then a value of an attribute keeps the
    invariant of the table; both are found again under the ids returned, the
    value id leads back to the name id, and every id given out before keeps
    its name, its value and its documents. (So equal values of two names have
    different ids, as AttrTable.h demands.) *)
Theorem insert_attr_ok t name value :
  attr_ok t -> nameNum t + 1 < 2 ^ 32 -> valueNum t + 1 < 2 ^ 32 ->
  exists t1 n t2 v, insertNameId name t = Ret (t1, Some n) /\ insertValueId n value t1 = Ret (t2, Some v) /\
    attr_ok t2 /\ attr_extends t t2 /\
    nameId name t2 = n /\ nameStr n t2 = Ret name /\
    valueId n value t2 = Ret v /\ valueStr v t2 = Ret value /\ valueId2NameId v t2 = Ret n.
Proof.
  intros Ht Hn Hv.
  destruct (insertNameId_ok t name Ht Hn) as (t1 & n & E1 & H1 & X & Hr & Hle & Heq & Hid & Hstr).
  destruct (insertValueId_ok t1 n value H1 Hr ltac:(lia)) as (t2 & v & E2 & H2 & Y & Hr2 & _ & Hs1 & Hs2 & Hval).
  exists t1, n, t2, v. split; [done|]. split; [done|]. split; [done|]. split.
  - by eapply attr_extends_trans.
  - unfold nameId, nameStr in *. rewrite Hs1, Hs2. tauto.
Qed.

Lemma nameId_range t name : attr_ok t -> 0 <= nameId name t < nameNum t.
Proof.
  intros (Hn & _ & [_ Hm] & _). unfold nameId. destruct (om_find _ _) as [i|] eqn:Ef; cbn; [|lia].
  apply Hm in Ef as [H0 Ef]. by eapply vget_range.
Qed.

(** The id of a value, or 0. *)
Lemma valueId_ok t n value : attr_ok t -> 0 <= n < nameNum t ->
  exists v, valueId n value t = Ret v /\
    (forall k, 0 <= k -> valueId2NameId k t = Ret n -> valueStr k t = Ret value -> k = v) /\
    (v <> 0 -> valueId2NameId v t = Ret n /\ valueStr v t = Ret value).
Proof.
  intros (Hn & Hv & _ & Hi & Hc & Hg & He) Hr. unfold valueId. rewrite (proj2 (Z.ltb_lt _ _)) by lia. cbn [assert_res res_bind].
  destruct (He n ltac:(lia)) as (m & -> & _ & Hm). cbn [res_bind]. eexists. split; [done|]. split.
  - intros k Hk E1 E2. pose proof (vget_range _ _ _ E2). assert (om_find m value = Some k) as ->; [|done].
    apply Hm. unfold valueNum. split; [lia|done].
  - intros H0. destruct (om_find m value) as [v|] eqn:Ef; [|done]. cbn in *. by apply Hm in Ef as (_ & ? & ?).
Qed.

(** The invariant does not look at the documents. *)
Lemma attr_ok_docs t t' :
  attr_ok t -> t' = set_ids (valueIdTable_ t') (saveIndexNum_ t') (saveValueNum_ t') t -> attr_ok t'.
Proof. by intros Ht ->. Qed.

(** *** Saving and loading *)

Lemma load_names_ok names m : names_ok names m -> load_names names = Ret m.
Proof.
  intros Hm. unfold load_names. match goal with |- context [mfold ?g _ _] => set (body := g) end.
  destruct (mfold_seqZ body (fun i m => names_ok (take (Z.to_nat i) names) m) 0 (vsize names) [])
    as (m' & E & Hm'); [apply vsize_nonneg| | |].
  - intros i m1 Hi Hm1. unfold body. destruct (vget_in_range names i ltac:(lia)) as [s Es].
    rewrite Es. cbn [res_bind]. eexists. split; [done|]. pose proof Es as [_ Es']%vget_Ret.
    replace (Z.to_nat (i + 1)) with (Datatypes.S (Z.to_nat i)) by lia. rewrite (take_S_r _ _ s) by done.
    assert (vsize (take (Z.to_nat i) names) = i) as Hsz.
    { unfold vsize in *. rewrite length_take. lia. }
    replace (om_set m1 s i) with (om_set m1 s (vsize (take (Z.to_nat i) names))) by (by rewrite Hsz).
    apply names_ok_add; [done|].
    destruct (om_find m1 s) as [id|] eqn:Ef; [|done]. exfalso. apply Hm1 in Ef as [H0 Ef].
    pose proof (vget_range _ _ _ Ef) as Hr. rewrite Hsz in Hr. apply vget_Ret in Ef as [_ Ef].
    rewrite lookup_take_lt in Ef by lia.
    assert (vget names id = Ret s) as Eid by (by apply vget_Ret).
    assert (om_find m s = Some id) as F1 by (by apply Hm).
    assert (om_find m s = Some i) as F2 by (apply Hm; split; [lia|done]). rewrite F1 in F2. injection F2. lia.
  - change (take (Z.to_nat 0) names) with (@nil T). split; [constructor|]. intros s id. split; [done|].
    intros [_ H%vget_range]. change (vsize []) with 0 in H. lia.
  - fold body. rewrite E. f_equal. unfold vsize in Hm'. rewrite firstn_all2 in Hm' by lia.
    destruct Hm as [Hs Hf], Hm' as [Hs' Hf']. apply om_ext; [done..|]. intros s.
    destruct (om_find m s) as [id|] eqn:E1; [by apply Hf, Hf' in E1|].
    destruct (om_find m' s) as [id|] eqn:E2; [|done]. apply Hf', Hf in E2. congruence.
Qed.

Lemma load_values_ok num values ids table :
  vsize ids = vsize values -> vsize table = num ->
  (forall v, -1 < v < vsize values -> exists n, vget ids v = Ret n /\ 0 <= n < num) ->
  edges (-1) values ids table (vsize values) -> load_values num values ids = Ret table.
Proof.
  intros Hi Hnum Hg He. unfold load_values. match goal with |- context [mfold ?g _ _] => set (body := g) end.
  pose proof (vsize_nonneg table).
  assert (edges_unambiguous (-1) values ids (vsize values)) as Hun.
  { apply (edges_no_clash (-1) values ids table); [|lia|done]. intros v Hv. destruct (Hg v Hv) as (n & E & Hlt).
    exists n. split; [done|lia]. }
  destruct (mfold_seqZ body (fun i tb => vsize tb = num /\ edges (-1) values ids tb i) 0 (vsize values)
    (replicate (Z.to_nat num) [])) as (tb & E & Hsz & Htb); [apply vsize_nonneg| | |].
  - intros i tb Hiv (Hsz & Htb). unfold body. destruct (Hg i ltac:(lia)) as (n & En & Hn). rewrite En. cbn [res_bind].
    destruct (vget_in_range values i ltac:(lia)) as [s Es].
    destruct (edges_add (-1) values ids tb i n s) as (m & tb' & -> & Et & Hsz' & He'); try done; [lia|lia|..].
    { intros v Hv. apply Hun; lia. }
    cbn [res_bind]. rewrite Es. cbn [res_bind]. exists tb'. split; [done|]. split; [congruence|done].
  - split; [unfold vsize; rewrite length_replicate; lia|]. by apply edges_empty.
  - fold body. rewrite E. f_equal. by apply (edges_unique (-1) values ids _ _ (vsize values)); [congruence| |].
Qed.

Lemma saveNameValuePair_ok w t f :
  vsize (valueStrTable_ t) = nameNum t -> 1 <= nameNum t < 2 ^ 32 ->
  exists ok f', saveNameValuePair_ w t f = Ret (ok, f') /\ (w = true -> ok = true).
Proof.
  intros Hc Hn. unfold saveNameValuePair_. fold (nameNum t). rewrite Hc, u32_small, Z.eqb_refl by lia. cbn [negb].
  destruct (_ && _); [by eexists _, _|]. destruct w; cbn [negb]; [|by eexists _, _]. match goal with |- context [mfold ?g _ _] => set (body := g) end.
  destruct (mfold_seqZ body (fun _ _ => True) 1 (nameNum t - 1) []) as (rows & E & _); [lia| |done|].
  - intros i rows Hi _. unfold body. destruct (vget_in_range (nameStrVec_ t) i) as [s ->]; [unfold nameNum in *; lia|].
    destruct (vget_in_range (valueStrTable_ t) i) as [m ->]; [lia|]. cbn [res_bind]. by eexists.
  - rewrite E. by eexists _, _.
Qed.

(** The files hold what the table counts as saved. *)
Definition files_hold t fs : Prop :=
  saved_upto (nameStrVec_ t) (saveNameStrNum_ t) (name_str_file fs) /\
  saved_upto (valueStrVec_ t) (saveValueStrNum_ t) (value_str_file fs) /\
  saved_upto (nameIdVec_ t) (saveNameIdNum_ t) (name_id_file fs) /\
  saved_upto (indexTable_ (valueIdTable_ t)) (saveIndexNum_ t) (attr_index_file fs) /\
  saved_upto (multiValueTable_ (valueIdTable_ t)) (saveValueNum_ t) (attr_value_file fs).

(** The same table but for the counts of saved elements. *)
Definition same_attrs t t' : Prop :=
  nameStrVec_ t' = nameStrVec_ t /\ nameStrMap_ t' = nameStrMap_ t /\ valueStrVec_ t' = valueStrVec_ t /\
  nameIdVec_ t' = nameIdVec_ t /\ valueStrTable_ t' = valueStrTable_ t /\ valueIdTable_ t' = valueIdTable_ t.

Definition attr_sizes t : Prop :=
  1 <= docIdNum t < 2 ^ 32 /\ vsize (multiValueTable_ (valueIdTable_ t)) < 2 ^ 32.

Lemma attr_ok_same t t' : same_attrs t t' -> attr_ok t -> attr_ok t'.
Proof. unfold attr_ok, nameNum, valueNum. by intros (-> & -> & -> & -> & -> & _). Qed.

Ltac attr_fields :=
  cbn [negb nameStrVec_ saveNameStrNum_ nameStrMap_ valueStrVec_ saveValueStrNum_ nameIdVec_ saveNameIdNum_
    valueStrTable_ valueIdTable_ saveIndexNum_ saveValueNum_ name_value_file name_str_file value_str_file
    name_id_file attr_index_file attr_value_file no_attr_files set_names set_values set_name_ids set_ids set_maps
    indexTable_ multiValueTable_ new_id_table new_attr_table].

Lemma attr_flush_files_hold t fs can_write :
  attr_ok t -> attr_sizes t -> files_hold t fs ->
  exists ok t' fs', flush can_write t fs = Ret (ok, t', fs') /\ same_attrs t t' /\ files_hold t' fs' /\
    (can_write = (true, true, true, true, true, true) -> ok = true) /\
    (ok = true -> exists t'', open fs' (new_attr_table empty_text) = Ret (t'', true) /\
       same_attrs t t'' /\ files_hold t'' fs').
Proof.
  intros (Hn & Hv & Hm & Hi & Hc & Hg & He) [Hix Hmv] (F1 & F2 & F3 & F4 & F5).
  destruct can_write as [[[[[w0 w1] w2] w3] w4] w5].
  destruct (saveNameValuePair_ok w0 t (name_value_file fs) Hc ltac:(lia)) as (ok0 & f0 & E0 & W0).
  destruct t as [names n1 m values n2 ids n3 table [ix mv] n4 n5], fs as [f0' f1 f2 f3 f4 f5].
  unfold nameNum, valueNum, docIdNum in *. cbn in * |-.
  destruct (save_grown_ok w1 names n1 f1) as (ok1 & m1 & g1 & E1 & S1 & W1 & L1); [lia|done|].
  destruct (save_grown_ok w2 values n2 f2) as (ok2 & m2 & g2 & E2 & S2 & W2 & L2); [lia|done|].
  destruct (save_grown_ok w3 ids n3 f3) as (ok3 & m3 & g3 & E3 & S3 & W3 & L3); [lia|done|].
  destruct (save_grown_ok w4 ix n4 f4) as (ok4 & m4 & g4 & E4 & S4 & W4 & L4); [lia|done|].
  destruct (save_grown_ok w5 mv n5 f5) as (ok5 & m5 & g5 & E5 & S5 & W5 & L5); [lia|done|].
  unfold flush. cbn [name_value_file]. rewrite E0. cbn [res_bind]. attr_fields.
  destruct ok0; attr_fields; [|eexists _, _, _; split; [done|]; split; [done|]; split; [done|]; split; [intros [=]; by apply W0|done]].
  rewrite E1. attr_fields.
  destruct ok1; attr_fields; [|eexists _, _, _; split; [done|]; split; [done|]; split; [done|]; split; [intros [=]; by apply W1|done]].
  rewrite E2. attr_fields.
  destruct ok2; attr_fields; [|eexists _, _, _; split; [done|]; split; [done|]; split; [done|]; split; [intros [=]; by apply W2|done]].
  rewrite E3. attr_fields.
  destruct ok3; attr_fields; [|eexists _, _, _; split; [done|]; split; [done|]; split; [done|]; split; [intros [=]; by apply W3|done]].
  rewrite E4. attr_fields.
  destruct ok4; attr_fields; [|eexists _, _, _; split; [done|]; split; [done|]; split; [done|]; split; [intros [=]; by apply W4|done]].
  rewrite E5. attr_fields.
  eexists _, _, _. split; [done|]. split; [done|]. split; [done|]. split; [intros [=]; by apply W5|]. intros ->.
  destruct (L1 eq_refl) as [-> L1'], (L2 eq_refl) as [-> L2'], (L3 eq_refl) as [-> L3'], (L4 eq_refl) as [-> L4'], (L5 eq_refl) as [-> L5'].
  assert (forall {A} (l : list A), 1 <= vsize l -> l <> []) as Hne by (intros A l Hl ->; by cbv in Hl).
  unfold open. attr_fields.
  rewrite L1' by (intros E; by apply Hne in E; [|lia]). attr_fields.
  rewrite L2' by (intros E; by apply Hne in E; [|lia]). attr_fields.
  rewrite L3' by (intros E; by apply Hne in E; [|lia]). attr_fields.
  rewrite L4' by (intros E; by apply Hne in E; [|lia]). attr_fields.
  rewrite L5' by done. attr_fields. rewrite (load_names_ok _ _ Hm). cbn [res_bind].
  rewrite Hi, Z.eqb_refl. cbn [assert_res res_bind].
  rewrite (load_values_ok (vsize names) values ids table) by done. eexists. split; [done|]. split; [by unfold same_attrs|]. unfold files_hold; attr_fields. rewrite Hi in S3. by split_and!.
Qed.


(** *** A table must be opened first *)

Lemma fresh_attr_ok :
  attr_ok (AttrTab [empty_text] 0 [(empty_text, 0)] [empty_text] 0 [0] 0 [[(empty_text, 0)]] new_id_table 0 0).
Proof.
  unfold attr_ok, nameNum, valueNum. cbn.
  change (vsize [empty_text]) with 1. split; [lia|]. split; [lia|].
  assert (forall s id, om_find [(empty_text, 0)] s = Some id <-> 0 <= id /\ vget [empty_text] id = Ret s) as Hf.
  { intros s id. cbn. split.
    - destruct (tcompare s empty_text) eqn:E; [|done..]. apply tcompare_eq in E as ->. by intros [= <-].
    - intros [H0 H]. pose proof (vget_range _ _ _ H) as Hr. change (vsize [empty_text]) with 1 in Hr.
      assert (id = 0) as -> by lia. injection H as <-. by rewrite tcompare_refl. }
  split; [split; [|exact Hf]; apply om_sorted_cons; split; constructor|].
  split; [done|]. split; [done|]. split.
  - intros v Hv. assert (v = 0) as -> by lia. exists 0. split; [done|lia].
  - intros p Hp. change (vsize [[(empty_text, 0)]]) with 1 in Hp. assert (p = 0) as -> by lia.
    eexists. split; [done|]. split; [apply om_sorted_cons; split; constructor|]. intros s id. rewrite Hf.
    split; intros H; [|split; [lia|tauto]]. destruct H as [H0 H]. pose proof (vget_range _ _ _ H) as Hr.
    change (vsize [empty_text]) with 1 in Hr. assert (id = 0) as -> by lia. split; [lia|done].
Qed.

(** A table that was constructed but not opened cannot take attributes:
    the first insertion of any name fails the assert (the vector of maps is
    empty although id 0 is counted), and flushing it reports failure whatever
    files can be written. Opening it, even without any file, gives a table with
    the invariant that has no names and no values besides the reserved ones. *)
Theorem attr_open_first (name : T) (can_write : bool * bool * bool * bool * bool * bool) (fs : attr_files T) :
  insertNameId name (new_attr_table empty_text) = Undef /\
  (exists fs', flush can_write (new_attr_table empty_text) fs = Ret (false, new_attr_table empty_text, fs')) /\
  exists t, open no_attr_files (new_attr_table empty_text) = Ret (t, true) /\ attr_ok t /\
    nameNum t = 1 /\ valueNum t = 1.
Proof.
  split; [done|]. split.
  - destruct can_write as [[[[[w0 w1] w2] w3] w4] w5]. by eexists.
  - eexists. split; [vm_compute; done|]. split; [apply fresh_attr_ok|done].
Qed.
End AttrProofs.

(** A fresh table. *)
Definition opened_table : AttrTable Z := AttrTab [0] 0 [(0, 0)] [0] 0 [0] 0 [[(0, 0)]] new_id_table 0 0.

Lemma opened_table_ok : attr_ok opened_table.
Proof. apply (fresh_attr_ok 0). Qed.

Lemma insert_attr_ok_witness :
  exists t1 n t2 v, insertNameId 10 opened_table = Ret (t1, Some n) /\ insertValueId n 20 t1 = Ret (t2, Some v) /\
    attr_ok t2 /\ attr_extends opened_table t2 /\
    nameId 10 t2 = n /\ nameStr n t2 = Ret 10 /\
    valueId n 20 t2 = Ret v /\ valueStr v t2 = Ret 20 /\ valueId2NameId v t2 = Ret n.
Proof. apply insert_attr_ok; [apply opened_table_ok|vm_compute; done..]. Defined.

(** A table that was flushed with one name and one value of one document, and
    has got a second value and a second document since. *)
Definition attr_of (r : res (AttrTable Z * option Z)) : AttrTable Z :=
  match r with Ret (t, _) => t | _ => opened_table end.
Definition docs_of (r : res (AttrTable Z * bool)) : AttrTable Z :=
  match r with Ret (t, _) => t | _ => opened_table end.
Definition ex_attrs : AttrTable Z :=
  docs_of (setValueIdList 1 [1] (attr_of (insertValueId 1 20 (attr_of (insertNameId 10 opened_table))))).
Definition ex_attr_flushed : AttrTable Z * attr_files Z :=
  match flush (true, true, true, true, true, true) ex_attrs no_attr_files with
  | Ret (_, t, fs) => (t, fs)
  | _ => (opened_table, no_attr_files)
  end.
Definition ex_attrs_grown : AttrTable Z :=
  docs_of (setValueIdList 2 [1; 2] (attr_of (insertValueId 1 21 ex_attr_flushed.1))).

Lemma ex_attrs_ok : attr_ok ex_attrs /\ attr_ok ex_attrs_grown.
Proof.
  assert (forall t name value, attr_ok t -> nameNum t + 1 < 2 ^ 32 -> valueNum t + 1 < 2 ^ 32 ->
    0 <= name < nameNum t -> attr_ok (attr_of (insertValueId name value t))) as Hv.
  { intros t n value Ht Hn Hv Hr. by destruct (insertValueId_ok t n value Ht Hr Hv) as (t' & v & -> & ? & _). }
  assert (forall t name, attr_ok t -> nameNum t + 1 < 2 ^ 32 -> attr_ok (attr_of (insertNameId name t))) as Hn.
  { intros t name Ht Hn. by destruct (insertNameId_ok t name Ht Hn) as (t' & n & -> & ? & _). }
  assert (attr_ok ex_attrs) as H1.
  { apply (attr_ok_docs (attr_of (insertValueId 1 20 (attr_of (insertNameId 10 opened_table))))); [|by vm_compute].
    apply Hv; [apply Hn; [apply opened_table_ok|by vm_compute]|by vm_compute..|vm_compute; split; [discriminate|reflexivity]]. }
  split; [done|].
  apply (attr_ok_docs (attr_of (insertValueId 1 21 ex_attr_flushed.1))); [|by vm_compute].
  apply Hv; [|by vm_compute..|vm_compute; split; [discriminate|reflexivity]].
  apply (attr_ok_same ex_attrs); [by vm_compute|done].
Qed.

