(* ===== verification/AttrCounter.v ===== *)
(** * Counting the documents of attribute values

Models mining-manager/attr-manager/AttrCounter.{h,cpp} and the subclass of
AttrScoreCounter.{h,cpp}: documents are added one by one, the counts of their
attribute names and values are kept in maps, and the result lists the best
names with their values. The two score functions are virtual: the operations
that call them take them as parameters, and [X] is the state a subclass adds.
The attribute tokenizer AttrTokenizeWrapper is a parameter of the subclass. *)
From S2P Require Import Prelude PQueue Float64 OrdMap TopK Storage PropIdTable OntologyRep.
From S2P Require AttrTable PropValueTable.
Import AttrTable (AttrTable, nameStrVec_, valueStrVec_, nameIdVec_, getValueIdList, nameStr, valueStr, valueId2NameId).

Record AttrCounter (X : Type) := Counter {
  iterCount_ : Z;
  nameDocCountTable_ : list (Z * Z);
  nameValueCountTable_ : list (Z * Z);
  valueDocCountTable_ : list (Z * Z);
  extra : X
}.
Arguments Counter {_} _ _ _ _ _.
Arguments iterCount_ {_} _.
Arguments nameDocCountTable_ {_} _.
Arguments nameValueCountTable_ {_} _.
Arguments valueDocCountTable_ {_} _.
Arguments extra {_} _.

(** [++m[k]] and [m[k]] of a std::map from ids; reading a missing key inserts
    the value-initialised element. *)
Definition om_incr (m : list (Z * Z)) (k : Z) : list (Z * Z) :=
  om_set m k (s32 (default 0 (om_find m k) + 1)).
Definition om_at {V} (d : V) (m : list (Z * V)) (k : Z) : V * list (Z * V) :=
  (default d (om_find m k), (om_insert m k d).1).

Notation ScoreValueMap := (list (spec_float * Z)).
Notation NameValueMap := (list (Z * ScoreValueMap)).

Section AttrCounter.
Context {T X : Type} (attrTable_ : AttrTable T).
Context (minValueCount_ maxIterCount_ : Z).
Implicit Types (c : AttrCounter X).

Definition new_counter (x : X) : AttrCounter X := Counter 0 [] [] [] x.

Definition incr_value (vId : Z) c :=
  Counter (iterCount_ c) (nameDocCountTable_ c) (nameValueCountTable_ c) (om_incr (valueDocCountTable_ c) vId) (extra c).
Definition incr_name (nameId : Z) c :=
  Counter (iterCount_ c) (om_incr (nameDocCountTable_ c) nameId) (nameValueCountTable_ c) (valueDocCountTable_ c) (extra c).
Definition incr_name_values (nameId : Z) c :=
  Counter (iterCount_ c) (nameDocCountTable_ c) (om_incr (nameValueCountTable_ c) nameId) (valueDocCountTable_ c) (extra c).
Definition set_name_docs (m : list (Z * Z)) c :=
  Counter (iterCount_ c) m (nameValueCountTable_ c) (valueDocCountTable_ c) (extra c).
Definition set_value_docs (m : list (Z * Z)) c :=
  Counter (iterCount_ c) (nameDocCountTable_ c) (nameValueCountTable_ c) m (extra c).

(** The guard of [addDoc] and [addAttrDoc]: nothing once the limit is reached. *)
Definition count_iter c : option (AttrCounter X) :=
  if maxIterCount_ =? 0 then Some c
  else if maxIterCount_ <=? iterCount_ c then None
  else Some (Counter (s32 (iterCount_ c + 1)) (nameDocCountTable_ c) (nameValueCountTable_ c) (valueDocCountTable_ c) (extra c)).

Definition addDoc (doc : Z) c : res (AttrCounter X) :=
  match count_iter c with
  | None => Ret c
  | Some c =>
      let* valueIdList := getValueIdList doc attrTable_ in
      let* (_, c) := mfold (fun i (st : gset Z * AttrCounter X) =>
        let (nameIdSet, c) := st in
        let* vId := id_at (AttrTable.valueIdTable_ attrTable_) valueIdList i in
        let c := incr_value vId c in
        let* nameId := valueId2NameId vId attrTable_ in
        if bool_decide (nameId ∈ nameIdSet) then Ret (nameIdSet, c)
        else Ret ({[nameId]} ∪ nameIdSet, incr_name nameId c))
        (seqZ 0 (size_ valueIdList)) (∅, c) in
      Ret c
  end.

Definition addAttrDoc (nId doc : Z) c : res (AttrCounter X) :=
  match count_iter c with
  | None => Ret c
  | Some c =>
      let* valueIdList := getValueIdList doc attrTable_ in
      let* (findNameId, c) := mfold (fun i (st : bool * AttrCounter X) =>
        let (findNameId, c) := st in
        let* vId := id_at (AttrTable.valueIdTable_ attrTable_) valueIdList i in
        let* nameId := valueId2NameId vId attrTable_ in
        if nameId =? nId then Ret (true, incr_value vId c) else Ret st)
        (seqZ 0 (size_ valueIdList)) (false, c) in
      Ret (if (findNameId : bool) then incr_name nId c else c)
  end.

(** The score functions of the base class. *)
Definition count_name_score (nameId : Z) c : spec_float * AttrCounter X :=
  let (n, m) := om_at 0 (nameDocCountTable_ c) nameId in (dbl n 0, set_name_docs m c).
Definition count_value_score (valueId : Z) c : spec_float * AttrCounter X :=
  let (n, m) := om_at 0 (valueDocCountTable_ c) valueId in (dbl n 0, set_value_docs m c).

(** ** The result *)
Section Result.
Context (getNameScore_ getValueScore_ : Z -> AttrCounter X -> spec_float * AttrCounter X).

Definition getNameValueMap_ (nameValueMap : NameValueMap) c : res (NameValueMap * AttrCounter X) :=
  mfold (fun (it : Z * Z) (st : NameValueMap * AttrCounter X) =>
    let (nameValueMap, c) := st in
    let valueId := it.1 in
    let (score, c) := getValueScore_ valueId c in
    if fgt score d0 then
      let* nameId := valueId2NameId valueId attrTable_ in
      let scores := default [] (om_find nameValueMap nameId) in
      Ret (om_set nameValueMap nameId (mm_insert flt scores score valueId), incr_name_values nameId c)
    else Ret (nameValueMap, c))
    (valueDocCountTable_ c) (nameValueMap, c).

Context {Q : Type} `{!PQueue Q (Z * spec_float)}.

(** [AttrScoreQueue::lessThan] *)
Definition score_lessThan (p1 p2 : Z * spec_float) : bool := flt p1.2 p2.2.

Definition getTopNameIds_ (topNum : Z) c : res (list Z * AttrCounter X) :=
  let topNum := if topNum =? 0 then s32 (vsize (nameValueCountTable_ c)) else topNum in
  let* (queue, c) := mfold (fun (it : Z * Z) (st : Q * AttrCounter X) =>
    let (queue, c) := st in
    let (nameId, valueCount) := it in
    let (score, c) := getNameScore_ nameId c in
    if fgt score d0 && (minValueCount_ <=? valueCount) then
      let* (_, queue) := pq_insert score_lessThan (nameId, score) queue in Ret (queue, c)
    else Ret (queue, c))
    (nameValueCountTable_ c) (pq_new topNum, c) in
  let* (v, _) := pop_into score_lessThan (pq_size queue) queue in
  Ret (map fst v, c).

(** The value items of a name, by descending score. *)
Definition value_items (scoreValueMap : ScoreValueMap) (st : list (item T) * AttrCounter X)
  : res (list (item T) * AttrCounter X) :=
  mfold (fun '(valueScore, valueId) '(itemList, c) =>
    let* text := valueStr valueId attrTable_ in
    let (n, m) := om_at 0 (valueDocCountTable_ c) valueId in
    Ret (itemList ++ [Item 1 text valueId (u32 n) valueScore], set_value_docs m c))
    (rev scoreValueMap) st.

Definition generateGroupRep_ (topNameIds : list Z) (nameValueMap : NameValueMap) (itemList : list (item T)) c
  : res (list (item T) * AttrCounter X) :=
  let* (itemList, _, c) := mfold (fun nameId '(itemList, nameValueMap, c) =>
    let* text := nameStr nameId attrTable_ in
    let (n, m) := om_at 0 (nameDocCountTable_ c) nameId in
    let (score, c) := getNameScore_ nameId (set_name_docs m c) in
    let itemList := itemList ++ [Item 0 text 0 (u32 n) score] in
    let (scoreValueMap, nameValueMap) := om_at [] nameValueMap nameId in
    let* (itemList, c) := value_items scoreValueMap (itemList, c) in
    Ret (itemList, nameValueMap, c))
    topNameIds (itemList, nameValueMap, c) in
  Ret (itemList, c).

Definition getGroupRep (topGroupNum : Z) (groupRep : list (item T)) c : res (list (item T) * AttrCounter X) :=
  let* (nameValueMap, c) := getNameValueMap_ [] c in
  let* (topNameIds, c) := getTopNameIds_ topGroupNum c in
  generateGroupRep_ topNameIds nameValueMap groupRep c.
End Result.
End AttrCounter.

(** ** What is counted *)
Section Counting.
Context {T X : Type} (t : AttrTable T) (maxIterCount_ : Z) (f : Z -> list Z).
Implicit Types (c : AttrCounter X).

(** The table gives document [d] the values [f d], all of which exist. *)
Hypothesis Hf : table_rep (AttrTable.valueIdTable_ t) f.
Hypothesis Hids : forall d v, v ∈ f d -> 0 <= v < vsize (nameIdVec_ t).

Definition name_of (v : Z) : Z := match vget (nameIdVec_ t) v with Ret n => n | _ => 0 end.

Lemma name_of_ok d v : v ∈ f d -> valueId2NameId v t = Ret (name_of v).
Proof.
  intros Hv. unfold valueId2NameId, name_of. destruct (vget_in_range (nameIdVec_ t) v (Hids d v Hv)) as [n ->]. done.
Qed.

(** [addDoc(d)] is [(None, d)], [addAttrDoc(n, d)] is [(Some n, d)]; the
    second looks at the values of name [n] only. *)
Notation add_op := (option Z * Z)%type.

Definition add (o : add_op) c : res (AttrCounter X) :=
  match o.1 with None => addDoc t maxIterCount_ o.2 c | Some n => addAttrDoc t maxIterCount_ n o.2 c end.

Definition seen_ids (o : add_op) : list Z :=
  match o.1 with None => f o.2 | Some n => filter (fun v => name_of v = n) (f o.2) end.

Definition value_count (ops : list add_op) (v : Z) : Z := count (Z.eqb v) (concat (map seen_ids ops)).

Definition has_name (n : Z) (ids : list Z) : bool := existsb (fun v => name_of v =? n) ids.
Definition name_count (ops : list add_op) (n : Z) : Z := count (fun o => has_name n (seen_ids o)) ops.

Lemma counts_incr m g k :
  counts m g -> 0 <= g k < 2 ^ 31 - 1 -> counts (om_incr m k) (fun j => g j + (if j =? k then 1 else 0)).
Proof.
  intros Hm Hk. unfold om_incr. rewrite (counts_default _ _ _ Hm), s32_small by lia. apply counts_add; [done|lia].
Qed.

Lemma has_name_app n l k : has_name n (l ++ k) = has_name n l || has_name n k.
Proof. apply existsb_app. Qed.

Lemma has_name_one n v : has_name n [v] = (name_of v =? n).
Proof. cbn. apply orb_false_r. Qed.

Lemma count_one {A} (P : A -> bool) a : count P [a] = if P a then 1 else 0.
Proof. rewrite count_cons, count_nil. lia. Qed.

Definition count_state c (g h : Z -> Z) (x : X) : Prop :=
  counts (valueDocCountTable_ c) g /\ counts (nameDocCountTable_ c) h /\
  nameValueCountTable_ c = [] /\ extra c = x.

Lemma take_next {A} (l : list A) i a : 0 <= i -> l !! Z.to_nat i = Some a ->
  take (Z.to_nat (i + 1)) l = take (Z.to_nat i) l ++ [a].
Proof. intros Hi Ha. replace (Z.to_nat (i + 1)) with (Datatypes.S (Z.to_nat i)) by lia. by apply take_S_r. Qed.

Lemma vsize_take {A} (l : list A) i : 0 <= i <= vsize l -> vsize (take (Z.to_nat i) l) = i.
Proof. intros H. unfold vsize in *. rewrite length_take. lia. Qed.

Definition one_if (b : bool) : Z := if b then 1 else 0.

(** The values of a document that are looked at, when the limit permits. *)
Lemma addDoc_ok d c c1 g h x :
  count_iter maxIterCount_ c = Some c1 -> count_state c1 g h x -> 0 <= d ->
  (forall v, 0 <= g v /\ g v + vsize (f d) < 2 ^ 31) -> (forall n, 0 <= h n < 2 ^ 31 - 1) ->
  exists c', addDoc t maxIterCount_ d c = Ret c' /\ iterCount_ c' = iterCount_ c1 /\
    count_state c' (fun v => g v + count (Z.eqb v) (f d)) (fun n => h n + one_if (has_name n (f d))) x.
Proof.
  intros Hc (Hg & Hh & Hnv & Hx) Hd Hgb Hhb. unfold addDoc, getValueIdList. rewrite Hc.
  destruct (getIdList_rep _ _ _ Hf Hd) as (il & -> & Hsz & Hat). cbn [res_bind]. rewrite Hsz.
  match goal with |- context [mfold ?g _ _] => set (body := g) end.
  destruct (mfold_seqZ body (fun i (st : gset Z * AttrCounter X) => let ids := take (Z.to_nat i) (f d) in
      (forall n, n ∈ st.1 <-> has_name n ids = true) /\ iterCount_ st.2 = iterCount_ c1 /\
      count_state st.2 (fun v => g v + count (Z.eqb v) ids) (fun n => h n + one_if (has_name n ids)) x)
    0 (vsize (f d)) (∅, c1)) as ([S c'] & E & _ & Hit & Hc'); [apply vsize_nonneg| | |].
  - intros i [S c'] Hi (HS & Hit & H1 & H2 & H3 & H4). cbn [fst snd] in *. unfold body. rewrite Hat by lia.
    destruct (vget_in_range (f d) i ltac:(lia)) as [v Ev]. rewrite Ev. cbn [res_bind].
    pose proof Ev as [_ Ev']%vget_Ret. assert (v ∈ f d) as Hv by (by eapply list_elem_of_lookup_2).
    rewrite (name_of_ok d v Hv). cbn [res_bind]. rewrite (take_next _ _ v) by (done || lia).
    pose proof (count_bounds (Z.eqb v) (take (Z.to_nat i) (f d))) as Hcb. rewrite vsize_take in Hcb by lia.
    pose proof (Hgb v) as Hgv. assert (counts (valueDocCountTable_ (incr_value v c'))
      (fun w => g w + count (Z.eqb w) (take (Z.to_nat i) (f d) ++ [v]))) as Hvals.
    { eapply counts_ext; [apply counts_incr; [exact H1|lia]|]. intros w. cbn.
      rewrite count_app, count_one. destruct (Z.eqb_spec w v); lia. }
    case_bool_decide as Hin; eexists; (split; [done|]); cbn [fst snd].
    + apply HS in Hin as Hn. split; [|split; [done|split; [done|split; [|done]]]].
      * intros n. rewrite HS, has_name_app, has_name_one. destruct (Z.eqb_spec (name_of v) n) as [<-|]; [|by rewrite orb_false_r].
        by rewrite Hn.
      * cbn. eapply counts_ext; [exact H2|]. intros n. cbn. rewrite has_name_app, has_name_one.
        destruct (Z.eqb_spec (name_of v) n) as [<-|]; [|by rewrite orb_false_r]. by rewrite Hn.
    + assert (has_name (name_of v) (take (Z.to_nat i) (f d)) = false) as Hn.
      { destruct (has_name _ _) eqn:En; [|done]. by apply HS in En. }
      split; [|split; [done|split; [done|split; [|done]]]].
      * intros n. rewrite elem_of_union, elem_of_singleton, HS, has_name_app, has_name_one, orb_true_iff, Z.eqb_eq.
        split; (intros [H|H]; [right|left]; congruence).
      * eapply counts_ext; [apply counts_incr; [exact H2|]|]; cbn.
        -- rewrite Hn. cbn. specialize (Hhb (name_of v)). lia.
        -- intros n. rewrite has_name_app, has_name_one, (Z.eqb_sym n). destruct (Z.eqb_spec (name_of v) n) as [<-|].
           ++ rewrite Hn. cbn. lia.
           ++ rewrite orb_false_r. lia.
  - cbn. split; [intros n; split; [by intros ?%elem_of_empty|done]|]. split; [done|].
    split; [|split; [|done]]; (eapply counts_ext; [eassumption|]); intros k; cbn; by rewrite Z.add_0_r.
  - rewrite E. cbn [res_bind]. exists c'. cbn [snd] in *. rewrite (firstn_all2 (f d)) in Hc' by (unfold vsize; lia). done.
Qed.

Lemma addAttrDoc_ok n0 d c c1 g h x :
  let ids := filter (fun v => name_of v = n0) (f d) in
  count_iter maxIterCount_ c = Some c1 -> count_state c1 g h x -> 0 <= d ->
  (forall v, 0 <= g v /\ g v + vsize ids < 2 ^ 31) -> (forall n, 0 <= h n < 2 ^ 31 - 1) ->
  exists c', addAttrDoc t maxIterCount_ n0 d c = Ret c' /\ iterCount_ c' = iterCount_ c1 /\
    count_state c' (fun v => g v + count (Z.eqb v) ids) (fun n => h n + one_if (has_name n ids)) x.
Proof.
  intros ids Hc (Hg & Hh & Hnv & Hx) Hd Hgb Hhb. unfold addAttrDoc, getValueIdList. rewrite Hc.
  destruct (getIdList_rep _ _ _ Hf Hd) as (il & -> & Hsz & Hat). cbn [res_bind]. rewrite Hsz.
  match goal with |- context [mfold ?g _ _] => set (body := g) end.
  destruct (mfold_seqZ body (fun i (st : bool * AttrCounter X) =>
      let ids := filter (fun v => name_of v = n0) (take (Z.to_nat i) (f d)) in
      (st.1 = has_name n0 ids) /\ iterCount_ st.2 = iterCount_ c1 /\
      count_state st.2 (fun v => g v + count (Z.eqb v) ids) h x)
    0 (vsize (f d)) (false, c1)) as ([b c'] & E & Hb & Hit & H1 & H2 & H3); [apply vsize_nonneg| | |].
  - intros i [b c'] Hi (Hb & Hit & H1 & H2 & H3 & H4). cbn [fst snd] in *. unfold body. rewrite Hat by lia.
    destruct (vget_in_range (f d) i ltac:(lia)) as [v Ev]. rewrite Ev. cbn [res_bind].
    pose proof Ev as [_ Ev']%vget_Ret. assert (v ∈ f d) as Hv by (by eapply list_elem_of_lookup_2).
    rewrite (name_of_ok d v Hv). cbn [res_bind]. rewrite (take_next _ _ v) by (done || lia).
    rewrite filter_app, filter_cons, filter_nil. set (seen := filter _ (take _ _)) in *.
    destruct (Z.eqb_spec (name_of v) n0) as [Hn|Hn].
    + rewrite decide_True by done. eexists. split; [done|]. cbn [fst snd].
      split; [by rewrite has_name_app, has_name_one, Hn, Z.eqb_refl, orb_true_r|]. split; [done|].
      split; [|by split]. eapply counts_ext; [apply counts_incr; [exact H1|]|]; cbn.
      * assert (count (Z.eqb v) (seen ++ [v]) <= count (Z.eqb v) ids) as Hle.
        { assert (ids = (seen ++ [v]) ++ filter (fun v => name_of v = n0) (drop (Z.to_nat (i + 1)) (f d))) as ->.
          { unfold ids, seen. rewrite <- (take_drop (Z.to_nat (i + 1)) (f d)) at 1. rewrite filter_app. f_equal.
            rewrite (take_next _ _ v) by (done || lia). by rewrite filter_app, filter_cons, decide_True, filter_nil. }
          rewrite (count_app _ (seen ++ [v])).
          pose proof (count_bounds (Z.eqb v) (filter (fun v => name_of v = n0) (drop (Z.to_nat (i + 1)) (f d)))). lia. }
        rewrite count_app, count_one, Z.eqb_refl in Hle. cbn iota in Hle.
        pose proof (count_bounds (Z.eqb v) ids). pose proof (count_bounds (Z.eqb v) seen). specialize (Hgb v). lia.
      * intros w. rewrite count_app, count_one. destruct (Z.eqb_spec w v); lia.
    + rewrite decide_False by done. eexists. split; [done|]. rewrite app_nil_r. done.
  - cbn. split; [done|]. split; [done|]. split; [|done]. eapply counts_ext; [eassumption|]. intros k. cbn. by rewrite Z.add_0_r.
  - rewrite E. cbn [res_bind fst snd] in *. rewrite (firstn_all2 (f d)) in Hb, H1 by (unfold vsize; lia). fold ids in Hb, H1.
    assert (forall n, has_name n ids = (n =? n0) && has_name n0 ids) as Hhas.
    { intros n. destruct (Z.eqb_spec n n0) as [->|Hne]; [done|]. unfold has_name. apply not_true_is_false.
      intros (v & Hv & Hvn%Z.eqb_eq)%existsb_exists. apply list_elem_of_In, list_elem_of_filter in Hv as [? _]. congruence. }
    destruct b; eexists; (split; [done|]); (split; [done|]); (split; [done|]); (split; [|done]).
    + eapply counts_ext; [apply counts_incr; [exact H2|apply Hhb]|]. intros n. cbn. rewrite Hhas, <- Hb, andb_true_r.
      destruct (n =? n0); cbn; lia.
    + eapply counts_ext; [exact H2|]. intros n. cbn. rewrite Hhas, <- Hb, andb_false_r. cbn. lia.
Qed.

Definition counted (ops : list add_op) : list add_op :=
  if maxIterCount_ =? 0 then ops else take (Z.to_nat maxIterCount_) ops.

Definition add_inv (x : X) (ops : list add_op) c : Prop :=
  count_state c (value_count (counted ops)) (name_count (counted ops)) x /\
  (maxIterCount_ <> 0 -> iterCount_ c = Z.min (vsize ops) maxIterCount_).

Lemma value_count_snoc ops o v : value_count (ops ++ [o]) v = value_count ops v + count (Z.eqb v) (seen_ids o).
Proof. unfold value_count. by rewrite map_app, concat_app, count_app; cbn; rewrite app_nil_r. Qed.

Lemma name_count_snoc ops o n : name_count (ops ++ [o]) n = name_count ops n + one_if (has_name n (seen_ids o)).
Proof. unfold name_count. by rewrite count_app, count_one. Qed.

Lemma add_step x ops o c :
  0 <= maxIterCount_ < 2 ^ 31 -> 0 <= o.2 -> vsize ops + 1 < 2 ^ 31 ->
  (forall v, vsize (f o.2) + value_count (counted ops) v < 2 ^ 31) ->
  add_inv x ops c -> exists c', add o c = Ret c' /\ add_inv x (ops ++ [o]) c'.
Proof.
  intros Hmax Ho Hops Hall [Hst Hit].
  assert (forall v, 0 <= value_count (counted ops) v) as Hv0 by (intros v; apply count_bounds).
  assert (forall n, 0 <= name_count (counted ops) n < 2 ^ 31 - 1) as Hn0.
  { intros n. pose proof (count_bounds (fun o => has_name n (seen_ids o)) (counted ops)) as H. unfold name_count.
    assert (vsize (counted ops) <= vsize ops); [|lia]. unfold counted, vsize.
    destruct (maxIterCount_ =? 0); [lia|]. rewrite length_take. lia. }
  destruct (count_iter maxIterCount_ c) as [c1|] eqn:Ec.
  - assert (counted (ops ++ [o]) = counted ops ++ [o] /\ count_state c1 (value_count (counted ops)) (name_count (counted ops)) x /\
      (maxIterCount_ <> 0 -> iterCount_ c1 = Z.min (vsize (ops ++ [o])) maxIterCount_)) as (Hcd & Hst1 & Hit1).
    { unfold count_iter in Ec. unfold counted. rewrite vsize_app. change (vsize [o]) with 1.
      destruct (Z.eqb_spec maxIterCount_ 0) as [E0|Hne].
      { injection Ec as <-. unfold counted in Hst. rewrite E0 in *. split; [done|]. by split. }
      specialize (Hit Hne). destruct (Z.leb_spec maxIterCount_ (iterCount_ c)); [done|]. injection Ec as <-. unfold vsize in *.
      split; [by rewrite !firstn_all2 by (rewrite ?length_app; cbn; lia)|]. unfold counted in Hst. rewrite (proj2 (Z.eqb_neq _ _) Hne) in Hst.
      split; [done|]. intros _. cbn. rewrite s32_small by lia. lia. }
    unfold add, add_inv. rewrite Hcd. destruct o as [[n0|] d]; cbn [fst snd] in *.
    + destruct (addAttrDoc_ok n0 d c c1 _ _ x Ec Hst1 Ho) as (c' & E & Hi & Hc').
      * intros v. split; [done|]. specialize (Hall v).
        pose proof (length_filter (fun v => name_of v = n0) (f d)). unfold vsize in *. lia.
      * done.
      * exists c'. split; [done|]. split; [|by rewrite Hi]. destruct Hc' as (H1 & H2 & H3).
        split; [|split; [|done]]; (eapply counts_ext; [eassumption|]); intros k; [by rewrite value_count_snoc|by rewrite name_count_snoc].
    + destruct (addDoc_ok d c c1 _ _ x Ec Hst1 Ho) as (c' & E & Hi & Hc').
      * intros v. split; [done|]. specialize (Hall v). lia.
      * done.
      * exists c'. split; [done|]. split; [|by rewrite Hi]. destruct Hc' as (H1 & H2 & H3).
        split; [|split; [|done]]; (eapply counts_ext; [eassumption|]); intros k; [by rewrite value_count_snoc|by rewrite name_count_snoc].
  - exists c. split; [unfold add, addDoc, addAttrDoc; rewrite Ec; by destruct o.1|].
    unfold count_iter in Ec. unfold add_inv, counted in *. destruct (Z.eqb_spec maxIterCount_ 0) as [|Hne]; [done|]. specialize (Hit Hne).
    destruct (Z.leb_spec maxIterCount_ (iterCount_ c)); [|done]. rewrite vsize_app. change (vsize [o]) with 1.
    rewrite take_app_le by (unfold vsize in *; lia). split; [done|]. intros _. lia.
Qed.

Definition all_ids (ops : list add_op) : list Z := concat (map (fun o => f o.2) ops).

Lemma value_count_bound ops v : value_count ops v <= vsize (all_ids ops).
Proof.
  unfold value_count, all_ids. induction ops as [|o ops IH]; [done|]. cbn [map concat].
  rewrite count_app, vsize_app. pose proof (count_bounds (Z.eqb v) (seen_ids o)).
  assert (vsize (seen_ids o) <= vsize (f o.2)); [|lia]. unfold seen_ids, vsize. destruct o.1; [|lia].
  pose proof (length_filter (fun v => name_of v = z) (f o.2)). lia.
Qed.

Lemma counted_ids ops : vsize (all_ids (counted ops)) <= vsize (all_ids ops).
Proof.
  unfold counted. destruct (maxIterCount_ =? 0); [lia|]. rewrite <- (take_drop (Z.to_nat maxIterCount_) ops) at 2.
  unfold all_ids. rewrite map_app, concat_app, vsize_app.
  pose proof (vsize_nonneg (concat (map (fun o : add_op => f o.2) (drop (Z.to_nat maxIterCount_) ops)))). lia.
Qed.

Lemma new_counter_inv x : 0 <= maxIterCount_ -> add_inv x [] (new_counter x).
Proof.
  intros Hmax. assert (counts [] (fun _ => 0)) as H0 by (split; [constructor|done]).
  unfold add_inv, counted. rewrite take_nil.
  assert ((if maxIterCount_ =? 0 then [] else []) = (@nil add_op)) as -> by (by destruct (_ =? _)).
  split; [by repeat split; apply H0|]. intros Hne. unfold vsize. cbn. lia.
Qed.

(** C30: after any sequence of [addDoc] and [addAttrDoc], a value's count is
    the number of its occurrences among the values that were looked at, and a
    name's count the number of operations that saw a value of that name - all
    values of the document for [addDoc], those of the given name for
    [addAttrDoc], and nothing more after [maxIterCount_] operations (no limit
    if 0). Values and names that were not seen are not in the maps. *)
Theorem add_counts x ops :
  0 <= maxIterCount_ < 2 ^ 31 -> Forall (fun o => 0 <= o.2) ops ->
  vsize (all_ids ops) < 2 ^ 31 -> vsize ops < 2 ^ 31 ->
  exists c, mfold add ops (new_counter x) = Ret c /\
    counts (valueDocCountTable_ c) (value_count (counted ops)) /\
    counts (nameDocCountTable_ c) (name_count (counted ops)) /\ extra c = x.
Proof.
  intros Hmax Hdocs Hids2 Hops.
  assert (forall ops2 ops1 c, ops1 ++ ops2 = ops -> add_inv x ops1 c ->
    exists c', mfold add ops2 c = Ret c' /\ add_inv x ops c') as Hall.
  { intros ops2. induction ops2 as [|o ops2 IH]; intros ops1 c E Hc.
    - rewrite app_nil_r in E. subst ops1. by exists c.
    - pose proof E as E'. rewrite (cons_middle o), app_assoc in E'. subst ops.
      destruct (add_step x ops1 o c) as (c' & Ec & Hc'); [done| | | |done|].
      + rewrite Forall_app, Forall_cons in Hdocs. tauto.
      + rewrite vsize_app, vsize_cons in Hops. pose proof (vsize_nonneg ops2). lia.
      + intros v. pose proof (value_count_bound (counted ops1) v). pose proof (counted_ids ops1).
        unfold all_ids in *. rewrite map_app, concat_app in Hids2. cbn [map concat] in Hids2. rewrite !vsize_app in Hids2.
        pose proof (vsize_nonneg (concat (map (fun o : add_op => f o.2) ops2))). lia.
      + cbn [mfold]. rewrite Ec. cbn [res_bind]. by apply (IH (ops1 ++ [o])). }
  destruct (Hall ops [] (new_counter x) eq_refl) as (c & E & (H1 & H2 & _ & H3) & _); [apply new_counter_inv; lia|].
  by exists c.
Qed.
End Counting.

(** ** The groups of the result *)
Section Groups.
Context {T X : Type} `{!TextOrder T} (t : AttrTable T) (minValueCount_ : Z) (x0 : X).
Context {Q : Type} `{!PQueue Q (Z * spec_float), !PQueueSpec Q (Z * spec_float)}.
Implicit Types (c : AttrCounter X).

Hypothesis Hok : AttrTable.attr_ok t.

Notation name_of := (name_of t).

(** The values with a count, and their names. *)
Definition keys_of (m : list (Z * Z)) (n : Z) : list Z := filter (fun v => name_of v = n) (map fst m).

(** The collected map: each name has its values, by ascending count. *)
Definition scores_ok (g : Z -> Z) (vs : list Z) (s : ScoreValueMap) : Prop :=
  map snd s ≡ₚ vs /\ Forall (fun p => p.1 = dbl (g p.2) 0 /\ 0 < g p.2 < 2 ^ 31) s /\
  StronglySorted (fun a b => flt b.1 a.1 = false) s.

Definition nv_ok (g : Z -> Z) (ks : Z -> list Z) (nvm : NameValueMap) : Prop :=
  om_sorted nvm /\ forall n, scores_ok g (ks n) (default [] (om_find nvm n)).

Lemma dbl_num32 n : 0 < n < 2 ^ 31 -> is_num (dbl n 0) = true.
Proof. intros H. apply dbl_num. lia. Qed.

Lemma scores_ok_insert g vs s v :
  scores_ok g vs s -> 0 < g v < 2 ^ 31 -> scores_ok g (vs ++ [v]) (mm_insert flt s (dbl (g v) 0) v).
Proof.
  intros (H1 & H2 & H3) Hv. split; [|split].
  - rewrite (mm_insert_perm flt s). cbn. rewrite H1. apply Permutation_cons_append.
  - rewrite (mm_insert_perm flt s). by constructor.
  - apply mm_insert_ascending; [|by apply dbl_num32|done]. eapply Forall_impl; [exact H2|].
    intros [k w] [-> Hw]. by apply dbl_num32.
Qed.

Definition with_value_counts c (m : list (Z * Z)) : AttrCounter X :=
  Counter (iterCount_ c) (nameDocCountTable_ c) m (valueDocCountTable_ c) (extra c).

Lemma om_insert_present (m : list (Z * Z)) k n d : om_find m k = Some n -> (om_insert m k d).1 = m.
Proof. intros H. unfold om_insert. by rewrite H. Qed.

Lemma om_at_present {d} (m : list (Z * Z)) k n : om_find m k = Some n -> om_at d m k = (n, m).
Proof. intros H. unfold om_at. by rewrite H, (om_insert_present m k n d H). Qed.

(** Reading a count that is there changes nothing. *)
Lemma value_score_present v n c :
  om_find (valueDocCountTable_ c) v = Some n -> count_value_score v c = (dbl n 0, c).
Proof. intros H. unfold count_value_score. rewrite (om_at_present _ _ n H). by destruct c. Qed.

Lemma name_score_present v n c :
  om_find (nameDocCountTable_ c) v = Some n -> count_name_score v c = (dbl n 0, c).
Proof. intros H. unfold count_name_score. rewrite (om_at_present _ _ n H). by destruct c. Qed.

Lemma dbl_gt0 n : 0 < n < 2 ^ 31 -> fgt (dbl n 0) d0 = true.
Proof. intros H. unfold fgt. change (SFltb d0 (dbl n 0)) with (flt (dbl 0 0) (dbl n 0)). rewrite dbl_flt by lia. lia. Qed.

Lemma getNameValueMap_ok g c :
  counts (valueDocCountTable_ c) g -> (forall v, 0 <= g v < 2 ^ 31) -> nameValueCountTable_ c = [] ->
  (forall v, g v <> 0 -> -1 < v < AttrTable.valueNum t) -> vsize (valueDocCountTable_ c) < 2 ^ 31 ->
  exists nvm m, getNameValueMap_ t count_value_score [] c = Ret (nvm, with_value_counts c m) /\
    nv_ok g (keys_of (valueDocCountTable_ c)) nvm /\
    counts m (fun n => vsize (keys_of (valueDocCountTable_ c) n)).
Proof.
  intros [Hs Hm] Hg Hnv Hr Hsz. unfold getNameValueMap_. set (vals := valueDocCountTable_ c) in *.
  match goal with |- context [mfold ?b _ _] => set (body := b) end.
  destruct (mfold_rule body (fun todo (st : NameValueMap * AttrCounter X) => exists seen m, vals = seen ++ todo /\
    st.2 = with_value_counts c m /\ nv_ok g (keys_of seen) st.1 /\ counts m (fun n => vsize (keys_of seen n)))
    vals ([], c)) as ([nvm c'] & E & seen & m & Hseen & Hc & Hnvm & Hcm).
  - intros [v n] todo [nvm c1] (seen & m & Hseen & Hc & [Hs1 Hnvm] & Hcm). cbn [fst snd] in *. subst c1.
    assert (om_find vals v = Some n) as Hf by (apply om_find_elem; [done|]; rewrite Hseen; set_solver).
    unfold body. cbn [fst snd]. rewrite (value_score_present v n) by done.
    rewrite Hm in Hf. destruct (Z.eqb_spec (g v) 0) as [|Hgv]; [done|]. injection Hf as <-.
    pose proof (Hg v) as Hgr. rewrite dbl_gt0 by lia.
    destruct Hok as (_ & _ & _ & Hids & _ & Hn & _). destruct (Hn v (Hr v Hgv)) as (n & En & Hnr).
    assert (name_of v = n) as Hname by (unfold name_of; by rewrite En). unfold valueId2NameId. rewrite En. cbn [res_bind].
    assert (forall k, keys_of (seen ++ [(v, g v)]) k = keys_of seen k ++ if k =? n then [v] else []) as Hkeys.
    { intros k. unfold keys_of. rewrite map_app, filter_app. cbn [map fst]. rewrite filter_cons, filter_nil, Hname.
      destruct (Z.eqb_spec k n) as [->|]; [by rewrite decide_True|by rewrite decide_False]. }
    eexists. split; [done|]. exists (seen ++ [(v, g v)]), (om_incr m n). cbn [fst snd].
    split; [by rewrite <- app_assoc|]. split; [done|]. split.
    + split; [by apply om_set_sorted|]. intros k. rewrite Hkeys. destruct (Z.eqb_spec k n) as [->|Hne].
      * rewrite om_find_set_eq. cbn. apply scores_ok_insert; [apply Hnvm|lia].
      * rewrite om_find_set_ne by done. rewrite app_nil_r. apply Hnvm.
    + eapply counts_ext; [apply counts_incr; [exact Hcm|]|].
      * cbn. split; [apply vsize_nonneg|]. pose proof (length_filter (fun v => name_of v = n) (map fst seen)) as Hlen.
        rewrite length_map in Hlen. rewrite Hseen in Hsz. unfold keys_of, vsize in *. rewrite length_app in Hsz. cbn in Hsz. lia.
      * intros k. cbn. rewrite Hkeys, vsize_app. destruct (k =? n); done.
  - exists [], []. split; [done|]. split; [by destruct c; cbn in *; subst|].
    split; [|by split; [constructor|]]. split; [constructor|]. intros n. split; [done|]. split; constructor.
  - rewrite app_nil_r in Hseen. subst seen. exists nvm, m. cbn [fst snd] in *. subst c'. done.
Qed.

(** The names that compete: enough values. *)
Definition candidates (m : list (Z * Z)) : list Z := map fst (filter (fun it => minValueCount_ <= it.2) m).

Definition with_score (h : Z -> Z) (n : Z) : Z * spec_float := (n, dbl (h n) 0).

Lemma insert_candidates h c :
  counts (nameDocCountTable_ c) h -> (forall n, 0 <= h n < 2 ^ 31) ->
  forall m (q : Q), (forall n k, (n, k) ∈ m -> h n <> 0) ->
  mfold (fun (it : Z * Z) (st : Q * AttrCounter X) =>
    let (queue, c) := st in
    let (nameId, valueCount) := it in
    let (score, c) := count_name_score nameId c in
    if fgt score d0 && (minValueCount_ <=? valueCount) then
      let* (_, queue) := pq_insert score_lessThan (nameId, score) queue in Ret (queue, c)
    else Ret (queue, c)) m (q, c) =
  let* q := offer_all score_lessThan (map (with_score h) (candidates m)) q in Ret (q, c).
Proof.
  intros [Hs Hh] Hr m. induction m as [|[n k] m IH]; intros q Hm; [done|]. cbn [mfold].
  pose proof (Hm n k ltac:(by left)) as Hn.
  assert (om_find (nameDocCountTable_ c) n = Some (h n)) as Hf.
  { rewrite Hh. destruct (Z.eqb_spec (h n) 0); [done|done]. }
  rewrite (name_score_present n _ c Hf), dbl_gt0 by (specialize (Hr n); lia). cbn [andb].
  assert (forall n' k', (n', k') ∈ m -> h n' <> 0) as Hm' by (intros n' k' Hin; apply (Hm n' k'); by right).
  unfold candidates. rewrite filter_cons. cbn [snd]. destruct (Z.leb_spec minValueCount_ k) as [Hle|Hgt].
  - rewrite decide_True by done. cbn [map fst]. unfold offer_all. cbn [mfold]. fold (with_score h n).
    destruct (pq_insert score_lessThan (with_score h n) q) as [[b q']| | |]; cbn [res_bind]; [|done..]. by apply IH.
  - rewrite decide_False by lia. cbn [res_bind]. by apply IH.
Qed.

(** The best of the scored names, as names. *)
Lemma best_names h k l v :
  (forall n, 0 <= h n < 2 ^ 31) -> best_of score_lessThan k (map (with_score h) l) v -> descending score_lessThan v ->
  v = map (with_score h) (map fst v) /\ best_of (fun a b => h a <? h b) k l (map fst v) /\ descending (fun a b => h a <? h b) (map fst v).
Proof.
  intros Hh (Hsz & rest & Hp & Hle) Hd.
  assert (forall a b, score_lessThan (with_score h a) (with_score h b) = (h a <? h b)) as Hlt.
  { intros a b. unfold score_lessThan, with_score. cbn. pose proof (Hh a). pose proof (Hh b). apply dbl_flt; lia. }
  destruct (Permutation_map_inv _ _ (Permutation_sym Hp)) as (l3 & E & Hl3).
  symmetry in E. apply map_eq_app in E as (l1 & l2 & -> & <- & <-).
  assert (map fst (map (with_score h) l1) = l1) as Hl1 by (rewrite map_map; apply map_id).
  rewrite Hl1. split; [done|]. split.
  - split; [unfold vsize in *; by rewrite !length_map in Hsz|]. exists l2. split; [by rewrite Hl3|].
    intros x y Hx Hy. rewrite <- Hlt. apply Hle; rewrite list_elem_of_fmap; eauto.
  - unfold descending in *. clear Hsz Hp Hle Hl3 Hl1. induction l1 as [|a l1 IH]; cbn in *; [constructor|].
    apply StronglySorted_cons in Hd as [Ha Hd]. constructor; [by apply IH|]. apply Forall_forall. rewrite Forall_forall in Ha.
    intros b Hb. rewrite <- Hlt. apply Ha. rewrite list_elem_of_fmap. eauto.
Qed.

Lemma getTopNameIds_ok topNum h c :
  counts (nameDocCountTable_ c) h -> (forall n, 0 <= h n < 2 ^ 31) ->
  (forall n k, (n, k) ∈ nameValueCountTable_ c -> h n <> 0) ->
  0 <= topNum < 2 ^ 31 -> vsize (nameValueCountTable_ c) < 2 ^ 31 ->
  let k := if topNum =? 0 then vsize (nameValueCountTable_ c) else topNum in
  exists names, getTopNameIds_ minValueCount_ count_name_score (Q := Q) topNum c = Ret (names, c) /\   best_of (fun a b => h a <? h b) k (candidates (nameValueCountTable_ c)) names /\   descending (fun a b => h a <? h b) names.
Proof.
  intros Hh Hr Hm Htop Hsz k. unfold getTopNameIds_.
  pose proof (vsize_nonneg (nameValueCountTable_ c)). rewrite s32_small by lia. fold k.
  rewrite (insert_candidates h c Hh Hr _ _ Hm).
  destruct (top_k_agree (Q := Q) (fun a b : Z * spec_float => klt a.2 b.2) score_lessThan k
    (map (with_score h) (candidates (nameValueCountTable_ c)))) as (v & E & Hb & Hd).
  - unfold k. destruct (topNum =? 0); lia.
  - intros x y Hx Hy. apply list_elem_of_fmap in Hx as (a & -> & _), Hy as (b & -> & _).
    apply klt_flt; apply dbl_num; pose proof (Hr a); pose proof (Hr b); lia.
  - destruct (best_names h k _ v Hr Hb Hd) as (_ & Hb' & Hd'). exists (map fst v). split; [|done].
    revert E. unfold top_k. destruct (offer_all _ _ _) as [q| | |]; cbn [res_bind]; try done.
    destruct (pop_into _ _ _) as [[w q']| | |]; cbn [res_bind]; try done. by intros [= ->].
Qed.

(** *** The items *)
Definition text_of (n : Z) (text : T) : Prop := nameStr n t = Ret text.

(** The item of a value; the item of a name and those of its values. *)
Definition value_item_ok (g : Z -> Z) (v : Z) (i : item T) : Prop :=
  level i = 1 /\ id i = v /\ valueStr v t = Ret (text i) /\ doc_count i = g v /\ score i = dbl (g v) 0.

Definition group_ok (g h : Z -> Z) (vals : list (Z * Z)) (n : Z) (l : list (item T)) : Prop :=
  exists i vs its, l = i :: its /\ level i = 0 /\ nameStr n t = Ret (text i) /\ doc_count i = h n /\ score i = dbl (h n) 0 /\   vs ≡ₚ keys_of vals n /\ descending (fun a b => g a <? g b) vs /\ Forall2 (value_item_ok g) vs its.

Lemma value_items_ok g c s : forall l,
  counts (valueDocCountTable_ c) g -> (forall v, g v <> 0 -> -1 < v < AttrTable.valueNum t) ->
  Forall (fun p => p.1 = dbl (g p.2) 0 /\ 0 < g p.2 < 2 ^ 31) s ->
  exists its, value_items t s (l, c) = Ret (l ++ its, c) /\ Forall2 (value_item_ok g) (map snd (rev s)) its.
Proof.
  intros l Hg Hr Hs. unfold value_items. apply Forall_rev in Hs. revert l. induction (rev s) as [|[sc v] r IH]; intros l.
  - exists []. by rewrite app_nil_r.
  - apply Forall_cons in Hs as [[Hsc Hv] Hs]. cbn [fst snd] in *. cbn [mfold].
    destruct (vget_in_range (valueStrVec_ t) v) as [tx Etx].
    { pose proof (Hr v ltac:(lia)). unfold AttrTable.valueNum in *. lia. }
    assert (valueStr v t = Ret tx) as Est by exact Etx. rewrite Est. cbn [res_bind].
    rewrite (om_at_present _ v (g v)); cycle 1.
    { destruct Hg as [_ ->]. by destruct (Z.eqb_spec (g v) 0); [lia|]. }
    cbn [res_bind]. assert (set_value_docs (valueDocCountTable_ c) c = c) as -> by (by destruct c).
    destruct (IH Hs (l ++ [Item 1 tx v (u32 (g v)) sc])) as (its & E & His).
    exists (Item 1 tx v (u32 (g v)) sc :: its). split; [by rewrite E, <- app_assoc|]. cbn [map snd]. constructor; [|done].
    subst sc. repeat split; try done. cbn. apply u32_small. lia.
Qed.

Lemma scores_descending g s :
  Forall (fun p => p.1 = dbl (g p.2) 0 /\ 0 < g p.2 < 2 ^ 31) s ->
  StronglySorted (fun a b : spec_float * Z => flt b.1 a.1 = false) s ->
  descending (fun a b => g a <? g b) (map snd (rev s)).
Proof.
  intros Hf Hs. rewrite map_rev. apply StronglySorted_rev. induction Hs as [|[sc v] s Hs IH Ha]; cbn; [constructor|].
  apply Forall_cons in Hf as [[Hsc Hv] Hf]. cbn in Hsc, Hv. constructor; [by apply IH|].
  apply Forall_forall. rewrite Forall_forall in Ha. rewrite Forall_forall in Hf. intros w Hw. apply list_elem_of_fmap in Hw as ([sc' w'] & -> & Hw).
  destruct (Hf _ Hw) as [Hsc' Hw']. specialize (Ha _ Hw). cbn in *. subst sc sc'.
  rewrite dbl_flt in Ha by lia. done.
Qed.

Lemma nv_ok_at g ks nvm n : nv_ok g ks nvm ->
  scores_ok g (ks n) (om_at [] nvm n).1 /\ nv_ok g ks (om_at [] nvm n).2.
Proof.
  intros [Hs Hn]. unfold om_at. cbn [fst snd]. split; [apply Hn|]. split; [by apply om_insert_sorted|].
  intros k. unfold om_insert. destruct (om_find nvm n) as [s|] eqn:E; [apply Hn|]. cbn [fst].
  destruct (decide (k = n)) as [->|Hne].
  - rewrite om_find_set_eq. specialize (Hn n). by rewrite E in Hn.
  - rewrite om_find_set_ne by done. apply Hn.
Qed.

Lemma generate_ok g h c names :
  counts (valueDocCountTable_ c) g -> counts (nameDocCountTable_ c) h -> (forall n, 0 <= h n < 2 ^ 31) ->
  (forall v, g v <> 0 -> -1 < v < AttrTable.valueNum t) ->
  (forall n, n ∈ names -> h n <> 0 /\ 0 <= n < AttrTable.nameNum t) ->
  forall l nvm, nv_ok g (keys_of (valueDocCountTable_ c)) nvm ->
  exists groups, generateGroupRep_ t count_name_score names nvm l c = Ret (l ++ concat groups, c) /\
    Forall2 (group_ok g h (valueDocCountTable_ c)) names groups.
Proof.
  intros Hg Hh Hhr Hr Hnames l nvm Hnvm. unfold generateGroupRep_.
  match goal with |- context [mfold ?b _ _] => set (body := b) end.
  assert (exists groups nvm', mfold body names (l, nvm, c) = Ret (l ++ concat groups, nvm', c) /\
    Forall2 (group_ok g h (valueDocCountTable_ c)) names groups) as (groups & nvm' & E & Hgr).
  2: { rewrite E. by exists groups. }
  revert l nvm Hnvm. induction names as [|n names IH]; intros l nvm Hnvm.
  { exists [], nvm. cbn. rewrite app_nil_r. by split; [|constructor]. }
  destruct (Hnames n ltac:(by left)) as [Hn Hnr]. cbn [mfold]. unfold body at 1. cbn [fst snd].
  destruct (vget_in_range (nameStrVec_ t) n) as [tx Etx]; [unfold AttrTable.nameNum in *; lia|].
  assert (nameStr n t = Ret tx) as Est by exact Etx. rewrite Est. cbn [res_bind].
  assert (om_find (nameDocCountTable_ c) n = Some (h n)) as Hf.
  { destruct Hh as [_ ->]. by destruct (Z.eqb_spec (h n) 0). }
  rewrite (om_at_present _ n (h n) Hf). cbn beta iota.
  assert (set_name_docs (nameDocCountTable_ c) c = c) as -> by (by destruct c).
  rewrite (name_score_present n _ c Hf). cbn beta iota.
  destruct (nv_ok_at g _ nvm n Hnvm) as [(Hs1 & Hs2 & Hs3) Hnvm']. destruct (om_at [] nvm n) as [s nvm1]. cbn [fst snd] in *.
  destruct (value_items_ok g c s (l ++ [Item 0 tx 0 (u32 (h n)) (dbl (h n) 0)]) Hg Hr Hs2) as (its & E & Hits).
  rewrite E. cbn [res_bind].
  destruct (IH ltac:(intros k Hk; apply Hnames; by right) ((l ++ [Item 0 tx 0 (u32 (h n)) (dbl (h n) 0)]) ++ its) nvm1 Hnvm')
    as (groups & nvm' & E2 & Hgr).
  exists ((Item 0 tx 0 (u32 (h n)) (dbl (h n) 0) :: its) :: groups), nvm'.
  split; [rewrite E2; cbn [concat]; by rewrite <- !app_assoc|]. constructor; [|done].
  exists (Item 0 tx 0 (u32 (h n)) (dbl (h n) 0)), (map snd (rev s)), its. specialize (Hhr n).
  split; [done|]. split; [done|]. split; [done|]. split; [cbn; apply u32_small; lia|]. split; [done|].
  split; [|split; [by apply scores_descending|done]]. rewrite map_rev, <- Permutation_rev. done.
Qed.

Lemma om_keys_NoDup {V} (m : list (Z * V)) : om_sorted m -> NoDup (map fst m).
Proof. apply om_sorted_NoDup. Qed.

Lemma keys_elem vals g n v : counts vals g -> v ∈ keys_of vals n <-> g v <> 0 /\ name_of v = n.
Proof.
  intros [Hs Hg]. unfold keys_of. rewrite list_elem_of_filter, list_elem_of_fmap. split.
  - intros [Hn ([w k] & -> & Hw)]. cbn in *. apply om_find_elem in Hw; [|done]. rewrite Hg in Hw.
    split; [|done]. by destruct (Z.eqb_spec (g w) 0).
  - intros [Hv Hn]. split; [done|]. exists (v, g v). split; [done|]. apply om_find_elem; [done|]. rewrite Hg.
    by destruct (Z.eqb_spec (g v) 0).
Qed.

(** The name [n] has values, and enough of them. *)
Definition competes (vals : list (Z * Z)) (n : Z) : Prop :=
  keys_of vals n <> [] /\ minValueCount_ <= vsize (keys_of vals n).

Lemma candidates_ok vals m :
  counts m (fun n => vsize (keys_of vals n)) ->
  NoDup (candidates m) /\ forall n, n ∈ candidates m <-> competes vals n.
Proof.
  intros [Hs Hm]. unfold candidates. split.
  - pose proof (om_keys_NoDup m Hs) as Hnd. clear Hs Hm. induction m as [|[n k] m IH]; [constructor|].
    cbn in Hnd. apply NoDup_cons in Hnd as [Hn Hnd]. rewrite filter_cons. case_decide; [|by apply IH].
    cbn. constructor; [|by apply IH]. intros ([n' k'] & E & Hin)%list_elem_of_fmap. cbn in E. subst n'.
    apply list_elem_of_filter in Hin as [_ Hin]. apply Hn, list_elem_of_fmap. by exists (n, k').
  - intros n. rewrite list_elem_of_fmap. unfold competes.
    assert (keys_of vals n <> [] <-> vsize (keys_of vals n) <> 0) as ->.
    { destruct (keys_of vals n) as [|a l]; [done|]. rewrite vsize_cons. pose proof (vsize_nonneg l). split; [lia|done]. }
    split.
    + intros ([n' k] & -> & [Hk Hin]%list_elem_of_filter). cbn in *. apply om_find_elem in Hin; [|done]. rewrite Hm in Hin.
      destruct (Z.eqb_spec (vsize (keys_of vals n')) 0); [done|]. injection Hin as <-. done.
    + intros [H1 H2]. exists (n, vsize (keys_of vals n)). split; [done|]. apply list_elem_of_filter. split; [done|].
      apply om_find_elem; [done|]. rewrite Hm. by destruct (Z.eqb_spec (vsize (keys_of vals n)) 0).
Qed.

(** C31: the attribute result of the base class. Among the names with at least
    [minValueCount_] counted values, the [topGroupNum] with the highest
    document counts (all of them when it is 0) are listed, in descending order;
    each is a root item with its text and count, followed by one item of level 1
    for each of its counted values, in descending order of their counts, with
    the value's id, text and count. Scores are the counts as doubles. *)
Theorem getGroupRep_best topGroupNum g h c :
  counts (valueDocCountTable_ c) g -> counts (nameDocCountTable_ c) h ->
  (forall v, 0 <= g v < 2 ^ 31) -> (forall n, 0 <= h n < 2 ^ 31) -> nameValueCountTable_ c = [] ->
  (forall v, g v <> 0 -> -1 < v < AttrTable.valueNum t /\ h (name_of v) <> 0) ->
  vsize (valueDocCountTable_ c) < 2 ^ 31 -> 0 <= topGroupNum < 2 ^ 31 ->
  exists cands names groups c',
    getGroupRep t minValueCount_ count_name_score count_value_score (Q := Q) topGroupNum [] c = Ret (concat groups, c') /\
    NoDup cands /\ (forall n, n ∈ cands <-> competes (valueDocCountTable_ c) n) /\
    best_of (fun a b => h a <? h b) (if topGroupNum =? 0 then vsize cands else topGroupNum) cands names /\
    descending (fun a b => h a <? h b) names /\
    Forall2 (group_ok g h (valueDocCountTable_ c)) names groups.
Proof.
  intros Hg Hh Hgr Hhr Hnv Hr Hsz Htop. unfold getGroupRep.
  destruct (getNameValueMap_ok g c Hg Hgr Hnv) as (nvm & m & -> & Hnvm & Hm); [intros v Hv; by apply Hr|done|].
  cbn [res_bind]. set (vals := valueDocCountTable_ c) in *.
  destruct (candidates_ok vals m Hm) as [Hnd Hcand].
  assert (forall n k, (n, k) ∈ m -> keys_of vals n <> []) as Hkeys.
  { intros n k Hin E. destruct Hm as [Hs Hm]. apply om_find_elem in Hin; [|done]. rewrite Hm, E in Hin. done. }
  assert (forall n, keys_of vals n <> [] -> h n <> 0 /\ 0 <= n < AttrTable.nameNum t) as Hname.
  { intros n Hk. destruct (keys_of vals n) as [|v l] eqn:Ek; [done|].
    assert (v ∈ keys_of vals n) as Hv by (rewrite Ek; by left). apply (keys_elem vals g) in Hv as [Hgv <-]; [|done].
    destruct (Hr v Hgv) as [Hrv Hhv]. split; [done|]. destruct Hok as (_ & _ & _ & _ & _ & Hn & _).
    destruct (Hn v Hrv) as (n & En & Hnr). unfold name_of. by rewrite En. }
  assert (vsize m <= vsize vals) as Hmsz.
  { destruct Hm as [Hs Hm]. unfold vsize. assert (map fst m ⊆ map name_of (map fst vals)) as Hsub.
    { intros n (p & -> & Hp)%list_elem_of_fmap. destruct p as [n k]. cbn. specialize (Hkeys n k Hp).
      destruct (keys_of vals n) as [|v l] eqn:Ek; [done|]. assert (v ∈ keys_of vals n) as Hv by (rewrite Ek; by left).
      apply list_elem_of_filter in Hv as [<- Hv]. apply list_elem_of_fmap. by exists v. }
    apply NoDup_submseteq, submseteq_length in Hsub; [|by apply om_keys_NoDup]. rewrite !length_map in Hsub. lia. }
  destruct (getTopNameIds_ok topGroupNum h (with_value_counts c m)) as (names & -> & Hb & Hd); try done; [| |].
  { intros n k Hin. by eapply Hname, Hkeys. }
  { cbn. lia. }
  cbn [res_bind nameValueCountTable_ with_value_counts] in *.
  destruct (generate_ok g h (with_value_counts c m) names) with (l := @nil (item T)) (nvm := nvm) as (groups & -> & Hgroups); try done.
  { intros v Hv. by apply Hr. }
  { intros n Hn. apply Hname. destruct Hb as (_ & rest & Hp & _).
    assert (n ∈ candidates m) as Hc by (rewrite Hp; apply elem_of_app; by left). by apply Hcand in Hc as [? _]. }
  exists (candidates m), names, groups, (with_value_counts c m). split; [done|]. split; [done|]. split; [done|].
  split; [|done]. destruct (topGroupNum =? 0); [|done]. destruct Hb as (Hbs & Hrest). split; [|done].
  assert (vsize (candidates m) <= vsize m); [|lia]. unfold candidates, vsize. rewrite length_map.
  pose proof (length_filter (fun it : Z * Z => minValueCount_ <= it.2) m). lia.
Qed.
End Groups.

(** ** Examples *)

#[local] Instance name_score_inhabited : Inhabited (Z * spec_float) := populate (0, d0).

(** Name 1 with values 1 and 2, name 2 with value 3. *)
Definition ex_table : AttrTable Z :=
  AttrTable.AttrTab [0; 10; 11] 0 [(0, 0); (10, 1); (11, 2)] [0; 20; 21; 20] 0 [0; 1; 1; 2] 0
    [[(0, 0)]; [(20, 1); (21, 2)]; [(20, 3)]] (IdTable [0; 1; 2 ^ 31; 2] [2; 2; 3]) 0 0.

Example attr_counter_ex :
  (let* c := mfold (addDoc ex_table 0) [1; 2; 3] (new_counter tt) in
   let* (r, _) := getGroupRep ex_table 1 count_name_score count_value_score (Q := heap (Z * spec_float)) 0 [] c in
   Ret (map (fun i => (level i, id i, text i, doc_count i)) r)) =
  Ret [(0, 0, 10, 3); (1, 2, 21, 2); (1, 1, 20, 1); (0, 0, 11, 1); (1, 3, 20, 1)].
Proof. vm_compute. reflexivity. Qed.

(** Name 1 with value 1, which document 1 has. *)
Definition one_table : AttrTable Z :=
  AttrTable.AttrTab [0; 10] 0 [(0, 0); (10, 1)] [0; 20] 0 [0; 1] 0 [[(0, 0)]; [(20, 1)]] (IdTable [0; 1] []) 0 0.
Definition one_doc (d : Z) : list Z := if d =? 1 then [1] else [].

Lemma one_table_ok : AttrTable.attr_ok one_table.
Proof.
  pose proof AttrTable.opened_table_ok as H0.
  destruct (AttrTable.insertNameId_ok _ 10 H0 eq_refl) as (t1 & n & E1 & H1 & _).
  vm_compute in E1. injection E1 as <- <-.
  match type of H1 with AttrTable.attr_ok ?t =>
    destruct (AttrTable.insertValueId_ok t 1 20 H1) as (t2 & v & E2 & H2 & _); [by vm_compute|by vm_compute|] end.
  vm_compute in E2. injection E2 as <- <-. exact H2.
Qed.

Lemma one_doc_rep : table_rep (AttrTable.valueIdTable_ one_table) one_doc.
Proof.
  split; [|split; [|by vm_compute]].
  - intros d Hd. change (vsize _) with 2 in Hd. assert (d = 0 \/ d = 1) as [->| ->] by lia.
    + by exists 0.
    + exists 1. split; [done|]. by vm_compute.
  - intros d Hd. change (vsize _) with 2 in Hd. unfold one_doc. by destruct (Z.eqb_spec d 1); [lia|].
Qed.

Lemma add_counts_witness :
  exists c, mfold (add one_table 0) [(None, 1); (Some 1, 1)] (new_counter tt) = Ret c /\
    counts (valueDocCountTable_ c) (value_count one_table one_doc (counted 0 [(None, 1); (Some 1, 1)])) /\
    counts (nameDocCountTable_ c) (name_count one_table one_doc (counted 0 [(None, 1); (Some 1, 1)])) /\ extra c = tt.
Proof.
  apply add_counts.
  - apply one_doc_rep.
  - intros d v Hv. unfold one_doc in Hv. destruct (d =? 1); [|by apply elem_of_nil in Hv].
    apply list_elem_of_singleton in Hv. rewrite Hv. by vm_compute.
  - lia.
  - by repeat constructor.
  - by vm_compute.
  - by vm_compute.
Defined.

Lemma getGroupRep_best_witness :
  let c := Counter 0 [(1, 5)] [] [(1, 7)] tt in
  exists cands names groups c',
    getGroupRep one_table 1 count_name_score count_value_score (Q := heap (Z * spec_float)) 0 [] c = Ret (concat groups, c') /\
    NoDup cands /\ (forall n, n ∈ cands <-> competes one_table 1 (valueDocCountTable_ c) n) /\
    best_of (fun a b => (if a =? 1 then 5 else 0) <? (if b =? 1 then 5 else 0)) (if 0 =? 0 then vsize cands else 0) cands names /\
    descending (fun a b => (if a =? 1 then 5 else 0) <? (if b =? 1 then 5 else 0)) names /\
    Forall2 (group_ok one_table (fun v => if v =? 1 then 7 else 0) (fun n => if n =? 1 then 5 else 0) (valueDocCountTable_ c)) names groups.
Proof.
  assert (forall n, n <> 0 -> counts [(1, n)] (fun k => if k =? 1 then n else 0)) as Hc.
  { intros n Hn. split; [apply om_sorted_cons; split; constructor|]. intros k. cbn.
    destruct (Z.compare_spec k 1) as [->|?|?].
    - cbn. by destruct (Z.eqb_spec n 0).
    - by destruct (Z.eqb_spec k 1); [lia|].
    - by destruct (Z.eqb_spec k 1); [lia|]. }
  intros c. apply (getGroupRep_best one_table 1 one_table_ok 0 (fun v => if v =? 1 then 7 else 0) (fun n => if n =? 1 then 5 else 0) c).
  - by apply Hc.
  - by apply Hc.
  - intros v. destruct (v =? 1); lia.
  - intros n. destruct (n =? 1); lia.
  - done.
  - intros v Hv. destruct (decide (v = 1)) as [E|E]; [rewrite E; by vm_compute|].
    cbn beta in Hv. by rewrite (proj2 (Z.eqb_neq v 1) E) in Hv.
  - by vm_compute.
  - lia.
Defined.
