(* ===== verification/DateFormat.v ===== *)
(** * Dates of the group manager

Models mining-manager/group-manager/DateStrFormat.{h,cpp} and
DateStrParser.{h,cpp}, and the masks of DateGroupTable.h: a date is a 32-bit
word with year, month and day in bit fields. The Boost functions the code calls
(tokenizers, lexical_cast, format) are operations of a class, whose laws
state their documented behaviour on the strings of the code. *)
From Stdlib Require Import String Ascii.
From S2P Require Import Prelude.

Definition MASK_ZERO : Z := 0.
Definition MASK_YEAR : Z := 0x7FFE0000.
Definition MASK_MONTH : Z := 0x1E000.
Definition MASK_DAY : Z := 0x1F00.
Definition MASK_YEAR_MONTH : Z := Z.lor MASK_YEAR MASK_MONTH.
Definition MASK_YEAR_MONTH_DAY : Z := Z.lor MASK_YEAR_MONTH MASK_DAY.

(** ** Boost *)

(** [n] in decimal, padded with zeros to [w] digits. *)
Fixpoint pad (w : nat) (n : Z) : string :=
  match w with
  | O => EmptyString
  | S w => pad w (n / 10) ++ String (ascii_of_nat (48 + Z.to_nat (n mod 10))) EmptyString
  end%string.

Class BoostText := {
  (** char_separator with these delimiters, keeping empty tokens *)
  char_tokens : string -> string -> list string;
  (** offset_separator with these offsets, each used once *)
  offset_tokens : list Z -> string -> list string;
  (** lexical_cast to a 32-bit unsigned; none: bad_lexical_cast *)
  lexical_cast_uint : string -> option Z;
  (** format of these numbers *)
  format_uint : string -> list Z -> string
}.

Class BoostTextLaws `{BoostText} : Prop := {
  char_tokens_join : forall toks, toks <> [] -> Forall (fun t => ("-"%char) ∉ list_ascii_of_string t) toks ->
    char_tokens "-" (String.concat "-" toks) = toks;
  offset_tokens_date : forall a b c r,
    String.length a = 4%nat -> String.length b = 2%nat -> String.length c = 2%nat ->
    offset_tokens [4; 2; 2] (a ++ b ++ c ++ r)%string = [a; b; c];
  lexical_cast_pad : forall w n, (0 < w <= 9)%nat -> 0 <= n < 10 ^ Z.of_nat w ->
    lexical_cast_uint (pad w n) = Some n;
  format_year : forall y, 0 <= y < 10 ^ 4 -> format_uint "%|04|" [y] = pad 4 y;
  format_month : forall y m, 0 <= y < 10 ^ 4 -> 0 <= m < 10 ^ 2 ->
    format_uint "%|04|-%|02|" [y; m] = (pad 4 y ++ "-" ++ pad 2 m)%string;
  format_day : forall y m d, 0 <= y < 10 ^ 4 -> 0 <= m < 10 ^ 2 -> 0 <= d < 10 ^ 2 ->
    format_uint "%|04|-%|02|-%|02|" [y; m; d] = (pad 4 y ++ "-" ++ pad 2 m ++ "-" ++ pad 2 d)%string
}.

(** ** DateStrFormat *)
Section DateStrFormat.
Context `{!BoostText}.

(** [DateValueParser]: mask and shift of a field. *)
Definition dateValueParsers_ : list (Z * Z) := [(MASK_YEAR, 17); (MASK_MONTH, 13); (MASK_DAY, 8)].
Definition dateRanges_ : list (Z * Z) := [(0, 9999); (1, 12); (1, 31)].
Definition apiDateStrFormats_ : list string := ["%|04|"; "%|04|-%|02|"; "%|04|-%|02|-%|02|"]%string.
Definition scdDateOffsets_ : list Z := [4; 2; 2].
Definition SCD_DATE_STR_SIZE : Z := Z.of_nat (String.length "YYYYMMDDhhmmss").
Definition DATE_INDEX_NUM : Z := 3.

Definition extract (p : Z * Z) (date : Z) : Z := Z.shiftr (Z.land date p.1) p.2.
Definition create (p : Z * Z) (date : Z) : Z := u32 (Z.shiftl date p.2).

(** [checkDateRange_], on at most as many tokens as there are ranges. *)
Definition checkDateRange_ (dateVec : list Z) : bool :=
  let tokNum := vsize dateVec in
  if (tokNum <? 1) || (DATE_INDEX_NUM <? tokNum) then false
  else forallb (fun '(date, range) => (range.1 <=? date) && (date <=? range.2)) (combine dateVec dateRanges_).

(** [tokenizeDate_]: the vector read, and whether it is a date. *)
Fixpoint tokenizeDate_ (tokens : list string) (dateVec : list Z) : bool * list Z :=
  match tokens with
  | [] => (checkDateRange_ dateVec, dateVec)
  | t :: tokens =>
      match lexical_cast_uint t with
      | Some date => tokenizeDate_ tokens (dateVec ++ [date])
      | None => (false, dateVec)
      end
  end.

Definition apiDateStrToDateVec (dateStr : string) (dateVec : list Z) : bool * list Z :=
  tokenizeDate_ (char_tokens "-" dateStr) dateVec.

Definition scdDateStrToDateVec (dateStr : string) (dateVec : list Z) : bool * list Z :=
  if negb (Z.of_nat (String.length dateStr) =? SCD_DATE_STR_SIZE) then (false, dateVec)
  else tokenizeDate_ (offset_tokens scdDateOffsets_ dateStr) dateVec.

Definition createDate (dateVec : list Z) : res Z :=
  let tokNum := vsize dateVec in
  let* _ := assert_res ((0 <? tokNum) && (tokNum <=? DATE_INDEX_NUM)) in
  mfold (fun i date =>
    let* p := vget dateValueParsers_ i in
    let* v := vget dateVec i in
    Ret (Z.lor date (create p v))) (seqZ 0 tokNum) 0.

Definition extractDate (date : Z) (dateVec : list Z) : res (list Z) :=
  mfold (fun i dateVec =>
    let* p := vget dateValueParsers_ i in
    vset dateVec i (extract p date)) (seqZ 0 DATE_INDEX_NUM) (vresize DATE_INDEX_NUM 0 dateVec).

(** The index of the first zero, or the number of fields. *)
Definition last_index_body (dateVec : list Z) (lastIndex : Z) : res (Z + Z) :=
  if lastIndex <? DATE_INDEX_NUM then
    let* v := vget dateVec lastIndex in
    if v =? 0 then Ret (inr lastIndex) else Ret (inl (lastIndex + 1))
  else Ret (inr lastIndex).

Definition formatAPIDateStr (dateVec : list Z) : res string :=
  let* lastIndex := while_loop (last_index_body dateVec) 0 in
  let lastIndex := if lastIndex =? 0 then lastIndex else lastIndex - 1 in
  let* fmt := vget apiDateStrFormats_ lastIndex in
  let* args := mfold (fun i args => let* v := vget dateVec i in Ret (args ++ [v])) (seqZ 0 (lastIndex + 1)) [] in
  Ret (format_uint fmt args).

(** ** DateStrParser *)

Definition unitMaskMap_ : list (string * Z) :=
  [("Y", MASK_YEAR); ("M", MASK_YEAR_MONTH); ("D", MASK_YEAR_MONTH_DAY)]%string.
Definition dateMasks_ : list Z := [MASK_YEAR; MASK_YEAR_MONTH; MASK_YEAR_MONTH_DAY].

(** The error message, or the result. *)
Definition unitStrToMask (unitStr : string) : string + Z :=
  match List.find (fun e => String.eqb e.1 unitStr) unitMaskMap_ with
  | Some e => inr e.2
  | None => inl ("invalid parameter of [group][unit]: " ++ unitStr)%string
  end.

(** [DateMask] *)
Record DateMask := Masked { date_ : Z; mask_ : Z }.

Definition apiStrToDateMask (dateStr : string) : res (string + DateMask) :=
  let (ok, dateVec) := apiDateStrToDateVec dateStr [] in
  if negb ok then Ret (inl ("invalid date format of [search][group_label][value]: " ++ dateStr)%string)
  else
    let* date := createDate dateVec in
    let* mask := vget dateMasks_ (vsize dateVec - 1) in
    Ret (inr (Masked date mask)).

Definition scdStrToDate (scdStr : string) : res (string + Z) :=
  let (ok, dateVec) := scdDateStrToDateVec scdStr [] in
  if negb ok || negb (vsize dateVec =? DATE_INDEX_NUM) then
    Ret (inl ("invalid date format: " ++ scdStr)%string)
  else let* date := createDate dateVec in Ret (inr date).

Definition dateToAPIStr (date : Z) : res string :=
  let* dateVec := extractDate date [] in formatAPIDateStr dateVec.
End DateStrFormat.

(** ** The fields of a date *)

Lemma land_field x k n : 0 <= k -> 0 <= n ->
  Z.land x (Z.shiftl (Z.ones n) k) = (x / 2 ^ k) mod 2 ^ n * 2 ^ k.
Proof.
  intros Hk Hn. rewrite <- Z.shiftl_mul_pow2, <- Z.shiftr_div_pow2, <- Z.land_ones by done.
  rewrite Z.shiftl_land. apply Z.bits_inj'. intros i Hi. rewrite !Z.land_spec, !Z.shiftl_spec by done.
  destruct (Z.ltb_spec i k).
  - rewrite (Z.testbit_neg_r (Z.ones n)) by lia. by rewrite !andb_false_r.
  - rewrite Z.shiftr_spec by lia. by replace (i - k + k) with i by lia.
Qed.

Lemma lor_low a b k : 0 <= k -> 0 <= b < 2 ^ k -> Z.lor (a * 2 ^ k) b = a * 2 ^ k + b.
Proof.
  intros Hk Hb. assert (Z.land (a * 2 ^ k) b = 0) as H0.
  { apply Z.bits_inj'. intros i Hi. rewrite Z.land_spec, Z.bits_0. destruct (Z.ltb_spec i k).
    - by rewrite Z.mul_pow2_bits_low by lia.
    - rewrite andb_comm. rewrite <- (Z.mod_small b (2 ^ k)), Z.mod_pow2_bits_high by lia. done. }
  rewrite <- Z.lxor_lor by done. by rewrite <- Z.add_nocarry_lxor by done.
Qed.

Definition date_of (y m d : Z) : Z := y * 2 ^ 17 + m * 2 ^ 13 + d * 2 ^ 8.

Definition fields_ok (y m d : Z) : Prop := 0 <= y < 2 ^ 14 /\ 0 <= m < 2 ^ 4 /\ 0 <= d < 2 ^ 5.

Section Fields.
#[local] Ltac Zify.zify_post_hook ::= Z.to_euclidean_division_equations.

Lemma date_fields y m d : fields_ok y m d ->
  Z.land (date_of y m d) MASK_YEAR = date_of y 0 0 /\ Z.land (date_of y m d) MASK_YEAR_MONTH = date_of y m 0 /\
  Z.land (date_of y m d) MASK_YEAR_MONTH_DAY = date_of y m d /\
  Z.land (date_of y m d) MASK_MONTH = date_of 0 m 0 /\ Z.land (date_of y m d) MASK_DAY = date_of 0 0 d.
Proof.
  intros (Hy & Hm & Hd). change MASK_YEAR with (Z.shiftl (Z.ones 14) 17). change MASK_MONTH with (Z.shiftl (Z.ones 4) 13).
  change MASK_DAY with (Z.shiftl (Z.ones 5) 8). change MASK_YEAR_MONTH with (Z.shiftl (Z.ones 18) 13).
  change MASK_YEAR_MONTH_DAY with (Z.shiftl (Z.ones 23) 8). rewrite !land_field by lia. unfold date_of.
  split_and!; lia.
Qed.

Lemma create_fields y m d : fields_ok y m d ->
  create (MASK_YEAR, 17) y = date_of y 0 0 /\ create (MASK_MONTH, 13) m = date_of 0 m 0 /\
  create (MASK_DAY, 8) d = date_of 0 0 d.
Proof.
  intros (Hy & Hm & Hd). unfold create, date_of. cbn [fst snd]. rewrite !Z.shiftl_mul_pow2 by lia.
  rewrite !u32_small by lia. split_and!; lia.
Qed.

Lemma lor_fields y m d : fields_ok y m d ->
  Z.lor (date_of y 0 0) (date_of 0 m 0) = date_of y m 0 /\ Z.lor (date_of y m 0) (date_of 0 0 d) = date_of y m d.
Proof.
  intros (Hy & Hm & Hd). unfold date_of. split.
  - replace (y * 2 ^ 17 + 0 * 2 ^ 13 + 0 * 2 ^ 8) with (y * 2 ^ 17) by lia. rewrite lor_low by lia. lia.
  - replace (y * 2 ^ 17 + m * 2 ^ 13 + 0 * 2 ^ 8) with ((y * 2 ^ 4 + m) * 2 ^ 13) by lia. rewrite lor_low by lia. lia.
Qed.

Lemma extract_fields y m d : fields_ok y m d ->
  extract (MASK_YEAR, 17) (date_of y m d) = y /\ extract (MASK_MONTH, 13) (date_of y m d) = m /\
  extract (MASK_DAY, 8) (date_of y m d) = d.
Proof.
  intros H. destruct (date_fields y m d H) as (E1 & _ & _ & E2 & E3). destruct H as (Hy & Hm & Hd).
  unfold extract. cbn [fst snd]. rewrite E1, E2, E3, !Z.shiftr_div_pow2 by lia. unfold date_of. split_and!; lia.
Qed.

(** Different fields are different dates. *)
Lemma date_of_inj y m d y' m' d' : fields_ok y m d -> fields_ok y' m' d' ->
  date_of y m d = date_of y' m' d' -> y = y' /\ m = m' /\ d = d'.
Proof. intros (? & ? & ?) (? & ? & ?). unfold date_of. lia. Qed.

Lemma date_of_range y m d : fields_ok y m d -> 0 <= date_of y m d < 2 ^ 31.
Proof. intros (? & ? & ?). unfold date_of. lia. Qed.
End Fields.

(** A vector of one to three tokens in their ranges. *)
Definition date_vec (v : list Z) : Prop :=
  match v with
  | [y] => 0 <= y <= 9999
  | [y; m] => 0 <= y <= 9999 /\ 1 <= m <= 12
  | [y; m; d] => 0 <= y <= 9999 /\ 1 <= m <= 12 /\ 1 <= d <= 31
  | _ => False
  end.

Definition vec_date (v : list Z) : Z :=
  match v with [y] => date_of y 0 0 | [y; m] => date_of y m 0 | [y; m; d] => date_of y m d | _ => 0 end.

Lemma date_vec_cases (P : list Z -> Prop) :
  (forall y, 0 <= y <= 9999 -> P [y]) -> (forall y m, 0 <= y <= 9999 -> 1 <= m <= 12 -> P [y; m]) ->
  (forall y m d, 0 <= y <= 9999 -> 1 <= m <= 12 -> 1 <= d <= 31 -> P [y; m; d]) ->
  forall v, date_vec v -> P v.
Proof. intros H1 H2 H3 [|y [|m [|d [|? ?]]]] H; cbn in H; try done; [by apply H1|by apply H2; tauto|by apply H3; tauto]. Qed.

Lemma checkDateRange_ok v : checkDateRange_ v = true <-> date_vec v.
Proof.
  destruct v as [|y [|m [|d [|? ?]]]]; try done; cbn [date_vec]; unfold checkDateRange_.
  - change (vsize [y]) with 1. cbn. lia.
  - change (vsize [y; m]) with 2. cbn. lia.
  - change (vsize [y; m; d]) with 3. cbn. lia.
  - rewrite !vsize_cons. pose proof (vsize_nonneg l). unfold DATE_INDEX_NUM.
    destruct (Z.ltb_spec 3 (1 + (1 + (1 + (1 + vsize l))))); [|lia]. rewrite orb_true_r. done.
Qed.

Lemma createDate_ok v : date_vec v -> createDate v = Ret (vec_date v).
Proof.
  revert v. apply date_vec_cases.
  - intros y Hy. destruct (create_fields y 0 0) as (E & _); [unfold fields_ok; lia|].
    change (createDate [y]) with (Ret (Z.lor 0 (create (MASK_YEAR, 17) y))). by rewrite E.
  - intros y m Hy Hm. assert (fields_ok y m 0) as H by (unfold fields_ok; lia).
    destruct (create_fields y m 0 H) as (E1 & E2 & _), (lor_fields y m 0 H) as [E _].
    change (createDate [y; m]) with (Ret (Z.lor (Z.lor 0 (create (MASK_YEAR, 17) y)) (create (MASK_MONTH, 13) m))).
    rewrite E1, E2, Z.lor_0_l, E. done.
  - intros y m d Hy Hm Hd. assert (fields_ok y m d) as H by (unfold fields_ok; lia).
    destruct (create_fields y m d H) as (E1 & E2 & E3), (lor_fields y m d H) as [E E'].
    change (createDate [y; m; d]) with
      (Ret (Z.lor (Z.lor (Z.lor 0 (create (MASK_YEAR, 17) y)) (create (MASK_MONTH, 13) m)) (create (MASK_DAY, 8) d))).
    rewrite E1, E2, E3, Z.lor_0_l, E, E'. done.
Qed.

(** ** Printing and reading *)
Section DateText.
Context `{!BoostText, !BoostTextLaws}.

Definition tokens_of (v : list Z) : list string :=
  match v with
  | [] => []
  | y :: v => pad 4 y :: map (pad 2) v
  end.

Lemma tokenize_ok v : date_vec v -> tokenizeDate_ (tokens_of v) [] = (true, v).
Proof.
  assert (forall y, 0 <= y <= 9999 -> lexical_cast_uint (pad 4 y) = Some y) as H4
    by (intros y Hy; apply lexical_cast_pad; lia).
  assert (forall y, 0 <= y <= 31 -> lexical_cast_uint (pad 2 y) = Some y) as H2
    by (intros y Hy; apply lexical_cast_pad; lia).
  revert v. apply date_vec_cases; intros; cbn [tokens_of map tokenizeDate_ app];
    rewrite H4 by lia; cbn [app]; repeat (rewrite H2 by lia; cbn [app]); f_equal; apply checkDateRange_ok; cbn; lia.
Qed.

Lemma digit_not_dash n : ascii_of_nat (48 + Z.to_nat (n mod 10)) <> "-"%char.
Proof.
  intros E. apply (f_equal nat_of_ascii) in E. pose proof (Z.mod_pos_bound n 10 ltac:(lia)).
  rewrite nat_ascii_embedding in E by lia. change (nat_of_ascii "-") with 45%nat in E. lia.
Qed.

Lemma chars_app (a b : string) : list_ascii_of_string (a ++ b)%string = list_ascii_of_string a ++ list_ascii_of_string b.
Proof. induction a as [|c a IH]; [done|]. exact (f_equal (cons c) IH). Qed.

Lemma pad_no_dash w : forall n, ("-"%char) ∉ list_ascii_of_string (pad w n).
Proof.
  induction w as [|w IH]; intros n; cbn [pad]; [by intros ?%elem_of_nil|].
  rewrite chars_app, elem_of_app. intros [Hl|Hl%list_elem_of_singleton]; [by apply IH in Hl|]. by destruct (digit_not_dash n).
Qed.

Lemma string_length_app (a b : string) : String.length (a ++ b)%string = (String.length a + String.length b)%nat.
Proof. induction a as [|c a IH]; [done|]. exact (f_equal Datatypes.S IH). Qed.

Lemma pad_length w : forall n, String.length (pad w n) = w.
Proof.
  induction w as [|w IH]; intros n; [done|]. cbn [pad].
  rewrite string_length_app, IH. cbn. lia.
Qed.

Lemma last_index_ok v : vsize v = 3 ->
  exists b, while_loop (last_index_body v) 0 = Ret b /\ 0 <= b <= 3 /\
    (forall j, 0 <= j < b -> vget v j <> Ret 0) /\ (b < 3 -> vget v b = Ret 0).
Proof.
  intros Hv. apply (while_loop_rule (last_index_body v)
    (fun g i => g = 3 - i /\ 0 <= i <= 3 /\ forall j, 0 <= j < i -> vget v j <> Ret 0) (fun g => g)) with (g := 3).
  - intros g i (-> & Hi & Hj). split; [lia|]. unfold last_index_body, DATE_INDEX_NUM.
    destruct (Z.ltb_spec i 3); [|right; exists i; split; [done|]; split; [lia|]; split; [done|lia]].
    destruct (vget_in_range v i ltac:(lia)) as [x Ex]. rewrite Ex. cbn [res_bind].
    destruct (Z.eqb_spec x 0) as [->|Hx]; [right; exists i; split; [done|]; split; [lia|]; by split|].
    left. exists (3 - (i + 1)), (i + 1). split; [done|]. split; [|lia]. split; [done|]. split; [lia|].
    intros j Hj2. destruct (decide (j = i)) as [->|]; [congruence|]. apply Hj. lia.
  - split; [done|]. split; [lia|]. lia.
  - done.
Qed.

Lemma format_date v : date_vec v -> hd 0 v <> 0 ->
  dateToAPIStr (vec_date v) = Ret (String.concat "-" (tokens_of v)).
Proof.
  intros Hv Hy. unfold dateToAPIStr.
  assert (exists y m d, vec_date v = date_of y m d /\ fields_ok y m d /\ y <> 0 /\ y < 10 ^ 4 /\ m < 10 ^ 2 /\ d < 10 ^ 2 /\
    String.concat "-" (tokens_of v) =
      (if (m =? 0)%Z then pad 4 y else if (d =? 0)%Z then pad 4 y ++ "-" ++ pad 2 m else pad 4 y ++ "-" ++ pad 2 m ++ "-" ++ pad 2 d)%string)
    as (y & m & d & -> & Hf & Hy0 & Hyb & Hmb & Hdb & ->).
  { revert v Hv Hy. refine (date_vec_cases _ _ _ _).
    - intros y Hy1 Hy. exists y, 0, 0. unfold fields_ok. cbn in Hy. split_and!; try done; lia.
    - intros y m Hy1 Hm Hy. exists y, m, 0. unfold fields_ok. cbn in Hy. split_and!; try done; try lia.
      by destruct (Z.eqb_spec m 0); [lia|].
    - intros y m d Hy1 Hm Hd Hy. exists y, m, d. unfold fields_ok. cbn in Hy. split_and!; try done; try lia.
      destruct (Z.eqb_spec m 0), (Z.eqb_spec d 0); done || lia. }
  destruct (extract_fields y m d Hf) as (E1 & E2 & E3).
  change (extractDate (date_of y m d) []) with
    (Ret [extract (MASK_YEAR, 17) (date_of y m d); extract (MASK_MONTH, 13) (date_of y m d); extract (MASK_DAY, 8) (date_of y m d)]).
  rewrite E1, E2, E3. cbn [res_bind]. unfold formatAPIDateStr. destruct Hf as (Hfy & Hfm & Hfd).
  destruct (last_index_ok [y; m; d] eq_refl) as (b & -> & Hb & Hpre & Hpost). cbn [res_bind].
  assert (b <> 0) as Hb0 by (intros ->; specialize (Hpost ltac:(lia)); injection Hpost; lia).
  assert (b = 1 \/ b = 2 \/ b = 3) as Hcases by lia.
  destruct Hcases as [->|[->| ->]].
  - specialize (Hpost ltac:(lia)). injection Hpost as ->.
    transitivity (Ret (format_uint "%|04|" [y])); [done|]. f_equal. by apply format_year; lia.
  - specialize (Hpost ltac:(lia)). injection Hpost as ->. assert (m <> 0) by (intros ->; by apply (Hpre 1)).
    rewrite (proj2 (Z.eqb_neq m 0)) by done. transitivity (Ret (format_uint "%|04|-%|02|" [y; m])); [done|].
    f_equal. by apply format_month; lia.
  - assert (m <> 0) by (intros ->; by apply (Hpre 1)). assert (d <> 0) by (intros ->; by apply (Hpre 2)).
    rewrite (proj2 (Z.eqb_neq m 0)), (proj2 (Z.eqb_neq d 0)) by done.
    transitivity (Ret (format_uint "%|04|-%|02|-%|02|" [y; m; d])); [done|]. f_equal. by apply format_day; lia.
Qed.

(** C33: dates and their texts. The text printed for a year (not 0), a month or
    a day is read back as the same date, with the mask of exactly the fields
    that were printed; and the first eight characters of a 14-character
    SCD date are read as the date of their year, month and day. *)
Theorem date_roundtrip :
  (forall v, date_vec v -> hd 0 v <> 0 -> exists s mask,
     dateToAPIStr (vec_date v) = Ret s /\ apiStrToDateMask s = Ret (inr (Masked (vec_date v) mask)) /\
     vget [MASK_YEAR; MASK_YEAR_MONTH; MASK_YEAR_MONTH_DAY] (vsize v - 1) = Ret mask) /\
  (forall y m d rest, date_vec [y; m; d] -> String.length rest = 6%nat ->
     scdStrToDate (pad 4 y ++ pad 2 m ++ pad 2 d ++ rest) = Ret (inr (date_of y m d))).
Proof.
  split.
  - intros v Hv Hy. exists (String.concat "-" (tokens_of v)). rewrite (format_date v Hv Hy).
    destruct (vget_in_range dateMasks_ (vsize v - 1)) as [mask Em].
    { clear Hy. revert v Hv. apply date_vec_cases; intros; unfold vsize; cbn; lia. }
    exists mask. split; [done|]. split; [|exact Em]. unfold apiStrToDateMask, apiDateStrToDateVec.
    rewrite char_tokens_join.
    + rewrite (tokenize_ok v Hv). cbn [negb]. rewrite (createDate_ok v Hv), Em. done.
    + by destruct v.
    + destruct v as [|y v]; [done|]. cbn [tokens_of]. constructor; [apply pad_no_dash|]. apply Forall_forall.
      intros t (x & -> & _)%list_elem_of_fmap. apply pad_no_dash.
  - intros y m d rest Hv Hr. unfold scdStrToDate, scdDateStrToDateVec.
    assert (String.length (pad 4 y ++ pad 2 m ++ pad 2 d ++ rest)%string = 14%nat) as ->.
    { rewrite !string_length_app, !pad_length, Hr. done. }
    change (Z.of_nat 14 =? SCD_DATE_STR_SIZE) with true. cbn [negb]. unfold scdDateOffsets_.
    rewrite offset_tokens_date by apply pad_length. pose proof (tokenize_ok [y; m; d] Hv) as E. cbn [tokens_of map] in E.
    rewrite E. cbn [negb orb]. change (vsize [y; m; d] =? DATE_INDEX_NUM) with true. cbn [negb orb].
    rewrite (createDate_ok _ Hv). done.
Qed.
End DateText.

(** ** Text functions for the examples *)

Fixpoint split_char (c : ascii) (s : string) : list string :=
  match s with
  | EmptyString => [EmptyString]
  | String a s =>
      if Ascii.eqb a c then EmptyString :: split_char c s
      else match split_char c s with t :: ts => String a t :: ts | [] => [String a EmptyString] end
  end.

Fixpoint split_lengths (l : list Z) (s : string) : list string :=
  match l with
  | [] => []
  | n :: l => substring 0 (Z.to_nat n) s :: split_lengths l (substring (Z.to_nat n) (String.length s) s)
  end.

Definition digit (c : ascii) : option Z :=
  let n := Z.of_nat (nat_of_ascii c) - 48 in if (0 <=? n) && (n <=? 9) then Some n else None.

Fixpoint digits_value (acc : Z) (s : list ascii) : option Z :=
  match s with
  | [] => Some acc
  | c :: s => match digit c with Some d => digits_value (10 * acc + d) s | None => None end
  end.

Definition read_uint (s : string) : option Z :=
  match list_ascii_of_string s with
  | [] => None
  | cs => match digits_value 0 cs with Some n => if n <? 2 ^ 32 then Some n else None | None => None end
  end.

Definition print_nums (fmt : string) (l : list Z) : string :=
  match l with
  | [y] => pad 4 y
  | [y; m] => pad 4 y ++ "-" ++ pad 2 m
  | [y; m; d] => pad 4 y ++ "-" ++ pad 2 m ++ "-" ++ pad 2 d
  | _ => EmptyString
  end%string.

#[export] Instance ascii_text : BoostText := {|
  char_tokens := fun seps s => match seps with String c _ => split_char c s | EmptyString => [s] end;
  offset_tokens := split_lengths;
  lexical_cast_uint := read_uint;
  format_uint := print_nums
|}.

Lemma split_char_free c t : c ∉ list_ascii_of_string t -> split_char c t = [t].
Proof.
  induction t as [|a t IH]; intros H; [done|]. cbn in H |- *. apply not_elem_of_cons in H as [Hne H].
  destruct (Ascii.eqb_spec a c); [congruence|]. by rewrite IH.
Qed.

Lemma split_char_app c t s : c ∉ list_ascii_of_string t ->
  split_char c (t ++ String c s)%string = t :: split_char c s.
Proof.
  induction t as [|a t IH]; intros H.
  - change (split_char c (String c s) = EmptyString :: split_char c s). cbn. by rewrite Ascii.eqb_refl.
  - cbn in H. apply not_elem_of_cons in H as [Hne H]. specialize (IH H).
    change (split_char c (String a (t ++ String c s)) = String a t :: split_char c s). cbn [split_char].
    destruct (Ascii.eqb_spec a c); [congruence|]. by rewrite IH.
Qed.

Lemma substring_prefix a b : substring 0 (String.length a) (a ++ b)%string = a.
Proof. induction a as [|c a IH]; [by destruct b|]. exact (f_equal (String c) IH). Qed.

Lemma substring_all b n : (String.length b <= n)%nat -> substring 0 n b = b.
Proof.
  revert n. induction b as [|c b IH]; intros [|n] Hn; try done; cbn in Hn; [lia|]. cbn. f_equal. apply IH. lia.
Qed.

Lemma substring_suffix a b n : (String.length b <= n)%nat -> substring (String.length a) n (a ++ b)%string = b.
Proof.
  intros Hn. induction a as [|c a IH]; [by apply substring_all|]. exact IH.
Qed.

Lemma split_lengths_app n l a b : String.length a = Z.to_nat n ->
  split_lengths (n :: l) (a ++ b)%string = a :: split_lengths l b.
Proof.
  intros Ha. cbn [split_lengths]. rewrite <- Ha, substring_prefix, substring_suffix; [done|].
  rewrite string_length_app. lia.
Qed.

Lemma digits_value_app s1 s2 acc :
  digits_value acc (s1 ++ s2) = match digits_value acc s1 with Some n => digits_value n s2 | None => None end.
Proof. revert acc. induction s1 as [|c s1 IH]; intros acc; [done|]. cbn. destruct (digit c); [apply IH|done]. Qed.

Lemma digit_ok n : digit (ascii_of_nat (48 + Z.to_nat (n mod 10))) = Some (n mod 10).
Proof.
  pose proof (Z.mod_pos_bound n 10 ltac:(lia)). unfold digit. rewrite nat_ascii_embedding by lia.
  replace (Z.of_nat (48 + Z.to_nat (n mod 10)) - 48) with (n mod 10) by lia.
  destruct (Z.leb_spec 0 (n mod 10)), (Z.leb_spec (n mod 10) 9); done || lia.
Qed.

Lemma pad_value w : forall n acc, 0 <= n < 10 ^ Z.of_nat w ->
  digits_value acc (list_ascii_of_string (pad w n)) = Some (acc * 10 ^ Z.of_nat w + n).
Proof.
  induction w as [|w IH]; intros n acc Hn; [cbn in *; f_equal; lia|]. cbn [pad].
  rewrite chars_app, digits_value_app. rewrite Nat2Z.inj_succ, Z.pow_succ_r in Hn |- * by lia.
  pose proof (Z.div_mod n 10 ltac:(lia)). pose proof (Z.mod_pos_bound n 10 ltac:(lia)).
  rewrite IH by nia. cbn [list_ascii_of_string digits_value]. rewrite digit_ok. f_equal. lia.
Qed.

#[export] Instance ascii_text_laws : BoostTextLaws.
Proof.
  split.
  - intros toks Hne Hall. cbn -[String.concat]. induction Hall as [|t toks Ht Hall IH]; [done|].
    destruct toks as [|t' toks]; [by apply split_char_free|].
    change (String.concat "-" (t :: t' :: toks)) with (t ++ String "-" (String.concat "-" (t' :: toks)))%string.
    rewrite split_char_app by done. f_equal. by apply IH.
  - intros a b c r Ha Hb Hc. cbn -[split_lengths]. by rewrite !split_lengths_app.
  - intros w n Hw Hn. change lexical_cast_uint with read_uint. unfold read_uint. pose proof (pad_value w n 0 Hn) as E. pose proof (pad_length w n) as Hl.
    destruct (pad w n) as [|a s]; [cbn in Hl; lia|].
    change (list_ascii_of_string (String a s)) with (a :: list_ascii_of_string s) in *. cbv iota. rewrite E.
    pose proof (Z.pow_le_mono_r 10 (Z.of_nat w) 9 ltac:(lia) ltac:(lia)).
    destruct (Z.ltb_spec (0 * 10 ^ Z.of_nat w + n) (2 ^ 32)); [f_equal; lia|lia].
  - done.
  - done.
  - done.
Qed.

Example date_texts :
  (let* d := scdStrToDate "20120704143015" in
   match d with
   | inl e => Throw e
   | inr d => let* s := dateToAPIStr d in let* m := apiStrToDateMask "2012-07" in let* e := apiStrToDateMask "2012-13" in Ret (s, m, e)
   end) =
  Ret ("2012-07-04"%string, inr (Masked (date_of 2012 7 0) MASK_YEAR_MONTH),
       inl "invalid date format of [search][group_label][value]: 2012-13"%string).
Proof. vm_compute. reflexivity. Qed.

Lemma date_roundtrip_witness : exists s mask,
  dateToAPIStr (date_of 2012 7 0) = Ret s /\ apiStrToDateMask s = Ret (inr (Masked (date_of 2012 7 0) mask)) /\
  vget [MASK_YEAR; MASK_YEAR_MONTH; MASK_YEAR_MONTH_DAY] (2 - 1) = Ret mask.
Proof. apply (proj1 date_roundtrip [2012; 7]); [cbn; lia|cbn; lia]. Defined.
