(* ===== verification/GroupCounter.v ===== *)
(** * Counting the documents of group values

Models mining-manager/group-manager/GroupCounter.h, SubGroupCounter.h,
StringGroupCounter.h and NumericGroupCounter.h. The virtual interface of the
counters is the class [GroupCounter]. The template parameter [CounterType] is
the class of the same name, with its two instances: a number, and
[SubGroupCounter], a number with a counter of the second property. A counter
is a value, so that [clone] is the identity. *)
From S2P Require Import Prelude OrdMap Float64 PropIdTable OntologyRep GroupRep.
From S2P Require PropValueTable.
Import PropValueTable (PropValueTable, getPropIdList, getParentIds, childMapTable_, valueIdTable_, propStrVec_, value_num, tree_ok).

(** GroupCounter.h: what a counter appends to a result may also change it
    (the counts of parents are added when it is asked). *)
Class GroupCounter (T G : Type) := {
  gc_addDoc : Z -> G -> res G;
  gc_getGroupRep : GroupRep T -> G -> res (GroupRep T * G);
  gc_getStringRep : list (item T) -> Z -> G -> res (list (item T) * G)
}.

(** What a count per value can do: [++count], the same for a document, its
    number, the items below the value, and the counts of parent values. *)
Class CounterType (T C : Type) := {
  ct_incr : C -> C;
  ct_addDoc : Z -> C -> res C;
  ct_count : C -> Z;
  ct_getStringRep : list (item T) -> Z -> C -> res (list (item T) * C);
  ct_addCountForParentId : PropValueTable T -> list C -> res (list C)
}.

(** *** A plain number *)

(** newCountTable[*it] += count, for the value and its ancestors. *)
Definition add_parents {T} (pv : PropValueTable T) (i count : Z) (newCountTable : list Z) : res (list Z) :=
  let* parentIds := getParentIds i pv in
  mfold (fun id table => let* n := vget table id in vset table id (u32 (n + count))) parentIds newCountTable.

Definition addCountForParentId {T} (pv : PropValueTable T) (countTable : list Z) : res (list Z) :=
  let totalIdNum := vsize countTable in
  if totalIdNum =? 0 then Ret countTable
  else
    let* c0 := vget countTable 0 in
    let* newCountTable := vset (replicate (Z.to_nat totalIdNum) 0) 0 c0 in
    mfold (fun i newCountTable =>
      let* count := vget countTable i in
      if count =? 0 then Ret newCountTable else add_parents pv i count newCountTable)
      (seqZ 1 (totalIdNum - 1)) newCountTable.

#[export] Instance uint_counter {T} : CounterType T Z := {|
  ct_incr := fun c => u32 (c + 1);
  ct_addDoc := fun _ c => Ret (u32 (c + 1));
  ct_count := fun c => c;
  ct_getStringRep := fun l _ c => Ret (l, c);
  ct_addCountForParentId := addCountForParentId
|}.

(** *** A number with a counter of the second property *)
Record SubGroupCounter (G : Type) := SubCounter { count_ : Z; groupCounter_ : G }.
Arguments SubCounter {_} _ _.
Arguments count_ {_} _.
Arguments groupCounter_ {_} _.

#[export] Instance sub_counter {T G} `{!GroupCounter T G} : CounterType T (SubGroupCounter G) := {|
  ct_incr := fun c => SubCounter (u32 (count_ c + 1)) (groupCounter_ c);
  ct_addDoc := fun doc c =>
    let* g := gc_addDoc doc (groupCounter_ c) in Ret (SubCounter (u32 (count_ c + 1)) g);
  ct_count := count_;
  ct_getStringRep := fun l level c =>
    let* (l, g) := gc_getStringRep l level (groupCounter_ c) in Ret (l, SubCounter (count_ c) g);
  ct_addCountForParentId := fun _ table => Ret table
|}.

(** ** StringGroupCounter.h *)
Record StringGroupCounter (T C : Type) := StringCounter {
  propName_ : string;
  propValueTable_ : PropValueTable T;
  countTable_ : list C
}.
Arguments StringCounter {_ _} _ _ _.
Arguments propName_ {_ _} _.
Arguments propValueTable_ {_ _} _.
Arguments countTable_ {_ _} _.

Section StringGroupCounter.
Context {T : Type} `{!TextOrder T} (ustring : string -> T).
Context {C : Type} `{!CounterType T C}.
Implicit Types (g : StringGroupCounter T C).

Definition new_string_counter (propName : string) (pv : PropValueTable T) (defaultCounter : C) : StringGroupCounter T C :=
  StringCounter propName pv (replicate (length (propStrVec_ pv)) defaultCounter).

Definition set_counts g (table : list C) : StringGroupCounter T C :=
  StringCounter (propName_ g) (propValueTable_ g) table.

Definition string_addDoc (doc : Z) g : res (StringGroupCounter T C) :=
  let pv := propValueTable_ g in
  let* propIdList := getPropIdList doc pv in
  let idNum := size_ propIdList in
  if idNum =? 0 then Ret g
  else
    let* table := mfold (fun i table =>
      let* id := id_at (valueIdTable_ pv) propIdList i in
      let* c := vget table id in
      let* c := ct_addDoc (T := T) doc c in
      vset table id c) (seqZ 0 idNum) (countTable_ g) in
    let* c := vget table 0 in
    let* table := vset table 0 (ct_incr (T := T) c) in
    Ret (set_counts g table).

(** The items of a value and of its counted descendants, in pre-order. *)
Fixpoint appendGroupRep (fuel : nat) (pv : PropValueTable T) (pvId level : Z) (valueStr : T)
    (st : list (item T) * list C) : res (list (item T) * list C) :=
  match fuel with
  | O => NoFuel
  | S fuel =>
      let (itemList, table) := st in
      let* c := vget table pvId in
      let itemList := itemList ++ [mk_item (u8 level) valueStr 0 (ct_count (T := T) c)] in
      let* (itemList, table) :=
        (if negb (pvId =? 0) then
           let* (itemList, c) := ct_getStringRep itemList (level + 1) c in
           let* table := vset table pvId c in
           Ret (itemList, table)
         else Ret (itemList, table)) in
      let* propStrMap := vget (childMapTable_ pv) pvId in
      mfold (fun (it : T * Z) '(itemList, table) =>
        let* c := vget table it.2 in
        if negb (ct_count (T := T) c =? 0) then
          appendGroupRep fuel pv it.2 (level + 1) it.1 (itemList, table)
        else Ret (itemList, table)) propStrMap (itemList, table)
  end.

(** A path of the tree has at most one id per value. *)
Definition tree_fuel (pv : PropValueTable T) : nat := S (length (propStrVec_ pv)).

Definition string_getGroupRep (groupRep : GroupRep T) g : res (GroupRep T * StringGroupCounter T C) :=
  let pv := propValueTable_ g in
  let* table := ct_addCountForParentId pv (countTable_ g) in
  let* (itemList, table) :=
    appendGroupRep (tree_fuel pv) pv 0 0 (ustring (propName_ g)) (stringGroupRep_ groupRep, table) in
  Ret (Rep itemList (numericGroupRep_ groupRep) (numericRangeGroupRep_ groupRep), set_counts g table).

Definition string_getStringRep (strRep : list (item T)) (level : Z) g
  : res (list (item T) * StringGroupCounter T C) :=
  let pv := propValueTable_ g in
  let* table := ct_addCountForParentId pv (countTable_ g) in
  let* propStrMap := vget (childMapTable_ pv) 0 in
  let* (itemList, table) := mfold (fun (it : T * Z) '(itemList, table) =>
    let* c := vget table it.2 in
    if negb (ct_count (T := T) c =? 0) then
      appendGroupRep (tree_fuel pv) pv it.2 level it.1 (itemList, table)
    else Ret (itemList, table)) propStrMap (strRep, table) in
  Ret (itemList, set_counts g table).

#[export] Instance string_counter : GroupCounter T (StringGroupCounter T C) := {|
  gc_addDoc := string_addDoc;
  gc_getGroupRep := string_getGroupRep;
  gc_getStringRep := string_getStringRep
|}.
End StringGroupCounter.

(** ** NumericGroupCounter.h

[std::map<double, CounterType>]: keys by the operator of doubles. *)
Fixpoint dm_find {V} (m : list (spec_float * V)) (k : spec_float) : option V :=
  match m with
  | [] => None
  | (k', v) :: m => if flt k' k then dm_find m k else if flt k k' then None else Some v
  end.

Fixpoint dm_set {V} (m : list (spec_float * V)) (k : spec_float) (v : V) : list (spec_float * V) :=
  match m with
  | [] => [(k, v)]
  | (k', v') :: m' =>
      if flt k' k then (k', v') :: dm_set m' k v
      else if flt k k' then (k, v) :: m else (k', v) :: m'
  end.

(** [getDoubleValue(doc, value)] of the numeric property table, which is not
    modelled, is [numeric_values]. *)
Record NumericGroupCounter (C : Type) := NumericCounter {
  property_ : string;
  numeric_values : Z -> option spec_float;
  numeric_countTable_ : list (spec_float * C);
  initSubCounter : C
}.
Arguments NumericCounter {_} _ _ _ _.
Arguments property_ {_} _.
Arguments numeric_values {_} _ _.
Arguments numeric_countTable_ {_} _.
Arguments initSubCounter {_} _.

Section NumericGroupCounter.
Context {T : Type} `{!TextOrder T} (ustring : string -> T).
Context {C : Type} `{!CounterType T C}.
Implicit Types (g : NumericGroupCounter C).

Definition numeric_addDoc (doc : Z) g : res (NumericGroupCounter C) :=
  match numeric_values g doc with
  | Some value =>
      let c := default (initSubCounter g) (dm_find (numeric_countTable_ g) value) in
      let* c := ct_addDoc (T := T) doc c in
      Ret (NumericCounter (property_ g) (numeric_values g) (dm_set (numeric_countTable_ g) value c) (initSubCounter g))
  | None => Ret g
  end.

(** The values with their items below, from [level] on; and their counts. *)
Definition numeric_items (level : Z) (strRep : list (item T)) g
  : res (list (item T) * list (spec_float * C) * Z) :=
  mfold (fun (it : spec_float * C) '(strRep, table, total) =>
    let strRep := strRep ++ [mk_item (u8 level) (ustring (fixed2 it.1)) 0 (ct_count (T := T) it.2)] in
    let* (strRep, c) := ct_getStringRep strRep (level + 1) it.2 in
    Ret (strRep, table ++ [(it.1, c)], u32 (total + ct_count (T := T) it.2)))
    (numeric_countTable_ g) (strRep, [], 0).

Definition numeric_getStringRep (strRep : list (item T)) (level : Z) g
  : res (list (item T) * NumericGroupCounter C) :=
  let* (strRep, table, _) := numeric_items level strRep g in
  Ret (strRep, NumericCounter (property_ g) (numeric_values g) table (initSubCounter g)).
End NumericGroupCounter.

Section NumericInstances.
Context {T : Type} `{!TextOrder T} (ustring : string -> T).

(** The list of values and counts. *)
Definition numeric_getGroupRep (groupRep : GroupRep T) (g : NumericGroupCounter Z)
  : res (GroupRep T * NumericGroupCounter Z) :=
  Ret (Rep (stringGroupRep_ groupRep)
         (numericGroupRep_ groupRep ++ [(property_ g, numeric_countTable_ g)]) (numericRangeGroupRep_ groupRep), g).

(** Specialised for sub-counters: string items, below an item with the total. *)
Definition numeric_sub_getGroupRep {G} `{!GroupCounter T G} (groupRep : GroupRep T)
    (g : NumericGroupCounter (SubGroupCounter G)) : res (GroupRep T * NumericGroupCounter (SubGroupCounter G)) :=
  let top := vsize (stringGroupRep_ groupRep) in
  let itemList := stringGroupRep_ groupRep ++ [mk_item 0 (ustring (property_ g)) 0 0] in
  let* (itemList, table, totalCount) := numeric_items ustring 1 itemList g in
  let* topItem := vget itemList top in
  let* itemList := vset itemList top (Item (level topItem) (text topItem) (id topItem) totalCount (score topItem)) in
  Ret (Rep itemList (numericGroupRep_ groupRep) (numericRangeGroupRep_ groupRep),
       NumericCounter (property_ g) (numeric_values g) table (initSubCounter g)).

#[export] Instance numeric_counter : GroupCounter T (NumericGroupCounter Z) := {|
  gc_addDoc := numeric_addDoc (T := T);
  gc_getGroupRep := numeric_getGroupRep;
  gc_getStringRep := numeric_getStringRep ustring
|}.

#[export] Instance numeric_sub_counter {G} `{!GroupCounter T G} :
  GroupCounter T (NumericGroupCounter (SubGroupCounter G)) := {|
  gc_addDoc := numeric_addDoc (T := T);
  gc_getGroupRep := numeric_sub_getGroupRep;
  gc_getStringRep := numeric_getStringRep ustring
|}.
End NumericInstances.

(** ** What a string counter counts *)
Section StringCounts.
Context {T : Type} `{!TextOrder T} (pv : PropValueTable T) (f : Z -> list Z).
Hypothesis Htree : tree_ok pv.
Hypothesis Hf : table_rep (valueIdTable_ pv) f.
Hypothesis Hids : forall doc id, id ∈ f doc -> 0 < id < value_num pv.

(** [id] is the value [j] or one of its ancestors. *)
Definition is_above (id j : Z) : bool :=
  match getParentIds j pv with Ret l => bool_decide (id ∈ l) | _ => false end.

Lemma chain_NoDup l : forall id, PropValueTable.chain_of pv id l -> NoDup l.
Proof.
  induction l as [|x l IH]; intros id H; [constructor|]. destruct H as (-> & _ & p & _ & Hp & Hl).
  constructor; [|by eapply IH]. intros Hin. pose proof (PropValueTable.chain_le pv l p id Hl Hin). lia.
Qed.

Lemma parents_of j : 0 <= j < value_num pv ->
  exists l, getParentIds j pv = Ret l /\ NoDup l /\ (forall id, id ∈ l -> 0 < id < value_num pv) /\
    forall id, is_above id j = bool_decide (id ∈ l).
Proof.
  intros Hj. pose proof Htree as (Hn & _). destruct (PropValueTable.chain_exists pv j Htree Hj) as (l & Hl & Hlen).
  destruct (PropValueTable.getParentIds_ok pv j l Hl ltac:(lia)) as [E _]. exists l. split; [done|].
  split; [by eapply chain_NoDup|]. split.
  - intros id Hid. pose proof (PropValueTable.chain_le pv l j id Hl Hid). lia.
  - intros id. unfold is_above. by rewrite E.
Qed.

Lemma is_above_0 j : 0 <= j < value_num pv -> is_above 0 j = false.
Proof.
  intros Hj. destruct (parents_of j Hj) as (l & _ & _ & Hl & ->). apply bool_decide_eq_false_2. intros H%Hl. lia.
Qed.

Lemma all_in_range docs j : j ∈ concat (map f docs) -> 0 < j < value_num pv.
Proof.
  rewrite list_elem_of_In, in_concat. intros (l & (d & <- & _)%in_map_iff & Hj).
  apply (Hids d). by apply list_elem_of_In.
Qed.

Lemma add_parents_ok i c F table : 0 <= i < value_num pv ->
  vec_is (value_num pv) F table -> (forall id, 0 < id -> 0 <= F id /\ F id + c < 2 ^ 32) -> 0 <= c ->
  exists table', add_parents pv i c table = Ret table' /\
    vec_is (value_num pv) (fun id => F id + if is_above id i then c else 0) table'.
Proof.
  intros Hi Ht HF Hc. unfold add_parents. destruct (parents_of i Hi) as (l & -> & Hnd & Hl & Habove). cbn [res_bind].
  assert (forall todo F table, vec_is (value_num pv) F table -> NoDup todo -> (forall id, id ∈ todo -> 0 < id < value_num pv) ->
    (forall id, id ∈ todo -> 0 <= F id /\ F id + c < 2 ^ 32) ->
    exists table', mfold (fun id table => let* n := vget table id in vset table id (u32 (n + c))) todo table = Ret table' /\
      vec_is (value_num pv) (fun id => F id + if bool_decide (id ∈ todo) then c else 0) table') as Hall.
  { clear -Hc. intros todo. induction todo as [|x todo IH]; intros F table Ht Hnd Hl HF.
    { exists table. split; [done|]. eapply vec_is_ext; [exact Ht|]. intros id _. cbn beta.
      rewrite bool_decide_eq_false_2 by apply not_elem_of_nil. lia. }
    apply NoDup_cons in Hnd as [Hx Hnd]. pose proof (Hl x ltac:(by left)) as Hxr. destruct Ht as [Hsz Hget] eqn:Ht'.
    cbn [mfold]. rewrite Hget by lia. cbn [res_bind].
    pose proof (HF x ltac:(by left)). rewrite u32_small by lia.
    destruct (vec_is_set _ _ _ x (F x + c) Ht ltac:(lia)) as (table1 & -> & Ht1). cbn [res_bind].
    destruct (IH _ _ Ht1 Hnd) as (table' & E & Ht2).
    - intros id Hid. apply Hl. by right.
    - intros id Hid. destruct (Z.eqb_spec id x) as [->|]; [done|]. apply HF. by right.
    - exists table'. split; [done|]. eapply vec_is_ext; [exact Ht2|]. intros id _. cbn beta.
      destruct (Z.eqb_spec id x) as [->|Hne].
      + rewrite bool_decide_eq_false_2, bool_decide_eq_true_2 by (done || by left). lia.
      + destruct (decide (id ∈ todo)) as [Hk|Hk].
        * rewrite !bool_decide_eq_true_2 by (done || by right). lia.
        * rewrite !bool_decide_eq_false_2 by (done || by rewrite not_elem_of_cons). lia. }
  destruct (Hall l F table Ht Hnd Hl) as (table' & E & Ht'); [intros id Hid; apply HF; apply Hl in Hid; lia|]. exists table'. split; [done|].
  eapply vec_is_ext; [exact Ht'|]. intros id _. cbn beta. by rewrite Habove.
Qed.

(** The counts of the values alone, after some documents. *)
Definition value_counts (docs : list Z) (id : Z) : Z :=
  if id =? 0 then count (fun d => negb (is_nil (f d))) docs else count (Z.eqb id) (concat (map f docs)).

(** With the parents: every occurrence counts for the value and its ancestors. *)
Definition tree_counts (docs : list Z) (id : Z) : Z :=
  if id =? 0 then count (fun d => negb (is_nil (f d))) docs else count (is_above id) (concat (map f docs)).

Lemma string_addDoc_ok name doc docs table :
  0 <= doc -> vsize (concat (map f (docs ++ [doc]))) < 2 ^ 32 -> vsize docs + 1 < 2 ^ 32 ->
  vec_is (value_num pv) (value_counts docs) table ->
  exists table', string_addDoc doc (StringCounter name pv table) = Ret (StringCounter name pv table') /\
    vec_is (value_num pv) (value_counts (docs ++ [doc])) table'.
Proof.
  intros Hd Hsz Hn Ht. pose proof Htree as (Hvn & _). unfold string_addDoc, getPropIdList. cbn [propValueTable_ countTable_].
  destruct (getIdList_rep _ _ _ Hf Hd) as (il & -> & Hsz' & Hat). cbn [res_bind]. rewrite Hsz'.
  assert (concat (map f (docs ++ [doc])) = concat (map f docs) ++ f doc) as Ecat.
  { rewrite map_app, concat_app. cbn. by rewrite app_nil_r. }
  rewrite Ecat, vsize_app in Hsz. pose proof (vsize_nonneg (f doc)).
  destruct (Z.eqb_spec (vsize (f doc)) 0) as [E0|E0].
  { assert (f doc = []) as Ef by (destruct (f doc); [done|]; rewrite vsize_cons in E0; pose proof (vsize_nonneg l); lia).
    exists table. split; [done|]. eapply vec_is_ext; [exact Ht|]. intros id _. unfold value_counts. rewrite Ecat, Ef, app_nil_r.
    destruct (id =? 0); [|done]. rewrite count_app, count_cons, count_nil, Ef. cbn. lia. }
  match goal with |- context [mfold ?g _ _] => set (body := g) end.
  destruct (mfold_seqZ body (fun i tb => vec_is (value_num pv)
      (fun id => value_counts docs id + if id =? 0 then 0 else count (Z.eqb id) (take (Z.to_nat i) (f doc))) tb)
    0 (vsize (f doc)) table) as (tb & E & Htb); [done| | |].
  - intros i tb Hi Htb. unfold body. rewrite Hat by lia.
    destruct (vget_in_range (f doc) i ltac:(lia)) as [id Eid]. rewrite Eid. cbn [res_bind].
    pose proof Eid as [_ Eid']%vget_Ret. pose proof (Hids doc id ltac:(by eapply list_elem_of_lookup_2)) as Hid.
    pose proof Htb as [_ Hget]. rewrite Hget by lia. destruct (Z.eqb_spec id 0); [lia|]. cbn [res_bind ct_addDoc uint_counter].
    pose proof (count_bounds (Z.eqb id) (take (Z.to_nat i) (f doc))) as Hc1.
    assert (vsize (take (Z.to_nat i) (f doc)) = i) as Ei by (unfold vsize in *; rewrite length_take; lia). rewrite Ei in Hc1.
    assert (0 <= value_counts docs id <= vsize (concat (map f docs))) as Hc2.
    { unfold value_counts. rewrite (proj2 (Z.eqb_neq id 0)) by done. apply count_bounds. }
    rewrite u32_small by lia. destruct (vec_is_set _ _ _ id (value_counts docs id + count (Z.eqb id) (take (Z.to_nat i) (f doc)) + 1) Htb ltac:(lia))
      as (tb' & -> & Htb'). exists tb'. split; [done|]. eapply vec_is_ext; [exact Htb'|]. intros k _. cbn beta.
    replace (Z.to_nat (i + 1)) with (S (Z.to_nat i)) by lia. rewrite (take_S_r _ _ id) by done.
    rewrite count_app, count_cons, count_nil. destruct (Z.eqb_spec k id) as [->|Hne].
    + rewrite (proj2 (Z.eqb_neq id 0)) by done. lia.
    + destruct (k =? 0); lia.
  - eapply vec_is_ext; [exact Ht|]. intros id _. cbn beta. change (take (Z.to_nat 0) (f doc)) with (@nil Z).
    rewrite count_nil. destruct (id =? 0); lia.
  - fold body. rewrite E. cbn [res_bind]. rewrite firstn_all2 in Htb by (unfold vsize; lia). pose proof Htb as [_ Hget].
    rewrite Hget by lia. cbn [res_bind]. destruct (vec_is_set _ _ _ 0 (value_counts docs 0 + 1) Htb ltac:(lia)) as (tb' & Es & Htb').
    assert (0 <= value_counts docs 0 <= vsize docs) as Hc0 by apply count_bounds.
    cbn [Z.eqb ct_incr uint_counter]. rewrite u32_small by lia. replace (value_counts docs 0 + 0 + 1) with (value_counts docs 0 + 1) by lia.
    rewrite Es. exists tb'. split; [done|]. eapply vec_is_ext; [exact Htb'|]. intros id _. cbn beta. unfold value_counts.
    rewrite Ecat. destruct (Z.eqb_spec id 0) as [->|Hne]; cbn [Z.eqb].
    + rewrite count_app, count_cons, count_nil. destruct (f doc); [done|]. cbn. lia.
    + by rewrite count_app.
Qed.

Lemma addCountForParentId_ok docs table :
  (forall d, d ∈ docs -> 0 <= d) -> vsize (concat (map f docs)) < 2 ^ 32 -> vec_is (value_num pv) (value_counts docs) table ->
  exists table', addCountForParentId pv table = Ret table' /\ vec_is (value_num pv) (tree_counts docs) table'.
Proof.
  intros Hdocs Hsz Ht. pose proof Htree as (Hvn & _). pose proof Ht as [Hlen Hget]. unfold addCountForParentId. rewrite Hlen.
  destruct (Z.eqb_spec (value_num pv) 0); [lia|]. rewrite Hget by lia. cbn [res_bind].
  pose proof (vec_is_replicate (value_num pv) 0 ltac:(lia)) as H0.
  destruct (vec_is_set _ _ _ 0 (value_counts docs 0) H0 ltac:(lia)) as (nt & -> & Hnt). cbn [res_bind].
  set (all := concat (map f docs)) in *.
  match goal with |- context [mfold ?g _ _] => set (body := g) end.
  destruct (mfold_seqZ body (fun i tb => vec_is (value_num pv)
      (fun id => if id =? 0 then value_counts docs 0 else count (fun j => (j <? i) && is_above id j) all) tb)
    1 (value_num pv - 1) nt) as (tb & E & Htb); [lia| | |].
  - intros i tb Hi Htb. unfold body. rewrite Hget by lia. unfold value_counts at 1. rewrite (proj2 (Z.eqb_neq i 0)) by lia. fold all.
    cbn [res_bind]. assert (forall id, count (fun j => (j <? i + 1) && is_above id j) all =
      count (fun j => (j <? i) && is_above id j) all + if is_above id i then count (Z.eqb i) all else 0) as Hsplit.
    { intros id. destruct (is_above id i) eqn:Ea.
      - apply count_split. intros j _. destruct (Z.eqb_spec i j) as [<-|Hne].
        + rewrite Ea. destruct (Z.ltb_spec i (i + 1)), (Z.ltb_spec i i); done || lia.
        + rewrite orb_false_r, andb_false_r. split; [|done]. f_equal.
          destruct (Z.ltb_spec j (i + 1)), (Z.ltb_spec j i); done || lia.
      - rewrite Z.add_0_r. apply count_ext. intros j _. destruct (Z.eqb_spec j i) as [->|Hne].
        + by rewrite Ea, !andb_false_r.
        + f_equal. destruct (Z.ltb_spec j (i + 1)), (Z.ltb_spec j i); done || lia. }
    destruct (Z.eqb_spec (count (Z.eqb i) all) 0) as [Ec|Ec].
    + exists tb. split; [done|]. eapply vec_is_ext; [exact Htb|]. intros id _. cbn beta. destruct (id =? 0); [done|].
      rewrite Hsplit, Ec. destruct (is_above id i); lia.
    + assert (forall id, count (fun j => (j <? i) && is_above id j) all + count (Z.eqb i) all <= vsize all) as Hle.
      { intros id. rewrite <- (count_split (fun j => (j <? i) && is_above id j || (i =? j))); [apply count_bounds|].
        intros j _. split; [done|]. destruct (Z.ltb_spec j i), (Z.eqb_spec i j), (is_above id j); done || lia. }
      destruct (add_parents_ok i (count (Z.eqb i) all) _ tb ltac:(lia) Htb) as (tb' & -> & Htb').
      * intros id Hid. cbn beta. rewrite (proj2 (Z.eqb_neq id 0)) by lia. specialize (Hle id).
        pose proof (count_bounds (fun j => (j <? i) && is_above id j) all). lia.
      * apply count_bounds.
      * exists tb'. split; [done|]. eapply vec_is_ext; [exact Htb'|]. intros id Hid. cbn beta.
        destruct (Z.eqb_spec id 0) as [->|]; [|by rewrite Hsplit]. rewrite is_above_0 by lia. apply Z.add_0_r.
  - eapply vec_is_ext; [exact Hnt|]. intros id Hid. cbn beta. destruct (Z.eqb_spec id 0) as [->|Hne].
    + done.
    + symmetry. apply count_none. intros j Hj%all_in_range. destruct (Z.ltb_spec j 1); [lia|done].
  - exists tb. split; [exact E|]. eapply vec_is_ext; [exact Htb|]. intros id Hid. cbn beta. unfold tree_counts.
    destruct (Z.eqb_spec id 0) as [->|Hne]; [done|]. apply count_ext. intros j Hj. fold all in Hj. rewrite (proj2 (Z.ltb_lt _ _)); [done|].
    apply all_in_range in Hj. lia.
Qed.
(** Documents with a value below [id], which the label of the value accepts. *)
Definition below (id doc : Z) : bool := existsb (is_above id) (f doc).

Lemma below_le docs id : count (below id) docs <= count (is_above id) (concat (map f docs)).
Proof.
  induction docs as [|d docs IH]; [done|]. cbn [map concat]. rewrite count_cons, count_app.
  enough ((if below id d then 1 else 0) <= count (is_above id) (f d)) by lia.
  unfold below. induction (f d) as [|j l IHl]; [done|]. cbn [existsb]. rewrite count_cons.
  pose proof (count_bounds (is_above id) l). destruct (is_above id j); cbn [orb]; lia.
Qed.

Lemma string_addDocs_ok name todo : forall seen table,
  (forall d, d ∈ todo -> 0 <= d) -> vsize (concat (map f (seen ++ todo))) < 2 ^ 32 -> vsize (seen ++ todo) < 2 ^ 32 ->
  vec_is (value_num pv) (value_counts seen) table ->
  exists table', mfold string_addDoc todo (StringCounter name pv table) = Ret (StringCounter name pv table') /\
    vec_is (value_num pv) (value_counts (seen ++ todo)) table'.
Proof.
  induction todo as [|d todo IH]; intros seen table Hd Hv Hn Ht.
  { rewrite app_nil_r. by exists table. }
  rewrite (cons_middle d), app_assoc in *. pose proof (vsize_nonneg todo). cbn [mfold].
  pose proof Hv as Hv1. rewrite map_app, concat_app, vsize_app in Hv1. pose proof (vsize_nonneg (concat (map f todo))).
  pose proof Hn as Hn1. rewrite !vsize_app in Hn1. change (vsize [d]) with 1 in Hn1.
  destruct (string_addDoc_ok name d seen table) as (table1 & -> & Ht1); [apply Hd; by left|lia|lia|done|].
  cbn [res_bind]. apply IH; [|done..]. intros x Hx. apply Hd. by right.
Qed.

(** C32: after any sequence of documents, and after the counts of the parents are
    added, the count of a value is the number of values of the documents that are
    the value or below it, and the count of the root the number of documents that
    have values. The count of a value is therefore at least the number of the
    documents which its label accepts, and not equal to it if a document has two
    values below it. *)
Theorem string_counts name docs :
  (forall d, d ∈ docs -> 0 <= d) -> vsize (concat (map f docs)) < 2 ^ 32 -> vsize docs < 2 ^ 32 ->
  exists g table, mfold string_addDoc docs (new_string_counter name pv 0) = Ret g /\
    ct_addCountForParentId pv (countTable_ g) = Ret table /\
    vec_is (value_num pv) (tree_counts docs) table /\
    forall id, 0 < id -> count (below id) docs <= tree_counts docs id.
Proof.
  intros Hd Hv Hn. pose proof Htree as ([Hvn _] & _). pose proof (vec_is_replicate (value_num pv) 0 ltac:(lia)) as H0.
  replace (Z.to_nat (value_num pv)) with (length (propStrVec_ pv)) in H0 by (unfold value_num, vsize; lia).
  destruct (string_addDocs_ok name docs [] (replicate (length (propStrVec_ pv)) 0) Hd Hv Hn) as (table & E & Ht).
  { eapply vec_is_ext; [exact H0|]. intros id _. unfold value_counts. cbn. by destruct (id =? 0). }
  destruct (addCountForParentId_ok docs table Hd Hv Ht) as (table' & E' & Ht').
  exists (StringCounter name pv table), table'. split; [done|]. split; [done|]. split; [done|].
  intros id Hid. unfold tree_counts. rewrite (proj2 (Z.eqb_neq id 0)) by lia. apply below_le.
Qed.
End StringCounts.

(** ** Examples *)

(** The values "4" > "5" and "4" > "6", and a document that has both. *)
Definition two_values : PropValueTable Z :=
  PropValueTable.ValueTable [0; 4; 5; 6] 0 [0; 0; 1; 1] 0 [[(4, 1)]; [(5, 2); (6, 3)]; []; []]
    (IdTable [0; 2 ^ 31] [2; 2; 3]) 0 0.
Definition both (doc : Z) : list Z := if doc =? 1 then [2; 3] else [].

Example string_counter_ex :
  (let* g := mfold string_addDoc [1; 0; 1] (new_string_counter "p" two_values 0) in
   let* (r, _) := string_getGroupRep (fun _ => 9) clear g in
   Ret (map (fun i => (level i, text i, doc_count i)) (stringGroupRep_ r))) =
  Ret [(0, 9, 2); (1, 4, 4); (2, 5, 2); (2, 6, 2)].
Proof. vm_compute. reflexivity. Qed.

Lemma two_values_ok : tree_ok two_values.
Proof.
  pose proof (PropValueTable.new_tree_ok 0) as H0. destruct (PropValueTable.insert_path [4; 5] _ 0 H0) as (i & t1 & E1 & H1 & _); [done..|].
  vm_compute in E1. injection E1 as <- <-. destruct (PropValueTable.insert_path [4; 6] _ 0 H1) as (i & t2 & E2 & H2 & _); [done..|].
  vm_compute in E2. injection E2 as <- <-. exact H2.
Qed.

Lemma both_rep : table_rep (valueIdTable_ two_values) both.
Proof.
  split; [|split; [|by vm_compute]].
  - intros d Hd. change (vsize _) with 2 in Hd. assert (d = 0 \/ d = 1) as [->| ->] by lia; [by exists 0|].
    exists (2 ^ 31). split; [done|]. exists 0. split; [done|]. split; [done|]. by exists [], [].
  - intros d Hd. change (vsize _) with 2 in Hd. unfold both. by destruct (Z.eqb_spec d 1); [lia|].
Qed.

Lemma string_counts_witness :
  exists g table, mfold string_addDoc [1; 0; 1] (new_string_counter "p" two_values 0) = Ret g /\
    ct_addCountForParentId two_values (countTable_ g) = Ret table /\
    vec_is (value_num two_values) (tree_counts two_values both [1; 0; 1]) table /\
    forall id, 0 < id -> count (below two_values both id) [1; 0; 1] <= tree_counts two_values both [1; 0; 1] id.
Proof.
  apply string_counts.
  - apply two_values_ok.
  - apply both_rep.
  - intros doc id. unfold both. change (value_num two_values) with 4. destruct (doc =? 1); rewrite ?elem_of_cons, elem_of_nil; lia.
  - intros d. rewrite !elem_of_cons, elem_of_nil. lia.
  - reflexivity.
  - reflexivity.
Defined.
