(* ===== verification/DateTable.v ===== *)
(** * The dates of documents

Models mining-manager/group-manager/DateGroupTable.{h,cpp},
DateGroupLabel.cpp and DateGroupCounter.h: the dates of each document in a
PropIdTable, the label that selects documents by year, month or day, and the
counter of the documents of each (masked) date. A std::set of dates is a
strictly increasing list. Locks and file paths are not modelled. *)
From S2P Require Import Prelude OrdMap Storage PropIdTable DateFormat OntologyRep GroupRep GroupCounter.

Record DateGroupTable := DateTab {
  dateValueTable_ : PropIdTable;
  date_saveIndexNum_ : Z;
  date_saveValueNum_ : Z
}.

Definition new_date_table : DateGroupTable := DateTab new_id_table 0 0.

(** The copy constructor and [operator=]. *)
Definition date_assign (other : DateGroupTable) : DateGroupTable :=
  DateTab (dateValueTable_ other) (date_saveIndexNum_ other) (date_saveValueNum_ other).

Definition date_swap (t other : DateGroupTable) : DateGroupTable * DateGroupTable := (other, t).

Definition date_clear (t : DateGroupTable) : DateGroupTable := DateTab (id_clear (dateValueTable_ t)) 0 0.

Definition date_resize (num : Z) (t : DateGroupTable) : DateGroupTable :=
  DateTab (id_resize num (dateValueTable_ t)) (date_saveIndexNum_ t) (date_saveValueNum_ t).

Definition date_docIdNum (t : DateGroupTable) : Z := vsize (indexTable_ (dateValueTable_ t)).

(** The second file is loaded, or saved, only when the first one was. *)
Definition date_open (f1 f2 : file Z) (t : DateGroupTable) : bool * DateGroupTable :=
  let ids := dateValueTable_ t in
  let '(ok, ix, n1) := load_counted f1 (indexTable_ ids) (date_saveIndexNum_ t) in
  if negb ok then (false, DateTab (IdTable ix (multiValueTable_ ids)) n1 (date_saveValueNum_ t))
  else
    let '(ok, mv, n2) := load_counted f2 (multiValueTable_ ids) (date_saveValueNum_ t) in
    (ok, DateTab (IdTable ix mv) n1 n2).

Definition date_flush (w1 w2 : bool) (f1 f2 : file Z) (t : DateGroupTable) : bool * DateGroupTable * file Z * file Z :=
  let ids := dateValueTable_ t in
  let '(ok, n1, f1) := save_grown w1 (indexTable_ ids) (date_saveIndexNum_ t) f1 in
  if negb ok then (false, DateTab ids n1 (date_saveValueNum_ t), f1, f2)
  else
    let '(ok, n2, f2) := save_grown w2 (multiValueTable_ ids) (date_saveValueNum_ t) f2 in
    (ok, DateTab ids n1 n2, f1, f2).

(** The table, and whether no MiningException was thrown. *)
Definition setDateSet (docId : Z) (dateSet : list Z) (t : DateGroupTable) : res (DateGroupTable * bool) :=
  match setIdList docId dateSet (dateValueTable_ t) with
  | Ret ids => Ret (DateTab ids (date_saveIndexNum_ t) (date_saveValueNum_ t), true)
  | Throw _ =>
      let ids := dateValueTable_ t in
      let ids := if vsize (indexTable_ ids) <=? docId then id_resize (u32 (docId + 1)) ids else ids in
      Ret (DateTab ids (date_saveIndexNum_ t) (date_saveValueNum_ t), false)
  | Undef => Undef
  | NoFuel => NoFuel
  end.

Definition getDateSet (docId mask : Z) (t : DateGroupTable) : res (list Z) :=
  let* dateList := getIdList (dateValueTable_ t) docId in
  mfold (fun i dateSet =>
    let* d := id_at (dateValueTable_ t) dateList i in
    Ret (sinsert (Z.land d mask) dateSet)) (seqZ 0 (size_ dateList)) [].

(** [DateGroupLabel::test] *)
Definition date_label_test (t : DateGroupTable) (doc : Z) : list DateMask -> res bool :=
  fix go masks :=
    match masks with
    | [] => Ret false
    | m :: masks =>
        let* dateSet := getDateSet doc (mask_ m) t in
        if existsb (Z.eqb (date_ m)) dateSet then Ret true else go masks
    end.

(** ** DateGroupCounter.h *)
Record DateGroupCounter (C : Type) := DateCounter {
  date_propName_ : string;
  dateTable_ : DateGroupTable;
  date_mask_ : Z;
  date_countTable_ : list (Z * C);
  totalCount_ : Z;
  date_initSubCounter : C
}.
Arguments DateCounter {_} _ _ _ _ _ _.
Arguments date_propName_ {_} _.
Arguments dateTable_ {_} _.
Arguments date_mask_ {_} _.
Arguments date_countTable_ {_} _.
Arguments totalCount_ {_} _.
Arguments date_initSubCounter {_} _.

Section DateGroupCounter.
Context {T : Type} `{!TextOrder T} (ustring : string -> T) `{!BoostText}.
Context {C : Type} `{!CounterType T C}.
Implicit Types (g : DateGroupCounter C).

Definition new_date_counter (propName : string) (t : DateGroupTable) (mask : Z) (subCounter : C) : DateGroupCounter C :=
  DateCounter propName t mask [] 0 subCounter.

Definition date_addDoc (doc : Z) g : res (DateGroupCounter C) :=
  let* dateSet := getDateSet doc (date_mask_ g) (dateTable_ g) in
  let* table := mfold (fun d table =>
    let c := default (date_initSubCounter g) (om_find table d) in
    let* c := ct_addDoc (T := T) doc c in
    Ret (om_set table d c)) dateSet (date_countTable_ g) in
  Ret (DateCounter (date_propName_ g) (dateTable_ g) (date_mask_ g) table
         (match dateSet with [] => totalCount_ g | _ => u32 (totalCount_ g + 1) end) (date_initSubCounter g)).

Definition date_getStringRep (strRep : list (item T)) (level : Z) g : res (list (item T) * DateGroupCounter C) :=
  let* (strRep, table) := mfold (fun (it : Z * C) '(strRep, table) =>
    let* dateStr := dateToAPIStr it.1 in
    let strRep := strRep ++ [mk_item (u8 level) (ustring dateStr) 0 (ct_count (T := T) it.2)] in
    let* (strRep, c) := ct_getStringRep strRep (level + 1) it.2 in
    Ret (strRep, table ++ [(it.1, c)])) (date_countTable_ g) (strRep, []) in
  Ret (strRep, DateCounter (date_propName_ g) (dateTable_ g) (date_mask_ g) table (totalCount_ g) (date_initSubCounter g)).

Definition date_getGroupRep (groupRep : GroupRep T) g : res (GroupRep T * DateGroupCounter C) :=
  let itemList := stringGroupRep_ groupRep ++ [mk_item 0 (ustring (date_propName_ g)) 0 (totalCount_ g)] in
  let* (itemList, g) := date_getStringRep itemList 1 g in
  Ret (Rep itemList (numericGroupRep_ groupRep) (numericRangeGroupRep_ groupRep), g).

#[export] Instance date_counter : GroupCounter T (DateGroupCounter C) := {|
  gc_addDoc := date_addDoc;
  gc_getGroupRep := date_getGroupRep;
  gc_getStringRep := date_getStringRep
|}.
End DateGroupCounter.

(** ** Labels and counts *)
Section DateProofs.
Context (t : DateGroupTable) (f : Z -> list Z).
Hypothesis Hf : table_rep (dateValueTable_ t) f.

Definition masked (mask doc k : Z) : Prop := exists d, d ∈ f doc /\ k = Z.land d mask.

Lemma getDateSet_ok doc mask : 0 <= doc ->
  exists s, getDateSet doc mask t = Ret s /\ ssorted s /\ (forall k, k ∈ s <-> masked mask doc k) /\
    (s = [] <-> f doc = []).
Proof.
  intros Hd. unfold getDateSet. destruct (getIdList_rep _ _ _ Hf Hd) as (l & -> & Hsz & Hat). cbn [res_bind]. rewrite Hsz.
  match goal with |- context [mfold ?g _ _] => set (body := g) end.
  destruct (mfold_seqZ body (fun i s => ssorted s /\ forall k, k ∈ s <-> exists d, d ∈ take (Z.to_nat i) (f doc) /\ k = Z.land d mask)
    0 (vsize (f doc)) []) as (s & E & Hs & Hk); [apply vsize_nonneg| | |].
  - intros i s Hi (Hs & Hk). unfold body. rewrite Hat by lia.
    destruct (vget_in_range (f doc) i ltac:(lia)) as [d Ed]. rewrite Ed. cbn [res_bind].
    eexists. split; [done|]. split; [by apply sinsert_sorted|]. intros k. rewrite sinsert_elem, Hk.
    apply vget_Ret in Ed as [_ Ed]. replace (Z.to_nat (i + 1)) with (S (Z.to_nat i)) by lia.
    rewrite (take_S_r _ _ d) by done. split.
    + intros [->|(d' & Hd' & ->)]; [exists d|exists d']; rewrite elem_of_app, list_elem_of_singleton; tauto.
    + intros (d' & [Hd'|Hd'%list_elem_of_singleton]%elem_of_app & ->); [right; by exists d'|left; by subst].
  - split; [constructor|]. intros k. split; [by intros ?%elem_of_nil|]. by intros (d & ?%elem_of_nil & _).
  - rewrite firstn_all2 in Hk by (unfold vsize; lia). exists s. split; [done|]. split; [done|]. split; [done|].
    split; intros E0.
    + destruct (f doc) as [|d l'] eqn:El; [done|]. assert (Z.land d mask ∈ s) as Hin by (apply Hk; exists d; split; [by left|done]).
      rewrite E0 in Hin. by apply elem_of_nil in Hin.
    + destruct s as [|k s]; [done|]. destruct (proj1 (Hk k) ltac:(by left)) as (d & Hin & _). rewrite E0 in Hin.
      by apply elem_of_nil in Hin.
Qed.

Lemma label_test_ok doc masks : 0 <= doc ->
  exists b, date_label_test t doc masks = Ret b /\ (b = true <-> exists m, m ∈ masks /\ masked (mask_ m) doc (date_ m)).
Proof.
  intros Hd. induction masks as [|m masks (b & E & Hb)].
  { exists false. split; [done|]. split; [done|]. by intros (m & ?%elem_of_nil & _). }
  cbn [date_label_test]. destruct (getDateSet_ok doc (mask_ m) Hd) as (s & -> & Hs & Hk & _). cbn [res_bind].
  assert (existsb (Z.eqb (date_ m)) s = true <-> masked (mask_ m) doc (date_ m)) as Hex.
  { rewrite <- Hk, existsb_exists. split.
    - intros (k & Hin & ->%Z.eqb_eq). by apply list_elem_of_In.
    - intros Hin. exists (date_ m). split; [by apply list_elem_of_In|apply Z.eqb_refl]. }
  destruct (existsb _ s) eqn:Ex.
  - exists true. split; [done|]. split; [|done]. intros _. exists m. split; [by left|by apply Hex].
  - exists b. split; [exact E|]. rewrite Hb. split.
    + intros (m' & Hin & Hm'). exists m'. split; [by right|done].
    + intros (m' & [->|Hin]%elem_of_cons & Hm'); [apply Hex in Hm'; congruence|by exists m'].
Qed.

(** The fields of a label: a year, a month or a day, with the mask of
    [apiStrToDateMask]. *)
Definition label_of (v : list Z) : DateMask :=
  Masked (vec_date v) (match v with [_] => MASK_YEAR | [_; _] => MASK_YEAR_MONTH | _ => MASK_YEAR_MONTH_DAY end).

Lemma label_masked v y m d : date_vec v -> date_vec [y; m; d] ->
  vec_date v = Z.land (date_of y m d) (mask_ (label_of v)) <-> v `prefix_of` [y; m; d].
Proof.
  intros Hv Hd. assert (fields_ok y m d) as Hf3 by (cbn in Hd; unfold fields_ok; lia).
  destruct (date_fields y m d Hf3) as (E1 & E2 & E3 & _). revert v Hv.
  apply date_vec_cases; intros; cbn [label_of mask_ vec_date]; rewrite ?E1, ?E2, ?E3.
  - split.
    + intros (-> & _)%date_of_inj; [by exists [m; d]|unfold fields_ok in *; lia..].
    + intros [k E]. by simplify_eq/=.
  - split.
    + intros (-> & -> & _)%date_of_inj; [by exists [d]|unfold fields_ok in *; lia..].
    + intros [k E]. by simplify_eq/=.
  - split.
    + intros (-> & -> & ->)%date_of_inj; [by exists []|unfold fields_ok in *; lia..].
    + intros [k E]. by simplify_eq/=.
Qed.

(** A date label accepts a document exactly when one of the label's years,
    months or days is the beginning of one of the document's dates (year, month,
    day). *)
Theorem date_label_matches doc (dates labels : list (list Z)) :
  0 <= doc -> f doc = map vec_date dates -> Forall (fun v => exists y m d, v = [y; m; d] /\ date_vec v) dates ->
  Forall date_vec labels ->
  exists b, date_label_test t doc (map label_of labels) = Ret b /\
    (b = true <-> exists label date, label ∈ labels /\ date ∈ dates /\ label `prefix_of` date).
Proof.
  intros Hd Hdoc Hdates Hlabels. destruct (label_test_ok doc (map label_of labels) Hd) as (b & E & Hb).
  exists b. split; [done|]. rewrite Hb. unfold masked. rewrite Hdoc. rewrite Forall_forall in Hdates, Hlabels.
  split.
  - intros (lm & (v & -> & Hv)%list_elem_of_fmap & k & (w & -> & Hw)%list_elem_of_fmap & E2).
    destruct (Hdates w Hw) as (y & m & d & -> & Hdv). exists v, [y; m; d]. split; [done|]. split; [done|].
    apply label_masked; [by apply Hlabels|done|exact E2].
  - intros (v & w & Hv & Hw & Hp). destruct (Hdates w Hw) as (y & m & d & -> & Hdv). exists (label_of v).
    split; [apply list_elem_of_fmap; by exists v|]. exists (vec_date [y; m; d]).
    split; [apply list_elem_of_fmap; by exists [y; m; d]|].
    apply (label_masked v y m d); [by apply Hlabels|done..].
Qed.

(** *** Counts *)

(** The documents with the masked date [k]: those the label of [k] accepts. *)
Definition accepts (mask k doc : Z) : bool := existsb (fun d => k =? Z.land d mask) (f doc).

Lemma accepts_masked mask k doc : accepts mask k doc = true <-> masked mask doc k.
Proof.
  unfold accepts, masked. rewrite existsb_exists. split.
  - intros (d & Hd & ->%Z.eqb_eq). exists d. split; [by apply list_elem_of_In|done].
  - intros (d & Hd & ->). exists d. split; [by apply list_elem_of_In|apply Z.eqb_refl].
Qed.

Definition has_dates (doc : Z) : bool := negb (is_nil (f doc)).

(** Counting the dates of a set. *)
Lemma count_dates s : forall m h, ssorted s -> counts m h -> (forall k, 0 <= h k) ->
  (forall k, k ∈ s -> h k < 2 ^ 32 - 1) ->
  exists m', mfold (fun d table =>
      let* c := Ret (u32 (default 0 (om_find table d) + 1)) in Ret (om_set table d c)) s m = Ret m' /\
    counts m' (fun k => h k + if bool_decide (k ∈ s) then 1 else 0).
Proof.
  induction s as [|d s IH]; intros m h Hs Hm H0 Hh.
  { exists m. split; [done|]. eapply counts_ext; [done|]. intros k. cbn beta. rewrite bool_decide_eq_false_2 by apply not_elem_of_nil. lia. }
  cbn [mfold]. rewrite (counts_default _ _ _ Hm). cbn [res_bind].
  pose proof (Hh d ltac:(by left)) as Hhd. pose proof (H0 d). rewrite u32_small by lia.
  assert (d ∉ s) as Hds by (intros Hin; pose proof (ssorted_head_lt _ _ _ Hs Hin); lia).
  apply StronglySorted_inv in Hs as [Hs _].
  destruct (IH (om_set m d (h d + 1)) (fun j => h j + if j =? d then 1 else 0)) as (m' & E & Hm'); [done| | | |].
  - by apply counts_add.
  - intros k. specialize (H0 k). destruct (k =? d); lia.
  - intros k Hk. destruct (Z.eqb_spec k d) as [->|]; [done|]. specialize (Hh k ltac:(by right)). lia.
  - exists m'. split; [done|]. eapply counts_ext; [done|]. intros k. cbn. destruct (Z.eqb_spec k d) as [->|Hne].
    + rewrite bool_decide_eq_false_2, bool_decide_eq_true_2 by (done || by left). lia.
    + destruct (decide (k ∈ s)) as [Hk|Hk].
      * rewrite !bool_decide_eq_true_2 by (done || by right). lia.
      * rewrite !bool_decide_eq_false_2 by (done || by rewrite not_elem_of_cons). lia.
Qed.

Context {T : Type}.

(** The counts of a date property and the filter on it agree. After any
    sequence of documents the counter holds, for each masked date, the number of
    the documents which the label of that date accepts, and as its total the
    number of documents that have dates; dates without documents are not in it. *)
Theorem date_counts propName mask docs :
  Forall (Z.le 0) docs -> vsize docs < 2 ^ 32 ->
  exists g, mfold (date_addDoc (T := T)) docs (new_date_counter propName t mask 0) = Ret g /\
    counts (date_countTable_ g) (fun k => count (accepts mask k) docs) /\
    totalCount_ g = count has_dates docs /\
    forall k doc, 0 <= doc -> date_label_test t doc [Masked k mask] = Ret (accepts mask k doc).
Proof.
  intros Hdocs Hn.
  assert (forall todo seen g, seen ++ todo = docs -> dateTable_ g = t -> date_mask_ g = mask -> date_initSubCounter g = 0 ->
    counts (date_countTable_ g) (fun k => count (accepts mask k) seen) -> totalCount_ g = count has_dates seen ->
    exists g', mfold (date_addDoc (T := T)) todo g = Ret g' /\
      counts (date_countTable_ g') (fun k => count (accepts mask k) docs) /\ totalCount_ g' = count has_dates docs) as Hall.
  { intros todo. induction todo as [|doc todo IH]; intros seen g E E1 E2 E3 Hc Ht.
    { rewrite app_nil_r in E. subst seen. by exists g. }
    pose proof E as E'. rewrite (cons_middle doc), app_assoc in E'.
    assert (0 <= doc) as Hd by (rewrite <- E, Forall_app, Forall_cons in Hdocs; tauto).
    assert (vsize seen + 1 < 2 ^ 32) as Hsz.
    { rewrite <- E, vsize_app, vsize_cons in Hn. pose proof (vsize_nonneg todo). lia. }
    cbn [mfold]. unfold date_addDoc at 1. rewrite E1, E2, E3.
    destruct (getDateSet_ok doc mask Hd) as (s & -> & Hs & Hk & Hnil). cbn [res_bind].
    destruct (count_dates s (date_countTable_ g) (fun k => count (accepts mask k) seen)) as (m & Em & Hm); [done|done| | |].
    { intros k. apply count_bounds. }
    { intros k _. pose proof (count_bounds (accepts mask k) seen). lia. }
    cbn [ct_addDoc uint_counter]. rewrite Em. cbn [res_bind].
    apply (IH (seen ++ [doc])); [done..| |]; cbn [date_countTable_ totalCount_].
    - eapply counts_ext; [exact Hm|]. intros k. cbn. rewrite count_app, count_cons, count_nil.
      assert (bool_decide (k ∈ s) = accepts mask k doc) as ->; [|lia].
      apply Bool.eq_true_iff_eq. by rewrite bool_decide_eq_true, accepts_masked.
    - rewrite count_app, count_cons, count_nil, Ht. pose proof (count_bounds has_dates seen). unfold has_dates at 4.
      destruct s as [|k s].
      + destruct Hnil as [Hnil _]. rewrite (Hnil eq_refl). cbn. lia.
      + destruct (f doc); [by destruct Hnil as [_ Hnil]; specialize (Hnil eq_refl)|]. cbn. rewrite u32_small by lia. lia. }
  destruct (Hall docs [] (new_date_counter propName t mask 0) eq_refl) as (g & E & Hc & Ht); try done; [apply counts_nil|].
  exists g. split; [done|]. split; [done|]. split; [done|]. intros k doc Hd.
  destruct (label_test_ok doc [Masked k mask] Hd) as (b & -> & Hb). f_equal. apply Bool.eq_true_iff_eq.
  rewrite Hb, accepts_masked. split.
  - by intros (m & ->%list_elem_of_singleton & H).
  - intros H. exists (Masked k mask). split; [by left|done].
Qed.
End DateProofs.

(** ** Examples *)

Definition a_date : Z := date_of 2012 7 4.
Definition one_date_table : DateGroupTable := DateTab (IdTable [0; a_date] []) 0 0.
Definition one_date (doc : Z) : list Z := if doc =? 1 then map vec_date [[2012; 7; 4]] else [].

Lemma one_date_rep : table_rep (dateValueTable_ one_date_table) one_date.
Proof.
  split; [|split; [|by vm_compute]].
  - intros d Hd. change (vsize _) with 2 in Hd. assert (d = 0 \/ d = 1) as [->| ->] by lia.
    + by exists 0.
    + exists a_date. split; [done|]. by vm_compute.
  - intros d Hd. change (vsize _) with 2 in Hd. unfold one_date. by destruct (Z.eqb_spec d 1); [lia|].
Qed.

Example date_label_ex :
  (let* (t, _) := setDateSet 3 [date_of 2011 1 2; date_of 2012 7 4] new_date_table in
   let* a := date_label_test t 3 [Masked (date_of 2012 7 0) MASK_YEAR_MONTH] in
   let* b := date_label_test t 3 [Masked (date_of 2012 8 0) MASK_YEAR_MONTH; Masked (date_of 2010 0 0) MASK_YEAR] in
   let* g := mfold (date_addDoc (T := Z)) [1; 3; 3] (new_date_counter (C := Z) "day" t MASK_YEAR 0) in
   let* (r, _) := date_getGroupRep (T := Z) (fun s => Z.of_nat (String.length s)) clear g in
   Ret ([a; b], map (fun i => (level i, doc_count i)) (stringGroupRep_ r))) = Ret ([true; false], [(0, 2); (1, 2); (1, 2)]).
Proof. vm_compute. reflexivity. Qed.

Lemma date_label_matches_witness :
  exists b, date_label_test one_date_table 1 (map label_of [[2012; 7]]) = Ret b /\
    (b = true <-> exists label date, label ∈ [[2012; 7]] /\ date ∈ [[2012; 7; 4]] /\ label `prefix_of` date).
Proof.
  apply (date_label_matches one_date_table one_date one_date_rep 1 [[2012; 7; 4]] [[2012; 7]]).
  - lia.
  - reflexivity.
  - constructor; [|constructor]. exists 2012, 7, 4. split; [reflexivity|cbn; lia].
  - constructor; [cbn; lia|constructor].
Defined.

Lemma date_counts_witness :
  exists g, mfold (date_addDoc (T := Z)) [1; 2; 1] (new_date_counter "day" one_date_table MASK_YEAR 0) = Ret g /\
    counts (date_countTable_ g) (fun k => count (accepts one_date MASK_YEAR k) [1; 2; 1]) /\
    totalCount_ g = count (has_dates one_date) [1; 2; 1] /\
    forall k doc, 0 <= doc -> date_label_test one_date_table doc [Masked k MASK_YEAR] = Ret (accepts one_date MASK_YEAR k doc).
Proof.
  apply date_counts.
  - apply one_date_rep.
  - repeat (constructor; [lia|]). constructor.
  - reflexivity.
Defined.
