(* ===== verification/MiningTask.v ===== *)
(** * Building the mining data of new documents

Models mining-manager/MiningTask.h, MiningTaskBuilder.cpp,
MultiThreadMiningTaskBuilder.cpp and common/TableSwapper.h. The virtual
interface of the tasks is the class [MiningTask]; a builder keeps the states
of its tasks in a list and a flag for each. The document manager is
represented by its last document id and its documents, which are parameters.
Logging is not modelled. *)
From S2P Require Import Prelude.

Class MiningTask (D S : Type) := {
  preProcess : Z -> S -> res (bool * S);
  buildDocument : Z -> D -> S -> res (bool * S);
  postProcess : S -> res (bool * S);
  getLastDocId : S -> Z
}.

(** A document does not change where a task started. *)
Class MiningTaskLaws (D S : Type) `{!MiningTask D S} : Prop := {
  build_last : forall docid doc (t : S) r t', buildDocument docid doc t = Ret (r, t') -> getLastDocId t' = getLastDocId t
}.

(** ** TableSwapper.h *)
Class SwapTable (A : Type) := {
  new_table : A;
  table_assign : A -> A -> A;
  table_resize : Z -> A -> A;
  table_swap : A -> A -> A * A
}.

(** [reader] is a reference to the table of the queries. *)
Record TableSwapper (A : Type) := Swapper { reader : A; writer : A }.
Arguments Swapper {_} _ _.
Arguments reader {_} _.
Arguments writer {_} _.

Section TableSwapper.
Context {A : Type} `{!SwapTable A}.
Implicit Types s : TableSwapper A.

Definition new_swapper (r : A) : TableSwapper A := Swapper r new_table.

Definition swapper_copy (newSize : Z) s : TableSwapper A :=
  Swapper (reader s) (table_resize newSize (table_assign (writer s) (reader s))).

Definition swapper_swap s : TableSwapper A :=
  let (w, r) := table_swap (writer s) (reader s) in
  let (_, w) := table_swap new_table w in Swapper r w.
End TableSwapper.

(** ** MiningTaskBuilder.cpp *)
Section Builder.
Context {D S : Type} `{!MiningTask D S}.
Context (maxDocId : Z) (getDocument : Z -> option D) (getRTypePropertiesForDocument : Z -> D -> D) (new_document : D).
Implicit Types (tasks : list S) (flagged : list (bool * S)).

Definition addTask (miningTask : option S) tasks : list S :=
  match miningTask with Some t => tasks ++ [t] | None => tasks end.

Definition load_document (docid : Z) : D :=
  match getDocument docid with
  | Some doc => getRTypePropertiesForDocument docid doc
  | None => new_document
  end.

Definition build_one (docid : Z) (doc : D) (task : bool * S) : res (bool * S) :=
  let (flag, t) := task in
  if flag && negb (docid <? getLastDocId t) then
    let* (_, t) := buildDocument docid doc t in Ret (flag, t)
  else Ret (flag, t).

(** One turn of the loop over the documents; [docid] wraps around. *)
Definition docs_body (st : Z * list (bool * S)) : res (Z * list (bool * S) + list (bool * S)) :=
  let (docid, flagged) := st in
  if docid <=? maxDocId then
    let* flagged := each (build_one docid (load_document docid)) flagged in
    Ret (inl (u32 (docid + 1), flagged))
  else Ret (inr flagged).

Definition post_one (task : bool * S) : res S :=
  let (flag, t) := task in
  if (flag : bool) then let* (_, t) := postProcess t in Ret t else Ret t.

Definition buildCollection (timestamp : Z) tasks : res (bool * list S) :=
  let* flagged := each (preProcess timestamp) tasks in
  if forallb (fun task => negb task.1) flagged then Ret (true, map snd flagged)
  else
    let min_last_docid := fold_left (fun m task => Z.min m (getLastDocId task.2)) flagged maxDocId in
    let* flagged := while_loop docs_body (min_last_docid, flagged) in
    let* tasks := each post_one flagged in
    Ret (true, tasks).

(** ** MultiThreadMiningTaskBuilder.cpp

A step of a thread is the call of [buildDocument] for a document on the task
at an index. A thread walks the documents of its residue class; the threads
run in any interleaving of their steps. *)
Definition step : Type := Z * nat.

Definition run_step (st : step) flagged : res (list (bool * S)) :=
  match flagged !! st.2 with
  | Some task => let* task := build_one st.1 (load_document st.1) task in Ret (<[st.2 := task]> flagged)
  | None => Undef
  end.

(** The steps of [buildDocs_(startDocId, endDocId, threadId)]. *)
Definition buildDocs_ (threadNum_ startDocId endDocId taskNum threadId : Z) : list step :=
  flat_map (fun docId =>
    if negb (docId mod threadNum_ =? threadId) then []
    else map (fun i => (docId, i)) (seq 0 (Z.to_nat taskNum)))
    (seqZ startDocId (endDocId - startDocId + 1)).

(** [l] runs the steps of some lists, each in its order. *)
Inductive interleaving : list (list step) -> list step -> Prop :=
| interleaving_done threads : Forall (eq []) threads -> interleaving threads []
| interleaving_step before e t after l :
    interleaving (before ++ t :: after) l -> interleaving (before ++ (e :: t) :: after) (e :: l).

(** [startDocId] looks at the tasks that build only. [schedule] is the order in
    which the steps of the threads happen. *)
Definition mt_startDocId flagged : Z :=
  fold_left (fun m task => if (task.1 : bool) then Z.min m (getLastDocId task.2) else m) flagged maxDocId.

Definition mt_threads (threadNum_ : Z) flagged : list (list step) :=
  map (buildDocs_ threadNum_ (mt_startDocId flagged) maxDocId (vsize flagged)) (seqZ 0 threadNum_).

Definition mt_buildCollection (schedule : list step) (timestamp : Z) tasks : res (bool * list S) :=
  let* flagged := each (preProcess timestamp) tasks in
  if forallb (fun task => negb task.1) flagged then Ret (true, map snd flagged)
  else
    let* flagged := mfold run_step schedule flagged in
    let* tasks := each post_one flagged in
    Ret (true, tasks).

(** ** What a build does to each task *)

(** One task alone: its documents from where it starts, in order. *)
Definition build_docs (t : S) : res S :=
  mfold (fun docid t => let* (_, t) := buildDocument docid (load_document docid) t in Ret t)
    (seqZ (getLastDocId t) (maxDocId - getLastDocId t + 1)) t.

Definition run_task (timestamp : Z) (t : S) : res S :=
  let* (flag, t) := preProcess timestamp t in
  if (flag : bool) then let* t := build_docs t in let* (_, t) := postProcess t in Ret t else Ret t.
End Builder.

(** ** The sequential builder *)
Section BuilderProofs.
Context {D S : Type} `{!MiningTask D S, !MiningTaskLaws D S}.
Context (maxDocId : Z) (getDocument : Z -> option D) (getRTypePropertiesForDocument : Z -> D -> D) (new_document : D).
Implicit Types (tasks : list S) (flagged : list (bool * S)) (task : bool * S).

Notation load_document := (load_document getDocument getRTypePropertiesForDocument new_document).
Notation docs_body := (docs_body maxDocId getDocument getRTypePropertiesForDocument new_document).
Notation build_docs := (build_docs maxDocId getDocument getRTypePropertiesForDocument new_document).
Notation run_task := (run_task maxDocId getDocument getRTypePropertiesForDocument new_document).
Notation buildCollection := (buildCollection maxDocId getDocument getRTypePropertiesForDocument new_document).

Definition build (docid : Z) (t : S) : res S :=
  let* (_, t) := buildDocument docid (load_document docid) t in Ret t.

(** From document [docid] on, the build of [task] gives [fin]. *)
Definition ends_in (docid : Z) task (fin : bool * S) : Prop :=
  fin.1 = task.1 /\
  if task.1 then let from := Z.max docid (getLastDocId task.2) in
                 mfold build (seqZ from (maxDocId - from + 1)) task.2 = Ret fin.2
  else fin.2 = task.2.

Lemma build_one_ends docid task fin :
  docid <= maxDocId -> ends_in docid task fin ->
  exists task', build_one docid (load_document docid) task = Ret task' /\ ends_in (docid + 1) task' fin.
Proof.
  destruct task as [[] t]; intros Hd [Hf H]; unfold build_one; cbn [andb fst snd] in *; [|by eexists].
  destruct (Z.ltb_spec docid (getLastDocId t)) as [Hlt|Hge]; cbn [negb].
  - eexists. split; [done|]. split; [done|]. cbn. by replace (Z.max (docid + 1) (getLastDocId t)) with (Z.max docid (getLastDocId t)) by lia.
  - rewrite Z.max_l in H by lia. rewrite seqZ_cons in H by lia. cbn [mfold] in H. apply bind_Ret_inv in H as (t1 & E & H).
    unfold build in E. apply bind_Ret_inv in E as ([r t1'] & E & [= <-]). rewrite E. rsimpl. eexists. split; [done|].
    split; [done|]. cbn. rewrite (build_last _ _ _ _ _ E), Z.max_l by lia.
    by replace (maxDocId - (docid + 1) + 1) with (Z.pred (maxDocId - docid + 1)) by lia.
Qed.

Lemma ends_in_last task fin docid : maxDocId < docid -> ends_in docid task fin -> fin = task.
Proof.
  intros Hd [Hf H]. destruct task as [[] t], fin as [flag t']; cbn in *; subst; [|done].
  rewrite seqZ_nil in H by lia. cbn in H. congruence.
Qed.

Lemma docs_loop docid flagged fins :
  0 <= docid <= 2 ^ 32 - 1 -> maxDocId < 2 ^ 32 - 1 -> Forall2 (ends_in docid) flagged fins ->
  while_loop docs_body (docid, flagged) = Ret fins.
Proof.
  intros Hd Hmax Hf.
  destruct (while_loop_rule docs_body
    (fun d st => d = st.1 /\ 0 <= d <= 2 ^ 32 - 1 /\ Forall2 (ends_in d) st.2 fins)
    (fun d => 2 ^ 32 - 1 - d) (fun r => r = fins)) with (g := docid) (s := (docid, flagged)) as (r & -> & ->); [| |unfold loop_fuel; lia|done].
  - intros d [d' fl] (-> & Hr & Hfl). cbn [fst snd] in *. split; [lia|]. unfold docs_body.
    destruct (Z.leb_spec d' maxDocId) as [Hle|Hgt].
    + destruct (each_rule (build_one d' (load_document d')) (ends_in d') (ends_in (d' + 1)) fl fins) as (k & -> & Hk); [|done|].
      { intros. by apply build_one_ends. }
      left. exists (d' + 1), (u32 (d' + 1), k). rsimpl. rewrite u32_small by lia. split_and!; done || lia.
    + right. eexists. split; [done|]. clear -Hfl Hgt. induction Hfl as [|a b fl fins H _ IH]; [done|].
      by rewrite IH, (ends_in_last _ _ _ Hgt H).
  - by split.
Qed.

Lemma start_le flagged lo :
  let m := fold_left (fun m task => Z.min m (getLastDocId task.2)) flagged lo in
  m <= lo /\ forall task, task ∈ flagged -> m <= getLastDocId task.2.
Proof.
  revert lo. induction flagged as [|x l IH]; intros lo; cbn; [split; [lia|by intros ? ?%elem_of_nil]|].
  destruct (IH (Z.min lo (getLastDocId x.2))) as [H1 H2]. split; [lia|].
  intros task [->|H]%elem_of_cons; [lia|by apply H2].
Qed.

Lemma start_ge flagged lo b : b <= lo -> (forall task, task ∈ flagged -> b <= getLastDocId task.2) ->
  b <= fold_left (fun m task => Z.min m (getLastDocId task.2)) flagged lo.
Proof.
  revert lo. induction flagged as [|x l IH]; intros lo Hlo Hl; cbn; [done|].
  apply IH; [|intros; apply Hl; by right]. specialize (Hl x ltac:(by left)). lia.
Qed.

(** The states of the tasks before and after the documents and at the end. *)
Lemma run_tasks timestamp tasks tasks' :
  Forall2 (fun t t' => run_task timestamp t = Ret t') tasks tasks' ->
  exists flagged fins, each (preProcess timestamp) tasks = Ret flagged /\
    Forall2 (fun task fin => fin.1 = task.1 /\ if task.1 then build_docs task.2 = Ret fin.2 else fin.2 = task.2) flagged fins /\
    each post_one fins = Ret tasks'.
Proof.
  induction 1 as [|t t' tasks tasks' H _ (fl & fi & E1 & H2 & E3)]; [by exists [], []|].
  unfold run_task in H. apply bind_Ret_inv in H as ([flag t1] & Ep & H).
  assert (exists fin, (fin.1 = flag /\ if flag then build_docs t1 = Ret fin.2 else fin.2 = t1) /\ post_one fin = Ret t') as (fin & Hfin & Epost).
  { destruct flag; [|exists (false, t1); split; [done|exact H]].
    apply bind_Ret_inv in H as (t2 & Eb & H). exists (true, t2). done. }
  exists ((flag, t1) :: fl), (fin :: fi). cbn [each]. rewrite Ep, E1, E3, Epost. rsimpl. split; [done|].
  split; [by constructor|done].
Qed.

(** C34: building a collection runs every task by itself. If for each task
    preparing it, building its documents from its last document on in order and
    finishing it succeed, then the builder returns with exactly these results:
    each document is built once by each task that needs it, by no other, and a
    task that has nothing to build is left as its preparation leaves it. *)
Theorem buildCollection_tasks timestamp tasks tasks' :
  0 <= maxDocId < 2 ^ 32 - 1 ->
  Forall2 (fun t t' => run_task timestamp t = Ret t') tasks tasks' ->
  (forall t r t1, t ∈ tasks -> preProcess timestamp t = Ret (r, t1) -> 0 <= getLastDocId t1) ->
  buildCollection timestamp tasks = Ret (true, tasks').
Proof.
  intros Hmax Hrun Hpos. destruct (run_tasks _ _ _ Hrun) as (flagged & fins & E1 & H2 & E3).
  unfold buildCollection. rewrite E1. cbn [res_bind].
  assert (forall task, task ∈ flagged -> 0 <= getLastDocId task.2) as Hlast.
  { apply each_Forall2 in E1. intros [r t1] [i Hi]%list_elem_of_lookup_1.
    destruct (Forall2_lookup_r _ _ _ _ _ E1 Hi) as (t & Ht & E). apply (Hpos t r); [by eapply list_elem_of_lookup_2|done]. }
  destruct (forallb _ flagged) eqn:Eb.
  - f_equal. f_equal. clear -Eb H2 E3. revert tasks' E3. induction H2 as [|task fin fl fi [Hf H] _ IH]; intros tasks' E3; [by injection E3|].
    cbn in Eb. apply andb_true_iff in Eb as [Hn Eb]. cbn [each] in E3.
    apply bind_Ret_inv in E3 as (t' & Ep & (l & El & [= <-])%bind_Ret_inv). cbn [map]. f_equal; [|by apply IH].
    destruct task as [[] t], fin as [flag t1]; [done|]. cbn in *. subst. cbn in Ep. by injection Ep.
  - destruct (start_le flagged maxDocId) as [Hs1 Hs2].
    pose proof (start_ge flagged maxDocId 0 ltac:(lia) Hlast) as Hs3. cbv zeta in Hs1, Hs2.
    rewrite (docs_loop _ flagged fins); [cbn [res_bind]; by rewrite E3|lia|lia|].
    clear -H2 Hs2. revert Hs2. generalize (fold_left (fun m task => Z.min m (getLastDocId task.2)) flagged maxDocId). intros m.
    induction H2 as [|task fin fl fi [Hf H] _ IH]; intros Hs2; constructor; [|apply IH; intros; apply Hs2; by right].
    split; [done|]. destruct task as [[] t]; [|done]. cbn in *. specialize (Hs2 _ ltac:(by left)). cbn in Hs2.
    rewrite Z.max_r by lia. exact H.
Qed.
End BuilderProofs.

(** ** The threads *)

Lemma interleaving_perm {threads l} : interleaving threads l -> l ≡ₚ concat threads.
Proof.
  induction 1 as [threads H|before e t after l _ IH].
  - induction H as [|? ? <- _ IH]; [done|]. exact IH.
  - rewrite IH, !concat_app. cbn. by rewrite <- Permutation_middle.
Qed.

(** The threads together have the steps of every document, once each. *)
Lemma residue_once n d : 0 < n ->
  filter (fun threadId => d mod n = threadId) (seqZ 0 n) = [d mod n].
Proof.
  intros Hn. pose proof (Z.mod_pos_bound d n Hn). apply ssorted_ext.
  - apply ssorted_filter, ssorted_seqZ.
  - repeat constructor.
  - intros x. rewrite list_elem_of_filter, elem_of_seqZ, list_elem_of_singleton. lia.
Qed.

Lemma flat_map_nil {A B} (f : A -> list B) l : (forall a, a ∈ l -> f a = []) -> flat_map f l = [].
Proof.
  induction l as [|a l IH]; intros H; [done|]. cbn. rewrite (H a) by (by left).
  apply IH. intros b Hb. apply H. by right.
Qed.

Lemma flat_map_app_perm {A B} (f g : A -> list B) l : flat_map (fun a => f a ++ g a) l ≡ₚ flat_map f l ++ flat_map g l.
Proof.
  induction l as [|a l IH]; [done|]. cbn. rewrite IH, <- !app_assoc. f_equiv. rewrite !app_assoc. f_equiv. apply Permutation_app_comm.
Qed.

Lemma flat_map_swap {A B C} (f : A -> B -> list C) l k :
  flat_map (fun a => flat_map (f a) k) l ≡ₚ flat_map (fun b => flat_map (fun a => f a b) l) k.
Proof.
  induction l as [|a l IH]; cbn; [by rewrite flat_map_nil|].
  rewrite IH. symmetry. apply flat_map_app_perm.
Qed.

Lemma flat_map_one {A B} (P : A -> bool) (x : list B) l a :
  filter (fun a => P a = true) l = [a] -> flat_map (fun a => if P a then x else []) l = x.
Proof.
  induction l as [|b l IH]; [done|]. rewrite filter_cons. cbn. destruct (P b) eqn:Eb.
  - rewrite decide_True by done. intros [= -> Hl]. rewrite flat_map_nil; [apply app_nil_r|].
    intros c Hc. destruct (P c) eqn:Ec; [|done]. assert (c ∈ filter (fun a => P a = true) l) as H by (by apply list_elem_of_filter).
    rewrite Hl in H. by apply elem_of_nil in H.
  - rewrite decide_False by congruence. exact IH.
Qed.

Definition all_steps (startDocId endDocId taskNum : Z) : list step :=
  flat_map (fun docId => map (fun i => (docId, i)) (seq 0 (Z.to_nat taskNum))) (seqZ startDocId (endDocId - startDocId + 1)).

(** The residue classes together have everything, once each. *)
Lemma residue_classes {B} n (f : Z -> list B) l : 0 < n ->
  flat_map (fun threadId => flat_map (fun d => if negb (d mod n =? threadId) then [] else f d) l) (seqZ 0 n) ≡ₚ flat_map f l.
Proof.
  intros Hn. rewrite flat_map_swap. apply Permutation_refl'. apply flat_map_ext. intros d. cbv beta.
  transitivity (flat_map (fun t => if d mod n =? t then f d else []) (seqZ 0 n)).
  - apply flat_map_ext. intros t. by destruct (d mod n =? t).
  - apply (flat_map_one _ _ _ (d mod n)). transitivity (filter (fun threadId => d mod n = threadId) (seqZ 0 n)); [|by apply residue_once].
    apply filter_ext_in. intros x _. apply Z.eqb_eq.
Qed.

Lemma threads_steps n startDocId endDocId taskNum : 0 < n ->
  concat (map (buildDocs_ n startDocId endDocId taskNum) (seqZ 0 n)) ≡ₚ all_steps startDocId endDocId taskNum.
Proof. intros Hn. rewrite <- flat_map_concat_map. by apply residue_classes. Qed.

(** The documents that a run of steps builds on the task at [i]. *)
Definition docs_at (i : nat) (l : list step) : list Z := map fst (filter (fun e => e.2 = i) l).

Lemma docs_at_cons i d j l : docs_at i ((d, j) :: l) = if decide (j = i) then d :: docs_at i l else docs_at i l.
Proof. unfold docs_at. rewrite filter_cons. cbn [snd]. by destruct (decide (j = i)). Qed.

Lemma docs_at_all i startDocId endDocId taskNum : (i < Z.to_nat taskNum)%nat ->
  docs_at i (all_steps startDocId endDocId taskNum) = seqZ startDocId (endDocId - startDocId + 1).
Proof.
  intros Hi. unfold docs_at, all_steps, step. induction (seqZ _ _) as [|d ds IH]; [done|]. cbn.
  rewrite filter_app, map_app, IH. enough (filter (fun e : Z * nat => e.2 = i) (map (fun i => (d, i)) (seq 0 (Z.to_nat taskNum))) = [(d, i)]) as -> by done.
  clear IH. assert (forall lo n, (lo <= i < lo + n)%nat \/ (i < lo)%nat -> filter (fun e : Z * nat => e.2 = i) (map (fun i => (d, i)) (seq lo n)) =
    if decide (lo <= i)%nat then [(d, i)] else []) as H.
  { intros lo n. revert lo. induction n as [|n IH]; intros lo H; cbn [seq map].
    - rewrite decide_False by lia. done.
    - rewrite filter_cons. cbn [snd]. destruct (decide (lo = i)) as [->|Hne].
      + rewrite IH by lia. rewrite decide_False by lia. by rewrite decide_True by lia.
      + rewrite IH by lia. destruct (decide (lo <= i)%nat); [rewrite decide_True by lia|rewrite decide_False by lia]; done. }
  rewrite H by lia. by rewrite decide_True by lia.
Qed.

Section Threads.
Context {D S : Type} `{!MiningTask D S, !MiningTaskLaws D S}.
Context (maxDocId : Z) (getDocument : Z -> option D) (getRTypePropertiesForDocument : Z -> D -> D) (new_document : D).
Implicit Types (tasks : list S) (flagged : list (bool * S)) (task : bool * S).
Notation load_document := (load_document getDocument getRTypePropertiesForDocument new_document).

(** Building a document always succeeds, and the order does not matter. *)
Context (b : Z -> S -> S).
Hypothesis Hb : forall d t, exists r, buildDocument d (load_document d) t = Ret (r, b d t).
Hypothesis Hcomm : forall d d' t, b d (b d' t) = b d' (b d t).

Definition build1 (d : Z) task : bool * S :=
  if task.1 && negb (d <? getLastDocId task.2) then (task.1, b d task.2) else task.

Lemma build_one_eq d task : build_one d (load_document d) task = Ret (build1 d task).
Proof.
  destruct task as [flag t]. unfold build_one, build1. cbn [fst snd]. destruct (flag && _); [|done].
  by destruct (Hb d t) as [r ->].
Qed.

Lemma b_last d t : getLastDocId (b d t) = getLastDocId t.
Proof. destruct (Hb d t) as [r E]. by eapply build_last. Qed.

Lemma build1_comm d d' task : build1 d (build1 d' task) = build1 d' (build1 d task).
Proof.
  destruct task as [[] t]; unfold build1; cbn [fst snd andb]; [|done].
  destruct (d <? getLastDocId t) eqn:E, (d' <? getLastDocId t) eqn:E'; cbn [negb fst snd andb];
    rewrite ?b_last, ?E, ?E'; cbn [negb]; (reflexivity || by rewrite Hcomm).
Qed.

Definition builds (l : list Z) task : bool * S := foldr build1 task l.

Lemma builds_perm l k task : l ≡ₚ k -> builds l task = builds k task.
Proof.
  induction 1 as [|x l k _ IH|x y l|l k m _ IH1 _ IH2]; [done|exact (f_equal (build1 x) IH)|apply build1_comm|by rewrite IH1].
Qed.

Lemma builds_app l k task : builds (l ++ k) task = builds l (builds k task).
Proof. apply foldr_app. Qed.

(** Every run of steps builds the documents of each task. *)
Lemma run_steps l flagged :
  (forall e, e ∈ l -> (e.2 < length flagged)%nat) ->
  mfold (run_step getDocument getRTypePropertiesForDocument new_document) l flagged =
    Ret (imap (fun i task => builds (docs_at i l) task) flagged).
Proof.
  revert flagged. induction l as [|[d i] l IH]; intros flagged Hl; cbn [mfold].
  { f_equal. apply list_eq. intros j. rewrite list_lookup_imap. by destruct (flagged !! j). }
  pose proof (Hl (d, i) ltac:(by left)) as Hi. cbn in Hi. destruct (lookup_lt_is_Some_2 _ _ Hi) as [task Et].
  unfold run_step at 1. cbn [fst snd]. rewrite Et, build_one_eq. cbn [res_bind].
  rewrite IH by (intros e He; rewrite length_insert; apply Hl; by right). f_equal.
  apply list_eq. intros j. rewrite !list_lookup_imap. destruct (decide (j = i)) as [->|Hne].
  - rewrite list_lookup_insert_eq, Et by done.
    change (Some (builds (docs_at i l) (build1 d task)) = Some (builds (docs_at i ((d, i) :: l)) task)).
    rewrite docs_at_cons, decide_True by done. f_equal.
    rewrite (builds_perm (d :: docs_at i l) (docs_at i l ++ [d])) by apply Permutation_cons_append. by rewrite builds_app.
  - rewrite list_lookup_insert_ne by done. by rewrite docs_at_cons, decide_False by done.
Qed.
Lemma builds_flag l task : (builds l task).1 = task.1 /\ getLastDocId (builds l task).2 = getLastDocId task.2.
Proof.
  induction l as [|d l [IH1 IH2]]; [done|]. cbn. unfold build1. destruct (_ && _); cbn [fst snd]; rewrite ?b_last; by split.
Qed.

Lemma builds_skip l task : (task.1 = true -> forall d, d ∈ l -> d < getLastDocId task.2) -> builds l task = task.
Proof.
  induction l as [|d l IH]; intros Hl; [done|]. cbn.
  change (foldr build1 task l) with (builds l task). rewrite IH by (intros Hf x Hx; apply Hl; [done|by right]).
  unfold build1. destruct task.1; [|done]. specialize (Hl eq_refl d ltac:(by left)).
  destruct (Z.ltb_spec d (getLastDocId task.2)); [done|lia].
Qed.

Lemma mfold_builds l t : (forall d, d ∈ l -> getLastDocId t <= d) ->
  mfold (build getDocument getRTypePropertiesForDocument new_document) l t = Ret (builds l (true, t)).2.
Proof.
  revert t. induction l as [|d l IH]; intros t Hl; [done|]. cbn [mfold]. unfold build at 1.
  destruct (Hb d t) as [r ->]. rsimpl.
  rewrite IH by (intros x Hx; rewrite b_last; apply Hl; by right). f_equal. f_equal.
  rewrite (builds_perm (d :: l) (l ++ [d])) by apply Permutation_cons_append. rewrite builds_app. f_equal. cbn. unfold build1. cbn [fst snd].
  specialize (Hl d ltac:(by left)). by destruct (Z.ltb_spec d (getLastDocId t)); [lia|].
Qed.

(** The documents from [lo] on, in any order, build the task completely. *)
Lemma builds_all lo start l task :
  (task.1 = true -> lo <= getLastDocId task.2 /\ start <= getLastDocId task.2) -> l ≡ₚ seqZ lo (maxDocId - lo + 1) ->
  ends_in maxDocId getDocument getRTypePropertiesForDocument new_document start task (builds l task).
Proof.
  intros Hlo Hl. rewrite (builds_perm _ _ _ Hl). split; [apply builds_flag|].
  destruct task as [[] t]; cbn [fst snd] in *; [|by rewrite builds_skip].
  destruct Hlo as [H1 H2]; [done|]. rewrite Z.max_r by done. set (last := getLastDocId t) in *.
  rewrite mfold_builds by (intros d Hd%elem_of_seqZ; fold last; lia). f_equal. f_equal.
  destruct (Z.leb_spec last maxDocId) as [Hle|Hgt].
  - assert (seqZ lo (maxDocId - lo + 1) = seqZ lo (last - lo) ++ seqZ last (maxDocId - last + 1)) as ->.
    { replace (maxDocId - lo + 1) with ((last - lo) + (maxDocId - last + 1)) by lia. rewrite seqZ_app by lia.
      by replace (lo + (last - lo)) with last by lia. }
    rewrite builds_app, (builds_skip (seqZ lo _)); [done|].
    intros _ d Hd%elem_of_seqZ. rewrite (proj2 (builds_flag _ _)). cbn. fold last. lia.
  - rewrite seqZ_nil by lia. rewrite (builds_skip (seqZ lo _)); [done|]. intros _ d Hd%elem_of_seqZ. cbn. fold last. lia.
Qed.

Lemma mt_start_le flagged lo :
  let m := fold_left (fun m task => if (task.1 : bool) then Z.min m (getLastDocId task.2) else m) flagged lo in
  forall task, task ∈ flagged -> task.1 = true -> m <= getLastDocId task.2.
Proof.
  intros m. enough (m <= lo /\ forall task, task ∈ flagged -> task.1 = true -> m <= getLastDocId task.2) by tauto.
  subst m. revert lo. induction flagged as [|x l IH]; intros lo; cbn; [split; [lia|by intros ? ?%elem_of_nil]|].
  destruct (IH (if x.1 then Z.min lo (getLastDocId x.2) else lo)) as [H1 H2]. split.
  - destruct x.1; lia.
  - intros task [->|H]%elem_of_cons Hf; [rewrite Hf in H1; rewrite Hf; lia|by apply H2].
Qed.

(** C24: the threads do what the sequential builder does. If building a document
    always succeeds and the order of two documents does not matter to a task,
    then every interleaving of the steps of any number of threads leaves every
    task as the sequential builder leaves it. *)
Theorem threads_sequential timestamp n tasks flagged schedule :
  0 <= maxDocId < 2 ^ 32 - 1 -> 0 < n ->
  each (preProcess timestamp) tasks = Ret flagged -> (forall task, task ∈ flagged -> 0 <= getLastDocId task.2) ->
  interleaving (mt_threads maxDocId n flagged) schedule ->
  mt_buildCollection getDocument getRTypePropertiesForDocument new_document schedule timestamp tasks =
    buildCollection maxDocId getDocument getRTypePropertiesForDocument new_document timestamp tasks.
Proof.
  intros Hmax Hn E Hlast Hsched. unfold mt_buildCollection, buildCollection. rewrite E. cbn [res_bind].
  destruct (forallb _ flagged); [done|].
  assert (schedule ≡ₚ all_steps (mt_startDocId maxDocId flagged) maxDocId (vsize flagged)) as Hperm.
  { rewrite (interleaving_perm Hsched). by apply threads_steps. }
  rewrite run_steps.
  2:{ intros e He. rewrite Hperm in He. unfold all_steps in He. apply list_elem_of_In, in_flat_map in He as (d & _ & He).
      apply in_map_iff in He as (i & <- & Hi%in_seq). unfold vsize in Hi. cbn. lia. }
  cbn [res_bind]. destruct (start_le flagged maxDocId) as [Hs1 Hs2]. cbv zeta in Hs1, Hs2.
  pose proof (start_ge flagged maxDocId 0 ltac:(lia) Hlast) as Hs3.
  rewrite (docs_loop _ _ _ _ _ flagged (imap (fun i task => builds (docs_at i schedule) task) flagged)); [done|lia|lia|].
  apply Forall2_same_length_lookup_2; [by rewrite length_imap|]. intros i task fin Et Ef.
  rewrite list_lookup_imap, Et in Ef. injection Ef as <-. pose proof (list_elem_of_lookup_2 _ _ _ Et) as Hin.
  apply (builds_all (mt_startDocId maxDocId flagged)).
  - intros Hf. split; [by apply (mt_start_le flagged maxDocId)|by apply Hs2].
  - rewrite <- (docs_at_all i _ _ (vsize flagged)) by (apply lookup_lt_Some in Et; unfold vsize; lia).
    unfold docs_at. by rewrite Hperm.
Qed.
End Threads.

(** ** Examples *)

(** The threads one after the other. *)
Lemma interleaving_concat threads : forall before, Forall (eq []) before -> interleaving (before ++ threads) (concat threads).
Proof.
  induction threads as [|t threads IH]; intros before Hb.
  { rewrite app_nil_r. by constructor. }
  induction t as [|e t IHt].
  - cbn. rewrite (cons_middle []), app_assoc. apply IH. apply Forall_app. split; [done|by constructor].
  - cbn. by constructor.
Qed.

(** A task that notes the documents it is given, up to document 5. *)
Definition note_task : Type := Z * gset Z.

#[local] Instance note_mining : MiningTask unit note_task := {|
  preProcess := fun _ t => Ret (t.1 <=? 5, t);
  buildDocument := fun d _ t => Ret (true, (t.1, {[d]} ∪ t.2));
  postProcess := fun t => Ret (true, t);
  getLastDocId := fst
|}.

#[local] Instance note_laws : MiningTaskLaws unit note_task.
Proof. constructor. by intros d doc t r t' [= _ <-]. Qed.

Notation note_build := (buildCollection 5 (fun _ => Some tt) (fun _ d => d) tt 0).

Lemma buildCollection_tasks_witness :
  note_build [(4, ∅); (9, ∅); (2, {[1]})] = Ret (true, [(4, {[5]} ∪ ({[4]} ∪ ∅)); (9, ∅); (2, {[5]} ∪ ({[4]} ∪ ({[3]} ∪ ({[2]} ∪ {[1]}))))]).
Proof.
  apply buildCollection_tasks.
  - lia.
  - repeat (constructor; [vm_compute; reflexivity|]). constructor.
  - intros t r t1 Ht [= <- <-]. rewrite !elem_of_cons, elem_of_nil in Ht.
    destruct Ht as [->|[->|[->|[]]]]; cbn; lia.
Defined.

Lemma threads_sequential_witness :
  let tasks : list note_task := [(4, ∅); (9, ∅); (2, {[1]})] in
  let flagged := [(true, (4, ∅)); (false, (9, ∅)); (true, (2, {[1]}))] in
  let schedule := concat (mt_threads 5 2 flagged) in
  mt_buildCollection (fun _ => Some tt) (fun _ d => d) tt schedule 0 tasks = note_build tasks.
Proof.
  cbv zeta. apply (threads_sequential 5 (fun _ => Some tt) (fun _ d => d) tt (fun d t => (t.1, {[d]} ∪ t.2))) with (n := 2)
    (flagged := [(true, (4, ∅)); (false, (9, ∅)); (true, (2, {[1]}))]).
  - intros d t. by exists true.
  - intros d d' [s X]. cbn. f_equal. set_solver.
  - lia.
  - lia.
  - reflexivity.
  - intros task Ht. rewrite !elem_of_cons, elem_of_nil in Ht. destruct Ht as [->|[->|[->|[]]]]; cbn; lia.
  - apply (interleaving_concat _ []). constructor.
Defined.
