(* ===== verification/GroupParam.v ===== *)
(** * The parameters of faceted search

Models configuration-manager/GroupConfig.h and
mining-manager/group-manager/GroupParam.{h,cpp}: the configuration of the group
properties, the parameters of a request, their validation, and what of them is
sent to the other nodes. A check answers the error message it would set, or
none when it returns true. Printing and the other archives are not modelled. *)
From S2P Require Import Prelude OrdMap Float64 DateFormat.

(** The types of properties the program uses (type_defs.h). *)
Inductive PropertyDataType :=
| STRING_PROPERTY_TYPE
| INT8_PROPERTY_TYPE
| INT16_PROPERTY_TYPE
| INT32_PROPERTY_TYPE
| INT64_PROPERTY_TYPE
| FLOAT_PROPERTY_TYPE
| DOUBLE_PROPERTY_TYPE
| DATETIME_PROPERTY_TYPE
| NOMINAL_PROPERTY_TYPE
| UNKNOWN_DATA_PROPERTY_TYPE
| CUSTOM_RANKING_PROPERTY_TYPE
| GEOLOCATION_PROPERTY_TYPE
| OTHER_PROPERTY_TYPE.

Record GroupConfig := Config {
  propType : PropertyDataType;
  isConfigAsRebuild : bool;
  isRTypeStr : bool
}.

Definition new_config (type : PropertyDataType) : GroupConfig := Config type false false.

Definition isStringType (c : GroupConfig) : bool :=
  match propType c with STRING_PROPERTY_TYPE => true | _ => false end.

Definition isNumericType (c : GroupConfig) : bool :=
  match propType c with
  | INT32_PROPERTY_TYPE | FLOAT_PROPERTY_TYPE | INT8_PROPERTY_TYPE
  | INT16_PROPERTY_TYPE | INT64_PROPERTY_TYPE | DOUBLE_PROPERTY_TYPE => true
  | _ => false
  end.

Definition isDateTimeType (c : GroupConfig) : bool :=
  match propType c with DATETIME_PROPERTY_TYPE => true | _ => false end.

Definition isRebuild (c : GroupConfig) : bool := isConfigAsRebuild c || isRTypeStr c.

Notation GroupConfigMap := (list (string * GroupConfig)).

(** ** The parameters *)

Record GroupPropParam := PropParam {
  property_ : string;
  subProperty_ : string;
  isRange_ : bool;
  unit_ : string;
  group_top_ : Z
}.

Definition new_prop_param : GroupPropParam := PropParam "" "" false "" 0.

Record GroupPathScoreInfo := ScoreInfo { score : spec_float; wdocid : Z }.

Notation GroupPath := (list string).
Notation GroupPathVec := (list GroupPath).

Record GroupParam := Param {
  groupProps_ : list GroupPropParam;
  groupLabels_ : list (string * GroupPathVec);
  autoSelectLimits_ : list (string * Z);
  boostGroupLabels_ : GroupPathVec;
  isAttrGroup_ : bool;
  attrGroupNum_ : Z;
  attrIterDocNum_ : Z;
  attrLabels_ : list (string * list string);
  searchMode_ : Z;
  isAttrToken_ : bool
}.

(** SearchingMode *)
Definition DefaultSearchingMode : Z := 0.
Definition ZAMBEZI : Z := 5.

Definition new_param : GroupParam := Param [] [] [] [] false 0 0 [] DefaultSearchingMode false.

Definition isGroupEmpty (p : GroupParam) : bool :=
  is_nil (groupProps_ p) && is_nil (groupLabels_ p) && is_nil (autoSelectLimits_ p).
Definition isAttrEmpty (p : GroupParam) : bool := negb (isAttrGroup_ p) && is_nil (attrLabels_ p).
Definition isEmpty (p : GroupParam) : bool := isGroupEmpty p && isAttrEmpty p.

Definition prop_param_eqb (a b : GroupPropParam) : bool :=
  String.eqb (property_ a) (property_ b) && String.eqb (subProperty_ a) (subProperty_ b) &&
  Bool.eqb (isRange_ a) (isRange_ b) && String.eqb (unit_ a) (unit_ b) && (group_top_ a =? group_top_ b)%Z.

Definition score_info_eqb (a b : GroupPathScoreInfo) : bool :=
  feq (score a) (score b) && (wdocid a =? wdocid b)%Z.

(** [operator==] of vectors. *)
Fixpoint list_eqb {A} (eqb : A -> A -> bool) (l k : list A) : bool :=
  match l, k with
  | [], [] => true
  | a :: l, b :: k => eqb a b && list_eqb eqb l k
  | _, _ => false
  end.

Definition pair_eqb {A B} (eqa : A -> A -> bool) (eqb : B -> B -> bool) (p q : A * B) : bool := eqa p.1 q.1 && eqb p.2 q.2.

(** [isAttrToken_] is not compared. *)
Definition param_eqb (a b : GroupParam) : bool :=
  list_eqb prop_param_eqb (groupProps_ a) (groupProps_ b) &&
  list_eqb (pair_eqb String.eqb (list_eqb (list_eqb String.eqb))) (groupLabels_ a) (groupLabels_ b) &&
  list_eqb (pair_eqb String.eqb Z.eqb) (autoSelectLimits_ a) (autoSelectLimits_ b) &&
  list_eqb (list_eqb String.eqb) (boostGroupLabels_ a) (boostGroupLabels_ b) &&
  Bool.eqb (isAttrGroup_ a) (isAttrGroup_ b) &&
  (attrGroupNum_ a =? attrGroupNum_ b)%Z && (attrIterDocNum_ a =? attrIterDocNum_ b)%Z &&
  list_eqb (pair_eqb String.eqb (list_eqb String.eqb)) (attrLabels_ a) (attrLabels_ b) &&
  (searchMode_ a =? searchMode_ b)%Z.

(** ** What is sent

MSGPACK_DEFINE packs the listed members in order, and unpacking assigns them
to the members of a new object. [attrIterDocNum_] is not listed: the worker
sets it. *)
Definition prop_packed : Type := string * string * bool * string * Z.
Definition pack_prop (p : GroupPropParam) : prop_packed := (property_ p, subProperty_ p, isRange_ p, unit_ p, group_top_ p).
Definition unpack_prop (m : prop_packed) : GroupPropParam :=
  let '(prop, sub, range, unit, top) := m in PropParam prop sub range unit top.

Definition param_packed : Type :=
  list prop_packed * list (string * GroupPathVec) * list (string * Z) * GroupPathVec * bool * Z * list (string * list string) * Z * bool.
Definition pack_param (p : GroupParam) : param_packed :=
  (map pack_prop (groupProps_ p), groupLabels_ p, autoSelectLimits_ p, boostGroupLabels_ p, isAttrGroup_ p,
   attrGroupNum_ p, attrLabels_ p, searchMode_ p, isAttrToken_ p).
Definition unpack_param (m : param_packed) : GroupParam :=
  let '(props, labels, limits, boost, isAttrGroup, groupNum, attrLabels, mode, token) := m in
  Param (map unpack_prop props) labels limits boost isAttrGroup groupNum (attrIterDocNum_ new_param) attrLabels mode token.

(** ** Validation *)

(** The members of [MiningSchema] the checks read. *)
Record MiningSchema := Schema {
  group_enable : bool;
  group_config_map : GroupConfigMap;
  attr_enable : bool
}.

Definition NUMERIC_RANGE_DELIMITER : string := "-".

(** [a && b]: the second check runs when the first one returns true. *)
Definition and_check (a b : option string) : option string :=
  match a with Some message => Some message | None => b end.

Definition fail_if (b : bool) (message : string) : option string := if b then Some message else None.

Definition not_configured (name : string) : string :=
  ("property " ++ name ++ " should be configured in <MiningBundle>::<Schema>::<Group>.")%string.

Definition checkGroupPropParam (param : GroupPropParam) (configMap : GroupConfigMap) : option string :=
  let propName := property_ param in
  let subPropName := subProperty_ param in
  let unit := unit_ param in
  if String.eqb propName "" then Some "request[group][property] should not be empty"%string
  else match om_find configMap propName with
  | None => Some (not_configured propName)
  | Some groupConfig =>
      and_check
        (if String.eqb subPropName "" then None
         else match om_find configMap subPropName with
         | None => Some (not_configured subPropName)
         | Some subConfig =>
             and_check
               (fail_if (String.eqb subPropName propName)
                  ("property " ++ subPropName ++ " in request[group][sub_property] should not be duplicated with request[group][property]."))
               (fail_if (isDateTimeType subConfig)
                  ("request[group][sub_property] does not support datetime property " ++ subPropName))
         end)
      (and_check
        (if isRange_ param then
           and_check
             (fail_if (negb (String.eqb subPropName ""))
                "request[group][range] must be false when request[group][sub_property] is set.")
             (fail_if (negb (isNumericType groupConfig))
                ("property type of " ++ propName ++ " should be int or float when request[group][range] is true."))
         else None)
      (and_check
        (fail_if (negb (isDateTimeType groupConfig) && negb (String.eqb unit ""))
           ("as property type of " ++ propName ++ " is not datetime, request[group][unit] should be empty."))
        (if isDateTimeType groupConfig then
           if String.eqb unit "" then
             Some ("as property type of " ++ propName ++ " is datetime, request[group][unit] should not be empty.")%string
           else match unitStrToMask unit with inl message => Some message | inr _ => None end
         else None)))
  end.

Section Checks.
Context `{!BoostText}.

Fixpoint checkDateLabel (groupPathVec : GroupPathVec) : res (option string) :=
  match groupPathVec with
  | [] => Ret None
  | [] :: _ => Ret (Some "Must specify non-empty [search][group_label][value]"%string)
  | (front :: _) :: paths =>
      let* r := apiStrToDateMask front in
      match r with inl message => Ret (Some message) | inr _ => checkDateLabel paths end
  end.

Definition isRangeLabel_ (p : GroupParam) (propName : string) : bool :=
  match om_find (groupLabels_ p) propName with
  | None => false
  | Some paths => existsb (fun path =>
      match path with
      | [] => false
      | front :: _ => match String.index 0 NUMERIC_RANGE_DELIMITER front with Some _ => true | None => false end
      end) paths
  end.

(** The first message of a list of checks. *)
Fixpoint first_error {A} (check : A -> option string) (l : list A) : option string :=
  match l with [] => None | a :: l => and_check (check a) (first_error check l) end.

Definition checkGroupProps_ (p : GroupParam) (groupConfigMap : GroupConfigMap) : option string :=
  first_error (fun param =>
    and_check (checkGroupPropParam param groupConfigMap)
      (fail_if (isRange_ param && isRangeLabel_ p (property_ param))
         ("property " ++ property_ param ++ " in request[search][group_label] could not be specified in request[group] at the same time")))
    (groupProps_ p).

Fixpoint check_labels (groupConfigMap : GroupConfigMap) (labels : list (string * GroupPathVec)) : res (option string) :=
  match labels with
  | [] => Ret None
  | (propName, paths) :: labels =>
      match om_find groupConfigMap propName with
      | None => Ret (Some (not_configured propName))
      | Some groupConfig =>
          let* r := (if isDateTimeType groupConfig then checkDateLabel paths else Ret None) in
          match r with Some message => Ret (Some message) | None => check_labels groupConfigMap labels end
      end
  end.

Definition checkGroupLabels_ (p : GroupParam) (groupConfigMap : GroupConfigMap) : res (option string) :=
  check_labels groupConfigMap (groupLabels_ p).

Definition checkAutoSelectLimits_ (p : GroupParam) (groupConfigMap : GroupConfigMap) : option string :=
  first_error (fun limit : string * Z =>
    match om_find groupConfigMap limit.1 with
    | None => Some (not_configured limit.1)
    | Some config => fail_if (negb (isStringType config))
        ("the feature of auto selected label does not support the property '" ++ limit.1 ++ "' other than string type")
    end) (autoSelectLimits_ p).

Definition checkGroupParam_ (p : GroupParam) (miningSchema : MiningSchema) : res (option string) :=
  if isGroupEmpty p then Ret None
  else if negb (group_enable miningSchema) then
    Ret (Some "The GroupBy properties have not been configured in <MiningBundle>::<Schema>::<Group> yet."%string)
  else match checkGroupProps_ p (group_config_map miningSchema) with
  | Some message => Ret (Some message)
  | None =>
      let* r := checkGroupLabels_ p (group_config_map miningSchema) in
      Ret (and_check r (checkAutoSelectLimits_ p (group_config_map miningSchema)))
  end.

Definition checkAttrParam_ (p : GroupParam) (miningSchema : MiningSchema) : option string :=
  if isAttrEmpty p then None
  else fail_if (negb (attr_enable miningSchema))
    "To get group results by attribute value, the attribute property should be configured in <MiningBundle>::<Schema>::<Attr>.".

Definition checkParam (p : GroupParam) (miningSchema : MiningSchema) : res (option string) :=
  let* r := checkGroupParam_ p miningSchema in
  Ret (and_check r (checkAttrParam_ p miningSchema)).
End Checks.
