(* ===== verification/AttrScore.v ===== *)
(** * Counting attribute values by score

Models mining-manager/attr-manager/AttrScoreCounter.{h,cpp}, the subclass of
AttrCounter that adds up the weights of names and values in the category of
the document instead of counting documents. The weights come from
AttrTokenizeWrapper, which is a parameter, as is the conversion of texts to
UTF-8. [addAttrDoc] is inherited. *)
From S2P Require Import Prelude PQueue Float64 OrdMap TopK PropIdTable OntologyRep.
From S2P Require AttrTable PropValueTable AttrCounter.
Import AttrTable (AttrTable, getValueIdList, nameStr, valueStr, valueId2NameId).
Import PropValueTable (PropValueTable, getPropIdList, propValueStr).
Import AttrCounter (AttrCounter, Counter, iterCount_, nameDocCountTable_, nameValueCountTable_, valueDocCountTable_, extra, new_counter, incr_value, incr_name, om_at).

Definition kMinValueCount : Z := 2.

(** The double 0.1. *)
Definition kMinNameScore : spec_float := dbl 3602879701896397 (-55).
Definition kMinValueScore : spec_float := dbl 3602879701896397 (-55).

(** The tables of names and values. *)
Record score_tables := Scores {
  nameScoreTable_ : list (Z * spec_float);
  valueScoreTable_ : list (Z * spec_float)
}.

Definition no_scores : score_tables := Scores [] [].

Section AttrScoreCounter.
Context {T : Type} `{!TextOrder T} (to_utf8 : T -> string).
Context (attrTable_ : AttrTable T) (categoryValueTable_ : PropValueTable T).
Context (att_name_weight : string -> string -> spec_float).
Context (att_value_weight : string -> string -> string -> spec_float).
Implicit Types c : AttrCounter score_tables.

Definition new_score_counter : AttrCounter score_tables := new_counter no_scores.

Definition set_scores (x : score_tables) c : AttrCounter score_tables :=
  Counter (iterCount_ c) (nameDocCountTable_ c) (nameValueCountTable_ c) (valueDocCountTable_ c) x.

(** [m[k] += d] of a std::map to double. *)
Definition om_add_score (m : list (Z * spec_float)) (k : Z) (d : spec_float) : list (Z * spec_float) :=
  om_set m k (dadd (default d0 (om_find m k)) d).

Definition add_name_score (nameId : Z) (nameScore : spec_float) c : AttrCounter score_tables :=
  set_scores (Scores (om_add_score (nameScoreTable_ (extra c)) nameId nameScore) (valueScoreTable_ (extra c))) c.
Definition add_value_score (vId : Z) (valueScore : spec_float) c : AttrCounter score_tables :=
  set_scores (Scores (nameScoreTable_ (extra c)) (om_add_score (valueScoreTable_ (extra c)) vId valueScore)) c.

Definition nameStr_ (nameId : Z) : res string := let* ustr := nameStr nameId attrTable_ in Ret (to_utf8 ustr).
Definition valueStr_ (valueId : Z) : res string := let* ustr := valueStr valueId attrTable_ in Ret (to_utf8 ustr).

(** The text of the first category of the document. *)
Definition categoryStr_ (doc : Z) : res string :=
  let* cateIdList := getPropIdList doc categoryValueTable_ in
  if size_ cateIdList =? 0 then Ret ""%string
  else
    let* cateId := id_at (PropValueTable.valueIdTable_ categoryValueTable_) cateIdList 0 in
    let* ustr := propValueStr cateId categoryValueTable_ in
    Ret (to_utf8 ustr).

(** One value of the document; the set has the names that were counted. *)
Definition score_value (categoryStr : string) (vId : Z) (st : gset Z * AttrCounter score_tables)
  : res (gset Z * AttrCounter score_tables) :=
  let (nameIdSet, c) := st in
  let* nameId := valueId2NameId vId attrTable_ in
  let* name := nameStr_ nameId in
  let nameScore := att_name_weight name categoryStr in
  if flt nameScore kMinNameScore then Ret st
  else
    let* value := valueStr_ vId in
    let valueScore := att_value_weight name value categoryStr in
    if flt valueScore kMinValueScore then Ret st
    else
      let (nameIdSet, c) :=
        (if bool_decide (nameId ∈ nameIdSet) then (nameIdSet, c)
         else ({[nameId]} ∪ nameIdSet, incr_name nameId (add_name_score nameId nameScore c))) in
      Ret (nameIdSet, add_value_score vId valueScore (incr_value vId c)).

Definition score_addDoc (doc : Z) c : res (AttrCounter score_tables) :=
  let* categoryStr := categoryStr_ doc in
  let* valueIdList := getValueIdList doc attrTable_ in
  let* (_, c) := mfold (fun i st =>
    let* vId := id_at (AttrTable.valueIdTable_ attrTable_) valueIdList i in
    score_value categoryStr vId st) (seqZ 0 (size_ valueIdList)) (∅, c) in
  Ret c.

(** The virtual score functions; [operator[]] inserts a missing key. *)
Definition getNameScore_ (nameId : Z) c : spec_float * AttrCounter score_tables :=
  let (s, m) := om_at d0 (nameScoreTable_ (extra c)) nameId in
  (s, set_scores (Scores m (valueScoreTable_ (extra c))) c).
Definition getValueScore_ (valueId : Z) c : spec_float * AttrCounter score_tables :=
  let (s, m) := om_at d0 (valueScoreTable_ (extra c)) valueId in
  (s, set_scores (Scores (nameScoreTable_ (extra c)) m) c).

Definition score_getGroupRep {Q : Type} `{!PQueue Q (Z * spec_float)} (topGroupNum : Z) (groupRep : list (item T)) c
  : res (list (item T) * AttrCounter score_tables) :=
  AttrCounter.getGroupRep attrTable_ kMinValueCount getNameScore_ getValueScore_ (Q := Q) topGroupNum groupRep c.
End AttrScoreCounter.
