(* ===== verification/GroupLabels.v ===== *)
(** * The labels of faceted search

Models mining-manager/group-manager/GroupLabel.h, StringGroupLabel.cpp,
NumericRangeGroupLabel.cpp and attr-manager/AttrLabel.cpp (DateGroupLabel is
in DateTable.v): each label tests whether a document has one of the selected
values. The test is the interface [GroupLabel]. The numeric property tables
are functions from documents to values. *)
From S2P Require Import Prelude OrdMap Float64 PropIdTable DateFormat DateTable GroupCounter.
From S2P Require PropValueTable AttrTable.
Import PropValueTable (PropValueTable, parentIdSet, propValueId).
Import AttrTable (AttrTable, nameId, valueId, getValueIdList).

Class GroupLabel (L : Type) := { gl_test : Z -> L -> res bool }.

(** What the group properties use of NumericPropertyTableBase. *)
Record NumericPropertyTable := NumericTable {
  getInt32Value : Z -> option Z;
  getFloatValue : Z -> option spec_float;
  getDoubleValue : Z -> option spec_float
}.

(** ** StringGroupLabel.cpp *)
Record StringGroupLabel (T : Type) := StringLab { string_label_table : PropValueTable T; targetValueIds_ : list Z }.
Arguments StringLab {_} _ _.
Arguments string_label_table {_} _.
Arguments targetValueIds_ {_} _.

Section StringGroupLabel.
Context {T : Type} `{!TextOrder T} (ustring : string -> T).

Definition getTargetValueIds_ (labelPaths : list (list string)) (pv : PropValueTable T) : res (list Z) :=
  mfold (fun path ids => let* targetId := propValueId (map ustring path) pv in Ret (ids ++ [targetId])) labelPaths [].

Definition new_string_label (labelPaths : list (list string)) (pv : PropValueTable T) : res (StringGroupLabel T) :=
  let* ids := getTargetValueIds_ labelPaths pv in Ret (StringLab pv ids).

Definition string_label_test (doc : Z) (l : StringGroupLabel T) : res bool :=
  let* parentSet := parentIdSet doc ∅ (string_label_table l) in
  Ret (existsb (fun id => bool_decide (id ∈ parentSet)) (targetValueIds_ l)).
End StringGroupLabel.

(** ** NumericRangeGroupLabel.cpp *)
Notation NumericRange := (spec_float * spec_float)%type.

(** A label of single values has the first test, one of ranges the second. *)
Inductive NumericRangeGroupLabel :=
| ValueLab (table : NumericPropertyTable) (targetValueSet : list (spec_float * unit))
| RangeLab (table : NumericPropertyTable) (ranges : list NumericRange).

(** [std::set<float>(begin, end)] *)
Definition float_set (values : list spec_float) : list (spec_float * unit) :=
  fold_left (fun s v => match dm_find s v with Some _ => s | None => dm_set s v tt end) values [].

Definition new_value_label (table : NumericPropertyTable) (targetValues : list spec_float) : NumericRangeGroupLabel :=
  ValueLab table (float_set targetValues).

Definition test1 (table : NumericPropertyTable) (targetValueSet : list (spec_float * unit)) (doc : Z) : bool :=
  match getFloatValue table doc with
  | Some value => match dm_find targetValueSet value with Some _ => true | None => false end
  | None => false
  end.

Definition test2 (table : NumericPropertyTable) (ranges : list NumericRange) (doc : Z) : bool :=
  match getFloatValue table doc with
  | Some value => existsb (fun range => fle range.1 value && fle value range.2) ranges
  | None => false
  end.

Definition numeric_label_test (doc : Z) (l : NumericRangeGroupLabel) : bool :=
  match l with
  | ValueLab table targetValueSet => test1 table targetValueSet doc
  | RangeLab table ranges => test2 table ranges doc
  end.

(** ** All labels *)
Inductive group_label (T : Type) :=
| LString (l : StringGroupLabel T)
| LNumeric (l : NumericRangeGroupLabel)
| LDate (t : DateGroupTable) (targetDateMasks : list DateMask).
Arguments LString {_} _.
Arguments LNumeric {_} _.
Arguments LDate {_} _ _.

#[export] Instance group_label_test {T} : GroupLabel (group_label T) := {|
  gl_test := fun doc l =>
    match l with
    | LString l => string_label_test doc l
    | LNumeric l => Ret (numeric_label_test doc l)
    | LDate t masks => date_label_test t doc masks
    end
|}.

(** ** AttrLabel.cpp *)
Record AttrLabel (T : Type) := AttrLab {
  attr_label_table : AttrTable T;
  attrNameId_ : Z;
  attr_targetValueIds_ : gset Z
}.
Arguments AttrLab {_} _ _ _.
Arguments attr_label_table {_} _.
Arguments attrNameId_ {_} _.
Arguments attr_targetValueIds_ {_} _.

Section AttrLabel.
Context {T : Type} `{!TextOrder T} (ustring : string -> T).

Definition attr_target_ids (t : AttrTable T) (nId : Z) (attrValues : list string) : res (gset Z) :=
  mfold (fun value ids => let* targetId := valueId nId (ustring value) t in Ret ({[targetId]} ∪ ids)) attrValues ∅.

Definition new_attr_label (t : AttrTable T) (attrName : string) (attrValues : list string) : res (AttrLabel T) :=
  let nId := nameId (ustring attrName) t in
  let* ids := attr_target_ids t nId attrValues in
  Ret (AttrLab t nId ids).

(** The test of the values one by one; the first target ends it. *)
Definition attr_label_test (doc : Z) (l : AttrLabel T) : res bool :=
  let t := attr_label_table l in
  let* valueIdList := getValueIdList doc t in
  let* found := mfold (fun i found =>
    if (found : bool) then Ret true
    else
      let* id := id_at (AttrTable.valueIdTable_ t) valueIdList i in
      Ret (bool_decide (id ∈ attr_targetValueIds_ l))) (seqZ 0 (size_ valueIdList)) false in
  Ret found.

#[export] Instance attr_label : GroupLabel (AttrLabel T) := {| gl_test := attr_label_test |}.
End AttrLabel.
