(* ===== verification/GroupFilter.v ===== *)
(** * Filtering and counting documents by groups and attributes

Models mining-manager/group-manager/GroupFilter.{h,cpp}. A filter has labels,
which select documents, and counters of the documents per value; a label
refers to the counter of its property, which is shared with the list of
counters: the reference is the index in that list. The filter uses the
interfaces of labels and counters only; GroupBuilder.v creates it. *)
From S2P Require Import Prelude OrdMap Float64 OntologyRep GroupRep GroupCounter GroupLabels GroupParam.

(** The interface of AttrCounter and its subclass. *)
Class AttrCounting (T A : Type) := {
  ac_addDoc : Z -> A -> res A;
  ac_addAttrDoc : Z -> Z -> A -> res A;
  ac_getGroupRep : Z -> list (item T) -> A -> res (list (item T) * A)
}.

(** The interface of AttrLabel. *)
Class AttrLabelOps (B : Type) := { al_test :: GroupLabel B; al_attrNameId : B -> Z }.

Record GroupFilter (L G B A : Type) := Filter {
  groupParam_ : GroupParam;
  groupLabels_ : list (L * option Z);
  groupCounters_ : list G;
  attrLabels_ : list B;
  attrCounter_ : option A
}.
Arguments Filter {_ _ _ _} _ _ _ _ _.
Arguments groupParam_ {_ _ _ _} _.
Arguments groupLabels_ {_ _ _ _} _.
Arguments groupCounters_ {_ _ _ _} _.
Arguments attrLabels_ {_ _ _ _} _.
Arguments attrCounter_ {_ _ _ _} _.

Section GroupFilter.
Context {T L G B A : Type} `{!TextOrder T}.
Context `{!GroupLabel L, !GroupCounter T G, !AttrLabelOps B, !AttrCounting T A}.
Implicit Types f : GroupFilter L G B A.

Definition new_filter (groupParam : GroupParam) : GroupFilter L G B A := Filter groupParam [] [] [] None.

Definition set_counters (counters : list G) f : GroupFilter L G B A :=
  Filter (groupParam_ f) (groupLabels_ f) counters (attrLabels_ f) (attrCounter_ f).
Definition set_attr_counter (a : option A) f : GroupFilter L G B A :=
  Filter (groupParam_ f) (groupLabels_ f) (groupCounters_ f) (attrLabels_ f) a.

(** The loop over labels: [result] and [failIndex], or none at the 2nd fail. *)
Fixpoint test_labels {M} `{!GroupLabel M} (doc i : Z) (labels : list M) (st : bool * Z) : res (option (bool * Z)) :=
  match labels with
  | [] => Ret (Some st)
  | label :: labels =>
      let* ok := gl_test doc label in
      if (ok : bool) then test_labels doc (i + 1) labels st
      else if negb st.1 then Ret None
      else test_labels doc (i + 1) labels (false, i)
  end.

(** All counters count the document. *)
Definition count_all (doc : Z) f : res (GroupFilter L G B A) :=
  let* counters := each (gc_addDoc (T := T) doc) (groupCounters_ f) in
  let f := set_counters counters f in
  match attrCounter_ f with
  | Some a => let* a := ac_addDoc (T := T) doc a in Ret (set_attr_counter (Some a) f)
  | None => Ret f
  end.

(** Only the attribute counter counts the values of the failed label's name. *)
Definition count_attr (failIndex doc : Z) f : res (GroupFilter L G B A) :=
  match attrCounter_ f with
  | Some a =>
      let* label := vget (attrLabels_ f) failIndex in
      let* a := ac_addAttrDoc (T := T) (al_attrNameId label) doc a in Ret (set_attr_counter (Some a) f)
  | None => Ret f
  end.

(** Only the counter of the failed label counts the document. *)
Definition count_group (failIndex doc : Z) f : res (GroupFilter L G B A) :=
  let* label := vget (groupLabels_ f) failIndex in
  match label.2 with
  | Some i =>
      let* counter := vget (groupCounters_ f) i in
      let* counter := gc_addDoc (T := T) doc counter in
      let* counters := vset (groupCounters_ f) i counter in Ret (set_counters counters f)
  | None => Ret f
  end.

Definition test (doc : Z) f : res (bool * GroupFilter L G B A) :=
  let* r := test_labels doc 0 (map fst (groupLabels_ f)) (true, 0) in
  match r with
  | None => Ret (false, f)
  | Some (groupResult, failIndex) =>
      let* r := test_labels doc 0 (attrLabels_ f) (groupResult, failIndex) in
      match r with
      | None => Ret (false, f)
      | Some (result, failIndex) =>
          let* f := (if (result : bool) then count_all doc f
                     else if (groupResult : bool) then count_attr failIndex doc f
                     else count_group failIndex doc f) in
          Ret (result, f)
      end
  end.

Definition getGroupRep (ustring : string -> T) (to_utf8 : T -> string) (groupRep : GroupRep T) (attrRep : list (item T)) f
  : res (GroupRep T * list (item T) * GroupFilter L G B A) :=
  let* (groupRep, counters) := mfold (fun counter '(groupRep, counters) =>
    let* (groupRep, counter) := gc_getGroupRep groupRep counter in
    Ret (groupRep, counters ++ [counter])) (groupCounters_ f) (groupRep, []) in
  let f := set_counters counters f in
  let* (attrRep, f) :=
    (match attrCounter_ f with
     | Some a =>
         let* (attrRep, a) := ac_getGroupRep (attrGroupNum_ (groupParam_ f)) attrRep a in
         Ret (attrRep, set_attr_counter (Some a) f)
     | None => Ret (attrRep, f)
     end) in
  let props := groupProps_ (groupParam_ f) in
  let grouptop_for_props := fold_left (fun m p => om_set m (property_ p) (group_top_ p)) props [] in
  let needResize := existsb (fun p => 0 <? group_top_ p) props in
  let* groupRep := (if (needResize : bool) then ResizeTo ustring to_utf8 (om_find grouptop_for_props) groupRep else Ret groupRep) in
  Ret (groupRep, attrRep, f).
End GroupFilter.

(** ** What the filter counts *)
Section FilterProofs.
Context {T L G B A : Type} `{!TextOrder T}.
Context `{!GroupLabel L, !GroupCounter T G, !AttrLabelOps B, !AttrCounting T A}.
Implicit Types f : GroupFilter L G B A.

(** The labels answer [pass] and [attr_pass]. *)
Context (labels : list (L * option Z)) (attrs : list B) (pass : L -> Z -> bool) (attr_pass : B -> Z -> bool).
Hypothesis Hpass : forall l d, l ∈ map fst labels -> 0 <= d -> gl_test d l = Ret (pass l d).
Hypothesis Hattr : forall b d, b ∈ attrs -> 0 <= d -> gl_test d b = Ret (attr_pass b d).

(** No two labels share a counter. *)
Hypothesis Hrefs : NoDup (omap snd labels).

Definition all_pass (d : Z) : bool := forallb (fun l => pass l.1 d) labels && forallb (fun b => attr_pass b d) attrs.

(** Every label but the one of counter [i] accepts the document. *)
Definition others_pass (i : Z) (d : Z) : bool :=
  forallb (fun l => bool_decide (l.2 = Some i) || pass l.1 d) labels && forallb (fun b => attr_pass b d) attrs.

(** What the attribute counter does with a document: nothing, count all of
    it, or only the values of the name of the one label that rejects it. *)
Definition attr_step (d : Z) (a : A) : res A :=
  if negb (forallb (fun l => pass l.1 d) labels) then Ret a
  else match filter (fun b => attr_pass b d = false) attrs with
  | [] => ac_addDoc (T := T) d a
  | [b] => ac_addAttrDoc (T := T) (al_attrNameId b) d a
  | _ => Ret a
  end.

Section TestLabels.
Context {M} `{!GroupLabel M} (p : M -> bool) (d : Z).

Lemma test_labels_ok (l : list M) : forall i st,
  (forall m, m ∈ l -> gl_test d m = Ret (p m)) ->
  match filter (fun m => p m = false) l with
  | [] => test_labels d i l st = Ret (Some st)
  | [m] => exists l1 l2, l = l1 ++ m :: l2 /\
      test_labels d i l st = Ret (if st.1 : bool then Some (false, i + vsize l1) else None)
  | _ => test_labels d i l st = Ret None
  end.
Proof.
  induction l as [|m l IH]; intros i st Hl; [done|].
  assert (forall i st, match filter (fun m => p m = false) l with
    | [] => test_labels d i l st = Ret (Some st)
    | [m] => exists l1 l2, l = l1 ++ m :: l2 /\
        test_labels d i l st = Ret (if st.1 : bool then Some (false, i + vsize l1) else None)
    | _ => test_labels d i l st = Ret None end) as IH' by (intros; apply IH; intros; apply Hl; by right).
  clear IH. rewrite filter_cons. cbn [test_labels]. rewrite Hl by (by left). cbn [res_bind]. destruct (p m) eqn:Em.
  - rewrite decide_False by congruence. specialize (IH' (i + 1) st).
    destruct (filter _ l) as [|m' [|]]; [done| |done]. destruct IH' as (l1 & l2 & -> & ->). exists (m :: l1), l2.
    rewrite vsize_cons. split; [done|]. by replace (i + 1 + vsize l1) with (i + (1 + vsize l1)) by lia.
  - rewrite decide_True by done. destruct st as [[] j]; cbn [negb fst].
    + specialize (IH' (i + 1) (false, i)). destruct (filter _ l) as [|m' [|]]; cbn [fst] in IH'.
      * rewrite IH'. exists [], l. split; [done|]. change (vsize (@nil M)) with 0. by rewrite Z.add_0_r.
      * destruct IH' as (l1 & l2 & -> & ->). done.
      * done.
    + destruct (filter _ l) as [|m' ?]; [|done]. by exists [], l.
Qed.

Lemma filter_none_forallb (l : list M) : filter (fun m => p m = false) l = [] <-> forallb p l = true.
Proof.
  rewrite forallb_forall. split.
  - intros H m Hm%list_elem_of_In. destruct (p m) eqn:E; [done|].
    assert (m ∈ filter (fun m => p m = false) l) as Hin by (by apply list_elem_of_filter). rewrite H in Hin. by apply elem_of_nil in Hin.
  - intros H. destruct (filter _ l) as [|m k] eqn:E; [done|].
    assert (m ∈ filter (fun m => p m = false) l) as [Hm Hin]%list_elem_of_filter by (rewrite E; by left).
    apply list_elem_of_In, H in Hin. congruence.
Qed.
End TestLabels.

Lemma filter_labels d :
  filter (fun m => pass m d = false) (map fst labels) = map fst (filter (fun l => pass l.1 d = false) labels).
Proof. clear Hpass Hrefs. induction labels as [|l ls IH]; [done|]. cbn [map]. rewrite !filter_cons. case_decide; cbn [map]; by rewrite IH. Qed.

(** Two labels that reject a document: no counter is exempt from both. *)
Lemma two_fail i d l1 l2 k :
  filter (fun l => pass l.1 d = false) labels = l1 :: l2 :: k -> others_pass i d = false.
Proof.
  intros E. unfold others_pass. apply andb_false_iff. left. apply not_true_is_false. rewrite forallb_forall. intros H.
  assert (forall l, l ∈ labels -> pass l.1 d = false -> l.2 = Some i) as Hex.
  { intros l Hl Hf. apply list_elem_of_In, H in Hl. rewrite Hf, orb_false_r in Hl. by apply bool_decide_eq_true in Hl. }
  clear H Hpass. revert E Hex Hrefs. induction labels as [|l ls IH]; [done|]. rewrite filter_cons. intros E Hex Hnd.
  assert (NoDup (omap snd ls)) as Hnd'.
  { cbn in Hnd. destruct l.2; [by apply NoDup_cons in Hnd as [_ ?]|done]. }
  case_decide as Hf; [|by apply IH; [|intros; apply Hex; [by right|]|]].
  injection E as -> E. assert (l2 ∈ filter (fun l => pass l.1 d = false) ls) as [Hf2 Hin2]%list_elem_of_filter by (rewrite E; by left).
  pose proof (Hex l1 ltac:(by left) Hf) as H1. pose proof (Hex l2 ltac:(by right) Hf2) as H2.
  cbn in Hnd. rewrite H1 in Hnd. apply NoDup_cons in Hnd as [Hn _]. apply Hn, list_elem_of_omap. by exists l2.
Qed.

Lemma one_fails i d l :
  filter (fun l => pass l.1 d = false) labels = [l] ->
  others_pass i d = bool_decide (l.2 = Some i) && forallb (fun b => attr_pass b d) attrs.
Proof.
  intros E. unfold others_pass. f_equal. apply Bool.eq_true_iff_eq. rewrite forallb_forall, bool_decide_eq_true. split.
  - intros H. assert (l ∈ filter (fun l => pass l.1 d = false) labels) as [Hf Hin]%list_elem_of_filter by (rewrite E; by left).
    apply list_elem_of_In, H in Hin. rewrite Hf, orb_false_r in Hin. by apply bool_decide_eq_true in Hin.
  - intros Hl m Hm%list_elem_of_In. destruct (pass m.1 d) eqn:Em; [by rewrite orb_true_r|]. rewrite orb_false_r.
    assert (m ∈ filter (fun l => pass l.1 d = false) labels) as Hin by (by apply list_elem_of_filter).
    rewrite E in Hin. apply list_elem_of_singleton in Hin as ->. by apply bool_decide_eq_true.
Qed.

Lemma none_fails i d :
  forallb (fun l => pass l.1 d) labels = true -> others_pass i d = forallb (fun b => attr_pass b d) attrs.
Proof.
  intros H. unfold others_pass. enough (forallb (fun l => bool_decide (l.2 = Some i) || pass l.1 d) labels = true) as -> by done.
  rewrite forallb_forall in H |- *. intros l Hl. by rewrite H, orb_true_r.
Qed.

(** The counters after one document. *)
Definition counters_step (d : Z) (C C' : list G) : Prop :=
  length C' = length C /\ forall i c, C !! i = Some c -> exists c', C' !! i = Some c' /\
    if others_pass (Z.of_nat i) d then gc_addDoc (T := T) d c = Ret c' else c' = c.

Definition attr_counter_step (d : Z) (a a' : option A) : Prop :=
  match a, a' with
  | Some a, Some a' => attr_step d a = Ret a'
  | None, None => True
  | _, _ => False
  end.

Lemma counters_same d C C' : counters_step d C C' -> (forall i, others_pass i d = false) -> C' = C.
Proof.
  intros [Hlen H] Hf. apply list_eq. intros i. destruct (C !! i) as [c|] eqn:E.
  - destruct (H i c E) as (c' & E' & Hc). rewrite Hf in Hc. congruence.
  - apply lookup_ge_None in E. apply lookup_ge_None. lia.
Qed.

Lemma counters_all d C C' : counters_step d C C' -> (forall i, others_pass i d = true) ->
  each (gc_addDoc (T := T) d) C = Ret C'.
Proof.
  intros [Hlen H] Hf. apply each_Forall2. apply Forall2_same_length_lookup_2; [done|].
  intros i c c' E E'. destruct (H i c E) as (c1 & E1 & Hc). rewrite Hf in Hc. congruence.
Qed.

Lemma counters_one d C C' r : counters_step d C C' -> (forall i, others_pass i d = bool_decide (r = Some i)) ->
  (forall i, r = Some i -> 0 <= i < vsize C) ->
  match r with
  | Some i => exists c c', vget C i = Ret c /\ gc_addDoc (T := T) d c = Ret c' /\ vset C i c' = Ret C'
  | None => C' = C
  end.
Proof.
  intros Hs Hf Hr. destruct r as [i|]; [|apply (counters_same d); [done|intros i; by rewrite Hf]].
  specialize (Hr i eq_refl). destruct Hs as [Hlen H].
  destruct (lookup_lt_is_Some_2 C (Z.to_nat i)) as [c Ec]; [unfold vsize in Hr; lia|].
  destruct (H _ _ Ec) as (c' & Ec' & Hc). rewrite Hf, Z2Nat.id, bool_decide_eq_true_2 in Hc by (done || lia).
  exists c, c'. split; [apply vget_Ret; split; [lia|done]|]. split; [done|]. rewrite vset_Ret by done. f_equal.
  apply list_eq. intros j. destruct (decide (j = Z.to_nat i)) as [->|Hne].
  - rewrite list_lookup_insert_eq by (by eapply lookup_lt_Some). done.
  - rewrite list_lookup_insert_ne by done. destruct (C !! j) as [x|] eqn:E.
    + destruct (H j x E) as (x' & E' & Hx). rewrite Hf, bool_decide_eq_false_2 in Hx by (intros [= H1]; lia). congruence.
    + apply lookup_ge_None in E. symmetry. apply lookup_ge_None. lia.
Qed.

Lemma test_step d f C' a' : 0 <= d ->
  groupLabels_ f = labels -> attrLabels_ f = attrs ->
  (forall l i, l ∈ labels -> l.2 = Some i -> 0 <= i < vsize (groupCounters_ f)) ->
  counters_step d (groupCounters_ f) C' -> attr_counter_step d (attrCounter_ f) a' ->
  test d f = Ret (all_pass d, Filter (groupParam_ f) labels C' attrs a').
Proof.
  intros Hd El Ea Hr Hc Hac. destruct f as [P Ls C Bs a]. cbn [groupLabels_ attrLabels_ groupCounters_ attrCounter_ groupParam_] in *. subst Ls Bs.
  unfold test. cbn [groupLabels_ attrLabels_].
  pose proof (test_labels_ok (fun l => pass l d) d (map fst labels) 0 (true, 0) ltac:(intros; by apply Hpass)) as Hg.
  pose proof (fun i st => test_labels_ok (fun b => attr_pass b d) d attrs i st ltac:(intros; by apply Hattr)) as Ht.
  pose proof (filter_none_forallb (fun b => attr_pass b d) attrs) as Hatt.
  cbv beta in Hg. rewrite filter_labels in Hg. unfold all_pass. unfold attr_counter_step, attr_step in Hac.
  pose proof (filter_none_forallb (fun l => pass l.1 d) labels) as Hlab. cbv beta in Ht, Hatt, Hlab.
  destruct (filter (fun l => pass l.1 d = false) labels) as [|l [|l' k]] eqn:Ef; cbn [map] in Hg.
  - rewrite Hg. cbn [res_bind]. rewrite (proj1 Hlab eq_refl) in Hac |- *. cbn [negb] in Hac. specialize (Ht 0 (true, 0)).
    assert (forall i, others_pass i d = forallb (fun b => attr_pass b d) attrs) as Ho by (intros i; apply none_fails; by apply Hlab).
    destruct (filter _ attrs) as [|b [|b' k]] eqn:Eb.
    + rewrite Ht, (proj1 Hatt eq_refl). cbn [res_bind andb]. unfold count_all. cbn [groupCounters_ attrCounter_ set_counters groupParam_ groupLabels_ attrLabels_].
      rewrite (counters_all d C C' Hc) by (intros i; rewrite Ho; by apply Hatt). cbn [res_bind].
      destruct a as [a|], a' as [a'|]; try done. by rewrite Hac.
    + assert (forallb (fun b => attr_pass b d) attrs = false) as Hfb by (apply not_true_is_false; intros H%Hatt; done).
      destruct Ht as (l1 & l2 & E & ->). cbn [res_bind fst]. rewrite Hfb. unfold count_attr. cbn [attrCounter_ attrLabels_].
      assert (C' = C) as -> by (apply (counters_same d); [done|intros i; by rewrite Ho]).
      destruct a as [a|], a' as [a'|]; try done. rewrite Z.add_0_l, E at 1.
      assert (vget (l1 ++ b :: l2) (vsize l1) = Ret b) as ->.
      { apply vget_Ret. split; [apply vsize_nonneg|]. apply list_lookup_middle. unfold vsize. lia. }
      cbn [res_bind]. by rewrite Hac.
    + assert (forallb (fun b => attr_pass b d) attrs = false) as Hfb by (apply not_true_is_false; intros H%Hatt; done).
      rewrite Ht. cbn [res_bind]. rewrite Hfb. cbn [andb].
      assert (C' = C) as -> by (apply (counters_same d); [done|intros i; by rewrite Ho]).
      destruct a as [a|], a' as [a'|]; try done. by injection Hac as ->.
  - destruct Hg as (l1 & l2 & E & ->). cbn [res_bind fst]. specialize (Ht 0 (false, 0 + vsize l1)).
    assert (forallb (fun l => pass l.1 d) labels = false) as Hfl by (apply not_true_is_false; intros H%Hlab; done).
    rewrite Hfl in Hac |- *. cbn [negb andb] in Hac |- *. assert (a' = a) as -> by (destruct a, a'; try done; congruence).
    pose proof (fun i => one_fails i d l Ef) as Ho.
    destruct (filter _ attrs) as [|b k] eqn:Eb.
    + rewrite Ht. cbn [res_bind]. rewrite (proj1 Hatt eq_refl) in Ho. setoid_rewrite andb_true_r in Ho.
      assert (l ∈ labels) as Hin by (assert (l ∈ filter (fun l => pass l.1 d = false) labels) as [_ ?]%list_elem_of_filter by (rewrite Ef; by left); done).
      pose proof (counters_one d C C' l.2 Hc Ho (fun i => Hr l i Hin)) as H1. unfold count_group. cbn [groupLabels_ groupCounters_].
      assert (vget labels (0 + vsize l1) = Ret l) as ->.
      { apply vget_Ret. pose proof (vsize_nonneg l1). split; [lia|].
        assert (map fst labels !! length l1 = Some l.1) as Em by (rewrite E; by apply list_lookup_middle).
        replace (Z.to_nat (0 + vsize l1)) with (length l1) by (unfold vsize; lia).
        change (fst <$> labels !! length l1 = Some l.1) in Em || (rewrite list_lookup_fmap in Em).
        destruct (labels !! length l1) as [m|] eqn:El; [|done]. cbn in Em. injection Em as Em. f_equal.
        apply list_elem_of_singleton. rewrite <- Ef. apply list_elem_of_filter.
        split; [|by eapply list_elem_of_lookup_2]. rewrite Em.
        assert (l ∈ filter (fun l => pass l.1 d = false) labels) as [? _]%list_elem_of_filter by (rewrite Ef; by left). done. }
      cbn [res_bind]. destruct l.2 as [i|].
      * destruct H1 as (c & c' & -> & Hcc & Hset). cbn [res_bind]. rewrite Hcc. cbn [res_bind]. by rewrite Hset.
      * by rewrite H1.
    + assert (forallb (fun b => attr_pass b d) attrs = false) as Hfb by (apply not_true_is_false; intros H%Hatt; done).
      assert (test_labels d 0 attrs (false, 0 + vsize l1) = Ret None) as ->.
      { destruct k; [|done]. by destruct Ht as (? & ? & _ & ->). }
      cbn [res_bind]. assert (C' = C) as -> by (apply (counters_same d); [done|intros i; by rewrite Ho, Hfb, andb_false_r]). done.
  - rewrite Hg. cbn [res_bind].
    assert (forallb (fun l => pass l.1 d) labels = false) as Hfl by (apply not_true_is_false; intros H%Hlab; done).
    rewrite Hfl in Hac |- *. cbn [negb andb] in Hac |- *. assert (a' = a) as -> by (destruct a, a'; try done; congruence).
    assert (C' = C) as -> by (apply (counters_same d); [done|intros i; by eapply two_fail]). done.
Qed.

(** The documents one after the other: the answers and the filter. *)
Definition filter_docs (docs : list Z) f : res (list bool * GroupFilter L G B A) :=
  mfold (fun d '(results, f) => let* (r, f) := test d f in Ret (results ++ [r], f)) docs ([], f).

(** Counters that count the documents they should: [counter_run i docs c c']. *)
Definition counter_run (i : nat) (docs : list Z) (c c' : G) : Prop :=
  mfold (gc_addDoc (T := T)) (filter (fun d => others_pass (Z.of_nat i) d = true) docs) c = Ret c'.

Lemma first_step d docs C C' : length C' = length C ->
  (forall i c, C !! i = Some c -> exists c', C' !! i = Some c' /\ counter_run i (d :: docs) c c') ->
  exists C1, counters_step d C C1 /\ forall i c, C1 !! i = Some c -> exists c', C' !! i = Some c' /\ counter_run i docs c c'.
Proof.
  intros Hlen H.
  assert (forall n C, (forall i c, C !! i = Some c -> exists c1 c', C' !! (n + i)%nat = Some c' /\
      (if others_pass (Z.of_nat (n + i)) d then gc_addDoc (T := T) d c = Ret c1 else c1 = c) /\ counter_run (n + i) docs c1 c') ->
    exists C1, length C1 = length C /\ forall i c, C !! i = Some c -> exists c1 c', C1 !! i = Some c1 /\ C' !! (n + i)%nat = Some c' /\
      (if others_pass (Z.of_nat (n + i)) d then gc_addDoc (T := T) d c = Ret c1 else c1 = c) /\ counter_run (n + i) docs c1 c') as Hall.
  { clear C Hlen H. intros n C. revert n. induction C as [|c C IH]; intros n HC; [exists []; by split|].
    destruct (HC 0%nat c eq_refl) as (c1 & c' & E0). destruct (IH (S n)) as (C1 & Hlen & HC1).
    - intros i x Hx. destruct (HC (S i) x Hx) as (x1 & x' & E). rewrite Nat.add_succ_r in E. by exists x1, x'.
    - exists (c1 :: C1). split; [cbn; lia|]. intros [|i] x Hx.
      + injection Hx as <-. by exists c1, c'.
      + destruct (HC1 i x Hx) as (x1 & x' & E). exists x1, x'. by rewrite Nat.add_succ_r. }
  destruct (Hall 0%nat C) as (C1 & Hlen1 & HC1).
  - intros i c Hc. destruct (H i c Hc) as (c' & Ec' & Hrun). unfold counter_run in Hrun. rewrite filter_cons in Hrun.
    cbn [Nat.add]. destruct (others_pass (Z.of_nat i) d).
    + rewrite decide_True in Hrun by done. cbn [mfold] in Hrun. apply bind_Ret_inv in Hrun as (c1 & E1 & Hrun). by exists c1, c'.
    + rewrite decide_False in Hrun by done. by exists c, c'.
  - exists C1. cbn [Nat.add] in HC1. split; [split; [done|]|].
    + intros i c Hc. destruct (HC1 i c Hc) as (c1 & c' & H1 & _ & H2 & _). by exists c1.
    + intros i c1 Hc1. destruct (lookup_lt_is_Some_2 C i) as [c Hc]; [apply lookup_lt_Some in Hc1; lia|].
      destruct (HC1 i c Hc) as (c1' & c' & H1 & H2 & _ & H3). exists c'. split; [done|]. congruence.
Qed.

(** C16: faceted search. Testing documents answers for each whether all labels
    accept it, and afterwards each counter has counted, in order, exactly the
    documents which every label other than its own accepts - so that the counts
    of a property show what selecting another of its values would give. The
    attribute counter has counted the documents all labels accept, and, of a
    document that one attribute label alone rejects, the values of that label's
    attribute name. *)
Theorem filter_counts docs f C' a' :
  (forall d, d ∈ docs -> 0 <= d) -> groupLabels_ f = labels -> attrLabels_ f = attrs ->
  (forall l i, l ∈ labels -> l.2 = Some i -> 0 <= i < vsize (groupCounters_ f)) ->
  length C' = length (groupCounters_ f) ->
  (forall i c, groupCounters_ f !! i = Some c -> exists c', C' !! i = Some c' /\ counter_run i docs c c') ->
  match attrCounter_ f, a' with Some a, Some a' => mfold attr_step docs a = Ret a' | None, None => True | _, _ => False end ->
  filter_docs docs f = Ret (map all_pass docs, Filter (groupParam_ f) labels C' attrs a').
Proof.
  intros Hd El Ea Hr Hlen Hrun Hattrs. unfold filter_docs.
  cut (forall rs, mfold (fun d '(results, f) => let* (r, f) := test d f in Ret (results ++ [r], f)) docs (rs, f) =
    Ret (rs ++ map all_pass docs, Filter (groupParam_ f) labels C' attrs a')); [intros H; apply (H [])|].
  revert f El Ea Hr Hlen Hrun Hattrs. induction docs as [|d docs IH]; intros f El Ea Hr Hlen Hrun Hattrs rs; cbn [mfold map].
  - rewrite app_nil_r. f_equal. f_equal. destruct f as [P Ls C Bs a]. cbn in *. subst. f_equal.
    + apply list_eq. intros i. destruct (C !! i) as [c|] eqn:E.
      * destruct (Hrun i c E) as (c' & -> & [= ->]). done.
      * apply lookup_ge_None in E. symmetry. apply lookup_ge_None. lia.
    + destruct a, a'; try done. by injection Hattrs as ->.
  - destruct (first_step d docs _ _ Hlen Hrun) as (C1 & Hstep & Hrun1).
    assert (exists a1, attr_counter_step d (attrCounter_ f) a1 /\
      match a1, a' with Some a, Some a' => mfold attr_step docs a = Ret a' | None, None => True | _, _ => False end) as (a1 & Ha1 & Hattrs1).
    { destruct (attrCounter_ f) as [a|], a' as [a'|]; try done; [|by exists None].
      cbn [mfold] in Hattrs. apply bind_Ret_inv in Hattrs as (a1 & E1 & H1). by exists (Some a1). }
    rewrite (test_step d f C1 a1) by (done || apply Hd; by left). cbn [res_bind].
    rewrite IH; [by rewrite <- app_assoc|intros; apply Hd; by right|done|done| | |done|done]; cbn [groupCounters_].
    + destruct Hstep as [Hl _]. unfold vsize in *. rewrite Hl. exact Hr.
    + destruct Hstep as [Hl _]. lia.
Qed.
End FilterProofs.
