(* ===== verification/SharedLock.v ===== *)
(** * The shared locks of a search

Models common/PropSharedLockSet.cpp: the set of the tables that a search has
locked for reading, and that it unlocks when it ends. A lock is the table it
belongs to. Inserting a lock that is in the set does not lock it again. *)
From S2P Require Import Prelude.

(** The table of values, of dates, of numbers or of strings of a property, and
    the attribute table. *)
Inductive table_lock :=
| StringLock (prop : string)
| DateLock (prop : string)
| NumericLock (prop : string)
| RTypeLock (prop : string)
| AttrLock.

#[export] Instance table_lock_eq_dec : EqDecision table_lock.
Proof. solve_decision. Defined.

Notation PropSharedLockSet := (list table_lock).

Definition insertSharedLock (lock : table_lock) (locks : PropSharedLockSet) : PropSharedLockSet :=
  if decide (lock ∈ locks) then locks else locks ++ [lock].

Lemma insert_lock l locks : l ∈ insertSharedLock l locks /\ locks ⊆ insertSharedLock l locks /\
  (NoDup locks -> NoDup (insertSharedLock l locks)).
Proof.
  unfold insertSharedLock. destruct (decide (l ∈ locks)) as [Hl|Hl]; [done|]. split; [set_solver|]. split; [set_solver|].
  intros Hn. apply NoDup_app. split; [done|]. split; [|apply NoDup_singleton]. by intros x Hx ->%list_elem_of_singleton.
Qed.

Lemma insert_elem l locks x : x ∈ insertSharedLock l locks <-> x ∈ locks \/ x = l.
Proof. unfold insertSharedLock. case_decide; set_solver. Qed.

Definition locks_grow (locks locks' : PropSharedLockSet) : Prop := locks ⊆ locks' /\ (NoDup locks -> NoDup locks').

#[export] Instance locks_grow_preorder : PreOrder locks_grow.
Proof. split; [by split|]. intros a b c [H1 H2] [H3 H4]. split; [set_solver|auto]. Qed.

Lemma grow_insert l locks : locks_grow locks (insertSharedLock l locks).
Proof. destruct (insert_lock l locks) as (_ & ? & ?). by split. Qed.

#[export] Hint Resolve grow_insert : sf1r.
#[export] Hint Extern 1 (locks_grow ?a ?a) => reflexivity : sf1r.
