(* ===== verification/GroupBuilder.v ===== *)
(** * Creating the filter of a request

Models mining-manager/group-manager/GroupCounterLabelBuilder.cpp,
GroupFilterBuilder.cpp, the initialisation in GroupFilter.cpp and the lookups
of GroupManager.h: from the parameters of a
request to the counters and labels of its filter, the error returns included,
and the shared locks that are taken on the way. The lexical cast to float and
the numeric property tables are parameters. *)
From S2P Require Import Prelude SharedLock PQueue Float64 OrdMap TopK OntologyRep GroupRep DateFormat GroupCounter DateTable GroupLabels GroupParam GroupFilter.
From S2P Require PropValueTable AttrTable AttrCounter AttrScore NumericRange.
Import PropValueTable (PropValueTable).
Import AttrTable (AttrTable).

(** ** The counters of a filter *)

Record NumericRangeGroupCounter := RangeCounter {
  range_property : string;
  range_table : NumericPropertyTable;
  segmentTree_ : list Z
}.

(** [getGroupRep] moves the vector into the result and leaves an empty one. *)
Definition range_addDoc (doc : Z) (g : NumericRangeGroupCounter) : res NumericRangeGroupCounter :=
  let* v := NumericRange.addDoc (getInt32Value (range_table g)) doc (segmentTree_ g) in
  Ret (RangeCounter (range_property g) (range_table g) v).
Definition range_getGroupRep {T} (r : GroupRep T) (g : NumericRangeGroupCounter) : res (GroupRep T * NumericRangeGroupCounter) :=
  let* v := NumericRange.getGroupRep (segmentTree_ g) in
  Ret (Rep (stringGroupRep_ r) (numericGroupRep_ r) (numericRangeGroupRep_ r ++ [(range_property g, v)]),
       RangeCounter (range_property g) (range_table g) []).

#[export] Instance range_counter {T} : GroupCounter T NumericRangeGroupCounter := {|
  gc_addDoc := range_addDoc;
  gc_getGroupRep := range_getGroupRep;
  gc_getStringRep := fun strRep _ g => Ret (strRep, g)
|}.

Section Counters.
Context {T : Type} `{!TextOrder T} (ustring : string -> T) `{!BoostText}.

(** The counters of single values, which may be inside another one. *)
Inductive value_counter :=
| CString (g : StringGroupCounter T Z)
| CNumeric (g : NumericGroupCounter Z)
| CDate (g : DateGroupCounter Z).

Definition vmap {A} (f : forall G, GroupCounter T G -> G -> res (A * G)) (c : value_counter) : res (A * value_counter) :=
  match c with
  | CString g => let* (a, g) := f _ (string_counter ustring) g in Ret (a, CString g)
  | CNumeric g => let* (a, g) := f _ (numeric_counter ustring) g in Ret (a, CNumeric g)
  | CDate g => let* (a, g) := f _ (date_counter ustring) g in Ret (a, CDate g)
  end.

Definition vmap' (f : forall G, GroupCounter T G -> G -> res G) (c : value_counter) : res value_counter :=
  let* (_, c) := vmap (fun G _ g => let* g := f G _ g in Ret (tt, g)) c in Ret c.

#[export] Instance value_counter_ops : GroupCounter T value_counter := {|
  gc_addDoc := fun doc => vmap' (fun G _ => gc_addDoc doc);
  gc_getGroupRep := fun r => vmap (fun G _ => gc_getGroupRep r);
  gc_getStringRep := fun l n => vmap (fun G _ => gc_getStringRep l n)
|}.

Inductive group_counter :=
| CValue (c : value_counter)
| CSubString (g : StringGroupCounter T (SubGroupCounter value_counter))
| CSubNumeric (g : NumericGroupCounter (SubGroupCounter value_counter))
| CSubDate (g : DateGroupCounter (SubGroupCounter value_counter))
| CRange (g : NumericRangeGroupCounter).

Definition gmap_counter {A} (f : forall G, GroupCounter T G -> G -> res (A * G)) (c : group_counter) : res (A * group_counter) :=
  match c with
  | CValue g => let* (a, g) := f _ value_counter_ops g in Ret (a, CValue g)
  | CSubString g => let* (a, g) := f _ (string_counter ustring) g in Ret (a, CSubString g)
  | CSubNumeric g => let* (a, g) := f _ (numeric_sub_counter ustring) g in Ret (a, CSubNumeric g)
  | CSubDate g => let* (a, g) := f _ (date_counter ustring) g in Ret (a, CSubDate g)
  | CRange g => let* (a, g) := f _ range_counter g in Ret (a, CRange g)
  end.

#[export] Instance group_counter_ops : GroupCounter T group_counter := {|
  gc_addDoc := fun doc c => let* (_, c) := gmap_counter (fun G _ g => let* g := gc_addDoc doc g in Ret (tt, g)) c in Ret c;
  gc_getGroupRep := fun r => gmap_counter (fun G _ => gc_getGroupRep r);
  gc_getStringRep := fun l n => gmap_counter (fun G _ => gc_getStringRep l n)
|}.
End Counters.
Arguments value_counter : clear implicits.
Arguments group_counter : clear implicits.

(** ** The attribute counters and labels *)
Section AttrCounters.
Context {T : Type} `{!TextOrder T} (ustring : string -> T) (to_utf8 : T -> string).
Context (att_name_weight : string -> string -> spec_float) (att_value_weight : string -> string -> string -> spec_float).
Context {Q : Type} `{!PQueue Q (Z * spec_float)}.

Inductive attr_counter :=
| BaseCounter (t : AttrTable T) (minValueCount maxIterCount : Z) (c : AttrCounter.AttrCounter unit)
| ScoreCounter (t : AttrTable T) (categoryTable : PropValueTable T) (c : AttrCounter.AttrCounter AttrScore.score_tables).

(** [addAttrDoc] is the one of the base class, without a limit. *)
#[export] Instance attr_counter_ops : AttrCounting T attr_counter := {|
  ac_addDoc := fun doc a =>
    match a with
    | BaseCounter t mn mx c => let* c := AttrCounter.addDoc t mx doc c in Ret (BaseCounter t mn mx c)
    | ScoreCounter t cat c =>
        let* c := AttrScore.score_addDoc to_utf8 t cat att_name_weight att_value_weight doc c in Ret (ScoreCounter t cat c)
    end;
  ac_addAttrDoc := fun nId doc a =>
    match a with
    | BaseCounter t mn mx c => let* c := AttrCounter.addAttrDoc t mx nId doc c in Ret (BaseCounter t mn mx c)
    | ScoreCounter t cat c => let* c := AttrCounter.addAttrDoc t 0 nId doc c in Ret (ScoreCounter t cat c)
    end;
  ac_getGroupRep := fun top items a =>
    match a with
    | BaseCounter t mn mx c =>
        let* (items, c) := AttrCounter.getGroupRep t mn AttrCounter.count_name_score AttrCounter.count_value_score (Q := Q) top items c in
        Ret (items, BaseCounter t mn mx c)
    | ScoreCounter t cat c =>
        let* (items, c) := AttrScore.score_getGroupRep t (Q := Q) top items c in Ret (items, ScoreCounter t cat c)
    end
|}.
End AttrCounters.
Arguments attr_counter : clear implicits.

#[export] Instance attr_label_ops {T} `{!TextOrder T} : AttrLabelOps (AttrLabel T) :=
  {| al_test := attr_label; al_attrNameId := attrNameId_ |}.

(** ** GroupCounterLabelBuilder.cpp *)

(** The tables GroupManager has opened. *)
Record GroupManager (T : Type) := Manager {
  strPropMap_ : list (string * PropValueTable T);
  datePropMap_ : list (string * DateGroupTable)
}.
Arguments Manager {_} _ _.
Arguments strPropMap_ {_} _.
Arguments datePropMap_ {_} _.

Definition getPropValueTable {T} (prop : string) (m : GroupManager T) : option (PropValueTable T) := om_find (strPropMap_ m) prop.
Definition getDateGroupTable {T} (prop : string) (m : GroupManager T) : option DateGroupTable := om_find (datePropMap_ m) prop.

Section Labels.
Context (lexical_cast_float : string -> option spec_float).

(** [isRange], if the label has a value. *)
Definition checkLabelParam (labelPaths : list (list string)) : option bool :=
  match labelPaths with
  | (propValue :: _) :: _ => Some (match String.index 0 NUMERIC_RANGE_DELIMITER propValue with Some _ => true | None => false end)
  | _ => None
  end.

Definition convertNumericLabel (src : string) : option spec_float :=
  match String.index 0 NUMERIC_RANGE_DELIMITER src with
  | Some _ => None
  | None => lexical_cast_float src
  end.

Definition convertRangeLabel (src : string) : option NumericRange :=
  match String.index 0 NUMERIC_RANGE_DELIMITER src with
  | None => None
  | Some delimitPos =>
      let lowerBound := if (delimitPos =? 0)%nat then Some FLT_MIN else lexical_cast_float (String.substring 0 delimitPos src) in
      match lowerBound with
      | None => None
      | Some lowerBound =>
          let upperBound := if (delimitPos + 1 =? String.length src)%nat then Some FLT_MAX
                            else lexical_cast_float (String.substring (delimitPos + 1) (String.length src - (delimitPos + 1)) src) in
          match upperBound with
          | None => None
          | Some upperBound => Some (lowerBound, upperBound)
          end
      end
  end.

(** The loops over the paths; none if a path is empty or not converted. *)
Fixpoint convert_paths {A} (convert : string -> option A) (paths : list (list string)) : option (list A) :=
  match paths with
  | [] => Some []
  | [] :: _ => None
  | (propValue :: _) :: paths =>
      match convert propValue with
      | None => None
      | Some a => match convert_paths convert paths with Some l => Some (a :: l) | None => None end
      end
  end.
End Labels.

Section Builder.
Context {T : Type} `{!TextOrder T} (ustring : string -> T) `{!BoostText}.
Context (lexical_cast_float : string -> option spec_float).
Context (groupConfigMap_ : GroupConfigMap) (groupManager_ : GroupManager T) (createPropertyTable : string -> option NumericPropertyTable).
Implicit Types (locks : PropSharedLockSet).

Notation created A := (option A * PropSharedLockSet)%type.

Definition createStringCounter_ (prop : string) (subCounter : option (value_counter T)) locks : created (group_counter T) :=
  match getPropValueTable prop groupManager_ with
  | Some pvTable =>
      (Some (match subCounter with
             | Some sub => CSubString (new_string_counter prop pvTable (SubCounter 0 sub))
             | None => CValue (CString (new_string_counter prop pvTable 0))
             end), insertSharedLock (StringLock prop) locks)
  | None => (None, locks)
  end.

Definition createNumericCounter_ (prop : string) (subCounter : option (value_counter T)) locks : created (group_counter T) :=
  match createPropertyTable prop with
  | Some table =>
      (Some (match subCounter with
             | Some sub => CSubNumeric (NumericCounter prop (getDoubleValue table) [] (SubCounter 0 sub))
             | None => CValue (CNumeric (NumericCounter prop (getDoubleValue table) [] 0))
             end), insertSharedLock (NumericLock prop) locks)
  | None => (None, locks)
  end.

Definition createNumericRangeCounter_ (prop : string) locks : created (group_counter T) :=
  match om_find groupConfigMap_ prop with
  | None => (None, locks)
  | Some config =>
      if negb (isNumericType config) then (None, locks)
      else match createPropertyTable prop with
      | Some table => (Some (CRange (RangeCounter prop table NumericRange.new_tree)), insertSharedLock (NumericLock prop) locks)
      | None => (None, locks)
      end
  end.

Definition createDateCounter_ (prop unit : string) (subCounter : option (value_counter T)) locks : created (group_counter T) :=
  match unitStrToMask unit with
  | inl _ => (None, locks)
  | inr mask =>
      match getDateGroupTable prop groupManager_ with
      | None => (None, locks)
      | Some dateTable =>
          (Some (match subCounter with
                 | Some sub => CSubDate (new_date_counter prop dateTable mask (SubCounter 0 sub))
                 | None => CValue (CDate (new_date_counter prop dateTable mask 0))
                 end), insertSharedLock (DateLock prop) locks)
      end
  end.

Definition createValueCounter_ (param : GroupPropParam) (subCounter : option (value_counter T)) locks : created (group_counter T) :=
  let propName := property_ param in
  match om_find groupConfigMap_ propName with
  | None => (None, locks)
  | Some groupConfig =>
      if isStringType groupConfig then createStringCounter_ propName subCounter locks
      else if isNumericType groupConfig then createNumericCounter_ propName subCounter locks
      else if isDateTimeType groupConfig then createDateCounter_ propName (unit_ param) subCounter locks
      else (None, locks)
  end.

(** A counter created without a sub-counter counts single values. *)
Definition as_sub (c : option (group_counter T)) : option (value_counter T) :=
  match c with Some (CValue c) => Some c | _ => None end.

Definition createGroupCounter (param : GroupPropParam) locks : created (group_counter T) :=
  if isRange_ param then createNumericRangeCounter_ (property_ param) locks
  else
    let subPropName := subProperty_ param in
    if String.eqb subPropName "" then createValueCounter_ param None locks
    else
      let subPropParam := PropParam subPropName "" false "" 0 in
      let (subCounter, locks) := createValueCounter_ subPropParam None locks in
      createValueCounter_ param (as_sub subCounter) locks.

Definition createStringLabel_ (propName : string) (paths : list (list string)) locks : res (created (group_label T)) :=
  match getPropValueTable propName groupManager_ with
  | Some pvTable =>
      let* l := new_string_label ustring paths pvTable in
      Ret (Some (LString l), insertSharedLock (StringLock propName) locks)
  | None => Ret (None, locks)
  end.

Definition createNumericLabel_ (propName : string) (paths : list (list string)) locks : created (group_label T) :=
  match createPropertyTable propName with
  | None => (None, locks)
  | Some table =>
      match convert_paths (convertNumericLabel lexical_cast_float) paths with
      | None => (None, locks)
      | Some targetValues => (Some (LNumeric (new_value_label table targetValues)), insertSharedLock (NumericLock propName) locks)
      end
  end.

Definition createRangeLabel_ (propName : string) (paths : list (list string)) locks : created (group_label T) :=
  match createPropertyTable propName with
  | None => (None, locks)
  | Some table =>
      match convert_paths (convertRangeLabel lexical_cast_float) paths with
      | None => (None, locks)
      | Some ranges => (Some (LNumeric (RangeLab table ranges)), insertSharedLock (NumericLock propName) locks)
      end
  end.

Definition createNumericRangeLabel_ (propName : string) (paths : list (list string)) locks : created (group_label T) :=
  match checkLabelParam paths with
  | None => (None, locks)
  | Some isRange => if (isRange : bool) then createRangeLabel_ propName paths locks else createNumericLabel_ propName paths locks
  end.

Fixpoint date_masks (paths : list (list string)) : res (option (list DateMask)) :=
  match paths with
  | [] => Ret (Some [])
  | [] :: _ => Ret None
  | (propValue :: _) :: paths =>
      let* r := apiStrToDateMask propValue in
      match r with
      | inl _ => Ret None
      | inr dateMask =>
          let* r := date_masks paths in
          Ret (match r with Some l => Some (dateMask :: l) | None => None end)
      end
  end.

Definition createDateLabel_ (propName : string) (paths : list (list string)) locks : res (created (group_label T)) :=
  let* masks := date_masks paths in
  match masks with
  | None => Ret (None, locks)
  | Some dateMaskVec =>
      match getDateGroupTable propName groupManager_ with
      | None => Ret (None, locks)
      | Some dateTable => Ret (Some (LDate dateTable dateMaskVec), insertSharedLock (DateLock propName) locks)
      end
  end.

Definition createGroupLabel (labelParam : string * list (list string)) locks : res (created (group_label T)) :=
  let (propName, paths) := labelParam in
  match om_find groupConfigMap_ propName with
  | None => Ret (None, locks)
  | Some groupConfig =>
      if isStringType groupConfig then createStringLabel_ propName paths locks
      else if isNumericType groupConfig then Ret (createNumericRangeLabel_ propName paths locks)
      else if isDateTimeType groupConfig then createDateLabel_ propName paths locks
      else Ret (None, locks)
  end.
End Builder.

(** ** The initialisation of GroupFilter.cpp and GroupFilterBuilder.cpp *)
Section FilterBuilder.
Context {T : Type} `{!TextOrder T} (ustring : string -> T) `{!BoostText}.
Context (lexical_cast_float : string -> option spec_float).
Context (groupConfigMap_ : GroupConfigMap) (groupManager_ : option (GroupManager T)) (createPropertyTable : string -> option NumericPropertyTable).
Context (attrTable_ : option (AttrTable T)).
Implicit Types (locks : PropSharedLockSet).

Notation filter := (GroupFilter (group_label T) (group_counter T) (AttrLabel T) (attr_counter T)).

(** The map from property names to counters holds indices of [groupCounters_]. *)
Notation counter_map := (list (string * Z)).

(** The first loop of [initGroup]: a duplicated property is ignored. *)
Fixpoint init_counters (m : GroupManager T) (groupProps : list GroupPropParam) (counterMap : counter_map) (counters : list (group_counter T)) locks
  : option (counter_map * list (group_counter T)) * PropSharedLockSet :=
  match groupProps with
  | [] => (Some (counterMap, counters), locks)
  | param :: groupProps =>
      match om_find counterMap (property_ param) with
      | Some _ => init_counters m groupProps counterMap counters locks
      | None =>
          match createGroupCounter groupConfigMap_ m createPropertyTable param locks with
          | (Some counter, locks) =>
              init_counters m groupProps (om_set counterMap (property_ param) (vsize counters)) (counters ++ [counter]) locks
          | (None, locks) => (None, locks)
          end
      end
  end.

(** The second loop: labels with a reference to the counter of the property. *)
Fixpoint init_labels (m : GroupManager T) (labels : list (string * list (list string))) (counterMap : counter_map) locks
  : res (option (list (group_label T * option Z)) * PropSharedLockSet) :=
  match labels with
  | [] => Ret (Some [], locks)
  | labelParam :: labels =>
      let* (label, locks) := createGroupLabel ustring lexical_cast_float groupConfigMap_ m createPropertyTable labelParam locks in
      match label with
      | None => Ret (None, locks)
      | Some label =>
          let* (r, locks) := init_labels m labels counterMap locks in
          Ret (match r with Some l => Some ((label, om_find counterMap labelParam.1) :: l) | None => None end, locks)
      end
  end.

Definition initGroup (m : GroupManager T) (f : filter) locks : res (option filter * PropSharedLockSet) :=
  let p := groupParam_ f in
  match init_counters m (groupProps_ p) [] [] locks with
  | (None, locks) => Ret (None, locks)
  | (Some (counterMap, counters), locks) =>
      let* (labels, locks) := init_labels m (GroupParam.groupLabels_ p) counterMap locks in
      Ret (match labels with
           | Some labels => Some (Filter p labels counters (attrLabels_ f) (attrCounter_ f))
           | None => None
           end, locks)
  end.

Definition initAttr (attrTable : AttrTable T) (categoryTable : option (string * PropValueTable T)) (f : filter) locks
  : res (filter * PropSharedLockSet) :=
  let p := groupParam_ f in
  let locks := insertSharedLock AttrLock locks in
  let base := BaseCounter attrTable 1 (attrIterDocNum_ p) (AttrCounter.new_counter tt) in
  let (counter, locks) :=
    (if isAttrGroup_ p then
       match categoryTable with
       | Some (name, table) =>
           if (searchMode_ p =? ZAMBEZI) && isAttrToken_ p then
             (Some (ScoreCounter attrTable table AttrScore.new_score_counter), insertSharedLock (StringLock name) locks)
           else (Some base, locks)
       | None => (Some base, locks)
       end
     else (None, locks)) in
  let* labels := each (fun l => new_attr_label ustring attrTable l.1 l.2) (GroupParam.attrLabels_ p) in
  Ret (Filter p (groupLabels_ f) (groupCounters_ f) labels counter, locks).

Definition kCategoryPropName : string := "Category".

(** Groups need the group manager, attributes the attribute table. *)
Definition createFilter (groupParam : GroupParam) locks : res (option filter * PropSharedLockSet) :=
  if isEmpty groupParam then Ret (None, locks)
  else
    let* (f, locks) :=
      (if isGroupEmpty groupParam then Ret (Some (new_filter groupParam), locks)
       else match groupManager_ with
       | Some m => initGroup m (new_filter groupParam) locks
       | None => Undef
       end) in
    match f with
    | None => Ret (None, locks)
    | Some f =>
        if isAttrEmpty groupParam then Ret (Some f, locks)
        else match attrTable_ with
        | None => Ret (None, locks)
        | Some attrTable =>
            let categoryTable :=
              match groupManager_ with
              | Some m => option_map (pair kCategoryPropName) (getPropValueTable kCategoryPropName m)
              | None => None
              end in
            let* (f, locks) := initAttr attrTable categoryTable f locks in
            Ret (Some f, locks)
        end
    end.
End FilterBuilder.

Section LockProofs.
Context {T : Type} `{!TextOrder T}.

(** The locks of the tables a counter reads. *)
Definition value_locks (c : value_counter T) : PropSharedLockSet :=
  match c with
  | CString g => [StringLock (propName_ g)]
  | CNumeric g => [NumericLock (GroupCounter.property_ g)]
  | CDate g => [DateLock (date_propName_ g)]
  end.

Definition counter_locks (c : group_counter T) : PropSharedLockSet :=
  match c with
  | CValue c => value_locks c
  | CSubString g => StringLock (propName_ g) :: flat_map (fun c => value_locks (groupCounter_ c)) (countTable_ g)
  | CSubNumeric g => NumericLock (GroupCounter.property_ g) :: value_locks (groupCounter_ (initSubCounter g))
  | CSubDate g => DateLock (date_propName_ g) :: value_locks (groupCounter_ (date_initSubCounter g))
  | CRange g => [NumericLock (range_property g)]
  end.

(** The locks of the tables that the counter of attributes reads: [AttrScoreCounter]
    also reads the categories of the documents. *)
Definition attr_locks (c : option (attr_counter T)) : PropSharedLockSet :=
  match c with
  | Some (BaseCounter _ _ _ _) => [AttrLock]
  | Some (ScoreCounter _ _ _) => [AttrLock; StringLock kCategoryPropName]
  | None => []
  end.

Definition sub_locks (c : option (value_counter T)) : PropSharedLockSet :=
  match c with Some c => value_locks c | None => [] end.

(** A created counter: its tables are locked; nothing else is unlocked. *)
Definition locked (locks : PropSharedLockSet) (r : option (group_counter T) * PropSharedLockSet) : Prop :=
  locks_grow locks r.2 /\ forall c, r.1 = Some c -> counter_locks c ⊆ r.2.

Lemma locked_none locks : locked locks (None, locks).
Proof. split; [reflexivity|done]. Qed.

Lemma locked_some (mk : option (value_counter T) -> group_counter T) l sub locks :
  (forall sub, counter_locks (mk sub) ⊆ l :: sub_locks sub) -> sub_locks sub ⊆ locks ->
  locked locks (Some (mk sub), insertSharedLock l locks).
Proof.
  intros Hmk Hsub. destruct (insert_lock l locks) as (H1 & H2 & _). split; [apply grow_insert|].
  intros c [= <-]. specialize (Hmk sub). cbn. set_solver.
Qed.

Lemma flat_map_replicate {A B} (g : A -> list B) n a : flat_map g (replicate n a) ⊆ g a.
Proof. induction n as [|n IH]; cbn; set_solver. Qed.

Context (groupConfigMap_ : GroupConfigMap) (m : GroupManager T) (createPropertyTable : string -> option NumericPropertyTable).

Lemma value_counter_locked param sub locks : sub_locks sub ⊆ locks ->
  locked locks (createValueCounter_ groupConfigMap_ m createPropertyTable param sub locks).
Proof.
  intros Hsub. unfold createValueCounter_. destruct (om_find groupConfigMap_ _) as [c|]; [|apply locked_none].
  destruct (isStringType c); [|destruct (isNumericType c); [|destruct (isDateTimeType c); [|apply locked_none]]].
  - unfold createStringCounter_. destruct (getPropValueTable _ m) as [pv|]; [|apply locked_none].
    apply (locked_some (fun sub => match sub with Some sub => CSubString (new_string_counter (property_ param) pv (SubCounter 0 sub))
      | None => CValue (CString (new_string_counter (property_ param) pv 0)) end)); [|done].
    intros [s|]; [|set_solver]. cbn. intros x [->|Hx]%elem_of_cons; [by left|]. right.
    by apply (flat_map_replicate (fun c => value_locks (groupCounter_ c)) _ (SubCounter 0 s)) in Hx.
  - unfold createNumericCounter_. destruct (createPropertyTable _) as [t|]; [|apply locked_none].
    apply (locked_some (fun sub => match sub with Some sub => CSubNumeric (NumericCounter (property_ param) (getDoubleValue t) [] (SubCounter 0 sub))
      | None => CValue (CNumeric (NumericCounter (property_ param) (getDoubleValue t) [] 0)) end)); [|done].
    intros [s|]; set_solver.
  - unfold createDateCounter_. destruct (unitStrToMask _) as [|mask]; [apply locked_none|].
    destruct (getDateGroupTable _ m) as [t|]; [|apply locked_none].
    apply (locked_some (fun sub => match sub with Some sub => CSubDate (new_date_counter (property_ param) t mask (SubCounter 0 sub))
      | None => CValue (CDate (new_date_counter (property_ param) t mask 0)) end)); [|done].
    intros [s|]; set_solver.
Qed.

Lemma group_counter_locked param locks :
  locked locks (createGroupCounter groupConfigMap_ m createPropertyTable param locks).
Proof.
  unfold createGroupCounter. destruct (isRange_ param).
  - unfold createNumericRangeCounter_. destruct (om_find _ _) as [c|]; [|apply locked_none].
    destruct (negb _); [apply locked_none|]. destruct (createPropertyTable _) as [t|]; [|apply locked_none].
    apply (locked_some (fun _ => CRange (RangeCounter (property_ param) t NumericRange.new_tree)) _ None); set_solver.
  - destruct (String.eqb _ _); [apply value_counter_locked; set_solver|].
    pose proof (value_counter_locked (PropParam (subProperty_ param) "" false "" 0) None locks) as [H1 H2]; [set_solver|].
    destruct (createValueCounter_ _ _ _ _ None _) as [sub locks1]. cbn [fst snd] in *.
    pose proof (value_counter_locked param (as_sub sub) locks1) as [H3 H4].
    { destruct sub as [[]|]; cbn; set_solver. }
    split; [by etransitivity|done].
Qed.
End LockProofs.

(** ** The filter that is created *)
Section FilterProofs.
Context {T : Type} `{!TextOrder T} (ustring : string -> T) `{!BoostText}.
Context (lexical_cast_float : string -> option spec_float).
Context (groupConfigMap_ : GroupConfigMap) (createPropertyTable : string -> option NumericPropertyTable).

(** The table of a property, by its configured type. *)
Definition lock_of (prop : string) : option table_lock :=
  match om_find groupConfigMap_ prop with
  | None => None
  | Some c => if isStringType c then Some (StringLock prop) else if isNumericType c then Some (NumericLock prop)
              else if isDateTimeType c then Some (DateLock prop) else None
  end.

Lemma label_locked m labelParam locks r locks' :
  createGroupLabel ustring lexical_cast_float groupConfigMap_ m createPropertyTable labelParam locks = Ret (r, locks') ->
  locks_grow locks locks' /\ (r <> None -> exists l, lock_of labelParam.1 = Some l /\ l ∈ locks').
Proof.
  destruct labelParam as [prop paths]. unfold createGroupLabel, lock_of. cbn [fst].
  assert (forall l (x : res (option (group_label T) * PropSharedLockSet)), x = Ret (None, locks) \/ (exists a, x = Ret (Some a, insertSharedLock l locks)) ->
    x = Ret (r, locks') -> locks_grow locks locks' /\ (r <> None -> exists l', Some l = Some l' /\ l' ∈ locks')) as Hall.
  { intros l x [->|[a ->]] [= <- <-].
    - split; [reflexivity|done].
    - split; [apply grow_insert|]. intros _. exists l. split; [done|]. exact (proj1 (insert_lock l locks)). }
  destruct (om_find groupConfigMap_ prop) as [c|]; [|by intros [= <- <-]; split; [reflexivity|]].
  destruct (isStringType c); [|destruct (isNumericType c); [|destruct (isDateTimeType c); [|by intros [= <- <-]; split; [reflexivity|]]]].
  - unfold createStringLabel_. destruct (getPropValueTable prop m) as [pv|]; [|apply Hall; by left].
    intros HE. pose proof HE as (l & El & _)%bind_Ret_inv. revert HE. apply Hall. right. rewrite El. by eexists.
  - apply Hall. unfold createNumericRangeLabel_, createRangeLabel_, createNumericLabel_.
    destruct (checkLabelParam paths) as [[]|]; [| |by left]; (destruct (createPropertyTable prop); [|by left]);
      (destruct (convert_paths _ _); [right; by eexists|by left]).
  - unfold createDateLabel_. intros HE. pose proof HE as (l & El & _)%bind_Ret_inv. revert HE. apply Hall. rewrite El. cbn [res_bind].
    destruct l; [|by left]. destruct (getDateGroupTable prop m); [right; by eexists|by left].
Qed.

(** The map from names to counters: [names] are the properties of the counters. *)
Definition names_ok (names : list string) (counterMap : list (string * Z)) (counters : list (group_counter T)) : Prop :=
  NoDup names /\ length names = length counters /\ om_sorted counterMap /\
  forall name i, om_find counterMap name = Some i <-> 0 <= i /\ names !! Z.to_nat i = Some name.

Lemma names_snoc names cm cs name c : names_ok names cm cs -> om_find cm name = None ->
  names_ok (names ++ [name]) (om_set cm name (vsize cs)) (cs ++ [c]).
Proof.
  intros (Hnd & Hlen & Hs & Hf) Hn. assert (name ∉ names) as Hnin.
  { intros [i Hi]%list_elem_of_lookup_1. pose proof (proj2 (Hf name (Z.of_nat i))) as Hi'.
    rewrite Nat2Z.id in Hi'. specialize (Hi' ltac:(split; [lia|done])). congruence. }
  split; [|split; [|split; [by apply om_set_sorted|]]].
  - apply NoDup_app. split; [done|]. split; [by intros x Hx ->%list_elem_of_singleton|apply NoDup_singleton].
  - rewrite !length_app, Hlen. done.
  - intros x i. destruct (decide (x = name)) as [->|Hne].
    + rewrite om_find_set_eq. split.
      * intros [= <-]. pose proof (vsize_nonneg cs). split; [done|]. apply list_lookup_middle. unfold vsize. lia.
      * intros [Hi Hl]. apply lookup_app_Some in Hl as [Hl|[Hl H1]]; [by apply list_elem_of_lookup_2 in Hl|].
        apply lookup_lt_Some in H1. cbn in H1. f_equal. unfold vsize. lia.
    + rewrite om_find_set_ne by done. rewrite Hf. split; intros [Hi Hl]; (split; [done|]).
      * by apply lookup_app_l_Some.
      * apply lookup_app_Some in Hl as [Hl|[Hl H1]]; [done|]. exfalso. apply list_lookup_singleton_Some in H1 as [_ ?]. congruence.
Qed.

Lemma init_counters_ok m props : forall names cm cs locks cm' cs' locks',
  names_ok names cm cs -> (forall c, c ∈ cs -> counter_locks c ⊆ locks) ->
  init_counters groupConfigMap_ createPropertyTable m props cm cs locks = (Some (cm', cs'), locks') ->
  exists names', names_ok names' cm' cs' /\ (forall n, n ∈ names' <-> n ∈ names \/ n ∈ map property_ props) /\
    locks_grow locks locks' /\ forall c, c ∈ cs' -> counter_locks c ⊆ locks'.
Proof.
  induction props as [|param props IH]; intros names cm cs locks cm' cs' locks' Hn Hl; cbn [init_counters].
  { intros [= <- <- <-]. exists names. split; [done|]. split; [intros n; cbn; rewrite elem_of_nil; tauto|]. split; [reflexivity|done]. }
  destruct (om_find cm (property_ param)) as [i|] eqn:Ef.
  - intros HE. destruct (IH _ _ _ _ _ _ _ Hn Hl HE) as (names' & H1 & H2 & H3). exists names'. split; [done|]. split; [|done].
    assert (property_ param ∈ names) as Hin by (apply Hn in Ef as [_ Ef]; by eapply list_elem_of_lookup_2).
    intros n. rewrite H2. cbn [map]. rewrite elem_of_cons. split; [tauto|]. intros [?|[->|?]]; tauto.
  - pose proof (group_counter_locked groupConfigMap_ m createPropertyTable param locks) as [Hg Hc].
    destruct (createGroupCounter _ _ _ _ _) as [[c|] locks1]; cbn [fst snd] in *; [|done].
    intros HE. apply (IH (names ++ [property_ param])) in HE as (names' & H1 & H2 & H3 & H4).
    + exists names'. split; [done|]. split; [|split; [by etransitivity|done]].
      intros n. rewrite H2. cbn [map]. set_solver.
    + by apply names_snoc.
    + intros x [Hx| ->%list_elem_of_singleton]%elem_of_app; [|by apply Hc]. destruct Hg as [Hg _]. specialize (Hl x Hx). set_solver.
Qed.

Lemma init_labels_ok m cm labels : forall locks r locks',
  init_labels ustring lexical_cast_float groupConfigMap_ createPropertyTable m labels cm locks = Ret (Some r, locks') ->
  map snd r = map (fun l => om_find cm l.1) labels /\ locks_grow locks locks' /\
  forall prop paths, (prop, paths) ∈ labels -> exists l, lock_of prop = Some l /\ l ∈ locks'.
Proof.
  induction labels as [|[prop paths] labels IH]; intros locks r locks'; cbn [init_labels].
  { intros [= <- <-]. split; [done|]. split; [reflexivity|]. by intros ? ? ?%elem_of_nil. }
  intros ([[label|] locks1] & E1 & HE)%bind_Ret_inv; [|done]. apply label_locked in E1 as [Hg1 Hl1].
  apply bind_Ret_inv in HE as ([[l|] locks2] & E2 & [= <- <-]). apply IH in E2 as (H1 & H2 & H3). cbn [fst] in *.
  split; [cbn [map snd]; by rewrite H1|]. split; [by etransitivity|].
  intros p ps [[= -> ->]|Hin]%elem_of_cons; [|by eapply H3]. destruct Hl1 as (lk & El & Hin); [done|]. exists lk. split; [done|].
  by apply H2.
Qed.

Context (groupManager_ : option (GroupManager T)) (attrTable_ : option (AttrTable T)).
Notation createFilter := (createFilter ustring lexical_cast_float groupConfigMap_ groupManager_ createPropertyTable attrTable_).

Definition the_category_table : option (string * PropValueTable T) :=
  match groupManager_ with Some m => option_map (pair kCategoryPropName) (getPropValueTable kCategoryPropName m) | None => None end.

(** The table of categories that the counter of attributes has is the one of the manager. *)
Definition right_categories (c : option (attr_counter T)) : Prop :=
  forall t table sc, c = Some (ScoreCounter t table sc) -> exists m, groupManager_ = Some m /\ getPropValueTable kCategoryPropName m = Some table.

Lemma initAttr_keeps t f locks f' locks' (cat := the_category_table) : initAttr ustring t cat f locks = Ret (f', locks') ->
  groupLabels_ f' = groupLabels_ f /\ groupCounters_ f' = groupCounters_ f /\ groupParam_ f' = groupParam_ f /\
  locks_grow locks locks' /\ AttrLock ∈ locks' /\ attr_locks (attrCounter_ f') ⊆ locks' /\ right_categories (attrCounter_ f').
Proof.
  unfold initAttr. pose proof (insert_lock AttrLock locks) as (H1 & H2 & H3).
  assert (locks_grow locks (insertSharedLock AttrLock locks)) as Hg by (by split).
  assert (forall name table, cat = Some (name, table) -> name = kCategoryPropName /\ exists m, groupManager_ = Some m /\ getPropValueTable kCategoryPropName m = Some table) as Hcat.
  { unfold cat, the_category_table. intros name table. destruct groupManager_ as [m|]; [|done]. destruct (getPropValueTable _ m) as [pv|] eqn:E; [|done].
    cbn. intros [= <- <-]. split; [done|]. by exists m. }
  destruct (isAttrGroup_ _); [destruct cat as [[name table]|]; [destruct (_ && _)|]|];
    intros (labels & _ & [= <- <-])%bind_Ret_inv; cbn [attrCounter_ attr_locks]; try (split_and!; (done || set_solver)).
  destruct (Hcat name table eq_refl) as [-> Hm]. split; [done|]. split; [done|]. split; [done|]. split; [etransitivity; [exact Hg|apply grow_insert]|].
  pose proof (insert_lock (StringLock kCategoryPropName) (insertSharedLock AttrLock locks)) as (G1 & G2 & _).
  split; [by apply G2|]. split; [set_solver|]. by intros ? ? ? [= _ <- _].
Qed.

Lemma refs_NoDup (names : list string) (cm : list (string * Z)) (labels : list (string * list (list string))) :
  (forall name i, om_find cm name = Some i <-> 0 <= i /\ names !! Z.to_nat i = Some name) ->
  NoDup (map fst labels) -> NoDup (omap (fun l => om_find cm l.1) labels).
Proof.
  intros Hf. induction labels as [|[prop paths] labels IH]; [by constructor|]. cbn [map fst]. intros [Hn Hnd]%NoDup_cons.
  cbn. destruct (om_find cm prop) as [i|] eqn:E; [|by apply IH]. apply NoDup_cons. split; [|by apply IH].
  intros ([p ps] & Hin & Ep)%list_elem_of_omap. cbn in Ep. apply Hn. apply Hf in E as [_ E], Ep as [_ Ep].
  rewrite E in Ep. injection Ep as ->. apply list_elem_of_In in Hin. apply (in_map fst) in Hin. by apply list_elem_of_In.
Qed.

(** The filter before the attributes are initialised. *)
Definition group_part (p : GroupParam) locks : res (option (GroupFilter (group_label T) (group_counter T) (AttrLabel T) (attr_counter T)) * PropSharedLockSet) :=
  if isGroupEmpty p then Ret (Some (new_filter p), locks)
  else match groupManager_ with
  | Some m => initGroup ustring lexical_cast_float groupConfigMap_ createPropertyTable m (new_filter p) locks
  | None => Undef
  end.

Lemma group_part_ok p locks f1 locks1 : group_part p locks = Ret (Some f1, locks1) ->
  groupParam_ f1 = p /\ (exists names cm, names_ok names cm (groupCounters_ f1) /\
    (forall name, name ∈ names <-> name ∈ map property_ (groupProps_ p)) /\
    map snd (groupLabels_ f1) = map (fun l => om_find cm l.1) (GroupParam.groupLabels_ p)) /\
  (forall c, c ∈ groupCounters_ f1 -> counter_locks c ⊆ locks1) /\
  (forall prop paths, (prop, paths) ∈ GroupParam.groupLabels_ p -> exists l, lock_of prop = Some l /\ l ∈ locks1) /\
  locks_grow locks locks1 /\ attrCounter_ f1 = None.
Proof.
  intros E1. assert (names_ok [] [] ([] : list (group_counter T))) as H0.
  { split; [constructor|]. split; [done|]. split; [constructor|]. intros name i. cbn. rewrite lookup_nil. split; [done|]. by intros [_ ?]. }
  unfold group_part in E1. destruct (isGroupEmpty p) eqn:Ee.
  - injection E1 as <- <-. unfold isGroupEmpty in Ee. destruct (groupProps_ p) eqn:Ep; [|done]. destruct (GroupParam.groupLabels_ p) eqn:El; [|done].
    cbn. split; [done|]. split; [exists [], []; by split_and!|]. split; [by intros c ?%elem_of_nil|]. split; [by intros ? ? ?%elem_of_nil|]. by split.
  - destruct groupManager_ as [m|]; [|done]. unfold initGroup in E1. cbn [groupParam_ new_filter] in E1.
    destruct (init_counters _ _ _ _ _ _ _) as [[[cm cs]|] locks2] eqn:Ei; [|done].
    apply (init_counters_ok m _ []) in Ei as (names & Hn & Hnames & Hg1 & Hc); [|done|by intros c ?%elem_of_nil].
    apply bind_Ret_inv in E1 as ([[labels|] locks3] & El & [= <- <-]). apply init_labels_ok in El as (H1 & H2 & H3).
    cbn [groupParam_ groupCounters_ groupLabels_]. split; [done|]. split.
    { exists names, cm. split; [done|]. split; [|done]. intros name. rewrite Hnames, elem_of_nil. tauto. }
    split; [|split; [done|split; [by etransitivity|done]]]. intros c Hin. specialize (Hc c Hin). destruct H2 as [H2 _]. set_solver.
Qed.

(** C35: a filter that is created is well formed. It has one counter for each
    distinct property of the request and one label for each selected property;
    a label refers to the counter of its own property, if there is one, so that
    no two labels share a counter; every table that its counters, labels and
    attributes read is locked, that of the categories included when attributes
    are counted by score, no lock is given up, and none is taken twice. *)
Theorem created_filter_ok p locks f locks' :
  om_sorted (GroupParam.groupLabels_ p) -> createFilter p locks = Ret (Some f, locks') ->
  groupParam_ f = p /\
  (exists names, NoDup names /\ length names = length (groupCounters_ f) /\
    (forall name, name ∈ names <-> name ∈ map property_ (groupProps_ p)) /\
    Forall2 (fun (l : group_label T * option Z) labelParam => forall i, l.2 = Some i <-> 0 <= i /\ names !! Z.to_nat i = Some labelParam.1)
      (groupLabels_ f) (GroupParam.groupLabels_ p)) /\
  NoDup (omap snd (groupLabels_ f)) /\
  (forall c, c ∈ groupCounters_ f -> counter_locks c ⊆ locks') /\
  (forall prop paths, (prop, paths) ∈ GroupParam.groupLabels_ p -> exists l, lock_of prop = Some l /\ l ∈ locks') /\
  (isAttrEmpty p = false -> AttrLock ∈ locks') /\ attr_locks (attrCounter_ f) ⊆ locks' /\ right_categories (attrCounter_ f) /\
  locks ⊆ locks' /\ (NoDup locks -> NoDup locks').
Proof.
  intros Hs. unfold createFilter. destruct (isEmpty p); [done|]. intros ([[f1|] locks1] & E1 & HE)%bind_Ret_inv; [|done].
  apply group_part_ok in E1 as (HP & (names & cm & Hn & Hnames & Hrefs) & Hc & Hl & Hg & Hnone).
  assert (groupParam_ f = p /\ groupLabels_ f = groupLabels_ f1 /\ groupCounters_ f = groupCounters_ f1 /\ locks_grow locks1 locks' /\
    (isAttrEmpty p = false -> AttrLock ∈ locks') /\ attr_locks (attrCounter_ f) ⊆ locks' /\ right_categories (attrCounter_ f)) as (-> & -> & -> & Hg2 & Ha & Hal & Hrc).
  { destruct (isAttrEmpty p); [injection HE as <- <-; rewrite Hnone; split_and!; (done || apply list_subseteq_nil)|]. destruct attrTable_ as [t|]; [|done].
    apply bind_Ret_inv in HE as ([f2 locks2] & E2 & [= <- <-]). apply initAttr_keeps in E2 as (H1 & H2 & H3 & H4 & H5 & H6 & H7).
    split; [congruence|]. by split_and!. }
  pose proof Hn as (Hnd & Hlen & _ & Hf). split; [done|]. split.
  { exists names. split; [done|]. split; [done|]. split; [done|].
    apply Forall2_same_length_lookup_2; [by rewrite <- (length_map snd), Hrefs, length_map|].
    intros k l lp Hk Hk'. assert (map snd (groupLabels_ f1) !! k = Some (om_find cm lp.1)) as E.
    { rewrite Hrefs. change (((fun l => om_find cm l.1) <$> GroupParam.groupLabels_ p) !! k = Some (om_find cm lp.1)). by rewrite list_lookup_fmap, Hk'. }
    change ((snd <$> groupLabels_ f1) !! k = Some (om_find cm lp.1)) in E. rewrite list_lookup_fmap, Hk in E. injection E as ->. intros i. apply Hf. }
  split.
  { assert (omap snd (groupLabels_ f1) = omap (fun l => om_find cm l.1) (GroupParam.groupLabels_ p)) as ->.
    { clear -Hrefs. revert Hrefs. generalize (GroupParam.groupLabels_ p). induction (groupLabels_ f1) as [|l ls IH]; intros [|x xs]; try done.
      cbn [map]. intros [= E1 E2]. cbn. rewrite E1, (IH xs E2). done. }
    apply (refs_NoDup names); [done|]. unfold om_sorted in Hs. clear -Hs.
    induction Hs as [|x l _ IH Hx]; constructor; [|done]. intros Hin. rewrite Forall_forall in Hx. by apply Hx, tlt_irrefl in Hin. }
  destruct Hg as [Hg1 Hg1'], Hg2 as [Hg2 Hg2']. split; [intros c Hin; specialize (Hc c Hin); set_solver|].
  split; [intros prop paths Hin; destruct (Hl _ _ Hin) as (l & El & Hin'); exists l; split; [done|set_solver]|].
  split; [done|]. split; [done|]. split; [done|]. split; [set_solver|auto].
Qed.

(** *** Checked parameters *)

(** What opening the tables of the configured properties provides. *)
Definition tables_open (m : GroupManager T) : Prop := forall prop c, om_find groupConfigMap_ prop = Some c ->
  isStringType c || isNumericType c || isDateTimeType c = true /\
  (isStringType c = true -> exists pv, getPropValueTable prop m = Some pv /\ PropValueTable.tree_ok pv) /\
  (isNumericType c = true -> exists t, createPropertyTable prop = Some t) /\
  (isDateTimeType c = true -> exists t, getDateGroupTable prop m = Some t).

(** The texts of a label of a numeric property are numbers, or ranges. *)
Definition numbers_ok (paths : list (list string)) : Prop :=
  match checkLabelParam paths with
  | None => False
  | Some true => convert_paths (convertRangeLabel lexical_cast_float) paths <> None
  | Some false => convert_paths (convertNumericLabel lexical_cast_float) paths <> None
  end.

Lemma and_check_none a b : and_check a b = None <-> a = None /\ b = None.
Proof. destruct a; cbn; [split; [done|by intros [? ?]]|tauto]. Qed.

Lemma fail_if_none b s : fail_if b s = None <-> b = false.
Proof. by destruct b. Qed.

Lemma first_error_none {A} (check : A -> option string) l : first_error check l = None <-> forall a, a ∈ l -> check a = None.
Proof.
  induction l as [|a l IH]; cbn [first_error]; [split; [by intros _ ? ?%elem_of_nil|done]|].
  rewrite and_check_none, IH. setoid_rewrite elem_of_cons. split; [by intros [H1 H2] x [->|Hx]; auto|]. intros Hx. split; [apply Hx; by left|]. intros; apply Hx; by right.
Qed.

Lemma check_prop_ok param : checkGroupPropParam param groupConfigMap_ = None ->
  exists c, om_find groupConfigMap_ (property_ param) = Some c /\
    (subProperty_ param = ""%string \/ exists c', om_find groupConfigMap_ (subProperty_ param) = Some c' /\ isDateTimeType c' = false) /\
    (isRange_ param = true -> isNumericType c = true) /\
    (isDateTimeType c = true -> exists mask, unitStrToMask (unit_ param) = inr mask).
Proof.
  unfold checkGroupPropParam. destruct (String.eqb (property_ param) ""); [done|].
  destruct (om_find groupConfigMap_ (property_ param)) as [c|]; [|done].
  rewrite !and_check_none. intros (Hsub & Hrange & _ & Hdate). exists c. split; [done|]. split; [|split].
  - destruct (String.eqb_spec (subProperty_ param) ""); [by left|]. right.
    destruct (om_find groupConfigMap_ (subProperty_ param)) as [c'|]; [|done]. exists c'. split; [done|].
    by apply and_check_none in Hsub as [_ ?%fail_if_none].
  - intros Hr. rewrite Hr in Hrange. apply and_check_none in Hrange as [_ Hn%fail_if_none]. by apply negb_false_iff.
  - intros Hd. rewrite Hd in Hdate. destruct (String.eqb (unit_ param) ""); [done|]. destruct (unitStrToMask (unit_ param)) as [|mask]; [done|by exists mask].
Qed.

Lemma value_counter_created m param sub locks c : tables_open m ->
  om_find groupConfigMap_ (property_ param) = Some c ->
  (isDateTimeType c = true -> exists mask, unitStrToMask (unit_ param) = inr mask) ->
  exists g locks', createValueCounter_ groupConfigMap_ m createPropertyTable param sub locks = (Some g, locks').
Proof.
  intros Hm Hc Hd. unfold createValueCounter_. rewrite Hc. destruct (Hm _ _ Hc) as (Hk & H1 & H2 & H3).
  destruct (isStringType c); [|destruct (isNumericType c); [|destruct (isDateTimeType c); [|done]]].
  - destruct H1 as (pv & E & _); [done|]. unfold createStringCounter_. rewrite E. by eexists _, _.
  - destruct H2 as (t & E); [done|]. unfold createNumericCounter_. rewrite E. by eexists _, _.
  - destruct H3 as (t & E); [done|]. destruct Hd as [mask Em]; [done|]. unfold createDateCounter_. rewrite Em, E. by eexists _, _.
Qed.

Lemma group_counter_created m param locks : tables_open m -> checkGroupPropParam param groupConfigMap_ = None ->
  exists g locks', createGroupCounter groupConfigMap_ m createPropertyTable param locks = (Some g, locks').
Proof.
  intros Hm (c & Hc & Hsub & Hr & Hd)%check_prop_ok. unfold createGroupCounter. destruct (isRange_ param).
  - destruct (Hm _ _ Hc) as (_ & _ & H2 & _). destruct H2 as (t & E); [by apply Hr|].
    unfold createNumericRangeCounter_. rewrite Hc, Hr, E by done. by eexists _, _.
  - destruct (String.eqb _ _); [by eapply value_counter_created|].
    destruct (createValueCounter_ _ _ _ _ None _) as [sub locks1]. by eapply value_counter_created.
Qed.

Lemma init_counters_created m props : tables_open m -> (forall param, param ∈ props -> checkGroupPropParam param groupConfigMap_ = None) ->
  forall cm cs locks, exists cm' cs' locks', init_counters groupConfigMap_ createPropertyTable m props cm cs locks = (Some (cm', cs'), locks').
Proof.
  intros Hm. induction props as [|param props IH]; intros Hc cm cs locks; cbn [init_counters]; [by eexists _, _, _|].
  assert (forall param, param ∈ props -> checkGroupPropParam param groupConfigMap_ = None) as Hc' by (intros; apply Hc; by right).
  destruct (om_find cm _); [by apply IH|].
  destruct (group_counter_created m param locks Hm) as (g & locks' & ->); [apply Hc; by left|]. by apply IH.
Qed.

Lemma date_masks_created paths : checkDateLabel paths = Ret None -> exists l, date_masks paths = Ret (Some l).
Proof.
  induction paths as [|[|front path] paths IH]; cbn; [by exists []|done|].
  intros ([|mask] & -> & HE)%bind_Ret_inv; [done|]. cbn [res_bind]. destruct IH as [l ->]; [done|]. by exists (mask :: l).
Qed.

Lemma target_ids_created pv paths : PropValueTable.tree_ok pv -> exists ids, getTargetValueIds_ ustring paths pv = Ret ids.
Proof.
  intros Hpv. unfold getTargetValueIds_. destruct (mfold_rule (fun path ids =>
    let* targetId := PropValueTable.propValueId (map ustring path) pv in Ret (ids ++ [targetId])) (fun _ _ => True) paths []) as (ids & E & _); [|done|by exists ids].
  intros path l ids _. pose proof Hpv as (Hn & _). destruct (PropValueTable.find_path_total (map ustring path) pv 0 Hpv) as (id & E & _); [lia|].
  unfold PropValueTable.propValueId. rewrite E. by eexists.
Qed.

Lemma group_label_created m labelParam locks c : tables_open m ->
  om_find groupConfigMap_ labelParam.1 = Some c ->
  (isDateTimeType c = true -> checkDateLabel labelParam.2 = Ret None) -> (isNumericType c = true -> numbers_ok labelParam.2) ->
  exists l locks', createGroupLabel ustring lexical_cast_float groupConfigMap_ m createPropertyTable labelParam locks = Ret (Some l, locks').
Proof.
  destruct labelParam as [prop paths]. cbn [fst snd]. intros Hm Hc Hd Hn. unfold createGroupLabel. rewrite Hc.
  destruct (Hm _ _ Hc) as (Hk & H1 & H2 & H3).
  destruct (isStringType c); [|destruct (isNumericType c); [|destruct (isDateTimeType c); [|done]]].
  - destruct H1 as (pv & E & Hpv); [done|]. unfold createStringLabel_. rewrite E. unfold new_string_label.
    destruct (target_ids_created pv paths Hpv) as [ids ->]. by eexists _, _.
  - destruct H2 as (t & E); [done|]. specialize (Hn eq_refl). unfold numbers_ok in Hn. unfold createNumericRangeLabel_.
    destruct (checkLabelParam paths) as [[]|]; [| |done]; unfold createRangeLabel_, createNumericLabel_; rewrite E;
      (destruct (convert_paths _ _); [by eexists _, _|done]).
  - destruct H3 as (t & E); [done|]. unfold createDateLabel_. destruct (date_masks_created paths (Hd eq_refl)) as [l ->].
    cbn [res_bind]. rewrite E. by eexists _, _.
Qed.

Lemma init_labels_created m cm labels : tables_open m ->
  check_labels groupConfigMap_ labels = Ret None ->
  (forall prop paths c, (prop, paths) ∈ labels -> om_find groupConfigMap_ prop = Some c -> isNumericType c = true -> numbers_ok paths) ->
  forall locks, exists r locks', init_labels ustring lexical_cast_float groupConfigMap_ createPropertyTable m labels cm locks = Ret (Some r, locks').
Proof.
  intros Hm. induction labels as [|[prop paths] labels IH]; intros Hc Hn locks; cbn [init_labels]; [by eexists _, _|].
  cbn [check_labels] in Hc. destruct (om_find groupConfigMap_ prop) as [c|] eqn:Ec; [|done].
  apply bind_Ret_inv in Hc as ([|] & Hd & Hc); [done|].
  destruct (group_label_created m (prop, paths) locks c Hm Ec) as (l & locks1 & ->).
  - intros Hdate. by rewrite Hdate in Hd.
  - intros Hnum. apply (Hn prop paths c); [by left|done|done].
  - cbn [res_bind]. destruct (IH Hc) with (locks := locks1) as (r & locks2 & ->); [intros; eapply Hn; [by right|done|done]|].
    by eexists _, _.
Qed.

Lemma attr_labels_created t labels : AttrTable.attr_ok t ->
  exists r, each (fun l : string * list string => new_attr_label ustring t l.1 l.2) labels = Ret r.
Proof.
  intros Ht. induction labels as [|[name values] labels [r IH]]; cbn [each fst snd]; [by eexists|].
  assert (exists l, new_attr_label ustring t name values = Ret l) as [l E]; [|rewrite E; cbn [res_bind]; rewrite IH; by eexists].
  unfold new_attr_label, attr_target_ids. set (nId := AttrTable.nameId (ustring name) t).
  destruct (mfold_rule (fun value ids => let* targetId := AttrTable.valueId nId (ustring value) t in Ret ({[targetId]} ∪ ids)) (fun _ _ => True) values (∅ : gset Z)) as (ids & -> & _); [|done|].
  - intros v l ids _. destruct (AttrTable.valueId_ok t nId (ustring v) Ht (AttrTable.nameId_range _ _ Ht)) as (x & -> & _). by eexists.
  - by eexists.
Qed.

(** Parameters that pass the validation give a filter. If the parameters of
    a request pass [checkParam] and are not empty, the tables of all configured
    properties are open, the attribute table too when attributes are enabled,
    and the values selected of numeric properties are numbers or ranges - which
    the validation does not look at - then [createFilter] does not fail. *)
Theorem checked_filter_created p schema locks :
  group_config_map schema = groupConfigMap_ -> checkParam p schema = Ret None -> isEmpty p = false ->
  (group_enable schema = true -> exists m, groupManager_ = Some m /\ tables_open m) ->
  (attr_enable schema = true -> exists t, attrTable_ = Some t /\ AttrTable.attr_ok t) ->
  (forall prop paths c, (prop, paths) ∈ GroupParam.groupLabels_ p -> om_find groupConfigMap_ prop = Some c ->
     isNumericType c = true -> numbers_ok paths) ->
  exists f locks', createFilter p locks = Ret (Some f, locks').
Proof.
  intros Hschema (r & Hg & HE)%bind_Ret_inv He Hm Ha Hnum. injection HE as [-> Hattr]%and_check_none. unfold createFilter. rewrite He.
  assert (exists f1 locks1, group_part p locks = Ret (Some f1, locks1)) as (f1 & locks1 & E1).
  { unfold group_part. unfold checkGroupParam_ in Hg. destruct (isGroupEmpty p); [by eexists _, _|].
    destruct (group_enable schema); [|done]. cbn [negb] in Hg. destruct Hm as (m & -> & Hm); [done|]. rewrite Hschema in Hg.
    destruct (checkGroupProps_ p groupConfigMap_) eqn:Hp; [done|]. apply bind_Ret_inv in Hg as (r & Hl & [= [-> _]%and_check_none]).
    unfold initGroup. cbn [groupParam_ new_filter].
    destruct (init_counters_created m (groupProps_ p) Hm) with (cm := @nil (string * Z)) (cs := @nil (group_counter T)) (locks := locks)
      as (cm & cs & locks2 & ->).
    { unfold checkGroupProps_ in Hp. rewrite first_error_none in Hp. intros param Hin. specialize (Hp param Hin). by apply and_check_none in Hp as [? _]. }
    destruct (init_labels_created m cm (GroupParam.groupLabels_ p) Hm Hl Hnum locks2) as (labels & locks3 & ->). by eexists _, _. }
  change (exists f locks', (let* (f, locks) := group_part p locks in
    match f with
    | None => Ret (None, locks)
    | Some f =>
        if isAttrEmpty p then Ret (Some f, locks)
        else match attrTable_ with
        | None => Ret (None, locks)
        | Some attrTable =>
            let categoryTable := match groupManager_ with Some m => option_map (pair kCategoryPropName) (getPropValueTable kCategoryPropName m) | None => None end in
            let* (f, locks) := initAttr ustring attrTable categoryTable f locks in Ret (Some f, locks)
        end
    end) = Ret (Some f, locks')).
  rewrite E1. cbn [res_bind]. unfold checkAttrParam_ in Hattr. destruct (isAttrEmpty p); [by eexists _, _|].
  apply fail_if_none, negb_false_iff in Hattr. destruct (Ha Hattr) as (t & -> & Ht). cbv zeta. unfold initAttr.
  destruct (attr_labels_created t (GroupParam.attrLabels_ (groupParam_ f1)) Ht) as [labels Ea]. rewrite Ea.
  match goal with |- context [let (_, _) := ?x in _] => destruct x as [c l] end. by eexists _, _.
Qed.
End FilterProofs.

(** ** Examples *)

(** A string property with the values of [two_values], a numeric one and a
    date; document 1 has both values of the string property, costs 5 and is of
    2012-07-04. *)
#[local] Open Scope string_scope.

Definition ex_config : GroupConfigMap :=
  [("brand", new_config STRING_PROPERTY_TYPE); ("day", new_config DATETIME_PROPERTY_TYPE); ("price", new_config FLOAT_PROPERTY_TYPE)].
Definition ex_manager : GroupManager Z := Manager [("brand", two_values)] [("day", one_date_table)].
Definition ex_price (doc : Z) : option spec_float := if (doc =? 1)%Z then Some (dbl 5 0) else None.
Definition ex_numeric (prop : string) : option NumericPropertyTable :=
  if String.eqb prop "price" then Some (NumericTable (fun doc => if (doc =? 1)%Z then Some 5%Z else None) ex_price ex_price) else None.
Definition ex_cast (s : string) : option spec_float := if String.eqb s "5" then Some (dbl 5 0) else if String.eqb s "4" then Some (dbl 4 0) else None.
Definition ex_text (s : string) : Z := match s with "a" => 4 | "b" => 5 | _ => 9 end%Z.

#[local] Instance inhabited_score : Inhabited (Z * spec_float) := populate (0%Z, d0).
#[local] Instance ex_counters : GroupCounter Z (group_counter Z) := group_counter_ops ex_text.
#[local] Instance ex_attrs : AttrCounting Z (attr_counter Z) :=
  attr_counter_ops (fun _ => "") (fun _ _ => d0) (fun _ _ _ => d0) (Q := heap (Z * spec_float)).

(** The brand a > b and the price are selected; all three properties and the
    attributes are counted. *)
Definition ex_param : GroupParam :=
  Param [PropParam "brand" "" false "" 0; PropParam "day" "brand" false "M" 0; PropParam "brand" "price" false "" 0]
    [("brand", [["a"; "b"]]); ("price", [["-4"]])] [] [] true 0 0 [("size", ["x"])] 0 false.

Notation ex_create := (createFilter ex_text ex_cast ex_config (Some ex_manager) ex_numeric (Some AttrTable.opened_table)).

Example ex_check : checkParam ex_param (Schema true ex_config true) = Ret None.
Proof. vm_compute. reflexivity. Qed.

(** The label of the brand refers to the first counter, the one of the price to
    none. The upper bound 4 excludes document 1. *)
Example ex_created :
  (let* (f, locks) := ex_create ex_param [] in
   match f with
   | Some f =>
       let* (r, f) := test (T := Z) 1 f in
       Ret (map snd (groupLabels_ f), length (groupCounters_ f), length (attrLabels_ f), locks, r)
   | None => Undef
   end) = Ret ([Some 0%Z; None], 2%nat, 1%nat,
     [StringLock "brand"; DateLock "day"; NumericLock "price"; AttrLock], false).
Proof. vm_compute. reflexivity. Qed.

Lemma ex_labels_sorted : om_sorted (GroupParam.groupLabels_ ex_param).
Proof. apply om_sorted_cons. split; [repeat constructor|]. apply om_sorted_cons. split; constructor. Qed.

Lemma ex_config_sorted : om_sorted ex_config.
Proof. repeat (apply om_sorted_cons; split; [repeat constructor|]). constructor. Qed.

Lemma created_filter_ok_witness :
  exists f locks', ex_create ex_param [] = Ret (Some f, locks') /\ NoDup (omap snd (groupLabels_ f)) /\ NoDup locks'.
Proof.
  assert (exists f l, ex_create ex_param [] = Ret (Some f, l)) as (f & l & E) by (vm_compute; by eexists _, _).
  exists f, l. split; [exact E|].
  destruct (created_filter_ok ex_text ex_cast ex_config ex_numeric (Some ex_manager) (Some AttrTable.opened_table) ex_param [] f l ex_labels_sorted E)
    as (_ & _ & H1 & _ & _ & _ & _ & _ & _ & H2).
  split; [exact H1|]. apply H2. constructor.
Defined.

Lemma ex_tables_open : tables_open ex_config ex_numeric ex_manager.
Proof.
  intros prop c Hc. apply om_find_elem in Hc; [|apply ex_config_sorted]. unfold ex_config in Hc. rewrite !elem_of_cons, elem_of_nil in Hc.
  destruct Hc as [[= -> ->]|[[= -> ->]|[[= -> ->]|[]]]]; (split; [done|]); split_and!; try done; intros _.
  - exists two_values. split; [done|apply two_values_ok].
  - by exists one_date_table.
  - by eexists.
Qed.

Lemma checked_filter_created_witness :
  exists f locks', ex_create ex_param [] = Ret (Some f, locks').
Proof.
  apply (checked_filter_created ex_text ex_cast ex_config ex_numeric (Some ex_manager) (Some AttrTable.opened_table) ex_param (Schema true ex_config true) []).
  - reflexivity.
  - vm_compute. reflexivity.
  - reflexivity.
  - intros _. exists ex_manager. split; [reflexivity|apply ex_tables_open].
  - intros _. exists AttrTable.opened_table. split; [reflexivity|apply AttrTable.opened_table_ok].
  - intros prop paths c Hin Hc Hnum. cbn [GroupParam.groupLabels_ ex_param] in Hin. rewrite !elem_of_cons, elem_of_nil in Hin.
    destruct Hin as [[= -> ->]|[[= -> ->]|[]]].
    + vm_compute in Hc. injection Hc as <-. discriminate Hnum.
    + vm_compute. discriminate.
Defined.

(** The price is selected; the prices and the brands are counted. Document 2
    has no price: it is shown to the counter of the price only. *)
Definition ex_table : NumericPropertyTable := NumericTable (fun _ => None) ex_price ex_price.
Definition ex_filter : GroupFilter (group_label Z) (group_counter Z) (AttrLabel Z) (attr_counter Z) :=
  Filter ex_param [(LNumeric (RangeLab ex_table [(dbl 4 0, FLT_MAX)]), Some 0%Z)]
    [CValue (CNumeric (NumericCounter "price" ex_price [] 0%Z)); CValue (CString (new_string_counter "brand" two_values 0%Z))] [] None.

Definition ex_counted : list (group_counter Z) :=
  [CValue (CNumeric (NumericCounter "price" ex_price [(dbl 5 0, 1%Z)] 0%Z)); CValue (CString (StringCounter "brand" two_values [1; 0; 1; 1]%Z))].

Definition ex_pass (l : group_label Z) (d : Z) : bool :=
  match l with LNumeric l => numeric_label_test d l | _ => false end.

Lemma filter_counts_witness :
  filter_docs (T := Z) [1; 2]%Z ex_filter = Ret ([true; false], Filter ex_param (groupLabels_ ex_filter) ex_counted [] None).
Proof.
  apply (filter_counts (T := Z) (groupLabels_ ex_filter) [] ex_pass (fun _ _ => true)).
  - intros l d Hl _. cbn in Hl. apply list_elem_of_singleton in Hl. by rewrite Hl.
  - by intros b d ?%elem_of_nil.
  - apply NoDup_singleton.
  - intros d. rewrite !elem_of_cons, elem_of_nil. lia.
  - reflexivity.
  - reflexivity.
  - intros l i Hl Hi. cbn in Hl. apply list_elem_of_singleton in Hl. rewrite Hl in Hi. injection Hi as <-. by vm_compute.
  - reflexivity.
  - intros [|[|i]] c Hc; [| |done]; injection Hc as <-; eexists; (split; [reflexivity|]); vm_compute; reflexivity.
  - exact I.
Defined.
