(* ===== verification/GroupMining.v ===== *)
(** * Building the indexes of group properties

Models mining-manager/group-manager/GroupMiningTask.h: the task that splits the
text of a group property of each new document into paths of values, or dates,
and writes them to a copy of the property's table, which replaces the table at
the end. The template over the table is a class of the table's operations.
The document, its text and the conversion of texts to UTF-8 are parameters;
the locks of the table's operations make each of them one step. *)
From S2P Require Import Prelude OrdMap Storage PropIdTable SplitUstr DateFormat DateTable GroupParam GroupLabels MiningTask.
From S2P Require PropValueTable.
Import PropValueTable (PropValueTable, ValueTable, insert_node, setPropIdList, valueIdTable_, tree_ok, extends, path_to, value_num).

(** What the task uses of [TableType]; [F] is the state of its files. *)
Class MiningTable (A F : Type) := {
  mining_swap :: SwapTable A;
  table_docIdNum : A -> Z;
  table_flush : A -> F -> bool * A * F;
  buildDoc_ : Z -> ustr -> A -> res A
}.

Record GroupMiningTask (A F : Type) := GroupTask {
  swapper_ : TableSwapper A;
  startDocId_ : Z;
  files_ : F
}.
Arguments GroupTask {_ _} _ _ _.
Arguments swapper_ {_ _} _.
Arguments startDocId_ {_ _} _.
Arguments files_ {_ _} _.

Section GroupMiningTask.
Context {A F D : Type} `{!MiningTable A F}.
Context (maxDocId : Z) (groupConfigMap_ : GroupConfigMap) (propName_ : string) (propValue : D -> ustr).
Implicit Types s : GroupMiningTask A F.

Definition new_group_task (propValueTable : A) (files : F) : GroupMiningTask A F :=
  GroupTask (new_swapper propValueTable) 0 files.

Definition isRebuildProp_ : bool :=
  match om_find groupConfigMap_ propName_ with Some c => isRebuild c | None => false end.

Definition group_buildDocument (docID : Z) (doc : D) s : res (bool * GroupMiningTask A F) :=
  let* w := buildDoc_ docID (propValue doc) (writer (swapper_ s)) in
  Ret (true, GroupTask (Swapper (reader (swapper_ s)) w) (startDocId_ s) (files_ s)).

Definition group_preProcess (timestamp : Z) s : res (bool * GroupMiningTask A F) :=
  let isRebuild := isRebuildProp_ in
  let startDocId := if isRebuild then 1 else u32 (table_docIdNum (reader (swapper_ s))) in
  let endDocId := maxDocId in
  if endDocId <? startDocId then Ret (false, GroupTask (swapper_ s) startDocId (files_ s))
  else
    let newSize := u32 (endDocId + 1) in
    let swapper :=
      (if isRebuild then
         Swapper (reader (swapper_ s)) (table_resize newSize (table_assign (writer (swapper_ s)) new_table))
       else swapper_copy newSize (swapper_ s)) in
    Ret (true, GroupTask swapper startDocId (files_ s)).

Definition group_postProcess s : res (bool * GroupMiningTask A F) :=
  let '(ok, w, files) := table_flush (writer (swapper_ s)) (files_ s) in
  let swapper := Swapper (reader (swapper_ s)) w in
  if negb ok then Ret (false, GroupTask swapper (startDocId_ s) files)
  else Ret (true, GroupTask (swapper_swap swapper) (startDocId_ s) files).

#[export] Instance group_mining : MiningTask D (GroupMiningTask A F) := {|
  preProcess := group_preProcess;
  buildDocument := group_buildDocument;
  postProcess := group_postProcess;
  getLastDocId := startDocId_
|}.

#[export] Instance group_mining_laws : MiningTaskLaws D (GroupMiningTask A F).
Proof. constructor. intros d doc s r s' (w & _ & [= _ <-])%bind_Ret_inv. done. Qed.
End GroupMiningTask.

(** ** buildDoc_ of the table of dates *)
Section DateTask.
Context `{!BoostText} (to_utf8 : ustr -> string).

(** A date that cannot be parsed is skipped, as is an exception at the end. *)
Definition date_buildDoc (docId : Z) (propValue : ustr) (compact : ustr -> ustr) (t : DateGroupTable) : res DateGroupTable :=
  let* groupPaths := split_group_path compact propValue [] in
  let* dateSet := mfold (fun path dateSet =>
    match path with
    | [] => Ret dateSet
    | front :: _ =>
        let* r := scdStrToDate (to_utf8 front) in
        Ret (match r with inr dateValue => sinsert dateValue dateSet | inl _ => dateSet end)
    end) groupPaths [] in
  let* (t, _) := setDateSet docId dateSet t in Ret t.
End DateTask.

(** ** buildDoc_ of the table of values *)
Notation values := (PropValueTable ustr).
Implicit Types t : values.

(** [insertPropValueId] with the table an exception leaves: the nodes before
    the one that overflows stay. *)
Fixpoint insert_nodes (path : list ustr) (pvId : Z) t : res (values * option Z) :=
  match path with
  | [] => Ret (t, Some pvId)
  | node :: path =>
      match insert_node node (pvId, t) with
      | Ret (pvId, t) => insert_nodes path pvId t
      | Throw _ => Ret (t, None)
      | Undef => Undef
      | NoFuel => NoFuel
      end
  end.

(** The first [try]: the ids of the paths up to an exception. *)
Fixpoint insert_paths (groupPaths : list (list ustr)) (propIdList : list Z) t : res (values * list Z) :=
  match groupPaths with
  | [] => Ret (t, propIdList)
  | path :: groupPaths =>
      let* (t, pvId) := insert_nodes path 0 t in
      match pvId with
      | Some pvId => insert_paths groupPaths (propIdList ++ [pvId]) t
      | None => Ret (t, propIdList)
      end
  end.

Definition set_value_ids (ids : PropIdTable) t : values :=
  ValueTable (PropValueTable.propStrVec_ t) (PropValueTable.savePropStrNum_ t) (PropValueTable.parentIdVec_ t)
    (PropValueTable.saveParentIdNum_ t) (PropValueTable.childMapTable_ t) ids
    (PropValueTable.saveIndexNum_ t) (PropValueTable.saveValueNum_ t).

(** The second [try]: the index keeps its new length when it throws. *)
Definition set_ids (docId : Z) (propIdList : list Z) t : res values :=
  match setPropIdList docId propIdList t with
  | Ret t => Ret t
  | Throw _ =>
      let ids := valueIdTable_ t in
      Ret (if vsize (indexTable_ ids) <=? docId then set_value_ids (id_resize (u32 (docId + 1)) ids) t else t)
  | Undef => Undef
  | NoFuel => NoFuel
  end.

Definition value_buildDoc (compact : ustr -> ustr) (docId : Z) (propValue : ustr) t : res values :=
  let* groupPaths := split_group_path compact propValue [] in
  let* (t, propIdList) := insert_paths groupPaths [] t in
  set_ids docId propIdList t.

Section Tables.
Context (compact : ustr -> ustr).

#[export] Instance value_swap_table : SwapTable values := {|
  new_table := PropValueTable.new_value_table [];
  table_assign := PropValueTable.value_assign;
  table_resize := PropValueTable.value_resize;
  table_swap := PropValueTable.value_swap
|}.

(** [can_write] tells which files of the table can be written. *)
Context (can_write : bool * bool * bool * bool * bool).

#[export] Instance value_mining : MiningTable values (PropValueTable.table_files ustr) := {|
  mining_swap := value_swap_table;
  table_docIdNum := PropValueTable.value_docIdNum;
  table_flush := PropValueTable.flush can_write;
  buildDoc_ := value_buildDoc compact
|}.

Context `{!BoostText} (to_utf8 : ustr -> string).

#[export] Instance date_swap_table : SwapTable DateGroupTable := {|
  new_table := new_date_table;
  table_assign := fun _ => date_assign;
  table_resize := date_resize;
  table_swap := date_swap
|}.

#[export] Instance date_mining : MiningTable DateGroupTable (file Z * file Z) := {|
  mining_swap := date_swap_table;
  table_docIdNum := date_docIdNum;
  table_flush := fun (t : DateGroupTable) fs =>
    let '(w0, w1, _, _, _) := can_write in
    let '(ok, t, f1, f2) := date_flush w0 w1 fs.1 fs.2 t in (ok, t, (f1, f2));
  buildDoc_ := fun docId propValue => date_buildDoc to_utf8 docId propValue compact
|}.
End Tables.

(** ** What the table of values indexes *)

(** Document [d] has the paths [g d]; its ids are those of the paths. *)
Definition path_id t (path : list ustr) (id : Z) : Prop := path <> [] /\ path_to t 0 path id.

Definition index_rep t (g : Z -> list (list ustr)) : Prop :=
  tree_ok t /\ exists f, table_rep (valueIdTable_ t) f /\ forall d, 0 <= d -> Forall2 (path_id t) (g d) (f d).

(** The number of nodes of some paths. *)
Fixpoint nodes (paths : list (list ustr)) : Z := match paths with [] => 0 | path :: paths => vsize path + nodes paths end.

Lemma nodes_nonneg paths : 0 <= nodes paths.
Proof. induction paths as [|p paths IH]; cbn; [lia|]. pose proof (vsize_nonneg p). lia. Qed.

Lemma nodes_size paths : Forall (.≠ []) paths -> vsize paths <= nodes paths.
Proof.
  induction 1 as [|p paths Hp _ IH]; [done|]. rewrite vsize_cons. cbn. destruct p as [|n p]; [done|].
  rewrite vsize_cons. pose proof (vsize_nonneg p). lia.
Qed.

Lemma path_id_range t path id : tree_ok t -> path_id t path id -> 0 < id < value_num t.
Proof.
  intros Ht [Hne Hp]. destruct path as [|n path _] using rev_ind; [done|].
  apply PropValueTable.path_to_app in Hp as (p & _ & (c & (Hc & _) & ->)). done.
Qed.

Lemma path_ids_extend t t' paths ids : extends t t' -> Forall2 (path_id t) paths ids -> Forall2 (path_id t') paths ids.
Proof.
  intros He H. eapply Forall2_impl; [exact H|]. intros path id [Hne Hp]. split; [done|]. by eapply PropValueTable.path_extends.
Qed.

(** Paths depend on the strings and the parents only. *)
Lemma path_id_same t t' : PropValueTable.propStrVec_ t' = PropValueTable.propStrVec_ t ->
  PropValueTable.parentIdVec_ t' = PropValueTable.parentIdVec_ t -> forall path id, path_id t path id -> path_id t' path id.
Proof.
  intros Es Ep path id [Hne H]. split; [done|]. revert H. clear Hne. generalize 0. revert id.
  induction path as [|s path IH]; intros id p; [done|]. intros (c & Hc & H). exists c. split; [|by apply IH].
  unfold PropValueTable.edge, value_num in *. by rewrite Es, Ep.
Qed.

Lemma path_ids_same t t' paths ids : PropValueTable.propStrVec_ t' = PropValueTable.propStrVec_ t ->
  PropValueTable.parentIdVec_ t' = PropValueTable.parentIdVec_ t ->
  Forall2 (path_id t) paths ids -> Forall2 (path_id t') paths ids.
Proof. intros Es Ep H. eapply Forall2_impl; [exact H|]. by apply path_id_same. Qed.

(** The counts of saved elements do not matter. *)
Lemma index_same t t' g : PropValueTable.propStrVec_ t' = PropValueTable.propStrVec_ t ->
  PropValueTable.parentIdVec_ t' = PropValueTable.parentIdVec_ t -> PropValueTable.childMapTable_ t' = PropValueTable.childMapTable_ t ->
  table_rep (valueIdTable_ t') = table_rep (valueIdTable_ t) -> index_rep t g -> index_rep t' g.
Proof.
  intros Es Ep Ec Ei (Ht & f & Hf & Hg). split.
  - unfold tree_ok, value_num in *. by rewrite Es, Ep, Ec.
  - exists f. rewrite Ei. split; [done|]. intros d Hd. eapply (path_ids_same t); [done..|]. by apply Hg.
Qed.

Lemma index_extend t t' g : extends t t' -> tree_ok t' -> index_rep t g -> index_rep t' g.
Proof.
  intros He Ht' (_ & f & Hf & Hg). split; [done|]. exists f. split; [by destruct He as (_ & _ & _ & ->)|].
  intros d Hd. eapply path_ids_extend; [done|]. by apply Hg.
Qed.

(** Inserting a path does not throw while ids are left. *)
Lemma insert_nodes_mfold path : forall p t r, mfold insert_node path (p, t) = Ret r ->
  insert_nodes path p t = Ret (r.2, Some r.1).
Proof.
  induction path as [|n path IH]; intros p t r E; cbn [mfold insert_nodes] in *; [by injection E as <-|].
  apply bind_Ret_inv in E as ([q t1] & E1 & E). rewrite E1. by apply IH.
Qed.

Lemma insert_nodes_ok path t : tree_ok t -> path <> [] -> value_num t + vsize path < 2 ^ 32 ->
  exists t' id, insert_nodes path 0 t = Ret (t', Some id) /\ tree_ok t' /\ extends t t' /\ path_id t' path id /\
    value_num t' <= value_num t + vsize path.
Proof.
  intros Ht Hne Hn. pose proof Ht as (H1 & _).
  destruct (PropValueTable.insert_path path t 0 Ht) as (id & t' & E & Ht' & Hx & _ & Hp & Hs); [lia|done|].
  exists t', id. by rewrite (insert_nodes_mfold _ _ _ _ E).
Qed.

Lemma insert_paths_ok paths : forall t acc, tree_ok t -> Forall (.≠ []) paths -> value_num t + nodes paths < 2 ^ 32 ->
  exists t' ids, insert_paths paths acc t = Ret (t', acc ++ ids) /\ tree_ok t' /\ extends t t' /\
    Forall2 (path_id t') paths ids /\ value_num t' <= value_num t + nodes paths.
Proof.
  induction paths as [|path paths IH]; intros t acc Ht Hne Hn; cbn [insert_paths nodes] in *.
  { exists t, []. rewrite app_nil_r. split_and!; try done; [apply PropValueTable.extends_refl|lia]. }
  apply Forall_cons in Hne as [Hp Hne]. pose proof (nodes_nonneg paths).
  destruct (insert_nodes_ok path t Ht Hp) as (t1 & id & -> & Ht1 & Hx1 & Hid & Hs1); [lia|]. rsimpl.
  destruct (IH t1 (acc ++ [id]) Ht1 Hne) as (t2 & ids & -> & Ht2 & Hx2 & Hids & Hs2); [lia|].
  exists t2, (id :: ids). rewrite <- app_assoc. split_and!; try done; [by eapply PropValueTable.extends_trans| |lia].
  constructor; [|done]. destruct Hid as [? Hid]. split; [done|]. by eapply PropValueTable.path_extends.
Qed.

(** Setting the ids of a document. *)
Lemma set_ids_ok t g d paths ids : index_rep t g -> 0 <= d < 2 ^ 32 - 1 -> Forall2 (path_id t) paths ids ->
  value_num t < 2 ^ 31 -> vsize (multiValueTable_ (valueIdTable_ t)) < 2 ^ 31 -> vsize ids < 2 ^ 31 ->
  exists t', set_ids d ids t = Ret t' /\ index_rep t' (fset d paths g) /\ value_num t' = value_num t /\
    vsize (multiValueTable_ (valueIdTable_ t')) <= vsize (multiValueTable_ (valueIdTable_ t)) + vsize ids + 1 /\
    forall q i, path_id t q i -> path_id t' q i.
Proof.
  intros (Ht & f & Hf & Hg) Hd Hids Hn Hm Hl. unfold set_ids, setPropIdList.
  assert (Forall (fun i => 0 < i < value_num t) ids) as Hr.
  { clear -Ht Hids. induction Hids as [|p i paths ids H _ IH]; constructor; [by eapply path_id_range|done]. }
  destruct (setIdList_rep _ f d ids Hf Hd) as [(pt & E & Hpt)|[[(i & -> & Hi)|[_ Hi]] _]].
  { eapply Forall_impl; [exact Hr|]. cbn. lia. }
  { lia. }
  - rewrite E. rsimpl. pose proof (setIdList_size _ _ _ _ E). eexists. split; [done|].
    assert (stored ids = ids) as Hst.
    { unfold stored. case_decide as E0; [|done]. subst. apply Forall_cons in Hr as [Hr _]. lia. }
    split; [|split; [done|split; [done|by apply path_id_same]]].
    split; [exact Ht|]. eexists. split; [exact Hpt|]. intros k Hk. cbn. unfold fset. rewrite Hst.
    apply (path_ids_same t); [done..|]. destruct (k =? d); [exact Hids|]. by apply Hg.
  - apply Forall_cons in Hr as [Hr _]. unfold INDEX_MSB in Hi. lia.
  - unfold INDEX_MSB in Hi. lia.
Qed.

(** *** Labels *)

Lemma path_unique t path : forall path' id, path_to t 0 path id -> path_to t 0 path' id -> path = path'.
Proof.
  induction path as [|s path IH] using rev_ind; intros path' id; destruct path' as [|s' path' _] using rev_ind.
  - done.
  - intros -> (p & _ & (c & (Hc & _) & Ec))%PropValueTable.path_to_app. cbn in Ec. lia.
  - intros (p & _ & (c & (Hc & _) & Ec))%PropValueTable.path_to_app ->. cbn in Ec. lia.
  - intros (p & H1 & (c & (_ & Ep & Es) & ->))%PropValueTable.path_to_app (q & H2 & (c' & (_ & Eq & Es') & ->))%PropValueTable.path_to_app.
    assert (p = q) as -> by congruence. assert (s = s') as -> by congruence. f_equal. by eapply IH.
Qed.

Lemma path_chain t path : forall c id l, 0 < c -> path_to t c path id -> PropValueTable.chain_of t id l -> c ∈ l.
Proof.
  induction path as [|s path IH] using rev_ind; intros c id l Hc.
  - intros -> Hl. destruct l as [|x l]; [cbn in Hl; lia|]. destruct Hl as (-> & _). by left.
  - intros (p & H1 & (c' & (Hid & Ep & _) & ->))%PropValueTable.path_to_app Hl. destruct l as [|x l]; [cbn in Hl; lia|].
    destruct Hl as (-> & _ & q & Eq & _ & Hl). assert (p = q) as -> by congruence. right. by eapply IH.
Qed.

Lemma chain_path t l : forall id path x, PropValueTable.chain_of t id l -> path_to t 0 path id -> x ∈ l ->
  exists p1 p2, path = p1 ++ p2 /\ path_to t 0 p1 x.
Proof.
  induction l as [|y l IH]; intros id path x Hl Hp Hx; [by apply elem_of_nil in Hx|].
  destruct Hl as (-> & Hid & p & Ep & _ & Hl). apply elem_of_cons in Hx as [->|Hx].
  { exists path, []. by rewrite app_nil_r. }
  destruct path as [|s path _] using rev_ind; [cbn in Hp; lia|].
  apply PropValueTable.path_to_app in Hp as (q & H1 & (c & (_ & Eq & _) & ->)). assert (q = p) as -> by congruence.
  destruct (IH p path x Hl H1 Hx) as (p1 & p2 & -> & H2). exists p1, (p2 ++ [s]). by rewrite app_assoc.
Qed.

(** The label path [q] selects a document of path [path] when it is above it. *)
Lemma label_path t q path id x l : tree_ok t -> path_id t path id -> PropValueTable.chain_of t id l ->
  PropValueTable.propValueId q t = Ret x -> x ∈ l <-> q <> [] /\ q `prefix_of` path.
Proof.
  intros Ht [Hne Hp] Hl Hx. unfold PropValueTable.propValueId in Hx. pose proof Ht as (Hn & _). split.
  - intros Hin. pose proof (PropValueTable.chain_le _ _ _ _ Hl Hin).
    pose proof (PropValueTable.find_path_inv q t 0 x Ht ltac:(lia) Hx ltac:(lia)) as Hq.
    destruct (chain_path t l id path x Hl Hp Hin) as (p1 & p2 & -> & H1). pose proof (path_unique t q p1 x Hq H1) as ->.
    split; [|by exists p2]. intros ->. cbn in H1. lia.
  - intros [Hq [p2 ->]]. apply PropValueTable.path_to_app in Hp as (c & H1 & H2).
    destruct (PropValueTable.find_path_ok q t 0 c Ht) as [E _]; [lia|done|].
    assert (x = c) as -> by congruence. eapply path_chain; [|exact H2|exact Hl].
    eapply path_id_range; [exact Ht|]. by split.
Qed.

Lemma target_ids (ustring : string -> ustr) t labelPaths : tree_ok t ->
  exists ids, getTargetValueIds_ ustring labelPaths t = Ret ids /\
    Forall2 (fun q id => PropValueTable.propValueId (map ustring q) t = Ret id) labelPaths ids.
Proof.
  intros Ht. pose proof Ht as (Hn & _). unfold getTargetValueIds_.
  destruct (mfold_rule (fun path ids => let* targetId := PropValueTable.propValueId (map ustring path) t in Ret (ids ++ [targetId]))
    (fun left ids => exists before, labelPaths = before ++ left /\
       Forall2 (fun q id => PropValueTable.propValueId (map ustring q) t = Ret id) before ids) labelPaths []) as (ids & E & before & -> & H).
  - intros q left ids (before & E & H). destruct (PropValueTable.find_path_total (map ustring q) t 0 Ht) as (id & Eid & _); [lia|].
    unfold PropValueTable.propValueId at 1. rewrite Eid. rsimpl. eexists. split; [done|].
    exists (before ++ [q]). rewrite <- app_assoc. split; [done|]. apply Forall2_app; [done|]. by repeat constructor.
  - by exists [].
  - exists ids. rewrite app_nil_r in *. done.
Qed.

(** ** The task of a property of values *)
Section TaskProofs.
Context {D : Type} (maxDocId : Z) (getDocument : Z -> option D) (getRTypePropertiesForDocument : Z -> D -> D) (new_document : D).
Context (groupConfigMap_ : GroupConfigMap) (propName_ : string) (propValue : D -> ustr) (compact : ustr -> ustr).

Notation load_document := (load_document getDocument getRTypePropertiesForDocument new_document).

(** The text of the property in a document, and its paths. *)
Definition doc_text (d : Z) : ustr := propValue (load_document d).
Definition paths_of (text : ustr) : list (list ustr) :=
  match split_group_path compact text [] with Ret paths => paths | _ => [] end.
Definition doc_paths (d : Z) : list (list ustr) := paths_of (doc_text d).

Hypothesis Htext : forall d, vsize (doc_text d) < 2 ^ 64.

Lemma doc_paths_ok d : split_group_path compact (doc_text d) [] = Ret (doc_paths d) /\ Forall (.≠ []) (doc_paths d).
Proof.
  destruct (turns_total path_ok (group_body compact) (doc_text d) [] (Htext d) (group_turn compact)) as (paths & E & Hp).
  change (split_group_path compact (doc_text d) [] = Ret paths) in E. unfold doc_paths, paths_of. rewrite E.
  split; [done|]. eapply Forall_impl; [exact Hp|]. by intros path [H _].
Qed.

(** The room a list of documents needs in the tables. *)
Definition docs_room (l : list Z) : Z := foldr (fun d n => nodes (doc_paths d) + 1 + n) 0 l.

Lemma docs_room_nonneg l : 0 <= docs_room l.
Proof. induction l as [|d l IH]; [done|]. cbn. fold (docs_room l). pose proof (nodes_nonneg (doc_paths d)). lia. Qed.

Definition has_room t (n : Z) : Prop :=
  value_num t + n < 2 ^ 31 /\ vsize (multiValueTable_ (valueIdTable_ t)) + n < 2 ^ 31.

Lemma value_buildDoc_ok t g d n : index_rep t g -> 0 <= d < 2 ^ 32 - 1 -> 0 <= n -> has_room t (nodes (doc_paths d) + 1 + n) ->
  exists t', value_buildDoc compact d (doc_text d) t = Ret t' /\ index_rep t' (fset d (doc_paths d) g) /\ has_room t' n.
Proof.
  intros Hg Hd Hn [H1 H2]. unfold value_buildDoc. destruct (doc_paths_ok d) as [-> Hne]. rsimpl.
  pose proof (nodes_nonneg (doc_paths d)). pose proof (nodes_size _ Hne).
  destruct (insert_paths_ok (doc_paths d) t [] (proj1 Hg) Hne) as (t1 & ids & -> & Ht1 & Hx & Hids & Hs); [lia|]. rsimpl. cbn [app].
  pose proof (Forall2_length _ _ _ Hids) as Hlen. pose proof Hx as (_ & _ & _ & Hsame).
  destruct (set_ids_ok t1 g d (doc_paths d) ids) as (t2 & -> & Hg2 & Hn2 & Hm2 & _); try done.
  - by eapply index_extend.
  - lia.
  - rewrite Hsame. lia.
  - unfold vsize in *. lia.
  - exists t2. split; [done|]. split; [done|]. rewrite Hsame in Hm2. unfold has_room, vsize in *. lia.
Qed.

(** C36: a label of a string property accepts exactly the documents that have a
    path which one of the label's paths is, or is above; a label path that no
    document has, and the empty one, accept nothing. *)
Theorem label_selects_paths (ustring : string -> ustr) t g labelPaths doc : index_rep t g -> 0 <= doc ->
  exists label b, new_string_label ustring labelPaths t = Ret label /\ string_label_test doc label = Ret b /\
    (b = true <-> exists q path, q ∈ labelPaths /\ q <> [] /\ path ∈ g doc /\ map ustring q `prefix_of` path).
Proof.
  intros (Ht & f & Hf & Hg) Hd. specialize (Hg doc Hd). unfold new_string_label, string_label_test.
  destruct (target_ids ustring t labelPaths Ht) as (ids & -> & Hids). rsimpl. exists (StringLab t ids). cbn [string_label_table targetValueIds_].
  assert (Forall (fun id => 0 <= id < value_num t) (f doc)) as Hr.
  { clear -Ht Hg. induction Hg as [|p i paths ids H _ IH]; constructor; [|done]. pose proof (path_id_range _ _ _ Ht H). lia. }
  destruct (PropValueTable.parentIdSet_ok t f doc Ht Hf Hd Hr) as (S & -> & HS). rsimpl. eexists. split; [done|]. split; [done|].
  rewrite existsb_exists. rewrite Forall_forall in Hr. split.
  - intros (x & Hx%list_elem_of_In & Hin%bool_decide_eq_true). apply HS in Hin as (id & l & Hid & Hl & Hin).
    apply list_elem_of_lookup_1 in Hx as [i Hi], Hid as [j Hj].
    destruct (Forall2_lookup_r _ _ _ _ _ Hids Hi) as (q & Hq & Eq). destruct (Forall2_lookup_r _ _ _ _ _ Hg Hj) as (path & Hpath & Hp).
    destruct (proj1 (label_path t (map ustring q) path id x l Ht Hp Hl Eq) Hin) as [Hne' Hpre].
    exists q, path. split; [by eapply list_elem_of_lookup_2|]. split; [by destruct q|]. split; [by eapply list_elem_of_lookup_2|done].
  - intros (q & path & Hq & Hne & Hpath & Hpre). apply list_elem_of_lookup_1 in Hq as [i Hi], Hpath as [j Hj].
    destruct (Forall2_lookup_l _ _ _ _ _ Hids Hi) as (x & Hx & Eq). destruct (Forall2_lookup_l _ _ _ _ _ Hg Hj) as (id & Hid & Hp).
    exists x. split; [apply list_elem_of_In; by eapply list_elem_of_lookup_2|]. apply bool_decide_eq_true, HS.
    destruct (PropValueTable.chain_exists t id Ht) as (l & Hl & _); [apply Hr; by eapply list_elem_of_lookup_2|].
    exists id, l. split; [by eapply list_elem_of_lookup_2|]. split; [done|].
    apply (label_path t (map ustring q) path id x l Ht Hp Hl Eq). split; [by destruct q|done].
Qed.

Lemma index_ext t g g' : (forall d, 0 <= d -> g d = g' d) -> index_rep t g -> index_rep t g'.
Proof.
  intros He (Ht & f & Hf & Hg). split; [done|]. exists f. split; [done|]. intros d Hd. rewrite <- He by done. by apply Hg.
Qed.
Lemma build_docs_ok (s : GroupMiningTask values (PropValueTable.table_files ustr)) w0 lo hi g :
  0 <= lo -> hi < 2 ^ 32 - 1 -> lo <= hi + 1 ->
  index_rep (writer (swapper_ s)) g -> has_room (writer (swapper_ s)) (docs_room (seqZ lo (hi - lo + 1))) ->
  exists w, mfold (fun docid s => let* (_, s) := group_buildDocument (MiningTable0 := value_mining compact w0) propValue docid (load_document docid) s in Ret s)
      (seqZ lo (hi - lo + 1)) s = Ret (GroupTask (Swapper (reader (swapper_ s)) w) (startDocId_ s) (files_ s)) /\
    index_rep w (frange lo hi doc_paths g).
Proof.
  intros Hlo Hhi Hle Hg Hroom.
  destruct (mfold_seqZ (fun docid s => let* (_, s) := group_buildDocument (MiningTable0 := value_mining compact w0) propValue docid (load_document docid) s in Ret s)
    (fun i (s' : GroupMiningTask values (PropValueTable.table_files ustr)) =>
       reader (swapper_ s') = reader (swapper_ s) /\ startDocId_ s' = startDocId_ s /\ files_ s' = files_ s /\
       index_rep (writer (swapper_ s')) (frange lo (i - 1) doc_paths g) /\ has_room (writer (swapper_ s')) (docs_room (seqZ i (hi + 1 - i))))
    lo (hi - lo + 1) s) as (s' & -> & Hr & Hst & Hfs & Hg' & _).
  - lia.
  - intros i s1 Hi (Hr & Hst & Hfs & Hg1 & Hroom1). unfold group_buildDocument. cbn [buildDoc_ value_mining].
    rewrite seqZ_cons in Hroom1 by lia. cbn [docs_room foldr] in Hroom1. fold (docs_room (seqZ (Z.succ i) (Z.pred (hi + 1 - i)))) in Hroom1.
    destruct (value_buildDoc_ok (writer (swapper_ s1)) _ i _ Hg1 ltac:(lia) (docs_room_nonneg _) Hroom1) as (w & E & Hg2 & Hroom2).
    unfold doc_text in E. rewrite E. rsimpl. eexists. split; [done|]. cbn. split; [done|]. split; [done|]. split; [done|]. split.
    + eapply index_ext; [|exact Hg2]. intros d _. replace (i + 1 - 1) with i by lia. apply frange_snoc. lia.
    + replace (hi + 1 - (i + 1)) with (Z.pred (hi + 1 - i)) by lia. exact Hroom2.
  - split; [done|]. split; [done|]. split; [done|]. split.
    + eapply index_ext; [|exact Hg]. intros d _. by rewrite frange_out by lia.
    + by replace (hi + 1 - lo) with (hi - lo + 1) by lia.
  - exists (writer (swapper_ s')). split; [by destruct s' as [[] ? ?]; cbn in *; subst|].
    by replace (lo + (hi - lo + 1) - 1) with hi in Hg' by lia.
Qed.

(** Flushing succeeds when all files can be written, and keeps the index. *)
Lemma flush_index t g fs : index_rep t g ->
  exists t' fs', PropValueTable.flush (true, true, true, true, true) t fs = (true, t', fs') /\ index_rep t' g.
Proof.
  intros Hg. pose proof Hg as [(Hn & Hp & _) _]. unfold PropValueTable.flush, PropValueTable.saveParentId_.
  unfold value_num in *. rewrite u32_small, Hp, Z.eqb_refl by lia. cbn [negb].
  set (r := if vsize (PropValueTable.propStrVec_ t) <=? PropValueTable.savePropStrNum_ t then _ else _).
  assert (exists fs', r = (true, fs')) as [fs' ->] by (subst r; case_match; eauto). cbn [negb].
  assert (forall A (l : list A) n f, exists n' f', save_grown true l n f = (true, n', f')) as Hsave.
  { intros A l n f. unfold save_grown. case_match; eauto. }
  repeat (match goal with |- context [save_grown true ?l ?n ?f] => destruct (Hsave _ l n f) as (? & ? & ->) end; cbn [negb]).
  eexists _, _. split; [done|]. by apply (index_same t).
Qed.

Lemma new_index : index_rep (PropValueTable.new_value_table []) (fun _ => []).
Proof.
  split; [apply PropValueTable.new_tree_ok|]. exists (fun _ => []). split; [apply new_id_table_rep|]. intros d _. constructor.
Qed.

Lemma resize_index t g num : index_rep t g -> PropValueTable.value_docIdNum t <= num <= 2 ^ 32 ->
  index_rep (PropValueTable.value_resize num t) g.
Proof.
  intros (Ht & f & Hf & Hg) Hn. split; [exact Ht|]. exists f. split; [by apply resize_rep|].
  intros d Hd. eapply (path_ids_same t); [done..|]. by apply Hg.
Qed.

Notation run_task := (run_task (MiningTask0 := group_mining (MiningTable0 := value_mining compact (true, true, true, true, true)) maxDocId groupConfigMap_ propName_ propValue)
  maxDocId getDocument getRTypePropertiesForDocument new_document).

(** C18: a task of a property of strings keeps the index of the property equal
    to the documents. From a table that indexes [g], preparing the task,
    building its documents and finishing it succeed, and afterwards the table
    the queries read has for each new document the paths its text is split
    into and for each other document what it had - nothing when the property
    is rebuilt, where all documents are new. *)
Theorem group_task_indexes timestamp s g :
  let start := if isRebuildProp_ groupConfigMap_ propName_ then 1 else PropValueTable.value_docIdNum (reader (swapper_ s)) in
  let base := if isRebuildProp_ groupConfigMap_ propName_ then PropValueTable.new_value_table [] else reader (swapper_ s) in
  1 <= maxDocId < 2 ^ 32 - 1 -> PropValueTable.value_docIdNum (reader (swapper_ s)) <= maxDocId + 1 ->
  index_rep (reader (swapper_ s)) g -> has_room base (docs_room (seqZ start (maxDocId - start + 1))) ->
  exists s', run_task timestamp s = Ret s' /\
    index_rep (reader (swapper_ s'))
      (frange start maxDocId doc_paths (if isRebuildProp_ groupConfigMap_ propName_ then fun _ => [] else g)).
Proof.
  intros start base Hmax Hlen Hg Hroom. set (rebuild := isRebuildProp_ groupConfigMap_ propName_) in *.
  pose proof (vsize_nonneg (indexTable_ (valueIdTable_ (reader (swapper_ s))))). unfold PropValueTable.value_docIdNum in *.
  unfold run_task. cbn [preProcess group_mining]. unfold group_preProcess. fold rebuild.
  cbn [table_docIdNum value_mining]. unfold PropValueTable.value_docIdNum. rewrite u32_small by lia. fold start.
  destruct (Z.ltb_spec maxDocId start) as [Hlt|Hge].
  - rsimpl. eexists. split; [done|]. cbn. destruct rebuild; [subst start; lia|]. eapply index_ext; [|exact Hg].
    intros d _. by rewrite frange_out by lia.
  - rewrite u32_small by lia.
    assert (index_rep (PropValueTable.value_resize (maxDocId + 1) base) (if rebuild then fun _ => [] else g)) as Hw.
    { subst base. destruct rebuild; apply resize_index; [apply new_index| |exact Hg|]; unfold PropValueTable.value_docIdNum; [|lia].
      change (vsize _) with 1. lia. }
    set (swapper := if rebuild then _ else _).
    assert (writer swapper = PropValueTable.value_resize (maxDocId + 1) base) as Ew.
    { subst swapper base. destruct rebuild; [done|]. cbn. destruct (reader (swapper_ s)); done. }
    cbn [res_bind]. unfold build_docs. cbn [getLastDocId group_mining startDocId_ buildDocument].
    destruct (build_docs_ok (GroupTask swapper start (files_ s)) (true, true, true, true, true) start maxDocId
      (if rebuild then fun _ => [] else g)) as (w & -> & Hg'); [subst start; destruct rebuild; lia|lia|lia| | |].
    + cbn [swapper_]. rewrite Ew. exact Hw.
    + cbn [swapper_]. rewrite Ew. exact Hroom.
    + cbn [res_bind postProcess group_mining]. unfold group_postProcess. cbn [swapper_ writer reader startDocId_ files_ table_flush value_mining].
      destruct (flush_index w _ (files_ s) Hg') as (w' & fs' & -> & Hg''). cbn [negb res_bind]. eexists. split; [done|]. exact Hg''.
Qed.
End TaskProofs.

(** ** Examples *)
Definition two_texts (d : Z) : ustr := if d =? 1 then text "pc > net; life" else if d =? 2 then text "pc" else [].
Definition two_docs (d : Z) : option ustr := Some (two_texts d).

Lemma two_texts_short d : vsize (doc_text two_docs (fun _ doc => doc) [] id d) < 2 ^ 64.
Proof.
  unfold doc_text, load_document, two_docs, two_texts, id. destruct (d =? 1); [done|]. by destruct (d =? 2).
Qed.

Lemma label_selects_paths_witness : exists t label,
  value_buildDoc trim 1 (two_texts 1) (PropValueTable.new_value_table []) = Ret t /\
  new_string_label text [["life"%string]; ["pc"%string; "cell"%string]] t = Ret label /\ string_label_test 1 label = Ret true.
Proof.
  destruct (value_buildDoc_ok two_docs (fun _ doc => doc) [] id trim two_texts_short (PropValueTable.new_value_table []) (fun _ => []) 1 0)
    as (t & E & Hg & _); [apply new_index|lia|lia|vm_compute; split; reflexivity|].
  destruct (label_selects_paths text t _ [["life"%string]; ["pc"%string; "cell"%string]] 1 Hg) as (label & b & El & Et & Hb); [lia|].
  exists t, label. split; [exact E|]. split; [exact El|]. rewrite Et. f_equal. apply Hb.
  exists ["life"%string], [text "life"]. split; [by left|]. split; [done|]. split; [vm_compute; right; left|done].
Defined.

Lemma group_task_indexes_witness : exists s',
  run_task (MiningTask0 := group_mining (MiningTable0 := value_mining trim (true, true, true, true, true)) 2 [] "category" id)
    2 two_docs (fun _ doc => doc) [] 0 (new_group_task (MiningTable0 := value_mining trim (true, true, true, true, true))
      (PropValueTable.new_value_table []) PropValueTable.no_files) = Ret s' /\
  index_rep (reader (swapper_ s')) (frange 1 2 (doc_paths two_docs (fun _ doc => doc) [] id trim) (fun _ => [])).
Proof.
  apply (group_task_indexes 2 two_docs (fun _ doc => doc) [] [] "category" id trim two_texts_short 0
    (new_group_task (MiningTable0 := value_mining trim (true, true, true, true, true)) (PropValueTable.new_value_table []) PropValueTable.no_files) (fun _ => [])).
  - lia.
  - vm_compute. discriminate.
  - apply new_index.
  - vm_compute. split; reflexivity.
Defined.
