(* ===== verification/GroupThreads.v ===== *)
(** * The threads that build the index of a property of values

Models buildDocs_ of mining-manager/MultiThreadMiningTaskBuilder.cpp with
buildDoc_ of group-manager/GroupMiningTask.h below the granularity of
documents: two threads work on different documents of one task at a time, and
each insertion of a path and each assignment of the ids of a document is one
step, because PropValueTable locks itself for it. *)
From S2P Require Import Prelude OrdMap PropIdTable SplitUstr MiningTask GroupMining.
From S2P Require PropValueTable.
Import PropValueTable (PropValueTable, valueIdTable_, tree_ok, extends, value_num).

(** The document a thread is at: its id, the paths still to insert and the
    ids of the others. *)
Notation job := (Z * list (list ustr) * list Z)%type.
Implicit Types (j : job) (t : values).

Definition job_doc j : Z := j.1.1.
Definition job_paths j : list (list ustr) := j.1.2.
Definition job_ids j : list Z := j.2.

(** A step of a thread in [buildDoc_]: [insertPropValueId] of the next path, or
    [setPropIdList] after the last one or after an exception. *)
Definition job_step j t : res (option job * values) :=
  let '(docId, groupPaths, propIdList) := j in
  match groupPaths with
  | path :: groupPaths =>
      let* (t, pvId) := insert_nodes path 0 t in
      Ret (Some (docId, match pvId with Some _ => groupPaths | None => [] end,
                 match pvId with Some pvId => propIdList ++ [pvId] | None => propIdList end), t)
  | [] => let* t := set_ids docId propIdList t in Ret (None, t)
  end.

(** The jobs each thread has left. *)
Notation threads := (list (list job)).

(** The next step of thread [i], if it has a job, with whatever comes out of it. *)
Definition run_thread (i : nat) (st : threads * values) : option (res (threads * values)) :=
  match st.1 !! i with
  | Some (j :: jobs) =>
      Some (let* (j', t) := job_step j st.2 in
            Ret (<[i := match j' with Some j' => j' :: jobs | None => jobs end]> st.1, t))
  | _ => None
  end.

(** A step of one of the threads that returns. *)
Definition thread_step (st st' : threads * values) : Prop := exists i, run_thread i st = Some (Ret st').

(** [buildDocs_(startDocId, endDocId, threadId)] for a task whose first document
    is [lastDocId]; [paths] splits the text of a document. *)
Definition thread_jobs (paths : Z -> list (list ustr)) (threadNum_ startDocId endDocId lastDocId threadId : Z) : list job :=
  flat_map (fun docId =>
    if negb (docId mod threadNum_ =? threadId) then []
    else if lastDocId <=? docId then [(docId, paths docId, [])] else [])
    (seqZ startDocId (endDocId - startDocId + 1)).

(** ** Any interleaving gives the index *)
Section Threads.
Context (before_paths final : Z -> list (list ustr)).
Implicit Types (L : list job) (ths : threads).

Definition docs_of L : list Z := map job_doc L.

(** Documents that are not done have what they had. *)
Definition pending L (d : Z) : list (list ustr) := if decide (d ∈ docs_of L) then before_paths d else final d.

(** The paths that are inserted have the ids the thread has noted. *)
Definition job_ok t j : Prop :=
  0 <= job_doc j < 2 ^ 32 - 1 /\ Forall (.≠ []) (job_paths j) /\
  exists inserted, final (job_doc j) = inserted ++ job_paths j /\ Forall2 (path_id t) inserted (job_ids j).

Fixpoint zsum {A} (f : A -> Z) (l : list A) : Z := match l with [] => 0 | a :: l => f a + zsum f l end.

Lemma zsum_perm {A} (f : A -> Z) l k : l ≡ₚ k -> zsum f l = zsum f k.
Proof. induction 1; cbn in *; lia. Qed.

Lemma zsum_nonneg {A} (f : A -> Z) l : (forall a, 0 <= f a) -> 0 <= zsum f l.
Proof. intros Hf. induction l as [|a l IH]; cbn; [lia|]. specialize (Hf a). lia. Qed.

(** The values still to come, and the words of the id lists. *)
Definition job_nodes j : Z := nodes (job_paths j).
Definition job_words j : Z := vsize (job_paths j) + vsize (job_ids j) + 1.
(** The steps still to come. *)
Definition job_work j : Z := vsize (job_paths j) + 1.
Definition work ths : Z := zsum job_work (concat ths).

Definition jobs_ok L t : Prop :=
  NoDup (docs_of L) /\ index_rep t (pending L) /\ Forall (job_ok t) L /\
  value_num t + zsum job_nodes L < 2 ^ 31 /\ vsize (multiValueTable_ (valueIdTable_ t)) + zsum job_words L < 2 ^ 31.

Lemma pending_perm L L' d : L ≡ₚ L' -> pending L d = pending L' d.
Proof.
  intros Hp. unfold pending, docs_of. destruct (decide (d ∈ map job_doc L)) as [H1|H1], (decide (d ∈ map job_doc L')) as [H2|H2]; try done;
    exfalso; [apply H2|apply H1]; [rewrite <- Hp|rewrite Hp]; done.
Qed.

Lemma jobs_ok_perm L L' t : L ≡ₚ L' -> jobs_ok L t -> jobs_ok L' t.
Proof.
  intros Hp (H1 & H2 & H3 & H4 & H5). unfold docs_of in *. rewrite Hp in H1, H3. rewrite (zsum_perm _ _ _ Hp) in H4. rewrite (zsum_perm _ _ _ Hp) in H5.
  split; [done|]. split; [|done]. eapply index_ext; [|exact H2]. intros d _. by apply pending_perm.
Qed.

Lemma job_ok_extends t t' j : (forall q i, path_id t q i -> path_id t' q i) -> job_ok t j -> job_ok t' j.
Proof.
  intros He (H1 & H2 & ins & H3 & H4). split; [done|]. split; [done|]. exists ins. split; [done|].
  eapply Forall2_impl; [exact H4|]. auto.
Qed.

(** A job that has a path left inserts it and goes on. *)
Lemma insert_step d path paths ids L t : jobs_ok ((d, path :: paths, ids) :: L) t ->
  exists id t', job_step (d, path :: paths, ids) t = Ret (Some (d, paths, ids ++ [id]), t') /\ jobs_ok ((d, paths, ids ++ [id]) :: L) t'.
Proof.
  intros (H1 & H2 & H3 & H4 & H5). apply Forall_cons in H3 as [(Hd & Hne & ins & Hf & Hids) H3]. cbn in Hd, Hne, Hf, Hids.
  apply Forall_cons in Hne as [Hp Hne]. cbn [zsum] in H4, H5. pose proof (nodes_nonneg paths).
  change (job_nodes (d, path :: paths, ids)) with (vsize path + nodes paths) in H4.
  change (job_words (d, path :: paths, ids)) with (vsize (path :: paths) + vsize ids + 1) in H5. rewrite vsize_cons in H5.
  pose proof (zsum_nonneg job_nodes L (fun j => nodes_nonneg (job_paths j))) as Hs.
  destruct (insert_nodes_ok path t (proj1 H2) Hp) as (t1 & id & E & Ht1 & Hx & Hid & Hn); [lia|].
  cbn [job_step]. rewrite E. rsimpl. exists id, t1. split; [done|]. pose proof Hx as (_ & _ & _ & Hsame).
  split; [exact H1|]. split; [by eapply index_extend|]. split; [constructor|].
  - split; [done|]. split; [done|]. exists (ins ++ [path]). cbn. rewrite <- app_assoc. split; [done|].
    apply Forall2_app; [by eapply path_ids_extend|]. by repeat constructor; destruct Hid.
  - eapply Forall_impl; [exact H3|]. intros j. apply job_ok_extends. intros q i [Hq Hpath]. split; [done|]. by eapply PropValueTable.path_extends.
  - cbn [zsum]. rewrite Hsame. change (job_nodes (d, paths, ids ++ [id])) with (nodes paths).
    change (job_words (d, paths, ids ++ [id])) with (vsize paths + vsize (ids ++ [id]) + 1). rewrite vsize_app. change (vsize [id]) with 1. lia.
Qed.

(** A job that has none sets the ids of its document and is done. *)
Lemma set_step d ids L t : jobs_ok ((d, [], ids) :: L) t ->
  exists t', job_step (d, [], ids) t = Ret (None, t') /\ jobs_ok L t'.
Proof.
  intros (H1 & H2 & H3 & H4 & H5). apply Forall_cons in H3 as [(Hd & Hne & ins & Hf & Hids) H3]. cbn in Hd, Hne, Hf, Hids.
  apply NoDup_cons in H1 as [Hnot H1]. cbn [zsum] in H4, H5. rewrite app_nil_r in Hf.
  pose proof (zsum_nonneg job_nodes L (fun j => nodes_nonneg (job_paths j))) as Hs.
  assert (0 <= zsum job_words L) as Hw.
  { apply zsum_nonneg. intros j. unfold job_words. pose proof (vsize_nonneg (job_paths j)). pose proof (vsize_nonneg (job_ids j)). lia. }
  change (job_nodes (d, [], ids)) with 0 in H4. change (job_words (d, [], ids)) with (0 + vsize ids + 1) in H5.
  pose proof (vsize_nonneg (multiValueTable_ (valueIdTable_ t))). pose proof (vsize_nonneg ids).
  destruct (set_ids_ok t _ d ins ids H2 Hd Hids) as (t1 & E & Hg & Hn & Hm & Hx); [lia|lia|lia|].
  cbn [job_step]. rewrite E. rsimpl. exists t1. split; [done|]. split; [done|]. split; [|split; [|lia]].
  - eapply index_ext; [|exact Hg]. intros k _. unfold fset, pending, docs_of in *. cbn [map] in *.
    destruct (Z.eqb_spec k d) as [->|Hk]; [by rewrite decide_False|].
    destruct (decide (k ∈ map job_doc L)) as [Hin|Hin]; [by rewrite decide_True by (by right)|].
    rewrite decide_False; [done|]. by intros [?|?]%elem_of_cons.
  - eapply Forall_impl; [exact H3|]. intros j. by apply job_ok_extends.
Qed.

Lemma concat_middle (before after : threads) j jobs : concat (before ++ (j :: jobs) :: after) ≡ₚ j :: concat (before ++ jobs :: after).
Proof. rewrite !concat_app. cbn. by rewrite <- Permutation_middle. Qed.

Lemma work_middle (before after : threads) j jobs : work (before ++ (j :: jobs) :: after) = job_work j + work (before ++ jobs :: after).
Proof. unfold work. by rewrite (zsum_perm _ _ _ (concat_middle _ _ _ _)). Qed.

(** The step of a thread changes it and nothing else. *)
Lemma run_thread_at (before after : threads) j jobs t :
  run_thread (length before) (before ++ (j :: jobs) :: after, t) =
    Some (let* (j', t') := job_step j t in Ret (before ++ (match j' with Some j' => j' :: jobs | None => jobs end) :: after, t')).
Proof.
  unfold run_thread. cbn [fst snd]. rewrite list_lookup_middle by done. f_equal.
  destruct (job_step j t) as [[j' t']| | |]; cbn [res_bind]; try done. do 2 f_equal. by rewrite insert_app_r_alt, Nat.sub_diag by done.
Qed.

Lemma has_job (ths : threads) i j jobs : ths !! i = Some (j :: jobs) ->
  exists before after, ths = before ++ (j :: jobs) :: after /\ i = length before.
Proof.
  intros E. exists (take i ths), (drop (S i) ths). split; [by rewrite take_drop_middle|].
  apply lookup_lt_Some in E. rewrite length_take. lia.
Qed.

(** No step goes wrong, and each keeps the invariant. *)
Lemma run_thread_ok ths t i r : jobs_ok (concat ths) t -> run_thread i (ths, t) = Some r ->
  exists ths' t', r = Ret (ths', t') /\ jobs_ok (concat ths') t' /\ work ths = work ths' + 1.
Proof.
  intros Hok Hr. destruct (ths !! i) as [[|j jobs]|] eqn:Ei; [unfold run_thread in Hr; cbn [fst] in Hr; by rewrite Ei in Hr| |unfold run_thread in Hr; cbn [fst] in Hr; by rewrite Ei in Hr].
  apply has_job in Ei as (before & after & -> & ->). rewrite run_thread_at in Hr. injection Hr as <-.
  apply (jobs_ok_perm _ _ _ (concat_middle _ _ _ _)) in Hok. destruct j as [[d [|path paths]] ids].
  - apply set_step in Hok as (t3 & -> & Hok). cbn [res_bind]. eexists _, _. split; [done|]. split; [done|].
    rewrite work_middle. unfold job_work. cbn. change (vsize []) with 0. lia.
  - apply insert_step in Hok as (id & t3 & -> & Hok). cbn [res_bind]. eexists _, _. split; [done|]. split.
    + by apply (jobs_ok_perm _ _ _ (symmetry (concat_middle _ _ _ _))).
    + rewrite !work_middle. unfold job_work. cbn. rewrite vsize_cons. lia.
Qed.

Lemma step_ok ths t ths' t' : jobs_ok (concat ths) t -> thread_step (ths, t) (ths', t') ->
  jobs_ok (concat ths') t' /\ work ths = work ths' + 1.
Proof. intros Hok (i & E). destruct (run_thread_ok _ _ _ _ Hok E) as (? & ? & [= <- <-] & H). exact H. Qed.

Lemma run_ok n ths t ths' t' : jobs_ok (concat ths) t -> nsteps thread_step n (ths, t) (ths', t') ->
  jobs_ok (concat ths') t' /\ work ths = work ths' + Z.of_nat n.
Proof.
  revert ths t. induction n as [|n IH]; intros ths t Hok Hn; inversion Hn as [|? ? [ths1 t1] ? Hs Hn']; subst; [split; [done|lia]|].
  destruct (step_ok _ _ _ _ Hok Hs) as [Hok1 Hw]. destruct (IH ths1 t1 Hok1 Hn') as [Hok2 Hw2]. split; [done|lia].
Qed.
End Threads.

Lemma flat_map_if {B} (P : Z -> bool) (f : Z -> B) l :
  flat_map (fun d => if P d then [f d] else []) l = map f (filter (fun d => P d = true) l).
Proof.
  induction l as [|d l IH]; [done|]. rewrite filter_cons. cbn. rewrite IH.
  destruct (P d); [by rewrite decide_True|by rewrite decide_False].
Qed.

(** Together the threads have the documents from [lastDocId] on. *)
Lemma all_jobs paths n start hi last : 0 < n -> start <= last ->
  concat (map (thread_jobs paths n start hi last) (seqZ 0 n)) ≡ₚ map (fun d => (d, paths d, [])) (seqZ last (hi - last + 1)).
Proof.
  intros Hn Hs. rewrite <- flat_map_concat_map. etransitivity; [by apply residue_classes|]. rewrite flat_map_if.
  apply Permutation_refl'. f_equal. apply ssorted_ext.
  - apply ssorted_filter, ssorted_seqZ.
  - apply ssorted_seqZ.
  - intros d. rewrite list_elem_of_filter, Z.leb_le, !elem_of_seqZ. lia.
Qed.

Section Build.
Context {D : Type} (maxDocId : Z) (getDocument : Z -> option D) (getRTypePropertiesForDocument : Z -> D -> D) (new_document : D).
Context (propValue : D -> ustr) (compact : ustr -> ustr).
Notation doc_paths := (doc_paths getDocument getRTypePropertiesForDocument new_document propValue compact).
Notation docs_room := (docs_room getDocument getRTypePropertiesForDocument new_document propValue compact).
Hypothesis Htext : forall d, vsize (doc_text getDocument getRTypePropertiesForDocument new_document propValue d) < 2 ^ 64.

Lemma jobs_room l : zsum job_nodes (map (fun d => (d, doc_paths d, [])) l) <= docs_room l /\
  zsum job_words (map (fun d => (d, doc_paths d, [])) l) <= docs_room l.
Proof.
  induction l as [|d l IH]; [done|]. cbn [map zsum]. change (docs_room (d :: l)) with (nodes (doc_paths d) + 1 + docs_room l).
  change (job_nodes (d, doc_paths d, [])) with (nodes (doc_paths d)).
  change (job_words (d, doc_paths d, [])) with (vsize (doc_paths d) + 0 + 1).
  destruct (doc_paths_ok getDocument getRTypePropertiesForDocument new_document propValue compact Htext d) as [_ Hne].
  pose proof (nodes_size _ Hne). lia.
Qed.

(** C20: the threads build the index whatever the order of their steps. After any
    steps of the threads in any order, the next step of every thread that has a
    document left returns - none is undefined, throws or runs out of fuel, so that
    such a thread can go on -, the number of steps is bounded, and when all
    threads are finished the table has for each new document the paths of its
    text and for each other document what it had - the index the sequential
    builder gives, although the ids may differ. *)
Theorem threads_build_index threadNum_ startDocId lastDocId t g k ths t' :
  0 < threadNum_ -> 0 <= startDocId <= lastDocId -> lastDocId <= maxDocId + 1 -> maxDocId < 2 ^ 32 - 1 ->
  index_rep t g -> has_room t (docs_room (seqZ lastDocId (maxDocId - lastDocId + 1))) ->
  let started := map (thread_jobs doc_paths threadNum_ startDocId maxDocId lastDocId) (seqZ 0 threadNum_) in
  nsteps thread_step k (started, t) (ths, t') ->
  Z.of_nat k <= work started /\
  (forall i j jobs, ths !! i = Some (j :: jobs) -> exists st, run_thread i (ths, t') = Some (Ret st)) /\
  (Forall (eq []) ths -> index_rep t' (frange lastDocId maxDocId doc_paths g)).
Proof.
  intros Hn Hs Hl Hmax Hg [Hr1 Hr2] started Hrun.
  set (docs := seqZ lastDocId (maxDocId - lastDocId + 1)) in *. set (jobs := map (fun d => (d, doc_paths d, @nil Z)) docs).
  assert (concat started ≡ₚ jobs) as Hperm by (apply all_jobs; lia).
  assert (map job_doc jobs = docs) as Hdocs by (subst jobs; rewrite map_map; apply map_id).
  assert (jobs_ok g (frange lastDocId maxDocId doc_paths g) (concat started) t) as Hok.
  { apply (jobs_ok_perm _ _ _ _ _ (symmetry Hperm)). destruct (jobs_room docs) as [H1 H2]. fold jobs in H1, H2.
    split; [unfold docs_of; rewrite Hdocs; apply NoDup_seqZ|]. split; [|split; [|lia]].
    - eapply index_ext; [|exact Hg]. intros d _. unfold pending, docs_of. rewrite Hdocs.
      destruct (decide (d ∈ docs)) as [Hin|Hin]; [done|]. subst docs. rewrite elem_of_seqZ in Hin. by rewrite frange_out by lia.
    - apply Forall_forall. intros j (d & -> & Hd)%list_elem_of_fmap. apply elem_of_seqZ in Hd.
      unfold job_ok, job_doc, job_paths, job_ids. cbn [fst snd].
      destruct (doc_paths_ok getDocument getRTypePropertiesForDocument new_document propValue compact Htext d) as [_ Hne].
      split; [lia|]. split; [done|]. exists []. split; [|constructor]. by rewrite frange_in by lia. }
  destruct (run_ok _ _ _ _ _ _ _ Hok Hrun) as [Hok' Hw]. split.
  - assert (0 <= work ths); [|lia]. apply zsum_nonneg. intros j. unfold job_work. pose proof (vsize_nonneg (job_paths j)). lia.
  - split.
    { intros i j jobs' Ei. destruct (run_thread i (ths, t')) as [r|] eqn:Er; [|unfold run_thread in Er; cbn [fst] in Er; by rewrite Ei in Er].
      destruct (run_thread_ok _ _ _ _ _ _ Hok' Er) as (ths2 & t2 & -> & _). by eexists. }
    intros Hdone. destruct Hok' as (_ & Hg' & _). eapply index_ext; [|exact Hg']. intros d _. unfold pending. rewrite decide_False; [done|].
    unfold docs_of. clear -Hdone. induction Hdone as [|? ? <- _ IH]; [by intros ?%elem_of_nil|exact IH].
Qed.
End Build.

(** ** An example

Two threads: the second inserts its path between the two of the first. *)
Lemma threads_build_index_witness : exists t',
  nsteps thread_step 5 (map (thread_jobs (doc_paths two_docs (fun _ doc => doc) [] id trim) 2 1 2 1) (seqZ 0 2), PropValueTable.new_value_table []) ([[]; []], t') /\
  index_rep t' (frange 1 2 (doc_paths two_docs (fun _ doc => doc) [] id trim) (fun _ => [])).
Proof.
  eexists. match goal with |- ?P /\ _ => assert P as Hrun end.
  - change (map _ (seqZ 0 2)) with [[(2, [[text "pc"]], @nil Z)]; [(1, [[text "pc"; text "net"]; [text "life"]], [])]].
    eapply nsteps_l; [exists 1%nat; vm_compute; reflexivity|].
    eapply nsteps_l; [exists 0%nat; vm_compute; reflexivity|].
    eapply nsteps_l; [exists 1%nat; vm_compute; reflexivity|].
    eapply nsteps_l; [exists 0%nat; vm_compute; reflexivity|].
    eapply nsteps_l; [exists 1%nat; vm_compute; reflexivity|].
    apply nsteps_O.
  - split; [exact Hrun|].
    destruct (threads_build_index 2 two_docs (fun _ doc => doc) [] id trim two_texts_short 2 1 1
      (PropValueTable.new_value_table []) (fun _ => []) _ _ _ ltac:(lia) ltac:(lia) ltac:(lia) ltac:(lia) new_index
      ltac:(vm_compute; split; reflexivity) Hrun) as (_ & _ & Hg). apply Hg. by repeat constructor.
Defined.
