(* ===== verification/AttrMining.v ===== *)
(** * Building the index of the attribute property

Models mining-manager/attr-manager/AttrMiningTask.cpp and the test of excluded
names of configuration-manager/AttrConfig.h: the task that splits the text of
the attribute property of each new document into names and values and writes
their ids to a copy of the table, which replaces the table at the end. The
document and the conversion of texts to UTF-8 are parameters. *)
From Stdlib Require Import String Ascii.
From S2P Require Import Prelude OrdMap Storage PropIdTable SplitUstr AttrTable GroupLabels MiningTask.

Notation attrs := (AttrTable ustr).
Implicit Types t : attrs.

(** ** AttrConfig.h *)
Record AttrConfig := AttrConf { attr_propName : string; excludeAttrNames : list string }.

(** ** AttrMiningTask.cpp *)
Record AttrMiningTask := AttrTask { attr_swapper : TableSwapper attrs; attr_files_ : attr_files ustr }.

Section AttrMiningTask.
Context {D : Type} (maxDocId : Z) (attrConfig_ : AttrConfig) (findProperty : D -> option ustr).
Context (compact : ustr -> ustr) (to_utf8 : ustr -> string) (can_write : bool * bool * bool * bool * bool * bool).
Implicit Types s : AttrMiningTask.

Definition isExcludeAttrName (attrName : ustr) : bool :=
  existsb (fun name => String.eqb (upper name) (upper (to_utf8 attrName))) (excludeAttrNames attrConfig_).

#[export] Instance attr_swap_table : SwapTable attrs := {|
  new_table := new_attr_table [];
  table_assign := attr_assign;
  table_resize := attr_resize;
  table_swap := attr_swap
|}.

Definition new_attr_task (attrTable : attrs) (files : attr_files ustr) : AttrMiningTask := AttrTask (new_swapper attrTable) files.

Definition attr_preProcess (timestamp : Z) s : res (bool * AttrMiningTask) :=
  let startDocId := u32 (docIdNum (reader (attr_swapper s))) in
  if maxDocId <? startDocId then Ret (false, s)
  else Ret (true, AttrTask (swapper_copy (u32 (maxDocId + 1)) (attr_swapper s)) (attr_files_ s)).

Definition attr_lastDocId s : Z := u32 (docIdNum (reader (attr_swapper s))).

Definition attr_postProcess s : res (bool * AttrMiningTask) :=
  let* (ok, w, files) := AttrTable.flush can_write (writer (attr_swapper s)) (attr_files_ s) in
  let swapper := Swapper (reader (attr_swapper s)) w in
  if negb ok then Ret (false, AttrTask swapper files) else Ret (true, AttrTask (swapper_swap swapper) files).

(** The loop over the values of a name, until an exception: the table, the ids
    so far, and whether all values were inserted. *)
Fixpoint insert_values (nameId : Z) (values : list ustr) (valueIdList : list Z) t : res (attrs * list Z * bool) :=
  match values with
  | [] => Ret (t, valueIdList, true)
  | value :: values =>
      let* (t, valueId) := insertValueId nameId value t in
      match valueId with
      | Some valueId => insert_values nameId values (valueIdList ++ [valueId]) t
      | None => Ret (t, valueIdList, false)
      end
  end.

Fixpoint insert_pairs (attrPairs : list AttrPair) (valueIdList : list Z) t : res (attrs * list Z) :=
  match attrPairs with
  | [] => Ret (t, valueIdList)
  | (attrName, attrValues) :: attrPairs =>
      if isExcludeAttrName attrName then insert_pairs attrPairs valueIdList t
      else
        let* (t, nameId) := insertNameId attrName t in
        match nameId with
        | None => Ret (t, valueIdList)
        | Some nameId =>
            let* (t, valueIdList, ok) := insert_values nameId attrValues valueIdList t in
            if (ok : bool) then insert_pairs attrPairs valueIdList t else Ret (t, valueIdList)
        end
  end.

Definition attr_buildDoc (docID : Z) (doc : D) t : res attrs :=
  let* (t, valueIdList) :=
    match findProperty doc with
    | Some propValue => let* attrPairs := split_attr_pair compact propValue [] in insert_pairs attrPairs [] t
    | None => Ret (t, [])
    end in
  let* (t, _) := setValueIdList docID valueIdList t in Ret t.

Definition attr_buildDocument (docID : Z) (doc : D) s : res (bool * AttrMiningTask) :=
  let* w := attr_buildDoc docID doc (writer (attr_swapper s)) in
  Ret (true, AttrTask (Swapper (reader (attr_swapper s)) w) (attr_files_ s)).

#[export] Instance attr_mining : MiningTask D AttrMiningTask := {|
  preProcess := attr_preProcess;
  buildDocument := attr_buildDocument;
  postProcess := attr_postProcess;
  getLastDocId := attr_lastDocId
|}.

#[export] Instance attr_mining_laws : MiningTaskLaws D AttrMiningTask.
Proof. constructor. intros d doc s r s' (w & _ & [= _ <-])%bind_Ret_inv. done. Qed.
End AttrMiningTask.

(** ** What the table indexes *)

(** Document [d] has the attributes [g d], as pairs of name and value. *)
Definition attr_id t (a : ustr * ustr) (id : Z) : Prop :=
  a.1 <> [] /\ a.2 <> [] /\ 0 <= id < valueNum t /\ valueStr id t = Ret a.2 /\
  exists n, valueId2NameId id t = Ret n /\ nameStr n t = Ret a.1.

(** Id 0 is the empty name and the empty value. *)
Definition tree_rep t : Prop := attr_ok t /\ nameStr 0 t = Ret [] /\ valueStr 0 t = Ret [].

Definition attr_index t (g : Z -> list (ustr * ustr)) : Prop :=
  tree_rep t /\ exists f, table_rep (valueIdTable_ t) f /\ forall d, 0 <= d -> Forall2 (attr_id t) (g d) (f d).

Lemma attr_index_ext t g g' : (forall d, 0 <= d -> g d = g' d) -> attr_index t g -> attr_index t g'.
Proof.
  intros He (Ht & f & Hf & Hg). split; [done|]. exists f. split; [done|]. intros d Hd. rewrite <- He by done. by apply Hg.
Qed.

Lemma attr_id_extends t t' a id : attr_extends t t' -> attr_id t a id -> attr_id t' a id.
Proof.
  intros (X1 & X2 & _) (H1 & H2 & H3 & H4 & n & H5 & H6). destruct (X2 id n a.2 H3 H4 H5) as [E1 E2].
  split; [done|]. split; [done|]. split; [by eapply vget_range|]. split; [done|]. exists n. split; [done|].
  apply X1; [by eapply vget_range|done].
Qed.

Lemma attr_ids_extend t t' l ids : attr_extends t t' -> Forall2 (attr_id t) l ids -> Forall2 (attr_id t') l ids.
Proof. intros He H. eapply Forall2_impl; [exact H|]. intros a id. by apply attr_id_extends. Qed.

Lemma attr_id_pos t a id : tree_rep t -> attr_id t a id -> 0 < id < 2 ^ 32.
Proof.
  intros ((_ & Hv & _) & _ & H0) (_ & H2 & H3 & H4 & _). assert (id <> 0) by (intros ->; congruence). lia.
Qed.

Lemma tree_rep_extends t t' : tree_rep t -> attr_ok t' -> attr_extends t t' -> tree_rep t'.
Proof.
  intros ((Hn & Hv & _ & Hi & _ & Hg & _) & H1 & H2) Ht' (X1 & X2 & _). split; [done|]. split; [apply X1; [lia|done]|].
  destruct (Hg 0 ltac:(lia)) as (n & En & _). apply (X2 0 n []); [lia|done..].
Qed.

Lemma attr_index_extends t t' g : attr_index t g -> attr_ok t' -> attr_extends t t' -> attr_index t' g.
Proof.
  intros (Ht & f & Hf & Hg) Ht' Hx. split; [by eapply tree_rep_extends|]. exists f. pose proof Hx as (_ & _ & ->).
  split; [done|]. intros d Hd. eapply attr_ids_extend; [done|]. by apply Hg.
Qed.

(** *** Labels *)
Section Label.
Context (ustring : string -> ustr) (t : attrs) (g : Z -> list (ustr * ustr)).
Hypothesis Hg : attr_index t g.

(** The id of a name and a value is that of no other attribute. *)
Lemma target_id name value : exists v, valueId (nameId name t) value t = Ret v /\
  forall a id, attr_id t a id -> id = v <-> a = (name, value).
Proof.
  destruct Hg as ((Ht & H0 & _) & _). pose proof Ht as (Hn & _ & [_ Hm] & _).
  destruct (valueId_ok t _ value Ht (nameId_range t name Ht)) as (v & Ev & Hto & Hfrom). exists v. split; [done|].
  intros [n' v'] id Ha. pose proof (attr_id_pos t _ _ (proj1 Hg) Ha) as Hpos. destruct Ha as (Hn' & _ & Hr & Ev' & n & En & Es). cbn in *. split.
  - intros ->. destruct Hfrom as [E1 E2]; [lia|]. f_equal; [|congruence]. assert (n = nameId name t) as -> by congruence.
    unfold nameId in *. destruct (om_find (nameStrMap_ t) name) as [k|] eqn:Ef; cbn in *; [|congruence].
    apply Hm in Ef as [_ Ef]. unfold nameStr in *. congruence.
  - intros [= -> ->]. apply Hto; [lia| |done]. rewrite En. f_equal. unfold nameId.
    assert (om_find (nameStrMap_ t) name = Some n) as ->; [|done]. apply Hm. split; [|exact Es]. by eapply vget_range in Es as [? _].
Qed.

Lemma attr_targets nId name values : nId = nameId name t ->
  exists ids, attr_target_ids ustring t nId values = Ret ids /\
    forall a id, attr_id t a id -> id ∈ ids <-> exists v, v ∈ values /\ a = (name, ustring v).
Proof.
  intros ->. unfold attr_target_ids.
  destruct (mfold_rule (fun value ids => let* targetId := valueId (nameId name t) (ustring value) t in Ret ({[targetId]} ∪ ids))
    (fun left (ids : gset Z) => exists before, values = before ++ left /\
       forall a id, attr_id t a id -> id ∈ ids <-> exists v, v ∈ before /\ a = (name, ustring v)) values ∅) as (ids & -> & before & Eb & H).
  - intros v left ids (before & E & H). destruct (target_id name (ustring v)) as (x & -> & Hx). rsimpl. eexists. split; [done|].
    exists (before ++ [v]). rewrite <- app_assoc. split; [done|]. intros a id Ha.
    rewrite elem_of_union, elem_of_singleton, (Hx a id Ha), (H a id Ha). split.
    + intros [->|(w & Hw & ->)]; [exists v|exists w]; rewrite elem_of_app, list_elem_of_singleton; tauto.
    + intros (w & [Hw|Hw%list_elem_of_singleton]%elem_of_app & ->); [right; by exists w|left; by subst].
  - exists []. split; [done|]. intros a id _. split; [set_solver|]. by intros (v & ?%elem_of_nil & _).
  - exists ids. split; [done|]. rewrite app_nil_r in Eb. by subst.
Qed.

(** The early end of the loop does not matter. *)
Lemma label_test_any (ids : gset Z) nId f doc : table_rep (valueIdTable_ t) f -> 0 <= doc ->
  attr_label_test doc (AttrLab t nId ids) = Ret (existsb (fun id => bool_decide (id ∈ ids)) (f doc)).
Proof.
  intros Hf Hd. unfold attr_label_test, getValueIdList. cbn [attr_label_table attr_targetValueIds_].
  destruct (getIdList_rep _ _ _ Hf Hd) as (il & -> & Hsz & Hat). cbn [res_bind]. rewrite Hsz.
  match goal with |- context [mfold ?b _ _] => set (body := b) end.
  destruct (mfold_seqZ body (fun i b => b = existsb (fun id => bool_decide (id ∈ ids)) (take (Z.to_nat i) (f doc))) 0 (vsize (f doc)) false)
    as (r & -> & ->).
  - apply vsize_nonneg.
  - intros i b Hi ->. unfold body. rewrite Hat by lia. destruct (vget_in_range (f doc) i ltac:(lia)) as [x Ex]. rewrite Ex. rsimpl.
    apply vget_Ret in Ex as [_ Ex]. replace (Z.to_nat (i + 1)) with (Datatypes.S (Z.to_nat i)) by lia.
    rewrite (take_S_r _ _ x), existsb_app by done. cbn [existsb]. rewrite orb_false_r.
    destruct (existsb _ (take _ _)); eexists; (split; [done|]); done.
  - done.
  - rsimpl. by rewrite (firstn_all2 (f doc)) by (unfold vsize; lia).
Qed.
End Label.

(** An attribute label accepts exactly the documents that have the label's
    name with one of its values; a name or value that no document has, and the
    empty ones, select nothing. *)
Theorem attr_label_selects (ustring : string -> ustr) t g name values doc : attr_index t g -> 0 <= doc ->
  exists label b, new_attr_label ustring t name values = Ret label /\ attr_label_test doc label = Ret b /\
    (b = true <-> exists v, v ∈ values /\ (ustring name, ustring v) ∈ g doc).
Proof.
  intros Hg Hd. pose proof Hg as (_ & f & Hf & Hdoc). specialize (Hdoc doc Hd). unfold new_attr_label. cbv zeta.
  destruct (attr_targets ustring t g Hg _ (ustring name) values eq_refl) as (ids & -> & Hids). rsimpl. eexists _, _. split; [done|].
  split; [by apply (label_test_any t ids _ f)|]. rewrite existsb_exists. split.
  - intros (id & Hid%list_elem_of_In & Hin%bool_decide_eq_true). apply list_elem_of_lookup_1 in Hid as [i Hi].
    destruct (Forall2_lookup_r _ _ _ _ _ Hdoc Hi) as (a & Ha & Hai). destruct (proj1 (Hids a id Hai) Hin) as (v & Hv & ->).
    exists v. split; [done|]. by eapply list_elem_of_lookup_2.
  - intros (v & Hv & Ha). apply list_elem_of_lookup_1 in Ha as [i Hi].
    destruct (Forall2_lookup_l _ _ _ _ _ Hdoc Hi) as (id & Hid & Hai). exists id.
    split; [apply list_elem_of_In; by eapply list_elem_of_lookup_2|]. apply bool_decide_eq_true, (Hids _ id Hai). by exists v.
Qed.

(** ** The task *)
Section TaskProofs.
Context {D : Type} (maxDocId : Z) (getDocument : Z -> option D) (getRTypePropertiesForDocument : Z -> D -> D) (new_document : D).
Context (attrConfig_ : AttrConfig) (findProperty : D -> option ustr) (compact : ustr -> ustr) (to_utf8 : ustr -> string).

Notation load_document := (load_document getDocument getRTypePropertiesForDocument new_document).
Notation insert_pairs := (insert_pairs attrConfig_ to_utf8).
Notation attr_buildDoc := (attr_buildDoc attrConfig_ findProperty compact to_utf8).

(** The attributes of a list of names with values, without the excluded names. *)
Fixpoint attrs_of (pairs : list AttrPair) : list (ustr * ustr) :=
  match pairs with
  | [] => []
  | (name, values) :: pairs =>
      (if isExcludeAttrName attrConfig_ to_utf8 name then [] else map (pair name) values) ++ attrs_of pairs
  end.

Definition attr_text (doc : D) : ustr := default [] (findProperty doc).
Definition doc_attrs (d : Z) : list (ustr * ustr) :=
  match split_attr_pair compact (attr_text (load_document d)) [] with Ret pairs => attrs_of pairs | _ => [] end.

Hypothesis Htext : forall d, vsize (attr_text (load_document d)) < 2 ^ 64.

Lemma insert_values_ok n name values : forall ids t, attr_ok t -> 0 <= n -> nameStr n t = Ret name -> name <> [] -> Forall (.≠ []) values ->
  valueNum t + vsize values < 2 ^ 32 ->
  exists t' new, insert_values n values ids t = Ret (t', ids ++ new, true) /\ attr_ok t' /\ attr_extends t t' /\
    Forall2 (attr_id t') (map (pair name) values) new /\ valueNum t' <= valueNum t + vsize values /\ nameNum t' = nameNum t.
Proof.
  induction values as [|v values IH]; intros ids t Ht Hn Hs Hne Hv Hroom; cbn [insert_values map].
  { exists t, []. rewrite app_nil_r. split; [done|]. split; [done|]. split; [apply attr_extends_refl|]. split; [constructor|]. unfold vsize; cbn; lia. }
  apply Forall_cons in Hv as [Hv0 Hv]. rewrite vsize_cons in *. pose proof (vsize_nonneg values).
  pose proof (vget_range _ _ _ Hs) as Hr.
  destruct (insertValueId_ok t n v Ht Hr ltac:(lia)) as (t1 & id & -> & Ht1 & Hx1 & Hid & Hle & Hnames & _ & _ & E1 & E2). rsimpl.
  assert (nameStr n t1 = Ret name) as Hs1 by (unfold nameStr in *; by rewrite Hnames).
  destruct (IH (ids ++ [id]) t1 Ht1 Hn Hs1 Hne Hv ltac:(lia)) as (t2 & new & -> & Ht2 & Hx2 & Hnew & Hle2 & Hn2).
  exists t2, (id :: new). rewrite <- app_assoc. split; [done|]. split; [done|]. split; [by eapply attr_extends_trans|]. split; [|split; [lia|]].
  - constructor; [|done]. eapply attr_id_extends; [done|]. split; [done|]. split; [done|]. split; [done|]. split; [done|]. by exists n.
  - rewrite Hn2. unfold nameNum. by rewrite Hnames.
Qed.

Lemma insert_pairs_ok pairs : forall ids t, attr_ok t -> Forall pair_ok pairs ->
  nameNum t + vsize pairs < 2 ^ 32 -> valueNum t + vsize (attrs_of pairs) < 2 ^ 32 ->
  exists t' new, insert_pairs pairs ids t = Ret (t', ids ++ new) /\ attr_ok t' /\ attr_extends t t' /\
    Forall2 (attr_id t') (attrs_of pairs) new /\ nameNum t' <= nameNum t + vsize pairs /\ valueNum t' <= valueNum t + vsize (attrs_of pairs).
Proof.
  induction pairs as [|[name values] pairs IH]; intros ids t Ht Hp Hn Hv; cbn [AttrMining.insert_pairs attrs_of] in *.
  { exists t, []. rewrite app_nil_r. split; [done|]. split; [done|]. split; [apply attr_extends_refl|]. split; [constructor|]. unfold vsize; cbn; lia. }
  apply Forall_cons in Hp as [[Hname [_ Hvals]] Hp]. cbn in Hname, Hvals. rewrite vsize_cons in Hn |- *. rewrite vsize_app in Hv |- *.
  pose proof (vsize_nonneg pairs). pose proof (vsize_nonneg (attrs_of pairs)).
  destruct (isExcludeAttrName attrConfig_ to_utf8 name); cbn [app].
  { destruct (IH ids t Ht Hp ltac:(lia)) as (t' & new & E & Ht' & Hx & Hnew & H1 & H2); [change (vsize []) with 0 in Hv; lia|].
    exists t', new. split; [done|]. split; [done|]. split; [done|]. split; [done|]. change (vsize []) with 0. lia. }
  assert (vsize (map (pair name) values) = vsize values) as Hlen by (unfold vsize; by rewrite length_map). rewrite Hlen in *.
  pose proof (vsize_nonneg values).
  destruct (insertNameId_ok t name Ht ltac:(lia)) as (t1 & n & -> & Ht1 & Hx1 & Hr & Hn1 & Hv1 & _ & Hs). rsimpl.
  destruct (insert_values_ok n name values ids t1 Ht1 ltac:(lia) Hs Hname Hvals ltac:(lia)) as (t2 & new2 & -> & Ht2 & Hx2 & Hnew2 & Hv2 & Hn2). rsimpl.
  destruct (IH (ids ++ new2) t2 Ht2 Hp ltac:(lia) ltac:(lia)) as (t3 & new3 & -> & Ht3 & Hx3 & Hnew3 & Hn3 & Hv3).
  exists t3, (new2 ++ new3). rewrite <- app_assoc. split; [done|]. split; [done|].
  split; [by repeat (eapply attr_extends_trans; [done|])|]. split; [|lia]. apply Forall2_app; [|done]. by eapply attr_ids_extend.
Qed.
(** The room a document needs in the table. *)
Definition doc_need (d : Z) : Z :=
  match split_attr_pair compact (attr_text (load_document d)) [] with Ret pairs => vsize pairs | _ => 0 end + vsize (doc_attrs d) + 1.
Fixpoint attrs_room (l : list Z) : Z := match l with [] => 0 | d :: l => doc_need d + attrs_room l end.

Lemma doc_need_pos d : 0 < doc_need d.
Proof. unfold doc_need. pose proof (vsize_nonneg (doc_attrs d)). destruct (split_attr_pair _ _ _) as [l| | |]; [pose proof (vsize_nonneg l)|..]; lia. Qed.

Lemma attrs_room_nonneg l : 0 <= attrs_room l.
Proof. induction l as [|d l IH]; cbn; [lia|]. pose proof (doc_need_pos d). lia. Qed.

Definition attr_room t (n : Z) : Prop :=
  nameNum t + n < 2 ^ 32 /\ valueNum t + n < 2 ^ 31 /\ vsize (multiValueTable_ (valueIdTable_ t)) + n < 2 ^ 31.

Lemma set_values_ok t g d l ids : attr_index t g -> 0 <= d < 2 ^ 32 - 1 -> Forall2 (attr_id t) l ids ->
  valueNum t < 2 ^ 31 -> vsize (multiValueTable_ (valueIdTable_ t)) < 2 ^ 31 -> vsize ids < 2 ^ 31 ->
  exists t', setValueIdList d ids t = Ret (t', true) /\ attr_index t' (fset d l g) /\ nameNum t' = nameNum t /\ valueNum t' = valueNum t /\
    vsize (multiValueTable_ (valueIdTable_ t')) <= vsize (multiValueTable_ (valueIdTable_ t)) + vsize ids + 1.
Proof.
  intros (Ht & f & Hf & Hg) Hd Hids Hn Hm Hl. unfold setValueIdList.
  assert (Forall (fun i => 0 < i < valueNum t) ids) as Hr.
  { clear -Ht Hids. induction Hids as [|a i l ids H _ IH]; constructor; [|done]. pose proof (attr_id_pos _ _ _ Ht H). destruct H as (_ & _ & H & _). lia. }
  destruct (setIdList_rep _ f d ids Hf Hd) as [(pt & E & Hpt)|[[(i & -> & Hi)|[_ Hi]] _]].
  { eapply Forall_impl; [exact Hr|]. cbn. lia. }
  { lia. }
  - rewrite E. pose proof (setIdList_size _ _ _ _ E). eexists. split; [done|].
    assert (stored ids = ids) as Hst.
    { unfold stored. case_decide as E0; [|done]. subst. apply Forall_cons in Hr as [Hr _]. lia. }
    split; [|split; [done|split; [done|done]]]. split; [exact Ht|]. eexists. split; [exact Hpt|].
    intros k Hk. cbv beta. unfold fset. rewrite Hst. destruct (k =? d); [exact Hids|]. by apply (Hg k).
  - apply Forall_cons in Hr as [Hr _]. unfold INDEX_MSB in Hi. lia.
  - unfold INDEX_MSB in Hi. lia.
Qed.

Lemma attr_buildDoc_ok t g d n : attr_index t g -> 0 <= d < 2 ^ 32 - 1 -> 0 <= n -> attr_room t (doc_need d + n) ->
  exists t', attr_buildDoc d (load_document d) t = Ret t' /\ attr_index t' (fset d (doc_attrs d) g) /\ attr_room t' n.
Proof.
  intros Hg Hd Hn (R1 & R2 & R3). unfold AttrMining.attr_buildDoc.
  assert (exists t1 ids, match findProperty (load_document d) with
     | Some propValue => let* attrPairs := split_attr_pair compact propValue [] in insert_pairs attrPairs [] t
     | None => Ret (t, [])
     end = Ret (t1, ids) /\ attr_index t1 g /\ Forall2 (attr_id t1) (doc_attrs d) ids /\ valueIdTable_ t1 = valueIdTable_ t /\
     nameNum t1 <= nameNum t + (doc_need d - 1 - vsize (doc_attrs d)) /\ valueNum t1 <= valueNum t + vsize (doc_attrs d)) as (t1 & ids & -> & Hg1 & Hids & Hsame & Hn1 & Hv1).
  { pose proof (Htext d) as Hlen. unfold doc_need, doc_attrs, attr_text in *. destruct (findProperty (load_document d)) as [text|]; cbn [default from_option id] in *.
    - destruct (turns_total pair_ok (attr_body compact) text [] Hlen (attr_turn compact)) as (pairs & E & Hp).
      change (split_attr_pair compact text [] = Ret pairs) in E. rewrite E in *. rsimpl. pose proof (vsize_nonneg (attrs_of pairs)). pose proof (vsize_nonneg pairs).
      destruct (insert_pairs_ok pairs [] t (proj1 (proj1 Hg)) Hp ltac:(lia) ltac:(lia)) as (t1 & ids & -> & Ht1 & Hx & Hids & H1 & H2).
      exists t1, ids. split; [done|]. split; [by eapply attr_index_extends|]. split; [done|]. split; [by destruct Hx as (_ & _ & ?)|]. lia.
    - assert (split_attr_pair compact [] [] = Ret []) as -> by reflexivity. exists t, []. split; [done|]. split; [done|].
      split; [constructor|]. split; [done|]. change (vsize (attrs_of [])) with 0. change (vsize (@nil AttrPair)) with 0. lia. }
  rsimpl. pose proof (Forall2_length _ _ _ Hids) as Hlen. pose proof (doc_need_pos d).
  assert (0 <= doc_need d - 1 - vsize (doc_attrs d)) by (unfold doc_need; destruct (split_attr_pair _ _ _) as [l| | |]; [pose proof (vsize_nonneg l)|..]; lia).
  assert (vsize ids = vsize (doc_attrs d)) as Hsz by (unfold vsize; lia). pose proof (vsize_nonneg (doc_attrs d)).
  pose proof (vsize_nonneg (multiValueTable_ (valueIdTable_ t))). assert (0 <= valueNum t) by apply vsize_nonneg.
  destruct (set_values_ok t1 g d (doc_attrs d) ids Hg1 Hd Hids) as (t2 & -> & Hg2 & E1 & E2 & E3); [lia|rewrite Hsame; lia|lia|].
  rsimpl. exists t2. split; [done|]. split; [done|]. rewrite Hsame in E3. unfold attr_room. lia.
Qed.

Lemma attr_docs_ok s lo hi g : 0 <= lo -> hi < 2 ^ 32 - 1 -> lo <= hi + 1 ->
  attr_index (writer (attr_swapper s)) g -> attr_room (writer (attr_swapper s)) (attrs_room (seqZ lo (hi - lo + 1))) ->
  exists w, mfold (fun docid s => let* (_, s) := attr_buildDocument attrConfig_ findProperty compact to_utf8 docid (load_document docid) s in Ret s)
      (seqZ lo (hi - lo + 1)) s = Ret (AttrTask (Swapper (reader (attr_swapper s)) w) (attr_files_ s)) /\ attr_index w (frange lo hi doc_attrs g).
Proof.
  intros Hlo Hhi Hle Hg Hroom.
  destruct (mfold_seqZ (fun docid s => let* (_, s) := attr_buildDocument attrConfig_ findProperty compact to_utf8 docid (load_document docid) s in Ret s)
    (fun i s' => reader (attr_swapper s') = reader (attr_swapper s) /\ attr_files_ s' = attr_files_ s /\
       attr_index (writer (attr_swapper s')) (frange lo (i - 1) doc_attrs g) /\ attr_room (writer (attr_swapper s')) (attrs_room (seqZ i (hi + 1 - i))))
    lo (hi - lo + 1) s) as (s' & -> & Hr & Hfs & Hg' & _).
  - lia.
  - intros i s1 Hi (Hr & Hfs & Hg1 & Hroom1). unfold attr_buildDocument.
    rewrite seqZ_cons in Hroom1 by lia. cbn [attrs_room] in Hroom1.
    destruct (attr_buildDoc_ok (writer (attr_swapper s1)) _ i _ Hg1 ltac:(lia) (attrs_room_nonneg _) Hroom1) as (w & -> & Hg2 & Hroom2).
    rsimpl. eexists. split; [done|]. cbn. split; [done|]. split; [done|]. split.
    + eapply attr_index_ext; [|exact Hg2]. intros d _. replace (i + 1 - 1) with i by lia. apply frange_snoc. lia.
    + replace (hi + 1 - (i + 1)) with (Z.pred (hi + 1 - i)) by lia. exact Hroom2.
  - split; [done|]. split; [done|]. split.
    + eapply attr_index_ext; [|exact Hg]. intros d _. by rewrite frange_out by lia.
    + by replace (hi + 1 - lo) with (hi - lo + 1) by lia.
  - exists (writer (attr_swapper s')). split; [by destruct s' as [[] ?]; cbn in *; subst|].
    by replace (lo + (hi - lo + 1) - 1) with hi in Hg' by lia.
Qed.
(** Flushing succeeds when all files can be written, and keeps the index. *)
Lemma attr_flush_index t g fs : attr_index t g ->
  exists t' fs', AttrTable.flush (true, true, true, true, true, true) t fs = Ret (true, t', fs') /\ attr_index t' g.
Proof.
  intros Hg. pose proof Hg as [[(Hn & _ & _ & _ & Hc & _) _] _]. unfold AttrTable.flush.
  destruct (saveNameValuePair_ok true t (name_value_file fs) Hc Hn) as (ok & f0 & -> & Hok). rewrite Hok by done. cbn [res_bind negb].
  assert (forall A (l : list A) n f, exists n' f', save_grown true l n f = (true, n', f')) as Hsave.
  { intros A l n f. unfold save_grown. case_match; eauto. }
  repeat (match goal with |- context [save_grown true ?l ?n ?f] => destruct (Hsave _ l n f) as (? & ? & ->) end; cbn [negb]).
  eexists _, _. split; [done|exact Hg].
Qed.

Notation run_task := (run_task (MiningTask0 := attr_mining maxDocId attrConfig_ findProperty compact to_utf8 (true, true, true, true, true, true))
  maxDocId getDocument getRTypePropertiesForDocument new_document).

(** C19: the task keeps the index of the attribute property equal to the
    documents. From a table that indexes [g], preparing the task, building its
    documents and finishing it succeed, and afterwards the table the queries
    read has for each new document the names with values of its text, in order
    and without the excluded names, and for each other document what it had. *)
Theorem attr_task_indexes timestamp s g :
  let start := docIdNum (reader (attr_swapper s)) in
  0 <= maxDocId < 2 ^ 32 - 1 -> start <= maxDocId + 1 -> attr_index (reader (attr_swapper s)) g ->
  attr_room (reader (attr_swapper s)) (attrs_room (seqZ start (maxDocId - start + 1))) ->
  exists s', run_task timestamp s = Ret s' /\ attr_index (reader (attr_swapper s')) (frange start maxDocId doc_attrs g).
Proof.
  intros start Hmax Hlen Hg Hroom. pose proof (vsize_nonneg (indexTable_ (valueIdTable_ (reader (attr_swapper s))))) as Hpos.
  change (0 <= start) in Hpos. unfold MiningTask.run_task. cbn [preProcess attr_mining]. unfold attr_preProcess. fold start. rewrite u32_small by lia.
  destruct (Z.ltb_spec maxDocId start) as [Hlt|Hge].
  - rsimpl. eexists. split; [done|]. eapply attr_index_ext; [|exact Hg]. intros d _. by rewrite frange_out by lia.
  - rewrite u32_small by lia. unfold swapper_copy. cbn [table_resize table_assign attr_swap_table res_bind].
    set (w0 := attr_resize (maxDocId + 1) _).
    assert (attr_index w0 g) as Hw.
    { destruct Hg as (Ht & f & Hf & Hg). split; [exact Ht|]. exists f. split; [|exact Hg]. apply (resize_rep (valueIdTable_ (reader (attr_swapper s)))); [exact Hf|]. unfold start, docIdNum in *. lia. }
    unfold build_docs. cbn [getLastDocId attr_mining buildDocument]. unfold attr_lastDocId. cbn [attr_swapper reader]. fold start.
    rewrite u32_small by lia.
    destruct (attr_docs_ok (AttrTask (Swapper (reader (attr_swapper s)) w0) (attr_files_ s)) start maxDocId g) as (w & -> & Hg');
      [lia..|exact Hw|exact Hroom|].
    cbn [res_bind postProcess attr_mining]. unfold attr_postProcess. cbn [attr_swapper writer reader attr_files_].
    destruct (attr_flush_index w _ (attr_files_ s) Hg') as (w' & fs' & -> & Hg''). cbn [negb res_bind]. eexists. split; [done|]. exact Hg''.
Qed.
End TaskProofs.

(** ** Examples *)
Definition attr_doc (d : Z) : option ustr := if d =? 1 then Some (text "brand:oey,year:2011,size:S|M") else None.
Definition no_attrs : ustr := [].
Definition an_open_table : attrs := AttrTab [[]] 0 [([], 0)] [[]] 0 [0] 0 [[([], 0)]] new_id_table 0 0.
Definition to_ascii (s : ustr) : string := string_of_list_ascii (map (fun c => ascii_of_nat (Z.to_nat c)) s).
Definition a_config : AttrConfig := AttrConf "attribute" ["Year"%string].

Lemma an_open_index : attr_index an_open_table (fun _ => []).
Proof.
  split; [split; [apply (fresh_attr_ok [])|done]|]. exists (fun _ => []). split; [apply new_id_table_rep|]. intros d _. constructor.
Qed.

Lemma attr_doc_short d : vsize (attr_text Some (load_document attr_doc (fun _ doc => doc) no_attrs d)) < 2 ^ 64.
Proof. unfold attr_text, load_document, attr_doc. by destruct (d =? 1). Qed.

Lemma attr_task_indexes_witness : exists s',
  run_task (MiningTask0 := attr_mining 1 a_config Some trim to_ascii (true, true, true, true, true, true)) 1 attr_doc (fun _ doc => doc) no_attrs 0
    (new_attr_task an_open_table no_attr_files) = Ret s' /\
  attr_index (reader (attr_swapper s')) (frange 1 1 (doc_attrs attr_doc (fun _ doc => doc) no_attrs a_config Some trim to_ascii) (fun _ => [])).
Proof.
  apply (attr_task_indexes 1 attr_doc (fun _ doc => doc) no_attrs a_config Some trim to_ascii attr_doc_short 0 (new_attr_task an_open_table no_attr_files) (fun _ => [])).
  - lia.
  - vm_compute. discriminate.
  - apply an_open_index.
  - vm_compute. split_and!; reflexivity.
Defined.

Lemma attr_label_selects_witness : exists t label,
  attr_buildDoc a_config Some trim to_ascii 1 (load_document attr_doc (fun _ doc => doc) no_attrs 1) an_open_table = Ret t /\
  new_attr_label text t "size" ["L"%string; "M"%string] = Ret label /\ attr_label_test 1 label = Ret true.
Proof.
  destruct (attr_buildDoc_ok attr_doc (fun _ doc => doc) no_attrs a_config Some trim to_ascii attr_doc_short an_open_table (fun _ => []) 1 0)
    as (t & E & Hg & _); [apply an_open_index|lia|lia|vm_compute; split_and!; reflexivity|].
  destruct (attr_label_selects text t _ "size" ["L"%string; "M"%string] 1 Hg) as (label & b & El & Et & Hb); [lia|].
  exists t, label. split; [exact E|]. split; [exact El|]. rewrite Et. f_equal. apply Hb.
  exists "M"%string. split; [right; by left|]. vm_compute. right. right. left.
Defined.
