(* ===== verification/GroupManager.v ===== *)
(** * Opening the tables of the group and attribute properties

Models mining-manager/group-manager/GroupManager.cpp and
attr-manager/AttrManager.cpp: the tables of the configured properties are
created, opened from their files and given a mining task each. A task refers
to the table in the map by the name of its property. Whether the directory
can be created, and the files in it, are parameters. *)
From S2P Require Import Prelude OrdMap Storage DateFormat DateTable GroupParam GroupBuilder.
From S2P Require PropValueTable AttrTable.
Import PropValueTable (PropValueTable, new_value_table).
Import AttrTable (AttrTable).

(** A task of [groupMiningTaskList_] with the property of its table. *)
Inductive group_task := ValueTask (prop : string) | DateTask (prop : string).

Record group_manager (T : Type) := GroupMan {
  gm_tables : GroupManager T;
  groupMiningTaskList_ : list group_task
}.
Arguments GroupMan {_} _ _.
Arguments gm_tables {_} _.
Arguments groupMiningTaskList_ {_} _.

Section GroupManager.
Context {T : Type} `{!TextOrder T} (empty_text : T).
Context (groupConfigMap_ : GroupConfigMap) (value_files : string -> PropValueTable.table_files T) (date_files : string -> file Z * file Z).
Implicit Types m : group_manager T.

Definition add_value_table (prop : string) (t : PropValueTable T) (tasks : list group_task) m : group_manager T :=
  GroupMan (Manager (om_set (strPropMap_ (gm_tables m)) prop t) (datePropMap_ (gm_tables m))) (groupMiningTaskList_ m ++ tasks).
Definition add_date_table (prop : string) (t : DateGroupTable) (tasks : list group_task) m : group_manager T :=
  GroupMan (Manager (strPropMap_ (gm_tables m)) (om_set (datePropMap_ (gm_tables m)) prop t)) (groupMiningTaskList_ m ++ tasks).

(** A property that is in the map already is left alone. *)
Definition createPropValueTable_ (propName : string) m : res (bool * group_manager T) :=
  match om_find (strPropMap_ (gm_tables m)) propName with
  | Some _ => Ret (true, m)
  | None =>
      let* (ok, pvTable) := PropValueTable.open (new_value_table empty_text) (value_files propName) in
      if negb ok then Ret (false, add_value_table propName pvTable [] m)
      else Ret (true, add_value_table propName pvTable [ValueTask propName] m)
  end.

Definition createDateGroupTable_ (propName : string) m : bool * group_manager T :=
  match om_find (datePropMap_ (gm_tables m)) propName with
  | Some _ => (true, m)
  | None =>
      let (ok, dateTable) := date_open (date_files propName).1 (date_files propName).2 new_date_table in
      if negb ok then (false, add_date_table propName dateTable [] m)
      else (true, add_date_table propName dateTable [DateTask propName] m)
  end.

Fixpoint open_props (configs : GroupConfigMap) m : res (bool * group_manager T) :=
  match configs with
  | [] => Ret (true, m)
  | (propName, groupConfig) :: configs =>
      let* (result, m) :=
        (if isStringType groupConfig then createPropValueTable_ propName m
         else if isDateTimeType groupConfig then Ret (createDateGroupTable_ propName m)
         else Ret (true, m)) in
      if negb result then Ret (false, m) else open_props configs m
  end.

(** The tables are cleared first, the list of tasks is not. *)
Definition open_groups (can_create : bool) m : res (bool * group_manager T) :=
  let m := GroupMan (Manager [] []) (groupMiningTaskList_ m) in
  if negb can_create then Ret (false, m) else open_props groupConfigMap_ m.

(** AttrManager::open; the directory is created last. *)
Definition open_attrs (can_create : bool) (files : AttrTable.attr_files T) (t : AttrTable T) : res (bool * AttrTable T) :=
  let* (t, ok) := AttrTable.open files t in
  if negb ok then Ret (false, t) else Ret (can_create, t).

(** ** What is open *)
Definition value_opened (prop : string) (t : PropValueTable T) : Prop :=
  PropValueTable.open (new_value_table empty_text) (value_files prop) = Ret (true, t).
Definition date_opened (prop : string) (t : DateGroupTable) : Prop :=
  date_open (date_files prop).1 (date_files prop).2 new_date_table = (true, t).

(** The files of a configured property can be opened. *)
Definition files_ok (e : string * GroupConfig) : Prop :=
  (isStringType e.2 = true -> exists t, value_opened e.1 t) /\ (isDateTimeType e.2 = true -> exists t, date_opened e.1 t).

(** The task of a property. *)
Definition task_of (e : string * GroupConfig) : list group_task :=
  if isStringType e.2 then [ValueTask e.1] else if isDateTimeType e.2 then [DateTask e.1] else [].

Lemma not_both c : isStringType c = true -> isDateTimeType c = false.
Proof. unfold isStringType, isDateTimeType. by destruct (propType c). Qed.

Definition maps_sorted m : Prop := om_sorted (strPropMap_ (gm_tables m)) /\ om_sorted (datePropMap_ (gm_tables m)).

(** One property: its table, or nothing, is added. *)
Definition added (e : string * GroupConfig) m m' : Prop :=
  (isStringType e.2 = true -> exists t, getPropValueTable e.1 (gm_tables m') = Some t /\ value_opened e.1 t) /\
  (isDateTimeType e.2 = true -> exists t, getDateGroupTable e.1 (gm_tables m') = Some t /\ date_opened e.1 t) /\
  (forall prop, prop <> e.1 -> getPropValueTable prop (gm_tables m') = getPropValueTable prop (gm_tables m) /\
     getDateGroupTable prop (gm_tables m') = getDateGroupTable prop (gm_tables m)) /\
  maps_sorted m' /\
  groupMiningTaskList_ m' = groupMiningTaskList_ m ++ task_of e.

Lemma open_prop e m : maps_sorted m -> files_ok e -> getPropValueTable e.1 (gm_tables m) = None -> getDateGroupTable e.1 (gm_tables m) = None ->
  exists m', (if isStringType e.2 then createPropValueTable_ e.1 m
              else if isDateTimeType e.2 then Ret (createDateGroupTable_ e.1 m) else Ret (true, m)) = Ret (true, m') /\ added e m m'.
Proof.
  destruct e as [p c]. intros [S1 S2] [Hs Hd] H1 H2. unfold getPropValueTable, getDateGroupTable in *. unfold added, maps_sorted, task_of. cbn [fst snd] in *.
  destruct (isStringType c) eqn:Es; [|destruct (isDateTimeType c) eqn:Ed].
  - destruct Hs as [t Ht]; [done|]. unfold createPropValueTable_. unfold value_opened in Ht. rewrite H1, Ht. rsimpl. eexists. split; [done|].
    rewrite (not_both _ Es). cbn. unfold getPropValueTable, getDateGroupTable. cbn. split; [|split; [done|split; [|split; [split; [by apply om_set_sorted|done]|done]]]].
    + intros _. exists t. split; [apply om_find_set_eq|exact Ht].
    + intros prop Hne. split; [by apply om_find_set_ne|done].
  - destruct Hd as [t Ht]; [done|]. unfold createDateGroupTable_. unfold date_opened in Ht. rewrite H2, Ht. cbn [negb]. eexists. split; [done|].
    cbn. unfold getPropValueTable, getDateGroupTable. cbn. split; [done|]. split; [|split; [|split; [split; [done|by apply om_set_sorted]|done]]].
    + intros _. exists t. split; [apply om_find_set_eq|exact Ht].
    + intros prop Hne. split; [done|by apply om_find_set_ne].
  - exists m. rewrite app_nil_r. done.
Qed.

Lemma open_props_ok configs : forall m, maps_sorted m -> NoDup (map fst configs) -> Forall files_ok configs ->
  (forall prop, prop ∈ map fst configs -> getPropValueTable prop (gm_tables m) = None /\ getDateGroupTable prop (gm_tables m) = None) ->
  exists m', open_props configs m = Ret (true, m') /\
    (forall prop c, (prop, c) ∈ configs ->
       (isStringType c = true -> exists t, getPropValueTable prop (gm_tables m') = Some t /\ value_opened prop t) /\
       (isDateTimeType c = true -> exists t, getDateGroupTable prop (gm_tables m') = Some t /\ date_opened prop t)) /\
    (forall prop, prop ∉ map fst configs -> getPropValueTable prop (gm_tables m') = getPropValueTable prop (gm_tables m) /\
       getDateGroupTable prop (gm_tables m') = getDateGroupTable prop (gm_tables m)) /\
    groupMiningTaskList_ m' = groupMiningTaskList_ m ++ flat_map task_of configs.
Proof.
  induction configs as [|[prop c] configs IH]; intros m Hm Hnd Hok Hnone; cbn [open_props].
  { exists m. split; [done|]. split; [by intros ? ? ?%elem_of_nil|]. split; [done|]. by rewrite app_nil_r. }
  cbn in Hnd. apply NoDup_cons in Hnd as [Hnot Hnd]. apply Forall_cons in Hok as [Hok1 Hok].
  destruct (Hnone prop) as [N1 N2]; [by left|]. destruct (open_prop (prop, c) m Hm Hok1 N1 N2) as (m1 & E & A1 & A2 & A3 & A4 & A5).
  cbn [fst snd] in *. rewrite E. rsimpl. destruct (IH m1 A4 Hnd Hok) as (m2 & -> & B1 & B2 & B3).
  { intros p Hp. assert (p <> prop) as Hne by (by intros ->). destruct (A3 p Hne) as [-> ->]. apply Hnone. by right. }
  destruct (B2 prop Hnot) as [F1 F2]. exists m2. split; [done|]. split; [|split].
  - intros p k [[= -> ->]|Hin]%elem_of_cons; [|by apply B1]. by rewrite F1, F2.
  - intros p Hp. apply not_elem_of_cons in Hp as [Hne Hp]. destruct (B2 p Hp) as [-> ->]. by apply A3.
  - rewrite B3, A5. cbn. by rewrite app_assoc.
Qed.

(** Opening the manager loads the tables. If the directory can be created
    and the files of every configured property can be opened, [open] succeeds,
    whatever was open before; every configured string or date property then
    has the table its files hold, a property that is not configured has none,
    and one mining task per table is added in the order of the properties. *)
Theorem open_groups_tables m : om_sorted groupConfigMap_ -> Forall files_ok groupConfigMap_ ->
  exists m', open_groups true m = Ret (true, m') /\
    (forall prop c, om_find groupConfigMap_ prop = Some c ->
       (isStringType c = true -> exists t, getPropValueTable prop (gm_tables m') = Some t /\ value_opened prop t) /\
       (isDateTimeType c = true -> exists t, getDateGroupTable prop (gm_tables m') = Some t /\ date_opened prop t)) /\
    (forall prop, om_find groupConfigMap_ prop = None -> getPropValueTable prop (gm_tables m') = None /\ getDateGroupTable prop (gm_tables m') = None) /\
    groupMiningTaskList_ m' = groupMiningTaskList_ m ++ flat_map task_of groupConfigMap_.
Proof.
  intros Hs Hok. unfold open_groups. cbn [negb].
  destruct (open_props_ok groupConfigMap_ (GroupMan (Manager [] []) (groupMiningTaskList_ m)) ltac:(by split; constructor) (om_sorted_NoDup _ Hs) Hok) as (m' & -> & H1 & H2 & H3).
  { by intros. }
  exists m'. split; [done|]. split; [|split; [|done]].
  - intros prop c Hc. apply H1. by apply om_find_elem.
  - intros prop Hp. destruct (H2 prop) as [-> ->]; [|done].
    intros ([p c] & -> & Hin)%list_elem_of_fmap. apply (om_find_elem _ _ _ Hs) in Hin. cbn in Hp. congruence.
Qed.
End GroupManager.

Lemma open_groups_tables_witness : exists m',
  open_groups 0 ex_config (fun _ => PropValueTable.no_files) (fun _ => (Missing, Missing)) true (GroupMan (Manager [] []) []) = Ret (true, m') /\
  (exists t, getPropValueTable "brand" (gm_tables m') = Some t /\ value_opened 0 (fun _ => PropValueTable.no_files) "brand" t).
Proof.
  destruct (open_groups_tables 0 ex_config (fun _ => PropValueTable.no_files) (fun _ => (Missing, Missing)) (GroupMan (Manager [] []) []))
    as (m' & E & H & _).
  - apply ex_config_sorted.
  - repeat constructor; intros; try discriminate; eexists; vm_compute; reflexivity.
  - exists m'. split; [exact E|]. apply (H "brand"%string (new_config STRING_PROPERTY_TYPE)); [vm_compute; reflexivity|reflexivity].
Defined.
