(* ===== verification/QueryFilter.v ===== *)
(** * The filter of a query

Models QueryBuilder::do_process_filtertree (search-manager/QueryBuilder.cpp),
which turns the tree of filter conditions of a request
(common/parsers/ConditionsTree.h) into a bitmap of documents, the cache of the
bitmaps of single conditions (search-manager/FilterCache.h), and
InvertedIndexManager::makeRangeQuery (index-manager/InvertedIndexManager.{h,cpp}),
which asks the B-tree index for one condition. The bitmaps, the index and the
cache belong to the izenelib library and are interfaces here. *)
From S2P Require Import Prelude Float64.

(** ** Values and conditions *)

(** The types of izenelib::PropertyValue that an index knows; the others. *)
Inductive PropertyValue :=
| PInt32 (z : Z)
| PInt64 (z : Z)
| PFloat (f : spec_float)
| PDouble (f : spec_float)
| PString (s : string)
| PUString (s : list Z)
| POther.

(** izenelib's PropertyType, whose strings are of the type [X]. *)
Inductive PropertyType (X : Type) :=
| TInt32 (z : Z)
| TInt64 (z : Z)
| TFloat (f : spec_float)
| TDouble (f : spec_float)
| TString (x : X).
Arguments TInt32 {_} _.
Arguments TInt64 {_} _.
Arguments TFloat {_} _.
Arguments TDouble {_} _.
Arguments TString {_} _.

(** query-manager/QueryTypeDef.h *)
Inductive FilteringOperation :=
| NULL_OPERATOR | EQUAL | NOT_EQUAL | INCLUDE | EXCLUDE | GREATER_THAN | GREATER_THAN_EQUAL
| LESS_THAN | LESS_THAN_EQUAL | RANGE | PREFIX | SUFFIX | SUB_STRING | MAX_OPERATOR.

Inductive InterFilteringLogic := FilterAnd | FilterOr.

Record FilteringType := Filtering {
  operation_ : FilteringOperation;
  property_ : string;
  logic_ : InterFilteringLogic;
  values_ : list PropertyValue
}.

Inductive ConditionsNode :=
| Conditions (relation_ : string) (conditionLeafList_ : list FilteringType) (conditionsNodeList_ : list ConditionsNode).

(** ConditionsNode::empty *)
Definition conditions_empty (t : ConditionsNode) : bool :=
  let '(Conditions _ leaves nodes) := t in is_nil leaves && is_nil nodes.

(** ConditionsNode::setRelation: the relation it stores, none when it refuses. *)
Definition setRelation (relation : string) : option string :=
  if String.eqb relation "AND" || String.eqb relation "and" then Some "and"%string
  else if String.eqb relation "OR" || String.eqb relation "or" then Some "or"%string
  else None.

(** ** The library's parts *)

(** EWAHBoolArray *)
Class Bitmap (B : Type) := {
  bm_new : B;
  addStreamOfEmptyWords : bool -> Z -> B -> B;
  logicaland : B -> B -> B;
  logicalor : B -> B -> B;
  bm_set : Z -> B -> B;
  bm_get : B -> Z -> bool
}.

Definition wordBitNum : Z := 64.

Class BitmapSpec (B : Type) `{!Bitmap B} : Prop := {
  bm_new_spec : forall i, bm_get bm_new i = false;
  addStream_spec : forall v n i, 0 <= n -> 0 <= i -> bm_get (addStreamOfEmptyWords v n bm_new) i = v && (i <? wordBitNum * n);
  logicaland_spec : forall a b i, bm_get (logicaland a b) i = bm_get a i && bm_get b i;
  logicalor_spec : forall a b i, bm_get (logicalor a b) i = bm_get a i || bm_get b i;
  (* bits are set in increasing order *)
  bm_set_spec : forall b i j, (forall k, bm_get b k = true -> k < i) -> bm_get (bm_set i b) j = (j =? i) || bm_get b j
}.

(** IzeneCache: [get] may reorder its entries and [set] may evict some. *)
Class Cache (C K B : Type) := {
  cache_get : K -> C -> option B * C;
  cache_set : K -> B -> C -> C
}.

Class CacheSpec (C K B : Type) `{!Cache C K B} := {
  cache_all : (K -> B -> Prop) -> C -> Prop;
  cache_get_spec : forall P k c, cache_all P c ->
    cache_all P (snd (cache_get k c)) /\ forall b, fst (cache_get k c) = Some b -> P k b;
  cache_set_spec : forall P k b c, cache_all P c -> P k b -> cache_all P (cache_set k b c)
}.

(** The B-tree index: the documents of a condition as a bitmap. *)
Class RangeIndex (X B : Type) := {
  str_to_propstr : string -> X;
  ustr_to_propstr : list Z -> X;
  Trim : string -> string;
  UTrim : list Z -> list Z;
  docsEqual : string -> PropertyType X -> B;
  docsIn : string -> list (PropertyType X) -> B;
  docsNotIn : string -> list (PropertyType X) -> B;
  docsNotEqual : string -> PropertyType X -> B;
  docsGreaterThan : string -> PropertyType X -> B;
  docsGreaterThanOrEqual : string -> PropertyType X -> B;
  docsLessThan : string -> PropertyType X -> B;
  docsLessThanOrEqual : string -> PropertyType X -> B;
  docsRange : string -> PropertyType X -> PropertyType X -> B;
  docsStart : string -> PropertyType X -> B;
  docsEnd : string -> PropertyType X -> B;
  docsSubString : string -> PropertyType X -> B
}.

(** What the index holds, and its answers as the operators of the request are
    documented (process/parsers/ConditionTreeParser.cpp): a document may have
    several values of a property. What "not equal" says of a document that has
    none or several is left to the index. *)
Class RangeIndexSpec (X B : Type) `{!RangeIndex X B, !Bitmap B} := {
  Trim_idem : forall s, Trim (Trim s) = Trim s;
  UTrim_idem : forall s, UTrim (UTrim s) = UTrim s;
  stored : string -> Z -> list (PropertyType X);
  same : PropertyType X -> PropertyType X -> bool;
  lower : PropertyType X -> PropertyType X -> bool;
  starts_with : PropertyType X -> PropertyType X -> bool;
  ends_with : PropertyType X -> PropertyType X -> bool;
  contains : PropertyType X -> PropertyType X -> bool;
  without : string -> list (PropertyType X) -> Z -> bool;
  without_spec : forall p l d w, stored p d = [w] -> without p l d = negb (existsb (same w) l);
  docsEqual_spec : forall p v d, bm_get (docsEqual p v) d = existsb (fun w => same w v) (stored p d);
  docsIn_spec : forall p l d, bm_get (docsIn p l) d = existsb (fun w => existsb (same w) l) (stored p d);
  docsNotIn_spec : forall p l d, bm_get (docsNotIn p l) d = without p l d;
  docsNotEqual_spec : forall p v d, bm_get (docsNotEqual p v) d = without p [v] d;
  docsGreaterThan_spec : forall p v d, bm_get (docsGreaterThan p v) d = existsb (fun w => lower v w) (stored p d);
  docsGreaterThanOrEqual_spec : forall p v d, bm_get (docsGreaterThanOrEqual p v) d = existsb (fun w => lower v w || same w v) (stored p d);
  docsLessThan_spec : forall p v d, bm_get (docsLessThan p v) d = existsb (fun w => lower w v) (stored p d);
  docsLessThanOrEqual_spec : forall p v d, bm_get (docsLessThanOrEqual p v) d = existsb (fun w => lower w v || same w v) (stored p d);
  docsRange_spec : forall p v1 v2 d, bm_get (docsRange p v1 v2) d =
    existsb (fun w => (lower v1 w || same w v1) && (lower w v2 || same w v2)) (stored p d);
  docsStart_spec : forall p v d, bm_get (docsStart p v) d = existsb (fun w => starts_with w v) (stored p d);
  docsEnd_spec : forall p v d, bm_get (docsEnd p v) d = existsb (fun w => ends_with w v) (stored p d);
  docsSubString_spec : forall p v d, bm_get (docsSubString p v) d = existsb (fun w => contains w v) (stored p d)
}.

Section Filter.
Context {X B C : Type} `{!RangeIndex X B, !Bitmap B, !Cache C FilteringType B}.

(** PropertyValue2IndexPropertyType: a string is trimmed in the variant itself,
    through a const_cast; the value is returned too. *)
Definition visit (v : PropertyValue) : res (PropertyType X * PropertyValue) :=
  match v with
  | PInt32 z => Ret (TInt32 z, v)
  | PInt64 z => Ret (TInt64 z, v)
  | PFloat f => Ret (TFloat f, v)
  | PDouble f => Ret (TDouble f, v)
  | PString s => let s := Trim s in Ret (TString (str_to_propstr s), PString s)
  | PUString s => let s := UTrim s in Ret (TString (ustr_to_propstr s), PUString s)
  | POther => Throw "Type not supported in PropertyType"
  end.

Definition convertData (property : string) (v : PropertyValue) : res (PropertyType X * PropertyValue) :=
  if String.eqb property "DATE" then
    match v with
    | PInt64 time => let* (p, _) := visit (PInt64 time) in Ret (p, v)
    | _ => Throw "bad_get"
    end
  else visit v.

(** The conversion of [filterParam[0]] and of all of [filterParam]. *)
Definition convert_first (propertyL : string) (l : list PropertyValue) : res (PropertyType X * list PropertyValue) :=
  match l with
  | [] => Undef
  | v :: l => let* (p, v) := convertData propertyL v in Ret (p, v :: l)
  end.

Definition convert_all (propertyL : string) (l : list PropertyValue) : res (list (PropertyType X) * list PropertyValue) :=
  let* k := each (convertData propertyL) l in Ret (map fst k, map snd k).

Definition one (docs : string -> PropertyType X -> B) (property : string) (l : list PropertyValue) : res (B * list PropertyValue) :=
  let* (p, l) := convert_first (upper property) l in Ret (docs property p, l).

(** The bitmap, and the condition's values as the conversion leaves them. *)
Definition makeRangeQuery (op : FilteringOperation) (property : string) (filterParam : list PropertyValue) : res (B * list PropertyValue) :=
  let propertyL := upper property in
  match op with
  | EQUAL => one docsEqual property filterParam
  | INCLUDE => let* (values, l) := convert_all propertyL filterParam in Ret (docsIn property values, l)
  | EXCLUDE => let* (values, l) := convert_all propertyL filterParam in Ret (docsNotIn property values, l)
  | NOT_EQUAL => one docsNotEqual property filterParam
  | GREATER_THAN => one docsGreaterThan property filterParam
  | GREATER_THAN_EQUAL => one docsGreaterThanOrEqual property filterParam
  | LESS_THAN => one docsLessThan property filterParam
  | LESS_THAN_EQUAL => one docsLessThanOrEqual property filterParam
  | RANGE =>
      match filterParam with
      | v1 :: v2 :: l =>
          let* (p1, v1) := convertData propertyL v1 in
          let* (p2, v2) := convertData propertyL v2 in
          Ret (docsRange property p1 p2, v1 :: v2 :: l)
      | _ => Undef
      end
  | PREFIX => one docsStart property filterParam
  | SUFFIX => one docsEnd property filterParam
  | SUB_STRING => one docsSubString property filterParam
  | NULL_OPERATOR | MAX_OPERATOR => Ret (bm_new, filterParam)
  end.

(** ** do_process_filtertree *)

(** One condition: from the cache, else from the index, under the values that
    the conversion left. *)
Definition process_leaf (leaf : FilteringType) (filterCache_ : C) : res (B * C) :=
  match cache_get leaf filterCache_ with
  | (Some b, c) => Ret (b, c)
  | (None, c) =>
      let* (b, values) := makeRangeQuery (operation_ leaf) (property_ leaf) (values_ leaf) in
      Ret (b, cache_set (Filtering (operation_ leaf) (property_ leaf) (logic_ leaf) values) b c)
  end.

Context (maxDocId : Z).
Definition wordsNum : Z := u32 (u32 (u32 (maxDocId + 1) - 1) / wordBitNum + 1).

Definition combine_bitmaps (relation : string) (l1 l2 : list B) : B :=
  if String.eqb relation "and" then
    foldl logicaland (foldl logicaland (addStreamOfEmptyWords true wordsNum bm_new) l1) l2
  else if String.eqb relation "or" then
    foldl logicalor (foldl logicalor (addStreamOfEmptyWords false wordsNum bm_new) l1) l2
  else bm_new.

(** The only [return false] passes on the one of a recursive call: the answer
    is always true. *)
Fixpoint do_process_filtertree (t : ConditionsNode) (filterCache_ : C) : res (B * C) :=
  let '(Conditions relation leaves nodes) := t in
  match leaves, nodes with
  | [leaf], [] => process_leaf leaf filterCache_
  | _, _ =>
      let* (l1, c) := each_st process_leaf leaves filterCache_ in
      let* (l2, c) := each_st do_process_filtertree nodes c in
      Ret (combine_bitmaps relation l1 l2, c)
  end.

Definition prepare_filter : ConditionsNode -> C -> res (B * C) := do_process_filtertree.
End Filter.

(** ** The documents of a tree of conditions *)
Section FilterSpec.
Context {X B C : Type} `{!RangeIndex X B, !Bitmap B, !BitmapSpec B, !RangeIndexSpec X B, !Cache C FilteringType B, !CacheSpec C FilteringType B}.

(** The value of the index that a value of a condition stands for; a date is
    given as an int64. *)
Definition asked (property : string) (v : PropertyValue) : option (PropertyType X) :=
  match v with
  | PInt64 z => Some (TInt64 z)
  | PInt32 z => if String.eqb property "DATE" then None else Some (TInt32 z)
  | PFloat f => if String.eqb property "DATE" then None else Some (TFloat f)
  | PDouble f => if String.eqb property "DATE" then None else Some (TDouble f)
  | PString s => if String.eqb property "DATE" then None else Some (TString (str_to_propstr (Trim s)))
  | PUString s => if String.eqb property "DATE" then None else Some (TString (ustr_to_propstr (UTrim s)))
  | POther => None
  end.

(** The values that an operator takes; the others of a condition are ignored. *)
Definition arguments (leaf : FilteringType) : option (list (PropertyType X)) :=
  mapM (asked (upper (property_ leaf)))
    match operation_ leaf with
    | INCLUDE | EXCLUDE => values_ leaf
    | RANGE => take 2 (values_ leaf)
    | NULL_OPERATOR | MAX_OPERATOR => []
    | _ => take 1 (values_ leaf)
    end.

(** A document meets a condition when one of its values of the property is in the
    relation to the values asked for; an operator that is none is never met. *)
Definition leaf_holds (leaf : FilteringType) (d : Z) : bool :=
  let some test := existsb test (stored (property_ leaf) d) in
  match operation_ leaf, arguments leaf with
  | EQUAL, Some [v] => some (fun w => same w v)
  | NOT_EQUAL, Some [v] => without (property_ leaf) [v] d
  | INCLUDE, Some l => some (fun w => existsb (same w) l)
  | EXCLUDE, Some l => without (property_ leaf) l d
  | GREATER_THAN, Some [v] => some (fun w => lower v w)
  | GREATER_THAN_EQUAL, Some [v] => some (fun w => lower v w || same w v)
  | LESS_THAN, Some [v] => some (fun w => lower w v)
  | LESS_THAN_EQUAL, Some [v] => some (fun w => lower w v || same w v)
  | RANGE, Some [low; high] => some (fun w => (lower low w || same w low) && (lower w high || same w high))
  | PREFIX, Some [v] => some (fun w => starts_with w v)
  | SUFFIX, Some [v] => some (fun w => ends_with w v)
  | SUB_STRING, Some [v] => some (fun w => contains w v)
  | _, _ => false
  end.

(** Every condition has the values that its operator takes, of a type that the
    index knows. *)
Definition leaf_ok (leaf : FilteringType) : Prop :=
  exists l, arguments leaf = Some l /\
    match operation_ leaf with
    | INCLUDE | EXCLUDE | NULL_OPERATOR | MAX_OPERATOR => True
    | RANGE => length l = 2%nat
    | _ => length l = 1%nat
    end.

Fixpoint tree_ok (t : ConditionsNode) : Prop :=
  let '(Conditions _ leaves nodes) := t in Forall leaf_ok leaves /\ foldr (fun t P => tree_ok t /\ P) True nodes.

(** The meaning of a tree; a single condition needs no relation. *)
Fixpoint condition_holds (t : ConditionsNode) (d : Z) : bool :=
  let '(Conditions relation leaves nodes) := t in
  match leaves, nodes with
  | [leaf], [] => leaf_holds leaf d
  | _, _ =>
      if String.eqb relation "and" then forallb (fun l => leaf_holds l d) leaves && forallb (fun t => condition_holds t d) nodes
      else if String.eqb relation "or" then existsb (fun l => leaf_holds l d) leaves || existsb (fun t => condition_holds t d) nodes
      else false
  end.

(** The cache holds the documents that meet a condition. *)
Definition cached (leaf : FilteringType) (b : B) : Prop := forall d, bm_get b d = leaf_holds leaf d.

(** *** Conversion leaves values that convert in the same way *)
Lemma visit_again v p v' : visit v = Ret (p, v') -> visit (X := X) (B := B) v' = Ret (p, v').
Proof. destruct v; cbn; intros [= <- <-]; cbn; rewrite ?Trim_idem, ?UTrim_idem; done. Qed.

Lemma convertData_again property v p v' : convertData property v = Ret (p, v') -> convertData (X := X) (B := B) property v' = Ret (p, v').
Proof.
  unfold convertData. destruct (String.eqb property "DATE"); [|apply visit_again].
  destruct v; try done. by intros [= <- <-].
Qed.

Lemma convert_all_again property l ps l' : convert_all property l = Ret (ps, l') -> convert_all (X := X) (B := B) property l' = Ret (ps, l').
Proof.
  unfold convert_all. intros (k & E & H)%bind_Ret_inv. injection H as <- <-. apply each_Forall2 in E.
  assert (each (convertData (X := X) (B := B) property) (map snd k) = Ret k) as ->; [|done].
  apply each_Forall2. induction E as [|v [p v'] l k H _ IH]; cbn; constructor; [by eapply convertData_again|done].
Qed.

Lemma one_again docs property l b l' : one (B := B) docs property l = Ret (b, l') -> one docs property l' = Ret (b, l').
Proof.
  unfold one, convert_first. destruct l as [|v l]; [done|].
  intros ([p k] & H & H')%bind_Ret_inv. apply bind_Ret_inv in H as ([p' v'] & E & H). injection H as <- <-. injection H' as <- <-.
  by rewrite (convertData_again _ _ _ _ E).
Qed.

Lemma makeRangeQuery_again op property l (b : B) l' : makeRangeQuery op property l = Ret (b, l') -> makeRangeQuery op property l' = Ret (b, l').
Proof.
  destruct op; cbn [makeRangeQuery]; try apply one_again; try (by intros [= <- <-]).
  - intros ([ps k] & E & H)%bind_Ret_inv. injection H as <- <-. by rewrite (convert_all_again _ _ _ _ E).
  - intros ([ps k] & E & H)%bind_Ret_inv. injection H as <- <-. by rewrite (convert_all_again _ _ _ _ E).
  - destruct l as [|v1 [|v2 l]]; try done. intros ([p1 w1] & E1 & H)%bind_Ret_inv.
    apply bind_Ret_inv in H as ([p2 w2] & E2 & H). injection H as <- <-.
    by rewrite (convertData_again _ _ _ _ E1), (convertData_again _ _ _ _ E2).
Qed.

(** *** What the index is asked *)
Lemma convertData_asked property v p v' : convertData (X := X) (B := B) property v = Ret (p, v') -> asked property v = Some p.
Proof. unfold convertData, asked, visit. destruct (String.eqb property "DATE"), v; try done; by intros [= <- <-]. Qed.

Lemma asked_convertData property v p : asked property v = Some p -> exists v', convertData (X := X) (B := B) property v = Ret (p, v').
Proof. unfold convertData, asked, visit. destruct (String.eqb property "DATE"), v; try done; intros [= <-]; by eexists. Qed.

Lemma convert_all_asked property l ps l' : convert_all (X := X) (B := B) property l = Ret (ps, l') -> mapM (asked property) l = Some ps.
Proof.
  unfold convert_all. intros (k & E & [= <- <-])%bind_Ret_inv. apply each_Forall2 in E. apply mapM_Some.
  induction E as [|v [p v'] l k E _ IH]; constructor; [by eapply convertData_asked|done].
Qed.

Lemma asked_convert_all property l ps : mapM (asked property) l = Some ps -> exists l', convert_all (X := X) (B := B) property l = Ret (ps, l').
Proof.
  intros H%mapM_Some. assert (exists k, each (convertData (X := X) (B := B) property) l = Ret k /\ map fst k = ps) as (k & E & <-).
  { induction H as [|v p l ps E _ (k & Ek & <-)]; [by exists []|]. destruct (asked_convertData _ _ _ E) as [v' Ev].
    exists ((p, v') :: k). split; [|done]. apply each_Forall2. constructor; [done|by apply each_Forall2]. }
  unfold convert_all. rewrite E. by eexists.
Qed.

Lemma one_asked docs property l b l' : one (X := X) (B := B) docs property l = Ret (b, l') ->
  exists v p, take 1 l = [v] /\ asked (upper property) v = Some p /\ b = docs property p.
Proof.
  unfold one, convert_first. destruct l as [|v l]; [done|]. intros ([p k] & H & H')%bind_Ret_inv.
  apply bind_Ret_inv in H as ([p' v'] & E & [= <- <-]). injection H' as <- <-. exists v, p'.
  split; [done|]. split; [by eapply convertData_asked|done].
Qed.

Lemma asked_one docs property l ps : mapM (asked (upper property)) (take 1 l) = Some ps -> length ps = 1%nat ->
  exists r, one (X := X) (B := B) docs property l = Ret r.
Proof.
  destruct l as [|v l]; [by intros [= <-]|]. cbn. destruct (asked (upper property) v) as [p|] eqn:E; [|done]. intros _ _.
  destruct (asked_convertData _ _ _ E) as [v' Ev]. unfold one, convert_first. rewrite Ev. by eexists.
Qed.

Definition query_leaf (leaf : FilteringType) : res (B * list PropertyValue) :=
  makeRangeQuery (operation_ leaf) (property_ leaf) (values_ leaf).

(** The answer of the index holds the documents that meet the condition. *)
Lemma query_leaf_sound leaf b l : query_leaf leaf = Ret (b, l) -> cached leaf b.
Proof.
  intros H d. destruct leaf as [op property logic values]. unfold query_leaf, leaf_holds, arguments in *. cbn [operation_ property_ values_] in *.
  destruct op; cbn [makeRangeQuery] in H;
    try (by injection H as <- _; rewrite bm_new_spec);
    try (apply one_asked in H as (v & p & -> & Ev & ->); cbn; rewrite Ev; cbn).
  - apply docsEqual_spec.
  - apply docsNotEqual_spec.
  - apply bind_Ret_inv in H as ([ps k] & E & [= <- <-]). rewrite (convert_all_asked _ _ _ _ E). apply docsIn_spec.
  - apply bind_Ret_inv in H as ([ps k] & E & [= <- <-]). rewrite (convert_all_asked _ _ _ _ E). apply docsNotIn_spec.
  - apply docsGreaterThan_spec.
  - apply docsGreaterThanOrEqual_spec.
  - apply docsLessThan_spec.
  - apply docsLessThanOrEqual_spec.
  - destruct values as [|v1 [|v2 values]]; try done. apply bind_Ret_inv in H as ([p1 w1] & E1 & H).
    apply bind_Ret_inv in H as ([p2 w2] & E2 & [= <- <-]). cbn.
    rewrite (convertData_asked _ _ _ _ E1), (convertData_asked _ _ _ _ E2). apply docsRange_spec.
  - apply docsStart_spec.
  - apply docsEnd_spec.
  - apply docsSubString_spec.
Qed.

Lemma query_leaf_total leaf : leaf_ok leaf -> exists r, query_leaf leaf = Ret r.
Proof.
  destruct leaf as [op property logic values]. unfold leaf_ok, query_leaf, arguments. cbn [operation_ property_ values_].
  intros (ps & E & Hn). destruct op; cbn [makeRangeQuery]; try (by apply (asked_one _ _ _ ps)); try (by eexists).
  - destruct (asked_convert_all _ _ _ E) as [l' ->]. by eexists.
  - destruct (asked_convert_all _ _ _ E) as [l' ->]. by eexists.
  - destruct values as [|v1 [|v2 values]]; cbn in E.
    + by injection E as <-.
    + destruct (asked (upper property) v1); [|done]. by injection E as <-.
    + destruct (asked (upper property) v1) as [p1|] eqn:E1, (asked (upper property) v2) as [p2|] eqn:E2; try done.
      destruct (asked_convertData _ _ _ E1) as [w1 ->], (asked_convertData _ _ _ E2) as [w2 ->]. by eexists.
Qed.

(** *** The conditions *)
Lemma process_leaf_spec leaf c : leaf_ok leaf -> cache_all cached c ->
  exists b c', process_leaf leaf c = Ret (b, c') /\ cache_all cached c' /\ forall d, bm_get b d = leaf_holds leaf d.
Proof.
  intros Hok Hc. destruct (query_leaf_total leaf Hok) as [[b l] E].
  unfold process_leaf. destruct (cache_get_spec cached leaf c Hc) as [Hc' Hb].
  destruct (cache_get leaf c) as [[b'|] c'] eqn:Eg; cbn [fst snd] in *.
  - exists b', c'. split; [done|]. split; [done|]. by apply Hb.
  - pose proof (query_leaf_sound _ _ _ E) as Hs. unfold query_leaf in E. rewrite E. rsimpl. eexists _, _. split; [done|].
    split; [|exact Hs]. apply cache_set_spec; [done|]. apply (query_leaf_sound _ b l). by apply (makeRangeQuery_again _ _ _ _ _ E).
Qed.

Context (maxDocId : Z).
Hypothesis Hmax : 0 <= maxDocId < 2 ^ 32.

Lemma wordsNum_covers d : 0 <= d <= maxDocId -> 0 <= wordsNum maxDocId /\ (d <? wordBitNum * wordsNum maxDocId) = true.
Proof.
  intros Hd. unfold wordsNum, wordBitNum.
  assert (u32 (u32 (maxDocId + 1) - 1) = maxDocId) as ->.
  { unfold u32. rewrite Zminus_mod_idemp_l. replace (maxDocId + 1 - 1) with maxDocId by lia. by apply Z.mod_small. }
  pose proof (Z.div_mod maxDocId 64). pose proof (Z.mod_pos_bound maxDocId 64).
  rewrite u32_small by lia. split; [lia|]. apply Z.ltb_lt. lia.
Qed.

Section Combine.
Context {A A' : Type} (h : A -> Z -> bool) (h' : A' -> Z -> bool).
Notation agrees h := (fun a b => forall d, 0 <= d <= maxDocId -> bm_get b d = h a d).

Lemma foldl_and b l k d : Forall2 (agrees h) l k -> 0 <= d <= maxDocId ->
  bm_get (foldl logicaland b k) d = bm_get (B := B) b d && forallb (fun a => h a d) l.
Proof.
  intros H Hd. revert b. induction H as [|a c l k Ha _ IH]; intros b; cbn; [by rewrite andb_true_r|].
  by rewrite IH, logicaland_spec, Ha, andb_assoc.
Qed.

Lemma foldl_or b l k d : Forall2 (agrees h) l k -> 0 <= d <= maxDocId ->
  bm_get (foldl logicalor b k) d = bm_get (B := B) b d || existsb (fun a => h a d) l.
Proof.
  intros H Hd. revert b. induction H as [|a c l k Ha _ IH]; intros b; cbn; [by rewrite orb_false_r|].
  by rewrite IH, logicalor_spec, Ha, orb_assoc.
Qed.
End Combine.

Lemma combine_spec {A A'} (h : A -> Z -> bool) (h' : A' -> Z -> bool) relation l k (l1 l2 : list B) d :
  Forall2 (fun a b => forall d, 0 <= d <= maxDocId -> bm_get b d = h a d) l l1 ->
  Forall2 (fun a b => forall d, 0 <= d <= maxDocId -> bm_get b d = h' a d) k l2 -> 0 <= d <= maxDocId ->
  bm_get (combine_bitmaps maxDocId relation l1 l2) d =
  if String.eqb relation "and" then forallb (fun a => h a d) l && forallb (fun a => h' a d) k
  else if String.eqb relation "or" then existsb (fun a => h a d) l || existsb (fun a => h' a d) k else false.
Proof.
  intros H1 H2 Hd. destruct (wordsNum_covers d Hd) as [Hn Hw]. unfold combine_bitmaps.
  destruct (String.eqb relation "and"); [|destruct (String.eqb relation "or"); [|apply bm_new_spec]].
  - by rewrite (foldl_and h' _ k), (foldl_and h _ l), addStream_spec, Hw by (done || lia).
  - by rewrite (foldl_or h' _ k), (foldl_or h _ l), addStream_spec, Hw by (done || lia).
Qed.

(** *** No bits behind the last document *)
Definition within (b : B) : Prop := forall d, 0 <= d -> bm_get b d = true -> d <= maxDocId.

Lemma foldl_and_in l (b : B) d : bm_get (foldl logicaland b l) d = true -> bm_get b d = true /\ forall a, a ∈ l -> bm_get a d = true.
Proof.
  revert b. induction l as [|a l IH]; intros b H; [split; [done|]; by intros a ?%elem_of_nil|].
  apply IH in H as [H Hl]. rewrite logicaland_spec in H. apply andb_true_iff in H as [H1 H2]. split; [done|].
  intros x [->|Hx]%elem_of_cons; auto.
Qed.

Lemma foldl_or_in l (b : B) d : bm_get (foldl logicalor b l) d = true -> bm_get b d = true \/ exists a, a ∈ l /\ bm_get a d = true.
Proof.
  revert b. induction l as [|a l IH]; intros b H; [by left|]. destruct (IH _ H) as [H'|(x & Hx & H')]; [|right; exists x; set_solver].
  rewrite logicalor_spec in H'. apply orb_true_iff in H' as [H'|H']; [by left|right]. exists a. set_solver.
Qed.

Lemma combine_within relation l k : Forall within l -> Forall within k -> l <> [] \/ k <> [] -> within (combine_bitmaps maxDocId relation l k).
Proof.
  rewrite !Forall_forall. intros Hl Hk Hne d Hd. unfold combine_bitmaps.
  destruct (String.eqb relation "and"); [|destruct (String.eqb relation "or"); [|by rewrite bm_new_spec]].
  - intros [[_ Ha]%foldl_and_in Hb]%foldl_and_in. destruct Hne as [Hne|Hne].
    + destruct l as [|a l]; [done|]. apply (Hl a); [by left|done|]. apply Ha. by left.
    + destruct k as [|a k]; [done|]. apply (Hk a); [by left|done|]. apply Hb. by left.
  - intros [[H|(a & Ha & H)]%foldl_or_in|(a & Ha & H)]%foldl_or_in; [|by apply (Hl a)|by apply (Hk a)].
    rewrite addStream_spec in H; [done| |done]. apply (wordsNum_covers 0). lia.
Qed.

(** The index answers with documents of the collection only, and no node of the
    tree is empty. *)
Definition leaf_bounded (leaf : FilteringType) : Prop := forall d, 0 <= d -> leaf_holds leaf d = true -> d <= maxDocId.

Fixpoint tree_bounded (t : ConditionsNode) : Prop :=
  let '(Conditions _ leaves nodes) := t in
  (leaves <> [] \/ nodes <> []) /\ Forall leaf_bounded leaves /\ foldr (fun t P => tree_bounded t /\ P) True nodes.

Definition answers (t : ConditionsNode) (b : B) : Prop :=
  (forall d, 0 <= d <= maxDocId -> bm_get b d = condition_holds t d) /\ (tree_bounded t -> within b).

Lemma leaves_within leaves l : Forall leaf_bounded leaves -> Forall2 (fun l b => forall d, bm_get b d = leaf_holds l d) leaves l -> Forall within l.
Proof.
  intros Hb H. revert Hb. induction H as [|a b leaves l Ha _ IH]; intros Hb; [constructor|].
  apply Forall_cons in Hb as [H1 H2]. constructor; [|by apply IH]. intros d Hd. rewrite Ha. by apply H1.
Qed.

Lemma nodes_within nodes l : foldr (fun t P => tree_bounded t /\ P) True nodes -> Forall2 answers nodes l -> Forall within l.
Proof.
  intros Hb H. revert Hb. induction H as [|a b nodes l [_ Ha] _ IH]; intros Hb; [constructor|]. destruct Hb as [H1 H2]. constructor; auto.
Qed.

Lemma combine_answers relation leaves nodes l1 l2 :
  Forall2 (fun l b => forall d, bm_get b d = leaf_holds l d) leaves l1 -> Forall2 answers nodes l2 ->
  (forall d, 0 <= d <= maxDocId -> bm_get (combine_bitmaps maxDocId relation l1 l2) d =
    if String.eqb relation "and" then forallb (fun l => leaf_holds l d) leaves && forallb (fun t => condition_holds t d) nodes
    else if String.eqb relation "or" then existsb (fun l => leaf_holds l d) leaves || existsb (fun t => condition_holds t d) nodes else false) /\
  (tree_bounded (Conditions relation leaves nodes) -> within (combine_bitmaps maxDocId relation l1 l2)).
Proof.
  intros H1 H2. split.
  - intros d Hd. apply combine_spec; [eapply Forall2_impl; [exact H1|]; auto|eapply Forall2_impl; [exact H2|]|done]. by intros t b [Hb _].
  - intros (Hne & Hl & Hn). apply combine_within; [by eapply leaves_within|by eapply nodes_within|].
    pose proof (Forall2_length _ _ _ H1). pose proof (Forall2_length _ _ _ H2).
    destruct Hne; [left|right]; [destruct leaves, l1|destruct nodes, l2]; done.
Qed.

Fixpoint process_tree_spec (t : ConditionsNode) : tree_ok t -> forall c, cache_all cached c ->
  exists b c', do_process_filtertree maxDocId t c = Ret (b, c') /\ cache_all cached c' /\ answers t b.
Proof.
  destruct t as [relation leaves nodes]. intros [Hl Hn] c Hc.
  assert (Forall (fun t => forall c, cache_all cached c ->
    exists b c', do_process_filtertree maxDocId t c = Ret (b, c') /\ cache_all cached c' /\ answers t b) nodes) as Hnodes.
  { clear -process_tree_spec Hn. induction nodes as [|t nodes IH]; [constructor|]. destruct Hn as [Ht Hn].
    constructor; [by apply process_tree_spec|by apply IH]. }
  clear process_tree_spec Hn.
  assert (Forall (fun l => forall c, cache_all cached c -> exists b c', process_leaf l c = Ret (b, c') /\ cache_all cached c' /\
    forall d, bm_get b d = leaf_holds l d) leaves) as Hleaves.
  { eapply Forall_impl; [exact Hl|]. intros l Hok c' Hc'. by apply process_leaf_spec. }
  destruct (each_st_rule process_leaf _ _ _ _ Hleaves Hc) as (l1 & c1 & E1 & Hc1 & H1).
  destruct (each_st_rule (do_process_filtertree maxDocId) _ _ _ _ Hnodes Hc1) as (l2 & c2 & E2 & Hc2 & H2).
  pose proof (combine_answers relation _ _ _ _ H1 H2) as Hgen.
  assert ((let* (l1, c) := each_st process_leaf leaves c in
      let* (l2, c) := each_st (do_process_filtertree maxDocId) nodes c in Ret (combine_bitmaps maxDocId relation l1 l2, c)) =
    Ret (combine_bitmaps maxDocId relation l1 l2, c2)) as E by (rewrite E1; cbn [res_bind]; by rewrite E2).
  unfold answers. destruct leaves as [|leaf [|leaf' leaves]]; [by eexists _, c2| |by eexists _, c2].
  destruct nodes as [|t nodes]; [|by eexists _, c2].
  apply Forall_inv in Hleaves. destruct (Hleaves c Hc) as (b & c' & Ep & Hc' & Hb). exists b, c'.
  split; [done|]. split; [done|]. split; [auto|]. intros (_ & Hd & _) d H0. rewrite Hb. by apply (Forall_inv Hd).
Qed.

(** C12: for a tree whose conditions have the values that their operators take,
    the filter of a request exists and holds exactly the documents that meet the
    tree, whatever of the conditions the cache answered; the cache stays correct. A
    document meets a condition when one of the values that the index stores for it
    is in the operator's relation to the values of the condition, trimmed and
    converted; an inner node joins its conditions by "and" or "or". *)
Theorem prepare_filter_spec (t : ConditionsNode) c : tree_ok t -> cache_all cached c ->
  exists b c', prepare_filter maxDocId t c = Ret (b, c') /\ cache_all cached c' /\
    forall d, 0 <= d <= maxDocId -> bm_get b d = condition_holds t d.
Proof. intros Ht Hc. destruct (process_tree_spec t Ht c Hc) as (b & c' & E & Hc' & Hb & _). eauto. Qed.
End FilterSpec.

(** ** A concrete index: the document [d] has the price [10 * d] *)
Definition bits : Type := Z -> bool.

#[export] Instance bits_Bitmap : Bitmap bits := {
  bm_new := fun _ => false;
  addStreamOfEmptyWords v n b := fun i => b i || (v && (i <? wordBitNum * n));
  logicaland a b := fun i => a i && b i;
  logicalor a b := fun i => a i || b i;
  bm_set i b := fun j => (j =? i) || b j;
  bm_get b := b
}.

#[export] Instance bits_BitmapSpec : BitmapSpec bits.
Proof. by split. Qed.

Definition price_test (test : Z -> Z -> bool) (p : PropertyType string) : bits :=
  fun d => match p with TInt32 z | TInt64 z => test (10 * d) z | _ => false end.

#[export] Instance bits_RangeIndex : RangeIndex string bits := {
  str_to_propstr := id;
  ustr_to_propstr _ := ""%string;
  Trim := id;
  UTrim := id;
  docsEqual _ := price_test Z.eqb;
  docsIn _ l := fun d => existsb (fun p => price_test Z.eqb p d) l;
  docsNotIn _ l := fun d => negb (existsb (fun p => price_test Z.eqb p d) l);
  docsNotEqual _ p := fun d => negb (price_test Z.eqb p d);
  docsGreaterThan _ := price_test (fun a b => b <? a);
  docsGreaterThanOrEqual _ := price_test (fun a b => b <=? a);
  docsLessThan _ := price_test Z.ltb;
  docsLessThanOrEqual _ := price_test Z.leb;
  docsRange _ p q := fun d => price_test (fun a b => b <=? a) p d && price_test Z.leb q d;
  docsStart _ _ := fun _ => false;
  docsEnd _ _ := fun _ => false;
  docsSubString _ _ := fun _ => false
}.

Definition on_number (test : Z -> bool) (p : PropertyType string) : bool :=
  match p with TInt32 z | TInt64 z => test z | _ => false end.

Lemma leb_or a b : (a <=? b) = (a <? b) || (a =? b).
Proof. destruct (Z.leb_spec a b), (Z.ltb_spec a b), (Z.eqb_spec a b); done || lia. Qed.

#[export] Instance bits_RangeIndexSpec : RangeIndexSpec string bits.
Proof.
  refine {|
    stored _ d := [TInt64 (10 * d)];
    same w v := on_number (fun a => on_number (Z.eqb a) v) w;
    lower w v := on_number (fun a => on_number (Z.ltb a) v) w;
    starts_with _ _ := false; ends_with _ _ := false; contains _ _ := false;
    without _ l d := negb (existsb (fun p => price_test Z.eqb p d) l)
  |}.
  - done.
  - done.
  - intros p l d w [= <-]. done.
  - intros p [] d; cbn; by rewrite ?orb_false_r.
  - intros p l d. cbn. by rewrite orb_false_r.
  - done.
  - intros p v d. cbn. by rewrite orb_false_r.
  - intros p [] d; cbn; by rewrite ?orb_false_r.
  - intros p [] d; cbn; rewrite ?orb_false_r, ?leb_or, ?(Z.eqb_sym (10 * d)); done.
  - intros p [] d; cbn; by rewrite ?orb_false_r.
  - intros p [] d; cbn; by rewrite ?orb_false_r, ?leb_or.
  - intros p v1 v2 d. cbn. rewrite orb_false_r.
    destruct v1, v2; cbn; rewrite ?leb_or, ?andb_false_r, ?(Z.eqb_sym (10 * d)); done.
  - done.
  - done.
  - done.
Defined.

#[export] Instance spec_float_eq_dec : EqDecision spec_float.
Proof. solve_decision. Defined.
#[export] Instance PropertyValue_eq_dec : EqDecision PropertyValue.
Proof. solve_decision. Defined.
#[export] Instance FilteringOperation_eq_dec : EqDecision FilteringOperation.
Proof. solve_decision. Defined.
#[export] Instance InterFilteringLogic_eq_dec : EqDecision InterFilteringLogic.
Proof. solve_decision. Defined.
#[export] Instance FilteringType_eq_dec : EqDecision FilteringType.
Proof. solve_decision. Defined.

(** A cache of at most two entries, the oldest one evicted. *)
#[export] Instance list_Cache {K B} `{!EqDecision K} : Cache (list (K * B)) K B := {
  cache_get k c := (snd <$> List.find (fun e => bool_decide (e.1 = k)) c, c);
  cache_set k b c := take 2 ((k, b) :: c)
}.

#[export] Instance list_CacheSpec {K B} `{!EqDecision K} : CacheSpec (list (K * B)) K B.
Proof.
  refine {| cache_all P c := Forall (fun e => P e.1 e.2) c |}.
  - intros P k c Hc. cbn. split; [done|]. intros b H. apply fmap_Some in H as ([k' b'] & [Hin E]%List.find_some & ->).
    apply bool_decide_eq_true in E. cbn in E. subst k'. rewrite List.Forall_forall in Hc. by specialize (Hc _ Hin).
  - intros P k b c Hc H. cbn [cache_set list_Cache]. by apply Forall_take, Forall_cons.
Defined.

(** 20 < price and (price <= 60 or price = 90) *)
Definition ex_conditions : ConditionsNode :=
  Conditions "and" [Filtering GREATER_THAN "Price" FilterAnd [PInt64 20]]
    [Conditions "or" [Filtering LESS_THAN_EQUAL "Price" FilterAnd [PInt64 60]; Filtering EQUAL "Price" FilterAnd [PInt32 90]] []].

Example ex_conditions_documents :
  filter (fun d => condition_holds (X := string) (B := bits) ex_conditions d) (seqZ 0 20) = [3; 4; 5; 6; 9].
Proof. vm_compute. reflexivity. Qed.

Lemma prepare_filter_spec_witness : exists b c', prepare_filter 19 ex_conditions ([] : list (FilteringType * bits)) = Ret (b, c') /\
  cache_all cached c' /\ forall d, 0 <= d <= 19 -> bm_get b d = condition_holds ex_conditions d.
Proof.
  apply prepare_filter_spec; [done| |constructor]. split; [|split; [split|]]; [..|done|done]; repeat constructor; by eexists.
Defined.
