(* ===== verification/QueryBuilder.v ===== *)
(** * The query builder

Models search-manager/QueryBuilder.{h,cpp}: from the tree of a parsed query
(query-manager/QueryTree.h) to the tree of document iterators that search it,
in one property ([do_prepare_for_property_]) or in several that share an index
name ([do_prepare_for_virtual_property_]), and one scorer over all properties of
a request ([prepare_dociterator]). Also TermDocumentIterator::accept and
common/TermTypeDetector. The inverted index and the B-tree index of the izenelib
library are an interface. [prepare_for_property_] leaves the argument
[virtualProperty] of [do_prepare_for_property_] empty, the code for another value
is not reached. *)
From Stdlib Require Import String.
From S2P Require Import Prelude OrdMap PQueue Float64 DocIterator OrIterator AndIterator PhraseMatch PhraseIterator WandIterator WildcardIterator QueryIter GroupParam QueryFilter.

(** ** Query trees *)
Inductive QueryType :=
| KEYWORD | RANK_KEYWORD | UNIGRAM_WILDCARD | TRIE_WILDCARD | AND | OR | NOT | WAND | EXACT | ORDER | NEARBY
| ASTERISK | QUESTION_MARK | AND_PERSONAL | OR_PERSONAL | FILTER_QUERY | UNKNOWN.

#[export] Instance QueryType_eq_dec : EqDecision QueryType.
Proof. solve_decision. Defined.

Inductive QueryTree :=
| Tree (type_ : QueryType) (keyword_ : string) (keywordId_ distance_ : Z) (children_ : list QueryTree).

Definition type_ (t : QueryTree) : QueryType := let '(Tree ty _ _ _ _) := t in ty.
Definition keyword_ (t : QueryTree) : string := let '(Tree _ k _ _ _) := t in k.
Definition keywordId_ (t : QueryTree) : Z := let '(Tree _ _ id _ _) := t in id.
Definition children_ (t : QueryTree) : list QueryTree := let '(Tree _ _ _ _ l) := t in l.

(** What the builder reads of configuration-manager/PropertyConfig.h. *)
Record IndexProperty := IndexProp {
  ip_name : string;
  ip_id : Z;
  ip_type : PropertyDataType;
  ip_isIndex : bool;
  ip_isFilter : bool;
  subProperties_ : list string
}.

(** The index of a collection. [qi_seek] answers the frequency of a term that is
    found, [qi_open] its readers, with positions or without. *)
Class QueryIndex (D X B : Type) := {
  qi_termReader : bool;
  qi_seek : string -> Z -> res (option Z);
  qi_open : string -> Z -> bool -> res (option D);
  qi_docFreq : D -> Z;
  qi_lexical_cast : PropertyDataType -> string -> option PropertyValue;
  qi_seekBTree : string -> PropertyType X -> bool;
  qi_numericDocs : string -> PropertyType X -> B;
  qi_filterDocs : B -> D
}.

(** The answer of a builder function; [Raised] is an exception it lets out, with
    the state it leaves. *)
Inductive answer := Yes | No | Raised.
Definition yes_or (a b : answer) : answer := match a with Yes => Yes | _ => b end.
Definition of_bool (b : bool) : answer := if b then Yes else No.

Section Builder.
Context {D Q X B C : Type} `{!DocIterator D, !TermPositions D, !PQueue Q nat, !RangeIndex X B, !QueryIndex D X B, !Cache C FilteringType B}.
Notation qi := (qiter D Q).
Notation readers := (gmap Z (list D)).
(** Members that the constructors leave uninitialised. *)
Context (junk : Z) (junkf : spec_float).

(** ** TermTypeDetector::isTypeMatch: the value it leaves in [propertyValue_] *)
Definition isTypeMatch (term : string) (dataType : PropertyDataType) : option PropertyValue :=
  match dataType with
  | INT32_PROPERTY_TYPE | FLOAT_PROPERTY_TYPE | INT64_PROPERTY_TYPE | DOUBLE_PROPERTY_TYPE => qi_lexical_cast dataType term
  | _ => None
  end.

(** ** TermDocumentIterator::accept: the frequency and the reader of a term *)
Definition accept (isNumericFilter : bool) (property : string) (dataType : PropertyDataType) (readPositions : bool)
    (keyword : string) (keywordId : Z) : res (option (Z * D)) :=
  if negb isNumericFilter then
    if negb qi_termReader then Ret None
    else
      let* find := qi_seek property keywordId in
      match find with
      | None => Ret None
      | Some df =>
          let* r := qi_open property keywordId readPositions in
          Ret (match r with Some d => Some (df, d) | None => None end)
      end
  else
    match isTypeMatch keyword dataType with
    | None => Ret None
    | Some v =>
        let* (value, _) := visit (X := X) (B := B) v in
        if qi_seekBTree property value then
          let d := qi_filterDocs (qi_numericDocs property value) in
          Ret (Some (qi_docFreq d, d))
        else Ret None
    end.

(** ** Readers that were prefetched *)
Definition push_reader (id : Z) (d : D) (m : readers) : readers := <[id := default [] (m !! id) ++ [d]]> m.

(** back() and pop_back() of a vector that is not empty. *)
Definition pop_reader (id : Z) (m : readers) : option (D * readers) :=
  match m !! id with
  | Some l => match last l with Some d => Some (d, <[id := removelast l]> m) | None => None end
  | None => None
  end.

Definition isNumericFilter_of (p : IndexProperty) : bool :=
  ip_isIndex p && ip_isFilter p && negb (match ip_type p with STRING_PROPERTY_TYPE => true | _ => false end).

(** One turn of the loop of [prefetch_term_doc_readers_]. *)
Definition prefetch_term (p : IndexProperty) (readPositions isNumericFilter : bool) (term : Z * string) (st : readers * C) : res (readers * C) :=
  let (termDocReaders, filterCache_) := st in
  let (termId, termStr) := term in
  if negb isNumericFilter then
    let* find := qi_seek (ip_name p) termId in
    match find with
    | None => Ret st
    | Some _ =>
        let* r := qi_open (ip_name p) termId readPositions in
        Ret (match r with Some d => push_reader termId d termDocReaders | None => termDocReaders end, filterCache_)
    end
  else
    match isTypeMatch termStr (ip_type p) with
    | None => Ret st
    | Some v =>
        let* (value, _) := visit (X := X) (B := B) v in
        if qi_seekBTree (ip_name p) value then
          let rule := Filtering EQUAL (ip_name p) FilterAnd [v] in
          let (b, c) :=
            match cache_get rule filterCache_ with
            | (Some b, c) => (b, c)
            | (None, c) => let b := qi_numericDocs (ip_name p) value in (b, cache_set rule b c)
            end in
          Ret (push_reader termId (qi_filterDocs b) termDocReaders, c)
        else Ret st
    end.

(** [isNumericFilter] is set, never cleared. *)
Definition prefetch_term_doc_readers_ (termList : list (Z * string)) (p : IndexProperty) (readPositions isNumericFilter : bool)
    (st : readers * C) : res (bool * (readers * C)) :=
  let isNumericFilter := isNumericFilter || isNumericFilter_of p in
  if negb isNumericFilter && negb qi_termReader then Ret (isNumericFilter, st)
  else
    let* st := mfold (prefetch_term p readPositions isNumericFilter) termList st in
    Ret (isNumericFilter, st).

(** ** One property *)
Section Property.
Context (property : string) (dataType : PropertyDataType) (isNumericFilter readPositions hasUnigramProperty isUnigramSearchMode : bool).
(** [termIndexMapInProperty] *)
Context (termIndexMap : gmap Z Z).

Definition term_index (id : Z) : Z := default (2 ^ 32 - 1) (termIndexMap !! id).

(** if (NULL == pDocIterator) pDocIterator = pIterator; else pDocIterator->add(pIterator); *)
Definition attach (isNot : bool) (pDocIterator : option qi) (it : qi) : option qi :=
  Some (match pDocIterator with None => it | Some parent => q_add isNot it parent end).

(** The iterator of a term, with its reader. *)
Definition term_iterator (rank : bool) (parentAndOrFlag : Z) (keywordId df : Z) (d : D) : qi :=
  let t := TermIter (TermData property (term_index keywordId) df junkf) (Some d) in
  if isUnigramSearchMode && rank then QRank (parentAndOrFlag =? 1) true false 0 t else QTerm t.

Definition prepare_keyword (rank : bool) (keyword : string) (keywordId parentAndOrFlag : Z) (slot : option qi) (m : readers)
  : res (answer * option qi * readers) :=
  match pop_reader keywordId m with
  | Some (d, m) => Ret (Yes, attach false slot (term_iterator rank parentAndOrFlag keywordId (qi_docFreq d) d), m)
  | None =>
      (* the constructors of the unigram mode leave isNumericFilter_ false *)
      match accept (isNumericFilter && negb isUnigramSearchMode) property dataType readPositions keyword keywordId with
      | Ret (Some (df, d)) => Ret (Yes, attach false slot (term_iterator rank parentAndOrFlag keywordId df d), m)
      | Ret None => Ret (of_bool isNumericFilter, slot, m)
      | Throw _ => Ret (No, slot, m)
      | Undef => Undef
      | NoFuel => NoFuel
      end
  end.

(** The property of the iterators that read single characters. *)
Definition unigramProperty : string := if hasUnigramProperty then (property ++ "_unigram")%string else property.

Definition prepare_unigram_wildcard (children : list QueryTree) : res qi :=
  let '(termIds, asterisk_pos, question_mark_pos) :=
    foldl (fun '(ids, a, q) c =>
      match type_ c with
      | ASTERISK => (ids, a ++ [vsize ids], q)
      | QUESTION_MARK => (ids, a, q ++ [vsize ids])
      | _ => (ids ++ [keywordId_ c], a, q)
      end) ([], [], []) children in
  let* p := WildcardPhraseDocumentIterator termIds asterisk_pos question_mark_pos unigramProperty junk in
  Ret (QPhrase p).

(** WildcardDocumentIterator::add of a term id; the last component tells that an
    exception went through. *)
Definition wildcard_add (id : Z) (st : wild_iter (term_iter D) Q (heap (term_iter D)) * readers * bool)
  : res (wild_iter (term_iter D) Q (heap (term_iter D)) * readers * bool) :=
  let '(w, m, raised) := st in
  if raised then Ret st
  else
    match m !! id with
    | Some l =>
        match last l with
        | None => Undef
        | Some d =>
            let* w := wild_add (TermIter (TermData property (term_index id) (qi_docFreq d) f32_zero) (Some d)) w in
            Ret (w, <[id := removelast l]> m, false)
        end
    | None =>
        if negb qi_termReader then Undef
        else
          match qi_seek property id with
          | Ret (Some df) =>
              if 0 <? df then
                let* w := wild_add (TermIter (TermData property (term_index id) df f32_zero) None) w in Ret (w, m, false)
              else Ret st
          | Ret None => Ret st
          | Throw _ => Ret (w, m, true)
          | Undef => Undef
          | NoFuel => NoFuel
          end
    end.

Definition kWildcardTermThreshold : Z := 5.

Definition prepare_trie_wildcard (children : list QueryTree) (slot : option qi) (m : readers) : res (answer * option qi * readers) :=
  match children with
  | [] => Ret (No, slot, m)
  | _ =>
      let* (w, m, raised) := mfold wildcard_add (map keywordId_ children) (WildcardDocumentIterator kWildcardTermThreshold junk, m, false) in
      if raised then Ret (Raised, slot, m)
      else if numIterators w =? 0 then Ret (No, slot, m)
      else Ret (Yes, attach false slot (QWildcard junkf w), m)
  end.

(** getTermIdsAndIndexesOfSiblings *)
Definition getTermIdsAndIndexesOfSiblings (children : list QueryTree) : list Z * list Z :=
  (map keywordId_ children, map (fun c => term_index (keywordId_ c)) children).

(** The loops over the children of AND (also of the personal iterators), which
    stops at the first that fails, and of OR and WAND. *)
Notation prepare_child := (QueryTree -> option qi -> readers -> res (answer * option qi * readers)).
Definition all_children (prepare : prepare_child) : list QueryTree -> option qi -> readers -> res (answer * option qi * readers) :=
  fix go l slot m :=
    match l with
    | [] => Ret (Yes, slot, m)
    | c :: l => let* (a, slot, m) := prepare c slot m in match a with Yes => go l slot m | _ => Ret (a, slot, m) end
    end.
Definition any_child (prepare : prepare_child) : answer -> list QueryTree -> option qi -> readers -> res (answer * option qi * readers) :=
  fix go ret l slot m :=
    match l with
    | [] => Ret (ret, slot, m)
    | c :: l => let* (a, slot, m) := prepare c slot m in match a with Raised => Ret (a, slot, m) | _ => go (yes_or a ret) l slot m end
    end.

(** The end of a case: attach the iterator, or drop it and answer [failed]. *)
Definition finish (failed : answer) (slot : option qi) (r : answer * option qi * readers) : answer * option qi * readers :=
  let '(a, it, m) := r in
  match a, it with
  | Yes, Some it => (Yes, attach false slot it, m)
  | Raised, _ => (No, slot, m)
  | _, _ => (failed, slot, m)
  end.

Fixpoint do_prepare_for_property_ (t : QueryTree) (parentAndOrFlag : Z) (slot : option qi) (m : readers) {struct t}
  : res (answer * option qi * readers) :=
  let '(Tree ty keyword keywordId distance children) := t in
  match ty with
  | KEYWORD => prepare_keyword false keyword keywordId parentAndOrFlag slot m
  | RANK_KEYWORD => prepare_keyword true keyword keywordId parentAndOrFlag slot m
  | NOT =>
      match children, slot with
      | [child], Some parent =>
          match type_ child with
          | NOT => Ret (No, slot, m)
          | _ =>
              let* (a, it, m) := do_prepare_for_property_ child 1 None m in
              match a, it with
              | Raised, _ => Ret (Yes, slot, m)
              | _, Some it => Ret (Yes, Some (q_add true it parent), m)
              | _, None => Ret (Yes, slot, m)
              end
          end
      | _, _ => Ret (No, slot, m)
      end
  | UNIGRAM_WILDCARD => let* it := prepare_unigram_wildcard children in Ret (Yes, attach false slot it, m)
  | TRIE_WILDCARD => prepare_trie_wildcard children slot m
  | AND =>
      let* r := all_children (fun c => do_prepare_for_property_ c 1) children (Some (QAnd (f32_of (vsize children)) (ANDDocumentIterator junk))) m in
      Ret (finish No slot r)
  | WAND =>
      let* r := any_child (fun c => do_prepare_for_property_ c 1) No children (Some (QWand (f32_of (vsize children)) WANDDocumentIterator)) m in
      Ret (finish No slot r)
  | OR =>
      let* r := any_child (fun c => do_prepare_for_property_ c 1) No children (Some (QOr (f32_of (vsize children)) (ORDocumentIterator junk))) m in
      Ret (finish No slot r)
  | AND_PERSONAL =>
      let* r := all_children (fun c => do_prepare_for_property_ c 0) children (Some (QPersonal true true false junkf (ANDDocumentIterator 0))) m in
      Ret (finish Yes slot r)
  | OR_PERSONAL =>
      let* r := all_children (fun c => do_prepare_for_property_ c 0) children (Some (QPersonal false true false junkf (ANDDocumentIterator 0))) m in
      Ret (finish Yes slot r)
  | EXACT => Ret (Yes, attach false slot (QPhrase (PhraseDocumentIterator PExact (getTermIdsAndIndexesOfSiblings children).1 unigramProperty junk)), m)
  | NEARBY => Ret (Yes, attach false slot (QPhrase (PhraseDocumentIterator (PNearby distance) (getTermIdsAndIndexesOfSiblings children).1 property junk)), m)
  | ORDER => Ret (Yes, attach false slot (QPhrase (PhraseDocumentIterator POrdered (getTermIdsAndIndexesOfSiblings children).1 property junk)), m)
  | ASTERISK | QUESTION_MARK | FILTER_QUERY | UNKNOWN => Ret (Yes, slot, m)
  end.
End Property.

(** ** A virtual property: several properties under one name *)
Section Virtual.
Context (properties : list string).
Context (termIndexMap : gmap Z Z).

(** The loop over the properties: the readers of the term, taken off the maps. *)
Fixpoint pop_readers (id : Z) (props : list string) (ms : list readers) : res (list (string * D) * list readers) :=
  match props, ms with
  | [], _ => Ret ([], ms)
  | _ :: _, [] => Undef
  | p :: props, m :: ms =>
      let (o, m) := match pop_reader id m with Some (d, m) => (Some d, m) | None => (None, m) end in
      let* (l, ms) := pop_readers id props ms in
      Ret (match o with Some d => (p, d) :: l | None => l end, m :: ms)
  end.

Definition virtual_keyword (keywordId : Z) (slot : option qi) (ms : list readers) : res (answer * option qi * list readers) :=
  let* (l, ms) := pop_readers keywordId properties ms in
  let or := foldl (fun it '(p, d) => or_add false (QTerm (TermIter (TermData p (term_index termIndexMap keywordId) (qi_docFreq d) junkf) (Some d))) it)
    (ORDocumentIterator junk) l in
  Ret (Yes, attach false slot (QVirtual (Some (QOr junkf or))), ms).

Notation prepare_child := (QueryTree -> option qi -> list readers -> res (answer * option qi * list readers)).
Definition virtual_children (prepare : prepare_child) : list QueryTree -> option qi -> list readers -> res (answer * option qi * list readers) :=
  fix go l slot m :=
    match l with
    | [] => Ret (Yes, slot, m)
    | c :: l => let* (a, slot, m) := prepare c slot m in match a with Yes => go l slot m | _ => Ret (a, slot, m) end
    end.

Definition virtual_finish (slot : option qi) (r : answer * option qi * list readers) : answer * option qi * list readers :=
  let '(a, it, m) := r in
  match a, it with Yes, Some it => (Yes, attach false slot it, m) | _, _ => (No, slot, m) end.

Fixpoint do_prepare_for_virtual_property_ (t : QueryTree) (slot : option qi) (ms : list readers) {struct t}
  : res (answer * option qi * list readers) :=
  let '(Tree ty _ keywordId _ children) := t in
  match ty with
  | KEYWORD => virtual_keyword keywordId slot ms
  | AND =>
      let* r := virtual_children do_prepare_for_virtual_property_ children (Some (QAnd junkf (ANDDocumentIterator junk))) ms in
      Ret (virtual_finish slot r)
  | OR =>
      let* r := virtual_children do_prepare_for_virtual_property_ children (Some (QOr junkf (ORDocumentIterator junk))) ms in
      Ret (virtual_finish slot r)
  | NOT =>
      match children, slot with
      | [child], Some parent =>
          match type_ child with
          | NOT => Ret (No, slot, ms)
          | _ =>
              let* (_, it, ms) := do_prepare_for_virtual_property_ child None ms in
              Ret (Yes, match it with Some it => Some (q_add true it parent) | None => slot end, ms)
          end
      | _, _ => Ret (No, slot, ms)
      end
  | _ => Ret (Yes, slot, ms)
  end.
End Virtual.

(** ** The scorer of the properties of a request (MultiPropertyScorer.h) *)
Record scorer := Scorer {
  sc_ids : list Z;
  sc_slots : list (option (qi * bool));
  termDocReadersList_ : list readers;
  termDocReadersListVirtual_ : list readers
}.

Definition MultiPropertyScorer (propertyIds : list Z) : scorer :=
  Scorer propertyIds (map (fun _ => None) propertyIds) (map (fun _ => ∅) propertyIds) [].

(** The first place of the id; 0 when it is not there. *)
Fixpoint getIndexOfProperty_ (ids : list Z) (propertyId : Z) : option Z :=
  match ids with
  | [] => None
  | id :: ids => if id =? propertyId then Some 0 else (fun i => i + 1) <$> getIndexOfProperty_ ids propertyId
  end.
Definition index_of (ids : list Z) (propertyId : Z) : Z := default 0 (getIndexOfProperty_ ids propertyId).

Definition scorer_add (propertyId : Z) (it : qi) (s : scorer) : res scorer :=
  let* slots := vset (sc_slots s) (index_of (sc_ids s) propertyId) (Some (it, false)) in
  Ret (Scorer (sc_ids s) slots (termDocReadersList_ s) (termDocReadersListVirtual_ s)).

Definition scorer_add_readers (propertyId : Z) (it : qi) (m : readers) (s : scorer) : res scorer :=
  let* s := scorer_add propertyId it s in
  let* l := vset (termDocReadersList_ s) (index_of (sc_ids s) propertyId) m in
  Ret (Scorer (sc_ids s) (sc_slots s) l (termDocReadersListVirtual_ s)).

(** The scorer as an iterator. *)
Definition scorer_iter (s : scorer) : qi :=
  QScorer (sc_ids s) junkf (OrIter (OrCore (sc_slots s) None junk) false MAX_DOC_ID false None).

(** ** prepare_dociterator *)

(** query-manager/SearchKeywordOperation.h: the trees and terms of the query. *)
Record operation := Operation {
  getQueryTree : string -> option QueryTree;
  getQueryTermInfoList : string -> list (Z * string);
  hasUnigramProperty_ : bool;
  isUnigramSearchMode_ : bool
}.

(** std::sort of pairs *)
Definition pair_le (a b : Z * string) : bool :=
  if a.1 =? b.1 then match tcompare a.2 b.2 with Gt => false | _ => true end else a.1 <? b.1.
Definition sort_terms (l : list (Z * string)) : list (Z * string) := merge_sort (fun a b => pair_le a b) l.

Context (op : operation) (schemaMap_ : gmap string IndexProperty) (readPositions : bool).

(** An exception leaves [prepare_dociterator] as [Throw]. *)
Definition prepare_for_property_ (p : IndexProperty) (termIndexMap : gmap Z Z) (st : scorer * Z * C) : res (scorer * Z * C) :=
  let '(pScorer, success_properties, c) := st in
  let termList := sort_terms (getQueryTermInfoList op (ip_name p)) in
  let* (isNumericFilter, (termDocReaders, c)) := prefetch_term_doc_readers_ termList p readPositions false (∅, c) in
  let* (a, pIter, termDocReaders) :=
    match getQueryTree op (ip_name p) with
    | Some t => do_prepare_for_property_ (ip_name p) (ip_type p) isNumericFilter readPositions (hasUnigramProperty_ op) (isUnigramSearchMode_ op)
        termIndexMap t 0 None termDocReaders
    | None => Ret (No, None, termDocReaders)
    end in
  match a, pIter with
  | Raised, _ => Throw "seek"
  | _, Some it =>
      let* pScorer := scorer_add_readers (ip_id p) it termDocReaders pScorer in
      Ret (pScorer, success_properties + 1, c)
  | _, None => Ret (pScorer, success_properties, c)
  end.

(** The readers of every sub-property; one that the schema misses is the end
    iterator, dereferenced. *)
Definition prefetch_sub (termList : list (Z * string)) (sub : string) (st : list readers * list string * bool * C)
  : res (list readers * list string * bool * C) :=
  let '(ms, names, isNumericFilter, c) := st in
  match schemaMap_ !! sub with
  | None => Undef
  | Some p =>
      let* (isNumericFilter, (m, c)) := prefetch_term_doc_readers_ termList p readPositions isNumericFilter (∅, c) in
      Ret (ms ++ [m], names ++ [ip_name p], isNumericFilter, c)
  end.

Definition prepare_for_virtual_property_ (p : IndexProperty) (termIndexMap : gmap Z Z) (st : scorer * Z * C) : res (scorer * Z * C) :=
  let '(pScorer, success_properties, c) := st in
  match getQueryTree op (ip_name p) with
  | None => Ret st
  | Some t =>
      let termList := sort_terms (getQueryTermInfoList op (ip_name p)) in
      let* (ms, names, _, c) := mfold (prefetch_sub termList) (subProperties_ p) ([], [], false, c) in
      let* (a, pIter, ms) := do_prepare_for_virtual_property_ names termIndexMap t None ms in
      match a, pIter with
      | Yes, Some it =>
          let* pScorer := scorer_add (ip_id p) it pScorer in
          Ret (Scorer (sc_ids pScorer) (sc_slots pScorer) (termDocReadersList_ pScorer) ms, success_properties + 1, c)
      | _, _ => Ret (pScorer, success_properties, c)
      end
  end.

(** The vectors [properties] and [termIndexMaps] side by side. *)
Definition prepare_one (pt : string * gmap Z Z) (st : scorer * Z * C) : res (scorer * Z * C) :=
  match schemaMap_ !! pt.1 with
  | None => Ret st
  | Some p =>
      if is_nil (subProperties_ p) then prepare_for_property_ p pt.2 st else prepare_for_virtual_property_ p pt.2 st
  end.

Definition prepare_dociterator (properties : list (string * gmap Z Z)) (propertyIds : list Z) (c : C) : res (option scorer * C) :=
  let* (s, success_properties, c) := mfold prepare_one properties (MultiPropertyScorer propertyIds, 0, c) in
  Ret (if 0 <? success_properties then Some s else None, c).
End Builder.
