(* ===== verification/QueryDocs.v ===== *)
(** * What the iterators of the query builder enumerate

The meaning of a query tree as a set of documents, given the postings of an
index, and the theorem that the tree of iterators that
[do_prepare_for_property_] builds (QueryBuilder.v) enumerates exactly these
documents, whichever of its readers were prefetched. The trees covered are those
of terms, phrases, AND and OR, and an AND with NOT children under OR or at the
root. *)
From Stdlib Require Import String.
From S2P Require Import Prelude PQueue Float64 DocIterator OrIterator AndIterator PhraseMatch PhraseIterator WandIterator WildcardIterator QueryIter GroupParam QueryFilter QueryBuilder.

(** Induction over a query tree with the hypothesis for every child. *)
Section TreeInd.
Context (P : QueryTree -> Prop).
Hypothesis HP : forall ty k id d l, Forall P l -> P (Tree ty k id d l).
Fixpoint QueryTree_forall_ind (t : QueryTree) : P t :=
  let '(Tree ty k id d l) := t in
  HP ty k id d l ((fix go l : Forall P l := match l with [] => @List.Forall_nil _ P | t :: l => @List.Forall_cons _ P t l (QueryTree_forall_ind t) (go l) end) l).
End TreeInd.

Fixpoint height (t : QueryTree) : nat :=
  let '(Tree _ _ _ _ l) := t in S (foldr (fun c n => Nat.max (height c) n) O l).

Lemma height_child c ty k id d l : c ∈ l -> (height c < height (Tree ty k id d l))%nat.
Proof.
  cbn. intros H. apply le_n_S. induction l as [|c' l IH]; [by apply elem_of_nil in H|]. cbn.
  apply elem_of_cons in H as [->|H]; [lia|]. specialize (IH H). lia.
Qed.

Definition is_not (t : QueryTree) : bool := bool_decide (type_ t = NOT).

(** ** The meaning of a query *)
Section Meaning.
(** The documents of a term in a property, the positions of a term in a document. *)
Context (postings : string -> Z -> list Z) (term_positions : string -> Z -> Z -> list Z).
Context (property unigramProperty : string).

Definition phrase_of (t : QueryTree) : option (phrase_kind * string) :=
  let '(Tree ty _ _ distance _) := t in
  match ty with
  | EXACT => Some (PExact, unigramProperty)
  | ORDER => Some (POrdered, property)
  | NEARBY => Some (PNearby distance, property)
  | _ => None
  end.

(** The documents a query asks for. *)
Fixpoint query_holds (t : QueryTree) (x : Z) : Prop :=
  let '(Tree ty _ id _ children) := t in
  match ty with
  | KEYWORD => x ∈ postings property id
  | AND => foldr (fun c P => (if is_not c then ~ query_holds c x else query_holds c x) /\ P) True children
  | OR => foldr (fun c P => query_holds c x \/ P) False children
  | NOT => match children with [c] => query_holds c x | _ => False end
  | EXACT | ORDER | NEARBY =>
      match phrase_of t with
      | Some (kind, p) =>
          let ids := map keywordId_ children in
          Forall (fun id => x ∈ postings p id) ids /\ test kind (offsets_at (term_positions p) ids x) = true
      | None => False
      end
  | _ => False
  end.

(** The same as a list, the way the iterators produce it. *)
Fixpoint query_docs (t : QueryTree) : list Z :=
  let '(Tree ty _ id _ children) := t in
  match ty with
  | KEYWORD => postings property id
  | AND =>
      let l := map (fun c => (is_not c, query_docs c)) children in
      let part b := map (fun p => Cursor true p.2) (filter (fun p => p.1 = b) l) in
      minus (inter_list (part false)) (union_list (part true))
  | OR => union_list (map (fun c => Cursor true (query_docs c)) children)
  | NOT => match children with [c] => query_docs c | _ => [] end
  | EXACT | ORDER | NEARBY =>
      match phrase_of t with
      | Some (kind, p) => phrase_docs (postings p) (term_positions p) kind (map keywordId_ children)
      | None => []
      end
  | _ => []
  end.

Definition phrase_ok (t : QueryTree) : Prop :=
  match phrase_of t with
  | Some (kind, p) =>
      let ids := map keywordId_ (children_ t) in
      ids <> [] /\ vsize ids < 2 ^ 31 /\
      forall x, Forall (fun id => x ∈ postings p id) ids -> test_ok kind (offsets_at (term_positions p) ids x)
  | None => False
  end.

(** Trees whose iterators may skip. *)
Fixpoint plain (t : QueryTree) : Prop :=
  let '(Tree ty _ _ _ children) := t in
  match ty with
  | KEYWORD => True
  | AND => 1 <= vsize children < 2 ^ 31 /\ foldr (fun c P => plain c /\ P) True children
  | OR => vsize children < 2 ^ 31 /\ foldr (fun c P => plain c /\ P) True children
  | EXACT | ORDER | NEARBY => phrase_ok t
  | _ => False
  end.

Definition excluded (c : QueryTree) : Prop := exists k id d c', c = Tree NOT k id d [c'] /\ plain c'.

(** Trees that are only read to their end. *)
Fixpoint searchable (t : QueryTree) : Prop :=
  plain t \/
  let '(Tree ty _ _ _ children) := t in
  match ty with
  | AND => vsize children < 2 ^ 31 /\ Forall (fun c => plain c \/ excluded c) children /\ Exists plain children
  | OR => vsize children < 2 ^ 31 /\ foldr (fun c P => searchable c /\ P) True children
  | _ => False
  end.

Lemma foldr_Forall {A} (P : A -> Prop) l : foldr (fun c Q => P c /\ Q) True l <-> Forall P l.
Proof. induction l as [|a l IH]; cbn; [by rewrite Forall_nil|]. by rewrite Forall_cons, IH. Qed.

Lemma foldr_Exists {A} (P : A -> Prop) l : foldr (fun c Q => P c \/ Q) False l <-> Exists P l.
Proof. induction l as [|a l IH]; cbn; [by rewrite Exists_nil|]. by rewrite Exists_cons, IH. Qed.

Lemma plain_not_NOT t : plain t -> is_not t = false.
Proof. destruct t as [[] k id d l]; cbn; try done. Qed.

Definition pos_of (l : list QueryTree) : list QueryTree := filter (fun c => is_not c = false) l.
Definition neg_of (l : list QueryTree) : list QueryTree := filter (fun c => is_not c = true) l.
Notation cur t := (Cursor true (query_docs t)).

Lemma part_map b l :
  map (fun p : bool * list Z => Cursor true p.2) (filter (fun p => p.1 = b) (map (fun c => (is_not c, query_docs c)) l)) =
  map (fun c => cur c) (filter (fun c => is_not c = b) l).
Proof.
  induction l as [|c l IH]; [done|]. cbn [map]. rewrite !filter_cons. cbn [fst]. destruct (decide (is_not c = b)); cbn; by rewrite IH.
Qed.

Lemma query_docs_AND k id d l :
  query_docs (Tree AND k id d l) = minus (inter_list (map (fun c => cur c) (pos_of l))) (union_list (map (fun c => cur c) (neg_of l))).
Proof. cbn [query_docs]. unfold pos_of, neg_of. by rewrite <- !part_map. Qed.

Lemma minus_nil p : minus p [] = p.
Proof. unfold minus. apply filter_all. by intros x _ ?%elem_of_nil. Qed.

Lemma plain_AND_docs k id d l : Forall plain l ->
  query_docs (Tree AND k id d l) = inter_list (map (fun c => cur c) l).
Proof.
  intros H. rewrite query_docs_AND. assert (pos_of l = l /\ neg_of l = []) as [-> ->]; [|by rewrite minus_nil].
  unfold pos_of, neg_of. induction H as [|c l Hc%plain_not_NOT _ [IH1 IH2]]; [done|].
  rewrite !filter_cons, Hc. cbn. by rewrite IH1, IH2.
Qed.

Lemma cursors_map (l : list QueryTree) c : c ∈ map (fun t => cur t) l <-> exists t, c = cur t /\ t ∈ l.
Proof. apply list_elem_of_fmap. Qed.

(** The list holds what the meaning says. *)
Lemma plain_docs t : plain t -> forall x, x ∈ query_docs t <-> query_holds t x.
Proof.
  induction t as [ty k id d l IH] using QueryTree_forall_ind. destruct ty; try done.
  - intros [Hsz Hl] x. apply foldr_Forall in Hl. rewrite plain_AND_docs by done.
    rewrite inter_list_elem by (destruct l; [unfold vsize in Hsz; cbn in Hsz; lia|done]).
    cbn [query_holds]. rewrite foldr_Forall, Forall_forall. rewrite Forall_forall in IH, Hl.
    setoid_rewrite cursors_map. split.
    + intros H c Hc. rewrite plain_not_NOT by auto. apply IH; [done|auto|]. apply (H (cur c)). eauto.
    + intros H c (c' & -> & Hc). cbn. apply IH; [done|auto|]. specialize (H c' Hc). by rewrite plain_not_NOT in H by auto.
  - intros [Hsz Hl] x. apply foldr_Forall in Hl. cbn [query_docs query_holds]. rewrite union_list_elem, foldr_Exists, Exists_exists.
    rewrite Forall_forall in IH, Hl. setoid_rewrite cursors_map. split.
    + intros (c & (c' & -> & Hc) & Hx). exists c'. split; [done|]. by apply IH; auto.
    + intros (c & Hc & Hx). exists (cur c). split; [eauto|]. cbn. by apply IH; auto.
  - intros (Hne & _) x. by apply phrase_docs_elem.
  - intros (Hne & _) x. by apply phrase_docs_elem.
  - intros (Hne & _) x. by apply phrase_docs_elem.
Qed.

Lemma and_not_docs k id d l x : Forall (fun c => plain c \/ excluded c) l -> Exists plain l ->
  x ∈ query_docs (Tree AND k id d l) <-> query_holds (Tree AND k id d l) x.
Proof.
  intros Hl Hex. rewrite query_docs_AND, minus_elem, union_list_elem.
  rewrite inter_list_elem.
  2: { apply Exists_exists in Hex as (c & Hc & Hp). intros E.
       assert (c ∈ pos_of l) as Hin by (apply list_elem_of_filter; split; [by apply plain_not_NOT|done]).
       destruct (pos_of l); [by apply elem_of_nil in Hin|done]. }
  cbn [query_holds]. rewrite foldr_Forall, Forall_forall. rewrite Forall_forall in Hl. setoid_rewrite cursors_map.
  unfold pos_of, neg_of. setoid_rewrite list_elem_of_filter.
  assert (forall c, c ∈ l -> x ∈ query_docs c <-> query_holds c x) as Hc.
  { intros c Hc. destruct (Hl c Hc) as [Hp|(k' & id' & d' & c' & -> & Hp)]; [exact (plain_docs c Hp x)|exact (plain_docs c' Hp x)]. }
  split.
  - intros [H1 H2] c Hin. destruct (is_not c) eqn:E.
    + intros Hx. apply H2. exists (cur c). split; [eauto|]. cbn. by apply Hc.
    + apply Hc; [done|]. apply (H1 (cur c)). eauto.
  - intros H. split.
    + intros c (c' & -> & E & Hin). cbn. apply Hc; [done|]. specialize (H c' Hin). by rewrite E in H.
    + intros (c & (c' & -> & E & Hin) & Hx). specialize (H c' Hin). rewrite E in H. apply H, Hc; done.
Qed.

Lemma searchable_docs t : searchable t -> forall x, x ∈ query_docs t <-> query_holds t x.
Proof.
  induction t as [ty k id d l IH] using QueryTree_forall_ind. intros [Hp|H] x; [by apply plain_docs|].
  destruct ty; try done.
  - destruct H as (_ & Hl & Hex). by apply and_not_docs.
  - destruct H as [_ Hl]. apply foldr_Forall in Hl. cbn [query_docs query_holds]. rewrite union_list_elem, foldr_Exists, Exists_exists.
    rewrite Forall_forall in IH, Hl. setoid_rewrite cursors_map. split.
    + intros (c & (c' & -> & Hc) & Hx). exists c'. split; [done|]. by apply IH; auto.
    + intros (c & Hc & Hx). exists (cur c). split; [eauto|]. cbn. by apply IH; auto.
Qed.
End Meaning.

(** ** The builder *)
Section Build.
Context {D Q X B C : Type} `{!DocIterator D, !DocNextSpec D, !SkipLaw D before, !TermPositions D, !TermPositionsSpec D, !PQueue Q nat, !PQueueSpec Q nat}.
Context `{!RangeIndex X B, !QueryIndex D X B, !Cache C FilteringType B}.
Context (junk : Z) (junkf : spec_float).
Context (postings : string -> Z -> list Z) (term_positions : string -> Z -> Z -> list Z) (reader : string -> Z -> option D).
Context (property : string) (dataType : PropertyDataType) (readPositions hasUnigramProperty isUnigramSearchMode : bool) (termIndexMap : gmap Z Z).
Notation qi := (qiter D Q).
Notation readers := (gmap Z (list D)).
Notation docs := (query_docs postings term_positions property (unigramProperty property hasUnigramProperty)).
Notation cur t := (Cursor true (docs t)).
Notation prepare := (do_prepare_for_property_ (Q := Q) (X := X) (B := B) junk junkf property dataType false readPositions hasUnigramProperty isUnigramSearchMode termIndexMap).
Notation rep n := (q_rep (D := D) (Q := Q) (Some reader) n).
Notation top n := (q_top (D := D) (Q := Q) (Some reader) n).

(** What the index and the prefetched readers answer. *)
Definition index_ok : Prop :=
  qi_termReader = true /\
  forall id, qi_seek property id = Ret None /\ postings property id = [] \/
    exists df d, qi_seek property id = Ret (Some df) /\ qi_open property id readPositions = Ret (Some d) /\
      di_rep d (Cursor true (postings property id)).

Definition readers_ok (m : readers) : Prop :=
  forall id l d, m !! id = Some l -> d ∈ l -> di_rep d (Cursor true (postings property id)).

Hypothesis Hindex : index_ok.
Hypothesis Hwf : forall p id, cursor_wf (Cursor true (postings p id)).
Hypothesis Hphrase : forall p, seek_ok reader p (postings p) (term_positions p).
Hypothesis Hjunk : 0 <= junk < MAX_DOC_ID.

Lemma pop_reader_spec id m d m' : readers_ok m -> pop_reader id m = Some (d, m') ->
  di_rep d (Cursor true (postings property id)) /\ readers_ok m'.
Proof.
  intros Hm. unfold pop_reader. destruct (m !! id) as [l|] eqn:E; [|done]. destruct (last l) as [x|] eqn:El; [|done].
  intros [= -> <-]. apply last_Some in El as [l' ->]. split; [apply (Hm id _ _ E); set_solver|].
  intros id' l2 d' H Hin. destruct (decide (id' = id)) as [->|Hne].
  - rewrite lookup_insert_eq in H. injection H as <-. apply (Hm id _ _ E). rewrite removelast_last in Hin. set_solver.
  - rewrite lookup_insert_ne in H by done. by apply (Hm id' l2).
Qed.

(** A result: the iterator was attached and represents the documents of [t], or
    nothing was and there are none. *)
Definition built (R : nat -> qi -> cursor -> Prop) (t : QueryTree) (slot : option qi) (r : answer * option qi * readers) : Prop :=
  let '(a, slot', m) := r in
  readers_ok m /\
  (a = Yes /\ (exists it, slot' = attach false slot it /\ forall n, (height t <= n)%nat -> R n it (cur t)) \/
   a = No /\ slot' = slot /\ docs t = []).

Lemma keyword_built k id d l flag slot m : readers_ok m ->
  exists r, prepare (Tree KEYWORD k id d l) flag slot m = Ret r /\ built (fun n => rep n) (Tree KEYWORD k id d l) slot r.
Proof.
  intros Hm. cbn [do_prepare_for_property_]. unfold prepare_keyword.
  destruct (pop_reader id m) as [[x m']|] eqn:Ep.
  - destruct (pop_reader_spec _ _ _ _ Hm Ep) as [Hx Hm']. eexists. split; [done|]. split; [done|]. left. split; [done|].
    unfold term_iterator. rewrite andb_false_r. eexists. split; [done|]. intros [|n] Hn; [cbn in Hn; lia|]. exists x. by split.
  - unfold accept. cbn [andb negb]. destruct Hindex as [-> Hi]. cbn [negb]. destruct (Hi id) as [[-> E]|(df & x & -> & -> & Hx)]; rsimpl.
    + eexists. split; [done|]. split; [done|]. right. done.
    + eexists. split; [done|]. split; [done|]. left. split; [done|].
      unfold term_iterator. rewrite andb_false_r. eexists. split; [done|]. intros [|n] Hn; [cbn in Hn; lia|]. exists x. by split.
Qed.

Lemma phrase_built t flag slot m : phrase_ok postings term_positions property (unigramProperty property hasUnigramProperty) t -> readers_ok m ->
  exists r, prepare t flag slot m = Ret r /\ built (fun n => rep n) t slot r.
Proof.
  intros Hok Hm. destruct t as [ty k id d l].
  assert (forall kind p, phrase_of property (unigramProperty property hasUnigramProperty) (Tree ty k id d l) = Some (kind, p) ->
    docs (Tree ty k id d l) = phrase_docs (postings p) (term_positions p) kind (map keywordId_ l) ->
    built (fun n => rep n) (Tree ty k id d l) slot (Yes, attach false slot (QPhrase (PhraseDocumentIterator kind (map keywordId_ l) p junk)), m)) as H.
  { intros kind p E Ed. unfold phrase_ok in Hok. rewrite E in Hok. destruct Hok as (_ & Hsz & Ht). split; [done|]. left. split; [done|].
    eexists. split; [done|]. intros [|n] Hn; [cbn in Hn; lia|]. rewrite Ed. by apply phrase_fresh_rep. }
  destruct ty; try done; eexists; (split; [reflexivity|]); by apply H.
Qed.

(** *** The children of AND *)
Notation ops_add ops parent := (foldl (fun p (o : bool * qi) => q_add o.1 o.2 p) parent ops).
Definition pos_ops (ops : list (bool * qi)) : list qi := map snd (filter (fun o => o.1 = false) ops).
Definition neg_ops (ops : list (bool * qi)) : list qi := map snd (filter (fun o => o.1 = true) ops).

Section Children.
Context (R : nat -> qi -> cursor -> Prop) (prep : QueryTree -> option qi -> readers -> res (answer * option qi * readers)).
Notation represents := (fun it c => forall n, (height c <= n)%nat -> R n it (cur c)).

Definition builds (c : QueryTree) : Prop := forall slot m, readers_ok m -> exists r, prep c slot m = Ret r /\ built R c slot r.

(** A NOT child: what it excludes, if anything. *)
Definition builds_not (c : QueryTree) : Prop := forall parent m, readers_ok m ->
  exists o m', prep c (Some parent) m = Ret (Yes, Some (match o with Some it => q_add true it parent | None => parent end), m') /\ readers_ok m' /\
    match o with Some it => represents it c | None => docs c = [] end.

Definition and_children_result (l : list QueryTree) (parent : qi) (r : answer * option qi * readers) : Prop :=
  let '(a, slot, m) := r in
  readers_ok m /\
  (a = Yes /\ (exists ops kept, slot = Some (ops_add ops parent) /\ Forall2 represents (pos_ops ops) (pos_of l) /\
      Forall2 represents (neg_ops ops) kept /\ (length kept <= length l)%nat /\ kept ⊆ neg_of l /\
      forall x, (exists c, c ∈ kept /\ x ∈ docs c) <-> (exists c, c ∈ neg_of l /\ x ∈ docs c)) \/
   a = No /\ exists c, c ∈ l /\ is_not c = false /\ docs c = []).

Lemma pos_of_cons c l : pos_of (c :: l) = if is_not c then pos_of l else c :: pos_of l.
Proof. unfold pos_of. rewrite filter_cons. by destruct (is_not c). Qed.
Lemma neg_of_cons c l : neg_of (c :: l) = if is_not c then c :: neg_of l else neg_of l.
Proof. unfold neg_of. rewrite filter_cons. by destruct (is_not c). Qed.
Lemma pos_ops_cons b it ops : pos_ops ((b, it) :: ops) = if b then pos_ops ops else it :: pos_ops ops.
Proof. by destruct b. Qed.
Lemma neg_ops_cons b it ops : neg_ops ((b, it) :: ops) = if b then it :: neg_ops ops else neg_ops ops.
Proof. by destruct b. Qed.

Lemma all_children_spec l parent m : Forall (fun c => is_not c = false /\ builds c \/ is_not c = true /\ builds_not c) l -> readers_ok m ->
  exists r, all_children prep l (Some parent) m = Ret r /\ and_children_result l parent r.
Proof.
  intros H. revert parent m. induction H as [|c l Hc _ IH]; intros parent m Hm.
  { eexists. split; [done|]. split; [done|]. left. split; [done|]. exists [], []. split_and!; done. }
  cbn [all_children]. destruct Hc as [[En Hc]|[En Hc]].
  - destruct (Hc (Some parent) m Hm) as ([[a slot'] m'] & -> & Hm' & [(-> & it & -> & Hit)|(-> & -> & Ed)]); cbn [res_bind].
    + destruct (IH (q_add false it parent) m' Hm') as ([[a slot2] m2] & E & Hm2 & HR). unfold attach. rewrite E. eexists. split; [done|].
      split; [done|]. destruct HR as [(-> & ops & kept & -> & Hp & Hk & Hlen & Hsub & Hx)|(-> & c' & Hin & Hc')].
      * left. split; [done|]. exists ((false, it) :: ops), kept. rewrite pos_ops_cons, neg_ops_cons, pos_of_cons, neg_of_cons, En.
        split_and!; [done|by constructor|done|cbn; lia|done|done].
      * right. split; [done|]. exists c'. split; [by right|done].
    + eexists. split; [done|]. split; [done|]. right. split; [done|]. exists c. split; [by left|done].
  - destruct (Hc parent m Hm) as (o & m' & -> & Hm' & Ho); cbn [res_bind].
    destruct (IH (match o with Some it => q_add true it parent | None => parent end) m' Hm') as ([[a slot2] m2] & E & Hm2 & HR). rewrite E.
    eexists. split; [done|]. split; [done|]. destruct HR as [(-> & ops & kept & -> & Hp & Hk & Hlen & Hsub & Hx)|(-> & c' & Hin & Hc')].
    + left. split; [done|]. destruct o as [it|].
      * exists ((true, it) :: ops), (c :: kept). rewrite pos_ops_cons, neg_ops_cons, pos_of_cons, neg_of_cons, En.
        split_and!; [done|done|by constructor|cbn; lia|set_solver|]. intros x. setoid_rewrite elem_of_cons. specialize (Hx x). naive_solver.
      * exists ops, kept. rewrite pos_of_cons, neg_of_cons, En. split_and!; [done..|cbn; lia|set_solver|].
        intros x. setoid_rewrite elem_of_cons. rewrite Hx. split; [naive_solver|].
        intros (c' & [->|Hc'] & Hx'); [rewrite Ho in Hx'; by apply elem_of_nil in Hx'|eauto].
    + right. split; [done|]. exists c'. split; [by right|done].
Qed.

(** *** The children of OR *)
Definition or_children_result (l : list QueryTree) (ret : answer) (parent : qi) (r : answer * option qi * readers) : Prop :=
  let '(a, slot, m) := r in
  readers_ok m /\ exists its kept, slot = Some (foldl (fun p it => q_add false it p) parent its) /\ a = (if is_nil its then ret else Yes) /\
    Forall2 represents its kept /\ (length kept <= length l)%nat /\ kept ⊆ l /\
    forall x, (exists c, c ∈ kept /\ x ∈ docs c) <-> (exists c, c ∈ l /\ x ∈ docs c).

Lemma any_child_spec l ret parent m : ret <> Raised -> Forall builds l -> readers_ok m ->
  exists r, any_child prep ret l (Some parent) m = Ret r /\ or_children_result l ret parent r.
Proof.
  intros Hret H. revert ret Hret parent m. induction H as [|c l Hc _ IH]; intros ret Hret parent m Hm.
  { eexists. split; [done|]. split; [done|]. exists [], []. by split_and!. }
  cbn [any_child]. destruct (Hc (Some parent) m Hm) as ([[a slot'] m'] & -> & Hm' & [(-> & it & -> & Hit)|(-> & -> & Ed)]); cbn [res_bind].
  - destruct (IH Yes ltac:(done) (q_add false it parent) m' Hm') as ([[a slot2] m2] & E & Hm2 & its & kept & -> & -> & Hk & Hlen & Hsub & Hx).
    unfold attach. cbn [yes_or]. rewrite E. eexists. split; [done|]. split; [done|]. exists (it :: its), (c :: kept). cbn [is_nil].
    split_and!; [done|by destruct its|by constructor|cbn; lia|set_solver|].
    intros x. setoid_rewrite elem_of_cons. specialize (Hx x). naive_solver.
  - destruct (IH ret Hret parent m' Hm') as ([[a slot2] m2] & E & Hm2 & its & kept & -> & -> & Hk & Hlen & Hsub & Hx).
    cbn [yes_or]. rewrite E. eexists. split; [done|]. split; [done|]. exists its, kept.
    split_and!; [done..|cbn; lia|set_solver|]. intros x. setoid_rewrite elem_of_cons. rewrite Hx. split; [naive_solver|].
    intros (c' & [->|Hc'] & Hx'); [rewrite Ed in Hx'; by apply elem_of_nil in Hx'|eauto].
Qed.
End Children.

(** *** AND and OR *)
Lemma pos_then_neg ops (it : and_iter qi (or_core qi Q)) r :
  ops_add ops (QAnd r it) =
  QAnd r (foldl (fun it s => and_add true s it) (foldl (fun it s => and_add false s it) it (pos_ops ops)) (neg_ops ops)).
Proof.
  revert it. induction ops as [|[b s] ops IH]; intros it; [done|]. cbn [foldl fst snd q_add]. rewrite IH, pos_ops_cons, neg_ops_cons.
  destruct b; cbn [foldl]; [|done]. f_equal. f_equal. clear. revert it. induction (pos_ops ops) as [|x l IH]; intros it; [done|].
  exact (IH (and_add false x it)).
Qed.

Lemma pos_added its (it : or_iter qi Q (or_core qi Q)) r :
  foldl (fun p it => q_add false it p) (QOr r it) its = QOr r (foldl (fun it s => or_add false s it) it its).
Proof. revert it. induction its as [|s its IH]; intros it; [done|]. cbn. by rewrite IH. Qed.

Lemma represents_at (R : nat -> qi -> cursor -> Prop) its l n :
  Forall2 (fun it c => forall n, (height c <= n)%nat -> R n it (cur c)) its l -> (forall c, c ∈ l -> (height c <= n)%nat) ->
  Forall2 (R n) its (map (fun c => cur c) l).
Proof.
  intros H Hn. apply Forall2_fmap_r. induction H as [|it c its l Hc _ IH]; constructor; [apply Hc, Hn; by left|].
  apply IH. intros c' Hc'. apply Hn. by right.
Qed.

Lemma map_fresh l : Forall (fun c => cu_fresh c = true) (map (fun c => cur c) l).
Proof. apply Forall_map. by apply Forall_true. Qed.

Lemma union_list_same kept l : (forall x, (exists c, c ∈ kept /\ x ∈ docs c) <-> (exists c, c ∈ l /\ x ∈ docs c)) ->
  union_list (map (fun c => cur c) kept) = union_list (map (fun c => cur c) l).
Proof.
  intros H. apply ssorted_ext; [apply ssort_sorted..|]. intros x. rewrite !union_list_elem. setoid_rewrite cursors_map.
  specialize (H x). clear Hindex Hwf Hphrase Hjunk. split; intros (k & (c & -> & Hc) & Hx).
  - destruct (proj1 H) as (c' & Hc' & Hx'); [eauto|]. exists (cur c'). eauto.
  - destruct (proj2 H) as (c' & Hc' & Hx'); [eauto|]. exists (cur c'). eauto.
Qed.

Lemma Forall2_vsize {A A'} (P : A -> A' -> Prop) l k : Forall2 P l k -> vsize l = vsize k.
Proof. intros H. unfold vsize. by rewrite (Forall2_length _ _ _ H). Qed.

Lemma pos_of_sub l c : c ∈ pos_of l -> c ∈ l.
Proof. unfold pos_of. rewrite list_elem_of_filter. tauto. Qed.

Lemma pos_of_vsize l : vsize (pos_of l) <= vsize l.
Proof. unfold pos_of, vsize. pose proof (length_filter (fun c => is_not c = false) l). lia. Qed.

(** An AND iterator without NOT children. *)
Lemma and_rep_built ops l n r : Forall2 (rep n) (pos_ops ops) (map (fun c => cur c) l) -> neg_ops ops = [] -> 1 <= vsize l < 2 ^ 31 ->
  rep (S n) (ops_add ops (QAnd r (ANDDocumentIterator junk))) (Cursor true (inter_list (map (fun c => cur c) l))).
Proof.
  intros H Hneg Hsz. rewrite pos_then_neg, Hneg. cbn [foldl].
  pose proof (and_build_pos (Q := Q) junk (pos_ops ops)) as E. unfold and_build in E. cbn [foldl] in E. rewrite E.
  split; [done|]. cbn [ai_core]. apply and_rep_children; [exact H|apply map_fresh|].
  rewrite (Forall2_vsize _ _ _ H). unfold vsize. by rewrite length_map.
Qed.

(** An OR iterator, for either contract. *)
Lemma or_children_rep (I : DocIterator qi) (S : @DocNextSpec qi I) its (l kept : list QueryTree) r :
  Forall2 (di_rep (DocNextSpec := S)) its (map (fun c => cur c) kept) -> vsize kept < 2 ^ 31 ->
  (forall x, (exists c, c ∈ kept /\ x ∈ docs c) <-> (exists c, c ∈ l /\ x ∈ docs c)) ->
  exists o, foldl (fun p it => q_add false it p) (QOr r (ORDocumentIterator junk)) its = QOr r o /\
    hasNot_ o = false /\ or_rep (DocNextSpec0 := S) (oi_core o) (Cursor true (union_list (map (fun c => cur c) l))).
Proof.
  intros H Hsz Hx. rewrite pos_added. pose proof (or_build_pos (Q := Q) junk its) as E. unfold or_build in E. cbn [foldl] in E. rewrite E.
  eexists. split; [done|]. split; [done|]. cbn [oi_core]. rewrite <- (union_list_same _ _ Hx).
  apply (or_rep_children (DocNextSpec0 := S)); [exact H|apply map_fresh|].
  rewrite (Forall2_vsize _ _ _ H). unfold vsize. by rewrite length_map.
Qed.

Notation plain := (plain postings term_positions property (unigramProperty property hasUnigramProperty)).
Notation excluded := (excluded postings term_positions property (unigramProperty property hasUnigramProperty)).
Notation searchable := (searchable postings term_positions property (unigramProperty property hasUnigramProperty)).
Notation builds_rep c := (builds (fun n => rep n) (fun c => prepare c 1) c).

Lemma no_docs_union l : (forall c, c ∈ l -> docs c = []) -> union_list (map (fun c => cur c) l) = [].
Proof.
  intros H. destruct (union_list _) as [|x p] eqn:E; [done|]. exfalso.
  assert (x ∈ union_list (map (fun c => cur c) l)) as Hx by (rewrite E; by left).
  apply union_list_elem in Hx as (k & (c & -> & Hc)%list_elem_of_fmap & Hx). cbn in Hx. rewrite (H c Hc) in Hx. by apply elem_of_nil in Hx.
Qed.

Lemma no_docs_inter l c : c ∈ l -> docs c = [] -> inter_list (map (fun c => cur c) l) = [].
Proof.
  intros Hc E. destruct (inter_list _) as [|x p] eqn:Ei; [done|]. exfalso.
  assert (x ∈ inter_list (map (fun c => cur c) l)) as Hx by (rewrite Ei; by left).
  rewrite inter_list_elem in Hx; [|by destruct l; [apply elem_of_nil in Hc|]].
  specialize (Hx (cur c)). rewrite cursors_map in Hx. cbn in Hx. rewrite E in Hx. apply elem_of_nil in Hx; [done|]. exists c. by rewrite E.
Qed.

Lemma plain_AND k id d l slot m flag : Forall plain l -> Forall (fun c => builds_rep c) l -> 1 <= vsize l < 2 ^ 31 -> readers_ok m ->
  exists r, prepare (Tree AND k id d l) flag slot m = Ret r /\ built (fun n => rep n) (Tree AND k id d l) slot r.
Proof.
  intros Hp Hb Hsz Hm. cbn [do_prepare_for_property_].
  assert (Forall (fun c => is_not c = false) l) as Hnot.
  { eapply Forall_impl; [exact Hp|]. intros c. apply plain_not_NOT. }
  assert (pos_of l = l /\ neg_of l = []) as [Epos Eneg].
  { clear -Hnot. induction Hnot as [|c l Hc _ [IH1 IH2]]; [done|]. by rewrite pos_of_cons, neg_of_cons, Hc, IH1, IH2. }
  destruct (all_children_spec (fun n => rep n) (fun c => prepare c 1) l (QAnd (f32_of (vsize l)) (ANDDocumentIterator junk)) m)
    as ([[a slot'] m'] & E & Hm' & HR); [|done|].
  { rewrite Forall_forall in Hnot, Hb |- *. intros c Hc. left. split; [by apply Hnot|by apply Hb]. }
  rewrite E. cbn [res_bind]. eexists. split; [done|]. destruct HR as [(-> & ops & kept & -> & Hpos & Hneg & _ & Hsub & _)|(-> & c & Hc & _ & Ed)].
  - cbn [finish]. split; [done|]. left. split; [done|]. eexists. split; [done|]. intros n Hn.
    rewrite (plain_AND_docs _ _ _ _ _ _ _ _ Hp). rewrite Epos in Hpos.
    rewrite Eneg in Hsub. apply list_nil_subseteq in Hsub as ->. apply Forall2_nil_inv_r in Hneg.
    destruct n as [|n]; [cbn in Hn; lia|]. apply and_rep_built; [|done|done].
    apply (represents_at (fun n => rep n)); [exact Hpos|]. intros c Hc. pose proof (height_child c AND k id d l Hc). lia.
  - cbn [finish]. split; [done|]. right. split; [done|]. split; [done|].
    rewrite (plain_AND_docs _ _ _ _ _ _ _ _ Hp). by eapply no_docs_inter.
Qed.

Lemma tree_OR (R : nat -> qi -> cursor -> Prop) k id d l slot m flag :
  (forall n its kept r, Forall2 (R n) its (map (fun c => cur c) kept) -> vsize kept < 2 ^ 31 ->
     (forall x, (exists c, c ∈ kept /\ x ∈ docs c) <-> (exists c, c ∈ l /\ x ∈ docs c)) ->
     R (S n) (foldl (fun p it => q_add false it p) (QOr r (ORDocumentIterator junk)) its) (cur (Tree OR k id d l))) ->
  Forall (fun c => builds R (fun c => prepare c 1) c) l -> vsize l < 2 ^ 31 -> readers_ok m ->
  exists r, prepare (Tree OR k id d l) flag slot m = Ret r /\ built R (Tree OR k id d l) slot r.
Proof.
  intros HR Hb Hsz Hm. cbn [do_prepare_for_property_].
  destruct (any_child_spec R (fun c => prepare c 1) l No (QOr (f32_of (vsize l)) (ORDocumentIterator junk)) m)
    as ([[a slot'] m'] & E & Hm' & its & kept & -> & -> & Hk & Hlen & Hsub & Hx); [done..|].
  rewrite E. cbn [res_bind]. eexists. split; [done|]. destruct its as [|it its]; cbn [is_nil finish].
  - split; [done|]. right. split; [done|]. split; [done|]. cbn [query_docs]. apply no_docs_union. intros c Hc.
    apply Forall2_nil_inv_l in Hk as ->. destruct (docs c) as [|x p] eqn:Ed; [done|]. exfalso.
    destruct (proj2 (Hx x)) as (c' & Hc' & _); [exists c; rewrite Ed; split; [done|by left]|]. by apply elem_of_nil in Hc'.
  - split; [done|]. left. split; [done|]. eexists. split; [done|]. intros [|n] Hn; [cbn in Hn; lia|].
    apply (HR n (it :: its) kept); [|unfold vsize in *; lia|exact Hx].
    apply represents_at; [exact Hk|]. intros c Hc%Hsub. pose proof (height_child c OR k id d l Hc). lia.
Qed.

Lemma plain_builds t : plain t -> forall flag, builds (fun n => rep n) (fun c => prepare c flag) t.
Proof.
  induction t as [ty k id d l IH] using QueryTree_forall_ind. intros Hp flag slot m Hm. destruct ty; try done.
  - by apply keyword_built.
  - destruct Hp as [Hsz Hl]. apply foldr_Forall in Hl. apply plain_AND; [done| |done|done].
    rewrite Forall_forall in IH, Hl |- *. intros c Hc. by apply IH; [|apply Hl].
  - destruct Hp as [Hsz Hl]. apply foldr_Forall in Hl. apply tree_OR; [| |done|done].
    + intros n its kept r H Hk Hx. destruct (or_children_rep _ (projT1 (q_spec (Some reader) n)) its l kept r H Hk Hx) as (o & -> & Hn & Ho).
      split; [exact Hn|exact Ho].
    + rewrite Forall_forall in IH, Hl |- *. intros c Hc. by apply IH; [|apply Hl].
  - by apply phrase_built.
  - by apply phrase_built.
  - by apply phrase_built.
Qed.

Lemma excluded_builds c : excluded c -> builds_not (fun n => rep n) (fun c => prepare c 1) c.
Proof.
  intros (k & id & d & c' & -> & Hp) parent m Hm. cbn [do_prepare_for_property_].
  pose proof (plain_not_NOT _ _ _ _ _ Hp) as Hn. unfold is_not in Hn. apply bool_decide_eq_false in Hn.
  destruct (plain_builds c' Hp 1 None m Hm) as ([[a slot'] m'] & E & Hm' & HR).
  assert (forall n, (height (Tree NOT k id d [c']) <= n)%nat -> (height c' <= n)%nat) as Hh.
  { intros n. pose proof (height_child c' NOT k id d [c'] ltac:(by left)). lia. }
  destruct (type_ c'); try done; rewrite E; cbn [res_bind]; destruct HR as [(-> & it & -> & Hit)|(-> & -> & Ed)].
  all: first [exists (Some it), m'; split_and!; [done|done|intros n Hn'; apply Hit; by apply Hh]|exists None, m'; done].
Qed.

Lemma minus_same p a b : (forall x, x ∈ a <-> x ∈ b) -> minus p a = minus p b.
Proof. intros H. unfold minus. apply list_filter_iff. intros x. by rewrite H. Qed.

Lemma search_AND k id d l slot m flag : Forall (fun c => plain c \/ excluded c) l -> Exists plain l -> vsize l < 2 ^ 31 -> readers_ok m ->
  exists r, prepare (Tree AND k id d l) flag slot m = Ret r /\ built (fun n => top n) (Tree AND k id d l) slot r.
Proof.
  intros Hl Hex Hsz Hm. cbn [do_prepare_for_property_].
  assert (1 <= vsize (pos_of l)) as H1.
  { apply Exists_exists in Hex as (c & Hc & Hp).
    assert (c ∈ pos_of l) as Hin by (apply list_elem_of_filter; split; [by eapply plain_not_NOT|done]).
    destruct (pos_of l) as [|y t]; [by apply elem_of_nil in Hin|]. rewrite vsize_cons. pose proof (vsize_nonneg t). lia. }
  pose proof (pos_of_vsize l) as H2.
  destruct (all_children_spec (fun n => rep n) (fun c => prepare c 1) l (QAnd (f32_of (vsize l)) (ANDDocumentIterator junk)) m)
    as ([[a slot'] m'] & E & Hm' & HR); [|done|].
  { eapply Forall_impl; [exact Hl|]. intros c [Hp|He].
    - left. split; [by eapply plain_not_NOT|by apply plain_builds].
    - right. split; [|by apply excluded_builds]. by destruct He as (? & ? & ? & ? & -> & _). }
  rewrite E. cbn [res_bind]. eexists. split; [done|]. destruct HR as [(-> & ops & kept & -> & Hpos & Hneg & Hlen & Hsub & Hx)|(-> & c & Hc & Hnc & Ed)].
  - cbn [finish]. split; [done|]. left. split; [done|]. eexists. split; [done|]. intros [|n] Hn; [cbn in Hn; lia|].
    assert (forall c, c ∈ l -> (height c <= n)%nat) as Hh.
    { intros c Hc. pose proof (height_child c AND k id d l Hc). lia. }
    apply (represents_at (fun n => rep n) _ _ n) in Hpos; [|intros c Hc; by apply Hh, pos_of_sub].
    apply (represents_at (fun n => rep n) _ _ n) in Hneg; [|intros c Hc; apply Hh; apply Hsub in Hc; by apply list_elem_of_filter in Hc as [_ ?]].
    rewrite query_docs_AND. rewrite <- (minus_same _ (union_list (map (fun c => cur c) kept))).
    2: { intros x. by rewrite (union_list_same _ _ Hx). }
    destruct (neg_ops ops) as [|ng ngs] eqn:Eneg.
    + apply Forall2_nil_inv_l in Hneg. rewrite Hneg. left. cbn [union_list]. rewrite minus_nil.
      apply and_rep_built; [done|done|lia].
    + right. rewrite pos_then_neg, Eneg.
      pose proof (and_build_neg (Q := Q) junk (pos_ops ops) (ng :: ngs) ltac:(done)) as Eb. unfold and_build in Eb. rewrite Eb.
      right. eexists _, (Cursor true (inter_list (map (fun c => cur c) (pos_of l)))), (Cursor true (union_list (map (fun c => cur c) kept))).
      cbn [ai_hasNot_ ai_pNOTDocIterator_ ai_core and_currDoc_ cu_fresh cu_pend ai_initNOTIterator_ negb].
      split_and!; try done; try lia.
      * apply and_rep_children; [exact Hpos|apply map_fresh|]. rewrite (Forall2_vsize _ _ _ Hpos). unfold vsize in *. rewrite length_map. lia.
      * apply (or_rep_children (DocNextSpec0 := projT1 (q_spec (Some reader) n))); [exact Hneg|apply map_fresh|].
        rewrite (Forall2_vsize _ _ _ Hneg). unfold vsize in *. rewrite length_map. lia.
  - cbn [finish]. split; [done|]. right. split; [done|]. split; [done|]. rewrite query_docs_AND.
    erewrite no_docs_inter; [done| |exact Ed]. by apply list_elem_of_filter.
Qed.

Lemma searchable_builds t : searchable t -> forall flag, builds (fun n => top n) (fun c => prepare c flag) t.
Proof.
  induction t as [ty k id d l IH] using QueryTree_forall_ind. intros [Hp|H] flag slot m Hm.
  { destruct (plain_builds _ Hp flag slot m Hm) as ([[a slot'] m'] & E & Hm' & HR). eexists. split; [exact E|]. split; [done|].
    destruct HR as [(-> & it & -> & Hit)|?]; [|by right]. left. split; [done|]. exists it. split; [done|].
    intros n Hn. by apply q_rep_top, Hit. }
  destruct ty; try done.
  - destruct H as (Hsz & Hl & Hex). by apply search_AND.
  - destruct H as [Hsz Hl]. apply foldr_Forall in Hl. apply tree_OR; [| |done|done].
    + intros n its kept r H Hk Hx. destruct (or_children_rep _ (q_top_spec (Some reader) n) its l kept r H Hk Hx) as (o & -> & Hn & Ho).
      right. split; [exact Hn|exact Ho].
    + rewrite Forall_forall in IH, Hl |- *. intros c Hc. by apply IH; [|apply Hl].
Qed.

(** C11: the iterators that the query builder makes of a [searchable] query over
    one property, read to their end, return in order exactly the documents the query
    asks for; where it makes none no document matches. Readers that were prefetched
    and readers that [accept] opens serve alike. Searchable are plain trees (terms,
    phrases with their bounds, AND and OR of plain trees), an AND of plain trees, at
    least one, and of NOTs of plain trees, and an OR of searchable trees: NOT at the
    top, directly below OR, or above another NOT is not covered. *)
Theorem query_documents t m : searchable t -> readers_ok m ->
  exists a o m', prepare t 0 None m = Ret (a, o, m') /\
    match o with
    | Some it => forall n, (height t <= n)%nat -> exists ds, drain (DocIterator0 := q_ops (Some reader) n) it = Ret ds /\ ssorted ds /\
        forall x, x ∈ ds <-> query_holds postings term_positions property (unigramProperty property hasUnigramProperty) t x
    | None => forall x, ~ query_holds postings term_positions property (unigramProperty property hasUnigramProperty) t x
    end.
Proof.
  intros Ht Hm. destruct (searchable_builds t Ht 0 None m Hm) as ([[a o] m'] & E & _ & HR). exists a, o, m'. split; [exact E|].
  destruct HR as [(-> & it & -> & Hit)|(-> & -> & Ed)].
  - intros n Hn. specialize (Hit n Hn). exists (docs t). split_and!.
    + exact (q_drain (Some reader) n it _ Hit).
    + by destruct (di_rep_wf (DocNextSpec := q_top_spec (Some reader) n) it _ Hit).
    + by apply searchable_docs.
  - intros x. rewrite <- searchable_docs, Ed by done. apply not_elem_of_nil.
Qed.
End Build.

(** ** A concrete index *)
#[export] Instance positions_DocNextSpec {D} `{!DocIterator D, !TermPositions D, !TermPositionsSpec D} : DocNextSpec D.
Proof.
  refine {| di_rep (d : D) c := exists P l, pos_rep P d c l |}.
  - intros d c (P & l & H). by eapply pos_rep_wf.
  - intros d c (P & l & H). destruct (pos_next_spec _ _ _ _ H) as (d' & E & H'). eauto.
  - intros d x p (P & l & H). by eapply pos_doc_spec.
Defined.

#[export] Instance positions_SkipLaw {D} `{!DocIterator D, !TermPositions D, !TermPositionsSpec D} : SkipLaw D before.
Proof. intros d c t (P & l & H) Ht Hb. destruct (pos_skipTo_spec _ _ _ _ _ H Ht Hb) as (d' & E & H'). exists d'. split; [exact E|]. by eexists _, _. Qed.

#[export] Instance ex_QueryIndex : QueryIndex pos_cursor string bits := {
  qi_termReader := true;
  qi_seek _ id := Ret (if (id =? 1) || (id =? 2) then Some (vsize (ex_postings id)) else None);
  qi_open property id _ := Ret (ex_reader property id);
  qi_docFreq d := vsize (cu_pend (pc_cursor d));
  qi_lexical_cast _ _ := None;
  qi_seekBTree _ _ := false;
  qi_numericDocs _ _ := fun _ => false;
  qi_filterDocs b := PosCursor (Cursor true (filter (fun x => b x = true) (seqZ 0 20))) (fun _ => []) []
}.

Lemma ex_postings_wf id : cursor_wf (Cursor true (ex_postings id)).
Proof.
  unfold ex_postings. destruct (id =? 1); [by apply (posting_wf [3; 7; 9])|].
  destruct (id =? 2); [by apply (posting_wf [7; 9])|apply cursor_wf_nil].
Qed.

Lemma ex_index_ok p : index_ok (D := pos_cursor) (X := string) (B := bits) (fun _ => ex_postings) p true.
Proof.
  split; [done|]. intros id. pose proof (ex_seek_ok id) as H. cbn. unfold ex_reader in H |- *.
  destruct ((id =? 1) || (id =? 2)); [|by left]. right. destruct H as [l H]. eexists _, _. split; [done|]. split; [done|]. exists (ex_positions id), l. exact H.
Qed.

(** The term 1 without the phrase "1 2", or the term 2. *)
Definition ex_term (id : Z) : QueryTree := Tree KEYWORD "" id 0 [].
Definition ex_query : QueryTree :=
  Tree OR "" 0 0 [Tree AND "" 0 0 [ex_term 1; Tree NOT "" 0 0 [Tree EXACT "" 0 0 [ex_term 1; ex_term 2]]]; ex_term 5].

Lemma ex_phrase_ok x : Forall (fun id => x ∈ ex_postings id) [1; 2] -> test_ok PExact (offsets_at ex_positions [1; 2] x).
Proof.
  intros _. split; [done|]. split; [vm_compute; reflexivity|]. split; [|done].
  constructor; [apply ex_positions_ok|]. constructor; [apply ex_positions_ok|constructor].
Qed.

Lemma ex_query_meaning p x : query_holds (fun _ => ex_postings) (fun _ => ex_positions) p p ex_query x <-> x ∈ [3; 9].
Proof.
  cbn [query_holds ex_query ex_term foldr is_not type_ bool_decide decide_rel phrase_of map keywordId_ children_].
  change (ex_postings 1) with [3; 7; 9]. change (ex_postings 5) with (@nil Z).
  split.
  - intros [(Hx & Hn & _)|[Hx|[]]]; [|by apply elem_of_nil in Hx]. destruct (decide (x = 7)) as [->|]; [|set_unfold; lia].
    exfalso. apply Hn. split; [|vm_compute; reflexivity]. repeat constructor; cbn; set_solver.
  - intros Hx. left. split; [set_unfold; lia|]. split; [|done]. intros [Hp Ht].
    assert (x = 3 \/ x = 9) as [-> | ->] by (set_unfold; lia).
    + apply Forall_cons in Hp as [_ Hp]. apply Forall_cons in Hp as [Hp _]. cbn in Hp. set_unfold. lia.
    + by vm_compute in Ht.
Qed.

Lemma ex_query_searchable p : searchable (fun _ => ex_postings) (fun _ => ex_positions) p p ex_query.
Proof.
  right. split; [done|]. split; [|split; [by left|done]]. right. split; [done|]. split.
  - constructor; [by left|]. constructor; [|constructor]. right. eexists _, _, _, _. split; [done|]. split; [done|]. split; [done|]. exact ex_phrase_ok.
  - constructor. done.
Qed.

Lemma query_documents_witness :
  exists a o m', do_prepare_for_property_ (D := pos_cursor) (Q := heap nat) (X := string) (B := bits) 0 f32_zero "title" STRING_PROPERTY_TYPE
      false true false false ∅ ex_query 0 None ∅ = Ret (a, o, m') /\
    match o with
    | Some it => exists ds, drain (DocIterator0 := q_ops (Some ex_reader) 5) it = Ret ds /\ 3 ∈ ds /\ (7 ∉ ds) /\ 9 ∈ ds
    | None => False
    end.
Proof.
  destruct (query_documents (D := pos_cursor) (Q := heap nat) (X := string) (B := bits) 0 f32_zero (fun _ => ex_postings) (fun _ => ex_positions) ex_reader
    "title" STRING_PROPERTY_TYPE true false false ∅ (ex_index_ok _) (fun _ => ex_postings_wf) (fun _ => ex_seek_ok) ltac:(done) ex_query ∅)
    as (a & o & m' & E & H).
  - apply ex_query_searchable.
  - by intros id l d H.
  - exists a, o, m'. split; [exact E|]. destruct o as [it|].
    + destruct (H 5%nat) as (ds & Ed & _ & Hx); [cbn; lia|]. exists ds. split; [exact Ed|].
      split_and!; [apply Hx, (ex_query_meaning "title"); set_solver|rewrite (Hx 7); intros H7%(ex_query_meaning "title"); set_unfold; lia|
        apply Hx, (ex_query_meaning "title"); set_solver].
    + apply (H 3), (ex_query_meaning "title"). set_solver.
Defined.
