(* ===== verification/RequestDocs.v ===== *)
(** * The scorer of a request

Every property of a request contributes the iterator of its query tree to a
MultiPropertyScorer (QueryBuilder::prepare_dociterator, QueryBuilder.v): the
readers of its terms are prefetched, the tree is built, and the iterator is kept
at the place of the property. The theorem of this file: the scorer enumerates
the documents that meet the query of at least one property. *)
From Stdlib Require Import String.
From S2P Require Import Prelude PQueue Float64 DocIterator OrIterator AndIterator PhraseMatch PhraseIterator WandIterator WildcardIterator QueryIter GroupParam QueryFilter QueryBuilder QueryDocs.

Section Request.
Context {D Q X B C : Type} `{!DocIterator D, !DocNextSpec D, !SkipLaw D before, !TermPositions D, !TermPositionsSpec D, !PQueue Q nat, !PQueueSpec Q nat}.
Context `{!RangeIndex X B, !QueryIndex D X B, !Cache C FilteringType B}.
Context (junk : Z) (junkf : spec_float).
Context (postings : string -> Z -> list Z) (term_positions : string -> Z -> Z -> list Z) (reader : string -> Z -> option D).
Context (op : operation) (schemaMap_ : gmap string IndexProperty) (readPositions : bool).
Notation qi := (qiter D Q).
Notation readers := (gmap Z (list D)).
Notation prepare_one := (prepare_one (D := D) (Q := Q) (X := X) (B := B) (C := C) junk junkf op schemaMap_ readPositions).

Hypothesis Hwf : forall p id, cursor_wf (Cursor true (postings p id)).
Hypothesis Hphrase : forall p, seek_ok reader p (postings p) (term_positions p).
Hypothesis Hjunk : 0 <= junk < MAX_DOC_ID.

Notation unigram p := (unigramProperty (ip_name p) (hasUnigramProperty_ op)).

(** The documents that meet the query of a property. *)
Definition property_docs (p : IndexProperty) : list Z :=
  match getQueryTree op (ip_name p) with Some t => query_docs postings term_positions (ip_name p) (unigram p) t | None => [] end.
Definition property_holds (p : IndexProperty) (x : Z) : Prop :=
  exists t, getQueryTree op (ip_name p) = Some t /\ query_holds postings term_positions (ip_name p) (unigram p) t x.

(** A property of text whose query tree satisfies [ok]. *)
Definition property_ok (ok : IndexProperty -> QueryTree -> Prop) (p : IndexProperty) : Prop :=
  subProperties_ p = [] /\ isNumericFilter_of p = false /\
  index_ok (D := D) (X := X) (B := B) postings (ip_name p) readPositions /\
  forall t, getQueryTree op (ip_name p) = Some t -> ok p t.

(** Depths that are enough for the tree of a property. *)
Definition deep (n : nat) (p : IndexProperty) : Prop := forall t, getQueryTree op (ip_name p) = Some t -> (height t <= n)%nat.

Lemma push_reader_ok p id d m : readers_ok postings p m -> di_rep d (Cursor true (postings p id)) -> readers_ok (D := D) postings p (push_reader id d m).
Proof.
  intros Hm Hd id' l x H Hx. unfold push_reader in H. destruct (decide (id' = id)) as [->|Hne].
  - rewrite lookup_insert_eq in H. injection H as <-. apply elem_of_app in Hx as [Hx|Hx].
    + destruct (m !! id) as [l|] eqn:E; [|by apply elem_of_nil in Hx]. by apply (Hm id l).
    + by apply list_elem_of_singleton in Hx as ->.
  - rewrite lookup_insert_ne in H by done. by apply (Hm id' l).
Qed.

Lemma prefetch_ok terms (p : IndexProperty) (c : C) : isNumericFilter_of p = false ->
  index_ok (D := D) (X := X) (B := B) postings (ip_name p) readPositions ->
  exists m, prefetch_term_doc_readers_ (D := D) (X := X) (B := B) terms p readPositions false (∅, c) = Ret (false, (m, c)) /\
    readers_ok postings (ip_name p) m.
Proof.
  intros Hn [Hr Hi]. unfold prefetch_term_doc_readers_. rewrite Hn, Hr. cbn [orb negb andb].
  destruct (mfold_rule (prefetch_term (D := D) (X := X) (B := B) (C := C) p readPositions false)
    (fun _ st => st.2 = c /\ readers_ok postings (ip_name p) st.1) terms (∅, c)) as ([m c'] & -> & Ec & Hm).
  - intros [id s] l [m c'] [Ec Hm]. cbn [fst snd] in *. subst c'. cbn [prefetch_term negb].
    destruct (Hi id) as [[-> _]|(df & d & -> & -> & Hd)]; cbn [res_bind]; eexists; (split; [done|]); (split; [done|]); [done|].
    by apply push_reader_ok.
  - split; [done|]. by intros id l d H.
  - cbn in Ec. subst c'. by exists m.
Qed.

(** One property adds its iterator, or has no documents. *)
Section Contract.
Context (R : nat -> qi -> cursor -> Prop) (ok : IndexProperty -> QueryTree -> Prop).
Hypothesis Hok : forall p t idx, property_ok ok p -> ok p t ->
  builds (D := D) postings term_positions (ip_name p) (hasUnigramProperty_ op) R
    (fun c => do_prepare_for_property_ (D := D) (Q := Q) (X := X) (B := B) junk junkf (ip_name p) (ip_type p) false readPositions
      (hasUnigramProperty_ op) (isUnigramSearchMode_ op) idx c 0) t.

Lemma prepare_property_spec p idx (s : scorer) n (c : C) i : property_ok ok p ->
  getIndexOfProperty_ (sc_ids s) (ip_id p) = Some i -> 0 <= i < vsize (sc_slots s) -> vsize (termDocReadersList_ s) = vsize (sc_slots s) ->
  exists o m, prepare_for_property_ (D := D) (Q := Q) (X := X) (B := B) junk junkf op readPositions p idx (s, n, c) =
    Ret (match o with
         | Some it => Scorer (sc_ids s) (<[Z.to_nat i := Some (it, false)]> (sc_slots s)) (<[Z.to_nat i := m]> (termDocReadersList_ s)) (termDocReadersListVirtual_ s)
         | None => s end, match o with Some _ => n + 1 | None => n end, c) /\
    match o with Some it => forall n, deep n p -> R n it (Cursor true (property_docs p)) | None => property_docs p = [] end.
Proof.
  intros Hp Ei Hi Hsz. pose proof Hp as (_ & Hn & Hidx & Ht). unfold prepare_for_property_, property_docs, deep.
  destruct (prefetch_ok (sort_terms (getQueryTermInfoList op (ip_name p))) p c Hn Hidx) as (m & -> & Hm). cbn [res_bind].
  destruct (getQueryTree op (ip_name p)) as [t|] eqn:Et; [|exists None, ∅; by cbn].
  destruct (Hok p t idx Hp (Ht t eq_refl) None m Hm) as ([[a slot'] m'] & -> & _ & [(-> & it & -> & Hit)|(-> & -> & Ed)]); cbn [res_bind attach].
  - exists (Some it), m'. unfold scorer_add_readers, scorer_add. unfold index_of. rewrite Ei. cbn [default id from_option].
    rewrite vset_Ret by done. cbn [res_bind sc_ids sc_slots termDocReadersList_ termDocReadersListVirtual_].
    rewrite Ei. cbn [default id from_option]. rewrite vset_Ret by lia. cbn [res_bind]. split; [done|].
    intros n' Hd. apply Hit. by apply Hd.
  - by exists None, ∅.
Qed.

(** The loop over the properties: place [i] of the scorer holds the iterator of
    the [i]-th property. *)
Definition property_slot (o : option (qi * bool)) (p : IndexProperty) : Prop :=
  match o with Some (it, _) => forall n, deep n p -> R n it (Cursor true (property_docs p)) | None => property_docs p = [] end.

Definition entry_ok (pt : string * gmap Z Z) (p : IndexProperty) : Prop := schemaMap_ !! pt.1 = Some p /\ property_ok ok p.

Lemma index_found ids id i : NoDup ids -> ids !! i = Some id -> getIndexOfProperty_ ids id = Some (Z.of_nat i).
Proof.
  revert i. induction ids as [|x ids IH]; intros [|i] Hnd H; [done|done| |]; cbn in *.
  - injection H as ->. by rewrite Z.eqb_refl.
  - apply NoDup_cons in Hnd as [Hx Hnd]. destruct (Z.eqb_spec x id) as [->|_]; [by apply list_elem_of_lookup_2 in H|].
    rewrite (IH i Hnd H). cbn. f_equal. lia.
Qed.

(** [done] properties were added. *)
Definition scorer_inv (ids : list Z) (done : list IndexProperty) (c : C) (st : scorer * Z * C) : Prop :=
  let '(s, n, c') := st in
  c' = c /\ sc_ids s = ids /\ length (sc_slots s) = length ids /\ length (termDocReadersList_ s) = length ids /\
  Forall2 property_slot (take (length done) (sc_slots s)) done /\
  (0 < n <-> exists o, o ∈ take (length done) (sc_slots s) /\ o <> None) /\ 0 <= n /\
  drop (length done) (sc_slots s) = replicate (length ids - length done) None.

Lemma prepare_one_step ids don p pt c st : NoDup ids -> ids !! length don = Some (ip_id p) -> entry_ok pt p ->
  scorer_inv ids don c st -> exists st', prepare_one pt st = Ret st' /\ scorer_inv ids (don ++ [p]) c st'.
Proof.
  intros Hnd Hid [Es Hp] Hinv. destruct st as [[s n] c']. destruct Hinv as (-> & Ei & Hl1 & Hl2 & Hdone & Hn & Hn0 & Hdrop).
  pose proof (lookup_lt_Some _ _ _ Hid) as Hlt. pose proof (index_found _ _ _ Hnd Hid) as Hf.
  unfold prepare_one. rewrite Es. pose proof Hp as (-> & _). cbn [is_nil].
  destruct (prepare_property_spec p pt.2 s n c (Z.of_nat (length don)) Hp) as (o & m & E & Ho);
    [by rewrite Ei|unfold vsize; lia|unfold vsize; lia|].
  rewrite E. eexists. split; [done|]. rewrite Nat2Z.id in *.
  assert (exists y, sc_slots s !! length don = Some y) as [y Hy] by (apply lookup_lt_is_Some_2; lia).
  assert (y = None) as ->.
  { assert (drop (length don) (sc_slots s) !! 0%nat = Some y) as H by (rewrite lookup_drop, Nat.add_0_r; done).
    rewrite Hdrop in H. by apply lookup_replicate in H as [-> _]. }
  assert (drop (S (length don)) (sc_slots s) = replicate (length ids - S (length don)) None) as Hdrop'.
  { replace (S (length don)) with (length don + 1)%nat by lia. rewrite <- drop_drop, Hdrop, drop_replicate. f_equal. lia. }
  unfold scorer_inv. rewrite length_app, Nat.add_1_r.
  destruct o as [it|]; cbn [sc_ids sc_slots termDocReadersList_].
  - assert (take (S (length don)) (<[length don := Some (it, false)]> (sc_slots s)) = take (length don) (sc_slots s) ++ [Some (it, false)]) as ->.
    { rewrite (take_S_r _ _ (Some (it, false))) by (apply list_lookup_insert_eq; lia). by rewrite take_insert_ge by lia. }
    split_and!; [done|done|by rewrite length_insert|by rewrite length_insert| | |lia|by rewrite drop_insert_lt by lia].
    + apply Forall2_app; [done|]. by constructor.
    + split; [|lia]. intros _. exists (Some (it, false)). split; [set_solver|done].
  - rewrite (take_S_r _ _ _ Hy). split_and!; [done|done|done|done| | |done|done].
    + apply Forall2_app; [done|]. by constructor.
    + rewrite Hn. setoid_rewrite elem_of_app. setoid_rewrite list_elem_of_singleton. clear -Hn. naive_solver.
Qed.

Lemma prepare_all ids ps pts don c st : NoDup ids -> ids = map ip_id (don ++ ps) -> Forall2 entry_ok pts ps -> scorer_inv ids don c st ->
  exists st', mfold prepare_one pts st = Ret st' /\ scorer_inv ids (don ++ ps) c st'.
Proof.
  intros Hnd Hids H. revert don Hids st. induction H as [|pt p pts ps Hp _ IH]; intros don Hids st Hinv.
  { rewrite app_nil_r. by exists st. }
  destruct (prepare_one_step ids don p pt c st Hnd) as (st1 & E1 & H1); [|done|done|].
  { rewrite Hids, map_app. rewrite lookup_app_r by (rewrite length_map; done). by rewrite length_map, Nat.sub_diag. }
  cbn [mfold]. rewrite E1. cbn [res_bind]. destruct (IH (don ++ [p])) with (st := st1) as (st2 & E2 & H2); [by rewrite <- app_assoc|done|].
  exists st2. split; [done|]. by rewrite <- app_assoc in H2.
Qed.

Lemma prepare_dociterator_spec pts ps c : NoDup (map ip_id ps) -> Forall2 entry_ok pts ps ->
  exists o, prepare_dociterator (D := D) (Q := Q) (X := X) (B := B) junk junkf op schemaMap_ readPositions pts (map ip_id ps) c = Ret (o, c) /\
    match o with
    | Some s => sc_ids s = map ip_id ps /\ Forall2 property_slot (sc_slots s) ps
    | None => forall p, p ∈ ps -> property_docs p = []
    end.
Proof.
  intros Hnd H. unfold prepare_dociterator.
  destruct (prepare_all (map ip_id ps) ps pts [] c (MultiPropertyScorer (map ip_id ps), 0, c) Hnd eq_refl H)
    as ([[s n] c'] & -> & -> & Ei & Hl1 & _ & Hsl & Hn & Hn0 & _).
  { unfold MultiPropertyScorer. cbn. rewrite !length_map. split_and!; try done.
    - split; [lia|]. intros (o & Ho & _). by apply elem_of_nil in Ho.
    - rewrite Nat.sub_0_r, drop_0. clear. induction ps as [|p ps IH]; [done|]. cbn. f_equal. exact IH. }
  cbn [app] in *. cbn [res_bind]. rewrite take_ge in Hsl, Hn by (rewrite Hl1, length_map; done).
  destruct (Z.ltb_spec 0 n).
  - exists (Some s). done.
  - exists None. split; [done|]. intros p Hp. apply list_elem_of_lookup in Hp as [i Hi].
    destruct (Forall2_lookup_r _ _ _ _ _ Hsl Hi) as (o & Ho & Hs). destruct o as [o|]; [|done].
    exfalso. assert (0 < n); [|lia]. apply Hn. exists (Some o). split; [by eapply list_elem_of_lookup_2|done].
Qed.
End Contract.

Notation pcur p := (Cursor true (property_docs p)).

Lemma slots_rep (I : DocIterator qi) (S : @DocNextSpec qi I) n slots ps : (forall p, p ∈ ps -> deep n p) ->
  Forall2 (property_slot (fun _ => di_rep (DocNextSpec := S))) slots ps ->
  Forall2 (slot_rep (DocNextSpec0 := S)) slots (map (fun p => pcur p) ps).
Proof.
  intros Hd H. apply Forall2_fmap_r. induction H as [|o p slots ps Ho _ IH]; constructor.
  - destruct o as [[it b]|]; cbn in *; [apply (Ho n), Hd; by left|by rewrite Ho].
  - apply IH. intros p' Hp'. apply Hd. by right.
Qed.

Lemma slots_at (R : nat -> qi -> cursor -> Prop) n slots ps : (forall p, p ∈ ps -> deep n p) ->
  Forall2 (property_slot R) slots ps -> Forall2 (property_slot (fun _ => R n)) slots ps.
Proof.
  intros Hd H. induction H as [|o p slots ps Ho _ IH]; constructor.
  - destruct o as [[it b]|]; cbn in *; [|done]. intros _ _. apply Ho, Hd. by left.
  - apply IH. intros p' Hp'. apply Hd. by right.
Qed.

Lemma scorer_or_rep (I : DocIterator qi) (S : @DocNextSpec qi I) n slots ps : (forall p, p ∈ ps -> deep n p) -> vsize ps < 2 ^ 31 ->
  Forall2 (property_slot (fun _ => di_rep (DocNextSpec := S))) slots ps ->
  or_rep (Q := Q) (DocNextSpec0 := S) (OrCore slots None junk) (Cursor true (union_list (map (fun p => pcur p) ps))).
Proof.
  intros Hd Hsz H. apply (or_rep_slots (DocNextSpec0 := S)).
  - by apply (slots_rep _ S n).
  - apply Forall_map. by apply Forall_true.
  - unfold vsize in *. by rewrite (Forall2_length _ _ _ H).
Qed.

Lemma scorer_top n s ps : (forall p, p ∈ ps -> deep n p) -> vsize ps < 2 ^ 31 ->
  Forall2 (property_slot (fun n => q_top (Some reader) n)) (sc_slots s) ps ->
  q_top (Some reader) (S n) (scorer_iter junk junkf s) (Cursor true (union_list (map (fun p => pcur p) ps))).
Proof.
  intros Hd Hsz H. right. split; [done|]. apply (scorer_or_rep _ (q_top_spec (Some reader) n) n); [done|done|].
  by apply (slots_at (fun n => q_top (Some reader) n)).
Qed.

Lemma scorer_rep n s ps : (forall p, p ∈ ps -> deep n p) -> vsize ps < 2 ^ 31 ->
  Forall2 (property_slot (fun n => q_rep (Some reader) n)) (sc_slots s) ps ->
  q_rep (Some reader) (S n) (scorer_iter junk junkf s) (Cursor true (union_list (map (fun p => pcur p) ps))).
Proof.
  intros Hd Hsz H. split; [done|]. apply (scorer_or_rep _ (projT1 (q_spec (Some reader) n)) n); [done|done|].
  by apply (slots_at (fun n => q_rep (Some reader) n)).
Qed.

Definition searchable_in (p : IndexProperty) (t : QueryTree) : Prop := searchable postings term_positions (ip_name p) (unigram p) t.
Definition plain_in (p : IndexProperty) (t : QueryTree) : Prop := plain postings term_positions (ip_name p) (unigram p) t.

Lemma property_docs_holds ok p x : (forall t, ok p t -> searchable_in p t) -> property_ok ok p ->
  x ∈ property_docs p <-> property_holds p x.
Proof.
  intros Hs (_ & _ & _ & Ht). unfold property_docs, property_holds. destruct (getQueryTree op (ip_name p)) as [t|] eqn:Et.
  - rewrite (searchable_docs _ _ _ _ t (Hs t (Ht t eq_refl))). split; [eauto|]. by intros (t' & [= <-] & H).
  - split; [by intros ?%elem_of_nil|]. by intros (t' & ? & _).
Qed.

Lemma searchable_property_builds p t idx : property_ok searchable_in p -> searchable_in p t ->
  builds (D := D) postings term_positions (ip_name p) (hasUnigramProperty_ op) (fun n => q_top (Some reader) n)
    (fun c => do_prepare_for_property_ (D := D) (Q := Q) (X := X) (B := B) junk junkf (ip_name p) (ip_type p) false readPositions
      (hasUnigramProperty_ op) (isUnigramSearchMode_ op) idx c 0) t.
Proof. intros (_ & _ & Hi & _) Ht. by apply searchable_builds. Qed.

(** C10: the scorer of a request, read to its end, returns in order exactly the
    documents that meet the query of at least one of its properties; no scorer
    is made only where none meets them. The properties are text properties of the
    schema with distinct ids, neither virtual (without sub-properties) nor numeric
    filters, and their query trees are [searchable]: plain trees (terms, phrases with
    their bounds, AND and OR of plain trees), an AND of plain trees, at least one,
    and of NOTs of plain trees, and an OR of searchable trees. *)
Theorem request_documents pts ps c : NoDup (map ip_id ps) -> vsize ps < 2 ^ 31 -> Forall2 (entry_ok searchable_in) pts ps ->
  exists o, prepare_dociterator (D := D) (Q := Q) (X := X) (B := B) junk junkf op schemaMap_ readPositions pts (map ip_id ps) c = Ret (o, c) /\
    match o with
    | Some s => forall n, (forall p, p ∈ ps -> deep n p) ->
        exists ds, drain (DocIterator0 := q_ops (Some reader) (S n)) (scorer_iter junk junkf s) = Ret ds /\ ssorted ds /\
          forall x, x ∈ ds <-> exists p, p ∈ ps /\ property_holds p x
    | None => forall p x, p ∈ ps -> ~ property_holds p x
    end.
Proof.
  intros Hnd Hsz H.
  destruct (prepare_dociterator_spec _ searchable_in searchable_property_builds pts ps c Hnd H) as (o & E & Ho).
  exists o. split; [exact E|].
  assert (forall p x, p ∈ ps -> x ∈ property_docs p <-> property_holds p x) as Hx.
  { intros p x Hp. apply list_elem_of_lookup in Hp as [i Hi]. destruct (Forall2_lookup_r _ _ _ _ _ H Hi) as (pt & _ & _ & Hp).
    by apply (property_docs_holds searchable_in). }
  destruct o as [s|].
  - intros n Hd. destruct Ho as [_ Hs]. pose proof (scorer_top n s ps Hd Hsz Hs) as Hr. eexists. split; [exact (q_drain (Some reader) _ _ _ Hr)|].
    split; [apply ssort_sorted|]. intros x. cbn. rewrite union_list_elem. split.
    + intros (k & (p & -> & Hp)%list_elem_of_fmap & Hin). exists p. split; [done|]. by apply Hx.
    + intros (p & Hp & Hh). exists (pcur p). split; [apply list_elem_of_fmap; eauto|]. by apply Hx.
  - intros p x Hp. rewrite <- Hx, (Ho p Hp) by done. apply not_elem_of_nil.
Qed.
End Request.

(** ** A request over two properties *)
Definition ex_property (name : string) (id : Z) : IndexProperty := IndexProp name id STRING_PROPERTY_TYPE true false [].
Definition ex_schema : gmap string IndexProperty := {["title"%string := ex_property "title" 7; "body"%string := ex_property "body" 9]}.
Definition ex_operation : operation := Operation
  (fun p => if String.eqb p "title" then Some ex_query else if String.eqb p "body" then Some (ex_term 2) else None)
  (fun p => if String.eqb p "title" then [(1, ""%string)] else [(2, ""%string)]) false false.

Lemma ex_property_ok name id : property_ok (D := pos_cursor) (X := string) (B := bits) (fun _ => ex_postings) ex_operation true
  (searchable_in (fun _ => ex_postings) (fun _ => ex_positions) ex_operation) (ex_property name id).
Proof.
  split; [done|]. split; [done|]. split; [apply ex_index_ok|]. unfold searchable_in. cbn. intros t.
  destruct (String.eqb name "title"); [intros [= <-]; apply ex_query_searchable|]. destruct (String.eqb name "body"); [|done].
  intros [= <-]. by left.
Qed.

Lemma request_documents_witness : exists o,
  prepare_dociterator (D := pos_cursor) (Q := heap nat) (X := string) (B := bits) (C := list (FilteringType * bits)) 0 f32_zero
    ex_operation ex_schema true [("title"%string, ∅); ("body"%string, ∅)] [7; 9] [] = Ret (o, []) /\
  match o with
  | Some s => exists ds, drain (DocIterator0 := q_ops (Some ex_reader) 6) (scorer_iter 0 f32_zero s) = Ret ds /\ ssorted ds /\ 3 ∈ ds /\ 7 ∈ ds /\ 9 ∈ ds
  | None => False
  end.
Proof.
  destruct (request_documents (D := pos_cursor) (Q := heap nat) (X := string) (B := bits) (C := list (FilteringType * bits)) 0 f32_zero
    (fun _ => ex_postings) (fun _ => ex_positions) ex_reader ex_operation ex_schema true (fun _ => ex_postings_wf) (fun _ => ex_seek_ok) ltac:(done)
    [("title"%string, ∅); ("body"%string, ∅)] [ex_property "title" 7; ex_property "body" 9] []) as (o & E & H).
  - apply (bool_decide_unpack _). by vm_compute.
  - done.
  - constructor; [split; [done|apply ex_property_ok]|]. constructor; [split; [done|apply ex_property_ok]|constructor].
  - exists o. split; [exact E|].
    assert (forall x, x ∈ [3; 9] -> property_holds (fun _ => ex_postings) (fun _ => ex_positions) ex_operation (ex_property "title" 7) x) as H1.
    { intros x Hx. exists ex_query. split; [done|]. by apply (ex_query_meaning "title"). }
    assert (property_holds (fun _ => ex_postings) (fun _ => ex_positions) ex_operation (ex_property "body" 9) 7) as H2.
    { exists (ex_term 2). split; [done|]. cbn. set_solver. }
    destruct o as [s|]; [|apply (H (ex_property "body" 9) 7); [set_solver|done]].
    destruct (H 5%nat) as (ds & Ed & Hs & Hx).
    { intros p Hp t. apply elem_of_cons in Hp as [->|Hp%list_elem_of_singleton]; [|subst p]; intros [= <-]; cbn; lia. }
    exists ds. split; [exact Ed|]. split_and!; [done|apply Hx; exists (ex_property "title" 7)|apply Hx; exists (ex_property "body" 9)|apply Hx; exists (ex_property "title" 7)].
    all: split; [set_solver|]; try done; apply H1; set_solver.
Defined.
