(* ===== verification/NumTable.v ===== *)
(** * Tables of numeric properties

Models common/NumericPropertyTable.h, NumericRangePropertyTable.h and what
NumericPropertyTableBase.h promises: a vector of values indexed by the document
id, in which one value stands for "no value". Both tables are the same code
over a cell: a number, or a pair of numbers. The lock is not modelled: an
operation is one step. What boost and the C library do with texts is a
parameter. *)
From Stdlib Require Import Ascii String.
From S2P Require Import Prelude PQueue Float64 GroupParam GroupLabels.

(** ** The value types

[static_cast] between the types of C++: to a signed integer of [w] bits from an
integer (modulo 2^w) and from a floating-point number (towards zero; undefined
out of range), and to [float] and [double]. *)
Definition swrap (w z : Z) : Z :=
  let m := z mod 2 ^ w in if m <? 2 ^ (w - 1) then m else m - 2 ^ w.

Definition in_width (w z : Z) : Prop := - 2 ^ (w - 1) <= z < 2 ^ (w - 1).

Definition truncate (f : spec_float) : option Z :=
  match f with
  | S754_zero _ => Some 0
  | S754_finite s m e => Some (cond_Zopp s (Z.shiftl (Z.pos m) e))
  | _ => None
  end.

Definition float_to_int (w : Z) (f : spec_float) : res Z :=
  match truncate f with
  | Some z => if (- 2 ^ (w - 1) <=? z) && (z <? 2 ^ (w - 1)) then Ret z else Undef
  | None => Undef
  end.

(** A [float] is kept as the double of the same value. *)
Definition as_double (f : spec_float) : spec_float :=
  match f with S754_finite s m e => dbl (cond_Zopp s (Z.pos m)) e | _ => f end.

Definition double_to_float (f : spec_float) : spec_float :=
  match f with
  | S754_finite s m e => as_double (binary_normalize 24 128 (cond_Zopp s (Z.pos m)) e s)
  | _ => f
  end.

Definition int_to_float (z : Z) : spec_float := as_double (binary_normalize 24 128 z 0 false).

(** What the tables use of their type [T]. *)
Class Number (T : Type) := {
  n_max : T;                               (* numeric_limits<T>::max() *)
  n_eqb : T -> T -> bool;
  n_ltb : T -> T -> bool;
  of_int : Z -> T;
  of_double : spec_float -> res T;         (* from a float or a double *)
  to_int : Z -> T -> res Z;                (* to a signed integer of a width *)
  to_float : T -> spec_float;
  to_double : T -> spec_float
}.

Definition int_number (w : Z) : Number Z := {|
  n_max := 2 ^ (w - 1) - 1;
  n_eqb := Z.eqb;
  n_ltb := Z.ltb;
  of_int := swrap w;
  of_double := float_to_int w;
  to_int v z := Ret (swrap v z);
  to_float := int_to_float;
  to_double z := dbl z 0
|}.

Definition double_number : Number spec_float := {|
  n_max := dbl (2 ^ 53 - 1) 971;
  n_eqb := feq;
  n_ltb := flt;
  of_int z := dbl z 0;
  of_double f := Ret f;
  to_int := float_to_int;
  to_float := double_to_float;
  to_double f := f
|}.

Definition float_number : Number spec_float := {|
  n_max := FLT_MAX;
  n_eqb := feq;
  n_ltb := flt;
  of_int := int_to_float;
  of_double f := Ret (double_to_float f);
  to_int := float_to_int;
  to_float f := f;
  to_double f := f
|}.

Example casts_ex : swrap 8 200 = -56 /\ float_to_int 32 (dbl (-5) (-1)) = Ret (-2) /\ float_to_int 8 (dbl 200 0) = Undef /\
  int_to_float (2 ^ 24 + 1) = dbl (2 ^ 24) 0 /\ double_to_float (dbl 1 (-1)) = dbl 1 (-1).
Proof. vm_compute. done. Qed.

(** ** The table

[V] is the type of a cell, [veq] its [==]. *)
Record prop_table (V : Type) := Table {
  type_ : PropertyDataType;
  dirty_ : bool;
  invalidValue_ : V;
  path_ : string;
  data_ : list V
}.
Arguments Table {_} _ _ _ _ _.
Arguments type_ {_} _.
Arguments dirty_ {_} _.
Arguments invalidValue_ {_} _.
Arguments path_ {_} _.
Arguments data_ {_} _.

Section Table.
Context {V : Type} (veq : V -> V -> bool).
Implicit Types t : prop_table V.

Definition new_table (type : PropertyDataType) (initValue : V) : prop_table V :=
  Table type false initValue "" [initValue].

Definition set_data (data : list V) t : prop_table V := Table (type_ t) (dirty_ t) (invalidValue_ t) (path_ t) data.
Definition set_dirty (d : bool) t : prop_table V := Table (type_ t) d (invalidValue_ t) (path_ t) (data_ t).

Definition resize (size : Z) t : prop_table V := set_data (vresize size (invalidValue_ t) (data_ t)) t.

Definition size t : Z := vsize (data_ t).

(** The value of a document that has one: the test of every [get]. *)
Definition valid_at (pos : Z) t : res (option V) :=
  if size t <=? pos then Ret None
  else let* v := vget (data_ t) pos in Ret (if veq v (invalidValue_ t) then None else Some v).

Definition isValid (pos : Z) t : res bool :=
  let* v := valid_at pos t in Ret (match v with Some _ => true | None => false end).

(** The first half of every [set]: the vector grows to hold [pos]. *)
Definition grow (pos : Z) t : prop_table V := if size t <=? pos then resize (u64 (pos + 1)) t else t.

(** data_[pos] = value; dirty_ = true; *)
Definition store (pos : Z) (v : V) t : res (prop_table V) :=
  let* data := vset (data_ t) pos v in Ret (set_dirty true (set_data data t)).

Definition setValue (pos : Z) (v : V) t : res (prop_table V) := store pos v (grow pos t).

Definition copyValue (from to : Z) t : res (prop_table V) :=
  let* v := valid_at from t in
  match v with
  | None => Ret t
  | Some v => store to v (grow to t)
  end.

Definition clearValue (pos : Z) t : res (prop_table V) :=
  if pos <? size t then store pos (invalidValue_ t) t else Ret t.

(** [compareValues]; [vlt] is the [<] of the cells. *)
Definition compareValues (vlt : V -> V -> bool) (lhs rhs : Z) t : res Z :=
  let* lv := vget (data_ t) lhs in
  if veq lv (invalidValue_ t) then Ret (-1)
  else
    let* rv := vget (data_ t) rhs in
    if veq rv (invalidValue_ t) then Ret 1
    else Ret (if vlt lv rv then -1 else if vlt rv lv then 1 else 0).
End Table.

(** ** NumericPropertyTable.h *)
Section NumericPropertyTable.
Context {T : Type} `{!Number T}.
Implicit Types t : prop_table T.

(** A [get] casts the value of the document, if there is one. *)
Definition num_get {A} (cast : T -> res A) (pos : Z) t : res (option A) :=
  let* v := valid_at n_eqb pos t in
  match v with
  | Some v => let* a := cast v in Ret (Some a)
  | None => Ret None
  end.

Definition num_getInt32Value : Z -> prop_table T -> res (option Z) := num_get (to_int 32).
Definition num_getFloatValue : Z -> prop_table T -> res (option spec_float) := num_get (fun v => Ret (to_float v)).
Definition num_getInt64Value : Z -> prop_table T -> res (option Z) := num_get (to_int 64).
Definition num_getDoubleValue : Z -> prop_table T -> res (option spec_float) := num_get (fun v => Ret (to_double v)).
Definition num_getDoublePairValue : Z -> prop_table T -> res (option (spec_float * spec_float)) :=
  num_get (fun v => Ret (to_double v, to_double v)).
Definition num_getInt64PairValue : Z -> prop_table T -> res (option (Z * Z)) :=
  num_get (fun v => let* i := to_int 64 v in Ret (i, i)).
Definition num_getValue : Z -> prop_table T -> res (option T) := num_get Ret.

(** [to_string]: the conversion of the type, see [getStringValue] below. *)
Definition num_getStringValue (to_string : T -> string) : Z -> prop_table T -> res (option string) :=
  num_get (fun v => Ret (to_string v)).

(** The comparisons that put the invalid value last and first. *)
Definition InvalidGreat (invalid x y : T) : bool :=
  if n_eqb x invalid then false else if n_eqb y invalid then true else n_ltb x y.
Definition InvalidLess (invalid x y : T) : bool :=
  if n_eqb y invalid then false else if n_eqb x invalid then true else n_ltb x y.

(** std::min_element and std::max_element. *)
Definition min_element (lt : T -> T -> bool) (l : list T) : option T :=
  match l with
  | [] => None
  | x :: l => Some (foldl (fun result y => if lt y result then y else result) x l)
  end.
Definition max_element (lt : T -> T -> bool) (l : list T) : option T :=
  match l with
  | [] => None
  | x :: l => Some (foldl (fun result y => if lt result y then y else result) x l)
  end.

Definition getFloatMinValue t : option spec_float :=
  match min_element (InvalidGreat (invalidValue_ t)) (data_ t) with
  | Some v => if n_eqb v (invalidValue_ t) then None else Some (to_float v)
  | None => None
  end.
Definition getFloatMaxValue t : option spec_float :=
  match max_element (InvalidLess (invalidValue_ t)) (data_ t) with
  | Some v => if n_eqb v (invalidValue_ t) then None else Some (to_float v)
  | None => None
  end.

Definition num_setInt32Value (pos value : Z) t : res (prop_table T) := store pos (of_int value) (grow pos t).
Definition num_setInt64Value (pos value : Z) t : res (prop_table T) := store pos (of_int value) (grow pos t).
Definition num_setFloatValue (pos : Z) (value : spec_float) t : res (prop_table T) :=
  let t := grow pos t in let* v := of_double value in store pos v t.
Definition num_setDoubleValue (pos : Z) (value : spec_float) t : res (prop_table T) :=
  let t := grow pos t in let* v := of_double value in store pos v t.

(** [lexical_cast<T>]: a text that does not convert leaves the (grown) table. *)
Definition num_setStringValue (lexical_cast : string -> option T) (pos : Z) (value : string) t : res (bool * prop_table T) :=
  let t := grow pos t in
  match lexical_cast value with
  | Some v => let* t := store pos v t in Ret (true, t)
  | None => Ret (false, t)
  end.

Definition num_compareValues (lhs rhs : Z) t : res Z := compareValues n_eqb n_ltb lhs rhs t.
End NumericPropertyTable.

(** [numeric_cast<int8_t>] of a 32-bit integer. *)
Definition cast_int8 (v : Z) : res Z :=
  if (- 128 <=? v) && (v <=? 127) then Ret v else Throw "bad_numeric_cast".

(** The specialisation of [setStringValue] to [int8_t] casts to 32 bits first;
    only the exception of the lexical cast is caught. *)
Definition int8_setStringValue (lexical_cast : string -> option Z) (pos : Z) (value : string) (t : prop_table Z)
  : res (bool * prop_table Z) :=
  let t := grow pos t in
  match lexical_cast value with
  | Some v => let* v := cast_int8 v in let* t := store pos v t in Ret (true, t)
  | None => Ret (false, t)
  end.

(** *** Saving: the length and the cells in their memory representation *)
Section File.
Context {V : Type} (sizeof : Z) (bytes : V -> list Z) (of_bytes : list Z -> V) (V0 : V).

Fixpoint le_bytes (n : nat) (z : Z) : list Z :=
  match n with O => [] | S n => z mod 256 :: le_bytes n (z / 256) end.
Fixpoint le_value (l : list Z) : Z :=
  match l with [] => 0 | b :: l => b + 256 * le_value l end.

Definition save_ (t : prop_table V) : list Z :=
  le_bytes 8 (size t) ++ concat (map bytes (data_ t)).

(** The first [n] cells in a sequence of bytes. *)
Fixpoint cells (n : nat) (l : list Z) : list V :=
  match n with
  | O => []
  | S n => of_bytes (take (Z.to_nat sizeof) l) :: cells n (drop (Z.to_nat sizeof) l)
  end.

(** [read] at the end of the file: what is not in it keeps its bytes, the
    length 0, the cells what [resize] left there. *)
Definition load_ (file : list Z) (t : prop_table V) : prop_table V :=
  let len := le_value (take 8 file) in
  let data := vresize len V0 (data_ t) in
  let content := take (Z.to_nat (sizeof * len)) (drop 8 file) in
  set_data (cells (Z.to_nat len) (content ++ drop (length content) (concat (map bytes data)))) t.

(** [file]: what is at the path, if it can be opened. *)
Definition init (path : string) (file : option (list Z)) (t : prop_table V) : prop_table V :=
  let t := Table (type_ t) (dirty_ t) (invalidValue_ t) path (data_ t) in
  match file with Some f => load_ f t | None => t end.

(** The table and the new content of the file, if it is written. *)
Definition flush (can_write : bool) (t : prop_table V) : prop_table V * option (list Z) :=
  if negb (dirty_ t) then (t, None)
  else
    let t := set_dirty false t in
    if String.eqb (path_ t) "" then (t, None)
    else (t, if can_write then Some (save_ t) else None).
End File.

(** ** NumericRangePropertyTable.h *)
Section NumericRangePropertyTable.
Context {T : Type} `{!Number T}.
Implicit Types t : prop_table (T * T).

(** [==] and [<] of std::pair. *)
Definition pair_eqb (a b : T * T) : bool := n_eqb a.1 b.1 && n_eqb a.2 b.2.
Definition pair_ltb (a b : T * T) : bool := n_ltb a.1 b.1 || (negb (n_ltb b.1 a.1) && n_ltb a.2 b.2).

Definition new_range_table (type : PropertyDataType) : prop_table (T * T) := new_table type (n_max, n_max).

Definition range_get {A} (cast : T * T -> res A) (pos : Z) t : res (option A) :=
  let* v := valid_at pair_eqb pos t in
  match v with
  | Some v => let* a := cast v in Ret (Some a)
  | None => Ret None
  end.

Definition range_getInt32Value : Z -> prop_table (T * T) -> res (option Z) := range_get (fun v => to_int 32 v.1).
Definition range_getFloatValue : Z -> prop_table (T * T) -> res (option spec_float) := range_get (fun v => Ret (to_float v.1)).
Definition range_getInt64Value : Z -> prop_table (T * T) -> res (option Z) := range_get (fun v => to_int 64 v.1).
Definition range_getDoubleValue : Z -> prop_table (T * T) -> res (option spec_float) := range_get (fun v => Ret (to_double v.1)).
Definition range_getDoublePairValue : Z -> prop_table (T * T) -> res (option (spec_float * spec_float)) :=
  range_get (fun v => Ret (to_double v.1, to_double v.2)).
Definition range_getInt64PairValue : Z -> prop_table (T * T) -> res (option (Z * Z)) :=
  range_get (fun v => let* a := to_int 64 v.1 in let* b := to_int 64 v.2 in Ret (a, b)).
Definition range_getValue : Z -> prop_table (T * T) -> res (option (T * T)) := range_get Ret.

Definition range_text (to_string : T -> string) (v : T * T) : string :=
  if n_eqb v.1 v.2 then to_string v.1 else (to_string v.1 +:+ "-" +:+ to_string v.2)%string.
Definition range_getStringValue (to_string : T -> string) : Z -> prop_table (T * T) -> res (option string) :=
  range_get (fun v => Ret (range_text to_string v)).

Definition range_setInt32Value (pos value : Z) t : res (prop_table (T * T)) :=
  store pos (of_int value, of_int value) (grow pos t).
Definition range_setInt64Value (pos value : Z) t : res (prop_table (T * T)) :=
  store pos (of_int value, of_int value) (grow pos t).
Definition range_setFloatValue (pos : Z) (value : spec_float) t : res (prop_table (T * T)) :=
  let t := grow pos t in let* v := of_double value in store pos (v, v) t.
Definition range_setDoubleValue (pos : Z) (value : spec_float) t : res (prop_table (T * T)) :=
  let t := grow pos t in let* v := of_double value in store pos (v, v) t.

Definition delimiter (c : ascii) : bool := existsb (Ascii.eqb c) (String.list_ascii_of_string "-~,").

(** find_first_of(delimiters): what is before the first one and after it. *)
Fixpoint split_at (s : string) : option (string * string) :=
  match s with
  | EmptyString => None
  | String c s =>
      if delimiter c then Some (""%string, s)
      else match split_at s with Some (a, b) => Some (String c a, b) | None => None end
  end.

(** [convert] is [lexical_cast<T>], which may throw for [int8_t]. *)
Definition split_numeric (convert : string -> res (option T)) (pattern : string) : res (option (T * T)) :=
  match split_at pattern with
  | None =>
      let* v := convert pattern in Ret (match v with Some v => Some (v, v) | None => None end)
  | Some (a, b) =>
      let* first := convert a in
      match first with
      | None => Ret None
      | Some first =>
          let* second := convert b in
          match second with
          | None => Ret None
          | Some second => Ret (Some (if n_ltb second first then (second, first) else (first, second)))
          end
      end
  end.

(** [convert<int8_t>]. *)
Definition convert_int8 (lexical_cast : string -> option Z) (pattern : string) : res (option Z) :=
  match lexical_cast pattern with
  | Some v => let* v := cast_int8 v in Ret (Some v)
  | None => Ret None
  end.

Definition range_setStringValue (convert : string -> res (option T)) (pos : Z) (value : string) t
  : res (bool * prop_table (T * T)) :=
  let t := grow pos t in
  let* v := split_numeric convert value in
  match v with
  | Some v => let* t := store pos v t in Ret (true, t)
  | None => Ret (false, t)
  end.

Definition range_compareValues (lhs rhs : Z) t : res Z := compareValues pair_eqb pair_ltb lhs rhs t.
End NumericRangePropertyTable.

(** ** Reading what was written *)
Section TableProofs.
Context {V : Type} (veq : V -> V -> bool).
Implicit Types t : prop_table V.

(** What the operations leave alone. *)
Definition same_table t t' : Prop :=
  type_ t' = type_ t /\ invalidValue_ t' = invalidValue_ t /\ path_ t' = path_ t.

(** The value of a document. *)
Definition value_of t (pos : Z) : option V :=
  if pos <? 0 then None
  else match data_ t !! Z.to_nat pos with
  | Some v => if veq v (invalidValue_ t) then None else Some v
  | None => None
  end.

Lemma valid_at_ok pos t : 0 <= pos -> valid_at veq pos t = Ret (value_of t pos).
Proof.
  intros Hp. unfold valid_at, value_of, size. destruct (Z.ltb_spec pos 0); [lia|].
  destruct (Z.leb_spec (vsize (data_ t)) pos) as [H1|H1].
  - rewrite lookup_ge_None_2; [done|]. unfold vsize in H1. lia.
  - destruct (vget_in_range (data_ t) pos) as (v & E); [lia|]. rewrite E. rsimpl.
    apply vget_Ret in E as [_ ->]. done.
Qed.

Lemma store_ok t pos v : 0 <= pos < size t ->
  exists t', store pos v t = Ret t' /\ same_table t t' /\ data_ t' = <[Z.to_nat pos := v]> (data_ t) /\ dirty_ t' = true /\
    forall p, value_of t' p = if p =? pos then (if veq v (invalidValue_ t) then None else Some v) else value_of t p.
Proof.
  intros Hp. unfold store. rewrite vset_Ret by done. rsimpl. eexists. split; [done|]. split; [done|]. split; [done|]. split; [done|].
  intros p. unfold value_of, set_dirty, set_data. cbn [data_ invalidValue_].
  destruct (Z.ltb_spec p 0); [destruct (Z.eqb_spec p pos); [lia|done]|]. unfold size, vsize in Hp.
  destruct (Z.eqb_spec p pos) as [->|Hne].
  - by rewrite list_lookup_insert_eq by lia.
  - by rewrite list_lookup_insert_ne by lia.
Qed.

Context (t0 : prop_table V) (Hinv : veq (invalidValue_ t0) (invalidValue_ t0) = true).

Lemma grow_ok pos : 0 <= pos < 2 ^ 64 - 1 ->
  let t := grow pos t0 in
  same_table t0 t /\ vsize (data_ t) = Z.max (vsize (data_ t0)) (pos + 1) /\ forall p, value_of t p = value_of t0 p.
Proof.
  intros Hp t. subst t. unfold grow, size. destruct (Z.leb_spec (vsize (data_ t0)) pos) as [H|H]; cycle 1.
  { split; [done|]. split; [lia|done]. }
  rewrite u64_small by lia. unfold resize, set_data, vresize. cbn [data_ invalidValue_ type_ path_]. split; [done|].
  pose proof (vsize_nonneg (data_ t0)). unfold vsize in *. rewrite take_ge by lia. split.
  { rewrite length_app, length_replicate. lia. }
  intros p. unfold value_of. cbn [data_ invalidValue_]. destruct (Z.ltb_spec p 0); [done|].
  destruct (decide (Z.to_nat p < length (data_ t0))%nat) as [Hl|Hl].
  - by rewrite lookup_app_l.
  - rewrite lookup_app_r by lia. rewrite (lookup_ge_None_2 (data_ t0)) by lia.
    destruct (replicate _ _ !! _) as [v|] eqn:E; [|done]. apply lookup_replicate in E as [-> _]. by rewrite Hinv.
Qed.

Lemma set_ok pos v : 0 <= pos < 2 ^ 64 - 1 ->
  exists t', setValue pos v t0 = Ret t' /\ same_table t0 t' /\ vsize (data_ t') = Z.max (vsize (data_ t0)) (pos + 1) /\ dirty_ t' = true /\
    forall p, value_of t' p = if p =? pos then (if veq v (invalidValue_ t0) then None else Some v) else value_of t0 p.
Proof.
  intros Hp. destruct (grow_ok pos Hp) as ((E1 & E2 & E3) & Hs & Hv). unfold setValue. set (t := grow pos t0) in *.
  destruct (store_ok t pos v) as (t' & E & (F1 & F2 & F3) & Hd & Hdirty & Hv'); [unfold size; lia|].
  exists t'. split; [done|]. split; [unfold same_table; by rewrite F1, F2, F3|]. split.
  { rewrite Hd. unfold vsize in *. rewrite length_insert. lia. }
  split; [done|]. intros p. by rewrite Hv', Hv, E2.
Qed.
End TableProofs.

(** What is set is read. [setValue] grows the table when it has to, the
    value is read back (unless it is the one that stands for no value) and all
    other documents keep theirs; [clearValue] removes a value and [copyValue]
    copies the value of a document that has one, and changes nothing else. *)
Theorem num_set_get {T} `{!Number T} (t : prop_table T) pos from v :
  n_eqb (invalidValue_ t) (invalidValue_ t) = true -> 0 <= pos < 2 ^ 64 - 1 -> 0 <= from ->
  (exists t', setValue pos v t = Ret t' /\ forall p, 0 <= p ->
    num_getValue p t' = if p =? pos then Ret (if n_eqb v (invalidValue_ t) then None else Some v) else num_getValue p t) /\
  (exists t', clearValue pos t = Ret t' /\ forall p, 0 <= p ->
    num_getValue p t' = if p =? pos then Ret None else num_getValue p t) /\
  (exists t', copyValue n_eqb from pos t = Ret t' /\ forall p, 0 <= p ->
    num_getValue p t' = match num_getValue from t with
                        | Ret None => num_getValue p t
                        | r => if p =? pos then r else num_getValue p t
                        end).
Proof.
  intros Hinv Hpos Hfrom.
  assert (forall (t : prop_table T) p, 0 <= p -> num_getValue p t = Ret (value_of n_eqb t p)) as Hget.
  { intros t1 p Hp. unfold num_getValue, num_get. rewrite valid_at_ok by done. rsimpl. by destruct (value_of _ _ _). }
  pose proof (set_ok n_eqb t Hinv pos) as Hset. split; [|split].
  - destruct (Hset v Hpos) as (t' & E & _ & _ & _ & Hv). exists t'. split; [done|]. intros p Hp.
    rewrite !Hget, Hv by done. by destruct (p =? pos).
  - unfold clearValue. destruct (Z.ltb_spec pos (size t)) as [Hs|Hs].
    + destruct (store_ok n_eqb t pos (invalidValue_ t)) as (t' & E & _ & _ & _ & Hv); [lia|].
      exists t'. split; [done|]. intros p Hp. rewrite !Hget, Hv, Hinv by done. by destruct (p =? pos).
    + exists t. split; [done|]. intros p Hp. rewrite !Hget by done. destruct (Z.eqb_spec p pos) as [->|]; [|done].
      unfold value_of. destruct (Z.ltb_spec pos 0); [done|].
      rewrite lookup_ge_None_2; [done|]. unfold size, vsize in Hs. lia.
  - unfold copyValue. rewrite valid_at_ok, Hget by done. rsimpl. destruct (value_of n_eqb t from) as [u|] eqn:Eu.
    + destruct (Hset u Hpos) as (t' & E & _ & _ & _ & Hv). exists t'. split; [exact E|]. intros p Hp.
      rewrite !Hget, Hv by done. destruct (p =? pos); [|done]. unfold value_of in Eu.
      destruct (from <? 0); [done|]. destruct (_ !! _) as [x|]; [|done]. destruct (n_eqb x _) eqn:Ex; [done|].
      injection Eu as ->. by rewrite Ex.
    + by exists t.
Qed.

Lemma num_set_get_witness :
  n_eqb (Number := int_number 32) (2 ^ 31 - 1) (2 ^ 31 - 1) = true /\ 0 <= 5 < 2 ^ 64 - 1 /\
  exists t', setValue 5 7 (new_table INT32_PROPERTY_TYPE (2 ^ 31 - 1)) = Ret t' /\ forall p, 0 <= p ->
    num_getValue (Number0 := int_number 32) p t' =
      if p =? 5 then Ret (Some 7) else num_getValue (Number0 := int_number 32) p (new_table INT32_PROPERTY_TYPE (2 ^ 31 - 1)).
Proof.
  split; [done|]. split; [lia|].
  exact (proj1 (num_set_get (Number0 := int_number 32) (new_table INT32_PROPERTY_TYPE (2 ^ 31 - 1)) 5 0 7 eq_refl ltac:(lia) ltac:(lia))).
Defined.

(** ** The widths of the stored integers *)

Definition int_bytes (w z : Z) : list Z := le_bytes (Z.to_nat (w / 8)) (z mod 2 ^ w).
Definition int_of_bytes (w : Z) (l : list Z) : Z := swrap w (le_value l).

(** One operation on a table of signed integers of [w] bits. *)
Inductive int_table_op (w : Z) : prop_table Z -> prop_table Z -> Prop :=
| op_setInt32 pos v t t' : num_setInt32Value (Number0 := int_number w) pos v t = Ret t' -> int_table_op w t t'
| op_setInt64 pos v t t' : num_setInt64Value (Number0 := int_number w) pos v t = Ret t' -> int_table_op w t t'
| op_setFloat pos v t t' : num_setFloatValue (Number0 := int_number w) pos v t = Ret t' -> int_table_op w t t'
| op_setDouble pos v t t' : num_setDoubleValue (Number0 := int_number w) pos v t = Ret t' -> int_table_op w t t'
| op_setString cast pos s b t t' : (forall s v, cast s = Some v -> in_width w v) ->
    num_setStringValue cast pos s t = Ret (b, t') -> int_table_op w t t'
| op_setInt8String cast pos s b t t' : w = 8 -> int8_setStringValue cast pos s t = Ret (b, t') -> int_table_op w t t'
| op_setValue pos v t t' : in_width w v -> setValue pos v t = Ret t' -> int_table_op w t t'
| op_copy from to t t' : copyValue Z.eqb from to t = Ret t' -> int_table_op w t t'
| op_clear pos t t' : clearValue pos t = Ret t' -> int_table_op w t t'
| op_resize n t : int_table_op w t (resize n t)
| op_init path file t : int_table_op w t (init (w / 8) (int_bytes w) (int_of_bytes w) 0 path file t)
| op_flush can_write t : int_table_op w t (flush (int_bytes w) can_write t).1.

Section Typed.
Context (w : Z) (Hw : 0 < w).

Definition typed_table (t : prop_table Z) : Prop := in_width w (invalidValue_ t) /\ Forall (in_width w) (data_ t).

Lemma swrap_width z : in_width w (swrap w z).
Proof.
  unfold in_width, swrap. pose proof (Z.mod_pos_bound z (2 ^ w) ltac:(lia)).
  assert (2 ^ w = 2 * 2 ^ (w - 1)) by (rewrite <- Z.pow_succ_r by lia; f_equal; lia).
  destruct (Z.ltb_spec (z mod 2 ^ w) (2 ^ (w - 1))); lia.
Qed.

Lemma swrap_id z : in_width w z -> swrap w z = z.
Proof.
  unfold in_width, swrap. intros H.
  assert (2 ^ w = 2 * 2 ^ (w - 1)) by (rewrite <- Z.pow_succ_r by lia; f_equal; lia).
  destruct (decide (0 <= z)).
  - rewrite Z.mod_small by lia. destruct (Z.ltb_spec z (2 ^ (w - 1))); lia.
  - rewrite (Z.mod_eq z (2 ^ w)) by lia. replace (z / 2 ^ w) with (-1) by (apply (Z.div_unique z _ _ (z + 2 ^ w)); lia).
    destruct (Z.ltb_spec (z - 2 ^ w * -1) (2 ^ (w - 1))); lia.
Qed.

Lemma float_to_int_width f z : float_to_int w f = Ret z -> in_width w z.
Proof.
  unfold float_to_int, in_width. destruct (truncate f) as [y|]; [|done].
  destruct (Z.leb_spec (- 2 ^ (w - 1)) y), (Z.ltb_spec y (2 ^ (w - 1))); cbn; try done. intros [= <-]. lia.
Qed.

Lemma resize_typed n t : typed_table t -> typed_table (resize n t).
Proof.
  intros [Hi Hd]. split; [done|]. unfold resize, set_data, vresize. cbn [data_]. apply Forall_app. split; [by apply Forall_take|].
  by apply Forall_replicate.
Qed.

Lemma grow_typed pos t : typed_table t -> typed_table (grow pos t).
Proof. intros H. unfold grow. destruct (_ <=? _); [by apply resize_typed|done]. Qed.

Lemma store_typed pos v t t' : typed_table t -> in_width w v -> store pos v t = Ret t' -> typed_table t'.
Proof.
  intros [Hi Hd] Hv. unfold store, vset. destruct ((0 <=? pos) && (pos <? vsize (data_ t))); [|done]. cbn [res_bind].
  intros [= <-]. split; [done|]. unfold set_dirty, set_data. cbn [data_]. by apply Forall_insert.
Qed.

Lemma cast_int8_width v v' : cast_int8 v = Ret v' -> in_width 8 v'.
Proof.
  unfold cast_int8, in_width. destruct (Z.leb_spec (-128) v), (Z.leb_spec v 127); cbn; try done. intros [= <-]. lia.
Qed.

Lemma cells_typed sizeof n : forall l, Forall (in_width w) (cells sizeof (int_of_bytes w) n l).
Proof. induction n as [|n IH]; intros l; cbn [cells]; [constructor|]. constructor; [apply swrap_width|apply IH]. Qed.

Lemma op_typed t t' : int_table_op w t t' -> typed_table t -> typed_table t'.
Proof.
  intros Hop Ht. destruct Hop as [pos v t t' E|pos v t t' E|pos v t t' E|pos v t t' E|cast pos s b t t' Hc E|cast pos s b t t' H8 E|pos v t t' Hv E|from to t t' E|pos t t' E|n t|path file t|cw t].
  - eapply store_typed; [by apply grow_typed| |exact E]. apply swrap_width.
  - eapply store_typed; [by apply grow_typed| |exact E]. apply swrap_width.
  - apply bind_Ret_inv in E as (z & Ez & E). eapply store_typed; [by apply grow_typed| |exact E]. exact (float_to_int_width _ _ Ez).
  - apply bind_Ret_inv in E as (z & Ez & E). eapply store_typed; [by apply grow_typed| |exact E]. exact (float_to_int_width _ _ Ez).
  - unfold num_setStringValue in E. destruct (cast s) as [z|] eqn:Ez.
    + apply bind_Ret_inv in E as (t1 & E & [= _ <-]). eapply store_typed; [by apply grow_typed|by eapply Hc|exact E].
    + injection E as _ <-. by apply grow_typed.
  - unfold int8_setStringValue in E. destruct (cast s) as [z|] eqn:Ez.
    + apply bind_Ret_inv in E as (z' & Ez' & E). apply bind_Ret_inv in E as (t1 & E & [= _ <-]).
      eapply store_typed; [by apply grow_typed|rewrite H8; by eapply cast_int8_width|exact E].
    + injection E as _ <-. by apply grow_typed.
  - eapply store_typed; [by apply grow_typed|exact Hv|exact E].
  - unfold copyValue, valid_at in E. destruct (size t <=? from) eqn:Es; cbn [res_bind] in E; [by injection E as <-|].
    unfold vget in E. destruct (from <? 0); [done|]. destruct (data_ t !! _) as [z|] eqn:Ez; [|done]. cbn [res_bind] in E.
    destruct (z =? invalidValue_ t); [by injection E as <-|]. eapply store_typed; [by apply grow_typed| |exact E].
    destruct Ht as [_ Hd]. rewrite Forall_forall in Hd. apply Hd. by eapply list_elem_of_lookup_2.
  - unfold clearValue in E. destruct (pos <? size t); [|by injection E as <-]. eapply store_typed; [done|apply Ht|exact E].
  - by apply resize_typed.
  - unfold init. destruct file as [f|]; [|done]. destruct Ht as [Hi Hd]. split; [done|]. apply cells_typed.
  - unfold flush. destruct (negb (dirty_ t)); [done|]. by destruct (String.eqb _ _).
Qed.

Lemma ops_typed t t' : rtc (int_table_op w) t t' -> typed_table t -> typed_table t'.
Proof. induction 1 as [|t t1 t' H _ IH]; [done|]. intros Ht. by eapply IH, op_typed. Qed.
End Typed.

(** C37: every value in a table of w-bit integers is a w-bit integer. Whatever
    sequence of operations - setting from integers, floating-point numbers or
    texts, copying, clearing, resizing, saving and loading any file - leads from
    a new table to a table, its values are within the bounds of the type, and
    reading them as 64-bit integers gives the stored values. *)
Theorem int_table_typed w type t :
  0 < w <= 64 -> rtc (int_table_op w) (new_table type (2 ^ (w - 1) - 1)) t ->
  Forall (in_width w) (data_ t) /\
  forall pos, 0 <= pos -> num_getInt64Value (Number0 := int_number w) pos t = num_getValue (Number0 := int_number w) pos t.
Proof.
  intros Hw Hop. assert (typed_table w t) as [Hi Hd].
  { eapply ops_typed; [lia|exact Hop|]. assert (in_width w (2 ^ (w - 1) - 1)) as H.
    { unfold in_width. pose proof (Z.pow_pos_nonneg 2 (w - 1)). lia. }
    split; [exact H|]. by constructor. }
  split; [done|]. intros pos Hpos. unfold num_getInt64Value, num_getValue, num_get.
  rewrite valid_at_ok by done. rsimpl. unfold value_of. destruct (pos <? 0); [done|].
  destruct (_ !! _) as [v|] eqn:Ev; [|done]. destruct (n_eqb v (invalidValue_ t)); [done|]. cbn [to_int int_number].
  rewrite swrap_id; [done|lia|]. rewrite Forall_forall in Hd. specialize (Hd v ltac:(by eapply list_elem_of_lookup_2)).
  unfold in_width in *. pose proof (Z.pow_le_mono_r 2 (w - 1) (64 - 1)). lia.
Qed.

Lemma int_table_typed_witness : exists t,
  rtc (int_table_op 8) (new_table INT8_PROPERTY_TYPE (2 ^ (8 - 1) - 1)) t /\ data_ t = [127; -56] /\
  Forall (in_width 8) (data_ t) /\
  forall pos, 0 <= pos -> num_getInt64Value (Number0 := int_number 8) pos t = num_getValue (Number0 := int_number 8) pos t.
Proof.
  eexists. assert (rtc (int_table_op 8) (new_table INT8_PROPERTY_TYPE (2 ^ (8 - 1) - 1))
    (Table INT8_PROPERTY_TYPE true 127 "" [127; -56])) as H.
  { apply rtc_once. apply (op_setInt32 8 1 200). vm_compute. reflexivity. }
  split; [exact H|]. split; [done|]. exact (int_table_typed 8 INT8_PROPERTY_TYPE _ ltac:(lia) H).
Defined.

(** ** Saving and loading *)

Lemma le_value_bytes n : forall z, le_value (le_bytes n z) = z mod 256 ^ Z.of_nat n.
Proof.
  induction n as [|n IH]; intros z; cbn [le_bytes le_value].
  - by rewrite Z.mod_1_r.
  - rewrite IH, Nat2Z.inj_succ, Z.pow_succ_r by lia. by rewrite Z.rem_mul_r by lia.
Qed.

Lemma le_bytes_length n z : length (le_bytes n z) = n.
Proof. revert z. induction n as [|n IH]; intros z; cbn; [done|by rewrite IH]. Qed.

Section Saved.
Context {V : Type} (sizeof : Z) (bytes : V -> list Z) (of_bytes : list Z -> V) (V0 : V) (ok : V -> Prop).
Hypothesis Hsize : 0 <= sizeof.
Hypothesis Hbytes : forall v, vsize (bytes v) = sizeof.
Hypothesis Hof : forall v, ok v -> of_bytes (bytes v) = v.

Lemma cells_bytes l : Forall ok l -> cells sizeof of_bytes (length l) (concat (map bytes l)) = l.
Proof.
  induction 1 as [|v l Hv _ IH]; [done|]. cbn [length cells map concat].
  assert (Z.to_nat sizeof = length (bytes v)) as -> by (rewrite <- (Hbytes v); unfold vsize; lia).
  by rewrite take_app_length, drop_app_length, IH, Hof.
Qed.

Lemma concat_bytes_size l : vsize (concat (map bytes l)) = sizeof * vsize l.
Proof.
  induction l as [|v l IH]; [by rewrite Z.mul_0_r|]. cbn [map concat]. rewrite vsize_app, vsize_cons, IH, Hbytes. lia.
Qed.

Lemma load_save (t t1 : prop_table V) :
  vsize (data_ t) < 2 ^ 64 -> Forall ok (data_ t) ->
  data_ (load_ sizeof bytes of_bytes V0 (save_ bytes t) t1) = data_ t.
Proof.
  intros Hs Hok. unfold load_, save_, set_data. cbn [data_].
  rewrite take_app_length', drop_app_length' by (by rewrite le_bytes_length). rewrite le_value_bytes.
  unfold size. pose proof (vsize_nonneg (data_ t)) as H0. rewrite Z.mod_small by (split; [lia|done]).
  pose proof (concat_bytes_size (data_ t)) as Hc. rewrite <- Hc.
  rewrite (take_ge (concat (map bytes (data_ t)))) by (unfold vsize; lia).
  rewrite drop_ge.
  - rewrite app_nil_r. replace (Z.to_nat (vsize (data_ t))) with (length (data_ t)) by (unfold vsize; lia). by apply cells_bytes.
  - pose proof (concat_bytes_size (vresize (vsize (data_ t)) V0 (data_ t1))) as Hc1.
    assert (vsize (vresize (vsize (data_ t)) V0 (data_ t1)) = vsize (data_ t)) as E.
    { unfold vresize, vsize. rewrite length_app, length_take, length_replicate. lia. }
    rewrite E in Hc1. unfold vsize in *. lia.
Qed.
End Saved.

(** A table of integers survives the program: what a changed table writes to
    its file on [flush] is what any table of the type that opens the file holds
    afterwards. *)
Theorem int_flush_init w t t1 :
  w ∈ [8; 16; 32; 64] -> typed_table w t -> dirty_ t = true -> path_ t <> ""%string -> vsize (data_ t) < 2 ^ 64 ->
  exists t' file, flush (int_bytes w) true t = (t', Some file) /\ dirty_ t' = false /\ data_ t' = data_ t /\
    data_ (init (w / 8) (int_bytes w) (int_of_bytes w) 0 (path_ t) (Some file) t1) = data_ t.
Proof.
  intros Hw [Hi Hd] Hdirty Hpath Hs. unfold flush. rewrite Hdirty. cbn [negb].
  change (path_ (set_dirty false t)) with (path_ t). destruct (String.eqb_spec (path_ t) ""); [done|]. eexists _, _. split; [done|]. split; [done|]. split; [done|].
  change (save_ (int_bytes w) (set_dirty false t)) with (save_ (int_bytes w) t). unfold init.
  assert (0 < w /\ w = 8 * (w / 8) /\ 0 <= w / 8) as (H0 & Hw8 & Hp).
  { set_unfold. destruct Hw as [->|[->|[->|[->|[]]]]]; done. }
  apply (load_save (w / 8) (int_bytes w) (int_of_bytes w) 0 (in_width w)); [| |done|done].
  - intros v. unfold int_bytes, vsize. rewrite le_bytes_length. lia.
  - intros v Hv. unfold int_of_bytes, int_bytes. rewrite le_value_bytes, Z2Nat.id by lia.
    assert (256 ^ (w / 8) = 2 ^ w) as ->.
    { change 256 with (2 ^ 8). rewrite <- Z.pow_mul_r by lia. f_equal. lia. }
    assert (0 < 2 ^ w) by lia.
    rewrite Z.mod_mod by lia. unfold swrap. rewrite Z.mod_mod by lia. by apply swrap_id.
Qed.

Lemma int_flush_init_witness : exists t' file,
  flush (int_bytes 16) true (Table INT16_PROPERTY_TYPE true 32767 "age" [32767; -300; 40]) = (t', Some file) /\
  dirty_ t' = false /\ data_ t' = [32767; -300; 40] /\
  data_ (init (16 / 8) (int_bytes 16) (int_of_bytes 16) 0 "age" (Some file) (new_table INT16_PROPERTY_TYPE 32767)) = [32767; -300; 40].
Proof.
  apply (int_flush_init 16 (Table INT16_PROPERTY_TYPE true 32767 "age" [32767; -300; 40])); [set_solver| |done|done|done].
  split; [done|]. repeat constructor; done.
Defined.

Example file_ex : save_ (int_bytes 16) (Table INT16_PROPERTY_TYPE true 32767 "age" [1; -2]) = [2; 0; 0; 0; 0; 0; 0; 0; 1; 0; 254; 255].
Proof. vm_compute. reflexivity. Qed.

(** ** The order of the values

On numbers that are not NaN, [==] and [<] are those of a total order up to
equality. *)
Class NumberOrder (T : Type) `{!Number T} := {
  n_ok : T -> Prop;
  n_lt : T -> T -> bool;
  n_lt_weak :: StrictWeak n_lt;
  n_ltb_ok : forall a b, n_ok a -> n_ok b -> n_ltb a b = n_lt a b;
  n_eqb_ok : forall a b, n_ok a -> n_ok b -> n_eqb a b = negb (n_lt a b) && negb (n_lt b a)
}.

#[program] Definition int_order w : NumberOrder (Number0 := int_number w) Z :=
  {| n_ok := fun _ => True; n_lt := Z.ltb; n_lt_weak := StrictWeak_key (fun z => z) |}.
Next Obligation. done. Qed.
Next Obligation. intros w a b _ _. cbn. lia. Qed.

Lemma feq_klt a b : is_num a = true -> is_num b = true -> feq a b = negb (klt a b) && negb (klt b a).
Proof.
  intros Ha Hb. rewrite <- !klt_flt by done. destruct (flt a b) eqn:E1; [by rewrite (flt_neq a b)|].
  destruct (flt b a) eqn:E2; [rewrite feq_sym; by rewrite (flt_neq b a)|]. by apply flt_total.
Qed.

Definition double_order : NumberOrder (Number0 := double_number) spec_float :=
  Build_NumberOrder _ double_number (fun f => is_num f = true) klt (klt_weak (fun f => f)) klt_flt feq_klt.
Definition float_order : NumberOrder (Number0 := float_number) spec_float :=
  Build_NumberOrder _ float_number (fun f => is_num f = true) klt (klt_weak (fun f => f)) klt_flt feq_klt.

Section Extremes.
Context {T : Type} `{!Number T, !NumberOrder T}.
Implicit Types (t : prop_table T).

(** The elements that [last] holds on after all others. *)
Lemma last_weak {A} (last : A -> bool) (lt : A -> A -> bool) :
  StrictWeak lt -> StrictWeak (fun x y => if last x then false else if last y then true else lt x y).
Proof.
  intros H. split; intros a; [|intros b c..]; [by destruct (last a); [|apply sw_irrefl]| |].
  - destruct (last a), (last b), (last c); try done. apply sw_trans.
  - destruct (last a), (last b), (last c); try done. apply sw_incomp.
Qed.

Lemma min_fold (lt lt' : T -> T -> bool) l : forall x, StrictWeak lt' ->
  (forall a b, a ∈ x :: l -> b ∈ x :: l -> lt a b = lt' a b) ->
  let m := foldl (fun result y => if lt y result then y else result) x l in
  m ∈ x :: l /\ forall y, y ∈ x :: l -> lt' y m = false.
Proof.
  induction l as [|y l IH]; intros x Hw Hag; cbn [foldl].
  - split; [by left|]. intros y ->%list_elem_of_singleton. apply sw_irrefl.
  - rewrite Hag by set_solver. destruct (lt' y x) eqn:E.
    + destruct (IH y Hw) as [Hin Hm]; [intros; apply Hag; by right|]. split; [by right|].
      intros z [->|Hz]%elem_of_cons; [|by apply Hm].
      specialize (Hm y ltac:(by left)). destruct (lt' x _) eqn:E2; [|done].
      by rewrite (sw_trans _ _ _ E E2) in Hm.
    + destruct (IH x Hw) as [Hin Hm]; [intros; apply Hag; set_solver|]. split; [set_solver|].
      intros z Hz. apply elem_of_cons in Hz as [->|Hz]; [by apply Hm; left|].
      apply elem_of_cons in Hz as [->|Hz]; [|by apply Hm; right].
      apply (sw_incomp _ x); [apply Hm; by left|done].
Qed.

Definition invalid t (v : T) : bool := n_eqb v (invalidValue_ t).

(** [v] is a value of the table. *)
Definition has_value t (v : T) : Prop := exists p, 0 <= p /\ num_getValue p t = Ret (Some v).

Lemma has_value_elem t v : has_value t v <-> v ∈ data_ t /\ invalid t v = false.
Proof.
  assert (forall p, 0 <= p -> num_getValue p t = Ret (value_of n_eqb t p)) as Hget.
  { intros p Hp. unfold num_getValue, num_get. rewrite valid_at_ok by done. rsimpl. by destruct (value_of _ _ _). }
  unfold has_value, invalid. split.
  - intros (p & Hp & E). rewrite Hget in E by done. unfold value_of in E. destruct (p <? 0); [done|].
    destruct (_ !! _) as [x|] eqn:Ex; [|done]. destruct (n_eqb x _) eqn:Ev; [done|]. injection E as ->.
    split; [by eapply list_elem_of_lookup_2|done].
  - intros [(i & Hi)%list_elem_of_lookup_1 Ev]. exists (Z.of_nat i). split; [lia|]. rewrite Hget by lia.
    unfold value_of. destruct (Z.ltb_spec (Z.of_nat i) 0); [lia|]. rewrite Nat2Z.id, Hi. by rewrite Ev.
Qed.

Lemma min_valid (lt : T -> T -> bool) t x l m : StrictWeak lt ->
  m ∈ x :: l -> data_ t = x :: l ->
  (forall y, y ∈ x :: l -> (if invalid t y then false else if invalid t m then true else lt y m) = false) ->
  if invalid t m then forall v, ~ has_value t v
  else has_value t m /\ forall v, has_value t v -> lt v m = false.
Proof.
  intros Hw Hin Hd Hm. destruct (invalid t m) eqn:Em.
  - intros v [Hv Ev]%has_value_elem. rewrite Hd in Hv. specialize (Hm v Hv). by rewrite Ev in Hm.
  - split; [apply has_value_elem; by rewrite Hd|]. intros v [Hv Ev]%has_value_elem. rewrite Hd in Hv. specialize (Hm v Hv).
    by rewrite Ev in Hm.
Qed.
End Extremes.

(** The least and the greatest value of a table of numbers. When no stored
    value is NaN, [getFloatMinValue] and [getFloatMaxValue] fail exactly if no
    document has a value, and otherwise answer a value of some document that no
    value is below, or above, as a [float]; cells without value are ignored
    although their marker may be the greatest number. *)
Theorem float_extremes {T} `{!Number T, !NumberOrder T} (t : prop_table T) :
  Forall n_ok (data_ t) -> n_ok (invalidValue_ t) ->
  match getFloatMinValue t with
  | Some f => exists m, has_value t m /\ f = to_float m /\ forall v, has_value t v -> n_lt v m = false
  | None => forall v, ~ has_value t v
  end /\
  match getFloatMaxValue t with
  | Some f => exists m, has_value t m /\ f = to_float m /\ forall v, has_value t v -> n_lt m v = false
  | None => forall v, ~ has_value t v
  end.
Proof.
  intros Hd Hi. rewrite Forall_forall in Hd. unfold getFloatMinValue, getFloatMaxValue.
  destruct (data_ t) as [|x l] eqn:E; cbn [min_element max_element].
  { split; intros v [Hv _]%has_value_elem; rewrite E in Hv; by apply elem_of_nil in Hv. }
  assert (forall lt a b, (forall a b, n_ok a -> n_ok b -> n_ltb a b = lt a b) -> a ∈ x :: l -> b ∈ x :: l ->
    InvalidGreat (invalidValue_ t) a b = (if invalid t a then false else if invalid t b then true else lt a b)) as Hag.
  { intros lt a b Hlt Ha Hb. unfold InvalidGreat, invalid. rewrite Hlt by auto. done. }
  split.
  - destruct (min_fold (InvalidGreat (invalidValue_ t)) _ l x (last_weak (invalid t) n_lt n_lt_weak)) as [Hin Hm].
    { intros a b Ha Hb. apply (Hag n_lt); [exact n_ltb_ok|done..]. }
    set (m := foldl _ x l) in *. pose proof (min_valid n_lt t x l m n_lt_weak Hin E Hm) as H.
    unfold invalid in H. destruct (n_eqb m _); [done|]. destruct H as [H1 H2]. by exists m.
  - destruct (min_fold (fun a b => InvalidLess (invalidValue_ t) b a) _ l x (last_weak (invalid t) _ (flip_weak _ n_lt_weak))) as [Hin Hm].
    { intros a b Ha Hb. unfold InvalidLess, invalid. by rewrite n_ltb_ok by auto. }
    cbv beta in Hin, Hm. set (m := foldl _ x l) in *. pose proof (min_valid _ t x l m (flip_weak _ n_lt_weak) Hin E Hm) as H.
    cbv beta in H. unfold invalid in H. destruct (n_eqb m _); [done|]. destruct H as [H1 H2]. by exists m.
Qed.

Definition prices : prop_table spec_float :=
  Table FLOAT_PROPERTY_TYPE false FLT_MAX "" [FLT_MAX; dbl 5 (-1); FLT_MAX; dbl 9 0].

Lemma float_extremes_witness :
  getFloatMinValue (Number0 := float_number) prices = Some (dbl 5 (-1)) /\
  exists m, has_value (Number0 := float_number) prices m /\ dbl 5 (-1) = m /\
    forall v, has_value (Number0 := float_number) prices v -> klt v m = false.
Proof.
  split; [vm_compute; reflexivity|].
  refine (proj1 (float_extremes (Number0 := float_number) (NumberOrder0 := float_order) prices _ _)); [|done].
  repeat constructor; done.
Defined.

(** ** The virtual interface

What the clients of NumericPropertyTableBase.h call. *)
Record NumericPropertyTableBase := TableBase {
  base_type : PropertyDataType;
  base_size : Z;
  base_getInt32Value : Z -> res (option Z);
  base_getFloatValue : Z -> res (option spec_float);
  base_getInt64Value : Z -> res (option Z);
  base_getDoubleValue : Z -> res (option spec_float);
  base_compareValues : Z -> Z -> res Z
}.

Definition num_base {T} `{!Number T} (t : prop_table T) : NumericPropertyTableBase :=
  TableBase (type_ t) (size t) (fun d => num_getInt32Value d t) (fun d => num_getFloatValue d t)
    (fun d => num_getInt64Value d t) (fun d => num_getDoubleValue d t) (fun l r => num_compareValues l r t).

Definition range_base {T} `{!Number T} (t : prop_table (T * T)) : NumericPropertyTableBase :=
  TableBase (type_ t) (size t) (fun d => range_getInt32Value d t) (fun d => range_getFloatValue d t)
    (fun d => range_getInt64Value d t) (fun d => range_getDoubleValue d t) (fun l r => range_compareValues l r t).

(** The comparison of two documents that have values, by a weak order. *)
Definition three_way {A} (lt : A -> A -> bool) (a b : A) : Z := if lt a b then -1 else if lt b a then 1 else 0.

Lemma compareValues_ok {V} (veq vlt : V -> V -> bool) (t : prop_table V) lhs rhs u v :
  0 <= lhs -> 0 <= rhs -> value_of veq t lhs = Some u -> value_of veq t rhs = Some v ->
  compareValues veq vlt lhs rhs t = Ret (three_way vlt u v).
Proof.
  intros Hl Hr. unfold value_of. destruct (Z.ltb_spec lhs 0); [lia|]. destruct (Z.ltb_spec rhs 0); [lia|].
  destruct (data_ t !! Z.to_nat lhs) as [x|] eqn:Ex; [|done]. destruct (veq x _) eqn:Eu; [done|]. intros [= ->].
  destruct (data_ t !! Z.to_nat rhs) as [y|] eqn:Ey; [|done]. destruct (veq y _) eqn:Ev; [done|]. intros [= ->].
  unfold compareValues. rewrite (proj2 (vget_Ret _ _ _) (conj Hl Ex)). rsimpl. rewrite Eu.
  rewrite (proj2 (vget_Ret _ _ _) (conj Hr Ey)). rsimpl. rewrite Ev. done.
Qed.

Section Compare.
Context {T : Type} `{!Number T, !NumberOrder T}.

(** The order of the pairs. *)
Definition pair_lt (a b : T * T) : bool := n_lt a.1 b.1 || (negb (n_lt b.1 a.1) && n_lt a.2 b.2).

Lemma pair_lt_weak : StrictWeak pair_lt.
Proof. exact (lex_weak _ _ (on_weak fst _ n_lt_weak) (on_weak snd _ n_lt_weak)). Qed.
End Compare.
