(* ===== verification/RTypeTable.v ===== *)
(** * Tables of string properties

Models common/RTypeStringPropTable.h: the strings of the documents in an array
of the Luxio library, mirrored in memory once a query sorts by them. The array
is not part of the repository: it is a class of its operations, with the laws
its documentation gives. The lock is not modelled: an operation is one step. *)
From Stdlib Require Import Ascii String.
From S2P Require Import Prelude PQueue OrdMap GroupParam NumTable.

(** ** Lux::IO::Array

[get] answers the stored bytes; [put] appends to them, or replaces them. *)
Inductive insert_mode := APPEND | OVERWRITE.

Class LuxArray (D : Type) := {
  lux_get : Z -> D -> option string;
  lux_put : Z -> string -> insert_mode -> D -> bool * D;
  lux_del : Z -> D -> bool * D
}.

Class LuxArrayLaws (D : Type) `{!LuxArray D} := {
  lux_put_get : forall k v m d k', lux_get k' (lux_put k v m d).2 =
    if k' =? k then Some (match m, lux_get k d with APPEND, Some old => (old +:+ v)%string | _, _ => v end) else lux_get k' d;
  lux_put_ok : forall k v m d, (lux_put k v m d).1 = true;
  lux_del_get : forall k d k', lux_get k' (lux_del k d).2 = if k' =? k then None else lux_get k' d
}.

(** An array that keeps its bytes in a map. *)
#[export] Instance map_lux : LuxArray (gmap Z string) := {|
  lux_get k d := d !! k;
  lux_put k v m d := (true, <[k := match m, d !! k with APPEND, Some old => (old +:+ v)%string | _, _ => v end]> d);
  lux_del k d := (bool_decide (is_Some (d !! k)), delete k d)
|}.

#[export] Instance map_lux_laws : LuxArrayLaws (gmap Z string).
Proof.
  split; cbn.
  - intros k v m d k'. destruct (Z.eqb_spec k' k) as [->|H]; [by rewrite lookup_insert_eq|by rewrite lookup_insert_ne].
  - done.
  - intros k d k'. destruct (Z.eqb_spec k' k) as [->|H]; [by rewrite lookup_delete_eq|by rewrite lookup_delete_ne].
Qed.

(** ** The table *)
Record RTypeStringPropTable (D : Type) := RTable {
  rt_type : PropertyDataType;
  rt_data : D;
  dataInMem_ : list string;
  sortEnabled_ : bool;
  maxDocId_ : Z
}.
Arguments RTable {_} _ _ _ _ _.
Arguments rt_type {_} _.
Arguments rt_data {_} _.
Arguments dataInMem_ {_} _.
Arguments sortEnabled_ {_} _.
Arguments maxDocId_ {_} _.

Definition empty_string (s : string) : bool := match s with EmptyString => true | _ => false end.

(** [sizeof(maxDocId_)] bytes, as they are in memory. *)
Definition id_bytes (z : Z) : string := string_of_list_ascii (map (fun b => ascii_of_N (Z.to_N b)) (le_bytes 4 z)).
Definition id_of_bytes (s : string) : Z := le_value (map (fun c => Z.of_N (N_of_ascii c)) (list_ascii_of_string s)).

Section RType.
Context {D : Type} `{!LuxArray D}.
Implicit Types t : RTypeStringPropTable D.

(** The array that the constructor makes is still closed. *)
Definition new_rtype_table (type : PropertyDataType) (d : D) : RTypeStringPropTable D := RTable type d [] false 0.

Definition exist (docId : Z) t : bool := match lux_get docId (rt_data t) with Some _ => true | None => false end.

Definition rt_put (k : Z) (v : string) t : bool * RTypeStringPropTable D :=
  let flag := if exist k t then OVERWRITE else APPEND in
  let (ok, d) := lux_put k v flag (rt_data t) in
  (ok, RTable (rt_type t) d (dataInMem_ t) (sortEnabled_ t) (maxDocId_ t)).

(** [flush]: the greatest id is stored as the string of document 0. *)
Definition rt_flush t : RTypeStringPropTable D := (rt_put 0 (id_bytes (maxDocId_ t)) t).2.

(** std::size_t of an unsigned int sum *)
Definition rt_size t : Z := u32 (maxDocId_ t + 1).

Definition getRTypeString (docId : Z) t : option string :=
  match lux_get docId (rt_data t) with
  | Some v => if empty_string v then None else Some v
  | None => None
  end.

(** [load_]: a vector with the strings of the documents up to [maxDocId_]. *)
Definition rt_load t : list string :=
  map (fun docId => default ""%string (getRTypeString docId t)) (seqZ 0 (maxDocId_ t + 1)).

Definition enableSort t : RTypeStringPropTable D :=
  if sortEnabled_ t then t
  else RTable (rt_type t) (rt_data t) (rt_load t) true (maxDocId_ t).

(** [init] on the content of the file: false when it is a new one. *)
Definition rt_init (d : D) t : bool * RTypeStringPropTable D :=
  let t := RTable (rt_type t) d (dataInMem_ t) (sortEnabled_ t) (maxDocId_ t) in
  match lux_get 0 d with
  | None => (false, t)
  | Some v =>
      if negb (Z.of_nat (String.length v) =? 4) then (false, t)
      else (true, RTable (rt_type t) d (dataInMem_ t) (sortEnabled_ t) (id_of_bytes v))
  end.

Definition delRTypeString (docId : Z) t : bool * RTypeStringPropTable D :=
  let (ok, d) := lux_del docId (rt_data t) in
  (ok, RTable (rt_type t) d (dataInMem_ t) (sortEnabled_ t) (maxDocId_ t)).

Definition updateRTypeString (docId : Z) (rtype_value : string) t : res (bool * RTypeStringPropTable D) :=
  if empty_string rtype_value then Ret (false, t)
  else
    let* mem :=
      (if sortEnabled_ t then
         let mem := if vsize (dataInMem_ t) <=? docId then vresize (u32 (docId + 1)) ""%string (dataInMem_ t) else dataInMem_ t in
         vset mem docId rtype_value
       else Ret (dataInMem_ t)) in
    let maxDocId := if maxDocId_ t <? docId then docId else maxDocId_ t in
    Ret (rt_put docId rtype_value (RTable (rt_type t) (rt_data t) mem (sortEnabled_ t) maxDocId)).

Definition rt_copyValue (docId_from docId_to : Z) t : res (bool * RTypeStringPropTable D) :=
  match getRTypeString docId_from t with
  | Some result => updateRTypeString docId_to result t
  | None => Ret (false, t)
  end.

Definition string_lt (a b : string) : bool := match tcompare a b with Lt => true | _ => false end.

Lemma string_lt_weak : StrictWeak string_lt.
Proof.
  assert (forall a b, string_lt a b = true <-> tlt a b) as Ht by (intros a b; unfold string_lt, tlt; by destruct (tcompare a b)).
  assert (forall a b, string_lt a b = false -> tlt b a \/ b = a) as Hf.
  { intros a b. unfold string_lt, tlt. destruct (tcompare a b) eqn:E; [right; by apply tcompare_eq in E|done|left; by apply tcompare_gt]. }
  split; intros a; [|intros b c..].
  - unfold string_lt. by rewrite tcompare_refl.
  - rewrite !Ht. apply tlt_trans.
  - intros [H1| ->]%Hf [H2| ->]%Hf; apply not_true_is_false; rewrite Ht; intros H3; destruct (tlt_irrefl c); eauto using tlt_trans.
Qed.

Definition rt_compareValues (lhs rhs : Z) t : res Z :=
  if (maxDocId_ t <? lhs) || (maxDocId_ t <? rhs) then Ret (-1)
  else
    let* lv := vget (dataInMem_ t) lhs in
    if empty_string lv then Ret (-1)
    else
      let* rv := vget (dataInMem_ t) rhs in
      if empty_string rv then Ret 1
      else Ret (if string_lt lv rv then -1 else if string_lt rv lv then 1 else 0).

(** ** The copy in memory

What sorting uses is what the array holds. *)
Definition mirrored t : Prop :=
  0 <= maxDocId_ t < 2 ^ 32 - 1 /\
  (sortEnabled_ t = true -> vsize (dataInMem_ t) = maxDocId_ t + 1 /\
     forall d, 0 < d <= maxDocId_ t -> vget (dataInMem_ t) d = Ret (default ""%string (getRTypeString d t))) /\
  forall d, maxDocId_ t < d -> getRTypeString d t = None.

Context `{!LuxArrayLaws D}.

Lemma rt_put_get k v t d : v <> ""%string ->
  getRTypeString d (rt_put k v t).2 = if d =? k then Some v else getRTypeString d t.
Proof.
  intros Hv. unfold rt_put, getRTypeString, exist.
  pose proof (lux_put_get k v (if match lux_get k (rt_data t) with Some _ => true | None => false end then OVERWRITE else APPEND) (rt_data t) d) as E.
  destruct (lux_put k v _ (rt_data t)) as [ok d']. cbn [snd rt_data] in *. rewrite E. destruct (d =? k); [|done].
  destruct (lux_get k (rt_data t)); cbn [default]; by destruct v.
Qed.

Lemma rt_put_fields k v t :
  (rt_put k v t).1 = true /\ maxDocId_ (rt_put k v t).2 = maxDocId_ t /\ dataInMem_ (rt_put k v t).2 = dataInMem_ t /\
  sortEnabled_ (rt_put k v t).2 = sortEnabled_ t /\ rt_type (rt_put k v t).2 = rt_type t.
Proof.
  unfold rt_put. pose proof (lux_put_ok k v (if exist k t then OVERWRITE else APPEND) (rt_data t)).
  destruct (lux_put _ _ _ _) as [ok d]. done.
Qed.
End RType.

Lemma id_bytes_roundtrip z : 0 <= z < 2 ^ 32 -> id_of_bytes (id_bytes z) = z /\ String.length (id_bytes z) = 4%nat.
Proof.
  intros Hz. unfold id_of_bytes, id_bytes. rewrite list_ascii_of_string_of_list_ascii, map_map. split.
  - rewrite <- (Z.mod_small z (2 ^ 32)) at 2 by done. change (2 ^ 32) with (256 ^ Z.of_nat 4). rewrite <- le_value_bytes. f_equal.
    rewrite <- (map_id (le_bytes 4 z)) at 2. apply map_ext_in. intros b Hb.
    assert (forall n z b, In b (le_bytes n z) -> 0 <= b < 256) as Hr.
    { clear. intros n. induction n as [|n IH]; intros z b; cbn; [done|]. intros [<-|H]; [|by eapply IH].
      by apply Z.mod_pos_bound. }
    apply Hr in Hb. rewrite N_ascii_embedding by lia. by rewrite Z2N.id by lia.
  - done.
Qed.

Section Mirror.
Context {D : Type} `{!LuxArray D, !LuxArrayLaws D}.
Implicit Types t : RTypeStringPropTable D.

Lemma update_ok docId v t : mirrored t -> 0 < docId < 2 ^ 32 - 1 -> v <> ""%string ->
  exists t', updateRTypeString docId v t = Ret (true, t') /\ mirrored t' /\ sortEnabled_ t' = sortEnabled_ t /\
    forall d, getRTypeString d t' = if d =? docId then Some v else getRTypeString d t.
Proof.
  intros (Hm & Hmem & Hbeyond) Hd Hv. unfold updateRTypeString. assert (empty_string v = false) as -> by (by destruct v).
  assert (exists mem, (if sortEnabled_ t then
      vset (if vsize (dataInMem_ t) <=? docId then vresize (u32 (docId + 1)) ""%string (dataInMem_ t) else dataInMem_ t) docId v
    else Ret (dataInMem_ t)) = Ret mem /\
    (sortEnabled_ t = true -> vsize mem = Z.max (maxDocId_ t) docId + 1 /\
       forall d, 0 < d <= Z.max (maxDocId_ t) docId -> vget mem d = if d =? docId then Ret v else Ret (default ""%string (getRTypeString d t))))
    as (mem & -> & Hmem').
  { destruct (sortEnabled_ t); [|by exists (dataInMem_ t)]. destruct (Hmem eq_refl) as [Hs Hg]. rewrite u32_small by lia.
    set (mem := if _ <=? docId then _ else _).
    assert (vsize mem = Z.max (maxDocId_ t) docId + 1 /\
      forall d, 0 < d <= Z.max (maxDocId_ t) docId -> d <> docId -> vget mem d = Ret (default ""%string (getRTypeString d t))) as [Hms Hmg].
    { subst mem. destruct (Z.leb_spec (vsize (dataInMem_ t)) docId) as [Hle|Hlt]; [|split; [lia|intros d H1 H2; apply Hg; lia]].
      unfold vresize. unfold vsize in Hs, Hle. rewrite take_ge by lia. split.
      { unfold vsize. rewrite length_app, length_replicate. lia. }
      intros d H1 H2. destruct (Z.le_gt_cases d (maxDocId_ t)) as [H3|H3].
      - rewrite vget_app_l by (unfold vsize; lia). apply Hg. lia.
      - rewrite Hbeyond by lia. apply vget_Ret. split; [lia|]. rewrite lookup_app_r by lia. apply lookup_replicate_2. lia. }
    rewrite vset_Ret by lia. eexists. split; [done|]. intros _. split.
    { unfold vsize in *. rewrite length_insert. done. }
    intros d H1. destruct (Z.eqb_spec d docId) as [->|H2].
    - apply vget_Ret. split; [lia|]. apply list_lookup_insert_eq. unfold vsize in Hms. lia.
    - specialize (Hmg d H1 H2). apply vget_Ret in Hmg as [H3 Hl]. apply vget_Ret. split; [done|].
      rewrite list_lookup_insert_ne by lia. done. }
  rsimpl. set (t1 := RTable _ _ mem _ _). pose proof (rt_put_fields docId v t1) as (Hok & Hmax & Hmem1 & Hsort & _).
  pose proof (rt_put_get docId v t1) as Hget.
  destruct (rt_put docId v t1) as [ok t']. cbn [fst snd] in *. subst ok t1. cbn [maxDocId_ dataInMem_ sortEnabled_] in *.
  exists t'. split; [done|].
  assert (forall d, getRTypeString d t' = if d =? docId then Some v else getRTypeString d t) as Hg.
  { intros d. rewrite Hget by done. reflexivity. }
  assert (maxDocId_ t' = Z.max (maxDocId_ t) docId) as Hmax' by (rewrite Hmax; destruct (Z.ltb_spec (maxDocId_ t) docId); lia).
  split; [|done]. unfold mirrored. rewrite Hmax', Hsort, Hmem1. split; [lia|]. split.
  - intros Hs. destruct (Hmem' Hs) as [H1 H2]. split; [done|]. intros d Hd'. rewrite Hg, H2 by done. by destruct (d =? docId).
  - intros d Hd'. rewrite Hg. destruct (Z.eqb_spec d docId); [lia|]. apply Hbeyond. lia.
Qed.

Lemma enableSort_ok t : mirrored t -> mirrored (enableSort t) /\ sortEnabled_ (enableSort t) = true /\
  forall d, getRTypeString d (enableSort t) = getRTypeString d t.
Proof.
  intros Hmir. unfold enableSort. destruct (sortEnabled_ t) eqn:E; [done|]. destruct Hmir as (Hm & Hmem & Hbeyond).
  split; [|done]. split; [done|]. split; [|done]. intros _. cbn [dataInMem_ maxDocId_]. unfold rt_load. split.
  - unfold vsize. rewrite length_map, length_seqZ. lia.
  - intros d Hd. apply vget_Ret. split; [lia|]. rewrite list_lookup_fmap, lookup_seqZ_lt by lia. cbn. f_equal.
    rewrite Z2Nat.id by lia. done.
Qed.

Lemma flush_ok t : mirrored t -> mirrored (rt_flush t) /\ sortEnabled_ (rt_flush t) = sortEnabled_ t /\
  forall d, 0 < d -> getRTypeString d (rt_flush t) = getRTypeString d t.
Proof.
  intros (Hm & Hmem & Hbeyond). unfold rt_flush.
  destruct (id_bytes_roundtrip (maxDocId_ t)) as [_ Hlen]; [lia|].
  assert (id_bytes (maxDocId_ t) <> ""%string) as Hne by (intros E; by rewrite E in Hlen).
  pose proof (rt_put_fields 0 (id_bytes (maxDocId_ t)) t) as (_ & Hmax & Hmem1 & Hsort & _).
  assert (forall d, 0 < d -> getRTypeString d (rt_put 0 (id_bytes (maxDocId_ t)) t).2 = getRTypeString d t) as Hg.
  { intros d Hd. rewrite rt_put_get by done. destruct (Z.eqb_spec d 0); [lia|done]. }
  split; [|done]. unfold mirrored. rewrite Hmax, Hsort, Hmem1. split; [done|]. split.
  - intros Hs. destruct (Hmem Hs) as [H1 H2]. split; [done|]. intros d Hd. rewrite Hg by lia. by apply H2.
  - intros d Hd. rewrite Hg by lia. by apply Hbeyond.
Qed.

(** Closing the program after a flush and opening the file again. *)
Definition reopen t : bool * RTypeStringPropTable D := rt_init (rt_data (rt_flush t)) (new_rtype_table (rt_type t) (rt_data t)).

Lemma reopen_ok t : mirrored t -> exists t', reopen t = (true, t') /\ mirrored t' /\ maxDocId_ t' = maxDocId_ t /\
  forall d, 0 < d -> getRTypeString d t' = getRTypeString d t.
Proof.
  intros Hmir. pose proof (flush_ok t Hmir) as (_ & _ & Hg). destruct Hmir as (Hm & Hmem & Hbeyond).
  destruct (id_bytes_roundtrip (maxDocId_ t)) as [Hid Hlen]; [lia|].
  assert (lux_get 0 (rt_data (rt_flush t)) = Some (id_bytes (maxDocId_ t))) as E.
  { assert (id_bytes (maxDocId_ t) <> ""%string) as Hne by (intros E; by rewrite E in Hlen).
    pose proof (rt_put_get 0 (id_bytes (maxDocId_ t)) t 0 Hne) as H. rewrite Z.eqb_refl in H. unfold getRTypeString in H.
    unfold rt_flush. destruct (lux_get 0 _) as [s|]; [|done]. by destruct (empty_string s). }
  unfold reopen, rt_init. cbn [new_rtype_table rt_type dataInMem_ sortEnabled_ maxDocId_]. rewrite E, Hlen. cbn [Z.eqb negb].
  change (Z.of_nat 4 =? 4) with true. cbn [negb]. rewrite Hid. eexists. split; [done|].
  split; [|split; [done|intros d Hd; by apply Hg]]. split; [done|]. split; [done|].
  intros d Hd. cbn [maxDocId_] in Hd. transitivity (getRTypeString d (rt_flush t)); [done|]. rewrite Hg by lia. by apply Hbeyond.
Qed.

Lemma stored_in_range t d w : mirrored t -> getRTypeString d t = Some w -> d <= maxDocId_ t /\ empty_string w = false.
Proof.
  intros (_ & _ & Hbeyond) E. split; [apply Z.le_ngt; intros H; by rewrite Hbeyond in E|]. unfold getRTypeString in E.
  destruct (lux_get d _) as [x|]; [|done]. destruct (empty_string x) eqn:Ex; [done|]. by injection E as <-.
Qed.

Lemma rt_compare_ok t l r u v : mirrored t -> sortEnabled_ t = true -> 0 < l -> 0 < r ->
  getRTypeString l t = Some u -> getRTypeString r t = Some v -> rt_compareValues l r t = Ret (three_way string_lt u v).
Proof.
  intros Hm Hsort Hl Hr Eu Ev. destruct (stored_in_range t l u Hm Eu) as [Hl' Hu], (stored_in_range t r v Hm Ev) as [Hr' Hv].
  destruct Hm as (_ & Hmem & _). destruct (Hmem Hsort) as [_ Hg]. unfold rt_compareValues.
  destruct (Z.ltb_spec (maxDocId_ t) l); [lia|]. destruct (Z.ltb_spec (maxDocId_ t) r); [lia|]. cbn [orb].
  rewrite !Hg by lia. rewrite Eu, Ev. cbn [default from_option id res_bind]. by rewrite Hu, Hv.
Qed.

(** The operations of a running system, deleting excepted. *)
Inductive rtype_op : RTypeStringPropTable D -> RTypeStringPropTable D -> Prop :=
| op_update d v t t' b : 0 < d < 2 ^ 32 - 1 -> updateRTypeString d v t = Ret (b, t') -> rtype_op t t'
| op_rcopy from to t t' b : 0 < to < 2 ^ 32 - 1 -> rt_copyValue from to t = Ret (b, t') -> rtype_op t t'
| op_enableSort t : rtype_op t (enableSort t)
| op_rflush t : rtype_op t (rt_flush t)
| op_reopen t : rtype_op t (reopen t).2.

Lemma update_any d v t t' b : mirrored t -> 0 < d < 2 ^ 32 - 1 -> updateRTypeString d v t = Ret (b, t') -> mirrored t'.
Proof.
  intros Hm Hd E. destruct (decide (v = ""%string)) as [->|Hv].
  - cbn in E. by injection E as _ <-.
  - destruct (update_ok d v t Hm Hd Hv) as (t1 & E1 & H1 & _). rewrite E1 in E. by injection E as _ <-.
Qed.

Lemma rtype_ops_mirrored t t' : rtc rtype_op t t' -> mirrored t -> mirrored t'.
Proof.
  induction 1 as [|t t1 t' Hop _ IH]; [done|]. intros Hm. apply IH. destruct Hop as [d v t t1 b Hd E|from to t t1 b Hd E|t|t|t].
  - by eapply update_any.
  - unfold rt_copyValue in E. destruct (getRTypeString from t); [by eapply update_any|by injection E as _ <-].
  - by apply enableSort_ok.
  - by apply flush_ok.
  - by destruct (reopen_ok t Hm) as (t1 & -> & H & _).
Qed.

Lemma new_mirrored type d : (forall k, lux_get k d = None) -> mirrored (new_rtype_table type d).
Proof.
  intros Hd. split; [done|]. split; [done|]. intros k _. unfold getRTypeString. cbn [new_rtype_table rt_data]. by rewrite Hd.
Qed.
End Mirror.

(** C38: sorting by a string property sorts by what is stored. After any sequence
    of updates, copies, flushes, reopening of the file and enabling the sort,
    starting with an empty array, the comparison of two documents that have
    strings is the comparison of the strings the array holds for them, and
    every further update is found by reading and by comparing. *)
Theorem rtype_compare_stored {D} `{!LuxArray D, !LuxArrayLaws D} type (d0 : D) t :
  (forall k, lux_get k d0 = None) -> rtc rtype_op (new_rtype_table type d0) t -> sortEnabled_ t = true ->
  (forall l r u v, 0 < l -> 0 < r -> getRTypeString l t = Some u -> getRTypeString r t = Some v ->
     rt_compareValues l r t = Ret (three_way string_lt u v)) /\
  (forall docId v, 0 < docId < 2 ^ 32 - 1 -> v <> ""%string -> exists t', updateRTypeString docId v t = Ret (true, t') /\
     rtc rtype_op (new_rtype_table type d0) t' /\ sortEnabled_ t' = true /\
     forall d, getRTypeString d t' = if d =? docId then Some v else getRTypeString d t).
Proof.
  intros Hd0 Hops Hsort. pose proof (rtype_ops_mirrored _ _ Hops (new_mirrored type d0 Hd0)) as Hm. split.
  - intros l r u v Hl Hr Eu Ev. by apply rt_compare_ok.
  - intros docId v Hd Hv. destruct (update_ok docId v t Hm Hd Hv) as (t' & E & _ & Hs & Hg). exists t'. split; [done|].
    split; [eapply rtc_r; [done|]; by eapply op_update|]. split; [congruence|done].
Qed.

Definition ex_rtype : RTypeStringPropTable (gmap Z string) := new_rtype_table STRING_PROPERTY_TYPE ∅.

Lemma rtype_compare_stored_witness : exists t, rtc rtype_op ex_rtype t /\ sortEnabled_ t = true /\
  rt_compareValues 2 1 t = Ret (three_way string_lt "apple" "pear").
Proof.
  set (u := fun d v t => match updateRTypeString (D := gmap Z string) d v t with Ret (_, t) => t | _ => t end).
  set (t := enableSort (u 2 "apple"%string (u 1 "pear"%string ex_rtype))). exists t.
  assert (rtc rtype_op ex_rtype t) as Hops.
  { eapply rtc_l; [apply (op_update 1 "pear" _ (u 1 "pear"%string ex_rtype) true); [lia|vm_compute; reflexivity]|].
    eapply rtc_l; [apply (op_update 2 "apple" _ (u 2 "apple"%string (u 1 "pear"%string ex_rtype)) true); [lia|vm_compute; reflexivity]|].
    apply rtc_once, op_enableSort. }
  split; [exact Hops|]. split; [vm_compute; reflexivity|].
  refine (proj1 (rtype_compare_stored STRING_PROPERTY_TYPE ∅ t _ Hops _) 2 1 _ _ _ _ _ _); [|vm_compute; reflexivity..].
  intros k. apply lookup_empty.
Defined.

(** A deleted string is still compared: [delRTypeString] leaves the memory alone. *)
Lemma deleted_still_compared : exists t t', sortEnabled_ t = true /\ delRTypeString 2 t = (true, t') /\
  getRTypeString (D := gmap Z string) 2 t' = None /\ rt_compareValues 2 1 t' = rt_compareValues 2 1 t /\ rt_compareValues 1 2 t' = Ret 1.
Proof.
  exists (RTable STRING_PROPERTY_TYPE {[1 := "pear"%string; 2 := "apple"%string]} [""; "pear"; "apple"]%string true 2).
  eexists. split; [done|]. split; [vm_compute; reflexivity|]. split; [vm_compute; reflexivity|]. vm_compute. done.
Qed.
