(* ===== verification/Sorter.v ===== *)
(** * Sorting the documents of a search

Models search-manager/ScoreDoc.h, SortPropertyComparator.{h,cpp},
Sorter.{h,cpp} and the orders of HitQueue.h. A sorter compares two documents by
a list of properties, each ascending or descending; where [compare] reads a
table it reads NumTable.v or RTypeTable.v. The theorems show that on documents
with values the order is lexicographic, and what happens to the others. *)
From S2P Require Import Prelude PQueue Float64 SharedLock GroupParam NumTable RTypeTable.

(** ** ScoreDoc.h *)
Record ScoreDoc := Doc {
  docId : Z;
  score : spec_float;
  custom_score : spec_float;
  geo_dist : spec_float
}.

Definition score_doc (id : Z) (s : spec_float) : ScoreDoc := Doc id s d0 d0.

#[export] Instance ScoreDoc_eq_dec : EqDecision ScoreDoc.
Proof. solve_decision. Defined.
#[export] Instance ScoreDoc_inhabited : Inhabited ScoreDoc := populate (score_doc 0 d0).

(** ** SortPropertyComparator *)

(** What a comparator calls of RTypeStringPropTable. *)
Record StringTable := StringBase {
  str_type : PropertyDataType;
  str_size : Z;
  str_compareValues : Z -> Z -> res Z
}.

Definition rtype_base {D} (t : RTypeStringPropTable D) : StringTable :=
  StringBase (rt_type t) (rt_size t) (fun l r => rt_compareValues l r t).

(** The member function that [comparator_] points to. *)
Inductive comparator_impl :=
| compareImplDefault
| compareImplRTypeString
| compareImplNumeric
| compareImplUnknown
| compareImplCustomRanking
| compareImplGeoLocation.

Definition initComparator (type : PropertyDataType) : comparator_impl :=
  match type with
  | STRING_PROPERTY_TYPE => compareImplRTypeString
  | INT32_PROPERTY_TYPE | FLOAT_PROPERTY_TYPE | DATETIME_PROPERTY_TYPE | INT8_PROPERTY_TYPE
  | INT16_PROPERTY_TYPE | INT64_PROPERTY_TYPE | DOUBLE_PROPERTY_TYPE => compareImplNumeric
  | UNKNOWN_DATA_PROPERTY_TYPE => compareImplUnknown
  | CUSTOM_RANKING_PROPERTY_TYPE => compareImplCustomRanking
  | GEOLOCATION_PROPERTY_TYPE => compareImplGeoLocation
  | _ => compareImplDefault
  end.

Record SortPropertyComparator := Comparator {
  numericPropTable_ : option NumericPropertyTableBase;
  RTypePropTable_ : option StringTable;
  size_ : Z;
  comparator_ : comparator_impl
}.

Definition score_comparator : SortPropertyComparator := Comparator None None 0 (initComparator UNKNOWN_DATA_PROPERTY_TYPE).
Definition numeric_comparator (propData : NumericPropertyTableBase) : SortPropertyComparator :=
  Comparator (Some propData) None (base_size propData) (initComparator (base_type propData)).
Definition rtype_comparator (propData : StringTable) : SortPropertyComparator :=
  Comparator None (Some propData) (str_size propData) (initComparator (str_type propData)).
Definition typed_comparator (dataType : PropertyDataType) : SortPropertyComparator :=
  Comparator None None 0 (initComparator dataType).

(** The comparison of two floating-point members. *)
Definition compare_double (a b : spec_float) : Z := if flt a b then -1 else if fgt a b then 1 else 0.

Definition compare (c : SortPropertyComparator) (doc1 doc2 : ScoreDoc) : res Z :=
  match comparator_ c with
  | compareImplDefault => Ret 0
  | compareImplRTypeString =>
      if (size_ c <=? docId doc1) || (size_ c <=? docId doc2) then Ret 0
      else match RTypePropTable_ c with
      | Some table => str_compareValues table (docId doc1) (docId doc2)
      | None => Undef
      end
  | compareImplNumeric =>
      if (size_ c <=? docId doc1) || (size_ c <=? docId doc2) then Ret 0
      else match numericPropTable_ c with
      | Some table => base_compareValues table (docId doc1) (docId doc2)
      | None => Undef
      end
  | compareImplUnknown => Ret (compare_double (score doc1) (score doc2))
  | compareImplCustomRanking => Ret (compare_double (custom_score doc1) (custom_score doc2))
  | compareImplGeoLocation => Ret (compare_double (geo_dist doc1) (geo_dist doc2))
  end.

(** ** Sorter *)
Inductive SortPropertyType := SCORE | AUTO | CUSTOM | CTR | GEODIST.

Record SortProperty := SortProp {
  sp_property : string;
  propertyDataType_ : PropertyDataType;
  sp_type : SortPropertyType;
  reverse_ : bool;
  pComparator_ : option SortPropertyComparator
}.

Definition auto_property (property : string) (propertyType : PropertyDataType) (reverse : bool) : SortProperty :=
  SortProp property propertyType AUTO reverse None.
Definition typed_property (property : string) (propertyType : PropertyDataType) (type : SortPropertyType) (reverse : bool) : SortProperty :=
  SortProp property propertyType type reverse None.
Definition with_comparator (c : option SortPropertyComparator) (p : SortProperty) : SortProperty :=
  SortProp (sp_property p) (propertyDataType_ p) (sp_type p) (reverse_ p) c.

(** [ppSortProperties_] and [reverseMul_] have [nNumProperties_] elements. *)
Record Sorter := MkSorter {
  sortProperties_ : list SortProperty;
  ppSortProperties_ : list SortProperty;
  reverseMul_ : list Z
}.

Definition new_sorter : Sorter := MkSorter [] [] [].

Definition addSortProperty (p : SortProperty) (s : Sorter) : Sorter :=
  MkSorter (sortProperties_ s ++ [p]) (ppSortProperties_ s) (reverseMul_ s).

Definition requireScorer (s : Sorter) : bool := existsb (fun p => String.eqb (sp_property p) "RANK") (ppSortProperties_ s).

(** [c ^ reverseMul_[i]], converted to bool, decides. *)
Fixpoint less_than (props : list SortProperty) (reverseMul : list Z) (doc1 doc2 : ScoreDoc) : res bool :=
  match props with
  | [] => Ret (docId doc1 <? docId doc2)
  | p :: props =>
      match pComparator_ p, reverseMul with
      | Some cmp, r :: reverseMul =>
          let* c := compare cmp doc1 doc2 in
          if negb (c =? 0) then Ret (negb (Z.lxor c r =? 0)) else less_than props reverseMul doc1 doc2
      | _, _ => Undef
      end
  end.

Definition lessThan (s : Sorter) (doc1 doc2 : ScoreDoc) : res bool :=
  less_than (ppSortProperties_ s) (reverseMul_ s) doc1 doc2.

(** *** createComparators

[numericTableBuilder_] and [rtypeStringPropBuilder_] may be missing and may
not have a table of a property; the tables of strings are shared, and
[enableSort] on one that is enabled does nothing. *)
Section Create.
Context {D : Type} `{!LuxArray D}.
Context (numericTableBuilder_ : option (string -> option NumericPropertyTableBase)).
Context (rtypeStringPropBuilder_ : option (string -> option (RTypeStringPropTable D))).
Implicit Types (locks : PropSharedLockSet).

(** The table is used without a test. *)
Definition createRTypeStringComparator_ (propName : string) locks : res (option SortPropertyComparator * PropSharedLockSet) :=
  match rtypeStringPropBuilder_ with
  | None => Ret (None, locks)
  | Some createPropertyTable =>
      match createPropertyTable propName with
      | None => Undef
      | Some table => Ret (Some (rtype_comparator (rtype_base (enableSort table))), insertSharedLock (RTypeLock propName) locks)
      end
  end.

Definition createNumericComparator_ (propName : string) locks : option SortPropertyComparator * PropSharedLockSet :=
  match numericTableBuilder_ with
  | None => (None, locks)
  | Some createPropertyTable =>
      match createPropertyTable propName with
      | None => (None, locks)
      | Some table => (Some (numeric_comparator table), insertSharedLock (NumericLock propName) locks)
      end
  end.

(** One turn of the loop: the property with its comparator. *)
Definition create_comparator (p : SortProperty) locks : res (SortProperty * PropSharedLockSet) :=
  match pComparator_ p with
  | Some _ => Ret (p, locks)
  | None =>
      let* (c, locks) :=
        (match sp_type p with
         | SCORE => Ret (Some score_comparator, locks)
         | AUTO | CTR =>
             match propertyDataType_ p with
             | STRING_PROPERTY_TYPE => createRTypeStringComparator_ (sp_property p) locks
             | _ => Ret (createNumericComparator_ (sp_property p) locks)
             end
         | CUSTOM => Ret (Some (typed_comparator CUSTOM_RANKING_PROPERTY_TYPE), locks)
         | GEODIST => Ret (Some (typed_comparator GEOLOCATION_PROPERTY_TYPE), locks)
         end) in
      Ret (with_comparator c p, locks)
  end.

Definition has_comparator (p : SortProperty) : bool := match pComparator_ p with Some _ => true | None => false end.

(** The property that sorts when no other one can. *)
Definition rank_property : SortProperty := with_comparator (Some score_comparator) (auto_property "RANK" UNKNOWN_DATA_PROPERTY_TYPE false).

Definition createComparators (s : Sorter) locks : res (Sorter * PropSharedLockSet) :=
  let* (props, locks) := mfold (fun p '(props, locks) =>
    let* (p, locks) := create_comparator p locks in Ret (props ++ [p], locks)) (sortProperties_ s) ([], locks) in
  let numOfInValidComparators := count (fun p => negb (has_comparator p)) props in
  let (all, pp) :=
    (if 0 <? numOfInValidComparators then
       if numOfInValidComparators =? vsize props then (props ++ [rank_property], [rank_property])
       else (props, List.filter has_comparator props)
     else (props, props)) in
  Ret (MkSorter all pp (map (fun p => if reverse_ p then -1 else 1) pp), locks).
End Create.

(** ** The orders of HitQueue.h

A priority queue gets its order as a test; [lessThan] returns on the documents
of a search (see [lessThan_lex]), any other outcome counts as false. *)
Definition as_test (less : ScoreDoc -> ScoreDoc -> res bool) (o1 o2 : ScoreDoc) : bool :=
  match less o1 o2 with Ret b => b | _ => false end.

(** [epsilon]: numeric_limits<score_t>::epsilon(). *)
Definition score_lessThan (epsilon : spec_float) (o1 o2 : ScoreDoc) : bool :=
  if flt (dabs (dsub (score o1) (score o2))) epsilon then docId o1 <? docId o2
  else flt (score o1) (score o2).

Definition property_lessThan (s : Sorter) (o1 o2 : ScoreDoc) : bool := as_test (lessThan s) o1 o2.

(** ** The order of a sorter *)

(** A property with its direction. *)
Definition directed (key : (ScoreDoc -> ScoreDoc -> bool) * bool) (d1 d2 : ScoreDoc) : bool :=
  if key.2 then key.1 d2 d1 else key.1 d1 d2.

(** The properties one after the other; the document id decides between
    documents that are equal in all of them. *)
Fixpoint lex_lt (keys : list ((ScoreDoc -> ScoreDoc -> bool) * bool)) (d1 d2 : ScoreDoc) : bool :=
  match keys with
  | [] => docId d1 <? docId d2
  | key :: keys => directed key d1 d2 || (negb (directed key d2 d1) && lex_lt keys d1 d2)
  end.

Lemma directed_weak key : StrictWeak key.1 -> StrictWeak (directed key).
Proof. destruct key as [lt []]; cbn; intros H; [by apply flip_weak|done]. Qed.

Lemma lex_lt_weak keys : Forall (fun k => StrictWeak k.1) keys -> StrictWeak (lex_lt keys).
Proof.
  induction 1 as [|key keys Hw _ IH]; [apply (StrictWeak_key docId)|]. by apply (lex_weak (directed key)); [apply directed_weak|].
Qed.

Lemma lex_lt_total keys d1 d2 : lex_lt keys d1 d2 = false -> lex_lt keys d2 d1 = false -> docId d1 = docId d2.
Proof.
  induction keys as [|key keys IH]; cbn [lex_lt]; [lia|].
  destruct (directed key d1 d2); [done|]. destruct (directed key d2 d1); [done|]. cbn. apply IH.
Qed.

(** [c ^ reverseMul] is the sign test for the answers of a comparison. *)
Lemma xor_directed (lt : ScoreDoc -> ScoreDoc -> bool) (reverse : bool) d1 d2 : StrictWeak lt ->
  let c := three_way lt d1 d2 in
  (if negb (c =? 0) then negb (Z.lxor c (if reverse then -1 else 1) =? 0) = directed (lt, reverse) d1 d2 /\
     directed (lt, reverse) d2 d1 = negb (directed (lt, reverse) d1 d2)
   else directed (lt, reverse) d1 d2 = false /\ directed (lt, reverse) d2 d1 = false).
Proof.
  intros Hw. unfold three_way, directed. cbn [fst snd].
  destruct (lt d1 d2) eqn:E1; [pose proof (sw_asym _ _ _ E1) as E2|destruct (lt d2 d1) eqn:E2];
    destruct reverse; rewrite ?E1, ?E2; done.
Qed.

Section Order.
Context {D : Type} `{!LuxArray D, !LuxArrayLaws D}.
Context (createNumeric : string -> option NumericPropertyTableBase).
Context (createString : string -> option (RTypeStringPropTable D)).

(** The documents that are compared. *)
Context (P : ScoreDoc -> Prop).

(** How a property orders them: by a score, or by the values of its table,
    which all of them have. *)
Inductive property_order : SortProperty -> (ScoreDoc -> ScoreDoc -> bool) -> Prop :=
| order_score name type reverse :
    (forall d, P d -> is_num (score d) = true) ->
    property_order (typed_property name type SCORE reverse) (fun a b => klt (score a) (score b))
| order_custom name type reverse :
    (forall d, P d -> is_num (custom_score d) = true) ->
    property_order (typed_property name type CUSTOM reverse) (fun a b => klt (custom_score a) (custom_score b))
| order_geo name type reverse :
    (forall d, P d -> is_num (geo_dist d) = true) ->
    property_order (typed_property name type GEODIST reverse) (fun a b => klt (geo_dist a) (geo_dist b))
| order_number name type reverse {T} (N : Number T) (O : NumberOrder T) (t : prop_table T) (value : ScoreDoc -> T) :
    type <> STRING_PROPERTY_TYPE -> createNumeric name = Some (num_base t) ->
    initComparator (type_ t) = compareImplNumeric ->
    (forall d, P d -> 0 <= docId d /\ value_of n_eqb t (docId d) = Some (value d) /\ n_ok (value d)) ->
    property_order (auto_property name type reverse) (fun a b => n_lt (value a) (value b))
| order_range name type reverse {T} (N : Number T) (O : NumberOrder T) (t : prop_table (T * T)) (value : ScoreDoc -> T * T) :
    type <> STRING_PROPERTY_TYPE -> createNumeric name = Some (range_base t) ->
    initComparator (type_ t) = compareImplNumeric ->
    (forall d, P d -> 0 <= docId d /\ value_of pair_eqb t (docId d) = Some (value d) /\ n_ok (value d).1 /\ n_ok (value d).2) ->
    property_order (auto_property name type reverse) (fun a b => pair_lt (value a) (value b))
| order_string name reverse (t : RTypeStringPropTable D) (value : ScoreDoc -> string) :
    createString name = Some t -> mirrored t -> rt_type t = STRING_PROPERTY_TYPE ->
    (forall d, P d -> 0 < docId d /\ getRTypeString (docId d) t = Some (value d)) ->
    property_order (auto_property name STRING_PROPERTY_TYPE reverse) (fun a b => string_lt (value a) (value b)).

(** The table that a property is sorted by. *)
Definition table_read (p : SortProperty) : option table_lock :=
  match sp_type p, propertyDataType_ p with
  | (AUTO | CTR), STRING_PROPERTY_TYPE => Some (RTypeLock (sp_property p))
  | (AUTO | CTR), _ => Some (NumericLock (sp_property p))
  | _, _ => None
  end.

(** [locks'] has the locks of [locks] and those of the tables of [props]. *)
Definition tables_locked (props : list SortProperty) (locks locks' : PropSharedLockSet) : Prop :=
  forall l, l ∈ locks' <-> l ∈ locks \/ exists p, p ∈ props /\ table_read p = Some l.

Lemma tables_locked_cons p props locks locks1 locks' : tables_locked [p] locks locks1 -> tables_locked props locks1 locks' ->
  tables_locked (p :: props) locks locks'.
Proof. intros H1 H2 l. rewrite (H2 l), (H1 l). set_solver. Qed.

Lemma property_order_weak p lt : property_order p lt -> StrictWeak lt.
Proof.
  destruct 1; [apply klt_weak..| | |]; [apply (on_weak value), n_lt_weak|apply (on_weak value), pair_lt_weak|apply (on_weak value), string_lt_weak].
Qed.

Lemma compare_double_ok a b : is_num a = true -> is_num b = true -> compare_double a b = (if klt a b then -1 else if klt b a then 1 else 0).
Proof. intros Ha Hb. unfold compare_double, fgt. change (SFltb b a) with (flt b a). by rewrite !klt_flt. Qed.

Lemma value_in_size {V} (veq : V -> V -> bool) (t : prop_table V) d v : value_of veq t d = Some v -> (size t <=? d) = false.
Proof.
  unfold value_of, size. destruct (Z.ltb_spec d 0); [done|]. destruct (_ !! _) eqn:E; [|done]. intros _.
  apply lookup_lt_Some in E. unfold vsize. lia.
Qed.

Lemma locked_one p l locks : table_read p = Some l -> tables_locked [p] locks (insertSharedLock l locks).
Proof. intros Hp x. rewrite insert_elem. split; [intros [?| ->]; [by left|right; exists p; split; [by left|done]]|]. intros [?|(p' & ->%list_elem_of_singleton & E)]; [by left|right; congruence]. Qed.

(** The comparator that is created answers the comparison of the order. *)
Lemma create_ok p lt locks : property_order p lt ->
  exists cmp locks', create_comparator (Some createNumeric) (Some createString) p locks = Ret (with_comparator (Some cmp) p, locks') /\
    (locks_grow locks locks' /\ tables_locked [p] locks locks') /\ forall d1 d2, P d1 -> P d2 -> compare cmp d1 d2 = Ret (three_way lt d1 d2).
Proof.
  intros Hp. unfold create_comparator.
  destruct Hp as [name type reverse H|name type reverse H|name type reverse H|name type reverse T N O t value Ht Et Ei H
    |name type reverse T N O t value Ht Et Ei H|name reverse t value Et Hm Er H]; cbn [pComparator_ typed_property auto_property sp_type propertyDataType_ sp_property].
  1-3: (eexists _, locks; split; [done|]; split; [split; [done|]; intros l; split; [by left|]; intros [?|(p & ->%list_elem_of_singleton & [=])]; done|]; intros a b Ha Hb; unfold compare; cbn; by rewrite compare_double_ok by auto).
  - exists (numeric_comparator (num_base t)), (insertSharedLock (NumericLock name) locks).
    split; [|split; [split; [auto with sf1r|by apply locked_one; destruct type]|]].
    { destruct type; try done; unfold createNumericComparator_; by rewrite Et. }
    intros a b Ha Hb. destruct (H a Ha) as (Ha0 & Ea & Oa), (H b Hb) as (Hb0 & Eb & Ob). unfold compare, numeric_comparator.
    cbn [comparator_ base_type num_base size_ base_size numericPropTable_ base_compareValues]. rewrite Ei.
    rewrite (value_in_size _ _ _ _ Ea), (value_in_size _ _ _ _ Eb). cbn [orb]. unfold num_compareValues.
    rewrite (compareValues_ok _ _ _ _ _ (value a) (value b)) by done. unfold three_way. by rewrite !n_ltb_ok.
  - exists (numeric_comparator (range_base t)), (insertSharedLock (NumericLock name) locks).
    split; [|split; [split; [auto with sf1r|by apply locked_one; destruct type]|]].
    { destruct type; try done; unfold createNumericComparator_; by rewrite Et. }
    intros a b Ha Hb. destruct (H a Ha) as (Ha0 & Ea & Oa & Oa'), (H b Hb) as (Hb0 & Eb & Ob & Ob'). unfold compare, numeric_comparator.
    cbn [comparator_ base_type range_base size_ base_size numericPropTable_ base_compareValues]. rewrite Ei.
    rewrite (value_in_size _ _ _ _ Ea), (value_in_size _ _ _ _ Eb). cbn [orb]. unfold range_compareValues.
    rewrite (compareValues_ok _ _ _ _ _ (value a) (value b)) by done. unfold three_way, pair_ltb, pair_lt. by rewrite !n_ltb_ok.
  - exists (rtype_comparator (rtype_base (enableSort t))), (insertSharedLock (RTypeLock name) locks).
    unfold createRTypeStringComparator_. rewrite Et. split; [done|]. split; [split; [auto with sf1r|by apply locked_one]|].
    intros a b Ha Hb. destruct (H a Ha) as (Ha0 & Ea), (H b Hb) as (Hb0 & Eb). destruct (enableSort_ok t Hm) as (Hm' & Hs & Hg).
    assert (rt_type (enableSort t) = STRING_PROPERTY_TYPE) as Er' by (unfold enableSort; by destruct (sortEnabled_ t)).
    rewrite <- (Hg (docId a)) in Ea. rewrite <- (Hg (docId b)) in Eb.
    destruct (stored_in_range _ _ _ Hm' Ea) as [Ra _], (stored_in_range _ _ _ Hm' Eb) as [Rb _]. pose proof (proj1 Hm').
    unfold compare, rtype_comparator. cbn [comparator_ str_type rtype_base size_ str_size RTypePropTable_ str_compareValues].
    rewrite Er'. cbn [initComparator]. unfold rt_size. rewrite u32_small by lia.
    destruct (Z.leb_spec (maxDocId_ (enableSort t) + 1) (docId a)); [lia|].
    destruct (Z.leb_spec (maxDocId_ (enableSort t) + 1) (docId b)); [lia|]. cbn [orb].
    by rewrite (rt_compare_ok _ _ _ (value a) (value b)) by done.
Qed.

(** A property with its comparator in place. *)
Definition ready (p : SortProperty) (lt : ScoreDoc -> ScoreDoc -> bool) : Prop :=
  exists cmp, pComparator_ p = Some cmp /\ forall d1 d2, P d1 -> P d2 -> compare cmp d1 d2 = Ret (three_way lt d1 d2).

Lemma create_all props lts : Forall2 property_order props lts -> forall done_ locks,
  exists props' locks', mfold (fun p '(props, locks) =>
      let* (p, locks) := create_comparator (Some createNumeric) (Some createString) p locks in Ret (props ++ [p], locks)) props (done_, locks) =
    Ret (done_ ++ props', locks') /\ (locks_grow locks locks' /\ tables_locked props locks locks') /\ Forall2 ready props' lts /\ map reverse_ props' = map reverse_ props.
Proof.
  induction 1 as [|p lt props lts Hp _ IH]; intros done_ locks; cbn [mfold].
  { exists [], locks. rewrite app_nil_r. split; [done|]. split; [split; [done|]|done]. intros l. split; [by left|]. intros [?|(p & []%elem_of_nil & _)]; done. }
  destruct (create_ok p lt locks Hp) as (cmp & locks1 & -> & [Hg Hk] & Hc). cbn [res_bind].
  destruct (IH (done_ ++ [with_comparator (Some cmp) p]) locks1) as (props' & locks' & -> & [Hg' Hk'] & Hr & Hrev).
  exists (with_comparator (Some cmp) p :: props'), locks'. rewrite <- app_assoc. split; [done|]. split; [split; [by transitivity locks1|by apply (tables_locked_cons p props locks locks1)]|].
  split; [|cbn; by rewrite Hrev]. constructor; [by exists cmp|done].
Qed.

Lemma ready_has props lts : Forall2 ready props lts -> count (fun p => negb (has_comparator p)) props = 0.
Proof.
  induction 1 as [|p lt props lts (cmp & E & _) _ IH]; [done|]. rewrite count_cons, IH. unfold has_comparator. by rewrite E.
Qed.

Lemma less_than_lex props lts d1 d2 : Forall2 ready props lts -> Forall StrictWeak lts -> P d1 -> P d2 ->
  less_than props (map (fun p => if reverse_ p then -1 else 1) props) d1 d2 = Ret (lex_lt (zip lts (map reverse_ props)) d1 d2).
Proof.
  intros H Hw H1 H2. induction H as [|p lt props lts (cmp & E & Hc) _ IH]; [done|]. apply Forall_cons in Hw as [Hlt Hw].
  cbn [less_than map zip zip_with lex_lt]. rewrite E, Hc by done. cbn [res_bind].
  pose proof (xor_directed lt (reverse_ p) d1 d2 Hlt) as Hx. cbv zeta in Hx.
  destruct (negb (three_way lt d1 d2 =? 0)); destruct Hx as [Hx1 Hx2].
  - rewrite Hx1, Hx2. by destruct (directed _ _ _).
  - rewrite Hx1, Hx2. cbn [negb andb orb]. by apply IH.
Qed.
End Order.


(** Ascending prices, then descending scores. *)
Definition ex_numbers (name : string) : option NumericPropertyTableBase :=
  if String.eqb name "price" then Some (num_base (Number0 := float_number) prices) else None.
Definition ex_sorter : Sorter :=
  addSortProperty (typed_property "RANK" UNKNOWN_DATA_PROPERTY_TYPE SCORE false)
    (addSortProperty (auto_property "price" FLOAT_PROPERTY_TYPE true) new_sorter).
Definition ex_priced (d : ScoreDoc) : Prop := docId d ∈ [1; 3] /\ is_num (score d) = true.
Definition ex_price_of (d : ScoreDoc) : spec_float := default d0 (value_of feq prices (docId d)).


(** *** What else can happen *)

(** Of two documents without a value each is less than the other. *)
Lemma both_less_without_value s p table reverse (d1 d2 : ScoreDoc) :
  initComparator (base_type table) = compareImplNumeric -> docId d1 < base_size table -> docId d2 < base_size table ->
  base_compareValues table (docId d1) (docId d2) = Ret (-1) -> base_compareValues table (docId d2) (docId d1) = Ret (-1) ->
  ppSortProperties_ s = [with_comparator (Some (numeric_comparator table)) p] -> reverseMul_ s = [if reverse : bool then -1 else 1] ->
  lessThan s d1 d2 = Ret (negb reverse) /\ lessThan s d2 d1 = Ret (negb reverse).
Proof.
  intros Ei H1 H2 E12 E21 Ep Er. unfold lessThan. rewrite Ep, Er. cbn [less_than pComparator_ with_comparator].
  unfold compare, numeric_comparator. cbn [comparator_ size_ numericPropTable_]. rewrite Ei.
  destruct (Z.leb_spec (base_size table) (docId d1)); [lia|]. destruct (Z.leb_spec (base_size table) (docId d2)); [lia|].
  cbn [orb]. rewrite E12, E21. by destruct reverse.
Qed.

Example two_without_value : let t := num_base (Number0 := float_number) prices in
  base_compareValues t 0 2 = Ret (-1) /\ base_compareValues t 2 0 = Ret (-1).
Proof. vm_compute. done. Qed.

(** Without any table the score decides. *)
Lemma no_tables_rank props locks : props <> [] -> Forall (fun p => exists name type reverse, p = auto_property name type reverse) props ->
  exists s', createComparators (D := gmap Z string) None None (MkSorter props [] []) locks = Ret (s', locks) /\
    forall d1 d2, is_num (score d1) = true -> is_num (score d2) = true ->
      lessThan s' d1 d2 = Ret (lex_lt [(fun a b => klt (score a) (score b), false)] d1 d2).
Proof.
  intros Hne Hall. unfold createComparators.
  assert (forall done_, mfold (fun p '(props, locks) =>
      let* (p, locks) := create_comparator (D := gmap Z string) None None p locks in Ret (props ++ [p], locks)) props (done_, locks) =
    Ret (done_ ++ props, locks)) as H.
  { clear Hne. induction Hall as [|p props (name & type & reverse & ->) _ IH]; intros done_; cbn [mfold]; [by rewrite app_nil_r|].
    destruct type; cbn [create_comparator auto_property pComparator_ sp_type propertyDataType_ sp_property res_bind createNumericComparator_ createRTypeStringComparator_ with_comparator reverse_];
      rewrite IH; by rewrite <- app_assoc. }
  specialize (H []). cbn [sortProperties_] in *. rewrite H. cbn [res_bind app].
  assert (count (fun p => negb (has_comparator p)) props = vsize props) as ->.
  { apply count_all. intros p Hp. rewrite Forall_forall in Hall. by destruct (Hall p Hp) as (? & ? & ? & ->). }
  destruct (Z.ltb_spec 0 (vsize props)); [|destruct props; [done|rewrite vsize_cons in *; pose proof (vsize_nonneg props); lia]].
  rewrite Z.eqb_refl. eexists. split; [done|]. intros d1 d2 H1 H2. unfold lessThan.
  cbn [ppSortProperties_ reverseMul_ map rank_property with_comparator auto_property reverse_ less_than pComparator_].
  unfold compare, score_comparator. cbn [comparator_ initComparator res_bind]. rewrite compare_double_ok by done.
  cbn [lex_lt]. unfold directed. cbn [fst snd]. destruct (klt (score d1) (score d2)); [done|]. by destruct (klt (score d2) (score d1)).
Qed.

(** A string property that has no table of strings is dereferenced. *)
Lemma missing_string_table name reverse locks :
  createComparators (D := gmap Z string) None (Some (fun _ => None)) (MkSorter [auto_property name STRING_PROPERTY_TYPE reverse] [] []) locks = Undef.
Proof. done. Qed.
