(* ===== verification/SearchPrepare.v ===== *)
(** * Preparing a search

Models search-manager/SearchManagerPreProcessor.cpp: the sorter that the sort
list of a request asks for, the tests on that list, and the values of the sort
properties that are sent along with the result (DistKeywordSearchInfo). The
custom and geographic rankers and the scorers are parameters: functions from a
document id to a number. *)
From Stdlib Require Import Ascii.
From S2P Require Import Prelude OrdMap Float64 SharedLock GroupParam NumTable RTypeTable Sorter.

(** boost::to_lower in the classic locale. *)
Definition lower (c : ascii) : ascii :=
  let n := N_of_ascii c in if (65 <=? n)%N && (n <=? 90)%N then ascii_of_N (n + 32) else c.
Definition to_lower (s : string) : string := String.string_of_list_ascii (map lower (String.list_ascii_of_string s)).

Definition RANK_PROPERTY : string := "_rank".
Definition DATE_PROPERTY : string := "date".
Definition CUSTOM_RANK_PROPERTY : string := "custom_rank".
Definition GEO_RANK_PROPERTY : string := "geo_rank".

(** The sort list: names with [true] for ascending. *)
Notation SortPriorityList := (list (string * bool)).

(** What is used of a PropertyConfig. *)
Record PropertyConfig := PropConfig { isIndex : bool; isAnalyzed : bool; getType : PropertyDataType }.

Notation ranker := (Z -> spec_float).

Section PrepareSorter.
Context (schemaMap_ : list (string * PropertyConfig)).
Context (numericTableBuilder_ : option (string -> option NumericPropertyTableBase)).

(** The custom ranker of the request, and whether its properties have tables. *)
Context (custom : ranker * bool).
(** The ranker of the request, or how one is made for its table of positions. *)
Context (geo : option ranker) (geoLocationProperty : string) (newGeoLocationRanker : NumericPropertyTableBase -> ranker).

(** [pSorter], [customRanker] and [geoLocationRanker]. *)
Record prepared := Prepared { pSorter : option Sorter; customRanker : option ranker; geoLocationRanker : option ranker }.

Definition add_property (p : SortProperty) (st : prepared) : prepared :=
  Prepared (Some (addSortProperty p (default new_sorter (pSorter st)))) (customRanker st) (geoLocationRanker st).

Definition sortable_type (type : PropertyDataType) : bool :=
  match type with
  | STRING_PROPERTY_TYPE | INT32_PROPERTY_TYPE | FLOAT_PROPERTY_TYPE | DATETIME_PROPERTY_TYPE | INT8_PROPERTY_TYPE
  | INT16_PROPERTY_TYPE | INT64_PROPERTY_TYPE | DOUBLE_PROPERTY_TYPE | NOMINAL_PROPERTY_TYPE => true
  | _ => false
  end.

(** One turn of the loop over the sort list. *)
Definition prepare_property (it : string * bool) (st : prepared) : res prepared :=
  let fieldNameL := to_lower it.1 in
  if String.eqb fieldNameL CUSTOM_RANK_PROPERTY then
    let st := Prepared (pSorter st) (Some custom.1) (geoLocationRanker st) in
    Ret (if negb custom.2 then st else add_property (typed_property "CUSTOM_RANK" CUSTOM_RANKING_PROPERTY_TYPE CUSTOM it.2) st)
  else if String.eqb fieldNameL RANK_PROPERTY then
    Ret (add_property (typed_property "RANK" UNKNOWN_DATA_PROPERTY_TYPE SCORE it.2) st)
  else if String.eqb fieldNameL DATE_PROPERTY then
    Ret (add_property (auto_property it.1 INT64_PROPERTY_TYPE it.2) st)
  else if String.eqb fieldNameL GEO_RANK_PROPERTY then
    let* r :=
      (match geo with
       | Some r => Ret (Some r)
       | None =>
           match numericTableBuilder_ with
           | None => Undef
           | Some createPropertyTable => Ret (option_map newGeoLocationRanker (createPropertyTable geoLocationProperty))
           end
       end) in
    match r with
    | None => Ret (Prepared (pSorter st) (customRanker st) None)
    | Some r => Ret (add_property (typed_property "GEO_DIST" GEOLOCATION_PROPERTY_TYPE GEODIST it.2) (Prepared (pSorter st) (customRanker st) (Some r)))
    end
  else
    match om_find schemaMap_ it.1 with
    | None => Ret st
    | Some propertyConfig =>
        if negb (isIndex propertyConfig) || isAnalyzed propertyConfig then Ret st
        else if sortable_type (getType propertyConfig) then Ret (add_property (auto_property it.1 (getType propertyConfig) it.2) st)
        else Ret st
    end.

(** Descending relevance alone needs no sorter. *)
Definition prepareSorter (sortPropertyList : SortPriorityList) (st : prepared) : res prepared :=
  match sortPropertyList with
  | [] => Ret st
  | [(name, ascend)] =>
      if String.eqb (to_lower name) RANK_PROPERTY && negb ascend then Ret st
      else prepare_property (name, ascend) st
  | _ => mfold prepare_property sortPropertyList st
  end.
End PrepareSorter.

Definition hasSortByRankProp (sortPriorityList : SortPriorityList) : bool :=
  existsb (fun it => String.eqb (to_lower it.1) RANK_PROPERTY) sortPriorityList.

Definition isSortByRankProp (sortPriorityList : SortPriorityList) : bool :=
  (vsize sortPriorityList =? 1) && hasSortByRankProp sortPriorityList.

(** [hasFactory]: [isProductRanking_], there is a factory of scorers. *)
Definition isNeedCustomDocIterator (hasFactory : bool) (l : SortPriorityList) : bool := hasSortByRankProp l && hasFactory.
Definition isNeedRerank (hasFactory : bool) (l : SortPriorityList) : bool := isSortByRankProp l && hasFactory.

(** The scorer of a search, if its result depends on one. *)
Definition createProductScorer (suffixMatch : bool) (l : SortPriorityList)
  (createScorer : option (option ranker -> option ranker)) (relevanceScorer : option ranker) : option ranker :=
  if negb suffixMatch && negb (hasSortByRankProp l) then None
  else match createScorer with
  | None => relevanceScorer
  | Some createScorer => createScorer relevanceScorer
  end.

(** ** The values of the sort properties

Of DistKeywordSearchInfo: the properties with their directions, and for each
type the properties with the values of the documents. *)
Record SortData := MkSortData {
  sortPropertyList_ : list (string * bool);
  sortPropertyInt32DataList_ : list (string * list Z);
  sortPropertyInt64DataList_ : list (string * list Z);
  sortPropertyFloatDataList_ : list (string * list spec_float);
  sortPropertyDoubleDataList_ : list (string * list spec_float);
  sortPropertyStrDataList_ : list (string * list string)
}.

Definition no_sort_data : SortData := MkSortData [] [] [] [] [] [].

Definition push_property (p : string * bool) (d : SortData) : SortData :=
  MkSortData (sortPropertyList_ d ++ [p]) (sortPropertyInt32DataList_ d) (sortPropertyInt64DataList_ d)
    (sortPropertyFloatDataList_ d) (sortPropertyDoubleDataList_ d) (sortPropertyStrDataList_ d).
Definition push_int32 (p : string * list Z) (d : SortData) : SortData :=
  MkSortData (sortPropertyList_ d) (sortPropertyInt32DataList_ d ++ [p]) (sortPropertyInt64DataList_ d)
    (sortPropertyFloatDataList_ d) (sortPropertyDoubleDataList_ d) (sortPropertyStrDataList_ d).
Definition push_int64 (p : string * list Z) (d : SortData) : SortData :=
  MkSortData (sortPropertyList_ d) (sortPropertyInt32DataList_ d) (sortPropertyInt64DataList_ d ++ [p])
    (sortPropertyFloatDataList_ d) (sortPropertyDoubleDataList_ d) (sortPropertyStrDataList_ d).
Definition push_float (p : string * list spec_float) (d : SortData) : SortData :=
  MkSortData (sortPropertyList_ d) (sortPropertyInt32DataList_ d) (sortPropertyInt64DataList_ d)
    (sortPropertyFloatDataList_ d ++ [p]) (sortPropertyDoubleDataList_ d) (sortPropertyStrDataList_ d).
Definition push_double (p : string * list spec_float) (d : SortData) : SortData :=
  MkSortData (sortPropertyList_ d) (sortPropertyInt32DataList_ d) (sortPropertyInt64DataList_ d)
    (sortPropertyFloatDataList_ d) (sortPropertyDoubleDataList_ d ++ [p]) (sortPropertyStrDataList_ d).
Definition push_string (p : string * list string) (d : SortData) : SortData :=
  MkSortData (sortPropertyList_ d) (sortPropertyInt32DataList_ d) (sortPropertyInt64DataList_ d)
    (sortPropertyFloatDataList_ d) (sortPropertyDoubleDataList_ d) (sortPropertyStrDataList_ d ++ [p]).

(** The values of all documents; one without a value keeps the default. *)
Definition values_of {A} (dflt : A) (get : Z -> res (option A)) (docIdList : list Z) : res (list A) :=
  each (fun d => let* v := get d in Ret (default dflt v)) docIdList.

Section Fill.
Context {D : Type} `{!LuxArray D}.
Context (numericTableBuilder_ : option (string -> option NumericPropertyTableBase)).
Context (rtypeStringPropTableBuilder_ : option (string -> option (RTypeStringPropTable D))).

Definition fill_property (docIdList : list Z) (p : SortProperty) (st : SortData * PropSharedLockSet) : res (SortData * PropSharedLockSet) :=
  let (data, locks) := st in
  let name := sp_property p in
  let data := push_property (name, reverse_ p) data in
  if String.eqb name "CUSTOM_RANK" || String.eqb name "RANK" then Ret (data, locks)
  else match propertyDataType_ p with
  | STRING_PROPERTY_TYPE =>
      match rtypeStringPropTableBuilder_ with
      | None => Ret (data, locks)
      | Some createPropertyTable =>
          match createPropertyTable name with
          | None => Ret (data, locks)
          | Some table =>
              let* l := values_of ""%string (fun d => Ret (getRTypeString d table)) docIdList in
              Ret (push_string (name, l) data, insertSharedLock (RTypeLock name) locks)
          end
      end
  | _ =>
      match numericTableBuilder_ with
      | None => Ret (data, locks)
      | Some createPropertyTable =>
          match createPropertyTable name with
          | None => Ret (data, locks)
          | Some table =>
              let locks := insertSharedLock (NumericLock name) locks in
              match base_type table with
              | INT32_PROPERTY_TYPE | INT8_PROPERTY_TYPE | INT16_PROPERTY_TYPE =>
                  let* l := values_of 0 (base_getInt32Value table) docIdList in Ret (push_int32 (name, l) data, locks)
              | INT64_PROPERTY_TYPE | DATETIME_PROPERTY_TYPE =>
                  let* l := values_of 0 (base_getInt64Value table) docIdList in Ret (push_int64 (name, l) data, locks)
              | FLOAT_PROPERTY_TYPE =>
                  let* l := values_of d0 (base_getFloatValue table) docIdList in Ret (push_float (name, l) data, locks)
              | DOUBLE_PROPERTY_TYPE =>
                  let* l := values_of d0 (base_getDoubleValue table) docIdList in Ret (push_double (name, l) data, locks)
              | _ => Ret (data, locks)
              end
          end
      end
  end.

Definition fillSearchInfoWithSortPropertyData (s : Sorter) (docIdList : list Z) (data : SortData) (locks : PropSharedLockSet)
  : res (SortData * PropSharedLockSet) :=
  mfold (fill_property docIdList) (sortProperties_ s) (data, locks).
End Fill.

Example prepare_ex :
  prepareSorter [("price"%string, PropConfig true false FLOAT_PROPERTY_TYPE)] None (fun _ => d0, true) None "" (fun _ _ => d0)
    [("Price"%string, true); ("price"%string, true); ("_RANK"%string, false)] (Prepared None None None) =
  Ret (Prepared (Some (MkSorter [auto_property "price" FLOAT_PROPERTY_TYPE true; typed_property "RANK" UNKNOWN_DATA_PROPERTY_TYPE SCORE false] [] [])) None None).
Proof. reflexivity. Qed.
