(* ===== verification/SearchThread.v ===== *)
(** * Searching in threads

Models search-manager/ScoreDocEvaluator.cpp, SearchThreadParam.h, HitQueue.h,
SearchThreadWorker.cpp (from the document iterator on), SearchThreadMaster.cpp
and NormalSearch.cpp: the documents are divided into ranges, a worker reads the
iterator over each range, filters, counts and scores the documents and keeps
the best in a priority queue, and the results of the workers are merged and
read off. The workers share nothing they write, so that they are run one after
the other. The document iterator that the query builder makes, the scorer and
the group filter are interfaces. *)
From S2P Require Import Prelude PQueue TopK Float64 OrdMap DocIterator OntologyRep GroupRep SharedLock NumTable RTypeTable Sorter SearchPrepare.

(** ** HitQueue.h *)
Record HitQueue (Q : Type) := Hits { hit_less : ScoreDoc -> ScoreDoc -> bool; hit_queue : Q }.
Arguments Hits {_} _ _.
Arguments hit_less {_} _.
Arguments hit_queue {_} _.

Section HitQueue.
Context {Q : Type} `{!PQueue Q ScoreDoc}.

Definition ScoreSortedHitQueue (epsilon : spec_float) (size : Z) : HitQueue Q := Hits (score_lessThan epsilon) (pq_new size).
Definition PropertySortedHitQueue (s : Sorter) (size : Z) : HitQueue Q := Hits (property_lessThan s) (pq_new size).

Definition hq_insert (doc : ScoreDoc) (h : HitQueue Q) : res (bool * HitQueue Q) :=
  let* (b, q) := pq_insert (hit_less h) doc (hit_queue h) in Ret (b, Hits (hit_less h) q).
Definition hq_pop (h : HitQueue Q) : res (ScoreDoc * HitQueue Q) :=
  let* (d, q) := pq_pop (hit_less h) (hit_queue h) in Ret (d, Hits (hit_less h) q).
Definition hq_size (h : HitQueue Q) : Z := pq_size (hit_queue h).
End HitQueue.

(** ** ScoreDocEvaluator.cpp *)
Record ScoreDocEvaluator := Evaluator {
  productScorer_ : option ranker;
  customRanker_ : option ranker;
  geoLocationRanker_ : option ranker
}.

Definition kDefaultScore : spec_float := dbl 1 0.

Definition evaluate (e : ScoreDocEvaluator) (d : ScoreDoc) : ScoreDoc :=
  Doc (docId d)
    (match productScorer_ e with Some f => f (docId d) | None => kDefaultScore end)
    (match customRanker_ e with Some f => f (docId d) | None => custom_score d end)
    (match geoLocationRanker_ e with Some f => f (docId d) | None => geo_dist d end).

(** ** SearchThreadParam.h *)

(** ResultType.h *)
Record PropertyRange := Range { highValue_ : spec_float; lowValue_ : spec_float }.
Definition no_range : PropertyRange := Range d0 d0.

(** What a worker finds. *)
Record Found (Q T : Type) := MkFound {
  totalCount : Z;
  propertyRange : PropertyRange;
  counterResults : list (string * Z);
  groupRep : GroupRep T;
  attrRep : list (item T);
  scoreItemQueue : option (HitQueue Q)
}.
Arguments MkFound {_ _} _ _ _ _ _ _.
Arguments totalCount {_ _} _.
Arguments propertyRange {_ _} _.
Arguments counterResults {_ _} _.
Arguments groupRep {_ _} _.
Arguments attrRep {_ _} _.
Arguments scoreItemQueue {_ _} _.

Record SearchThreadParam (Q T : Type) := Param {
  found_ : Found Q T;
  originAttrGroupNum : Z;
  rankers_ : prepared;            (* pSorter, customRanker, geoLocationRanker *)
  heapSize : Z;
  threadId : Z;
  docIdBegin : Z;
  docIdEnd : Z;
  isSuccess : bool
}.
Arguments Param {_ _} _ _ _ _ _ _ _ _.
Arguments found_ {_ _} _.
Arguments originAttrGroupNum {_ _} _.
Arguments rankers_ {_ _} _.
Arguments heapSize {_ _} _.
Arguments threadId {_ _} _.
Arguments docIdBegin {_ _} _.
Arguments docIdEnd {_ _} _.
Arguments isSuccess {_ _} _.

Section Param.
Context {Q T : Type}.
Implicit Types p : SearchThreadParam Q T.

Definition new_found : Found Q T := MkFound 0 no_range [] clear [] None.
Definition no_rankers : prepared := Prepared None None None.
Definition new_param (heap : Z) : SearchThreadParam Q T := Param new_found 0 no_rankers heap 0 0 0 false.

Definition set_found (f : Found Q T) p : SearchThreadParam Q T :=
  Param f (originAttrGroupNum p) (rankers_ p) (heapSize p) (threadId p) (docIdBegin p) (docIdEnd p) (isSuccess p).
Definition set_rankers (r : prepared) p : SearchThreadParam Q T :=
  Param (found_ p) (originAttrGroupNum p) r (heapSize p) (threadId p) (docIdBegin p) (docIdEnd p) (isSuccess p).
Definition set_origin (n : Z) p : SearchThreadParam Q T :=
  Param (found_ p) n (rankers_ p) (heapSize p) (threadId p) (docIdBegin p) (docIdEnd p) (isSuccess p).
Definition set_range (i b e : Z) p : SearchThreadParam Q T :=
  Param (found_ p) (originAttrGroupNum p) (rankers_ p) (heapSize p) i b e (isSuccess p).
Definition set_success (b : bool) p : SearchThreadParam Q T :=
  Param (found_ p) (originAttrGroupNum p) (rankers_ p) (heapSize p) (threadId p) (docIdBegin p) (docIdEnd p) b.
End Param.

(** ** SearchThreadWorker::doSearch_ *)

(** What the worker uses of a group filter. *)
Class FilterOps (T F : Type) := {
  flt_test : Z -> F -> res (bool * F);
  flt_getGroupRep : GroupRep T -> list (item T) -> F -> res (GroupRep T * list (item T) * F)
}.

Section Worker.
Context {S Q T F : Type} `{!DocIterator S, !PQueue Q ScoreDoc, !FilterOps T F}.

(** The range property and the properties to count, with their tables. A
    missing range table is not read, a missing counter table is. *)
Context (rangePropertyTable : option NumericPropertyTableBase).
Context (counterList : list (string * option NumericPropertyTableBase)).
Context (scoreDocEvaluator : ScoreDocEvaluator).

(** The local variables that the loop changes. *)
Record loop_state := Loop {
  l_filter : option F;
  lowValue : spec_float;
  highValue : spec_float;
  counterValues : list Z;
  l_total : Z;
  l_queue : HitQueue Q
}.

(** groupFilter && !groupFilter->test(curDocId) *)
Definition test_filter (curDocId : Z) (st : loop_state) : res (bool * loop_state) :=
  match l_filter st with
  | None => Ret (true, st)
  | Some f =>
      let* (b, f) := flt_test curDocId f in
      Ret (b, Loop (Some f) (lowValue st) (highValue st) (counterValues st) (l_total st) (l_queue st))
  end.

Definition widen_range (curDocId : Z) (st : loop_state) : res loop_state :=
  match rangePropertyTable with
  | None => Ret st
  | Some table =>
      let* v := base_getFloatValue table curDocId in
      match v with
      | None => Ret st
      | Some v =>
          Ret (Loop (l_filter st) (if flt v (lowValue st) then v else lowValue st) (if fgt v (highValue st) then v else highValue st)
                 (counterValues st) (l_total st) (l_queue st))
      end
  end.

Fixpoint add_values (curDocId : Z) (tables : list (string * option NumericPropertyTableBase)) (values : list Z) : res (list Z) :=
  match tables, values with
  | (_, Some table) :: tables, c :: values =>
      let* v := base_getInt32Value table curDocId in
      let* values := add_values curDocId tables values in
      Ret (match v with Some v => u32 (c + v) | None => c end :: values)
  | [], _ => Ret values
  | _, _ => Undef
  end.

Definition count_values (curDocId : Z) (st : loop_state) : res loop_state :=
  let* values := add_values curDocId counterList (counterValues st) in
  Ret (Loop (l_filter st) (lowValue st) (highValue st) values (l_total st) (l_queue st)).

Definition insert_hit (curDocId : Z) (st : loop_state) : res loop_state :=
  let scoreItem := evaluate scoreDocEvaluator (score_doc curDocId d0) in
  let* (_, q) := hq_insert scoreItem (l_queue st) in
  Ret (Loop (l_filter st) (lowValue st) (highValue st) (counterValues st) (u64 (l_total st + 1)) q).

(** What is done with one document. *)
Definition process_doc (curDocId : Z) (st : loop_state) : res loop_state :=
  let* (ok, st) := test_filter curDocId st in
  if negb ok then Ret st
  else
    let* st := widen_range curDocId st in
    let* st := count_values curDocId st in
    insert_hit curDocId st.

(** do { ... } while (docIterator.next()) *)
Definition doSearch_body (docIdEnd : Z) (st : S * loop_state) : res (S * loop_state + loop_state) :=
  let (docIterator, st) := st in
  let curDocId := di_doc docIterator in
  if docIdEnd <=? curDocId then Ret (inr st)
  else
    let* st := process_doc curDocId st in
    let* (b, docIterator) := di_next docIterator in
    Ret (if b then inl (docIterator, st) else inr st).

Definition counter_results (tables : list (string * option NumericPropertyTableBase)) (values : list Z) (m : list (string * Z)) : list (string * Z) :=
  foldl (fun m p => om_set m p.1.1 p.2) m (zip tables values).

(** The queue was made before; what the filter counted is read off later. *)
Definition doSearch_ (param : SearchThreadParam Q T) (docIterator : S) (groupFilter : option F)
  : res (SearchThreadParam Q T * option F) :=
  let f := found_ param in
  match scoreItemQueue f with
  | None => Undef
  | Some queue =>
      let st := Loop groupFilter FLT_MAX (SFopp FLT_MAX) (map (fun _ => 0) counterList) (totalCount f) queue in
      let* (_, docIterator) := di_skipTo (docIdBegin param) docIterator in
      let* st := while_loop (doSearch_body (docIdEnd param)) (docIterator, st) in
      let range :=
        match rangePropertyTable with
        | Some _ => if fle (lowValue st) (highValue st) then Range (highValue st) (lowValue st) else propertyRange f
        | None => propertyRange f
        end in
      let counters := counter_results counterList (counterValues st) (counterResults f) in
      Ret (set_found (MkFound (l_total st) range counters (groupRep f) (attrRep f) (Some (l_queue st))) param, l_filter st)
  end.
End Worker.

(** ** SearchThreadWorker::search

What a request and the collection provide. [iterator]: the combined document
iterator, none when nothing can match; [makeFilter]: createFilter of the filter
builder for the number of attribute groups wanted, if there is a builder; a
preparation that throws ends the search. *)
Record SearchSetting (S T F D : Type) := Setting {
  numericTableBuilder_ : option (string -> option NumericPropertyTableBase);
  rtypeStringPropBuilder_ : option (string -> option (RTypeStringPropTable D));
  epsilon : spec_float;
  prepareSorter_ : prepared -> res prepared;
  iterator : res (option S);
  gatherInfo : bool;
  makeFilter : option (Z -> PropSharedLockSet -> res (option F * PropSharedLockSet));
  productScorer : option ranker;
  rangeTable : option NumericPropertyTableBase;
  counters : list (string * option NumericPropertyTableBase)
}.
Arguments Setting {_ _ _ _} _ _ _ _ _ _ _ _ _ _.
Arguments numericTableBuilder_ {_ _ _ _} _.
Arguments rtypeStringPropBuilder_ {_ _ _ _} _.
Arguments epsilon {_ _ _ _} _.
Arguments prepareSorter_ {_ _ _ _} _.
Arguments iterator {_ _ _ _} _.
Arguments gatherInfo {_ _ _ _} _.
Arguments makeFilter {_ _ _ _} _.
Arguments productScorer {_ _ _ _} _.
Arguments rangeTable {_ _ _ _} _.
Arguments counters {_ _ _ _} _.

(** try { m } catch (std::exception&) { h } *)
Definition try_catch {A} (m h : res A) : res A := match m with Throw _ => h | _ => m end.
Definition attempt {A} (m : res A) : res (option A) := try_catch (Some <$> m) (Ret None).

Section Search.
Context {S Q T F D QA : Type} `{!DocIterator S, !PQueue Q ScoreDoc, !FilterOps T F, !LuxArray D, !TextOrder T, !PQueue QA (T * spec_float)}.
Context (env : SearchSetting S T F D).
Implicit Types p : SearchThreadParam Q T.

Definition with_queue (q : option (HitQueue Q)) (f : Found Q T) : Found Q T :=
  MkFound (totalCount f) (propertyRange f) (counterResults f) (groupRep f) (attrRep f) q.
Definition with_reps (g : GroupRep T) (a : list (item T)) (f : Found Q T) : Found Q T :=
  MkFound (totalCount f) (propertyRange f) (counterResults f) g a (scoreItemQueue f).

(** The queue for the sorter, which gets its comparators. *)
Definition make_queue p (locks : PropSharedLockSet) : res (SearchThreadParam Q T * PropSharedLockSet) :=
  let r := rankers_ p in
  match pSorter r with
  | Some s =>
      let* (s, locks) := createComparators (numericTableBuilder_ env) (rtypeStringPropBuilder_ env) s locks in
      let p := set_rankers (Prepared (Some s) (customRanker r) (geoLocationRanker r)) p in
      Ret (set_found (with_queue (Some (PropertySortedHitQueue s (heapSize p))) (found_ p)) p, locks)
  | None => Ret (set_found (with_queue (Some (ScoreSortedHitQueue (epsilon env) (heapSize p))) (found_ p)) p, locks)
  end.

(** The search proper, inside its try block. *)
Definition run_search (attrGroupNum : Z) (docIterator : S) p (locks : PropSharedLockSet) : res (bool * SearchThreadParam Q T) :=
  let* (groupFilter, locks) :=
    (match makeFilter env with
     | Some createFilter => createFilter attrGroupNum locks
     | None => Ret (None, locks)
     end) in
  let scoreDocEvaluator := Evaluator (productScorer env) (customRanker (rankers_ p)) (geoLocationRanker (rankers_ p)) in
  try_catch
    (let* (p, groupFilter) := doSearch_ (rangeTable env) (counters env) scoreDocEvaluator p docIterator groupFilter in
     match groupFilter with
     | Some f =>
         let* (g, a, _) := flt_getGroupRep (groupRep (found_ p)) (attrRep (found_ p)) f in
         Ret (true, set_found (with_reps g a (found_ p)) p)
     | None => Ret (true, p)
     end)
    (Ret (false, p)).

(** A failed search leaves a parameter nobody reads. *)
Definition search (attrGroupNum : Z) p : res (bool * SearchThreadParam Q T) :=
  let* docIterator := attempt (iterator env) in
  match docIterator with
  | None => Ret (false, p)
  | Some docIterator =>
      let* prep := attempt (prepareSorter_ env (rankers_ p)) in
      match prep with
      | None => Ret (false, p)
      | Some prep =>
          let* (p, locks) := make_queue (set_rankers prep p) [] in
          match docIterator with
          | None => Ret (false, p)
          | Some docIterator => if gatherInfo env then Ret (true, p) else run_search attrGroupNum docIterator p locks
          end
      end
  end.

(** ** SearchThreadMaster *)

(** [s_cpu_topology_info]: the numbers of CPUs of the nodes, if supported. *)
Record MasterInfo := Master {
  isParallelEnabled_ : bool;
  maxDocId_ : Z;
  s_cpunum : Z;
  cpu_topology_array : option (list Z)
}.

Definition PARALLEL_THRESHOLD : Z := 80000.

(** The number of threads, the node they run on, and the new round. *)
Definition getThreadInfo_ (m : MasterInfo) (s_round : Z) : res (Z * Z * Z) :=
  let* (threadNum, runningNode, s_round) :=
    (match cpu_topology_array m with
     | Some nodes =>
         if vsize nodes =? 0 then Undef
         else
           let s_round := s_round + 1 in
           let runningNode := s_round mod vsize nodes in
           let* n := vget nodes runningNode in Ret (n, runningNode, s_round)
     | None => Ret (s_cpunum m, 0, s_round)
     end) in
  let single := negb (isParallelEnabled_ m) || (maxDocId_ m <? PARALLEL_THRESHOLD) || gatherInfo env in
  Ret (if single then 1 else threadNum, runningNode, s_round).

(** The ranges of the threads. *)
Definition split_docs (maxDocId threadNum heap : Z) : res (list (SearchThreadParam Q T)) :=
  if threadNum =? 0 then Undef
  else
    let averageDocNum := u64 (maxDocId / threadNum + 1) in
    Ret (map (fun i => set_range i (u64 (i * averageDocNum)) (u64 ((i + 1) * averageDocNum)) (new_param heap)) (seqZ 0 threadNum)).

(** With several threads the request asks for all attributes, and the first
    parameter keeps the number it asked for. *)
Definition prepareThreadParams (m : MasterInfo) (s_round attrGroupNum heap : Z) : res (list (SearchThreadParam Q T) * Z * Z) :=
  let* (threadNum, _, s_round) := getThreadInfo_ m s_round in
  let* params := split_docs (maxDocId_ m) threadNum heap in
  match params with
  | p :: (_ :: _) as rest => Ret (set_origin attrGroupNum p :: tail params, originAttrGroupNum p, s_round)
  | _ => Ret (params, attrGroupNum, s_round)
  end.

Definition runSearchJob_ (attrGroupNum : Z) p : res (SearchThreadParam Q T) :=
  let* (ok, p) := search attrGroupNum p in Ret (set_success ok p).

Definition runThreadParams (attrGroupNum : Z) (params : list (SearchThreadParam Q T)) : res (bool * list (SearchThreadParam Q T)) :=
  match params with
  | [p] => let* (ok, p) := try_catch (search attrGroupNum p) (Ret (false, p)) in Ret (ok, [p])
  | _ => let* params := each (runSearchJob_ attrGroupNum) params in Ret (true, params)
  end.

(** while (param.scoreItemQueue->size() > 0) masterQueue->insert(param.scoreItemQueue->pop()) *)
Definition move_hits_body (st : HitQueue Q * HitQueue Q) : res (HitQueue Q * HitQueue Q + HitQueue Q * HitQueue Q) :=
  let (master, queue) := st in
  if 0 <? hq_size queue then
    let* (d, queue) := hq_pop queue in
    let* (_, master) := hq_insert d master in
    Ret (inl (master, queue))
  else Ret (inr (master, queue)).

Definition move_hits (master queue : HitQueue Q) : res (HitQueue Q * HitQueue Q) := while_loop move_hits_body (master, queue).

(** std::max and std::min answer their first argument unless the second is
    greater, or less. *)
Definition std_max (a b : spec_float) : spec_float := if flt a b then b else a.
Definition std_min (a b : spec_float) : spec_float := if flt b a then b else a.

Definition merge_range (master range : PropertyRange) : PropertyRange :=
  if fle (lowValue_ range) (highValue_ range) then
    Range (std_max (highValue_ range) (highValue_ master)) (std_min (lowValue_ range) (lowValue_ master))
  else master.

Definition merge_counters (master results : list (string * Z)) : list (string * Z) :=
  foldl (fun m c => om_set m c.1 (u32 (default 0 (om_find m c.1) + c.2))) master results.

(** One turn of the loop: the master's findings and the lists of the others. *)
Definition merge_param (master : Found Q T) (otherAttrReps : list (list (item T))) p : res (option (Found Q T * list (list (item T)))) :=
  if negb (isSuccess p) then Ret None
  else
    let f := found_ p in
    match scoreItemQueue master, scoreItemQueue f with
    | Some masterQueue, Some queue =>
        let* (masterQueue, _) := move_hits masterQueue queue in
        let range := merge_range (propertyRange master) (propertyRange f) in
        let counters := merge_counters (counterResults master) (counterResults f) in
        let* (g, _) := GroupRep.merge (groupRep master) (groupRep f) in
        Ret (Some (MkFound (u64 (totalCount master + totalCount f)) range counters g (attrRep master) (Some masterQueue),
                   otherAttrReps ++ [attrRep f]))
    | _, _ => Undef
    end.

Fixpoint merge_params (master : Found Q T) (otherAttrReps : list (list (item T))) (params : list (SearchThreadParam Q T))
  : res (option (Found Q T * list (list (item T)))) :=
  match params with
  | [] => Ret (Some (master, otherAttrReps))
  | p :: params =>
      let* r := merge_param master otherAttrReps p in
      match r with
      | Some (master, otherAttrReps) => merge_params master otherAttrReps params
      | None => Ret None
      end
  end.

(** The merged parameter and the number of attribute groups of the request;
    none if a thread failed. *)
Definition mergeThreadParams (attrGroupNum : Z) (params : list (SearchThreadParam Q T)) : res (option (SearchThreadParam Q T * Z)) :=
  match params with
  | [] => Undef
  | [p] => Ret (Some (p, attrGroupNum))
  | p :: params =>
      if negb (isSuccess p) then Ret None
      else
        let* r := merge_params (found_ p) [] params in
        match r with
        | None => Ret None
        | Some (f, otherAttrReps) =>
            let* (a, _) := OntologyRep.merge (Q := QA) (originAttrGroupNum p) (attrRep f) otherAttrReps in
            Ret (Some (set_origin attrGroupNum (set_found (with_reps (groupRep f) a f) p), originAttrGroupNum p))
        end
  end.

(** ** The result of a search: KeywordSearchResult of ResultType.h *)
Record KeywordSearchResult := Result {
  totalCount_ : Z;
  propertyRange_ : PropertyRange;
  counterResults_ : list (string * Z);
  groupRep_ : GroupRep T;
  attrRep_ : list (item T);
  topKDocs_ : list Z;
  topKRankScoreList_ : list spec_float;
  topKCustomRankScoreList_ : list spec_float;
  topKGeoDistanceList_ : list spec_float;
  sortData_ : SortData
}.

Definition fetch_scores (r : option ranker) (score : ScoreDoc -> spec_float) (docs : list ScoreDoc) : list spec_float :=
  match r with Some _ => map (fun d => double_to_float (score d)) docs | None => [] end.

(** Scores are rounded to [float]; the queue gives the worst document first. *)
Definition fetchSearchResult (offset : Z) p : res (option KeywordSearchResult) :=
  let f := found_ p in
  match scoreItemQueue f with
  | None => Undef
  | Some queue =>
      let count := if offset <? hq_size queue then hq_size queue - offset else 0 in
      let* (docs, _) := mfold (fun _ '(v, queue) => let* (d, queue) := hq_pop queue in Ret (d :: v, queue)) (seqZ 0 count) ([], queue) in
      let docIdList := map docId docs in
      let* data :=
        (match pSorter (rankers_ p) with
         | Some s =>
             attempt (let* (data, _) := fillSearchInfoWithSortPropertyData (numericTableBuilder_ env) (rtypeStringPropBuilder_ env) s docIdList no_sort_data [] in
                      Ret data)
         | None => Ret (Some no_sort_data)
         end) in
      Ret (match data with
           | Some data =>
               Some (Result (totalCount f) (propertyRange f) (counterResults f) (groupRep f) (attrRep f) docIdList
                       (map (fun d => double_to_float (score d)) docs)
                       (fetch_scores (customRanker (rankers_ p)) custom_score docs)
                       (fetch_scores (geoLocationRanker (rankers_ p)) geo_dist docs) data)
           | None => None
           end)
  end.

(** The result nothing was put into. *)
Definition new_result : KeywordSearchResult := Result 0 no_range [] clear [] [] [] [] [] no_sort_data.

(** NormalSearch::search: none for false. *)
Definition NormalSearch_search (m : MasterInfo) (s_round attrGroupNum limit offset : Z) : res (option KeywordSearchResult) :=
  let* (params, attrGroupNum, _) := prepareThreadParams m s_round attrGroupNum (u64 (limit + offset)) in
  let* (ok, params) := runThreadParams attrGroupNum params in
  if negb ok then Ret None
  else if gatherInfo env then Ret (Some new_result)
  else
    let* r := mergeThreadParams attrGroupNum params in
    match r with
    | None => Ret None
    | Some (p, _) => fetchSearchResult offset p
    end.
End Search.
