(* ===== verification/SearchResult.v ===== *)
(** * What a search finds

The specification of the search of SearchThread.v and the proof that it is met
for every number of threads: the page of the best documents in order, the
number of documents and the sums of the counters are those of the documents
that the iterator enumerates and the filter accepts. *)
From S2P Require Import Prelude PQueue TopK Float64 OrdMap DocIterator OntologyRep GroupRep SharedLock NumTable RTypeTable Sorter SearchPrepare SearchThread.

(** ** The ranges of the threads *)

Definition in_range (b e : Z) (docs : list Z) : list Z := filter (fun d => b <= d < e) docs.

Lemma in_range_elem b e docs d : d ∈ in_range b e docs <-> d ∈ docs /\ b <= d < e.
Proof. unfold in_range. rewrite list_elem_of_filter. tauto. Qed.

Lemma in_range_all b e docs : (forall d, d ∈ docs -> b <= d < e) -> in_range b e docs = docs.
Proof. intros H. by apply filter_all. Qed.

Lemma in_range_join b m e docs : ssorted docs -> b <= m <= e -> in_range b e docs = in_range b m docs ++ in_range m e docs.
Proof.
  intros Hs Hm. apply ssorted_ext; [by apply ssorted_filter| |].
  - apply StronglySorted_app. split; [|split; by apply ssorted_filter].
    intros x y Hx%in_range_elem Hy%in_range_elem. lia.
  - intros x. rewrite elem_of_app, !in_range_elem. split; intros; [|intuition lia].
    destruct (decide (x < m)); [left|right]; intuition lia.
Qed.

(** ** One worker *)
Section Loop.
Context {S Q T F : Type} `{!DocIterator S, !DocNextSpec S, !StartLaw S, !PQueue Q ScoreDoc, !FilterOps T F}.
Context (rangePropertyTable : option NumericPropertyTableBase).
Context (counterList : list (string * option NumericPropertyTableBase)).
Context (e : ScoreDocEvaluator).
Notation process := (process_doc (T := T) (F := F) (Q := Q) rangePropertyTable counterList e).

(** The loop processes the documents of the range, one after the other. *)
Lemma doSearch_loop it docs b docIdEnd (st st' : loop_state (Q := Q) (F := F)) :
  di_rep it (Cursor true docs) -> 0 <= b < MAX_DOC_ID -> docIdEnd <= MAX_DOC_ID ->
  mfold process (in_range b docIdEnd docs) st = Ret st' ->
  (let* (_, it) := di_skipTo b it in
   while_loop (doSearch_body (T := T) rangePropertyTable counterList e docIdEnd) (it, st)) = Ret st'.
Proof.
  intros Hit Hb Hend Hfold. destruct (start_law it docs b Hit Hb) as (it1 & E & Hit1 & Hmax). rewrite E. cbn [res_bind].
  pose proof (di_rep_wf _ _ Hit) as [Hsort Hlt]. cbn [cu_pend] in *.
  set (p := pend_from b docs) in *.
  assert (in_range b docIdEnd docs = filter (fun d => d < docIdEnd) p) as Ep.
  { subst p. unfold in_range, pend_from. rewrite list_filter_filter. apply list_filter_iff. intros d. tauto. }
  rewrite Ep in Hfold.
  destruct (while_loop_rule (doSearch_body (T := T) rangePropertyTable counterList e docIdEnd)
    (fun p '(it, st) => di_rep it (Cursor false p) /\ (p = [] -> di_doc it = MAX_DOC_ID) /\ mfold process (filter (fun d => d < docIdEnd) p) st = Ret st')
    (fun p => vsize p) (fun r => r = st')) with (g := p) (s := (it1, st)) as (r & -> & ->); [| | |done].
  - intros q [it2 st2] (Hit2 & Hdoc & Hf). split; [apply vsize_nonneg|]. unfold doSearch_body.
    destruct q as [|d q].
    { right. rewrite Hdoc by done. destruct (Z.leb_spec docIdEnd MAX_DOC_ID); [|lia]. eexists. split; [done|]. by injection Hf. }
    rewrite (di_doc_spec _ _ _ Hit2). destruct (Z.leb_spec docIdEnd d) as [Hle|Hgt].
    + right. eexists. split; [done|]. rewrite filter_cons_False in Hf by lia.
      pose proof (di_rep_wf _ _ Hit2) as [Hs _]. cbn [cu_pend] in Hs.
      replace (filter (fun d => d < docIdEnd) q) with (@nil Z) in Hf; [by injection Hf|]. symmetry.
      destruct (filter _ q) as [|x l] eqn:Ex; [done|]. assert (x ∈ filter (fun d => d < docIdEnd) q) as Hx by (rewrite Ex; by left).
      apply list_elem_of_filter in Hx as [Hx1 Hx2]. pose proof (ssorted_head_lt _ _ _ Hs Hx2). lia.
    + rewrite filter_cons_True in Hf by lia. cbn [mfold] in Hf. apply bind_Ret_inv in Hf as (st3 & Est & Hf).
      rewrite Est. cbn [res_bind]. destruct (di_next_spec _ _ Hit2) as (it3 & En & Hit3). rewrite En. cbn [res_bind].
      unfold cursor_next, pend_after_next in *. cbn [cu_fresh cu_pend tail fst snd] in *.
      destruct q as [|d' q].
      * right. eexists. split; [done|]. by injection Hf.
      * left. eexists (d' :: q), _. split; [done|]. split; [done|]. rewrite !vsize_cons. lia.
  - split; [exact Hit1|]. split; [|done]. intros Hp. apply Hmax. unfold cursor_skipTo. cbn [fst cu_pend]. fold p. by rewrite Hp.
  - assert (vsize p <= vsize docs).
    { subst p. unfold pend_from, vsize. pose proof (length_filter (fun d => b <= d) docs). lia. }
    pose proof (cursor_wf_size _ (di_rep_wf _ _ Hit)) as Hsz. cbn in Hsz. unfold MAX_DOC_ID, loop_fuel in *. lia.
Qed.
End Loop.

(** ** The queues

[less], the test of the queues, is a weak order [lt] on the documents [P]. *)
Section Hits.
Context {Q : Type} `{!PQueue Q ScoreDoc, !PQueueSpec Q ScoreDoc}.
Context (less lt : ScoreDoc -> ScoreDoc -> bool) (P : ScoreDoc -> Prop) `{!StrictWeak lt}.
Hypothesis Hless : forall x y, P x -> P y -> less x y = lt x y.

(** The queue holds the best [k] of [seen]. *)
Definition holds (k : Z) (seen : list ScoreDoc) (h : HitQueue Q) : Prop :=
  hit_less h = less /\ exists r, pq_rep lt k (hit_queue h) r /\ best_of lt k seen r.

Lemma best_in k seen r x : best_of lt k seen r -> x ∈ r -> x ∈ seen.
Proof. intros (_ & rest & Hp & _) Hx. rewrite Hp. apply elem_of_app. by left. Qed.

Lemma agree_on_P l : Forall P l -> forall x y, x ∈ l -> y ∈ l -> less x y = lt x y.
Proof. rewrite Forall_forall. auto. Qed.

Lemma new_holds k : 0 <= k < 2 ^ 31 -> holds k [] (Hits less (pq_new k)).
Proof.
  intros Hk. split; [done|]. exists []. split; [by apply pq_new_spec|].
  split; [unfold vsize; cbn; lia|]. exists []. split; [done|]. by intros x y ?%elem_of_nil.
Qed.

Lemma insert_holds k seen h a : holds k seen h -> Forall P seen -> P a ->
  exists b h', hq_insert a h = Ret (b, h') /\ holds k (seen ++ [a]) h'.
Proof.
  intros [Hl (r & Hq & Hb)] Hseen Ha. unfold hq_insert. rewrite Hl.
  destruct (pq_cong lt less k _ r a Hq) as [_ ->].
  { apply agree_on_P. constructor; [done|]. rewrite Forall_forall in Hseen |- *. intros x Hx. by eapply Hseen, best_in. }
  destruct (offer_all_spec lt k [a] _ seen r Hq Hb) as (q' & r' & E & Hq' & Hb'). unfold offer_all in E. cbn [mfold] in E.
  destruct (pq_insert lt a (hit_queue h)) as [[b q1]| | |]; try done. cbn in E. injection E as ->.
  cbn [res_bind]. eexists b, _. split; [done|]. split; [done|]. by exists r'.
Qed.

Lemma pop_step k h r : hit_less h = less -> pq_rep lt k (hit_queue h) r -> Forall P r -> r <> [] ->
  exists a h' r', hq_pop h = Ret (a, h') /\ hit_less h' = less /\ pq_rep lt k (hit_queue h') r' /\ r ≡ₚ a :: r'.
Proof.
  intros Hl Hq Hr Hne. unfold hq_pop. rewrite Hl, (pq_pop_cong lt less k _ r Hq) by (by apply agree_on_P).
  destruct (pq_pop_spec lt k _ r _ Hq Hne) as (a & r' & _ & Hp & _ & Hpop).
  destruct (Hpop lt _ (fun _ _ _ _ => eq_refl)) as (q' & -> & Hq'). cbn [res_bind]. by exists a, (Hits less q'), r'.
Qed.

(** Moving all hits of a queue to another one. *)
Lemma move_hits_ok k l l' h h' : 0 <= k < 2 ^ 31 -> holds k l h -> holds k l' h' -> Forall P l -> Forall P l' ->
  exists out rest, move_hits h h' = Ret (out, rest) /\ holds k (l ++ l') out.
Proof.
  intros Hk [Hless1 (r & Hq & Hb)] [Hless2 (r' & Hq' & Hb')] HP HP'.
  assert (Forall P r') as Hr' by (rewrite Forall_forall in HP' |- *; intros x Hx; by eapply HP', best_in).
  destruct (while_loop_rule (move_hits_body (Q := Q))
    (fun rest '(master, queue) => hit_less queue = less /\ pq_rep lt k (hit_queue queue) rest /\
       exists moved, r' ≡ₚ moved ++ rest /\ holds k (r ++ moved) master)
    (fun rest => vsize rest) (fun '(master, queue) => holds k (r ++ r') master)) with (g := r') (s := (h, h'))
    as ([out rest] & E & Hout); [| | |].
  - intros rest [master queue] (Hl & Hqq & moved & Hp & Hm). split; [apply vsize_nonneg|]. unfold move_hits_body, hq_size.
    rewrite (pq_size_spec _ _ _ _ Hqq). destruct rest as [|x rest]; [right; eexists; split; [done|]|left].
    { rewrite app_nil_r in Hp. destruct Hm as [Hml (rm & Hmq & Hmb)]. split; [done|]. exists rm. split; [done|].
      eapply best_of_perm_l; [done|]. by rewrite Hp. }
    assert (Forall P moved /\ Forall P (x :: rest)) as [Hmv Hrest] by (apply Forall_app; by rewrite <- Hp).
    destruct (Z.ltb_spec 0 (vsize (x :: rest))) as [_|Hge]; [|rewrite vsize_cons in Hge; pose proof (vsize_nonneg rest); lia].
    destruct (pop_step k queue (x :: rest)) as (a & queue' & rest' & -> & Hl' & Hqq' & Hp'); [done..|]. cbn [res_bind].
    assert (P a) as Ha by (rewrite Hp' in Hrest; by apply Forall_inv in Hrest).
    destruct (insert_holds k (r ++ moved) master a) as (b & master' & -> & Hm'); [done| |done|].
    { apply Forall_app. split; [|done]. rewrite Forall_forall in HP |- *. intros y Hy. by eapply HP, best_in. }
    cbn [res_bind]. eexists rest', _. split; [done|]. split; [split; [done|split; [done|]]|].
    + exists (moved ++ [a]). rewrite <- !app_assoc in *. split; [by rewrite Hp, Hp'|done].
    + assert (vsize (x :: rest) = vsize (a :: rest')) as -> by (unfold vsize; by rewrite Hp'). rewrite vsize_cons. lia.
  - split; [done|]. split; [done|]. exists []. split; [done|]. rewrite app_nil_r. split; [done|]. exists r. split; [done|].
    pose proof (pq_rep_size _ _ _ _ Hq). split; [lia|]. exists []. rewrite app_nil_r. split; [done|]. by intros y z _ ?%elem_of_nil.
  - pose proof (pq_rep_size _ _ _ _ Hq'). unfold loop_fuel. lia.
  - exists out, rest. split; [exact E|]. destruct Hout as [Hl (ro & Hqo & Hbo)]. split; [done|]. exists ro. split; [done|].
    apply (best_of_app lt k l l' r r'); [lia|done..].
Qed.

(** Reading the page off the queue: all but the [offset] best, in order. *)
Lemma fetch_ok k l h offset : 0 <= k -> 0 <= offset -> holds k l h -> Forall P l -> total_on lt l ->
  let count := if offset <? hq_size h then hq_size h - offset else 0 in
  exists h', mfold (fun (_ : Z) '(v, queue) => let* (d, queue) := hq_pop queue in Ret (d :: v, queue)) (seqZ 0 count) ([], h) =
    Ret (drop (Z.to_nat offset) (take (Z.to_nat k) (sort_desc lt l)), h').
Proof.
  intros Hk Ho [Hl (r & Hq & Hb)] HP Ht count.
  assert (forall xs v q, mfold (fun (_ : Z) '(v, queue) => let* (d, queue) := hq_pop queue in Ret (d :: v, queue)) xs (v, Hits less q) =
    (let* (v, q) := mfold (fun (_ : Z) '(v, q) => let* (a, q) := pq_pop less q in Ret (a :: v, q)) xs (v, q) in Ret (v, Hits less q))) as Hmf.
  { intros xs. induction xs as [|x xs IH]; intros v q; [done|]. cbn [mfold]. unfold hq_pop at 1. cbn [hit_less hit_queue].
    destruct (pq_pop less q) as [[d q']| | |]; cbn [res_bind]; [apply IH|done..]. }
  destruct h as [hl q]. cbn [hit_less hit_queue] in *. subst hl. rewrite Hmf.
  assert (Forall P r) as Hr by (rewrite Forall_forall in HP |- *; intros x Hx; by eapply HP, best_in).
  assert (hq_size (Hits less q) = vsize r) as Hs by (exact (pq_size_spec _ _ _ _ Hq)).
  assert (count = Z.max 0 (vsize r - offset)) as Hc by (unfold count; rewrite Hs; destruct (Z.ltb_spec offset (vsize r)); lia).
  rewrite Hc. pose proof (vsize_nonneg r).
  rewrite (pop_into_agree lt less k (Z.max 0 (vsize r - offset)) [] q r Hq ltac:(lia) (agree_on_P r Hr) 0).
  destruct (pop_into_spec lt k (Z.max 0 (vsize r - offset)) q r Hq ltac:(lia)) as (v & q' & r' & E & _ & Hp & Hsz & Hd & Hle).
  unfold pop_into in E. rewrite E. cbn [res_bind]. exists (Hits less q'). f_equal. f_equal.
  rewrite <- (best_of_sort lt k l r) by done.
  assert (total_on lt r) as Htr by (eapply total_on_sub; [|exact Ht]; intros x; by eapply best_in).
  rewrite (sort_desc_split lt r r' v) by (done || (by rewrite Hp, Permutation_app_comm) || (intros x y Hx Hy; by apply Hle)).
  assert (total_on lt v) as Htv by (eapply total_on_sub; [|exact Htr]; intros x Hx; rewrite Hp; set_solver).
  rewrite (sort_desc_unique lt v v) by done.
  assert (length (sort_desc lt r') = length r') as Hlen by (by rewrite sort_desc_perm).
  assert (vsize r = vsize v + vsize r') as Hsum by (unfold vsize; rewrite Hp, length_app; lia).
  destruct (decide (offset <= vsize r)).
  - assert (Z.to_nat offset = length (sort_desc lt r')) as -> by (unfold vsize in *; lia). by rewrite drop_app_length.
  - destruct v; [|rewrite vsize_cons in *; pose proof (vsize_nonneg v); lia]. rewrite app_nil_r, drop_ge; [done|].
    unfold vsize in *. cbn in *. lia.
Qed.
End Hits.

(** ** The interface of group filters *)

(** Documents in the order of their ids. *)
Definition docs_wf (ds : list Z) : Prop := ssorted ds /\ forall d, d ∈ ds -> 0 <= d < MAX_DOC_ID.

Lemma sublist_elem {A} (l k : list A) x : l `sublist_of` k -> x ∈ l -> x ∈ k.
Proof.
  induction 1 as [|y l k _ IH|y l k _ IH]; [done| |]; [|by right; apply IH].
  intros [->|Hx]%elem_of_cons; [by left|right; by apply IH].
Qed.

Lemma prefix_sublist {A} (l l' k : list A) : (l ++ l') `sublist_of` k -> l `sublist_of` k.
Proof. intros H. etransitivity; [|exact H]. by apply sublist_inserts_r. Qed.

Lemma docs_wf_sublist ds docs : ds `sublist_of` docs -> docs_wf docs -> docs_wf ds.
Proof.
  intros Hsub [Hs Hd]. split; [|intros d H; apply Hd; by eapply sublist_elem].
  clear Hd. induction Hsub as [|x l k Hsub IH|x l k Hsub IH]; [done| |]; apply StronglySorted_cons in Hs as [Hx Hs]; [|by apply IH].
  apply StronglySorted_cons. split; [|by apply IH]. rewrite Forall_forall in Hx |- *. intros y Hy. apply Hx. by eapply sublist_elem.
Qed.

(** [flt_rep n f ds]: the filter, made for [n] attribute groups (0 for all), has
    tested the documents [ds]. What it counted in them, and what merging the counts
    of several threads gives, are the counts of the documents of all. FilterCounts.v
    proves the laws of the filter of GroupFilter.cpp. *)
Class FilterSpec (T F QA : Type) `{!TextOrder T, !FilterOps T F, !PQueue QA (T * spec_float)} (accepts : Z -> bool) := {
  flt_rep : Z -> F -> list Z -> Prop;
  rep_of : list Z -> GroupRep T -> Prop;
  attr_of : Z -> list Z -> list (item T) -> Prop;
  flt_test_spec : forall n f ds d, flt_rep n f ds -> docs_wf (ds ++ [d]) ->
    exists f', flt_test d f = Ret (accepts d, f') /\ flt_rep n f' (ds ++ [d]);
  flt_rep_spec : forall n f ds, flt_rep n f ds -> docs_wf ds ->
    exists g a f', flt_getGroupRep clear [] f = Ret (g, a, f') /\ rep_of ds g /\ attr_of n ds a;
  rep_merge_spec : forall ds ds' g g', docs_wf (ds ++ ds') -> rep_of ds g -> rep_of ds' g' ->
    exists g1 g2, GroupRep.merge g g' = Ret (g1, g2) /\ rep_of (ds ++ ds') g1;
  attr_merge_spec : forall n ds dss a l, 0 <= n < 2 ^ 31 -> docs_wf (ds ++ concat dss) -> attr_of 0 ds a -> Forall2 (attr_of 0) dss l ->
    exists a' l', OntologyRep.merge (Q := QA) n a l = Ret (a', l') /\ attr_of n (ds ++ concat dss) a'
}.

(** Threads without attributes. *)
Lemma merge_nothing {T QA} `{!TextOrder T, !PQueue QA (T * spec_float)} n (l : list (list (item T))) :
  Forall (fun a => a = []) l -> OntologyRep.merge (Q := QA) n [] l = Ret ([], []).
Proof.
  intros H. unfold OntologyRep.merge. assert (adopt [] l = ([], [])) as -> by (induction H as [|a l -> _ IH]; done).
  by destruct (_ || _).
Qed.

(** The sum of the values of a property. *)
Fixpoint value_sum (value : Z -> option Z) (ds : list Z) : Z :=
  match ds with [] => 0 | d :: ds => default 0 (value d) + value_sum value ds end.

Lemma value_sum_app value ds ds' : value_sum value (ds ++ ds') = value_sum value ds + value_sum value ds'.
Proof. induction ds as [|d ds IH]; [done|]. cbn [app value_sum]. rewrite IH. lia. Qed.

(** The least and the greatest value of some documents, as the loop finds them. *)
Definition low_of (value : Z -> option spec_float) (ds : list Z) : spec_float :=
  foldl (fun low d => match value d with Some v => if flt v low then v else low | None => low end) FLT_MAX ds.
Definition high_of (value : Z -> option spec_float) (ds : list Z) : spec_float :=
  foldl (fun high d => match value d with Some v => if fgt v high then v else high | None => high end) (SFopp FLT_MAX) ds.

Section Process.
Context {Q T F QA : Type} `{!PQueue Q ScoreDoc, !PQueueSpec Q ScoreDoc, !TextOrder T, !FilterOps T F, !PQueue QA (T * spec_float)}.
Context (accepts : Z -> bool) `{!FilterSpec T F QA accepts} (has_filter : bool).
Hypothesis Hall : has_filter = false -> forall d, accepts d = true.
Context (rangePropertyTable : option NumericPropertyTableBase) (range_value : Z -> option spec_float).
Context (counterList : list (string * option NumericPropertyTableBase)) (counter_value : string -> Z -> option Z).
Context (e : ScoreDocEvaluator).
Context (docs : list Z).
Hypothesis Hdocs : docs_wf docs.
Hypothesis Hrange : forall table, rangePropertyTable = Some table -> forall d, d ∈ docs -> base_getFloatValue table d = Ret (range_value d).
Hypothesis Hcounters : forall c, c ∈ counterList -> exists table, c.2 = Some table /\
  forall d, d ∈ docs -> base_getInt32Value table d = Ret (counter_value c.1 d).

(** The documents with their scores, and the order of the queues on them. *)
Definition scored (d : Z) : ScoreDoc := evaluate e (score_doc d d0).
Definition is_scored (x : ScoreDoc) : Prop := exists d, d ∈ docs /\ x = scored d.
Context (less lt : ScoreDoc -> ScoreDoc -> bool) `{!StrictWeak lt}.
Hypothesis Hless : forall x y, is_scored x -> is_scored y -> less x y = lt x y.
Context (k nattr : Z).

Definition accepted (ds : list Z) : list Z := filter (fun d => accepts d = true) ds.

Lemma accepted_app ds ds' : accepted (ds ++ ds') = accepted ds ++ accepted ds'.
Proof. apply filter_app. Qed.

Lemma scored_forall ds : ds ⊆ docs -> Forall is_scored (map scored (accepted ds)).
Proof.
  intros Hs. apply Forall_map, Forall_forall. intros d [_ Hd]%list_elem_of_filter. exists d. auto.
Qed.

(** The local variables after the documents [ds]. *)
Record loop_ok (ds : list Z) (st : loop_state (Q := Q) (F := F)) : Prop := {
  ok_filter : if has_filter then exists f, l_filter st = Some f /\ flt_rep nattr f ds else l_filter st = None;
  ok_low : rangePropertyTable <> None -> lowValue st = low_of range_value (accepted ds);
  ok_high : rangePropertyTable <> None -> highValue st = high_of range_value (accepted ds);
  ok_counters : counterValues st = map (fun c => u32 (value_sum (counter_value c.1) (accepted ds))) counterList;
  ok_total : l_total st = u64 (vsize (accepted ds));
  ok_queue : holds less lt k (map scored (accepted ds)) (l_queue st)
}.

Lemma add_values_ok d ds : d ∈ docs ->
  add_values d counterList (map (fun c => u32 (value_sum (counter_value c.1) ds)) counterList) =
  Ret (map (fun c => u32 (value_sum (counter_value c.1) (ds ++ [d]))) counterList).
Proof.
  clear Hall Hrange Hless Hdocs. intros Hd. induction counterList as [|[name table] l IH]; [done|]. cbn [map add_values fst].
  destruct (Hcounters (name, table)) as (t & Et & Hv); [by left|]. cbn [snd fst] in Et, Hv. subst table.
  rewrite Hv by done. cbn [res_bind]. rewrite IH by (intros c Hc; apply Hcounters; by right). cbn [res_bind].
  f_equal. f_equal. rewrite value_sum_app. cbn [value_sum]. destruct (counter_value name d) as [v|]; cbn.
  - rewrite u32_add_l. f_equal. lia.
  - f_equal. lia.
Qed.

Lemma low_of_snoc ds d : low_of range_value (ds ++ [d]) =
  match range_value d with Some v => if flt v (low_of range_value ds) then v else low_of range_value ds | None => low_of range_value ds end.
Proof. unfold low_of. by rewrite foldl_app. Qed.
Lemma high_of_snoc ds d : high_of range_value (ds ++ [d]) =
  match range_value d with Some v => if fgt v (high_of range_value ds) then v else high_of range_value ds | None => high_of range_value ds end.
Proof. unfold high_of. by rewrite foldl_app. Qed.

Lemma process_ok d ds st : loop_ok ds st -> (ds ++ [d]) `sublist_of` docs ->
  exists st', process_doc (T := T) rangePropertyTable counterList e d st = Ret st' /\ loop_ok (ds ++ [d]) st'.
Proof.
  intros [Hf Hlow Hhigh Hc Ht Hq] Hsub. pose proof (docs_wf_sublist _ _ Hsub Hdocs) as Hwf.
  assert (d ∈ docs /\ ds ⊆ docs) as [Hd Hds].
  { split; [|intros x Hx]; (eapply sublist_elem; [exact Hsub|]); set_solver. }
  assert (exists st1, test_filter (T := T) d st = Ret (accepts d, st1) /\
    (if has_filter then exists f, l_filter st1 = Some f /\ flt_rep nattr f (ds ++ [d]) else l_filter st1 = None) /\
    lowValue st1 = lowValue st /\ highValue st1 = highValue st /\ counterValues st1 = counterValues st /\
    l_total st1 = l_total st /\ l_queue st1 = l_queue st) as (st1 & E & Hf1 & E1 & E2 & E3 & E4 & E5).
  { unfold test_filter. destruct has_filter eqn:Eh.
    - destruct Hf as (f & -> & Hf). destruct (flt_test_spec nattr f ds d Hf Hwf) as (f' & -> & Hf'). cbn [res_bind].
      eexists. split; [done|]. cbn. split; [by exists f'|done].
    - rewrite Hf, (Hall eq_refl). by exists st. }
  unfold process_doc. rewrite E. cbn [res_bind]. rewrite <- E1 in Hlow. rewrite <- E2 in Hhigh. rewrite <- E3 in Hc. rewrite <- E4 in Ht. rewrite <- E5 in Hq.
  clear E E1 E2 E3 E4 E5 Hf. destruct (accepts d) eqn:Ea; cbn [negb].
  2: { exists st1. split; [done|]. assert (accepted (ds ++ [d]) = accepted ds) as Eacc.
    { rewrite accepted_app. unfold accepted at 2. rewrite filter_cons_False by congruence. by rewrite app_nil_r. }
    split; rewrite ?Eacc; done. }
  assert (accepted (ds ++ [d]) = accepted ds ++ [d]) as Eacc.
  { rewrite accepted_app. unfold accepted at 2. by rewrite filter_cons_True. }
  assert (exists st2, widen_range rangePropertyTable d st1 = Ret st2 /\
    (rangePropertyTable <> None -> lowValue st2 = low_of range_value (accepted ds ++ [d])) /\
    (rangePropertyTable <> None -> highValue st2 = high_of range_value (accepted ds ++ [d])) /\
    l_filter st2 = l_filter st1 /\ counterValues st2 = counterValues st1 /\ l_total st2 = l_total st1 /\ l_queue st2 = l_queue st1)
    as (st2 & -> & Hlow2 & Hhigh2 & E1 & E2 & E3 & E4).
  { unfold widen_range. destruct rangePropertyTable as [table|]; [|by exists st1].
    rewrite (Hrange table eq_refl d Hd). cbn [res_bind]. rewrite low_of_snoc, high_of_snoc.
    destruct (range_value d) as [v|]; [|exists st1; by auto 10].
    eexists. split; [done|]. cbn [lowValue highValue l_filter counterValues l_total l_queue].
    split; [by intros; rewrite Hlow|]. split; [by intros; rewrite Hhigh|done]. }
  cbn [res_bind]. unfold count_values. rewrite E2, Hc, add_values_ok by done. cbn [res_bind]. unfold insert_hit.
  cbn [l_queue l_filter lowValue highValue counterValues l_total]. rewrite E4.
  destruct (insert_holds less lt is_scored Hless k (map scored (accepted ds)) (l_queue st1) (scored d) Hq) as (b & q' & Eq & Hq').
  { by apply scored_forall. }
  { by exists d. }
  unfold scored in Eq at 1. rewrite Eq. cbn [res_bind]. eexists. split; [done|].
  split; cbn [l_queue l_filter lowValue highValue counterValues l_total]; rewrite ?Eacc; try done.
  - by rewrite E1.
  - rewrite E3, Ht, vsize_app. unfold u64. rewrite Zplus_mod_idemp_l. done.
  - by rewrite map_app.
Qed.

Lemma process_all todo : forall ds st, loop_ok ds st -> (ds ++ todo) `sublist_of` docs ->
  exists st', mfold (process_doc (T := T) rangePropertyTable counterList e) todo st = Ret st' /\ loop_ok (ds ++ todo) st'.
Proof.
  induction todo as [|d todo IH]; intros ds st Hok Hs; cbn [mfold]; [exists st; by rewrite app_nil_r|].
  rewrite (cons_middle d), app_assoc in Hs. destruct (process_ok d ds st Hok) as (st1 & -> & Hok1); [by eapply prefix_sublist|]. cbn [res_bind].
  destruct (IH (ds ++ [d]) st1 Hok1 Hs) as (st' & E & Hok'). exists st'. by rewrite <- app_assoc in Hok'.
Qed.

(** *** The counters *)

Definition counter_map (ds : list Z) : list (string * Z) :=
  counter_results counterList (map (fun c => u32 (value_sum (counter_value c.1) ds)) counterList) [].

Definition counter_find (ds : list Z) (name : string) : option Z :=
  if decide (name ∈ map fst counterList) then Some (u32 (value_sum (counter_value name) ds)) else None.

Lemma counter_map_find ds : om_sorted (counter_map ds) /\ forall name, om_find (counter_map ds) name = counter_find ds name.
Proof.
  unfold counter_map, counter_find, counter_results.
  enough (forall m, om_sorted m ->
    let m' := foldl (fun m p => om_set m p.1.1 p.2) m (zip counterList (map (fun c => u32 (value_sum (counter_value c.1) ds)) counterList)) in
    om_sorted m' /\ forall name, om_find m' name =
      if decide (name ∈ map fst counterList) then Some (u32 (value_sum (counter_value name) ds)) else om_find m name) as H.
  { destruct (H [] om_sorted_nil) as [H1 H2]. split; [done|]. intros name. by rewrite H2. }
  clear. induction counterList as [|c l IH]; intros m Hm; cbn [map zip zip_with foldl fst snd]; [done|].
  destruct (IH (om_set m c.1 (u32 (value_sum (counter_value c.1) ds))) (om_set_sorted _ _ _ Hm)) as [H1 H2].
  split; [done|]. intros name. rewrite H2. destruct (decide (name ∈ map fst l)) as [Hin|Hin].
  - rewrite decide_True; [done|]. by right.
  - destruct (decide (name = c.1)) as [->|Hne].
    + rewrite decide_True by (by left). apply om_find_set_eq.
    + rewrite decide_False by (by intros [?|?]%elem_of_cons). by apply om_find_set_ne.
Qed.

Lemma merge_counters_find (r m : list (string * Z)) : om_sorted r -> om_sorted m ->
  om_sorted (merge_counters m r) /\ forall name, om_find (merge_counters m r) name =
    match om_find r name with Some v => Some (u32 (default 0 (om_find m name) + v)) | None => om_find m name end.
Proof.
  unfold merge_counters. revert m. induction r as [|[n v] r IH]; intros m Hr Hm; cbn [foldl fst snd]; [done|].
  apply om_sorted_cons in Hr as [Hn Hr].
  destruct (IH (om_set m n (u32 (default 0 (om_find m n) + v))) Hr (om_set_sorted _ _ _ Hm)) as [H1 H2]. split; [done|].
  intros name. rewrite H2. cbn [om_find]. destruct (tcompare name n) eqn:E.
  - apply tcompare_eq in E as ->. rewrite om_find_below by done. by rewrite om_find_set_eq.
  - assert (om_find r name = None) as -> by (apply om_find_below, (Forall_tlt_trans name n); done).
    apply om_find_set_ne; [done|]. intros ->. by rewrite tcompare_refl in E.
  - assert (name <> n) as Hne by (intros ->; by rewrite tcompare_refl in E).
    rewrite om_find_set_ne by done. done.
Qed.

Lemma merge_counter_maps ds ds' : merge_counters (counter_map ds) (counter_map ds') = counter_map (ds ++ ds').
Proof.
  destruct (counter_map_find ds) as [H1 H2], (counter_map_find ds') as [H3 H4], (counter_map_find (ds ++ ds')) as [H5 H6].
  destruct (merge_counters_find (counter_map ds') (counter_map ds) H3 H1) as [H7 H8].
  apply om_ext; [done..|]. intros name. rewrite H8, H6, H4, H2. unfold counter_find.
  destruct (decide _); [|done]. cbn. f_equal. rewrite u32_add_l, u32_add_r, value_sum_app. done.
Qed.
End Process.
