(* ===== verification/FilterCounts.v ===== *)
(** * What the filter of a search counts

The laws that SearchResult.v asks of a group filter, proved for the filter of
GroupFilter.v with the counters of GroupBuilder.v: counters of string properties
(StringGroupCounter.h) and of numeric ranges (NumericRangeGroupCounter.cpp), any
labels. What a thread counts in its documents is a forest of values with their
counts and a segment tree for each range; merging the results of two threads
(GroupRep.cpp) gives those of the documents of both. Counters of sub-properties,
of single numbers and of dates, a limit of groups ([group_top]) and the counter
of attributes are not covered: see the notes at [plain_param]. *)
From S2P Require Import Prelude PQueue Float64 OrdMap PropIdTable DocIterator OntologyRep NumericRange GroupRep DateFormat GroupCounter GroupLabels GroupParam GroupFilter GroupBuilder SearchThread SearchResult.
From S2P Require PropValueTable.
Import PropValueTable (PropValueTable, childMapTable_, valueIdTable_, propStrVec_, value_num, tree_ok, chain_of).

(** ** The forest of the values of a property *)
Section ValueForest.
Context {T : Type} `{!TextOrder T} (pv : PropValueTable T).
Hypothesis Htree : tree_ok pv.
(** The levels fit into 8 bits, below the name of the property. *)
Hypothesis Hdepth : forall id l, chain_of pv id l -> vsize l <= 254.

Definition children (p : Z) : list (T * Z) := match vget (childMapTable_ pv) p with Ret m => m | _ => [] end.

(** The values below [p] that have a count, and those below them. *)
Fixpoint value_forest (n : nat) (cnt : Z -> Z) (p : Z) : forest T :=
  match n with
  | O => FNil
  | S n => foldr (fun it next => if cnt it.2 =? 0 then next else FCons it.1 0 (cnt it.2) d0 (value_forest n cnt it.2) next) FNil (children p)
  end.

Lemma children_ok p : 0 <= p < value_num pv ->
  vget (childMapTable_ pv) p = Ret (children p) /\ om_sorted (children p) /\
  forall s id, (s, id) ∈ children p -> p < id < value_num pv /\ forall l, chain_of pv p l -> chain_of pv id (id :: l).
Proof.
  intros Hp. destruct Htree as (Hn & _ & Hc & Hpar & He). destruct (He p ltac:(lia)) as (m & E & Hs & Hm).
  unfold children. rewrite E. split; [done|]. split; [done|]. intros s id H.
  apply om_find_elem in H as (Hid & Hg & _)%Hm; [|done]. destruct (Hpar id Hid) as (q & Eq & Hq).
  assert (q = p) as -> by congruence. split; [lia|]. intros l Hl. split; [done|]. split; [lia|]. exists p. split; [done|]. split; [lia|done].
Qed.

Section Append.
Context (cnt : Z -> Z) (table : list Z).
Hypothesis Htable : vec_is (value_num pv) cnt table.

Lemma appendGroupRep_ok n : forall id l s acc, 0 <= id < value_num pv -> value_num pv - id <= Z.of_nat n -> chain_of pv id l ->
  appendGroupRep (C := Z) (S n) pv id (vsize l) s (acc, table) =
  Ret (acc ++ flatten (vsize l) (FCons s 0 (cnt id) d0 (value_forest n cnt id) FNil), table).
Proof.
  pose proof Htable as [Hsz Hget]. induction n as [|n IH]; intros id l s acc Hid Hn Hl; [lia|].
  pose proof (Hdepth id l Hl) as Hd. pose proof (vsize_nonneg l).
  remember (S n) as m eqn:Em. cbn [appendGroupRep]. rewrite Hget by done. cbn [res_bind ct_count uint_counter ct_getStringRep].
  destruct (children_ok id Hid) as (Ec & _ & Hk).
  assert ((if negb (id =? 0) then let* table0 := vset table id (cnt id) in Ret (acc ++ [mk_item (u8 (vsize l)) s 0 (cnt id)], table0)
    else Ret (acc ++ [mk_item (u8 (vsize l)) s 0 (cnt id)], table)) = Ret (acc ++ [mk_item (u8 (vsize l)) s 0 (cnt id)], table)) as ->.
  { destruct (negb _); [|done]. rewrite vset_Ret by (by rewrite Hsz). cbn [res_bind].
    rewrite list_insert_id; [done|]. by apply vget_Ret, Hget. }
  cbn [res_bind]. rewrite Ec. cbn [res_bind]. unfold u8 at 1. rewrite Z.mod_small by lia.
  assert (forall kids acc, (forall it, it ∈ kids -> it ∈ children id) ->
    mfold (fun (it : T * Z) '(itemList, table) => let* c := vget table it.2 in
      if negb (c =? 0) then appendGroupRep m pv it.2 (vsize l + 1) it.1 (itemList, table) else Ret (itemList, table)) kids (acc, table) =
    Ret (acc ++ flatten (vsize l + 1) (foldr (fun it next => if cnt it.2 =? 0 then next else FCons it.1 0 (cnt it.2) d0 (value_forest n cnt it.2) next) FNil kids), table)) as Hall.
  { intros kids. induction kids as [|[s' k] kids IHk]; intros acc' Hin; cbn [mfold foldr flatten]; [by rewrite app_nil_r|].
    destruct (Hk s' k (Hin _ ltac:(by left))) as [Hkr Hkc]. cbn [fst snd]. rewrite Hget by lia. cbn [res_bind].
    destruct (Z.eqb_spec (cnt k) 0) as [E0|E0]; cbn [negb]; [apply IHk; intros it Hit; apply Hin; by right|].
    specialize (Hkc l Hl). replace (vsize l + 1) with (vsize (k :: l)) by (rewrite vsize_cons; lia).
    rewrite (IH k (k :: l) s' acc') by (done || lia). cbn [res_bind].
    rewrite vsize_cons, (Z.add_comm 1) in *. rewrite IHk by (intros it Hit; apply Hin; by right). cbn [flatten].
    by rewrite app_nil_r, <- app_assoc. }
  rewrite Hall by done. subst m. cbn [value_forest flatten]. rewrite app_nil_r, <- app_assoc. done.
Qed.

Lemma value_forest_depth n : forall id l, 0 <= id < value_num pv -> chain_of pv id l ->
  depth (value_forest n cnt id) <= 254 - vsize l.
Proof.
  induction n as [|n IH]; intros id l Hid Hl; cbn [value_forest depth]; [pose proof (Hdepth id l Hl); lia|].
  destruct (children_ok id Hid) as (_ & _ & Hk).
  assert (forall kids, (forall it, it ∈ kids -> it ∈ children id) ->
    depth (foldr (fun it next => if cnt it.2 =? 0 then next else FCons it.1 0 (cnt it.2) d0 (value_forest n cnt it.2) next) FNil kids) <= 254 - vsize l) as Hall; [|by apply Hall].
  intros kids. induction kids as [|[s k] kids IHk]; intros Hin; cbn [foldr depth]; [pose proof (Hdepth id l Hl); lia|].
  specialize (IHk (fun it H => Hin it (list_elem_of_further _ _ _ H))). cbn [fst snd].
  destruct (cnt k =? 0); [done|]. cbn [depth]. destruct (Hk s k (Hin _ ltac:(by left))) as [Hkr Hkc].
  specialize (IH k (k :: l) ltac:(lia) (Hkc l Hl)). rewrite vsize_cons in IH. lia.
Qed.
End Append.

(** *** Merging *)

(** All groups of [f] come after [t]. *)
Definition all_after (t : T) (f : forest T) : Prop := match f with FNil => True | FCons t' _ _ _ _ _ => tlt t t' end.

Lemma merge_before t i c s sub next g : all_after t g ->
  merge_forest (FCons t i c s sub next) g = FCons t i c s sub (merge_forest next g).
Proof.
  destruct g as [|t' i' c' s' sub' next']; [intros _; by rewrite !merge_forest_nil_r|]. cbn. unfold tlt. by intros ->.
Qed.

Lemma merge_after t i c s sub next f : all_after t f ->
  merge_forest f (FCons t i c s sub next) = FCons t i c s sub (merge_forest f next).
Proof.
  destruct f as [|t' i' c' s' sub' next']; [done|]. cbn. intros H. unfold tlt in H. rewrite tcompare_antisym, H. done.
Qed.

(** Counts that do not increase downwards. *)
Definition counts_down (cnt : Z -> Z) : Prop :=
  forall p s id, 0 < p < value_num pv -> (s, id) ∈ children p -> 0 <= cnt id <= cnt p.

Lemma layer_after n (cnt : Z -> Z) t (kids : list (T * Z)) : Forall (tlt t) (map fst kids) ->
  all_after t (foldr (fun it next => if cnt it.2 =? 0 then next else FCons it.1 0 (cnt it.2) d0 (value_forest n cnt it.2) next) FNil kids).
Proof.
  induction kids as [|[s k] kids IH]; cbn; [done|]. intros [H1 H2]%Forall_cons. destruct (cnt k =? 0); [by apply IH|done].
Qed.

Lemma value_forest_zero n cnt cnt' : counts_down cnt' ->
  forall p, 0 < p < value_num pv -> cnt' p = 0 ->
  value_forest n (fun id => cnt id + cnt' id) p = value_forest n cnt p /\
  value_forest n (fun id => cnt' id + cnt id) p = value_forest n cnt p.
Proof.
  intros Hdown. induction n as [|n IH]; intros p Hp H0; [done|]. cbn [value_forest].
  destruct (children_ok p ltac:(lia)) as (_ & _ & Hk).
  assert (forall it, it ∈ children p -> 0 < it.2 < value_num pv /\ cnt' it.2 = 0) as Hz.
  { intros [s k] Hin. destruct (Hk s k Hin) as [Hr _]. specialize (Hdown p s k Hp Hin). cbn. lia. }
  clear Hk. induction (children p) as [|[s k] kids IHk]; [done|]. destruct (Hz (s, k) ltac:(by left)) as [Hr Hc].
  cbn [fst snd] in Hr, Hc. destruct (IH k Hr Hc) as [E1 E2]. destruct IHk as [F1 F2]; [intros it Hin; apply Hz; by right|].
  cbn [foldr fst snd]. rewrite E1, E2, F1, F2, Hc, Z.add_0_r, Z.add_0_l. done.
Qed.

Lemma merge_values_forest n cnt cnt' : counts_down cnt -> counts_down cnt' ->
  (forall id, 0 < id < value_num pv -> 0 <= cnt id /\ 0 <= cnt' id /\ cnt id + cnt' id < 2 ^ 32) ->
  forall p, 0 <= p < value_num pv ->
  merge_forest (value_forest n cnt p) (value_forest n cnt' p) = value_forest n (fun id => cnt id + cnt' id) p.
Proof.
  intros Hd Hd' Hr. induction n as [|n IH]; intros p Hp; [done|]. cbn [value_forest].
  destruct (children_ok p Hp) as (_ & Hs & Hk).
  assert (forall it, it ∈ children p -> 0 < it.2 < value_num pv) as Hin by (intros [s k] H; destruct (Hk s k H); cbn; lia).
  clear Hk. induction (children p) as [|[s k] kids IHk]; [done|]. apply om_sorted_cons in Hs as [Hlt Hs].
  specialize (IHk Hs (fun it H => Hin it (list_elem_of_further _ _ _ H))). specialize (Hin (s, k) ltac:(by left)). cbn [snd] in Hin.
  pose proof (Hr k Hin) as (H1 & H2 & H3). cbn [foldr fst snd].
  destruct (Z.eqb_spec (cnt k) 0) as [E|E], (Z.eqb_spec (cnt' k) 0) as [E'|E'].
  - rewrite E, E'. exact IHk.
  - rewrite merge_after by (by apply layer_after). rewrite IHk, E, Z.add_0_l, (proj2 (Z.eqb_neq _ _)) by done. f_equal.
    symmetry. by apply value_forest_zero.
  - rewrite merge_before by (by apply layer_after). rewrite IHk, E', Z.add_0_r, (proj2 (Z.eqb_neq _ _)) by done. f_equal.
    symmetry. by apply value_forest_zero.
  - cbn [merge_forest]. rewrite tcompare_refl, (proj2 (Z.eqb_neq (cnt k + cnt' k) 0)), u32_small by lia.
    rewrite IH by lia. f_equal. exact IHk.
Qed.

(** *** The counts of documents *)
Context (f : Z -> list Z).
Hypothesis Hf : table_rep (valueIdTable_ pv) f.
Hypothesis Hids : forall doc id, id ∈ f doc -> 0 < id < value_num pv.

Lemma is_above_parent p s id j : 0 < p < value_num pv -> (s, id) ∈ children p -> 0 <= j < value_num pv ->
  is_above pv id j = true -> is_above pv p j = true.
Proof.
  intros Hp Hk Hj. destruct (children_ok p ltac:(lia)) as (_ & _ & Hc). destruct (Hc s id Hk) as [Hr Hch].
  pose proof Htree as (Hn & _). unfold is_above. destruct (PropValueTable.chain_exists pv j Htree Hj) as (l & Hl & Hlen).
  destruct (PropValueTable.getParentIds_ok pv j l Hl ltac:(lia)) as [-> _]. rewrite !bool_decide_eq_true. intros Hin.
  destruct (PropValueTable.chain_suffix pv l j id Hl Hin) as (l1 & l2 & -> & H2).
  destruct (PropValueTable.chain_exists pv p Htree ltac:(lia)) as (lp & Hlp & _).
  rewrite <- (PropValueTable.chain_inj pv _ _ _ (Hch lp Hlp) H2). apply elem_of_app. right. right.
  destruct lp as [|x lp]; cbn in Hlp; [lia|]. destruct Hlp as (-> & _). by left.
Qed.

Lemma tree_counts_down docs : counts_down (tree_counts pv f docs).
Proof.
  intros p s id Hp Hk. destruct (children_ok p ltac:(lia)) as (_ & _ & Hc). destruct (Hc s id Hk) as [Hr _].
  unfold tree_counts. rewrite !(proj2 (Z.eqb_neq _ _)) by lia. split; [apply count_bounds|]. apply count_le.
  intros j Hj. apply (is_above_parent p s id j Hp Hk). apply (all_in_range pv f Hids) in Hj. lia.
Qed.

Lemma tree_counts_app docs docs' id : tree_counts pv f (docs ++ docs') id = tree_counts pv f docs id + tree_counts pv f docs' id.
Proof. unfold tree_counts. rewrite map_app, concat_app. destruct (id =? 0); by rewrite count_app. Qed.
End ValueForest.

(** ** The filter *)

(** What a counter counts: the values of a property, of which the documents have
    the lists [f], or the ranges of a number. *)
Inductive counted (T : Type) :=
| Values (name : string) (pv : PropValueTable T) (f : Z -> list Z)
| Ranges (name : string) (table : NumericPropertyTable).
Arguments Values {_} _ _ _.
Arguments Ranges {_} _ _.

Definition counted_ok {T} `{!TextOrder T} (k : counted T) : Prop :=
  match k with
  | Values _ pv f =>
      tree_ok pv /\ (forall id l, chain_of pv id l -> vsize l <= 254) /\ table_rep (valueIdTable_ pv) f /\
      (forall doc id, id ∈ f doc -> 0 < id < value_num pv) /\ (forall ds, docs_wf ds -> vsize (concat (map f ds)) < 2 ^ 32)
  | Ranges _ _ => True
  end.

(** No limit of groups: a thread with a limit drops groups that the documents
    of the other threads may need ([ResizeTo_keeps]). *)
Definition plain_param (p : GroupParam) : Prop := existsb (fun q => 0 <? group_top_ q) (groupProps_ p) = false.

Section Filter.
Context {T B A : Type} `{!TextOrder T} {boost : BoostText} (ustring : string -> T) (to_utf8 : T -> string).
Context `{!AttrLabelOps B, !AttrCounting T A}.
Notation counter := (group_counter T).
Notation filter_of := (GroupFilter (group_label T) counter B A).
#[local] Instance counters_of : GroupCounter T counter := group_counter_ops ustring.

Context (kinds : list (counted T)).
Hypothesis Hkinds : Forall counted_ok kinds.
Context (labels : list (group_label T * option Z)) (attrs : list B).
Context (pass : group_label T -> Z -> bool) (attr_pass : B -> Z -> bool).
Hypothesis Hpass : forall l d, l ∈ map fst labels -> 0 <= d -> gl_test d l = Ret (pass l d).
Hypothesis Hattr : forall b d, b ∈ attrs -> 0 <= d -> gl_test d b = Ret (attr_pass b d).
Hypothesis Hrefs : NoDup (omap snd labels).
Hypothesis Hindex : forall l i, l ∈ labels -> l.2 = Some i -> 0 <= i < vsize kinds.

(** The documents that counter [i] counts. *)
Definition own (i : nat) (ds : list Z) : list Z :=
  filter (fun d => others_pass labels attrs pass attr_pass (Z.of_nat i) d = true) ds.

Lemma own_app i ds ds' : own i (ds ++ ds') = own i ds ++ own i ds'.
Proof. apply filter_app. Qed.

Lemma own_wf i ds : docs_wf ds -> docs_wf (own i ds).
Proof. apply docs_wf_sublist, sublist_filter. Qed.

(** The counter after the documents [ds]. *)
Definition has_counted (k : counted T) (ds : list Z) (c : counter) : Prop :=
  match k with
  | Values name pv f => exists table, c = CValue (CString (StringCounter name pv table)) /\ vec_is (value_num pv) (value_counts f ds) table
  | Ranges name t => exists v, c = CRange (RangeCounter name t v) /\ NumericRange.counting (omap (doc_leaf (getInt32Value t)) ds) v
  end.

Lemma docs_wf_size ds : docs_wf ds -> vsize ds < 2 ^ 32.
Proof. intros Hds. pose proof (cursor_wf_size (Cursor false ds) Hds) as Hs. cbn in Hs. unfold MAX_DOC_ID in Hs. lia. Qed.

Lemma count_doc k d ds c : counted_ok k -> has_counted k ds c -> docs_wf (ds ++ [d]) ->
  exists c', gc_addDoc (T := T) d c = Ret c' /\ has_counted k (ds ++ [d]) c'.
Proof.
  intros Hk Hc Hwf. pose proof (proj2 Hwf d ltac:(set_solver)) as Hd. destruct k as [name pv f|name t].
  - destruct Hk as (Ht & _ & Hf & Hi & Hv), Hc as (table & -> & Htab).
    pose proof (docs_wf_size _ Hwf) as Hsz. rewrite vsize_app in Hsz. change (vsize [d]) with 1 in Hsz.
    destruct (string_addDoc_ok pv f Ht Hf Hi name d ds table) as (table' & E & Htab'); [lia|by apply Hv|done|done|].
    exists (CValue (CString (StringCounter name pv table'))). split; [|by exists table'].
    cbn [gc_addDoc counters_of group_counter_ops gmap_counter value_counter_ops]. unfold vmap', vmap.
    cbn [gc_addDoc string_counter]. by rewrite E.
  - destruct Hc as (v & -> & Hv). destruct (addDocs_counting (getInt32Value t) [d] _ v Hv) as (v' & E & Hv').
    rewrite <- omap_app in Hv'. exists (CRange (RangeCounter name t v')). split; [|by exists v'].
    cbn [gc_addDoc counters_of group_counter_ops gmap_counter range_counter]. unfold range_addDoc. cbn [range_table segmentTree_ range_property].
    cbn [mfold] in E. apply bind_Ret_inv in E as (v1 & -> & [= ->]). done.
Qed.

(** *** The results of the counters from number [i] on *)
Fixpoint value_groups (i : nat) (kinds : list (counted T)) (ds : list Z) : forest T :=
  match kinds with
  | [] => FNil
  | Values name pv f :: kinds =>
      let cnt := tree_counts pv f (own i ds) in
      FCons (ustring name) 0 (cnt 0) d0 (value_forest pv (length (propStrVec_ pv)) cnt 0) (value_groups (S i) kinds ds)
  | Ranges _ _ :: kinds => value_groups (S i) kinds ds
  end.

Definition range_counts (t : NumericPropertyTable) (ds : list Z) : list Z :=
  match tree_of (getInt32Value t) ds with Ret v => v | _ => [] end.

Fixpoint range_groups (i : nat) (kinds : list (counted T)) (ds : list Z) : list (string * list Z) :=
  match kinds with
  | [] => []
  | Values _ _ _ :: kinds => range_groups (S i) kinds ds
  | Ranges name t :: kinds => (name, range_counts t (own i ds)) :: range_groups (S i) kinds ds
  end.

Lemma range_counts_ok t ds : tree_of (getInt32Value t) ds = Ret (range_counts t ds).
Proof. unfold range_counts. by destruct (tree_of_complete (getInt32Value t) ds) as (v & -> & _). Qed.

(** The result of one counter, behind that of the others. *)
Lemma counter_result k ds c (r : GroupRep T) : counted_ok k -> has_counted k ds c -> docs_wf ds ->
  exists c', gc_getGroupRep r c = Ret (match k with
    | Values name pv f => Rep (stringGroupRep_ r ++ flatten 0 (FCons (ustring name) 0 (tree_counts pv f ds 0) d0
        (value_forest pv (length (propStrVec_ pv)) (tree_counts pv f ds) 0) FNil)) (numericGroupRep_ r) (numericRangeGroupRep_ r)
    | Ranges name t => Rep (stringGroupRep_ r) (numericGroupRep_ r) (numericRangeGroupRep_ r ++ [(name, range_counts t ds)])
    end, c').
Proof.
  intros Hk Hc Hwf. destruct k as [name pv f|name t].
  - destruct Hk as (Ht & Hdep & Hf & Hi & Hv), Hc as (table & -> & Htab). pose proof Ht as (Hn & _).
    destruct (addCountForParentId_ok pv f Ht Hi ds table) as (table' & E & Htab'); [by apply Hwf|by apply Hv|done|].
    assert (string_getGroupRep ustring r (StringCounter name pv table) = Ret (Rep (stringGroupRep_ r ++ flatten 0 (FCons (ustring name) 0 (tree_counts pv f ds 0) d0
        (value_forest pv (length (propStrVec_ pv)) (tree_counts pv f ds) 0) FNil)) (numericGroupRep_ r) (numericRangeGroupRep_ r), StringCounter name pv table')) as Er.
    { unfold string_getGroupRep. cbn [propValueTable_ countTable_ propName_ ct_addCountForParentId uint_counter]. rewrite E. cbn [res_bind].
      unfold tree_fuel. change 0 with (vsize (@nil Z)) at 2.
      rewrite (appendGroupRep_ok pv Ht Hdep (tree_counts pv f ds) table' Htab' (length (propStrVec_ pv)) 0 [] (ustring name) (stringGroupRep_ r));
        [done|lia|unfold value_num, vsize; lia|done]. }
    eexists. cbn [gc_getGroupRep counters_of group_counter_ops gmap_counter value_counter_ops vmap string_counter]. by rewrite Er.
  - destruct Hc as (v & -> & Hv). destruct (getGroupRep_complete _ v (leaves_ok_docs (getInt32Value t) ds) Hv) as (w & E & Hw).
    eexists. cbn [gc_getGroupRep counters_of group_counter_ops gmap_counter range_counter]. unfold range_getGroupRep.
    cbn [segmentTree_ range_property range_table]. rewrite E. cbn [res_bind].
    destruct (tree_of_complete (getInt32Value t) ds) as (w' & E' & Hw'). unfold range_counts. rewrite E'.
    by rewrite (vec_is_inj _ _ _ _ Hw Hw').
Qed.

Lemma counter_results ks : Forall counted_ok ks -> forall i ds cs (r : GroupRep T) out, docs_wf ds ->
  Forall2 (fun k '(j, c) => has_counted k (own j ds) c) ks (combine (seq i (length ks)) cs) -> length cs = length ks ->
  exists cs', mfold (fun counter '(groupRep, counters) => let* (groupRep, counter) := gc_getGroupRep groupRep counter in
      Ret (groupRep, counters ++ [counter])) cs (r, out) =
    Ret (Rep (stringGroupRep_ r ++ flatten 0 (value_groups i ks ds)) (numericGroupRep_ r) (numericRangeGroupRep_ r ++ range_groups i ks ds), cs').
Proof.
  induction 1 as [|k ks Hk _ IH]; intros i ds cs r out Hwf H Hlen.
  - destruct cs; [|done]. exists out. cbn. rewrite !app_nil_r. by destruct r.
  - destruct cs as [|c cs]; [done|]. cbn [length seq combine] in H. apply Forall2_cons in H as [Hc H]. injection Hlen as Hlen.
    destruct (counter_result k (own i ds) c r Hk Hc (own_wf i ds Hwf)) as (c' & E). cbn [mfold]. rewrite E. cbn [res_bind].
    match goal with |- context [mfold _ cs (?r', _)] => destruct (IH (S i) ds cs r' (out ++ [c']) Hwf H Hlen) as (cs' & ->) end.
    exists cs'. f_equal. f_equal. destruct k as [name pv f|name t]; cbn [stringGroupRep_ numericGroupRep_ numericRangeGroupRep_ value_groups range_groups flatten].
    + by rewrite app_nil_r, <- app_assoc.
    + by rewrite <- app_assoc.
Qed.

(** *** Merging the results of two threads *)
Lemma value_groups_depth ks : Forall counted_ok ks -> forall i ds, depth (value_groups i ks ds) <= 255.
Proof.
  induction 1 as [|[name pv f|name t] ks Hk _ IH]; intros i ds; cbn [value_groups depth]; [lia| |apply IH].
  destruct Hk as (Ht & Hdep & _). pose proof Ht as (Hn & _).
  pose proof (value_forest_depth pv Ht Hdep (tree_counts pv f (own i ds)) (length (propStrVec_ pv)) 0 [] ltac:(lia) eq_refl) as H0.
  change (vsize (@nil Z)) with 0 in H0. specialize (IH (S i) ds). lia.
Qed.

Lemma tree_counts_bound (pv : PropValueTable T) f ds id : vsize ds < 2 ^ 32 -> vsize (concat (map f ds)) < 2 ^ 32 -> 0 <= tree_counts pv f ds id < 2 ^ 32.
Proof.
  intros Hn Hv. unfold tree_counts. destruct (id =? 0).
  - pose proof (count_bounds (fun d => negb (is_nil (f d))) ds). lia.
  - pose proof (count_bounds (is_above pv id) (concat (map f ds))). lia.
Qed.

Lemma value_forest_ext {X} `{!TextOrder X} (pv : PropValueTable X) n cnt cnt' : (forall id, cnt id = cnt' id) ->
  forall p, value_forest pv n cnt p = value_forest pv n cnt' p.
Proof.
  intros He. induction n as [|n IH]; intros p; [done|]. cbn [value_forest]. induction (children pv p) as [|it kids IHk]; [done|].
  cbn [foldr]. by rewrite He, IHk, IH.
Qed.

Lemma merge_value_groups ks : Forall counted_ok ks -> forall i ds ds', docs_wf (ds ++ ds') ->
  merge_forest (value_groups i ks ds) (value_groups i ks ds') = value_groups i ks (ds ++ ds').
Proof.
  induction 1 as [|[name pv f|name t] ks Hk _ IH]; intros i ds ds' Hwf; cbn [value_groups]; [done| |by apply IH].
  destruct Hk as (Ht & _ & _ & Hi & Hv). pose proof Ht as (Hn & _).
  pose proof (own_wf i _ Hwf) as Hown. rewrite own_app in *. set (a := own i ds) in *. set (b := own i ds') in *.
  assert (forall id, 0 <= tree_counts pv f a id /\ 0 <= tree_counts pv f b id /\ tree_counts pv f a id + tree_counts pv f b id < 2 ^ 32) as Hb.
  { intros id. pose proof (tree_counts_bound pv f (a ++ b) id (docs_wf_size _ Hown) (Hv _ Hown)) as H. rewrite tree_counts_app in H.
    split; [|split; [|lia]]; unfold tree_counts; destruct (id =? 0); apply count_bounds. }
  cbn [merge_forest]. rewrite tcompare_refl, IH, tree_counts_app, u32_small by (done || (specialize (Hb 0); lia)). f_equal.
  rewrite (merge_values_forest pv Ht) by (by apply tree_counts_down || (intros; apply Hb) || lia).
  apply value_forest_ext. intros id. by rewrite tree_counts_app.
Qed.

Lemma merge_range_groups ks : forall i ds ds', docs_wf (ds ++ ds') ->
  merge_lists NumericRange.merge_range (range_groups i ks ds) (range_groups i ks ds') = Ret (range_groups i ks (ds ++ ds')).
Proof.
  induction ks as [|[name pv f|name t] ks IH]; intros i ds ds' Hwf; cbn [range_groups merge_lists]; [done|by apply IH|].
  assert (vsize (own i ds') < 2 ^ 32) as Hsz.
  { pose proof (docs_wf_size _ (own_wf i _ Hwf)) as H. rewrite own_app, vsize_app in H. pose proof (vsize_nonneg (own i ds)). lia. }
  destruct (merge_range_tree (getInt32Value t) (own i ds) (own i ds') Hsz) as (v & o & E1 & E2 & E).
  rewrite range_counts_ok in E1, E2. injection E1 as ->. injection E2 as ->. rewrite E, <- own_app, range_counts_ok. cbn [res_bind].
  by rewrite IH.
Qed.

(** What a filter found in the documents [ds]. *)
Definition counts_of_docs (ds : list Z) : GroupRep T := Rep (flatten 0 (value_groups 0 kinds ds)) [] (range_groups 0 kinds ds).

Lemma merge_counts ds ds' : docs_wf (ds ++ ds') ->
  exists other, GroupRep.merge (counts_of_docs ds) (counts_of_docs ds') = Ret (counts_of_docs (ds ++ ds'), other).
Proof.
  intros Hwf. unfold GroupRep.merge, counts_of_docs. cbn [stringGroupRep_ numericGroupRep_ numericRangeGroupRep_].
  destruct (mergeStringGroup_ok (value_groups 0 kinds ds) (value_groups 0 kinds ds')) as (o & ->).
  { pose proof (value_groups_depth kinds Hkinds 0 ds). pose proof (value_groups_depth kinds Hkinds 0 ds'). lia. }
  cbn [res_bind]. rewrite (merge_value_groups kinds Hkinds) by done.
  change (mergeNumericGroup [] []) with (Ret (@nil (string * list (spec_float * Z)), @nil (string * list (spec_float * Z)))). cbn [res_bind].
  assert (exists og, mergeNumericRangeGroup (range_groups 0 kinds ds) (range_groups 0 kinds ds') = Ret (range_groups 0 kinds (ds ++ ds'), og)) as (og & ->).
  { unfold mergeNumericRangeGroup, merge_groups. pose proof (merge_range_groups kinds 0 ds ds' Hwf) as E.
    assert (length (range_groups 0 kinds ds) = length (range_groups 0 kinds ds')) as Hlen.
    { clear. generalize 0%nat. induction kinds as [|[] ks IH]; intros i; cbn; [done|apply IH|by rewrite IH]. }
    destruct (range_groups 0 kinds ds') as [|x l], (range_groups 0 kinds ds) as [|y k]; try done.
    - injection E as <-. by eexists.
    - rewrite E. by eexists. }
  by eexists.
Qed.

(** *** The laws of the filter *)
#[local] Instance filter_ops : FilterOps T filter_of :=
  {| flt_test := test (T := T); flt_getGroupRep := getGroupRep ustring to_utf8 |}.

Definition filter_has_counted (f : filter_of) (ds : list Z) : Prop :=
  groupLabels_ f = labels /\ attrLabels_ f = attrs /\ attrCounter_ f = None /\ plain_param (groupParam_ f) /\
  length (groupCounters_ f) = length kinds /\
  forall i k c, kinds !! i = Some k -> groupCounters_ f !! i = Some c -> has_counted k (own i ds) c.

Lemma list_choice {X Y} (R : nat -> X -> Y -> Prop) (l : list X) : (forall i x, l !! i = Some x -> exists y, R i x y) ->
  exists l', length l' = length l /\ forall i x, l !! i = Some x -> exists y, l' !! i = Some y /\ R i x y.
Proof.
  revert R. induction l as [|x l IH]; intros R H; [by exists []|]. destruct (H 0%nat x eq_refl) as [y Hy].
  destruct (IH (fun i => R (S i))) as (l' & Hlen & Hl); [intros i z Hz; by apply (H (S i))|].
  exists (y :: l'). split; [cbn; lia|]. intros [|i] z Hz; [injection Hz as <-; by exists y|by apply Hl].
Qed.

Lemma test_counts f ds d : filter_has_counted f ds -> docs_wf (ds ++ [d]) ->
  exists f', test d f = Ret (all_pass labels attrs pass attr_pass d, f') /\ filter_has_counted f' (ds ++ [d]).
Proof.
  intros (El & Ea & Ec & Hp & Hlen & Hc) Hwf. pose proof (proj2 Hwf d ltac:(set_solver)) as Hd.
  destruct (list_choice (fun i c c' => (forall k, kinds !! i = Some k -> has_counted k (own i (ds ++ [d])) c') /\
    if others_pass labels attrs pass attr_pass (Z.of_nat i) d then gc_addDoc (T := T) d c = Ret c' else c' = c) (groupCounters_ f)) as (C' & Hlen' & HC).
  { intros i c Ei. destruct (lookup_lt_is_Some_2 kinds i) as [k Ek]; [apply lookup_lt_Some in Ei; lia|].
    specialize (Hc i k c Ek Ei). pose proof (Forall_lookup_1 _ _ _ _ Hkinds Ek) as Hk. pose proof (own_wf i _ Hwf) as Hown.
    rewrite own_app in *. unfold own at 2 in Hown. unfold own at 2. rewrite filter_cons in *.
    destruct (others_pass labels attrs pass attr_pass (Z.of_nat i) d).
    - rewrite decide_True in * by done. destruct (count_doc k d (own i ds) c Hk Hc Hown) as (c' & E & Hc'). exists c'. split; [|done].
      intros k' Ek'. assert (k' = k) as -> by congruence. exact Hc'.
    - rewrite decide_False in * by done. exists c. split; [|done]. intros k' Ek'. assert (k' = k) as -> by congruence.
      rewrite app_nil_r. exact Hc. }
  exists (Filter (groupParam_ f) labels C' attrs None). split.
  - apply (test_step labels attrs pass attr_pass Hpass Hattr Hrefs d f C' None); try done; [lia| | |by rewrite Ec].
    + intros l i Hl Hi. specialize (Hindex l i Hl Hi). unfold vsize in *. lia.
    + split; [done|]. intros i c Ei. destruct (HC i c Ei) as (c' & E & _ & Hstep). by exists c'.
  - split; [done|]. split; [done|]. split; [done|]. split; [done|]. cbn [groupCounters_]. split; [lia|].
    intros i k c' Ek Ec'. destruct (lookup_lt_is_Some_2 (groupCounters_ f) i) as [c Ei]; [apply lookup_lt_Some in Ek; lia|].
    destruct (HC i c Ei) as (c1 & E1 & H1 & _). assert (c1 = c') as -> by congruence. by apply H1.
Qed.

Lemma result_counts f ds : filter_has_counted f ds -> docs_wf ds ->
  exists f', getGroupRep ustring to_utf8 clear [] f = Ret (counts_of_docs ds, [], f').
Proof.
  intros (_ & _ & Ea & Hp & Hlen & Hc) Hwf. unfold getGroupRep.
  destruct (counter_results kinds Hkinds 0 ds (groupCounters_ f) clear [] Hwf) as (cs' & ->); [|done|].
  - apply Forall2_same_length_lookup_2; [rewrite length_combine, length_seq; lia|]. intros i k [j c] Ek E.
    apply lookup_zip_with_Some in E as (j' & c' & [= -> ->] & Ej & Ec). apply lookup_seq in Ej as [-> _]. by apply Hc.
  - cbn [res_bind set_counters attrCounter_]. rewrite Ea. cbn [res_bind groupParam_ set_counters]. unfold plain_param in Hp.
    rewrite Hp. cbn [res_bind]. by eexists.
Qed.

(** A thread: the filter tests its documents, and its counters are asked. *)
Definition count_docs (f : filter_of) (ds : list Z) : res (list bool * GroupRep T) :=
  let* (answers, f) := filter_docs (T := T) ds f in
  let* (groupRep, _, _) := getGroupRep ustring to_utf8 clear [] f in Ret (answers, groupRep).

Notation accepted_by := (all_pass labels attrs pass attr_pass).

Lemma filter_docs_counts todo : forall f ds, filter_has_counted f ds -> docs_wf (ds ++ todo) -> forall out,
  exists f', mfold (fun d '(results, f) => let* (r, f) := test d f in Ret (results ++ [r], f)) todo (out, f) =
    Ret (out ++ map accepted_by todo, f') /\ filter_has_counted f' (ds ++ todo).
Proof.
  induction todo as [|d todo IH]; intros f ds Hf Hwf out; cbn [mfold map].
  - exists f. by rewrite !app_nil_r.
  - rewrite (cons_middle d), app_assoc in *.
    destruct (test_counts f ds d Hf) as (f1 & -> & Hf1); [eapply docs_wf_sublist; [|exact Hwf]; by apply sublist_inserts_r|].
    cbn [res_bind]. destruct (IH f1 (ds ++ [d]) Hf1 Hwf (out ++ [accepted_by d])) as (f' & E & Hf'). exists f'.
    rewrite E, <- app_assoc. by rewrite <- app_assoc in Hf' |- *.
Qed.

Lemma count_docs_ok f ds : filter_has_counted f [] -> docs_wf ds -> count_docs f ds = Ret (map accepted_by ds, counts_of_docs ds).
Proof.
  intros Hf Hwf. unfold count_docs, filter_docs. destruct (filter_docs_counts ds f [] Hf Hwf []) as (f' & -> & Hf').
  cbn [res_bind app]. by destruct (result_counts f' ds Hf' Hwf) as (f'' & ->).
Qed.


(** The filter of GroupFilter.cpp meets the laws that the search is proved with. *)
#[local] Instance filter_counts_spec {QA} `{!PQueue QA (T * spec_float)} :
  FilterSpec T filter_of QA (all_pass labels attrs pass attr_pass).
Proof.
  refine {| flt_rep _ f ds := filter_has_counted f ds; rep_of ds g := g = counts_of_docs ds; attr_of _ _ a := a = [] |}.
  - intros n f ds d. apply test_counts.
  - intros n f ds Hf Hwf. destruct (result_counts f ds Hf Hwf) as (f' & E). eexists _, _, _. by split.
  - intros ds ds' g g' Hwf -> ->. destruct (merge_counts ds ds' Hwf) as (o & E). by exists (counts_of_docs (ds ++ ds')), o.
  - intros n ds dss a l _ _ -> Hl. exists [], []. split; [|done]. apply merge_nothing. by induction Hl as [|? ? ? ? -> _ IH]; constructor.
Defined.
End Filter.

(** A filter that has not tested any document. *)
Definition fresh_counter {T} (k : counted T) : group_counter T :=
  match k with
  | Values name pv _ => CValue (CString (new_string_counter name pv 0))
  | Ranges name t => CRange (RangeCounter name t NumericRange.new_tree)
  end.

Lemma new_filter_counts {T B A} `{!TextOrder T} (kinds : list (counted T)) labels (attrs : list B) pass attr_pass p : Forall counted_ok kinds -> plain_param p ->
  filter_has_counted (A := A) kinds labels attrs pass attr_pass (Filter p labels (map fresh_counter kinds) attrs None) [].
Proof.
  intros Hk Hp. split; [done|]. split; [done|]. split; [done|]. split; [done|]. cbn [groupCounters_]. split; [by rewrite length_map|].
  intros i k c Ei Ec. apply list_lookup_fmap_Some in Ec as (k' & -> & Ek). assert (k' = k) as -> by congruence.
  apply (Forall_lookup_1 _ _ _ _ Hk) in Ek. destruct k as [name pv f|name t]; cbn [fresh_counter has_counted].
  - destruct Ek as (([Hn _] & _) & _). eexists. split; [done|]. pose proof (vec_is_replicate (value_num pv) 0 ltac:(lia)) as H0.
    replace (Z.to_nat (value_num pv)) with (length (propStrVec_ pv)) in H0 by (unfold value_num, vsize; lia).
    eapply vec_is_ext; [exact H0|]. intros id _. unfold value_counts. cbn. by destruct (id =? 0).
  - eexists. split; [done|]. apply new_tree_counting.
Qed.

(** ** A filter of two properties

The brands "4" > "5" and "4" > "6", which the documents 1, 2 and 3 have, and
the price, of which the selected values are at most 4: document 5 costs 5, the
others 3. The filter is the one that GroupFilterBuilder.cpp makes. *)
Definition ex_brands : PropValueTable Z :=
  PropValueTable.ValueTable [0; 4; 5; 6] 0 [0; 0; 1; 1] 0 [[(4, 1)]; [(5, 2); (6, 3)]; []; []]
    (IdTable [0; 2 ^ 31; 2; 3] [2; 2; 3]) 0 0.
Definition ex_brand_ids (doc : Z) : list Z := if doc =? 1 then [2; 3] else if doc =? 2 then [2] else if doc =? 3 then [3] else [].
Definition ex_prices : NumericPropertyTable :=
  let price := fun doc : Z => Some (if doc =? 5 then dbl 5 0 else dbl 3 0) in
  NumericTable (fun doc => Some (if doc =? 5 then 5 else 3)) price price.
Definition ex_kinds : list (counted Z) := [Values "brand" ex_brands ex_brand_ids; Ranges "price" ex_prices].

Definition ex_group_text (s : string) : Z := 9.
Definition ex_group_cast (s : string) : option spec_float := if String.eqb s "4" then Some (dbl 4 0) else None.
Definition ex_group_param (attrGroupNum : Z) : GroupParam :=
  GroupParam.Param [PropParam "brand" "" false "" 0; PropParam "price" "" true "" 0] [("price"%string, [["-4"%string]])] [] [] false attrGroupNum 0 [] 0 false.
Definition ex_group_config : GroupConfigMap := [("brand"%string, new_config STRING_PROPERTY_TYPE); ("price"%string, new_config FLOAT_PROPERTY_TYPE)].

#[export] Instance ex_score : Inhabited (Z * spec_float) := populate (0, d0).
Notation ex_filter_type := (GroupFilter (group_label Z) (group_counter Z) (AttrLabel Z) (attr_counter Z)).
#[export] Instance ex_attr_counting : AttrCounting Z (attr_counter Z) :=
  attr_counter_ops (fun _ => ""%string) (fun _ _ => d0) (fun _ _ _ => d0) (Q := heap (Z * spec_float)).
#[export] Instance ex_filter_ops : FilterOps Z ex_filter_type := filter_ops ex_group_text (fun _ => ""%string).

Definition ex_create_filter (n : Z) (locks : SharedLock.PropSharedLockSet) : res (option ex_filter_type * SharedLock.PropSharedLockSet) :=
  createFilter ex_group_text ex_group_cast ex_group_config (Some (Manager [("brand"%string, ex_brands)] []))
    (fun prop => if String.eqb prop "price" then Some ex_prices else None) None (ex_group_param n) locks.

Definition ex_labels : list (group_label Z * option Z) :=
  match ex_create_filter 0 [] with Ret (Some f, _) => groupLabels_ f | _ => [] end.
Definition ex_pass (l : group_label Z) (d : Z) : bool := match gl_test d l with Ret b => b | _ => false end.
Definition ex_accepts : Z -> bool := all_pass ex_labels ([] : list (AttrLabel Z)) ex_pass (fun _ _ => true).

Example ex_created_filter n : ex_create_filter n [] =
  Ret (Some (Filter (ex_group_param n) ex_labels (map fresh_counter ex_kinds) [] None), [SharedLock.StringLock "brand"; SharedLock.NumericLock "price"]).
Proof. vm_compute. reflexivity. Qed.

Example ex_accepts_4 : map ex_accepts [1; 4; 5; 80001] = [true; true; false; true].
Proof. vm_compute. reflexivity. Qed.

Lemma small_depth {T} `{!TextOrder T} (pv : PropValueTable T) : tree_ok pv -> value_num pv <= 255 ->
  forall id l, chain_of pv id l -> vsize l <= 254.
Proof.
  intros Ht Hn id l Hl. assert (0 <= id < value_num pv) as Hid.
  { destruct Ht as ([H1 _] & _). destruct l; cbn in Hl; [lia|]. destruct Hl as (_ & Hid & _). lia. }
  destruct (PropValueTable.chain_exists pv id Ht Hid) as (k & Hk & Hlen). rewrite (PropValueTable.chain_inj _ _ _ _ Hl Hk). lia.
Qed.

Lemma ex_brands_ok : tree_ok ex_brands.
Proof. exact two_values_ok. Qed.

Lemma ex_brands_rep : table_rep (valueIdTable_ ex_brands) ex_brand_ids.
Proof.
  split; [|split; [|by vm_compute]].
  - intros d Hd. change (vsize _) with 4 in Hd. assert (d = 0 \/ d = 1 \/ d = 2 \/ d = 3) as [-> | [-> | [-> | ->]]] by lia.
    + by exists 0.
    + exists (2 ^ 31). split; [done|]. exists 0. split; [done|]. split; [done|]. by exists [], [].
    + by exists 2.
    + by exists 3.
  - intros d Hd. change (vsize _) with 4 in Hd. unfold ex_brand_ids. rewrite !(proj2 (Z.eqb_neq _ _)) by lia. done.
Qed.

(** Few documents have brands, so that there are few values. *)
Lemma ex_brands_few ds : docs_wf ds -> vsize (concat (map ex_brand_ids ds)) < 2 ^ 32.
Proof.
  intros [Hs Hd]. assert (forall n, ssorted ds -> (forall d, d ∈ ds -> n <= d) -> 0 <= n -> vsize (concat (map ex_brand_ids ds)) <= 2 * Z.max 0 (4 - n)) as H.
  { clear Hs Hd. induction ds as [|d ds IH]; intros n Hs Hd Hn; [change (vsize (concat (map ex_brand_ids []))) with 0; lia|].
    apply StronglySorted_cons in Hs as [Hlt Hs]. cbn [map concat]. rewrite vsize_app. specialize (Hd d ltac:(by left)) as Hnd.
    specialize (IH (d + 1) Hs). rewrite Forall_forall in Hlt. assert (forall x, x ∈ ds -> d + 1 <= x) as Hx by (intros x Hx; specialize (Hlt x Hx); lia).
    specialize (IH Hx ltac:(lia)). assert (vsize (ex_brand_ids d) <= if decide (1 <= d <= 3) then 2 else 0) as Hb.
    { unfold ex_brand_ids. destruct (Z.eqb_spec d 1), (Z.eqb_spec d 2), (Z.eqb_spec d 3), (decide _); unfold vsize; cbn; lia. }
    destruct (decide _); lia. }
  specialize (H 0 Hs ltac:(intros d Hin; by apply Hd) ltac:(lia)). lia.
Qed.

Lemma ex_kinds_ok : Forall counted_ok ex_kinds.
Proof.
  constructor; [|by repeat constructor]. split; [apply ex_brands_ok|]. split; [apply (small_depth _ ex_brands_ok); by vm_compute|].
  split; [apply ex_brands_rep|]. split; [|apply ex_brands_few].
  intros doc id. unfold ex_brand_ids. change (value_num ex_brands) with 4. repeat case_match; rewrite ?elem_of_cons, elem_of_nil; lia.
Qed.

#[export] Instance ex_filter_spec : FilterSpec Z ex_filter_type (heap (Z * spec_float)) ex_accepts.
Proof.
  apply (filter_counts_spec ex_group_text (fun _ => ""%string) ex_kinds ex_kinds_ok).
  - intros l d Hl _. apply list_elem_of_singleton in Hl. subst l. done.
  - intros b d Hb. by apply elem_of_nil in Hb.
  - apply (bool_decide_unpack _). by vm_compute.
  - intros l i Hl Hi. assert (Forall (fun l => l.2 = Some 1) ex_labels) as Hone by (vm_compute; by repeat constructor).
    rewrite Forall_forall in Hone. rewrite (Hone l Hl) in Hi. injection Hi as <-. change (vsize ex_kinds) with 2. lia.
Defined.

(** What the filter counts in the documents 1, 2, 3 and 5 and in parts of them. *)
Definition ex_counts (ds : list Z) : GroupRep Z := counts_of_docs ex_group_text ex_kinds ex_labels ([] : list (AttrLabel Z)) ex_pass (fun _ _ => true) ds.

Example ex_counts_merged :
  map (fun i => (level i, text i, doc_count i)) (stringGroupRep_ (ex_counts [1; 2; 3; 5])) =
    [(0, 9, 3); (1, 4, 4); (2, 5, 2); (2, 6, 2)] /\
  match GroupRep.merge (ex_counts [1; 2]) (ex_counts [3; 5]) with Ret (g, _) => g = ex_counts [1; 2; 3; 5] | _ => False end.
Proof. vm_compute. split; reflexivity. Qed.


(** *** With a limit of groups

[getGroupRep] drops the groups beyond the limit before the results of the
threads are merged. Ten documents of the brands 4, 5 and 6, of which 5 has the
most: one thread finds it, two threads, of which each has more documents of
another brand, lose it. *)
Definition ex_flat : PropValueTable Z :=
  PropValueTable.ValueTable [0; 4; 5; 6] 0 [0; 0; 0; 0] 0 [[(4, 1); (5, 2); (6, 3)]; []; []; []]
    (IdTable [0; 1; 1; 1; 2; 2; 3; 3; 3; 2; 2] []) 0 0.
Definition ex_limited : ex_filter_type :=
  Filter (GroupParam.Param [PropParam "brand" "" false "" 1] [] [] [] false 0 0 [] 0 false) []
    [CValue (CString (new_string_counter "brand" ex_flat 0))] [] None.

Example limit_drops_groups :
  let count := count_docs ex_group_text (fun _ => "brand"%string) ex_limited in
  let shown (g : GroupRep Z) := map (fun i => (text i, doc_count i)) (stringGroupRep_ g) in
  (let* (_, all) := count [1; 2; 3; 4; 5; 6; 7; 8; 9; 10] in
   let* (_, g) := count [1; 2; 3; 4; 5] in
   let* (_, g') := count [6; 7; 8; 9; 10] in
   let* (merged, _) := GroupRep.merge g g' in Ret (shown all, shown merged)) =
  Ret ([(9, 10); (5, 4)], [(9, 10); (4, 3); (6, 3)]).
Proof. vm_compute. reflexivity. Qed.
