(* ===== verification/SearchSpec.v ===== *)
(** * What a search answers

Composes the results of SearchResult.v: the document ranges of the threads
cover the documents once each, every thread finds the documents of its range,
and what NormalSearch.cpp answers is, for every number of threads, the page of
the best documents with the numbers of all of them. *)
From S2P Require Import Prelude PQueue TopK Float64 OrdMap DocIterator AllDocIterator OntologyRep GroupRep GroupParam SharedLock NumTable RTypeTable Sorter SearchPrepare SearchThread SearchResult FilterCounts.

(** ** The ranges *)
Section Split.
Context {Q T : Type}.
Implicit Types p : SearchThreadParam Q T.

(** The range of thread [i] of [n] threads. *)
Definition share (maxDocId n : Z) : Z := maxDocId / n + 1.
Definition range_param (maxDocId n heap i : Z) : SearchThreadParam Q T :=
  set_range i (i * share maxDocId n) ((i + 1) * share maxDocId n) (new_param heap).

Lemma share_bound maxDocId n i : 0 <= maxDocId -> 0 < n -> 0 <= i <= n -> 0 <= i * share maxDocId n <= maxDocId + n.
Proof.
  intros Hm Hn Hi. unfold share. pose proof (Z.mul_div_le maxDocId n Hn). pose proof (Z.div_pos maxDocId n Hm Hn).
  split; [nia|]. transitivity (n * (maxDocId / n + 1)); nia.
Qed.

Lemma share_covers maxDocId n : 0 <= maxDocId -> 0 < n -> maxDocId < n * share maxDocId n.
Proof. intros Hm Hn. unfold share. pose proof (Z.mod_pos_bound maxDocId n Hn). pose proof (Z.div_mod maxDocId n). nia. Qed.

Lemma split_docs_ok maxDocId n heap : 0 <= maxDocId -> 0 < n -> maxDocId + n < 2 ^ 64 ->
  split_docs maxDocId n heap = Ret (map (range_param maxDocId n heap) (seqZ 0 n)).
Proof.
  intros Hm Hn Hmax. unfold split_docs. destruct (Z.eqb_spec n 0); [lia|]. f_equal. apply map_ext_in. intros i Hi%list_elem_of_In%elem_of_seqZ.
  pose proof (share_bound maxDocId n 1 Hm Hn ltac:(lia)) as H1. rewrite Z.mul_1_l in H1. unfold share in H1.
  rewrite (u64_small (maxDocId / n + 1)) by lia.
  pose proof (share_bound maxDocId n i Hm Hn ltac:(lia)). pose proof (share_bound maxDocId n (i + 1) Hm Hn ltac:(lia)).
  unfold range_param, share in *. rewrite !u64_small by lia. done.
Qed.

(** The ranges divide the documents up. *)
Lemma ranges_join maxDocId n docs : 0 <= maxDocId -> 0 < n -> ssorted docs -> (forall d, d ∈ docs -> 0 <= d <= maxDocId) ->
  concat (map (fun i => in_range (i * share maxDocId n) ((i + 1) * share maxDocId n) docs) (seqZ 0 n)) = docs.
Proof.
  intros Hm Hn Hs Hd. transitivity (in_range 0 (n * share maxDocId n) docs).
  2: { apply in_range_all. intros d Hin. specialize (Hd d Hin). pose proof (share_covers maxDocId n Hm Hn). lia. }
  assert (forall j, 0 <= j -> concat (map (fun i => in_range (i * share maxDocId n) ((i + 1) * share maxDocId n) docs) (seqZ 0 j)) =
    in_range 0 (j * share maxDocId n) docs) as H; [|apply H; lia].
  clear Hd. apply (natlike_ind (fun j => _)).
  - cbn. symmetry. unfold in_range. rewrite Z.mul_0_l. induction docs as [|d l IH]; [done|]. rewrite filter_cons_False by lia. apply IH. by inversion Hs.
  - intros j Hj IH. rewrite <- Z.add_1_r, seqZ_app by lia. rewrite map_app, concat_app, IH, Z.add_0_l.
    replace (seqZ j 1) with [j] by done. cbn [map concat]. rewrite app_nil_r. symmetry. apply in_range_join; [done|]. assert (0 <= share maxDocId n); [|nia]. unfold share. pose proof (Z.div_pos maxDocId n Hm Hn). lia.
Qed.
End Split.

(** ** The whole search *)
Section Search.
Context {S Q T F D QA : Type} `{!DocIterator S, !DocNextSpec S, !StartLaw S, !PQueue Q ScoreDoc, !PQueueSpec Q ScoreDoc,
  !FilterOps T F, !LuxArray D, !TextOrder T, !PQueue QA (T * spec_float)}.
Context (env : SearchSetting S T F D).
Context (accepts : Z -> bool) `{!FilterSpec T F QA accepts} (has_filter : bool).

(** The order that the sorter, made ready, or the scores give the queues. *)
Definition queue_order (prep : prepared) (locks : PropSharedLockSet) : res ((ScoreDoc -> ScoreDoc -> bool) * prepared * PropSharedLockSet) :=
  match pSorter prep with
  | Some s =>
      let* (s, locks) := createComparators (numericTableBuilder_ env) (rtypeStringPropBuilder_ env) s locks in
      Ret (property_lessThan s, Prepared (Some s) (customRanker prep) (geoLocationRanker prep), locks)
  | None => Ret (score_lessThan (epsilon env), prep, locks)
  end.

Lemma make_queue_order (p : SearchThreadParam Q T) locks : make_queue env p locks =
  (let* (less, prep, locks) := queue_order (rankers_ p) locks in
   Ret (set_found (with_queue (Some (Hits less (pq_new (heapSize p)))) (found_ p)) (set_rankers prep p), locks)).
Proof.
  unfold make_queue, queue_order. destruct (rankers_ p) as [[s|] cr gr] eqn:E; cbn.
  - destruct (createComparators _ _ s locks) as [[s' l]| | |]; done.
  - destruct p. cbn in *. by rewrite E.
Qed.

(** What the filter builder answers for [n] attribute groups. *)
Definition created_filter (n : Z) (locks : PropSharedLockSet) : res (option F * PropSharedLockSet) :=
  match makeFilter env with Some createFilter => createFilter n locks | None => Ret (None, locks) end.

Definition evaluator (prep : prepared) : ScoreDocEvaluator := Evaluator (productScorer env) (customRanker prep) (geoLocationRanker prep).

(** The values of the sort properties for a page. *)
Definition sort_data (prep : prepared) (docIdList : list Z) : res (option SortData) :=
  match pSorter prep with
  | Some s =>
      attempt (let* (data, _) := fillSearchInfoWithSortPropertyData (numericTableBuilder_ env) (rtypeStringPropBuilder_ env) s docIdList no_sort_data [] in
               Ret data)
  | None => Ret (Some no_sort_data)
  end.

(** What a search relies on: the iterator enumerates [docs], the filter, if
    there is one, accepts the documents of [accepts], the tables answer
    [range_value] and [counter_value], and the queues order the scored
    documents by [lt]. *)
Record search_ready (attrGroupNum : Z) (docs : list Z) (range_value : Z -> option spec_float) (counter_value : string -> Z -> option Z)
    (prep : prepared) (less lt : ScoreDoc -> ScoreDoc -> bool) : Prop := {
  sr_info : gatherInfo env = false;
  sr_iterator : exists it, iterator env = Ret (Some it) /\ di_rep it (Cursor true docs);
  sr_queue : exists prep0 locks, prepareSorter_ env no_rankers = Ret prep0 /\ queue_order prep0 [] = Ret (less, prep, locks) /\
    forall n, n = 0 \/ n = attrGroupNum -> exists fl locks', created_filter n locks = Ret (fl, locks') /\
      if has_filter then exists f, fl = Some f /\ flt_rep n f [] else fl = None;
  sr_accepts : has_filter = false -> forall d, accepts d = true;
  sr_range : forall table, rangeTable env = Some table -> forall d, d ∈ docs -> base_getFloatValue table d = Ret (range_value d);
  sr_counters : forall c, c ∈ counters env -> exists table, c.2 = Some table /\
    forall d, d ∈ docs -> base_getInt32Value table d = Ret (counter_value c.1 d);
  sr_weak : StrictWeak lt;
  sr_less : forall x y, is_scored (evaluator prep) docs x -> is_scored (evaluator prep) docs y -> less x y = lt x y;
  sr_data : forall l, exists data, sort_data prep l = Ret (Some data)
}.

Section Ready.
Context (attrGroupNum : Z) (docs : list Z) (range_value : Z -> option spec_float) (counter_value : string -> Z -> option Z).
Context (prep : prepared) (less lt : ScoreDoc -> ScoreDoc -> bool).
Hypothesis Hready : search_ready attrGroupNum docs range_value counter_value prep less lt.
Hypothesis Hmax : 0 <= attrGroupNum < 2 ^ 31.
Context (k : Z).
Hypothesis Hk : 0 <= k < 2 ^ 31.

Notation score_of := (scored (evaluator prep)).
Notation acc := (accepted accepts).

(** The property range a thread finds. *)
Definition thread_range (ds : list Z) : PropertyRange :=
  match rangeTable env with
  | Some _ =>
      if fle (low_of range_value (acc ds)) (high_of range_value (acc ds))
      then Range (high_of range_value (acc ds)) (low_of range_value (acc ds)) else no_range
  | None => no_range
  end.

Definition reps_ok (n : Z) (ds : list Z) (a : list (item T)) : Prop := if has_filter then attr_of n ds a else a = [].

(** What is found in the documents [ds]. *)
Record found_ok (range : PropertyRange) (ds : list Z) (f : Found Q T) : Prop := {
  fo_total : totalCount f = u64 (vsize (acc ds));
  fo_range : propertyRange f = range;
  fo_counters : counterResults f = counter_map (counters env) counter_value (acc ds);
  fo_rep : if has_filter then rep_of ds (groupRep f) else groupRep f = clear;
  fo_queue : exists h, scoreItemQueue f = Some h /\ holds less lt k (map score_of (acc ds)) h
}.

Lemma docs_ok : docs_wf docs.
Proof. destruct (sr_iterator _ _ _ _ _ _ _ Hready) as (it & _ & Hit). exact (di_rep_wf _ _ Hit). Qed.

Lemma docs_bound d : d ∈ docs -> 0 <= d < MAX_DOC_ID.
Proof. apply docs_ok. Qed.

Lemma docs_sorted : ssorted docs.
Proof. apply docs_ok. Qed.

Lemma part_elem ds d : ds `sublist_of` docs -> d ∈ ds -> d ∈ docs.
Proof. apply sublist_elem. Qed.

Lemma scored_all ds : ds ⊆ docs -> Forall (is_scored (evaluator prep) docs) (map score_of (acc ds)).
Proof. apply scored_forall. Qed.

(** One thread. *)
Lemma search_ok n p : n = 0 \/ n = attrGroupNum -> found_ p = new_found -> rankers_ p = no_rankers -> heapSize p = k ->
  0 <= docIdBegin p < MAX_DOC_ID -> docIdEnd p <= MAX_DOC_ID ->
  exists f, search env n p = Ret (true, set_found f (set_rankers prep p)) /\
    let ds := in_range (docIdBegin p) (docIdEnd p) docs in found_ok (thread_range ds) ds f /\ reps_ok n ds (attrRep f).
Proof.
  destruct Hready as [Hinfo (it & Ei & Hit) (prep0 & locks & Ep & Eo & Hmake) Hall Hr Hc Hw Hless _].
  intros Hn Hf Hrk Hh Hb He. set (ds := in_range _ _ _). unfold search. rewrite Ei. cbn [attempt try_catch fmap res_fmap res_bind].
  rewrite Hrk, Ep. cbn [attempt try_catch fmap res_fmap res_bind]. rewrite make_queue_order. cbn [rankers_ set_rankers]. rewrite Eo.
  cbn [res_bind]. rewrite Hinfo. unfold run_search. destruct (Hmake n Hn) as (fl & locks' & Em & Hfl).
  unfold created_filter in Em. rewrite Em. cbn [res_bind set_found set_rankers rankers_ found_ heapSize].
  change (Evaluator (productScorer env) (customRanker prep) (geoLocationRanker prep)) with (evaluator prep).
  unfold doSearch_. cbn [found_ with_queue scoreItemQueue docIdBegin docIdEnd totalCount propertyRange counterResults groupRep attrRep set_found set_rankers].
  rewrite Hf, Hh. cbn [totalCount propertyRange counterResults groupRep attrRep new_found].
  set (st0 := Loop fl _ _ _ _ _).
  assert (loop_ok accepts has_filter (rangeTable env) range_value (counters env) counter_value (evaluator prep) less lt k n [] st0) as Hok0.
  { split; cbn [l_filter lowValue highValue counterValues l_total l_queue st0]; try done. by apply new_holds. }
  destruct (process_all accepts has_filter Hall (rangeTable env) range_value (counters env) counter_value (evaluator prep) docs docs_ok Hr Hc
    less lt Hless k n ds [] st0 Hok0) as (st & Est & Hok).
  { apply sublist_filter. }
  cbn [app] in Hok.
  pose proof (doSearch_loop (rangeTable env) (counters env) (evaluator prep) it docs (docIdBegin p) (docIdEnd p) st0 st Hit Hb He Est) as El.
  destruct (di_skipTo (docIdBegin p) it) as [[t it1]| | |]; cbn [res_bind] in El |- *; [|done..]. rewrite El. cbn [res_bind].
  destruct Hok as [Hf1 Hlow Hhigh Hcv Ht Hq].
  assert ((match rangeTable env with
    | Some _ => if fle (lowValue st) (highValue st) then Range (highValue st) (lowValue st) else no_range
    | None => no_range end) = thread_range ds) as Hrange.
  { unfold thread_range. destruct (rangeTable env); [|done]. by rewrite Hlow, Hhigh. }
  rewrite Hrange, Hcv, Ht. unfold reps_ok. destruct has_filter eqn:Eh.
  - destruct Hf1 as (f & -> & Hf1). destruct (flt_rep_spec n f ds Hf1 (docs_wf_sublist _ _ (sublist_filter _ _) docs_ok)) as (g & a & f' & Eg & Hg & Ha).
    cbn [found_ set_found set_rankers groupRep attrRep]. rewrite Eg. cbn [res_bind try_catch]. eexists. split; [destruct p; reflexivity|].
    split; [|done]. split; try done; [by rewrite Eh|by exists (l_queue st)].
  - rewrite Hf1. cbn [try_catch]. eexists. split; [destruct p; reflexivity|]. split; [|done]. split; try done; [by rewrite Eh|by exists (l_queue st)].
Qed.

(** *** Merging *)

Lemma merge_param_ok range ds ds' f reps p : found_ok range ds f -> found_ok (thread_range ds') ds' (found_ p) -> isSuccess p = true ->
  (ds ++ ds') `sublist_of` docs ->
  exists f', merge_param f reps p = Ret (Some (f', reps ++ [attrRep (found_ p)])) /\
    found_ok (merge_range range (thread_range ds')) (ds ++ ds') f' /\ attrRep f' = attrRep f.
Proof.
  intros [Ht Hrg Hc Hg (h & Eh & Hq)] [Ht' Hrg' Hc' Hg' (h' & Eh' & Hq')] Hs Hds. unfold merge_param. rewrite Hs, Eh, Eh'. cbn [negb].
  pose proof (sr_weak _ _ _ _ _ _ _ Hready) as Hw. pose proof (sr_less _ _ _ _ _ _ _ Hready) as Hless.
  destruct (move_hits_ok less lt _ Hless k _ _ h h' Hk Hq Hq') as (out & rest & -> & Hout);
    [apply scored_all; intros d Hd; apply (part_elem _ _ Hds); set_solver..|].
  cbn [res_bind]. rewrite Hrg, Hrg', Hc, Hc', merge_counter_maps, Ht, Ht'.
  assert (exists g1 g2, GroupRep.merge (groupRep f) (groupRep (found_ p)) = Ret (g1, g2) /\
    if has_filter then rep_of (ds ++ ds') g1 else g1 = clear) as (g1 & g2 & -> & Hg1).
  { destruct has_filter; [apply rep_merge_spec; [by eapply docs_wf_sublist, docs_ok|done..]|]. rewrite Hg, Hg'. by exists clear, clear. }
  cbn [res_bind]. eexists. split; [done|]. split; [|done]. split; cbn [totalCount propertyRange counterResults groupRep scoreItemQueue]; try done.
  - rewrite accepted_app, vsize_app. unfold u64. by rewrite <- Zplus_mod.
  - by rewrite accepted_app.
  - exists out. by rewrite accepted_app, map_app.
Qed.

Lemma merge_params_ok params dss : Forall2 (fun p ds => isSuccess p = true /\ found_ok (thread_range ds) ds (found_ p)) params dss ->
  forall range ds f reps, found_ok range ds f -> (ds ++ concat dss) `sublist_of` docs ->
  exists f', merge_params f reps params = Ret (Some (f', reps ++ map (fun p => attrRep (found_ p)) params)) /\
    found_ok (foldl merge_range range (map thread_range dss)) (ds ++ concat dss) f' /\ attrRep f' = attrRep f.
Proof.
  induction 1 as [|p ds' params dss [Hs Hp] _ IH]; intros range ds f reps Hf Hds; cbn [merge_params map concat foldl].
  { exists f. by rewrite !app_nil_r. }
  cbn [concat] in Hds. destruct (merge_param_ok range ds ds' f reps p Hf Hp Hs) as (f1 & -> & Hf1 & Ea).
  { rewrite app_assoc in Hds. by eapply prefix_sublist. }
  cbn [res_bind].
  destruct (IH _ _ f1 (reps ++ [attrRep (found_ p)]) Hf1) as (f' & -> & Hf' & Ea'); [by rewrite <- app_assoc|].
  exists f'. rewrite <- !app_assoc. rewrite <- app_assoc in Hf'. split; [done|]. split; [done|]. by rewrite Ea'.
Qed.

Lemma attr_merge_ok n ds dss a l : 0 <= n < 2 ^ 31 -> docs_wf (ds ++ concat dss) -> reps_ok 0 ds a -> Forall2 (reps_ok 0) dss l ->
  exists a' l', OntologyRep.merge (Q := QA) n a l = Ret (a', l') /\ reps_ok n (ds ++ concat dss) a'.
Proof.
  unfold reps_ok. intros Hn Hwf. destruct has_filter; [by apply attr_merge_spec|]. clear Hwf. intros -> Hl. exists [], []. split; [|done].
  apply merge_nothing. by induction Hl as [|? ? ? ? -> _ IH]; constructor.
Qed.

Lemma mergeThreadParams_ok n p params ds dss : 0 <= originAttrGroupNum p < 2 ^ 31 -> isSuccess p = true -> found_ok (thread_range ds) ds (found_ p) -> reps_ok 0 ds (attrRep (found_ p)) ->
  Forall2 (fun p ds => isSuccess p = true /\ found_ok (thread_range ds) ds (found_ p) /\ reps_ok 0 ds (attrRep (found_ p))) params dss ->
  params <> [] -> (ds ++ concat dss) `sublist_of` docs ->
  exists p', mergeThreadParams (QA := QA) n (p :: params) = Ret (Some (p', originAttrGroupNum p)) /\ rankers_ p' = rankers_ p /\
    found_ok (foldl merge_range (thread_range ds) (map thread_range dss)) (ds ++ concat dss) (found_ p') /\
    reps_ok (originAttrGroupNum p) (ds ++ concat dss) (attrRep (found_ p')).
Proof.
  intros Hn Hs Hf Ha Hps Hne Hds. destruct params as [|p2 params]; [done|]. unfold mergeThreadParams. rewrite Hs. cbn [negb].
  destruct (merge_params_ok (p2 :: params) dss) with (range := thread_range ds) (ds := ds) (f := found_ p) (reps := @nil (list (item T)))
    as (f' & -> & [] & Ea); [eapply Forall2_impl; [done|]; tauto|done|done|]. cbn [res_bind app]. rewrite Ea.
  destruct (attr_merge_ok (originAttrGroupNum p) ds dss (attrRep (found_ p)) (map (fun p => attrRep (found_ p)) (p2 :: params)))
    as (a' & l' & -> & Ha'); [done|by eapply docs_wf_sublist, docs_ok|done| |].
  { apply Forall2_fmap_r, Forall2_flip. eapply Forall2_impl; [done|]. tauto. }
  cbn [res_bind]. eexists. split; [done|]. split; [done|]. split; [|done]. by split.
Qed.

(** *** The threads together *)

(** The documents of the threads. *)
Definition shares (maxDocId n : Z) : list (list Z) :=
  map (fun i => in_range (i * share maxDocId n) ((i + 1) * share maxDocId n) docs) (seqZ 0 n).

(** What the merging makes of the property ranges of the threads. *)
Definition range_found (maxDocId n : Z) : PropertyRange :=
  match map thread_range (shares maxDocId n) with r :: rs => foldl merge_range r rs | [] => no_range end.

Lemma thread_ok maxDocId n i a origin : 0 <= maxDocId -> 0 < n -> maxDocId + n <= MAX_DOC_ID -> 0 <= i < n -> a = 0 \/ a = attrGroupNum ->
  exists f, search env a (set_origin origin (range_param maxDocId n k i)) = Ret (true, set_found f (set_rankers prep (set_origin origin (range_param maxDocId n k i)))) /\
    let ds := in_range (i * share maxDocId n) ((i + 1) * share maxDocId n) docs in found_ok (thread_range ds) ds f /\ reps_ok a ds (attrRep f).
Proof.
  intros Hm Hn Hle Hi Ha. pose proof (share_bound maxDocId n (i + 1) Hm Hn ltac:(lia)).
  pose proof (share_bound maxDocId n i Hm Hn ltac:(lia)). assert (1 <= share maxDocId n).
  { unfold share. pose proof (Z.div_pos maxDocId n Hm Hn). lia. }
  destruct (search_ok a (set_origin origin (range_param maxDocId n k i)) Ha) as (f & E & H3); cbn [range_param set_range set_origin docIdBegin docIdEnd]; try done; [lia|lia|].
  exists f. by split.
Qed.

(** What a thread leaves: the first one keeps the number of groups asked for. *)
Definition origin_of (i : Z) : Z := if i =? 0 then attrGroupNum else 0.
Definition thread_done (maxDocId n : Z) (p : SearchThreadParam Q T) (i : Z) : Prop :=
  let ds := in_range (i * share maxDocId n) ((i + 1) * share maxDocId n) docs in
  isSuccess p = true /\ found_ok (thread_range ds) ds (found_ p) /\ reps_ok 0 ds (attrRep (found_ p)) /\
  rankers_ p = prep /\ originAttrGroupNum p = origin_of i.

Lemma threads_run maxDocId n : 0 <= maxDocId -> 0 < n -> maxDocId + n <= MAX_DOC_ID ->
  exists params, each (runSearchJob_ env 0) (map (fun i => set_origin (origin_of i) (range_param maxDocId n k i)) (seqZ 0 n)) = Ret params /\
    Forall2 (thread_done maxDocId n) params (seqZ 0 n).
Proof.
  intros Hm Hn Hle. apply (each_rule _ (fun p i => 0 <= i < n /\ p = set_origin (origin_of i) (range_param maxDocId n k i))).
  - intros p i [Hi ->]. destruct (thread_ok maxDocId n i 0 (origin_of i) Hm Hn Hle Hi) as (f & E & Hf & Ha); [by left|].
    unfold runSearchJob_. rewrite E. cbn [res_bind]. eexists. split; [done|]. destruct Hf. split; [done|]. split; [done|]. by split.
  - apply Forall2_fmap_l, Forall_Forall2_diag, Forall_forall. intros i Hi%elem_of_seqZ. split; [lia|done].
Qed.

Lemma prepare_params m s_round node round n heap : getThreadInfo_ env m s_round = Ret (n, node, round) ->
  0 <= maxDocId_ m -> 0 < n -> maxDocId_ m + n <= MAX_DOC_ID ->
  prepareThreadParams (Q := Q) (T := T) env m s_round attrGroupNum heap =
  Ret (if n =? 1 then ([range_param (maxDocId_ m) 1 heap 0], attrGroupNum, round)
       else (map (fun i => set_origin (origin_of i) (range_param (maxDocId_ m) n heap i)) (seqZ 0 n), 0, round)).
Proof.
  intros Ei Hm Hn Hle. unfold prepareThreadParams. rewrite Ei. cbn [res_bind].
  rewrite split_docs_ok by (unfold MAX_DOC_ID in Hle; lia). cbn [res_bind]. destruct (Z.eqb_spec n 1) as [->|Hne]; [done|].
  rewrite (seqZ_cons 0 n), (seqZ_cons (Z.succ 0) (Z.pred n)) by lia. cbn [map tail]. f_equal. f_equal. f_equal. f_equal. f_equal.
  apply map_ext_in. intros i Hi%list_elem_of_In%elem_of_seqZ. unfold origin_of. destruct (Z.eqb_spec i 0); [lia|done].
Qed.

(** *** The page *)

Definition page (offset limit : Z) : list ScoreDoc :=
  drop (Z.to_nat offset) (take (Z.to_nat (limit + offset)) (sort_desc lt (map score_of (acc docs)))).

Record answer_ok (threadNum maxDocId offset limit : Z) (r : KeywordSearchResult (T := T)) : Prop := {
  an_docs : topKDocs_ r = map docId (page offset limit);
  an_scores : topKRankScoreList_ r = map (fun d => double_to_float (score d)) (page offset limit);
  an_custom : topKCustomRankScoreList_ r = fetch_scores (customRanker prep) custom_score (page offset limit);
  an_geo : topKGeoDistanceList_ r = fetch_scores (geoLocationRanker prep) geo_dist (page offset limit);
  an_total : totalCount_ r = vsize (acc docs);
  an_counters : counterResults_ r = counter_map (counters env) counter_value (acc docs);
  an_range : propertyRange_ r = range_found maxDocId threadNum;
  an_reps : has_filter = true -> rep_of docs (groupRep_ r) /\ attr_of attrGroupNum docs (attrRep_ r);
  an_data : sort_data prep (topKDocs_ r) = Ret (Some (sortData_ r))
}.

Lemma fetch_answer n maxDocId offset limit p : 0 <= offset -> k = limit + offset -> rankers_ p = prep ->
  total_on lt (map score_of (acc docs)) ->
  found_ok (range_found maxDocId n) docs (found_ p) -> reps_ok attrGroupNum docs (attrRep (found_ p)) ->
  exists r, fetchSearchResult env offset p = Ret (Some r) /\ answer_ok n maxDocId offset limit r.
Proof.
  intros Ho Ek Hp Htot [Ht Hr Hc Hg (h & Eh & Hq)] Ha. unfold fetchSearchResult. rewrite Eh, Hp.
  pose proof (sr_weak _ _ _ _ _ _ _ Hready) as Hw. pose proof (sr_less _ _ _ _ _ _ _ Hready) as Hless.
  destruct (fetch_ok less lt _ Hless k (map score_of (acc docs)) h offset ltac:(lia) Ho Hq) as (h' & ->); [by apply scored_all|done|].
  cbn [res_bind]. rewrite Ek. fold (page offset limit). destruct (sr_data _ _ _ _ _ _ _ Hready (map docId (page offset limit))) as (data & Ed).
  unfold sort_data in Ed. rewrite Ed. cbn [res_bind]. eexists. split; [done|].
  split; cbn [topKDocs_ topKRankScoreList_ topKCustomRankScoreList_ topKGeoDistanceList_ totalCount_ counterResults_ propertyRange_ groupRep_ attrRep_ sortData_]; try done.
  - rewrite Ht. apply u64_small. split; [apply vsize_nonneg|].
    pose proof (cursor_wf_size (Cursor false docs)) as Hs. cbn in Hs.
    assert (vsize (acc docs) <= vsize docs) by (unfold vsize, accepted; pose proof (length_filter (fun d => accepts d = true) docs); lia).
    assert (cursor_wf (Cursor false docs)) as Hwf by (split; [apply docs_sorted|apply docs_bound]).
    specialize (Hs Hwf). unfold MAX_DOC_ID in Hs. lia.
  - intros Eh2. unfold reps_ok in Ha. by rewrite Eh2 in Hg, Ha.
Qed.

Lemma thread_docs maxDocId n params : Forall2 (thread_done maxDocId n) params (seqZ 0 n) ->
  Forall2 (fun p ds => isSuccess p = true /\ found_ok (thread_range ds) ds (found_ p) /\ reps_ok 0 ds (attrRep (found_ p))) params (shares maxDocId n).
Proof. intros H. apply Forall2_fmap_r. eapply Forall2_impl; [exact H|]. intros p i (Hs & Hf & Ha & _). by split. Qed.

Lemma shares_concat maxDocId n : 0 <= maxDocId -> 0 < n -> (forall d, d ∈ docs -> d <= maxDocId) -> concat (shares maxDocId n) = docs.
Proof.
  intros Hm Hn Hd. apply ranges_join; [done..|apply docs_sorted|]. intros d H. split; [by apply docs_bound|by apply Hd].
Qed.

Lemma search_page m s_round node round n limit offset :
  getThreadInfo_ env m s_round = Ret (n, node, round) -> 0 < n ->
  0 <= maxDocId_ m -> (forall d, d ∈ docs -> d <= maxDocId_ m) -> maxDocId_ m + n <= MAX_DOC_ID ->
  0 <= offset -> 0 <= limit -> k = limit + offset ->
  total_on lt (map score_of (acc docs)) ->
  exists r, NormalSearch_search (Q := Q) (QA := QA) env m s_round attrGroupNum limit offset = Ret (Some r) /\
    answer_ok n (maxDocId_ m) offset limit r.
Proof.
  intros Ei Hn Hm Hd Hle Ho Hl Ek Htot. pose proof (sr_info _ _ _ _ _ _ _ Hready) as Hinfo.
  unfold NormalSearch_search. rewrite u64_small by lia. rewrite <- Ek, (prepare_params m s_round node round n k Ei Hm Hn Hle).
  pose proof (shares_concat (maxDocId_ m) n Hm Hn Hd) as Hcat. destruct (Z.eqb_spec n 1) as [->|Hne]; cbn [res_bind].
  - destruct (thread_ok (maxDocId_ m) 1 0 attrGroupNum 0 Hm Hn Hle ltac:(lia)) as (f & E & Hf & Ha); [by right|].
    change (set_origin 0 (range_param (maxDocId_ m) 1 k 0)) with (range_param (Q := Q) (T := T) (maxDocId_ m) 1 k 0) in E.
    unfold runThreadParams. rewrite E. cbn [try_catch res_bind negb]. rewrite Hinfo. unfold mergeThreadParams. cbn [res_bind].
    change (shares (maxDocId_ m) 1) with [in_range (0 * share (maxDocId_ m) 1) ((0 + 1) * share (maxDocId_ m) 1) docs] in Hcat.
    cbn [concat] in Hcat. rewrite app_nil_r in Hcat. rewrite Hcat in Hf, Ha. apply fetch_answer; try done.
    cbn [found_ set_found]. assert (range_found (maxDocId_ m) 1 = thread_range docs) as ->; [|done].
    unfold range_found. change (shares (maxDocId_ m) 1) with [in_range (0 * share (maxDocId_ m) 1) ((0 + 1) * share (maxDocId_ m) 1) docs].
    by rewrite Hcat.
  - destruct (threads_run (maxDocId_ m) n Hm Hn Hle) as (params & Er & Hall). pose proof (thread_docs _ _ _ Hall) as Hds.
    pose proof (Forall2_length _ _ _ Hall) as Hlen. rewrite length_seqZ in Hlen.
    assert (runThreadParams env 0 (map (fun i => set_origin (origin_of i) (range_param (maxDocId_ m) n k i)) (seqZ 0 n)) = Ret (true, params)) as ->.
    { rewrite (seqZ_cons 0 n), (seqZ_cons (Z.succ 0) (Z.pred n)) in Er |- * by lia. cbn [map] in Er |- *. unfold runThreadParams. by rewrite Er. }
    cbn [res_bind negb]. rewrite Hinfo. destruct params as [|p params]; [cbn in Hlen; lia|].
    rewrite (seqZ_cons 0 n) in Hall by lia. apply Forall2_cons in Hall as [(Hs & Hf & Ha & Hr & Horg) _].
    unfold shares in Hds, Hcat. rewrite (seqZ_cons 0 n) in Hds, Hcat by lia. cbn [map concat] in Hds, Hcat.
    apply Forall2_cons in Hds as [_ Hds].
    destruct (mergeThreadParams_ok 0 p params _ _ ltac:(rewrite Horg; exact Hmax) Hs Hf Ha Hds) as (p' & -> & Hr' & Hf' & Ha');
      [intros ->; cbn in Hlen; lia|by rewrite Hcat|].
    cbn [res_bind]. rewrite Hcat in Hf', Ha'. rewrite Horg in Ha'. apply fetch_answer; try done; [by rewrite Hr'|].
    unfold range_found, shares. by rewrite (seqZ_cons 0 n) by lia.
Qed.

(** C3: whatever the number of threads, a search succeeds and answers the page
    of the best documents: those of the documents enumerated by the iterator
    that the filter accepts, scored and sorted by the order of the queue, from
    [offset] on. The total count is the number of accepted documents, each
    counter is the sum of its property over them, and the group results are those
    that one filter makes of all documents, by the laws of [FilterSpec] on counting
    and merging; FilterCounts.v proves these laws of the group filter of
    GroupFilter.v with counters of string properties and of numeric ranges, without a
    limit on the groups and without a counter of attributes. The order of the queue
    is total on the accepted documents ([total_on]). *)
Theorem search_answers m s_round node round n limit offset :
  getThreadInfo_ env m s_round = Ret (n, node, round) -> 0 < n ->
  0 <= maxDocId_ m -> (forall d, d ∈ docs -> d <= maxDocId_ m) -> maxDocId_ m + n <= MAX_DOC_ID ->
  0 <= offset -> 0 <= limit -> k = limit + offset ->
  total_on lt (map score_of (acc docs)) ->
  exists r, NormalSearch_search (Q := Q) (QA := QA) env m s_round attrGroupNum limit offset = Ret (Some r) /\
    answer_ok n (maxDocId_ m) offset limit r.
Proof. apply search_page. Qed.
End Ready.
End Search.

(** An instance: the filter of FilterCounts.v, which rejects document 5, the
    documents of a collection in four threads, ranked by a scorer, with one
    counter. *)
Definition ex_table : NumericPropertyTableBase :=
  num_base (Number0 := int_number 32) (Table INT32_PROPERTY_TYPE false (- 2 ^ 31) "" [0; 7; 0; 0; 0; 9]).
Definition ex_docs : list Z := [1; 5; 40000; 80001; 80002].
Definition ex_env (docs : list Z) : SearchSetting cursor Z ex_filter_type (gmap Z string) :=
  Setting None None (dbl 1 (-23)) (fun prep => Ret prep) (Ret (Some (Cursor true docs))) false (Some ex_create_filter)
    (Some (fun d => dbl (d mod 7) 0)) None [("price"%string, Some ex_table)].
Definition ex_value (_ : string) (d : Z) : option Z := match base_getInt32Value ex_table d with Ret v => v | _ => None end.
Definition ex_order : ScoreDoc -> ScoreDoc -> bool := lex_lt [(fun a b => klt (score a) (score b), false)].
Definition ex_master : MasterInfo := Master true 90000 4 None.

(** ** The ranges, and what the threads lose *)

Definition covers {Q T} (p : SearchThreadParam Q T) (d : Z) : Prop := docIdBegin p <= d < docIdEnd p.

(** C39: the ranges that the documents are divided into do not overflow, are in
    order, and every document id up to the greatest is in the range of exactly
    one thread. *)
Theorem thread_ranges {Q T} maxDocId n heap : 0 <= maxDocId -> 0 < n -> maxDocId + n < 2 ^ 64 ->
  exists params, split_docs (Q := Q) (T := T) maxDocId n heap = Ret params /\ vsize params = n /\
    Forall (fun p => 0 <= docIdBegin p < docIdEnd p /\ docIdEnd p <= maxDocId + n) params /\
    forall d, 0 <= d <= maxDocId -> exists i, (i < length params)%nat /\
      forall j p, params !! j = Some p -> covers p d <-> j = i.
Proof.
  intros Hm Hn Hmax. rewrite split_docs_ok by done. eexists. split; [done|].
  assert (length (seqZ 0 n) = Z.to_nat n) as Hlen by (rewrite length_seqZ; lia).
  assert (1 <= share maxDocId n) as Hs by (unfold share; pose proof (Z.div_pos maxDocId n Hm Hn); lia).
  split; [unfold vsize; rewrite length_map, Hlen; lia|]. split.
  - apply Forall_map, Forall_forall. intros i Hi%elem_of_seqZ. cbn [range_param set_range docIdBegin docIdEnd].
    pose proof (share_bound maxDocId n i Hm Hn ltac:(lia)). pose proof (share_bound maxDocId n (i + 1) Hm Hn ltac:(lia)). lia.
  - intros d Hd. pose proof (share_covers maxDocId n Hm Hn) as Hc. set (s := share maxDocId n) in *.
    assert (0 <= d / s < n) as Hq by (split; [apply Z.div_pos; lia|apply Z.div_lt_upper_bound; lia]).
    exists (Z.to_nat (d / s)). rewrite length_map, Hlen. split; [lia|]. intros j p Hj.
    apply list_lookup_fmap_Some in Hj as (i & -> & Hi). apply lookup_seqZ in Hi as [-> Hi].
    unfold covers. cbn [range_param set_range docIdBegin docIdEnd]. fold s. pose proof (Z.div_mod d s ltac:(lia)). pose proof (Z.mod_pos_bound d s ltac:(lia)).
    split; [intros Hr; enough (d / s = 0 + Z.of_nat j) by lia; symmetry; apply (Z.div_unique d s _ (d - (0 + Z.of_nat j) * s)); lia|].
    intros ->. rewrite Z2Nat.id by lia. nia.
Qed.

Lemma thread_ranges_witness : exists params, split_docs (Q := unit) (T := Z) 90001 4 10 = Ret params /\ vsize params = 4 /\
  exists i, forall j p, params !! j = Some p -> covers p 67503 <-> j = i.
Proof.
  destruct (thread_ranges (Q := unit) (T := Z) 90001 4 10) as (params & E & Hl & _ & Hd); [lia..|].
  exists params. split; [exact E|]. split; [exact Hl|]. destruct (Hd 67503 ltac:(lia)) as (i & _ & Hi). by exists i.
Defined.

(** A thread without values has the range from 0 to 0, which is merged. *)
Lemma empty_thread_widens high low : flt low d0 = false -> merge_range (Range high low) no_range = Range (std_max d0 high) d0.
Proof. intros H. unfold merge_range, no_range, std_min. cbn [lowValue_ highValue_]. by rewrite H. Qed.

(** *** Searching all documents in several threads

[skipTo] of an AllDocumentIterator moves past its target, so that a thread
whose range begins at [b] does not see document [b]. *)
Section SelectAll.
Context {Q T F : Type} `{!PQueue Q ScoreDoc, !FilterOps T F}.
Context (rangePropertyTable : option NumericPropertyTableBase) (counterList : list (string * option NumericPropertyTableBase)) (e : ScoreDocEvaluator).
Notation process := (process_doc (T := T) (F := F) (Q := Q) rangePropertyTable counterList e).

Lemma select_all_loop maxDoc b docIdEnd (st st' : loop_state (Q := Q) (F := F)) :
  0 <= b -> b + 1 < docIdEnd -> docIdEnd <= maxDoc + 1 -> maxDoc < MAX_DOC_ID -> mfold process (seqZ (b + 1) (docIdEnd - (b + 1))) st = Ret st' ->
  (let* (_, it) := di_skipTo b (AllIter (@None (cursor * Z)) 0 maxDoc) in
   while_loop (doSearch_body (T := T) rangePropertyTable counterList e docIdEnd) (it, st)) = Ret st'.
Proof.
  intros Hb He Hm Hmax Hfold. cbn [di_skipTo all_iter_DocIterator all_skipTo delTermDocFreqs_ all_do_skipTo all_currDoc_ maxDoc_]. unfold all_do_skipTo, past. cbn [all_currDoc_ maxDoc_ delTermDocFreqs_].
  unfold MAX_DOC_ID in *. assert (incr b = b + 1) as -> by (unfold incr; apply u32_small; lia).
  assert ((let (cur, _) := if b <? 0 then (0, b) else (b + 1, b + 1) in Ret (found cur maxDoc, AllIter (@None (cursor * Z)) cur maxDoc)) =
    Ret (found (b + 1) maxDoc, AllIter None (b + 1) maxDoc)) as -> by (destruct (Z.ltb_spec b 0); [lia|done]). cbn [res_bind].
  destruct (while_loop_rule (doSearch_body (T := T) rangePropertyTable counterList e docIdEnd)
    (fun cur '(it, st) => it = AllIter (@None (cursor * Z)) cur maxDoc /\ 0 <= cur <= docIdEnd /\
       mfold process (seqZ cur (docIdEnd - cur)) st = Ret st')
    (fun cur => docIdEnd - cur) (fun r => r = st')) with (g := b + 1) (s := (AllIter (@None (cursor * Z)) (b + 1) maxDoc, st)) as (r & -> & ->); [| | |done].
  - intros cur [it st1] (-> & Hc & Hf). split; [lia|]. unfold doSearch_body. cbn [di_doc all_iter_DocIterator all_currDoc_].
    destruct (Z.leb_spec docIdEnd cur).
    + right. eexists. split; [done|]. rewrite seqZ_nil in Hf by lia. by injection Hf.
    + rewrite seqZ_cons in Hf by lia. cbn [mfold] in Hf. apply bind_Ret_inv in Hf as (st2 & -> & Hf). cbn [res_bind].
      cbn [di_next all_iter_DocIterator]. unfold all_next. cbn [all_currDoc_ maxDoc_ delTermDocFreqs_]. unfold incr. rewrite u32_small by lia. cbn [res_bind].
      replace (Z.pred (docIdEnd - cur)) with (docIdEnd - (cur + 1)) in Hf by lia. unfold Z.succ in Hf.
      destruct (Z.leb_spec (cur + 1) maxDoc).
      * left. eexists (cur + 1), _. split; [done|]. split; [|lia]. split; [done|]. split; [lia|done].
      * right. eexists. split; [done|]. rewrite seqZ_nil in Hf by lia. by injection Hf.
  - split; [done|]. split; [lia|]. done.
  - unfold loop_fuel. lia.
Qed.
End SelectAll.

(** The counter reads the values of [docs], and the test of the queue agrees
    with the order on their scores. *)
Definition ex_values_read (docs : list Z) : bool :=
  forallb (fun d => match base_getInt32Value ex_table d with Ret _ => true | _ => false end) docs.
Definition ex_scores_apart (docs : list Z) : bool :=
  forallb (fun a => forallb (fun b =>
    let x := scored (evaluator (ex_env docs) no_rankers) a in let y := scored (evaluator (ex_env docs) no_rankers) b in
    Bool.eqb (score_lessThan (dbl 1 (-23)) x y) (ex_order x y)) docs) docs.

Lemma ex_ready docs : cursor_wf (Cursor true docs) -> ex_values_read docs = true -> ex_scores_apart docs = true ->
  search_ready (QA := heap (Z * spec_float)) (ex_env docs) ex_accepts true 2 docs (fun _ => None) ex_value no_rankers
  (score_lessThan (dbl 1 (-23))) ex_order.
Proof.
  intros Hwf Hv Hs. split.
  - done.
  - by exists (Cursor true docs).
  - exists no_rankers, []. split; [done|]. split; [done|]. intros n _. eexists (Some _), _. split; [apply ex_created_filter|].
    eexists. split; [done|]. by apply new_filter_counts; [apply ex_kinds_ok|].
  - done.
  - done.
  - intros c Hc%list_elem_of_singleton. subst c. exists ex_table. split; [done|]. intros d Hd. unfold ex_value, ex_values_read in *.
    rewrite forallb_forall in Hv. apply list_elem_of_In in Hd. specialize (Hv d Hd). by case_match.
  - apply lex_lt_weak. constructor; [apply klt_weak|constructor].
  - intros x y (dx & Hx & ->) (dy & Hy & ->). apply Bool.eqb_prop.
    unfold ex_scores_apart in Hs. rewrite forallb_forall in Hs. specialize (Hs dx). rewrite forallb_forall in Hs.
    apply Hs; by apply list_elem_of_In.
  - intros l. exists no_sort_data. done.
Qed.

Lemma ex_docs_wf : cursor_wf (Cursor true ex_docs).
Proof.
  split; [repeat constructor; done|]. intros d Hd. cbn in Hd. unfold ex_docs in Hd. set_unfold. unfold MAX_DOC_ID. lia.
Qed.

Lemma ex_total docs : total_on ex_order (map (scored (evaluator (ex_env docs) no_rankers)) (accepted ex_accepts docs)).
Proof.
  intros x y Hx Hy H1 H2. apply (lex_lt_total _ _ _ H1) in H2.
  apply list_elem_of_fmap in Hx as (dx & -> & _), Hy as (dy & -> & _). cbn in H2. by subst.
Qed.

Lemma search_answers_witness : exists r,
  NormalSearch_search (Q := heap ScoreDoc) (QA := heap (Z * spec_float)) (ex_env ex_docs) ex_master 0 2 2 1 = Ret (Some r) /\
  topKDocs_ r = [80001; 40000] /\ totalCount_ r = 4 /\ counterResults_ r = [("price"%string, 7)] /\ groupRep_ r = ex_counts ex_docs.
Proof.
  destruct (search_answers (ex_env ex_docs) ex_accepts true 2 ex_docs (fun _ => None) ex_value no_rankers (score_lessThan (dbl 1 (-23))) ex_order
    (ex_ready ex_docs ex_docs_wf ltac:(by vm_compute) ltac:(by vm_compute)) ltac:(lia) 3 ltac:(lia) ex_master 0 0 0 4 2 1) as (r & E & Hr).
  - done.
  - lia.
  - done.
  - intros d Hd. unfold ex_docs in Hd. cbn. set_unfold. lia.
  - done.
  - lia.
  - lia.
  - lia.
  - apply ex_total.
  - exists r. split; [exact E|]. destruct Hr as [-> _ _ _ -> -> _ Hreps _]. destruct (Hreps eq_refl) as [-> _]. vm_compute. repeat split.
Defined.
