(* ===== verification/SearchIter.v ===== *)
(** * The iterator of a search

Models the first half of SearchThreadWorker::search and combineCustomDocIterator_
(search-manager/SearchThreadWorker.cpp), DocumentIteratorContainer.{h,cpp},
CombinedDocumentIterator.h and CustomRankDocumentIterator.cpp: the filter of a
request, the scorer of its query, the documents that were ranked by hand and, for
a query "*" without filter, all documents are combined into one iterator. The
theorem of this file puts it in front of the search of SearchSpec.v. *)
From Stdlib Require Import String.
From S2P Require Import Prelude PQueue TopK Float64 OrdMap DocIterator OrIterator AndIterator AllDocIterator PhraseMatch PhraseIterator WandIterator WildcardIterator QueryIter.
From S2P Require Import OntologyRep GroupRep GroupParam SharedLock QueryFilter QueryBuilder QueryDocs RequestDocs NumTable RTypeTable Sorter SearchPrepare SearchThread SearchResult FilterCounts SearchSpec.

(** ** DocumentIteratorContainer *)
Record DocumentIteratorContainer (S : Type) := Container { docIters_ : list S; hasNullDocIterator_ : bool }.
Arguments Container {_} _ _.
Arguments docIters_ {_} _.
Arguments hasNullDocIterator_ {_} _.

Definition no_docIters {S} : DocumentIteratorContainer S := Container [] false.

Definition container_add {S} (docIter : option S) (c : DocumentIteratorContainer S) : DocumentIteratorContainer S :=
  match docIter with
  | None => Container (docIters_ c) true
  | Some it => Container (docIters_ c ++ [it]) (hasNullDocIterator_ c)
  end.

(** mining-manager/custom-rank-manager/CustomRankValue.h *)
Record CustomRankDocId := CustomIds { topIds : list Z; excludeIds : list Z }.
Definition custom_empty (c : CustomRankDocId) : bool := is_nil (topIds c) && is_nil (excludeIds c).

(** std::unique: of consecutive equal elements the first. *)
Fixpoint unique (l : list Z) : list Z :=
  match l with
  | x :: (y :: _) as l' => if x =? y then unique l' else x :: unique l'
  | _ => l
  end.

Section SearchIter.
Context {D Q X B C : Type} `{!DocIterator D, !TermPositions D, !PQueue Q nat, !Bitmap B, !RangeIndex X B, !QueryIndex D X B, !Cache C FilteringType B}.
Notation qi := (qiter D Q).
(** Members that the constructors leave uninitialised. *)
Context (junk : Z) (junkf : spec_float).

Definition combine (c : DocumentIteratorContainer qi) : option qi :=
  if is_nil (docIters_ c) || hasNullDocIterator_ c then None
  else
    match docIters_ c with
    | [it] => Some it
    | l => Some (foldl (fun result it => q_add false it result) (QAnd junkf (ANDDocumentIterator junk)) l)
    end.

(** ** CustomRankDocumentIterator *)
Definition createFilterDocIterator (docIdList : list Z) : qi :=
  QFilter (qi_filterDocs (foldl (fun filterBitmap d => bm_set d filterBitmap) bm_new (unique (merge_sort Z.le docIdList)))).

Definition CustomRankDocumentIterator (c : CustomRankDocId) : qi :=
  let it := QOr junkf (ORDocumentIterator junk) in
  let it := if is_nil (topIds c) then it else q_add false (createFilterDocIterator (topIds c)) it in
  if is_nil (excludeIds c) then it else q_add true (createFilterDocIterator (excludeIds c)) it.

(** [getCustomValue] of the manager, if there is one. *)
Definition combineCustomDocIterator_ (customRankManager_ : option (string -> option CustomRankDocId)) (needCustom : bool) (query : string)
    (originDocIterator : option qi) : option qi :=
  match customRankManager_ with
  | Some getCustomValue =>
      if needCustom then
        match getCustomValue query with
        | Some customDocId =>
            if custom_empty customDocId then originDocIterator
            else
              let pCustomDocIter := CustomRankDocumentIterator customDocId in
              Some (match originDocIterator with Some it => q_add false it pCustomDocIter | None => pCustomDocIter end)
        | None => originDocIterator
        end
      else originDocIterator
  | None => originDocIterator
  end.

(** ** SearchThreadWorker::search, up to the iterator *)

(** What it reads of the request. *)
Record IterRequest := IterReq {
  isFilterQuery : bool;                      (* the query is "*" *)
  filterTree_ : ConditionsNode;
  indexPropertyList : list (string * gmap Z Z);  (* with [termIndexMaps] *)
  indexPropertyIdList : list Z;
  normalizedQuery : string;
  needCustomDocIterator : bool               (* isNeedCustomDocIterator *)
}.

(** What it reads of the collection. *)
Record IterCollection := IterColl {
  schemaMap : gmap string IndexProperty;
  maxDocId : Z;
  delFilter : option B;
  customRankManager : option (string -> option CustomRankDocId)
}.

Context (op : operation) (readPositions : bool) (coll : IterCollection).

Definition filter_bitmap (tree : ConditionsNode) (c : C) : res (option B * C) :=
  if conditions_empty tree then Ret (None, c)
  else let* (b, c) := prepare_filter (maxDocId coll) tree c in Ret (Some b, c).

Definition score_iterator (rq : IterRequest) (c : C) : res (option qi * C) :=
  let* (s, c) := prepare_dociterator (D := D) (Q := Q) (X := X) (B := B) junk junkf op (schemaMap coll) readPositions
    (indexPropertyList rq) (indexPropertyIdList rq) c in
  Ret (scorer_iter junk junkf <$> s, c).

(** [sorter]: there is a sorter. None: the search fails with an empty result. *)
Definition search_iterator (rq : IterRequest) (sorter : bool) (c : C) : res (option qi * C) :=
  let* (pFilterIdSet, c) := filter_bitmap (filterTree_ rq) c in
  let* (scoreDocIter, c) := (if isFilterQuery rq then Ret (None, c) else score_iterator rq c) in
  let docIterContainer := no_docIters in
  let docIterContainer :=
    match pFilterIdSet with Some b => container_add (Some (QFilter (qi_filterDocs b))) docIterContainer | None => docIterContainer end in
  let docIterContainer :=
    if isFilterQuery rq then docIterContainer
    else container_add (combineCustomDocIterator_ (customRankManager coll) (needCustomDocIterator rq) (normalizedQuery rq) scoreDocIter) docIterContainer in
  match isFilterQuery rq, pFilterIdSet, sorter with
  | true, None, true =>
      if maxDocId coll =? 0 then Ret (None, c)
      else
        let* all := AllDocumentIterator (option_map qi_filterDocs (delFilter coll)) (maxDocId coll) in
        Ret (combine (container_add (Some (QAll all)) docIterContainer), c)
  | _, _, _ => Ret (combine docIterContainer, c)
  end.
End SearchIter.

(** ** Bitmaps of document lists *)
Lemma unique_spec l : StronglySorted Z.le l -> ssorted (unique l) /\ forall x, x ∈ unique l <-> x ∈ l.
Proof.
  induction l as [|x [|y l] IH]; intros H; [split; [constructor|done]|split; [repeat constructor|done]|].
  apply StronglySorted_inv in H as [Hs Hx]. destruct (IH Hs) as [IHs IHx]. cbn [unique] in *.
  destruct (Z.eqb_spec x y) as [->|Hne].
  - split; [done|]. intros z. rewrite IHx. set_solver.
  - split; [|intros z; rewrite !elem_of_cons, IHx; set_solver]. constructor; [done|]. rewrite Forall_forall. intros z Hz%IHx.
    apply Forall_cons in Hx as [Hxy _]. assert (y <= z); [|lia].
    apply elem_of_cons in Hz as [->|Hz]; [lia|]. apply StronglySorted_inv in Hs as [_ Hy]. rewrite Forall_forall in Hy. by apply Hy.
Qed.

Section BitmapOf.
Context {B : Type} `{!Bitmap B, !BitmapSpec B}.

Lemma set_bits l (b : B) j : ssorted l -> (forall k x, bm_get b k = true -> x ∈ l -> k < x) ->
  bm_get (foldl (fun b d => bm_set d b) b l) j = bool_decide (j ∈ l) || bm_get b j.
Proof.
  revert b. induction l as [|x l IH]; intros b Hs Hb; [by rewrite bool_decide_false by apply not_elem_of_nil|].
  cbn [foldl]. pose proof Hs as [Hs' Hx]%StronglySorted_inv. assert (forall k, bm_get b k = true -> k < x) as Hbx.
  { intros k Hk. apply Hb; [done|]. by left. }
  rewrite IH; [|done|].
  - rewrite bm_set_spec by done. destruct (Z.eqb_spec j x) as [->|Hne].
    + rewrite (bool_decide_true (x ∈ x :: l)) by by left. apply orb_true_r.
    + cbn [orb]. f_equal. apply bool_decide_ext. set_solver.
  - intros k y. rewrite bm_set_spec by done. intros [->%Z.eqb_eq|Hk]%orb_true_iff Hy; [rewrite Forall_forall in Hx; by apply Hx|].
    apply Hb; [done|]. by right.
Qed.

Lemma id_bits l j : bm_get (foldl (fun b d => bm_set d b) (bm_new (B := B)) (unique (merge_sort Z.le l))) j = bool_decide (j ∈ l).
Proof.
  destruct (unique_spec (merge_sort Z.le l)) as [Hs Hx]; [apply (StronglySorted_merge_sort Z.le)|].
  rewrite set_bits; [|done|by intros k x; rewrite bm_new_spec].
  rewrite bm_new_spec, orb_false_r. apply bool_decide_ext. rewrite Hx. by rewrite merge_sort_Permutation.
Qed.
End BitmapOf.

(** ** The iterators a search can start with *)
Section Root.
Context {D Q : Type} `{!DocIterator D, !DocNextSpec D, !SkipLaw D before, !StartLaw D, !TermPositions D, !TermPositionsSpec D, !PQueue Q nat, !PQueueSpec Q nat}.
Context (getTermReader : option (string -> Z -> option D)).
Notation qi := (qiter D Q).
Notation ops n := (q_ops (D := D) (Q := Q) getTermReader n).

Definition combined (it : qi) : bool :=
  match it with QFilter _ | QAnd _ _ | QOr _ _ | QScorer _ _ _ => true | _ => false end.

Lemma next_combined n it b it' : combined it = true -> di_next (DocIterator := ops n) it = Ret (b, it') -> combined it' = true.
Proof.
  destruct n as [|n]; [done|]. destruct it as [| | |d| |r a| |r o|i r o| | |]; try done; intros _ H; cbn in H;
    apply bind_Ret_inv in H as ([b1 x] & _ & H); by injection H as <- <-.
Qed.

Definition root_spec (n : nat) : @DocNextSpec qi (ops n).
Proof.
  refine {| di_rep (it : qi) (c : cursor) := q_rep getTermReader n it c /\ combined it = true |}.
  - intros it c [H _]. exact (di_rep_wf (DocNextSpec := projT1 (q_spec getTermReader n)) it c H).
  - intros it c [H Hc]. destruct (di_next_spec (DocNextSpec := projT1 (q_spec getTermReader n)) it c H) as (it' & E & H').
    exists it'. split; [done|]. split; [done|]. by eapply next_combined.
  - intros it d p [H _]. by apply (di_doc_spec (DocNextSpec := projT1 (q_spec getTermReader n)) it d p).
Defined.

Lemma root_start n : StartLaw (DocIterator0 := ops n) (DocNextSpec0 := root_spec n) qi.
Proof.
  intros it p t [H Hc] Ht. destruct n as [|n]; [done|].
  assert (before t (Cursor true p)) as Hb by by left.
  destruct it as [| | |d| |r a| |r o|i r o| | |]; try done; cbn [di_skipTo ops level_ops level_skipTo q_ops].
  - destruct (start_law d p t H Ht) as (d' & -> & Hd & Hm). eexists. split; [done|]. split; [by split|]. exact Hm.
  - destruct H as [Hn H]. destruct (and_do_skipTo_spec (SkipLaw0 := projT2 (q_spec getTermReader n)) before _ _ t H Ht Hb) as (a' & E & Ha & Hm). unfold and_skipTo. rewrite Hn. cbn [negb].
    rewrite E. eexists. split; [done|]. split; [by split|]. exact Hm.
  - destruct H as [Hn H]. destruct (or_do_skipTo_spec (SkipLaw0 := projT2 (q_spec getTermReader n)) _ _ t H Ht) as (o' & E & Ho & Hm). unfold or_skipTo. rewrite Hn. cbn [negb].
    rewrite E. eexists. split; [done|]. split; [by split|]. exact Hm.
  - destruct H as [Hn H]. destruct (or_do_skipTo_spec (SkipLaw0 := projT2 (q_spec getTermReader n)) _ _ t H Ht) as (o' & E & Ho & Hm). unfold or_skipTo. rewrite Hn. cbn [negb].
    rewrite E. eexists. split; [done|]. split; [by split|]. exact Hm.
Qed.
End Root.

(** ** The documents of a request *)
Section Request.
Context {D Q X B C : Type} `{!DocIterator D, !DocNextSpec D, !SkipLaw D before, !StartLaw D, !TermPositions D, !TermPositionsSpec D, !PQueue Q nat, !PQueueSpec Q nat}.
Context `{!Bitmap B, !BitmapSpec B, !RangeIndex X B, !RangeIndexSpec X B, !QueryIndex D X B, !Cache C FilteringType B, !CacheSpec C FilteringType B}.
Context (junk : Z) (junkf : spec_float).
Context (postings : string -> Z -> list Z) (term_positions : string -> Z -> Z -> list Z) (reader : string -> Z -> option D).
Context (op : operation) (readPositions : bool) (coll : IterCollection (B := B)) (rq : IterRequest) (ps : list IndexProperty).
Notation qi := (qiter D Q).
Notation maxDocId := (maxDocId coll).
Notation holds p := (property_holds postings term_positions op p).
Notation docs_of p := (property_docs postings term_positions op p).
Notation rep n := (q_rep (Some reader) n).
Notation root n it c := (di_rep (DocNextSpec := root_spec (Q := Q) (Some reader) n) it c).

(** The ids a manager ranks by hand for the query, as far as the search asks for
    them. *)
Definition custom_ids : CustomRankDocId :=
  match customRankManager coll with
  | Some getCustomValue =>
      if needCustomDocIterator rq then default (CustomIds [] []) (getCustomValue (normalizedQuery rq)) else CustomIds [] []
  | None => CustomIds [] []
  end.

(** A document meets the request: it meets the filter, if there is one, and,
    unless the query is "*", the query of a property, or it is ranked by hand. *)
Definition scored (x : Z) : Prop := x ∈ topIds custom_ids \/ exists p, p ∈ ps /\ holds p x.
Definition meets (x : Z) : Prop :=
  (conditions_empty (filterTree_ rq) = false -> condition_holds (X := X) (B := B) (filterTree_ rq) x = true) /\
  (isFilterQuery rq = false -> scored x).

(** What the search relies on: the index and its readers hold documents of the
    collection; queries without NOT, since [skipTo] of an iterator with NOT
    children is wrong ([or_skipTo_not_wrong]), and none is excluded by hand. *)
Record iter_ready : Prop := {
  ir_wf : forall p id, cursor_wf (Cursor true (postings p id));
  ir_phrase : forall p, seek_ok reader p (postings p) (term_positions p);
  ir_junk : 0 <= junk < MAX_DOC_ID;
  ir_max : 0 <= maxDocId < MAX_DOC_ID;
  ir_postings : forall p id x, x ∈ postings p id -> x <= maxDocId;
  ir_bitmaps : forall b, within maxDocId b -> exists p, di_rep (qi_filterDocs b) (Cursor true p) /\ forall x, x ∈ p <-> 0 <= x /\ bm_get b x = true;
  ir_tree : conditions_empty (filterTree_ rq) = false -> tree_ok (X := X) (B := B) (filterTree_ rq) /\ tree_bounded (X := X) (B := B) maxDocId (filterTree_ rq);
  ir_star : isFilterQuery rq = true -> conditions_empty (filterTree_ rq) = false;
  ir_ids : NoDup (map ip_id ps) /\ indexPropertyIdList rq = map ip_id ps;
  ir_size : vsize ps < 2 ^ 31;
  ir_props : Forall2 (entry_ok (D := D) (X := X) (B := B) postings op (schemaMap coll) readPositions (plain_in postings term_positions op))
    (indexPropertyList rq) ps;
  ir_top : forall x, x ∈ topIds custom_ids -> 0 <= x <= maxDocId;
  ir_excluded : excludeIds custom_ids = []
}.
Hypothesis Hready : iter_ready.

(** *** The scorer *)
Lemma plain_posting p u t x : plain postings term_positions p u t -> query_holds postings term_positions p u t x ->
  exists p' id, x ∈ postings p' id.
Proof.
  induction t as [ty k id d l IH] using QueryTree_forall_ind. intros Hp Hx.
  assert (forall t, phrase_ok postings term_positions p u t -> query_holds postings term_positions p u t x -> exists p' id, x ∈ postings p' id) as Hphrase.
  { intros [ty' k' id' d' l'] H. unfold phrase_ok in H. destruct (phrase_of p u _) as [[kind p']|] eqn:Ek; [|done]. destruct H as (Hne & _).
    destruct ty'; try done; cbn [query_holds]; rewrite Ek; intros [Hids _]; cbn [children_] in Hne; destruct (map keywordId_ l') as [|i ids]; try done;
      apply Forall_cons in Hids as [Hi _]; eauto. }
  destruct ty; try done; try (by apply (Hphrase _ Hp Hx)).
  - by exists p, id.
  - destruct Hp as [Hsz Hl]. destruct l as [|c l]; [unfold vsize in Hsz; cbn in Hsz; lia|]. destruct Hl as [Hc _]. destruct Hx as [Hx _].
    rewrite (plain_not_NOT _ _ _ _ c Hc) in Hx. apply Forall_inv in IH. by apply IH.
  - destruct Hp as [_ Hl]. apply foldr_Forall in Hl. cbn [query_holds] in Hx. apply foldr_Exists in Hx.
    apply Exists_exists in Hx as (c & Hc & Hx). rewrite Forall_forall in IH, Hl. by apply (IH c Hc); [apply Hl|].
Qed.

Lemma entry_property p : p ∈ ps -> property_ok (D := D) (X := X) (B := B) postings op readPositions (plain_in postings term_positions op) p.
Proof. intros Hp. apply list_elem_of_lookup in Hp as [i Hi]. by destruct (Forall2_lookup_r _ _ _ _ _ (ir_props Hready) Hi) as (pt & _ & _ & H). Qed.

Lemma plain_docs_holds p x : p ∈ ps -> x ∈ docs_of p <-> holds p x.
Proof.
  intros Hp. apply (property_docs_holds (D := D) (X := X) (B := B) postings term_positions op readPositions (plain_in postings term_positions op)); [|by apply entry_property].
  intros t Ht. unfold searchable_in. destruct t. by left.
Qed.

Lemma holds_bounded p x : p ∈ ps -> holds p x -> 0 <= x <= maxDocId.
Proof.
  intros Hp (t & Et & Hx). destruct (entry_property p Hp) as (_ & _ & _ & Ht). destruct (plain_posting _ _ t x (Ht t Et) Hx) as (p' & id & Hin).
  destruct (ir_wf Hready p' id) as [_ Hb]. specialize (Hb x Hin). pose proof (ir_postings Hready _ _ _ Hin). lia.
Qed.

Lemma scored_bounded x : scored x -> 0 <= x <= maxDocId.
Proof. intros [H|(p & Hp & H)]; [by apply (ir_top Hready)|by eapply holds_bounded]. Qed.

Context (n : nat).
Hypothesis Hdeep : forall p, p ∈ ps -> deep op n p.

Lemma deep_more m : forall p, p ∈ ps -> deep op (m + n) p.
Proof. intros p Hp t Et. specialize (Hdeep p Hp t Et). lia. Qed.

Definition scorer_docs : list Z := union_list (map (fun p => Cursor true (docs_of p)) ps).
Lemma scorer_docs_elem x : x ∈ scorer_docs <-> exists p, p ∈ ps /\ holds p x.
Proof.
  unfold scorer_docs. rewrite union_list_elem. split.
  - intros (k & (p & -> & Hp)%list_elem_of_fmap & Hx). exists p. split; [done|]. by apply plain_docs_holds.
  - intros (p & Hp & Hx). exists (Cursor true (docs_of p)). split; [apply list_elem_of_fmap; eauto|]. by apply plain_docs_holds.
Qed.

Lemma score_iterator_spec c : exists o, score_iterator (Q := Q) (X := X) junk junkf op readPositions coll rq c = Ret (o, c) /\
  match o with
  | Some it => forall m, rep (S (m + n)) it (Cursor true scorer_docs) /\ combined it = true
  | None => scorer_docs = []
  end.
Proof.
  destruct (ir_ids Hready) as [Hnd Ei]. unfold score_iterator. rewrite Ei.
  destruct (prepare_dociterator_spec (D := D) (Q := Q) (X := X) (B := B) (C := C) junk junkf postings term_positions reader op (schemaMap coll) readPositions
    (ir_wf Hready) (ir_phrase Hready) (ir_junk Hready) (fun n => rep n) (plain_in postings term_positions op)) with (pts := indexPropertyList rq) (ps := ps) (c := c) as (o & -> & Ho).
  - intros p t idx (_ & _ & Hi & _) Ht. apply (plain_builds (D := D) (X := X) (B := B)); [done|apply Hready..|done].
  - done.
  - apply (ir_props Hready).
  - cbn [res_bind]. exists (scorer_iter junk junkf <$> o). split; [done|]. destruct o as [s|]; cbn.
    + intros m. split; [|done].
      exact (scorer_rep (D := D) (Q := Q) junk junkf postings term_positions reader op (m + n) s ps (deep_more m) (ir_size Hready) (proj2 Ho)).
    + destruct scorer_docs as [|x l] eqn:E; [done|]. exfalso. assert (x ∈ scorer_docs) as Hx by (rewrite E; by left).
      apply scorer_docs_elem in Hx as (p & Hp & Hx). apply plain_docs_holds in Hx; [|done]. rewrite (Ho p Hp) in Hx. by apply elem_of_nil in Hx.
Qed.

(** *** The documents ranked by hand *)
Lemma list_reader l : (forall x, x ∈ l -> 0 <= x <= maxDocId) ->
  exists d p, createFilterDocIterator (Q := Q) (X := X) (B := B) l = QFilter d /\ di_rep d (Cursor true p) /\ forall x, x ∈ p <-> x ∈ l.
Proof.
  intros Hl. unfold createFilterDocIterator. set (b := foldl _ _ _).
  assert (forall x, bm_get b x = bool_decide (x ∈ l)) as Hb by (intros x; apply id_bits).
  destruct (ir_bitmaps Hready b) as (p & Hp & Hx).
  - intros x _. rewrite Hb. intros H%bool_decide_eq_true. by apply Hl.
  - eexists _, p. split; [done|]. split; [exact Hp|]. intros x. rewrite Hx, Hb, bool_decide_eq_true. split; [tauto|].
    intros H. split; [by apply Hl|done].
Qed.

(** The scored documents, from the scorer or the OR iterator over it. *)
Lemma combineCustom_spec c o : score_iterator (Q := Q) (X := X) junk junkf op readPositions coll rq c = Ret (o, c) ->
  match combineCustomDocIterator_ (D := D) (Q := Q) (X := X) (B := B) junk junkf (customRankManager coll) (needCustomDocIterator rq) (normalizedQuery rq) o with
  | Some it => exists p, (forall m, rep (2 + (m + n)) it (Cursor true p)) /\ combined it = true /\ forall x, x ∈ p <-> scored x
  | None => forall x, ~ scored x
  end.
Proof.
  intros E. destruct (score_iterator_spec c) as (o' & E' & Ho). rewrite E in E'. injection E' as <-. clear E.
  assert (topIds custom_ids = [] -> match o with
    | Some it => exists p, (forall m, rep (2 + (m + n)) it (Cursor true p)) /\ combined it = true /\ forall x, x ∈ p <-> scored x
    | None => forall x, ~ scored x end) as Hplain.
  { intros Htop. assert (forall x, x ∈ scorer_docs <-> scored x) as Hx.
    { intros x. rewrite scorer_docs_elem. unfold scored. rewrite Htop. split; [by right|]. by intros [?%elem_of_nil|H]. }
    destruct o as [it|].
    - exists scorer_docs. split; [intros m; apply (Ho (S m))|]. split; [apply (Ho O)|done].
    - intros x H%Hx. rewrite Ho in H. by apply elem_of_nil in H. }
  pose proof (ir_top Hready) as Htop. pose proof (ir_excluded Hready) as Hex. unfold combineCustomDocIterator_.
  unfold custom_ids in *. destruct (customRankManager coll) as [getCustomValue|] eqn:Ec; [|by apply Hplain].
  destruct (needCustomDocIterator rq) eqn:En; [|by apply Hplain].
  destruct (getCustomValue (normalizedQuery rq)) as [ids|] eqn:Eg; [|by apply Hplain]. cbn [default from_option Datatypes.id] in *.
  destruct ids as [top ex]. cbn [topIds excludeIds] in *. subst ex. unfold custom_empty. cbn [topIds excludeIds is_nil andb]. rewrite andb_true_r.
  destruct (is_nil top) eqn:Enil; [destruct top; [by apply Hplain|done]|].
  unfold CustomRankDocumentIterator. cbn [topIds excludeIds]. rewrite Enil. cbn [is_nil].
  destruct (list_reader top Htop) as (d & p & -> & Hd & Hp).
  assert (forall its cs, Forall2 (fun it k => forall m, rep (S (m + n)) it k) its cs -> Forall (fun k => cu_fresh k = true) cs -> vsize its < 2 ^ 31 ->
    forall m, rep (2 + (m + n)) (foldl (fun p it => q_add false it p) (QOr junkf (ORDocumentIterator junk)) its) (Cursor true (union_list cs))) as Hor.
  { intros its cs H Hf Hsz m. rewrite pos_added. pose proof (or_build_pos (Q := Q) junk its) as E. unfold or_build in E. cbn [foldl] in E. rewrite E.
    split; [done|]. cbn [oi_core]. apply (or_rep_children (DocNextSpec0 := projT1 (q_spec (Some reader) (S (m + n))))); [|done|done].
    eapply Forall2_impl; [exact H|]. intros it k Hk. apply (Hk m). }
  assert (forall m, rep (S (m + n)) (QFilter d : qi) (Cursor true p)) as Hfilter by (intros m; exact Hd).
  exists (union_list (match o with Some _ => [Cursor true p; Cursor true scorer_docs] | None => [Cursor true p] end)). split.
  - destruct o as [it|].
    + apply (Hor [QFilter d; it]); [|by repeat constructor|done]. constructor; [done|]. constructor; [apply Ho|constructor].
    + apply (Hor [QFilter d]); [|by repeat constructor|done]. by constructor.
  - split; [by destruct o|]. intros x. rewrite union_list_elem. unfold scored, custom_ids. rewrite Ec, En, Eg. cbn [default from_option Datatypes.id topIds].
    rewrite <- scorer_docs_elem, <- Hp. destruct o as [it|]; [|rewrite Ho].
    + setoid_rewrite elem_of_cons. setoid_rewrite list_elem_of_singleton. naive_solver.
    + setoid_rewrite list_elem_of_singleton. split; [naive_solver|]. intros [H|H%elem_of_nil]; [naive_solver|done].
Qed.

(** *** The filter *)
Lemma filter_bitmap_spec c : cache_all (cached (X := X)) c -> exists o c', filter_bitmap (X := X) (B := B) coll (filterTree_ rq) c = Ret (o, c') /\ cache_all (cached (X := X)) c' /\
  match o with
  | Some b => conditions_empty (filterTree_ rq) = false /\ exists p, di_rep (qi_filterDocs b) (Cursor true p) /\
      forall x, x ∈ p <-> 0 <= x <= maxDocId /\ condition_holds (X := X) (B := B) (filterTree_ rq) x = true
  | None => conditions_empty (filterTree_ rq) = true
  end.
Proof.
  intros Hc. unfold filter_bitmap. destruct (conditions_empty (filterTree_ rq)) eqn:E; [by exists None, c|].
  destruct (ir_tree Hready E) as [Hok Hbd]. assert (0 <= maxDocId < 2 ^ 32) as Hmax by (pose proof (ir_max Hready); unfold MAX_DOC_ID in *; lia).
  destruct (process_tree_spec maxDocId Hmax _ Hok c Hc) as (b & c' & Ep & Hc' & Hb & Hin).
  unfold prepare_filter. rewrite Ep. cbn [res_bind]. exists (Some b), c'. split; [done|]. split; [done|]. split; [done|].
  specialize (Hin Hbd). destruct (ir_bitmaps Hready b Hin) as (p & Hp & Hx). exists p. split; [exact Hp|]. intros x. rewrite Hx. split.
  - intros [H0 Hg]. pose proof (Hin x H0 Hg). split; [lia|]. rewrite <- Hb by lia. done.
  - intros [Hr Hg]. split; [lia|]. by rewrite Hb.
Qed.

(** *** The combined iterator *)
Lemma filter_root d p : di_rep d (Cursor true p) -> root (3 + n) (QFilter d) (Cursor true p).
Proof. intros H. by split. Qed.

Lemma combine_two d p it q : di_rep d (Cursor true p) -> (forall m, rep (2 + (m + n)) it (Cursor true q)) ->
  exists it', combine junk junkf (Container [QFilter d; it] false) = Some it' /\
    root (3 + n) it' (Cursor true (inter_list [Cursor true p; Cursor true q])).
Proof.
  intros Hd Hit. eexists. split; [done|]. cbn [foldl docIters_ q_add]. split; [|done]. split; [done|].
  pose proof (and_build_pos (Q := Q) junk [QFilter d; it]) as E. unfold and_build in E. cbn [foldl] in E. rewrite E.
  apply (and_rep_children (DocNextSpec0 := projT1 (q_spec (Some reader) (2 + n)))); [|by repeat constructor|done].
  constructor; [exact Hd|]. constructor; [apply (Hit O)|constructor].
Qed.

Lemma inter_two p q x : x ∈ inter_list [Cursor true p; Cursor true q] <-> x ∈ p /\ x ∈ q.
Proof.
  rewrite inter_list_elem by done. split.
  - intros H. split; [apply (H (Cursor true p))|apply (H (Cursor true q))]; [by left|by right; left].
  - by intros [Hp Hq] c [->|[->|?%elem_of_nil]%elem_of_cons]%elem_of_cons.
Qed.

(** The iterator of a search is ready to be started, and represents the
    documents that meet the request; none is made only if there are none. *)
Lemma search_iterator_spec sorter c : cache_all (cached (X := X)) c ->
  exists o c', search_iterator (D := D) (Q := Q) (X := X) (B := B) junk junkf op readPositions coll rq sorter c = Ret (o, c') /\ cache_all (cached (X := X)) c' /\
    match o with
    | Some it => exists p, root (3 + n) it (Cursor true p) /\ forall x, x ∈ p <-> 0 <= x <= maxDocId /\ meets x
    | None => forall x, ~ (0 <= x <= maxDocId /\ meets x)
    end.
Proof.
  intros Hc. unfold search_iterator. destruct (filter_bitmap_spec c Hc) as (o & c' & -> & Hc' & Ho). cbn [res_bind].
  pose proof scored_bounded as Hsb. unfold meets. destruct (isFilterQuery rq) eqn:Eq; cbn [res_bind].
  - pose proof (ir_star Hready Eq) as Hne. destruct o as [b|]; [|congruence]. destruct Ho as [_ (p & Hp & Hx)].
    exists (Some (QFilter (qi_filterDocs b))), c'. split; [by destruct sorter|]. split; [done|]. exists p. split; [by apply filter_root|].
    intros x. rewrite Hx. naive_solver.
  - destruct (score_iterator_spec c') as (s & Es & _). rewrite Es. cbn [res_bind]. pose proof (combineCustom_spec c' s Es) as Hs.
    destruct (combineCustomDocIterator_ _ _ _ _ _ _) as [it|]; [destruct Hs as (q & Hit & Hcomb & Hq)|]; destruct o as [b|].
    + destruct Ho as [Hne (p & Hp & Hx)]. destruct (combine_two _ p it q Hp Hit) as (it' & E & Hr).
      exists (Some it'), c'. split; [by rewrite <- E|]. split; [done|]. eexists. split; [exact Hr|].
      intros x. rewrite inter_two, Hx, Hq. rewrite Hne. naive_solver.
    + exists (Some it), c'. split; [done|]. split; [done|]. exists q. split; [split; [apply (Hit 1%nat)|done]|].
      intros x. rewrite Hq, Ho. specialize (Hsb x). naive_solver.
    + exists None, c'. split; [done|]. split; [done|]. intros x [_ [_ H]]. by apply (Hs x), H.
    + exists None, c'. split; [done|]. split; [done|]. intros x [_ [_ H]]. by apply (Hs x), H.
Qed.
End Request.

(** ** The search with the iterator of its request *)

(** The setting [env] with an iterator of another kind. *)
Definition set_iterator {S S' T F LD} (i : res (option S')) (env : SearchSetting S T F LD) : SearchSetting S' T F LD :=
  Setting (numericTableBuilder_ env) (rtypeStringPropBuilder_ env) (epsilon env) (prepareSorter_ env) i (gatherInfo env) (makeFilter env)
    (productScorer env) (rangeTable env) (counters env).

Section Replace.
Context {S S' T F LD QA : Type} `{!DocIterator S, !DocNextSpec S, !DocIterator S', !DocNextSpec S', !FilterOps T F, !LuxArray LD, !TextOrder T, !PQueue QA (T * spec_float)}.
Context (env : SearchSetting S T F LD) (accepts : Z -> bool) `{!FilterSpec T F QA accepts} (has_filter : bool).

(** Only the documents that an iterator enumerates matter. *)
Lemma ready_with (it : S') attrGroupNum docs range_value counter_value prep less lt :
  di_rep it (Cursor true docs) ->
  search_ready env accepts has_filter attrGroupNum docs range_value counter_value prep less lt ->
  search_ready (set_iterator (Ret (Some it)) env) accepts has_filter attrGroupNum docs range_value counter_value prep less lt.
Proof. intros Hit [Hi _ Hq Ha Hr Hc Hw Hl Hd]. split; try done. by exists it. Qed.

Lemma answer_with (i : res (option S')) attrGroupNum docs range_value counter_value prep lt n maxDocId offset limit r :
  answer_ok (set_iterator i env) accepts has_filter attrGroupNum docs range_value counter_value prep lt n maxDocId offset limit r ->
  answer_ok env accepts has_filter attrGroupNum docs range_value counter_value prep lt n maxDocId offset limit r.
Proof. intros [H1 H2 H3 H4 H5 H6 H7 H8 H9]. by split. Qed.
End Replace.

Section Answers.
Context {D Q X B C : Type} `{!DocIterator D, !DocNextSpec D, !SkipLaw D before, !StartLaw D, !TermPositions D, !TermPositionsSpec D, !PQueue Q nat, !PQueueSpec Q nat}.
Context `{!Bitmap B, !BitmapSpec B, !RangeIndex X B, !RangeIndexSpec X B, !QueryIndex D X B, !Cache C FilteringType B, !CacheSpec C FilteringType B}.
Context (junk : Z) (junkf : spec_float).
Context (postings : string -> Z -> list Z) (term_positions : string -> Z -> Z -> list Z) (reader : string -> Z -> option D).
Context (op : operation) (readPositions : bool) (coll : IterCollection (B := B)) (rq : IterRequest) (ps : list IndexProperty).
Context {QS T F LD QA : Type} `{!PQueue QS ScoreDoc, !PQueueSpec QS ScoreDoc, !FilterOps T F, !LuxArray LD, !TextOrder T, !PQueue QA (T * spec_float)}.
Context (env : SearchSetting cursor T F LD) (accepts : Z -> bool) `{!FilterSpec T F QA accepts} (has_filter : bool).

Notation meets_request := (meets (X := X) (B := B) postings term_positions op coll rq ps).

(** C1: a search of an index answers the page of its request: whatever the
    state of the filter cache and the number of threads, the documents it counts,
    ranks and pages are exactly those of the collection that meet the filter of
    the request and match its query in one of the searched properties, or are
    ranked by hand, as far as the post-filter accepts them. The request
    ([iter_ready]): its queries are plain, of terms, phrases, AND and OR without NOT
    (with NOT the threads' [skipTo] is wrong: [or_skipTo_not_wrong]), over text
    properties that are neither virtual nor numeric; "*" comes with a filter; the
    conditions of the filter have as many values, of the type of their property, as
    their operator takes, and only documents up to [maxDocId] meet them; nothing is
    excluded by hand. Some document meets it, the order of the queue is total on the
    scored documents ([total_on]), and no query statistics are gathered. The group
    results are as the laws of [FilterSpec] say, which FilterCounts.v proves of the
    filters it names. *)
Theorem request_answers (sorter : bool) (c : C) (depth : nat) attrGroupNum docs range_value counter_value prep less lt k
    m s_round node round n limit offset :
  iter_ready (D := D) (X := X) (B := B) junk postings term_positions reader op readPositions coll rq ps ->
  (forall p, p ∈ ps -> deep op depth p) -> cache_all (cached (X := X)) c ->
  ssorted docs -> (forall x, x ∈ docs <-> 0 <= x <= maxDocId coll /\ meets_request x) -> docs <> [] ->
  search_ready env accepts has_filter attrGroupNum docs range_value counter_value prep less lt ->
  0 <= attrGroupNum < 2 ^ 31 -> 0 <= k < 2 ^ 31 -> 0 <= limit -> 0 <= offset -> k = limit + offset ->
  maxDocId_ m = maxDocId coll -> getThreadInfo_ env m s_round = Ret (n, node, round) -> 0 < n -> maxDocId_ m + n <= MAX_DOC_ID ->
  total_on lt (map (SearchResult.scored (evaluator env prep)) (accepted accepts docs)) ->
  exists r,
    NormalSearch_search (DocIterator0 := q_ops (Some reader) (3 + depth)) (Q := QS) (QA := QA)
      (set_iterator (fst <$> search_iterator (D := D) (Q := Q) (X := X) (B := B) junk junkf op readPositions coll rq sorter c) env)
      m s_round attrGroupNum limit offset = Ret (Some r) /\
    answer_ok env accepts has_filter attrGroupNum docs range_value counter_value prep lt n (maxDocId_ m) offset limit r.
Proof.
  intros Hready Hdeep Hc Hs Hdocs Hne Hsr Hg Hk Hl Ho Ek Em Ei Hn Hle Htot.
  destruct (search_iterator_spec (Q := Q) junk junkf postings term_positions reader op readPositions coll rq ps Hready depth Hdeep sorter c Hc)
    as (o & c' & -> & _ & Hit). cbn [fmap res_fmap fst].
  destruct o as [it|]; [destruct Hit as (p & Hit & Hp)|].
  - assert (p = docs) as ->.
    { apply ssorted_ext; [|done|]; [|by setoid_rewrite Hp; setoid_rewrite Hdocs].
      exact (proj1 (di_rep_wf (DocNextSpec := root_spec (Some reader) (3 + depth)) it _ Hit)). }
    edestruct (search_page (DocIterator0 := q_ops (Some reader) (3 + depth)) (DocNextSpec0 := root_spec (Some reader) (3 + depth))
      (StartLaw0 := root_start (Some reader) (3 + depth)) (Q := QS) (QA := QA) (set_iterator (Ret (Some it)) env) accepts has_filter attrGroupNum docs
      range_value counter_value prep less lt
      (ready_with (DocIterator1 := q_ops (Some reader) (3 + depth)) (DocNextSpec1 := root_spec (Some reader) (3 + depth)) env accepts has_filter it
        _ _ _ _ _ _ _ Hit Hsr) Hg k Hk m s_round node round n limit offset) as (r & E & Hr); try done.
    + rewrite Em. by eapply ir_max.
    + intros d [Hd _]%Hdocs. lia.
    + exists r. split; [exact E|]. exact (answer_with env accepts has_filter _ _ _ _ _ _ _ _ _ _ _ _ Hr).
  - destruct docs as [|x docs]; [done|]. exfalso. apply (Hit x), Hdocs. by left.
Qed.
End Answers.

(** ** A search of an index of two properties *)
Definition ex_tree : ConditionsNode := Conditions "and" [Filtering RANGE "Price" FilterAnd [PInt64 20; PInt64 80]] [].
Definition ex_ranked : IterCollection (B := bits) := IterColl ex_schema 19 None (Some (fun _ => Some (CustomIds [9; 5; 5] []))).
Definition ex_terms : operation := Operation
  (fun p => if String.eqb p "title" then Some (ex_term 1) else if String.eqb p "body" then Some (ex_term 2) else None)
  (fun p => if String.eqb p "title" then [(1, ""%string)] else [(2, ""%string)]) false false.
Definition ex_request : IterRequest := IterReq false ex_tree [("title"%string, ∅); ("body"%string, ∅)] [7; 9] "q" true.
Definition ex_properties : list IndexProperty := [ex_property "title" 7; ex_property "body" 9].

#[local] Instance positions_start : StartLaw pos_cursor.
Proof.
  intros s p t (P & l & (-> & Hwf & Hl & HP)) Ht. eexists. split; [done|]. split.
  - exists P, (here P (snd (cursor_skipTo t (Cursor true p)))). split; [done|]. split; [by apply cursor_wf_skipTo|]. split; [|done].
    unfold here. destruct (cu_pend _); [apply not_elem_of_nil|done].
  - intros H. unfold di_doc at 1. cbn. unfold cursor_skipTo in H. cbn in H |- *. by destruct (pend_from t p).
Qed.

Lemma ex_term_ok name id : property_ok (D := pos_cursor) (X := string) (B := bits) (fun _ => ex_postings) ex_terms true
  (plain_in (fun _ => ex_postings) (fun _ => ex_positions) ex_terms) (ex_property name id).
Proof.
  split; [done|]. split; [done|]. split; [apply ex_index_ok|]. unfold plain_in. cbn. intros t.
  destruct (String.eqb name "title"); [by intros [= <-]|]. destruct (String.eqb name "body"); [by intros [= <-]|done].
Qed.

Lemma ex_tree_holds d : condition_holds (X := string) (B := bits) ex_tree d = ((20 <=? 10 * d) && (10 * d <=? 80)).
Proof. cbn. by rewrite orb_false_r, !leb_or, (Z.eqb_sym 20). Qed.

Lemma ex_iter_ready : iter_ready (D := pos_cursor) (X := string) (B := bits) 0 (fun _ => ex_postings) (fun _ => ex_positions) ex_reader
  ex_terms true ex_ranked ex_request ex_properties.
Proof.
  split.
  - intros p id. apply ex_postings_wf.
  - intros p. exact ex_seek_ok.
  - done.
  - done.
  - intros p id x. unfold ex_postings. cbn [ex_ranked SearchIter.maxDocId]. repeat case_match; set_unfold; lia.
  - intros b Hb. exists (filter (fun x => b x = true) (seqZ 0 20)). split.
    + exists (fun _ => []), []. split; [done|]. split; [|split; [apply not_elem_of_nil|intros; apply not_elem_of_nil]]. split.
      * apply ssorted_filter, ssorted_seqZ.
      * intros d [_ Hd%elem_of_seqZ]%list_elem_of_filter. unfold MAX_DOC_ID. lia.
    + intros x. rewrite list_elem_of_filter, elem_of_seqZ. cbn [bm_get bits_Bitmap]. split; [intros [Hx ?]; split; [lia|exact Hx]|].
      intros [H0 Hx]. specialize (Hb x H0 Hx). cbn in Hb. split; [done|lia].
  - intros _. split; [split; [by repeat constructor; eexists|done]|]. split; [by left|]. split; [|done]. constructor; [|constructor].
    intros d Hd. change (leaf_holds (X := string) (B := bits) _ d) with (condition_holds (X := string) (B := bits) ex_tree d).
    rewrite ex_tree_holds. cbn. lia.
  - done.
  - split; [|done]. apply (bool_decide_unpack _). by vm_compute.
  - done.
  - constructor; [split; [done|apply ex_term_ok]|]. constructor; [split; [done|apply ex_term_ok]|constructor].
  - intros x. cbn. set_unfold. lia.
  - done.
Qed.

Lemma ex_meets x : x ∈ [3; 5; 7] <-> 0 <= x <= 19 /\
  meets (X := string) (B := bits) (fun _ => ex_postings) (fun _ => ex_positions) ex_terms ex_ranked ex_request ex_properties x.
Proof.
  assert (scored (fun _ => ex_postings) (fun _ => ex_positions) ex_terms ex_ranked ex_request ex_properties x <-> x ∈ [3; 5; 7; 9]) as Hs.
  { unfold scored. transitivity (x ∈ [9; 5; 5] \/ x ∈ [3; 7; 9] \/ x ∈ [7; 9]); [|set_unfold; lia]. apply or_iff_compat_l. split.
    - intros (p & [Ep|Ep%list_elem_of_singleton]%elem_of_cons & t & Et & H); subst p; injection Et as <-; [by left|by right].
    - intros [H|H]; [exists (ex_property "title" 7)|exists (ex_property "body" 9)]; (split; [set_unfold; auto|]); by eexists. }
  unfold meets. change (filterTree_ ex_request) with ex_tree. change (isFilterQuery ex_request) with false. rewrite ex_tree_holds. cbn [conditions_empty ex_tree is_nil andb].
  rewrite Hs. rewrite andb_true_iff, !Z.leb_le. set_unfold. split; [lia|]. intros (? & H1 & H2). specialize (H1 I). specialize (H2 I). lia.
Qed.

Lemma request_answers_witness : exists r,
  NormalSearch_search (DocIterator0 := q_ops (Some ex_reader) 4) (Q := heap ScoreDoc) (QA := heap (Z * spec_float))
    (set_iterator (fst <$> search_iterator (D := pos_cursor) (Q := heap nat) (X := string) (B := bits) (C := list (FilteringType * bits))
       0 f32_zero ex_terms true ex_ranked ex_request false []) (ex_env [3; 5; 7])) (Master false 19 1 None) 0 2 10 0 = Ret (Some r) /\
  topKDocs_ r = [3; 7] /\ totalCount_ r = 2.
Proof.
  destruct (request_answers (D := pos_cursor) (Q := heap nat) (X := string) (B := bits) (C := list (FilteringType * bits)) 0 f32_zero
    (fun _ => ex_postings) (fun _ => ex_positions) ex_reader ex_terms true ex_ranked ex_request ex_properties
    (QS := heap ScoreDoc) (QA := heap (Z * spec_float)) (ex_env [3; 5; 7]) ex_accepts true false [] 1 2 [3; 5; 7] (fun _ => None) ex_value
    no_rankers (score_lessThan (dbl 1 (-23))) ex_order 10 (Master false 19 1 None) 0 0 0 1 10 0 ex_iter_ready) as (r & E & Hr).
  - intros p [Ep|Ep%list_elem_of_singleton]%elem_of_cons t; subst p; intros [= <-]; cbn; lia.
  - constructor.
  - repeat constructor; lia.
  - exact ex_meets.
  - done.
  - apply ex_ready; [|by vm_compute|by vm_compute]. split; [repeat constructor; lia|]. intros d Hd. cbn in Hd. set_unfold. unfold MAX_DOC_ID. lia.
  - lia.
  - lia.
  - lia.
  - lia.
  - lia.
  - done.
  - done.
  - lia.
  - done.
  - apply ex_total.
  - exists r. split; [exact E|]. destruct Hr as [-> _ _ _ -> _ _ _ _]. vm_compute. repeat split.
Defined.
