(* ===== verification/DistMerge.v ===== *)
(** * Merging the results of the workers

Models aggregator-manager/MergeComparator.{h,cpp} and SearchMerger.{h,cpp}: the
workers of a distributed search answer their best documents, the merger takes
the best of all of them one by one, adds up the counts, merges the groups, and
copies the texts of the page; or it divides the documents of the page among
their workers and puts the texts they answer in their places. Ids that are
unique over the workers, rounding and sharding belong to other libraries and are
parameters. Logging, and the fields that the merger only copies, are left out
or kept together ([QueryInfo]). *)
From Stdlib Require Import String SpecFloat.
From S2P Require Import GroupParam Prelude PQueue TopK Float64 OrdMap GroupRep OntologyRep NumTable RTypeTable Sorter SearchPrepare SearchThread.

(** net::aggregator::Util *)
Class WideDocId := {
  GetWDocId : Z -> Z -> Z;
  GetWorkerAndDocId : Z -> Z * Z;
  IsNewerDocId : Z -> Z -> bool
}.

(** ** The result of a worker, and of the merger *)

Notation GroupPathScoreVec := (list (GroupPath * GroupPathScoreInfo)).
Notation GroupLabelScoreMap := (list (string * GroupPathScoreVec)).

(** What the merger copies without reading it. *)
Record QueryInfo (T : Type) := MkInfo {
  collectionName_ : string;
  encodingType_ : Z;
  rawQueryString_ : string;
  analyzedQuery_ : T;
  queryTermIdList_ : list Z;
  propertyQueryTermList_ : list (list T);
  isDistributed_ : bool
}.
Arguments MkInfo {_} _ _ _ _ _ _ _.
Arguments collectionName_ {_} _.
Arguments encodingType_ {_} _.
Arguments rawQueryString_ {_} _.
Arguments analyzedQuery_ {_} _.
Arguments queryTermIdList_ {_} _.
Arguments propertyQueryTermList_ {_} _.
Arguments isDistributed_ {_} _.

(** Texts: one list for each displayed, or summarised, property. *)
Record PageTexts (X : Type) := MkTexts {
  snippetTextOfDocumentInPage_ : list (list X);
  fullTextOfDocumentInPage_ : list (list X);
  rawTextOfSummaryInPage_ : list (list X)
}.
Arguments MkTexts {_} _ _ _.
Arguments snippetTextOfDocumentInPage_ {_} _.
Arguments fullTextOfDocumentInPage_ {_} _.
Arguments rawTextOfSummaryInPage_ {_} _.

(** KeywordSearchResult as far as a distributed search uses it; [main] is the
    part that the search of one node fills. *)
Record DistResult (T X : Type) := Dist {
  error_ : string;
  info : QueryInfo T;
  main : KeywordSearchResult (T := T);
  topKWorkerIds_ : list Z;
  autoSelectGroupLabels_ : GroupLabelScoreMap;
  start_ : Z;
  count_ : Z;
  TOP_K_NUM : Z;
  majorTokenNum_ : Z;
  include_summary_data_ : bool;
  docsInPage_ : list Z;
  pageOffsetList_ : list Z;
  texts : PageTexts X
}.
Arguments Dist {_ _} _ _ _ _ _ _ _ _ _ _ _ _ _.
Arguments error_ {_ _} _.
Arguments info {_ _} _.
Arguments main {_ _} _.
Arguments topKWorkerIds_ {_ _} _.
Arguments autoSelectGroupLabels_ {_ _} _.
Arguments start_ {_ _} _.
Arguments count_ {_ _} _.
Arguments TOP_K_NUM {_ _} _.
Arguments majorTokenNum_ {_ _} _.
Arguments include_summary_data_ {_ _} _.
Arguments docsInPage_ {_ _} _.
Arguments pageOffsetList_ {_ _} _.
Arguments texts {_ _} _.

Section Setters.
Context {T X : Type}.
Implicit Types r : DistResult T X.
Definition set_error e r := Dist e (info r) (main r) (topKWorkerIds_ r) (autoSelectGroupLabels_ r) (start_ r) (count_ r) (TOP_K_NUM r)
  (majorTokenNum_ r) (include_summary_data_ r) (docsInPage_ r) (pageOffsetList_ r) (texts r).
Definition set_workers ws r := Dist (error_ r) (info r) (main r) ws (autoSelectGroupLabels_ r) (start_ r) (count_ r) (TOP_K_NUM r)
  (majorTokenNum_ r) (include_summary_data_ r) (docsInPage_ r) (pageOffsetList_ r) (texts r).
Definition set_texts (t : PageTexts X) r := Dist (error_ r) (info r) (main r) (topKWorkerIds_ r) (autoSelectGroupLabels_ r) (start_ r) (count_ r) (TOP_K_NUM r)
  (majorTokenNum_ r) (include_summary_data_ r) (docsInPage_ r) (pageOffsetList_ r) t.
Definition set_main (m : KeywordSearchResult (T := T)) r := Dist (error_ r) (info r) m (topKWorkerIds_ r) (autoSelectGroupLabels_ r) (start_ r) (count_ r) (TOP_K_NUM r)
  (majorTokenNum_ r) (include_summary_data_ r) (docsInPage_ r) (pageOffsetList_ r) (texts r).
Definition set_info (i : QueryInfo T) r := Dist (error_ r) i (main r) (topKWorkerIds_ r) (autoSelectGroupLabels_ r) (start_ r) (count_ r) (TOP_K_NUM r)
  (majorTokenNum_ r) (include_summary_data_ r) (docsInPage_ r) (pageOffsetList_ r) (texts r).
Definition set_top top r := Dist (error_ r) (info r) (main r) (topKWorkerIds_ r) (autoSelectGroupLabels_ r) (start_ r) (count_ r) top
  (majorTokenNum_ r) (include_summary_data_ r) (docsInPage_ r) (pageOffsetList_ r) (texts r).
Definition set_range start count r := Dist (error_ r) (info r) (main r) (topKWorkerIds_ r) (autoSelectGroupLabels_ r) start count (TOP_K_NUM r)
  (majorTokenNum_ r) (include_summary_data_ r) (docsInPage_ r) (pageOffsetList_ r) (texts r).
Definition set_page docs offsets r := Dist (error_ r) (info r) (main r) (topKWorkerIds_ r) (autoSelectGroupLabels_ r) (start_ r) (count_ r) (TOP_K_NUM r)
  (majorTokenNum_ r) (include_summary_data_ r) docs offsets (texts r).
End Setters.

(** A new KeywordSearchResult; the encoding is [UTF_8]. *)
Definition new_dist_result {T X} (UTF_8 : Z) (empty : T) : DistResult T X :=
  Dist "" (MkInfo "" UTF_8 "" empty [] [] false) (Result 0 no_range [] clear [] [] [] [] [] no_sort_data) [] [] 0 0 0 0 false [] [] (MkTexts [] [] []).

(** ** MergeComparator *)
Inductive DataType := DATA_TYPE_NONE | DATA_TYPE_INT32 | DATA_TYPE_INT64 | DATA_TYPE_FLOAT | DATA_TYPE_STRING.
#[export] Instance DataType_eq_dec : EqDecision DataType.
Proof. solve_decision. Defined.

(** What the [void*] points to. *)
Inductive DataList :=
| Int32List (l : list Z)
| Int64List (l : list Z)
| FloatList (l : list spec_float)
| DoubleList (l : list spec_float)
| StringList (l : list string).

Record SortPropertyData := PropertyData {
  sp_property : string;
  sp_reverse : bool;
  sp_dataType : DataType;
  sp_dataList : DataList
}.

(** [data()] of a vector that never held elements is NULL. *)
Definition data {A} (l : list A) : option (list A) := if is_nil l then None else Some l.

(** Each match replaces the one before. *)
Definition find_list {A} (property : string) (lists : list (string * list A)) : option (list A) :=
  foldl (fun found it => if String.eqb it.1 property then Some it.2 else found) None lists.

Section Comparator.
Context {T : Type}.
Implicit Types r : KeywordSearchResult (T := T).

Definition property_data r (property : string) : DataType * option DataList :=
  let d := sortData_ r in
  if String.eqb property "RANK" then (DATA_TYPE_FLOAT, FloatList <$> data (topKRankScoreList_ r))
  else if String.eqb property "CUSTOM_RANK" then (DATA_TYPE_FLOAT, FloatList <$> data (topKCustomRankScoreList_ r))
  else if String.eqb property "GEO_DIST" then (DATA_TYPE_FLOAT, FloatList <$> data (topKGeoDistanceList_ r))
  else
    match find_list property (sortPropertyInt32DataList_ d) with
    | Some l => (DATA_TYPE_INT32, Int32List <$> data l)
    | None =>
    match find_list property (sortPropertyInt64DataList_ d) with
    | Some l => (DATA_TYPE_INT64, Int64List <$> data l)
    | None =>
    match find_list property (sortPropertyFloatDataList_ d) with
    | Some l => (DATA_TYPE_FLOAT, FloatList <$> data l)
    | None =>
    match find_list property (sortPropertyDoubleDataList_ d) with
    | Some l => (DATA_TYPE_FLOAT, DoubleList <$> data l)
    | None =>
    match find_list property (sortPropertyStrDataList_ d) with
    | Some l => (DATA_TYPE_STRING, StringList <$> data l)
    | None => (DATA_TYPE_NONE, None)
    end end end end end.

Definition DocumentComparator r : list SortPropertyData :=
  let sortPropertyList := match sortPropertyList_ (sortData_ r) with [] => [("RANK"%string, false)] | l => l end in
  omap (fun p => let '(type, dataList) := property_data r p.1 in PropertyData p.1 p.2 type <$> dataList) sortPropertyList.
End Comparator.

(** [v1 - v2] and the test of equality for [float]. *)
Definition float_sub (v1 v2 : spec_float) : spec_float := as_double (SFsub 24 128 v1 v2).
Definition float_same (v1 v2 : spec_float) : bool := fle (dabs (float_sub v1 v2)) FLT_EPSILON.

(** A list of doubles is read as one of floats, which is undefined. *)
Fixpoint greaterThan `{!WideDocId} (props1 : list SortPropertyData) (idx1 left_docid : Z) (props2 : list SortPropertyData) (idx2 right_docid : Z) : res bool :=
  match props1, props2 with
  | p1 :: props1, p2 :: props2 =>
      let continue := greaterThan props1 idx1 left_docid props2 idx2 right_docid in
      let compare {A} (same lt : A -> A -> bool) (l1 l2 : list A) :=
        let* v1 := vget l1 idx1 in let* v2 := vget l2 idx2 in
        if same v1 v2 then continue else Ret (if sp_reverse p1 then lt v1 v2 else lt v2 v1) in
      if bool_decide (sp_dataType p1 = sp_dataType p2) then
        match sp_dataType p1, sp_dataList p1, sp_dataList p2 with
        | DATA_TYPE_INT32, Int32List l1, Int32List l2 | DATA_TYPE_INT64, Int64List l1, Int64List l2 => compare Z.eqb Z.ltb l1 l2
        | DATA_TYPE_FLOAT, FloatList l1, FloatList l2 => compare float_same flt l1 l2
        | DATA_TYPE_STRING, StringList l1, StringList l2 => compare String.eqb string_lt l1 l2
        | DATA_TYPE_NONE, _, _ => continue
        | _, _, _ => Undef
        end
      else continue
  | _, _ => Ret (IsNewerDocId left_docid right_docid)
  end.

(** ** SearchMerger *)
Definition DBL_EPSILON : spec_float := dbl 1 (-52).

Section Merger.
Context {T X QA : Type} `{!WideDocId, !TextOrder T, !PQueue QA (T * spec_float)}.
(** [Utilities::roundDown], the code of the encoding [UTF_8], empty texts. *)
Context (roundDown : Z -> Z -> Z) (UTF_8 : Z) (no_query : T) (no_text : X).
Notation result := (DistResult T X).
Implicit Types (r : result) (ws : list (Z * result)).

Definition IsGreaterGPScoreInfo (left right : GroupPathScoreInfo) : bool :=
  if fle (dabs (dsub (GroupParam.score left) (GroupParam.score right))) DBL_EPSILON then IsNewerDocId (wdocid left) (wdocid right)
  else fgt (GroupParam.score left) (GroupParam.score right).

Definition IsGreaterGroup (left right : GroupPath * GroupPathScoreInfo) : bool := IsGreaterGPScoreInfo left.2 right.2.

Definition emptyWorkerResult r : result :=
  let t := texts r in
  let clear_all (l : list (list X)) : list (list X) := map (fun _ => []) l in
  Dist (error_ r) (info r)
    (Result 0 (propertyRange_ (main r)) [] clear [] [] [] [] [] no_sort_data)
    [] [] (start_ r) (count_ r) (TOP_K_NUM r) (majorTokenNum_ r) (include_summary_data_ r) [] []
    (MkTexts (clear_all (snippetTextOfDocumentInPage_ t)) (clear_all (fullTextOfDocumentInPage_ t)) (clear_all (rawTextOfSummaryInPage_ t))).

(** *** Labels *)
Definition wide_label (from_workerid : Z) (l : GroupPath * GroupPathScoreInfo) : GroupPath * GroupPathScoreInfo :=
  (l.1, ScoreInfo (GroupParam.score l.2) (GetWDocId from_workerid (u32 (wdocid l.2)))).

(** The first entry with the same path keeps the higher score. *)
Fixpoint add_label (merged : GroupPathScoreVec) (l : GroupPath * GroupPathScoreInfo) : GroupPathScoreVec :=
  match merged with
  | [] => [l]
  | m :: merged =>
      if bool_decide (l.1 = m.1) then (if IsGreaterGPScoreInfo l.2 m.2 then (m.1, l.2) else m) :: merged
      else m :: add_label merged l
  end.

(** std::sort *)
Definition sort_labels (l : GroupPathScoreVec) : GroupPathScoreVec := merge_sort (fun a b => negb (IsGreaterGroup b a)) l.

Definition mergeScoreGroupLabel (mergeto from : GroupLabelScoreMap) (from_workerid : Z) : GroupLabelScoreMap :=
  foldl (fun mergeto group =>
    let labels := map (wide_label from_workerid) group.2 in
    let merged := match om_find mergeto group.1 with None => labels | Some merged => foldl add_label merged labels end in
    om_set mergeto group.1 (sort_labels merged)) mergeto from.

(** *** getDistSearchResult *)

(** The first worker that reports an error. *)
Definition first_worker_error ws : option string :=
  foldr (fun w e => if String.eqb (error_ w.2) "" then e else Some (error_ w.2)) None ws.

(** Only the workers that matched the most tokens keep their results. *)
Definition keep_largest (result0 : result) ws : list (Z * result) :=
  let largest := foldl (fun n w => if n <? majorTokenNum_ w.2 then majorTokenNum_ w.2 else n) (majorTokenNum_ result0) ws in
  if existsb (fun w => negb (majorTokenNum_ w.2 =? majorTokenNum_ result0)) ws
  then map (fun w => if majorTokenNum_ w.2 <? largest then (w.1, emptyWorkerResult w.2) else w) ws
  else ws.

(** What the first loop gathers. *)
Record Gathered := {
  is_need_get_docs : bool;
  g_totalCount : Z;
  totalTopKCount : Z;
  hasCustomRankScore : bool;
  hasGeoDistance : bool;
  rangeLow : spec_float;
  rangeHigh : spec_float;
  g_groupRep : GroupRep T;
  g_labels : GroupLabelScoreMap;
  g_counters : list (string * Z)
}.

Definition gather (w : Z * result) (g : Gathered) : res Gathered :=
  let m := main w.2 in
  let range := propertyRange_ m in
  let* (rep, _) := GroupRep.merge (g_groupRep g) (groupRep_ m) in
  Ret {|
    is_need_get_docs := negb (include_summary_data_ w.2) || is_need_get_docs g;
    g_totalCount := u64 (g_totalCount g + totalCount_ m);
    totalTopKCount := u64 (totalTopKCount g + vsize (topKDocs_ m));
    hasCustomRankScore := hasCustomRankScore g || negb (is_nil (topKCustomRankScoreList_ m));
    hasGeoDistance := hasGeoDistance g || negb (is_nil (topKGeoDistanceList_ m));
    rangeLow := if flt (lowValue_ range) (rangeLow g) then lowValue_ range else rangeLow g;
    rangeHigh := if fgt (highValue_ range) (rangeHigh g) then highValue_ range else rangeHigh g;
    g_groupRep := rep;
    g_labels := mergeScoreGroupLabel (g_labels g) (autoSelectGroupLabels_ w.2) w.1;
    g_counters := merge_counters (g_counters g) (counterResults_ m)
  |}.

(** The heads of the lists of the workers; [maxi] of the best one. *)
Definition comparators ws : list (list SortPropertyData) := map (fun w => DocumentComparator (main w.2)) ws.

Definition head_greater ws (i it maxi itm : Z) : res bool :=
  let* (wi, ri) := vget ws i in
  let* (wm, rm) := vget ws maxi in
  let* di := vget (topKDocs_ (main ri)) it in
  let* dm := vget (topKDocs_ (main rm)) itm in
  let* ci := vget (comparators ws) i in
  let* cm := vget (comparators ws) maxi in
  greaterThan ci it (GetWDocId wi di) cm itm (GetWDocId wm dm).

Definition better_head ws (iter : list Z) (i : Z) (maxi : option Z) : res (option Z) :=
  let* (_, r) := vget ws i in
  let* it := vget iter i in
  if vsize (topKDocs_ (main r)) <=? it then Ret maxi
  else
    match maxi with
    | None => Ret (Some i)
    | Some m =>
        let* itm := vget iter m in
        let* b := head_greater ws i it m itm in
        Ret (if b then Some i else maxi)
    end.

Definition find_max ws (iter : list Z) : res (option Z) := mfold (better_head ws iter) (seqZ 0 (vsize ws)) None.

(** The lists that are filled, and where each document comes from. *)
Record Merged := {
  m_docs : list Z;
  m_workers : list Z;
  m_scores : list spec_float;
  m_customs : list spec_float;
  m_geos : list spec_float;
  pageOffsetInWorker : list (Z * Z)
}.

Definition set_if_any (cnt : Z) (it : Z) (from to : list spec_float) : res (list spec_float) :=
  if is_nil from then Ret to else let* v := vget from it in vset to cnt v.

Definition take_head ws (cnt maxi : Z) (iter : list Z) (m : Merged) : res (list Z * Merged) :=
  let* it := vget iter maxi in
  let* (workerid, r) := vget ws maxi in
  let* offsets := vset (pageOffsetInWorker m) cnt (maxi, it) in
  let* d := vget (topKDocs_ (main r)) it in
  let* docs := vset (m_docs m) cnt d in
  let* workers := vset (m_workers m) cnt workerid in
  let* s := vget (topKRankScoreList_ (main r)) it in
  let* scores := vset (m_scores m) cnt s in
  let* customs := set_if_any cnt it (topKCustomRankScoreList_ (main r)) (m_customs m) in
  let* geos := set_if_any cnt it (topKGeoDistanceList_ (main r)) (m_geos m) in
  let* iter := vset iter maxi (u64 (it + 1)) in
  Ret (iter, {| m_docs := docs; m_workers := workers; m_scores := scores; m_customs := customs; m_geos := geos; pageOffsetInWorker := offsets |}).

Fixpoint merge_topK ws (cnts : list Z) (iter : list Z) (m : Merged) : res Merged :=
  match cnts with
  | [] => Ret m
  | cnt :: cnts =>
      let* maxi := find_max ws iter in
      match maxi with
      | None => Ret m
      | Some maxi => let* (iter, m) := take_head ws cnt maxi iter m in merge_topK ws cnts iter m
      end
  end.

(** *** The texts of the page *)
Definition init_texts (result0 : result) (pageCount : Z) : PageTexts X :=
  let displayPropertyNum := length (snippetTextOfDocumentInPage_ (texts result0)) in
  let isSummaryOn := length (rawTextOfSummaryInPage_ (texts result0)) in
  let place := vresize pageCount no_text [] in
  MkTexts (replicate displayPropertyNum place) (replicate displayPropertyNum place) (replicate isSummaryOn place).

(** [to[dis][i] = from[dis][offset]], if there is such a text. *)
Definition copy_text (from : list (list X)) (offset i dis : Z) (to : list (list X)) : res (list (list X)) :=
  if dis <? vsize from then
    let* l := vget from dis in
    if offset <? vsize l then
      let* x := vget l offset in
      let* row := vget to dis in
      let* row := vset row i x in
      vset to dis row
    else Ret to
  else Ret to.

Definition copy_texts (result0 : result) (from : PageTexts X) (offset i : Z) (to : PageTexts X) : res (PageTexts X) :=
  let displayPropertyNum := vsize (snippetTextOfDocumentInPage_ (texts result0)) in
  let isSummaryOn := vsize (rawTextOfSummaryInPage_ (texts result0)) in
  let* (snippet, full) := mfold (fun dis '(snippet, full) =>
      let* snippet := copy_text (snippetTextOfDocumentInPage_ from) offset i dis snippet in
      let* full := copy_text (fullTextOfDocumentInPage_ from) offset i dis full in
      Ret (snippet, full)) (seqZ 0 displayPropertyNum) (snippetTextOfDocumentInPage_ to, fullTextOfDocumentInPage_ to) in
  let* raw := mfold (copy_text (rawTextOfSummaryInPage_ from) offset i) (seqZ 0 isSummaryOn) (rawTextOfSummaryInPage_ to) in
  Ret (MkTexts snippet full raw).

Definition merge_page (result0 : result) ws (m : Merged) (start count : Z) : res (PageTexts X) :=
  let n := vsize (m_docs m) in
  let pageCount := if start <? n then Z.min count (n - start) else 0 in
  let pageEnd := Z.min n (u64 (start + pageCount)) in
  mfold (fun topkIndex to =>
    let* (curWorker, workerOffset) := vget (pageOffsetInWorker m) topkIndex in
    let* (_, r) := vget ws curWorker in
    copy_texts result0 (texts r) workerOffset (topkIndex - start) to) (seqZ start (pageEnd - start)) (init_texts result0 pageCount).

(** *** getDistSearchResult, getSummaryResult *)

(** Logging the number of labels of "Category" makes an entry for it. *)
Definition touch_category (l : GroupLabelScoreMap) : GroupLabelScoreMap :=
  match om_find l "Category"%string with Some _ => l | None => om_set l "Category"%string [] end.

Definition topK_count (start top total : Z) : Z :=
  let topKStart := roundDown start top in
  Z.min (u64 top) (if topKStart <? total then total - topKStart else 0).

Definition getDistSearchResult (workerResults : list (Z * result)) (mergeResult : result) : res result :=
  match workerResults with
  | [] => Ret (set_error "empty worker." mergeResult)
  | (worker0, result0) :: _ =>
      match first_worker_error workerResults with
      | Some e => Ret (set_error e mergeResult)
      | None =>
          if vsize workerResults =? 1 then
            Ret (set_workers (vresize (vsize (topKDocs_ (main result0))) worker0 (topKWorkerIds_ result0)) result0)
          else
            let ws := keep_largest result0 workerResults in
            let* (_, r0) := vget ws 0 in
            let m := main mergeResult in
            let* g := mfold gather ws (Build_Gathered false 0 0 false false FLT_MAX FLT_MIN (groupRep_ m) (autoSelectGroupLabels_ mergeResult) (counterResults_ m)) in
            let* (attr, _) := OntologyRep.merge (Q := QA) 0 (attrRep_ (main r0)) (map (fun w => attrRep_ (main w.2)) (tail ws)) in
            let topKCount := topK_count (start_ result0) (TOP_K_NUM result0) (totalTopKCount g) in
            let* merged := merge_topK ws (seqZ 0 topKCount) (replicate (length ws) 0)
              {| m_docs := vresize topKCount 0 (topKDocs_ m); m_workers := vresize topKCount 0 (topKWorkerIds_ mergeResult);
                 m_scores := vresize topKCount d0 (topKRankScoreList_ m);
                 m_customs := if hasCustomRankScore g then vresize topKCount d0 (topKCustomRankScoreList_ m) else topKCustomRankScoreList_ m;
                 m_geos := if hasGeoDistance g then vresize topKCount d0 (topKGeoDistanceList_ m) else topKGeoDistanceList_ m;
                 pageOffsetInWorker := vresize topKCount (0, 0) [] |} in
            let* page := (if is_need_get_docs g then Ret (texts mergeResult) else merge_page r0 ws merged (start_ result0) (count_ result0)) in
            Ret (Dist (error_ mergeResult) (info result0)
              (Result (g_totalCount g) (Range (rangeHigh g) (rangeLow g)) (g_counters g) (g_groupRep g) attr
                 (m_docs merged) (m_scores merged) (m_customs merged) (m_geos merged) (sortData_ m))
              (m_workers merged) (touch_category (g_labels g)) (start_ result0) (count_ result0) (TOP_K_NUM result0) (majorTokenNum_ mergeResult)
              (negb (is_need_get_docs g)) (docsInPage_ mergeResult) (pageOffsetList_ mergeResult) page)
      end
  end.

(** The first worker whose next text is for place [i]. *)
Definition find_worker ws (offsets : list Z) (i : Z) : option Z :=
  let found '(w, o) := match (pageOffsetList_ w.2 : list Z) !! Z.to_nat o with Some p => p =? i | None => false end in
  (fun p => Z.of_nat p.1) <$> list_find (fun wo => Is_true (found wo)) (zip ws offsets).

Fixpoint fill_page (result0 : result) ws (places : list Z) (offsets : list Z) (to : PageTexts X) : res (PageTexts X) :=
  match places with
  | [] => Ret to
  | i :: places =>
      match find_worker ws offsets i with
      | None => Ret to
      | Some curWorker =>
          let* (_, r) := vget ws curWorker in
          let* offset := vget offsets curWorker in
          let* to := copy_texts result0 (texts r) offset i to in
          let* offsets := vset offsets curWorker (u64 (offset + 1)) in
          fill_page result0 ws places offsets to
      end
  end.

Definition getSummaryResult (workerResults : list (Z * result)) (mergeResult : result) : res result :=
  match workerResults with
  | [] => Ret mergeResult
  | (_, result0) :: _ =>
      match first_worker_error workerResults with
      | Some e => Ret (set_error e mergeResult)
      | None =>
          let pageCount := count_ mergeResult in
          let* page := fill_page result0 workerResults (seqZ 0 pageCount) (replicate (length workerResults) 0) (init_texts result0 pageCount) in
          Ret (set_texts page mergeResult)
      end
  end.

Definition getSummaryMiningResult := getSummaryResult.

(** *** splitSearchResultByWorkerid *)
Definition part_of (total : result) : result :=
  let i := info total in
  set_info (MkInfo (collectionName_ i) (encodingType_ i) (rawQueryString_ i) no_query [] (propertyQueryTermList_ i) (isDistributed_ i))
    (set_top (TOP_K_NUM total) (new_dist_result UTF_8 no_query)).

Definition split_one (total : result) (topstart : Z) (st : Z * list (Z * result)) : res (Z * list (Z * result)) :=
  let '(i, resultMap) := st in
  let* curWorkerId := vget (topKWorkerIds_ total) topstart in
  let* d := vget (topKDocs_ (main total)) topstart in
  let r := default (part_of total) (om_find resultMap curWorkerId) in
  let r := set_range (start_ r) (u64 (count_ r + 1)) (set_page (docsInPage_ r ++ [d]) (pageOffsetList_ r ++ [i]) r) in
  Ret (u64 (i + 1), om_set resultMap curWorkerId r).

Definition splitSearchResultByWorkerid (total : result) (resultMap : list (Z * result)) : res (list (Z * result)) :=
  let n := vsize (topKDocs_ (main total)) in
  if (TOP_K_NUM total =? 0) || (n =? 0) then Ret resultMap
  else
    let start_inpage := start_ total mod u64 (TOP_K_NUM total) in
    let page_end := Z.min n (u64 (start_inpage + count_ total)) in
    let* (_, resultMap) := mfold (split_one total) (seqZ start_inpage (page_end - start_inpage)) (0, resultMap) in
    Ret resultMap.
End Merger.

(** *** The other requests *)

(** Frequencies of the terms of each property, summed over the workers: also the
    greatest frequencies [maxtfmap_]. *)
Section Frequencies.
Context {F : Type} (f_zero : F) (f_add : F -> F -> F).
Notation freqs := (gmap string (gmap Z F)).

Record DistFrequencies := MkFrequencies { dfmap_ : freqs; ctfmap_ : freqs; maxtfmap_ : freqs }.

Definition add_freq (property : string) (id : Z) (f : F) (m : freqs) : freqs :=
  let ids := default ∅ (m !! property) in
  <[property := <[id := f_add (default f_zero (ids !! id)) f]> ids]> m.

Definition add_freqs (from m : freqs) : freqs := map_fold (fun property ids m => map_fold (add_freq property) m ids) m from.

Definition getDistSearchInfo (workerResults : list DistFrequencies) (mergeResult : DistFrequencies) : DistFrequencies :=
  foldl (fun m w => MkFrequencies (add_freqs (dfmap_ w) (dfmap_ m)) (add_freqs (ctfmap_ w) (ctfmap_ m)) (add_freqs (maxtfmap_ w) (maxtfmap_ m)))
    mergeResult workerResults.
End Frequencies.

(** RawTextResultFromSIA *)
Record RawTextResult (X : Type) := MkRaw { raw_error : string; idList_ : list Z; workeridList_ : list Z; raw_texts : PageTexts X }.
Arguments MkRaw {_} _ _ _ _.
Arguments raw_error {_} _.
Arguments idList_ {_} _.
Arguments workeridList_ {_} _.
Arguments raw_texts {_} _.

(** GetDocumentsByIdsActionItem: wide ids, names of documents, and the rest. *)
Record DocsActionItem (I : Type) := MkDocs { wideIdList : list Z; docIdList_ : list string; action_rest : I }.
Arguments MkDocs {_} _ _ _.
Arguments wideIdList {_} _.
Arguments docIdList_ {_} _.
Arguments action_rest {_} _.

Section Requests.
Context {X I : Type} `{!WideDocId}.

(** [to[p].push_back(from[p][i])] *)
Definition push_text (from : list (list X)) (i p : Z) (to : list (list X)) : res (list (list X)) :=
  let* l := vget from p in let* x := vget l i in
  let* row := vget to p in vset to p (row ++ [x]).

Definition push_document (workerid : Z) (w : RawTextResult X) (i : Z) (m : RawTextResult X) : res (RawTextResult X) :=
  let from := raw_texts w in
  let to := raw_texts m in
  let n := vsize (fullTextOfDocumentInPage_ from) in
  let to :=
    if is_nil (idList_ m) then
      MkTexts (vresize n [] (snippetTextOfDocumentInPage_ to)) (vresize n [] (fullTextOfDocumentInPage_ to))
        (vresize (vsize (rawTextOfSummaryInPage_ from)) [] (rawTextOfSummaryInPage_ to))
    else to in
  let* id := vget (idList_ w) i in
  let* (full, snippet) := mfold (fun p '(full, snippet) =>
      let* full := push_text (fullTextOfDocumentInPage_ from) i p full in
      let* snippet := push_text (snippetTextOfDocumentInPage_ from) i p snippet in
      Ret (full, snippet)) (seqZ 0 n) (fullTextOfDocumentInPage_ to, snippetTextOfDocumentInPage_ to) in
  let* raw := mfold (push_text (rawTextOfSummaryInPage_ from) i) (seqZ 0 (vsize (rawTextOfSummaryInPage_ from))) (rawTextOfSummaryInPage_ to) in
  Ret (MkRaw (raw_error m) (idList_ m ++ [id]) (workeridList_ m ++ [workerid]) (MkTexts snippet full raw)).

Definition getDocumentsByIds (workerResults : list (Z * RawTextResult X)) (mergeResult : RawTextResult X) : res (RawTextResult X) :=
  match workerResults with
  | [] => Ret (MkRaw "empty worker result." (idList_ mergeResult) (workeridList_ mergeResult) (raw_texts mergeResult))
  | (worker0, result0) :: _ =>
      match List.find (fun w => negb (String.eqb (raw_error w.2) "")) workerResults with
      | Some w => Ret (MkRaw (raw_error w.2) (idList_ mergeResult) (workeridList_ mergeResult) (raw_texts mergeResult))
      | None =>
          if vsize workerResults =? 1 then
            Ret (MkRaw (raw_error result0) (idList_ result0) (vresize (vsize (idList_ result0)) worker0 (workeridList_ result0)) (raw_texts result0))
          else
            mfold (fun w m => mfold (push_document w.1 w.2) (seqZ 0 (vsize (idList_ w.2))) m) workerResults
              (MkRaw (raw_error mergeResult) [] (workeridList_ mergeResult) (raw_texts mergeResult))
      end
  end.

Definition getInternalDocumentId (workerResults : list (Z * Z)) : Z :=
  match List.find (fun w => negb (w.2 =? 0)) workerResults with Some w => GetWDocId w.1 (u32 w.2) | None => 0 end.

Definition clickGroupLabel (workerResults : list bool) : bool := existsb (fun b => b) workerResults.
Definition HookDistributeRequestForSearch (workerResults : list bool) : bool := forallb (fun b => b) workerResults.
Definition getDistDocNum (workerResults : list Z) : Z := foldl (fun n w => u32 (n + w)) 0 workerResults.
Definition getDistKeyCount (workerResults : list Z) : Z := foldl (fun n w => u32 (n + w)) 0 workerResults.

(** [sharding_for_get] of the name of a document. *)
Context (shards : string -> list Z).

Definition part_of_action (a : DocsActionItem I) : DocsActionItem I := MkDocs [] [] (action_rest a).

Definition splitGetDocsActionItemByWorkerid (a : DocsActionItem I) (actionItemMap : list (Z * DocsActionItem I)) : bool * list (Z * DocsActionItem I) :=
  if is_nil (wideIdList a) && is_nil (docIdList_ a) then (false, actionItemMap)
  else
    let m := foldl (fun m id =>
      let w := (GetWorkerAndDocId id).1 in
      let s := match om_find m w with Some s => if is_nil (wideIdList s) then part_of_action a else s | None => part_of_action a end in
      om_set m w (MkDocs (wideIdList s ++ [id]) (docIdList_ s) (action_rest s))) actionItemMap (wideIdList a) in
    let m := foldl (fun m name =>
      foldl (fun m wid =>
        let w := u32 wid in
        let s := match om_find m w with
          | Some s => if is_nil (wideIdList s) && is_nil (docIdList_ s) then part_of_action a else s
          | None => part_of_action a end in
        om_set m w (MkDocs (wideIdList s) (docIdList_ s ++ [name]) (action_rest s))) m (shards name)) m (docIdList_ a) in
    (negb (is_nil m), m).
End Requests.
