(* ===== verification/DistMergeSpec.v ===== *)
(** * What the merger of a distributed search answers

The results of DistMerge.v: the merged list consists of the best documents of
all workers, in order; every place of the page holds the text that the worker of
its document answered. *)
From Stdlib Require Import String.
From S2P Require Import Prelude PQueue TopK Float64 OrdMap GroupRep OntologyRep NumTable RTypeTable Sorter SearchPrepare SearchThread DistMerge.

(** ** Lists over an interval *)
Lemma vget_map_seqZ {A} (f : Z -> A) n k : 0 <= k < n -> vget (map f (seqZ 0 n)) k = Ret (f k).
Proof.
  intros Hk. apply vget_Ret. split; [lia|]. rewrite list_lookup_fmap, lookup_seqZ_lt by lia. cbn. f_equal. f_equal. lia.
Qed.

Lemma vsize_map_seqZ {A} (f : Z -> A) n : 0 <= n -> vsize (map f (seqZ 0 n)) = n.
Proof. intros Hn. unfold vsize. rewrite length_map, length_seqZ. lia. Qed.

Lemma vset_map_seqZ {A} (f : Z -> A) n k a : 0 <= k < n ->
  vset (map f (seqZ 0 n)) k a = Ret (map (fun d => if d =? k then a else f d) (seqZ 0 n)).
Proof.
  intros Hk. rewrite vset_Ret by (rewrite vsize_map_seqZ; lia). f_equal. apply list_eq. intros j.
  rewrite list_lookup_insert. rewrite !list_lookup_fmap, length_map, length_seqZ.
  destruct (decide (j < Z.to_nat n)%nat) as [Hj|Hj].
  - rewrite lookup_seqZ_lt by lia. cbn. case_decide as Hd.
    + destruct Hd as [<- _]. by destruct (Z.eqb_spec (0 + Z.of_nat (Z.to_nat k)) k); [|lia].
    + destruct (Z.eqb_spec (0 + Z.of_nat j) k); [lia|done].
  - rewrite lookup_seqZ_ge by lia. cbn. case_decide; [lia|done].
Qed.

Lemma take_snoc {A} (l : list A) k a : 0 <= k < vsize l -> take (Z.to_nat (k + 1)) (<[Z.to_nat k := a]> l) = take (Z.to_nat k) l ++ [a].
Proof.
  intros Hk. unfold vsize in Hk. replace (Z.to_nat (k + 1)) with (S (Z.to_nat k)) by lia.
  rewrite (take_S_r _ _ a) by (apply list_lookup_insert_eq; lia). by rewrite take_insert_ge by lia.
Qed.

(** One list of a partition gives up its first element. *)
Lemma concat_take {A} (f g : Z -> list A) l m x : NoDup l -> m ∈ l -> f m = x :: g m -> (forall j, j ∈ l -> j <> m -> f j = g j) ->
  concat (map f l) ≡ₚ x :: concat (map g l).
Proof.
  intros Hnd Hm Hf Hg. induction l as [|j l IH]; [by apply elem_of_nil in Hm|]. apply NoDup_cons in Hnd as [Hj Hnd]. cbn.
  destruct (decide (j = m)) as [->|Hne].
  - rewrite Hf. cbn. constructor. apply Permutation_app_head. erewrite map_ext_in; [done|].
    intros k Hk%list_elem_of_In. apply Hg; [by right|]. by intros ->.
  - rewrite Hg by (done || by left). rewrite IH; [| |by apply elem_of_cons in Hm as [|]|]; [|done|intros k Hk; apply Hg; by right].
    by rewrite Permutation_middle.
Qed.

(** ** The merged list *)
Section Best.
Context {T X QA : Type} `{!WideDocId, !TextOrder T, !PQueue QA (T * spec_float)}.
Notation result := (DistResult T X).
Context (ws : list (Z * result)).
Notation n := (vsize ws).

Definition docs_of (i : Z) : list Z := match ws !! Z.to_nat i with Some w => topKDocs_ (main w.2) | None => [] end.

(** The documents as pairs of worker and offset; those left when the workers have
    given up [iter]. *)
Definition left_of (iter : Z -> Z) : list (Z * Z) :=
  concat (map (fun i => map (pair i) (seqZ (iter i) (vsize (docs_of i) - iter i))) (seqZ 0 n)).
Definition entries : list (Z * Z) := left_of (fun _ => 0).
Definition is_entry (x : Z * Z) : Prop := 0 <= x.1 < n /\ 0 <= x.2 < vsize (docs_of x.1).

Lemma entries_elem iter x : (forall i, 0 <= iter i) -> x ∈ left_of iter <-> is_entry x /\ iter x.1 <= x.2.
Proof.
  intros Hi. unfold left_of. rewrite list_elem_of_In, in_concat. setoid_rewrite in_map_iff. destruct x as [i p]. unfold is_entry. cbn [fst snd]. split.
  - intros (l & (j & <- & Hj) & Hin). apply in_map_iff in Hin as (q & [= -> ->] & Hq).
    apply list_elem_of_In, elem_of_seqZ in Hj, Hq. specialize (Hi i). lia.
  - intros [[H1 H2] H3]. eexists. split; [exists i; split; [done|]; apply list_elem_of_In, elem_of_seqZ; lia|].
    apply in_map_iff. exists p. split; [done|]. apply list_elem_of_In, elem_of_seqZ. lia.
Qed.

Lemma left_step iter m : 0 <= m < n -> 0 <= iter m < vsize (docs_of m) ->
  left_of iter ≡ₚ (m, iter m) :: left_of (fun i => if i =? m then iter i + 1 else iter i).
Proof.
  intros Hm Hi. unfold left_of. apply (concat_take _ _ _ m); [apply NoDup_seqZ|apply elem_of_seqZ; lia| |].
  - rewrite Z.eqb_refl. rewrite (seqZ_cons (iter m)) by lia. cbn. unfold Z.succ. do 3 f_equal. lia.
  - intros j _ Hj. by rewrite (proj2 (Z.eqb_neq j m)).
Qed.

(** What the merger reads of a document. *)
Definition doc_at (x : Z * Z) : res Z := let* (_, r) := vget ws x.1 in vget (topKDocs_ (main r)) x.2.
Definition worker_at (x : Z * Z) : res Z := let* (w, _) := vget ws x.1 in Ret w.
Definition score_at (x : Z * Z) : res spec_float := let* (_, r) := vget ws x.1 in vget (topKRankScoreList_ (main r)) x.2.
Definition custom_at (x : Z * Z) : res spec_float := let* (_, r) := vget ws x.1 in vget (topKCustomRankScoreList_ (main r)) x.2.
Definition geo_at (x : Z * Z) : res spec_float := let* (_, r) := vget ws x.1 in vget (topKGeoDistanceList_ (main r)) x.2.

Context (better : Z * Z -> Z * Z -> bool) `{!StrictWeak better}.

(** What the merger relies on: the comparison of two heads is [better], every
    worker's list is in that order, and has its scores; either all workers or none
    rank by the other scores. *)
Record mergeable (customs geos : bool) : Prop := {
  mb_order : forall x y, is_entry x -> is_entry y -> x.1 <> y.1 -> head_greater ws x.1 x.2 y.1 y.2 = Ret (better x y);
  mb_sorted : forall i p q, is_entry (i, p) -> is_entry (i, q) -> p < q -> better (i, q) (i, p) = false;
  mb_size : forall i, vsize (docs_of i) < 2 ^ 64;
  mb_scores : forall w, w ∈ ws -> vsize (topKRankScoreList_ (main w.2)) = vsize (topKDocs_ (main w.2));
  mb_customs : forall w, w ∈ ws -> vsize (topKCustomRankScoreList_ (main w.2)) = if customs then vsize (topKDocs_ (main w.2)) else 0;
  mb_geos : forall w, w ∈ ws -> vsize (topKGeoDistanceList_ (main w.2)) = if geos then vsize (topKDocs_ (main w.2)) else 0
}.
Context (customs geos : bool).
Hypothesis Hok : mergeable customs geos.

Lemma worker_of i : 0 <= i < n -> exists w, vget ws i = Ret w /\ w ∈ ws /\ docs_of i = topKDocs_ (main w.2).
Proof.
  intros Hi. destruct (vget_in_range ws i Hi) as [w Hw]. exists w. split; [done|]. apply vget_Ret in Hw as [_ Hw].
  split; [by eapply list_elem_of_lookup_2|]. unfold docs_of. by rewrite Hw.
Qed.

(** *** The best head *)
Definition iter_ok (iter : list Z) (it : Z -> Z) : Prop :=
  vsize iter = n /\ forall i, 0 <= it i /\ (0 <= i < n -> vget iter i = Ret (it i)).

(** [maxi] is the best head of the workers before [i]. *)
Definition best_before (it : Z -> Z) (i : Z) (maxi : option Z) : Prop :=
  match maxi with
  | None => forall j, 0 <= j < i -> vsize (docs_of j) <= it j
  | Some m => 0 <= m < i /\ it m < vsize (docs_of m) /\
      forall j, 0 <= j < i -> it j < vsize (docs_of j) -> better (j, it j) (m, it m) = false
  end.

Lemma find_max_spec iter it : iter_ok iter it -> exists maxi, find_max ws iter = Ret maxi /\ best_before it n maxi.
Proof.
  intros [Hsz Hit]. pose proof (vsize_nonneg ws) as Hn. unfold find_max.
  destruct (mfold_seqZ (better_head ws iter) (best_before it) 0 n None) as (maxi & -> & Hmax); [done| |intros j; lia|by exists maxi].
  intros i maxi Hi Hb. destruct (worker_of i ltac:(lia)) as ([wi ri] & Ei & _ & Ed). unfold better_head. rewrite Ei. cbn [res_bind].
  destruct (Hit i) as [H0 Hv]. rewrite Hv by lia. cbn [res_bind]. cbn [snd] in Ed. rewrite <- Ed.
  destruct (Z.leb_spec (vsize (docs_of i)) (it i)) as [Hle|Hlt].
  - exists maxi. split; [done|]. destruct maxi as [m|]; cbn in *.
    + destruct Hb as (H1 & H2 & H3). split; [lia|]. split; [done|]. intros j Hj. destruct (decide (j = i)) as [->|]; [lia|]. apply H3. lia.
    + intros j Hj. destruct (decide (j = i)) as [->|]; [done|]. apply Hb. lia.
  - destruct maxi as [m|]; cbn in Hb.
    + destruct Hb as (H1 & H2 & H3). destruct (Hit m) as [Hm0 Hmv]. rewrite Hmv by lia. cbn [res_bind].
      assert (head_greater ws i (it i) m (it m) = Ret (better (i, it i) (m, it m))) as ->
        by (apply (mb_order _ _ Hok (i, it i) (m, it m)); unfold is_entry; cbn; lia). cbn [res_bind].
      destruct (better (i, it i) (m, it m)) eqn:Eb; eexists; (split; [done|]); cbn.
      * split; [lia|]. split; [done|]. intros j Hj Hjl. destruct (decide (j = i)) as [->|]; [apply sw_irrefl|].
        destruct (better (j, it j) (i, it i)) eqn:Ej; [|done]. specialize (H3 j ltac:(lia) Hjl). by rewrite (sw_trans _ _ _ Ej Eb) in H3.
      * split; [lia|]. split; [done|]. intros j Hj. destruct (decide (j = i)) as [->|]; [done|]. apply H3. lia.
    + eexists. split; [done|]. cbn. split; [lia|]. split; [done|]. intros j Hj Hjl. destruct (decide (j = i)) as [->|]; [apply sw_irrefl|].
      specialize (Hb j ltac:(lia)). lia.
Qed.

(** *** The lists that are filled *)

(** The first [k] places hold what [f] reads of the picked documents. *)
Definition filled {A} (f : Z * Z -> res A) (picks : list (Z * Z)) (size : Z) (l : list A) : Prop :=
  vsize l = size /\ each f picks = Ret (take (length picks) l).

Lemma each_snoc {A B} (f : A -> res B) l k a b : each f l = Ret k -> f a = Ret b -> each f (l ++ [a]) = Ret (k ++ [b]).
Proof. rewrite !each_Forall2. intros Hl Ha. apply Forall2_app; [done|]. by constructor. Qed.

Lemma filled_step {A} (f : Z * Z -> res A) picks size l x a : filled f picks size l -> vsize picks < size -> f x = Ret a ->
  exists l', vset l (vsize picks) a = Ret l' /\ filled f (picks ++ [x]) size l'.
Proof.
  intros [Hs He] Hlt Hf. pose proof (vsize_nonneg picks). eexists. split; [by apply vset_Ret; lia|]. split.
  - unfold vsize in *. by rewrite length_insert.
  - rewrite length_app. cbn [length]. pose proof (take_snoc l (vsize picks) a ltac:(lia)) as E.
    replace (Z.to_nat (vsize picks + 1)) with (length picks + 1)%nat in E by (unfold vsize; lia).
    rewrite E. replace (Z.to_nat (vsize picks)) with (length picks) by (unfold vsize; lia). by apply each_snoc.
Qed.

Definition filled_if (b : bool) (f : Z * Z -> res spec_float) (picks : list (Z * Z)) (size : Z) (l0 l : list spec_float) : Prop :=
  if b then filled f picks size l else l = l0.

Lemma filled_if_step (b : bool) f picks size l0 l x from : filled_if b f picks size l0 l -> vsize picks < size ->
  (b = true -> f x = vget from x.2) -> vsize from = (if b then vsize (docs_of x.1) else 0) -> 0 <= x.2 < vsize (docs_of x.1) ->
  exists l', set_if_any (vsize picks) x.2 from l = Ret l' /\ filled_if b f (picks ++ [x]) size l0 l'.
Proof.
  intros Hl Hlt Hf Hs Hx. unfold set_if_any. destruct b; cbn [filled_if] in *.
  - destruct from as [|y from]; [change (0 = vsize (docs_of x.1)) in Hs; lia|]. cbn [is_nil].
    destruct (vget_in_range (y :: from) x.2) as [a Ea]; [lia|]. rewrite Ea. cbn [res_bind]. apply filled_step; [done..|]. by rewrite Hf.
  - destruct from as [|y from]; [|rewrite vsize_cons in Hs; pose proof (vsize_nonneg from); lia]. by exists l.
Qed.

Record merged_ok (picks : list (Z * Z)) (size : Z) (customs0 geos0 : list spec_float) (m : Merged) : Prop := {
  mo_docs : filled doc_at picks size (m_docs m);
  mo_workers : filled worker_at picks size (m_workers m);
  mo_scores : filled score_at picks size (m_scores m);
  mo_customs : filled_if customs custom_at picks size customs0 (m_customs m);
  mo_geos : filled_if geos geo_at picks size geos0 (m_geos m);
  mo_offsets : filled Ret picks size (pageOffsetInWorker m)
}.

Lemma take_head_ok picks size customs0 geos0 m iter it maxi : merged_ok picks size customs0 geos0 m -> vsize picks < size ->
  iter_ok iter it -> 0 <= maxi < n -> it maxi < vsize (docs_of maxi) ->
  exists iter' m', take_head ws (vsize picks) maxi iter m = Ret (iter', m') /\
    iter_ok iter' (fun i => if i =? maxi then it i + 1 else it i) /\ merged_ok (picks ++ [(maxi, it maxi)]) size customs0 geos0 m'.
Proof.
  intros [Hd Hw Hs Hc Hg Ho] Hlt [Hi Hit] Hm Hlen. destruct (worker_of maxi Hm) as ([w r] & Er & Hin & Ed). cbn [snd] in Ed.
  destruct (Hit maxi) as [H0 Hv]. specialize (Hv Hm). pose proof (mb_scores _ _ Hok _ Hin) as Hsc.
  pose proof (mb_customs _ _ Hok _ Hin) as Hcu. pose proof (mb_geos _ _ Hok _ Hin) as Hge. cbn [snd] in Hsc, Hcu, Hge. rewrite <- Ed in Hsc, Hcu, Hge.
  set (x := (maxi, it maxi)).
  destruct (vget_in_range (topKDocs_ (main r)) (it maxi)) as [d Edoc]; [rewrite <- Ed; lia|].
  destruct (vget_in_range (topKRankScoreList_ (main r)) (it maxi)) as [s Esc]; [lia|].
  destruct (filled_step Ret picks size _ x x Ho Hlt eq_refl) as (lo & Eo & Ho').
  destruct (filled_step doc_at picks size _ x d Hd Hlt) as (ld & Edl & Hd'); [unfold doc_at, x; cbn [fst snd]; by rewrite Er|].
  destruct (filled_step worker_at picks size _ x w Hw Hlt) as (lw & Ewl & Hw'); [unfold worker_at, x; cbn [fst snd]; by rewrite Er|].
  destruct (filled_step score_at picks size _ x s Hs Hlt) as (ls & Esl & Hs'); [unfold score_at, x; cbn [fst snd]; by rewrite Er|].
  destruct (filled_if_step customs custom_at picks size customs0 _ x (topKCustomRankScoreList_ (main r)) Hc Hlt) as (lc & Ecl & Hc');
    [unfold custom_at, x; cbn [fst snd]; by rewrite Er|done|cbn; lia|].
  destruct (filled_if_step geos geo_at picks size geos0 _ x (topKGeoDistanceList_ (main r)) Hg Hlt) as (lg & Egl & Hg');
    [unfold geo_at, x; cbn [fst snd]; by rewrite Er|done|cbn; lia|].
  subst x. cbn [fst snd] in Ecl, Egl. unfold take_head. rewrite Hv. cbn [res_bind]. rewrite Er. cbn [res_bind]. rewrite Eo. cbn [res_bind]. rewrite Edoc. cbn [res_bind].
  rewrite Edl. cbn [res_bind]. rewrite Ewl. cbn [res_bind]. rewrite Esc. cbn [res_bind]. rewrite Esl. cbn [res_bind]. rewrite Ecl. cbn [res_bind]. rewrite Egl. cbn [res_bind].
  rewrite vset_Ret by lia. eexists _, _. split; [done|]. split; [|by split].
  pose proof (mb_size _ _ Hok maxi). rewrite u64_small by lia. split; [unfold vsize in *; by rewrite length_insert|].
  intros i. destruct (Hit i) as [Hi0 Hiv]. destruct (Z.eqb_spec i maxi) as [->|Hne]; (split; [lia|]); intros Hin'.
  - apply vget_Ret. split; [lia|]. apply list_lookup_insert_eq. unfold vsize in *. lia.
  - apply vget_Ret. split; [lia|]. rewrite list_lookup_insert_ne by lia. by apply vget_Ret, Hiv.
Qed.

(** *** The merge *)
Definition worse (x y : Z * Z) : bool := better y x.
#[local] Instance worse_weak : StrictWeak worse.
Proof. by apply flip_weak. Qed.

(** [picks] are above what is left. *)
Definition above_left (picks : list (Z * Z)) (it : Z -> Z) : Prop :=
  (forall i, 0 <= it i) /\ entries ≡ₚ picks ++ left_of it /\ descending worse picks /\
  forall x y, x ∈ picks -> y ∈ left_of it -> worse x y = false.

Lemma better_head_all it m y : 0 <= m < n -> it m < vsize (docs_of m) -> (forall i, 0 <= it i) ->
  (forall j, 0 <= j < n -> it j < vsize (docs_of j) -> better (j, it j) (m, it m) = false) ->
  y ∈ left_of it -> better y (m, it m) = false.
Proof.
  intros Hm Hlen Hit Hb Hy. apply entries_elem in Hy as [[H1 H2] H3]; [|done]. destruct y as [j q]. cbn [fst snd] in *.
  specialize (Hb j H1 ltac:(lia)). destruct (decide (q = it j)) as [->|Hne]; [done|].
  assert (better (j, q) (j, it j) = false) as Hs.
  { specialize (Hit j). apply (mb_sorted _ _ Hok j (it j) q); unfold is_entry; cbn; lia. }
  exact (sw_incomp _ _ _ Hb Hs).
Qed.

Lemma merge_topK_ok k picks it size customs0 geos0 m iter : vsize picks + Z.of_nat k = size -> Z.of_nat k <= vsize (left_of it) ->
  above_left picks it -> iter_ok iter it -> merged_ok picks size customs0 geos0 m ->
  exists picks' it' m', merge_topK ws (seqZ (vsize picks) (Z.of_nat k)) iter m = Ret m' /\ vsize picks' = size /\
    above_left picks' it' /\ merged_ok picks' size customs0 geos0 m'.
Proof.
  revert picks it m iter. induction k as [|k IH]; intros picks it m iter Hs Hk Ha Hi Hm.
  { exists picks, it, m. split; [done|]. split; [lia|]. by split. }
  rewrite seqZ_cons by lia. cbn [merge_topK]. destruct (find_max_spec iter it Hi) as (maxi & -> & Hb). cbn [res_bind].
  destruct Ha as (Hit & Hp & Hd & Hle). destruct maxi as [mx|]; cycle 1.
  { cbn in Hb. assert (left_of it = []) as E; [|rewrite E in Hk; unfold vsize in Hk; cbn in Hk; lia].
    destruct (left_of it) as [|y l] eqn:E; [done|]. assert (y ∈ left_of it) as Hy by (rewrite E; by left).
    apply entries_elem in Hy as [[H1 H2] H3]; [|done]. specialize (Hb y.1 H1). lia. }
  destruct Hb as (H1 & H2 & H3).
  destruct (take_head_ok picks size customs0 geos0 m iter it mx Hm ltac:(lia) Hi H1 H2) as (iter' & m' & -> & Hi' & Hm'). cbn [res_bind].
  pose proof (left_step it mx H1 (conj (Hit mx) H2)) as Hstep. set (it' := fun i => if i =? mx then it i + 1 else it i) in *.
  assert (forall i, 0 <= it' i) as Hit' by (intros i; specialize (Hit i); unfold it'; destruct (i =? mx); lia).
  assert ((mx, it mx) ∈ left_of it) as Hhead by (rewrite Hstep; by left).
  replace (Z.succ (vsize picks)) with (vsize (picks ++ [(mx, it mx)])) by (rewrite vsize_snoc; lia).
  replace (Z.pred (Z.of_nat (S k))) with (Z.of_nat k) by lia.
  apply (IH _ it'); [rewrite vsize_snoc; lia| | |done|done].
  - unfold vsize in *. rewrite Hstep in Hk. cbn in Hk. lia.
  - split; [done|]. split; [by rewrite <- app_assoc; cbn; rewrite <- Hstep|]. split.
    + apply descending_app; [done|by repeat constructor|]. intros x y Hx ->%list_elem_of_singleton. by apply Hle.
    + intros x y [Hx|Hx%list_elem_of_singleton]%elem_of_app Hy.
      * apply Hle; [done|]. rewrite Hstep. by right.
      * subst x. apply (better_head_all it); try done. rewrite Hstep. by right.
Qed.

(** The lists hold the [size] best documents in order. *)
Lemma merge_best size customs0 geos0 m0 : 0 <= size <= vsize entries -> merged_ok [] size customs0 geos0 m0 ->
  exists picks m, merge_topK ws (seqZ 0 size) (replicate (length ws) 0) m0 = Ret m /\
    best_of worse size entries picks /\ descending worse picks /\ merged_ok picks size customs0 geos0 m.
Proof.
  intros Hs Hm. destruct (merge_topK_ok (Z.to_nat size) [] (fun _ => 0) size customs0 geos0 m0 (replicate (length ws) 0))
    as (picks & it & m & E & Hsz & (Hit & Hp & Hd & Hle) & Hm'); try done.
  - change (vsize []) with 0. lia.
  - fold entries. lia.
  - split; [done|]. split; [done|]. split; [constructor|]. intros x y Hx. by apply elem_of_nil in Hx.
  - split; [unfold vsize; by rewrite length_replicate|]. intros i. split; [done|]. intros Hi. apply vget_Ret. split; [lia|].
    apply lookup_replicate_2. unfold vsize in Hi. lia.
  - exists picks, m. rewrite Z2Nat.id in E by lia. split; [exact E|]. split; [|by split]. split; [|by exists (left_of it)].
    lia.
Qed.
End Best.

(** ** The texts of the page *)
Section Page.
Context {T X : Type} (no_text : X).
Notation result := (DistResult T X).
Context (result0 : result) (pageCount : Z).
Hypothesis Hcount : 0 <= pageCount.
Notation displays := (vsize (snippetTextOfDocumentInPage_ (texts result0))).
Notation summaries := (vsize (rawTextOfSummaryInPage_ (texts result0))).

(** The text for property [dis] of place [offset] of what a worker answered. *)
Definition text_at (from : list (list X)) (dis offset : Z) : X :=
  default no_text (from !! Z.to_nat dis ≫= fun l => l !! Z.to_nat offset).

(** The places of the page are for [srcs], the others are empty. *)
Notation sources := (list (PageTexts X * Z)).
Definition place (sel : PageTexts X -> list (list X)) (srcs : sources) (dis j : Z) : X :=
  match srcs !! Z.to_nat j with Some s => text_at (sel s.1) dis s.2 | None => no_text end.
Definition row (sel : PageTexts X -> list (list X)) (srcs : sources) (dis : Z) : list X := map (place sel srcs dis) (seqZ 0 pageCount).
Definition table (sel : PageTexts X -> list (list X)) (srcs : sources) (size : Z) : list (list X) := map (row sel srcs) (seqZ 0 size).
Definition page_of (srcs : sources) : PageTexts X :=
  MkTexts (table snippetTextOfDocumentInPage_ srcs displays) (table fullTextOfDocumentInPage_ srcs displays) (table rawTextOfSummaryInPage_ srcs summaries).

Lemma place_snoc sel srcs s dis j : 0 <= j ->
  place sel (srcs ++ [s]) dis j = if j =? vsize srcs then text_at (sel s.1) dis s.2 else place sel srcs dis j.
Proof.
  intros Hj. unfold place. destruct (Z.eqb_spec j (vsize srcs)) as [->|Hne].
  - rewrite lookup_app_r by (unfold vsize; lia). by replace (Z.to_nat (vsize srcs) - length srcs)%nat with 0%nat by (unfold vsize; lia).
  - destruct (decide (j < vsize srcs)) as [H|H].
    + rewrite lookup_app_l by (unfold vsize in H; lia). done.
    + unfold vsize in *. rewrite (lookup_ge_None_2 srcs) by lia. rewrite lookup_ge_None_2; [done|]. rewrite length_app. cbn. lia.
Qed.

Lemma vresize_nil n : vresize n no_text [] = map (fun _ => no_text) (seqZ 0 n).
Proof.
  unfold vresize. rewrite take_nil. cbn [app length]. rewrite Nat.sub_0_r. apply list_eq. intros i. rewrite list_lookup_fmap.
  destruct (decide (i < Z.to_nat n)%nat) as [H|H].
  - rewrite lookup_replicate_2 by done. by rewrite lookup_seqZ_lt by lia.
  - rewrite lookup_seqZ_ge by lia. cbn. apply lookup_ge_None_2. rewrite length_replicate. lia.
Qed.

Lemma init_page : init_texts no_text result0 pageCount = page_of [].
Proof.
  assert (forall (sel : PageTexts X -> list (list X)) m, replicate m (vresize pageCount no_text []) = table sel [] (Z.of_nat m)) as H.
  { intros sel m. rewrite vresize_nil. unfold table. apply list_eq. intros i. rewrite list_lookup_fmap. destruct (decide (i < m)%nat) as [Hi|Hi].
    - rewrite lookup_replicate_2, lookup_seqZ_lt by lia. done.
    - rewrite lookup_seqZ_ge by lia. cbn. apply lookup_ge_None_2. rewrite length_replicate. lia. }
  unfold init_texts, page_of. f_equal; apply H.
Qed.

(** The properties before [dis] have the text of the new place. *)
Definition half (sel : PageTexts X -> list (list X)) (srcs : sources) (s : PageTexts X * Z) (size dis : Z) : list (list X) :=
  map (fun d => row sel (if d <? dis then srcs ++ [s] else srcs) d) (seqZ 0 size).

Lemma copy_text_ok sel srcs s size dis : vsize srcs < pageCount -> 0 <= s.2 -> 0 <= dis < size ->
  copy_text (sel s.1) s.2 (vsize srcs) dis (half sel srcs s size dis) = Ret (half sel srcs s size (dis + 1)).
Proof.
  intros Hlt Hs Hd. pose proof (vsize_nonneg srcs) as H0.
  assert (forall d, 0 <= d < size -> d <> dis -> row sel (if d <? dis then srcs ++ [s] else srcs) d = row sel (if d <? dis + 1 then srcs ++ [s] else srcs) d) as Hother.
  { intros d Hd2 Hne. by replace (d <? dis + 1) with (d <? dis) by (destruct (Z.ltb_spec d dis), (Z.ltb_spec d (dis + 1)); lia). }
  assert (text_at (sel s.1) dis s.2 = no_text -> half sel srcs s size dis = half sel srcs s size (dis + 1)) as Hnone.
  { intros E. apply map_ext_in. intros d Hin%list_elem_of_In%elem_of_seqZ. destruct (decide (d = dis)) as [->|Hne]; [|apply Hother; lia].
    rewrite Z.ltb_irrefl, (proj2 (Z.ltb_lt dis (dis + 1))) by lia. apply map_ext_in. intros j Hj%list_elem_of_In%elem_of_seqZ. rewrite place_snoc by lia.
    destruct (Z.eqb_spec j (vsize srcs)) as [->|]; [|done]. rewrite E. unfold place. by rewrite lookup_ge_None_2 by (unfold vsize; lia). }
  unfold copy_text. destruct (Z.ltb_spec dis (vsize (sel s.1))) as [H1|H1]; cycle 1.
  { f_equal. apply Hnone. unfold text_at. unfold vsize in H1. by rewrite lookup_ge_None_2 by lia. }
  destruct (vget_in_range (sel s.1) dis ltac:(lia)) as [l El]. rewrite El. cbn [res_bind]. apply vget_Ret in El as [_ El].
  destruct (Z.ltb_spec s.2 (vsize l)) as [H2|H2]; cycle 1.
  { f_equal. apply Hnone. unfold text_at. unfold vsize in H2. rewrite El. cbn. by rewrite lookup_ge_None_2 by lia. }
  destruct (vget_in_range l s.2 ltac:(lia)) as [x Ex]. rewrite Ex. cbn [res_bind]. apply vget_Ret in Ex as [_ Ex].
  unfold half. rewrite vget_map_seqZ by done. cbn [res_bind]. rewrite Z.ltb_irrefl. unfold row at 1. rewrite vset_map_seqZ by lia. cbn [res_bind].
  rewrite vset_map_seqZ by done. f_equal. apply map_ext_in. intros d Hin%list_elem_of_In%elem_of_seqZ.
  destruct (Z.eqb_spec d dis) as [->|Hne]; [|apply Hother; lia]. rewrite (proj2 (Z.ltb_lt dis (dis + 1))) by lia.
  apply map_ext_in. intros j Hj%list_elem_of_In%elem_of_seqZ. rewrite place_snoc by lia. unfold text_at. rewrite El. cbn [mbind option_bind]. by rewrite Ex.
Qed.

Lemma half_all sel srcs s size : half sel srcs s size size = table sel (srcs ++ [s]) size.
Proof. apply map_ext_in. intros d Hd%list_elem_of_In%elem_of_seqZ. by rewrite (proj2 (Z.ltb_lt d size)) by lia. Qed.

Lemma half_none sel srcs s size : half sel srcs s size 0 = table sel srcs size.
Proof. apply map_ext_in. intros d Hd%list_elem_of_In%elem_of_seqZ. by rewrite (proj2 (Z.ltb_ge d 0)) by lia. Qed.

Lemma copy_texts_ok srcs from offset : vsize srcs < pageCount -> 0 <= offset ->
  copy_texts result0 from offset (vsize srcs) (page_of srcs) = Ret (page_of (srcs ++ [(from, offset)])).
Proof.
  intros Hlt Ho. unfold copy_texts, page_of. cbn [snippetTextOfDocumentInPage_ fullTextOfDocumentInPage_ rawTextOfSummaryInPage_]. set (s := (from, offset)).
  pose proof (vsize_nonneg (snippetTextOfDocumentInPage_ (texts result0))). pose proof (vsize_nonneg (rawTextOfSummaryInPage_ (texts result0))).
  edestruct (mfold_seqZ (fun dis '(snippet, full) =>
      let* snippet := copy_text (snippetTextOfDocumentInPage_ from) offset (vsize srcs) dis snippet in
      let* full := copy_text (fullTextOfDocumentInPage_ from) offset (vsize srcs) dis full in
      Ret (snippet, full)) (fun dis st => st = (half snippetTextOfDocumentInPage_ srcs s displays dis, half fullTextOfDocumentInPage_ srcs s displays dis)))
    with (lo := 0) (n := displays) as (st & -> & ->); [done| |by rewrite !half_none|].
  { intros dis st Hd ->. rewrite (copy_text_ok snippetTextOfDocumentInPage_ srcs s) by (done || lia). cbn [res_bind].
    rewrite (copy_text_ok fullTextOfDocumentInPage_ srcs s) by (done || lia). by eexists. }
  edestruct (mfold_seqZ (copy_text (rawTextOfSummaryInPage_ from) offset (vsize srcs)) (fun dis st => st = half rawTextOfSummaryInPage_ srcs s summaries dis))
    with (lo := 0) (n := summaries) as (st & -> & ->); [done| |by rewrite half_none|].
  { intros dis st Hd ->. eexists. split; [|done]. by apply (copy_text_ok rawTextOfSummaryInPage_ srcs s); [|done|lia]. }
  cbn [res_bind]. by rewrite !Z.add_0_l, !half_all.
Qed.
End Page.

(** ** The answer of the merger *)
Section Answer.
Context {T X QA : Type} `{!WideDocId, !TextOrder T, !PQueue QA (T * spec_float)}.
Context (roundDown : Z -> Z -> Z) (no_text : X).
Notation result := (DistResult T X).
Implicit Types (ws : list (Z * result)).

Definition total_of (f : KeywordSearchResult (T := T) -> Z) ws : Z := foldr (fun w s => f (main w.2) + s) 0 ws.
Definition merge_rep (w : Z * result) (rep : GroupRep T) : res (GroupRep T) := let* (rep, _) := GroupRep.merge rep (groupRep_ (main w.2)) in Ret rep.

Lemma u64_add a b : u64 (u64 a + b) = u64 (a + b).
Proof. unfold u64. by rewrite Zplus_mod_idemp_l. Qed.

Lemma u64_twice a : u64 (u64 a) = u64 a.
Proof. apply u64_small, u64_range. Qed.

Lemma gather_ok ws : forall g rep, mfold merge_rep ws (g_groupRep g) = Ret rep -> g_totalCount g = u64 (g_totalCount g) -> totalTopKCount g = u64 (totalTopKCount g) ->
  exists g', mfold gather ws g = Ret g' /\ g_groupRep g' = rep /\
    is_need_get_docs g' = existsb (fun w => negb (include_summary_data_ w.2)) ws || is_need_get_docs g /\
    g_totalCount g' = u64 (g_totalCount g + total_of totalCount_ ws) /\
    totalTopKCount g' = u64 (totalTopKCount g + total_of (fun r => vsize (topKDocs_ r)) ws) /\
    hasCustomRankScore g' = hasCustomRankScore g || existsb (fun w => negb (is_nil (topKCustomRankScoreList_ (main w.2)))) ws /\
    hasGeoDistance g' = hasGeoDistance g || existsb (fun w => negb (is_nil (topKGeoDistanceList_ (main w.2)))) ws /\
    g_counters g' = foldl (fun c w => merge_counters c (counterResults_ (main w.2))) (g_counters g) ws /\
    g_labels g' = foldl (fun l w => mergeScoreGroupLabel l (autoSelectGroupLabels_ w.2) w.1) (g_labels g) ws.
Proof.
  induction ws as [|w ws IH]; intros g rep Hrep Ht Hk; cbn [mfold] in *.
  - injection Hrep as <-. exists g. cbn. rewrite !Z.add_0_r, !orb_false_r. by split_and!.
  - apply bind_Ret_inv in Hrep as (rep1 & E1 & Hrep). unfold merge_rep in E1. apply bind_Ret_inv in E1 as ([rep2 o] & E2 & [= <-]).
    unfold gather at 1. rewrite E2. cbn [res_bind].
    match goal with |- context [mfold gather ws ?g1] =>
      destruct (IH g1 rep Hrep) as (g' & E & H1 & H2 & H3 & H4 & H5 & H6 & H7 & H8); [symmetry; apply u64_twice..|] end.
    exists g'. split; [exact E|]. cbn [is_need_get_docs g_totalCount totalTopKCount hasCustomRankScore hasGeoDistance g_counters g_labels] in *.
    cbn [existsb total_of foldr foldl]. fold (total_of totalCount_ ws) (total_of (fun r => vsize (topKDocs_ r)) ws).
    rewrite u64_add in H3, H4. split_and!; try done.
    + rewrite H2. by destruct (negb _), (existsb _ ws).
    + rewrite H3. f_equal. lia.
    + rewrite H4. f_equal. lia.
    + rewrite H5. by rewrite orb_assoc.
    + rewrite H6. by rewrite orb_assoc.
Qed.

Lemma docs_of_all ws : map (docs_of ws) (seqZ 0 (vsize ws)) = map (fun w => topKDocs_ (main w.2)) ws.
Proof.
  apply list_eq. intros i. rewrite !list_lookup_fmap. destruct (ws !! i) as [w|] eqn:E.
  - pose proof (lookup_lt_Some _ _ _ E). rewrite lookup_seqZ_lt by (unfold vsize; lia). cbn [fmap option_fmap option_map]. unfold docs_of. by rewrite Z.add_0_l, Nat2Z.id, E.
  - apply lookup_ge_None in E. by rewrite lookup_seqZ_ge by (unfold vsize; lia).
Qed.

Lemma vsize_entries ws : vsize (entries ws) = total_of (fun r => vsize (topKDocs_ r)) ws.
Proof.
  unfold entries, left_of. transitivity (foldr Z.add 0 (map (fun l => vsize l) (map (docs_of ws) (seqZ 0 (vsize ws))))).
  - induction (seqZ 0 (vsize ws)) as [|i l IH]; [done|]. cbn [map concat foldr]. rewrite vsize_app, IH. f_equal.
    unfold vsize. rewrite length_map, length_seqZ. lia.
  - rewrite docs_of_all. clear. induction ws as [|w ws IH]; [done|]. cbn [map foldr total_of]. by rewrite IH.
Qed.

Lemma each_Ret {A} (l : list A) : each Ret l = Ret l.
Proof. apply each_Forall2. induction l; by constructor. Qed.

Lemma vsize_vresize {A} n (d : A) l : 0 <= n -> vsize (vresize n d l) = n.
Proof. intros Hn. unfold vsize, vresize. rewrite length_app, length_take, length_replicate. lia. Qed.

Lemma filled_nil {A} (f : Z * Z -> res A) n d l : 0 <= n -> filled f [] n (vresize n d l).
Proof. intros Hn. split; [by apply vsize_vresize|done]. Qed.

(** *** The texts *)
Definition source_at ws (x : Z * Z) : res (PageTexts X * Z) := let* (_, r) := vget ws x.1 in Ret (texts r, x.2).

Definition page_count (start count n : Z) : Z := if start <? n then Z.min count (n - start) else 0.
Definition page_picks {A} (start count : Z) (picks : list A) : list A :=
  take (Z.to_nat (page_count start count (vsize picks))) (drop (Z.to_nat start) picks).

Lemma merge_page_ok r0 ws better customs geos picks customs0 geos0 m start count : merged_ok ws customs geos picks (vsize picks) customs0 geos0 m ->
  mergeable ws better customs geos -> Forall (is_entry ws) picks -> 0 <= start -> 0 <= count -> vsize picks < 2 ^ 64 ->
  exists srcs, each (source_at ws) (page_picks start count picks) = Ret srcs /\
    merge_page no_text r0 ws m start count = Ret (page_of no_text r0 (page_count start count (vsize picks)) srcs).
Proof.
  intros [[Hd _] _ _ _ _ [Ho Eo]] Hok Hall Hs Hc Hn. unfold merge_page. rewrite Hd.
  assert (pageOffsetInWorker m = picks) as ->.
  { rewrite each_Ret in Eo. injection Eo as Eo. rewrite take_ge in Eo by (unfold vsize in Ho; lia). done. }
  fold (page_count start count (vsize picks)). set (pc := page_count start count (vsize picks)).
  assert (0 <= pc /\ (0 < pc -> start + pc <= vsize picks)) as [Hpc Hend] by (unfold pc, page_count; destruct (Z.ltb_spec start (vsize picks)); lia).
  pose proof (vsize_nonneg picks) as Hp0.
  assert (Z.min (vsize picks) (u64 (start + pc)) - start = pc \/ (pc = 0 /\ Z.min (vsize picks) (u64 (start + pc)) - start <= 0)) as Hlen.
  { destruct (decide (start < vsize picks)); [left; rewrite u64_small; lia|right]. unfold pc, page_count. rewrite (proj2 (Z.ltb_ge _ _)) by lia. lia. }
  assert (seqZ start (Z.min (vsize picks) (u64 (start + pc)) - start) = seqZ start pc) as ->.
  { destruct Hlen as [->|[Epc Hneg]]; [done|]. by rewrite !seqZ_nil by lia. }
  rewrite init_page by done.
  edestruct (mfold_seqZ (fun topkIndex to => let* (curWorker, workerOffset) := vget picks topkIndex in let* (_, r) := vget ws curWorker in
      copy_texts r0 (texts r) workerOffset (topkIndex - start) to)
    (fun t st => exists srcs, each (source_at ws) (take (Z.to_nat (t - start)) (drop (Z.to_nat start) picks)) = Ret srcs /\ vsize srcs = t - start /\
       st = page_of no_text r0 pc srcs) start pc (page_of no_text r0 pc [])) as (st & -> & srcs & E & _ & ->); [done| | |].
  - intros t st Ht (srcs & E & Hsz & ->). destruct (vget_in_range picks t) as [[i p] Ei]; [lia|]. rewrite Ei. cbn [res_bind].
    apply vget_Ret in Ei as [_ Ei]. rewrite Forall_lookup in Hall. destruct (Hall _ _ Ei) as [H1 H2]. cbn [fst snd] in H1, H2.
    destruct (worker_of ws i H1) as ([w r] & Er & _). rewrite Er. cbn [res_bind]. rewrite <- Hsz, copy_texts_ok by lia.
    eexists. split; [done|]. exists (srcs ++ [(texts r, p)]). split; [|split; [rewrite vsize_snoc; lia|done]].
    replace (Z.to_nat (t + 1 - start)) with (S (Z.to_nat (t - start))) by lia.
    rewrite (take_S_r _ _ (i, p)) by (rewrite lookup_drop; by replace (Z.to_nat start + Z.to_nat (t - start))%nat with (Z.to_nat t) by lia).
    apply each_snoc; [done|]. unfold source_at. cbn [fst snd]. by rewrite Er.
  - exists []. rewrite Z.sub_diag. done.
  - exists srcs. unfold page_picks. fold pc. by replace (start + pc - start) with pc in E by lia.
Qed.

(** *** The whole answer *)
Definition merge_attrs ws : res (list (item T) * list (list (item T))) :=
  match ws with
  | (_, r) :: ws => OntologyRep.merge (Q := QA) 0 (attrRep_ (main r)) (map (fun w => attrRep_ (main w.2)) ws)
  | [] => Undef
  end.

Definition ranks_custom ws : bool := existsb (fun w => negb (is_nil (topKCustomRankScoreList_ (main w.2)))) ws.
Definition ranks_geo ws : bool := existsb (fun w => negb (is_nil (topKGeoDistanceList_ (main w.2)))) ws.

(** The answer [r] for the workers [ws], of which [r0] is the first, lists the
    documents [picks]. *)
Record merge_answer (better : Z * Z -> Z * Z -> bool) ws (r0 m r : result) (picks : list (Z * Z)) : Prop := {
  ma_best : best_of (worse better) (topK_count roundDown (start_ r0) (TOP_K_NUM r0) (vsize (entries ws))) (entries ws) picks;
  ma_sorted : descending (worse better) picks;
  ma_docs : each (doc_at ws) picks = Ret (topKDocs_ (main r));
  ma_workers : each (worker_at ws) picks = Ret (topKWorkerIds_ r);
  ma_scores : each (score_at ws) picks = Ret (topKRankScoreList_ (main r));
  ma_customs : ranks_custom ws = true -> each (custom_at ws) picks = Ret (topKCustomRankScoreList_ (main r));
  ma_geos : ranks_geo ws = true -> each (geo_at ws) picks = Ret (topKGeoDistanceList_ (main r));
  ma_total : totalCount_ (main r) = u64 (total_of totalCount_ ws);
  ma_counters : counterResults_ (main r) = foldl (fun c w => merge_counters c (counterResults_ (main w.2))) (counterResults_ (main m)) ws;
  ma_group : mfold merge_rep ws (groupRep_ (main m)) = Ret (groupRep_ (main r));
  ma_attr : fst <$> merge_attrs ws = Ret (attrRep_ (main r));
  ma_start : start_ r = start_ r0 /\ count_ r = count_ r0 /\ TOP_K_NUM r = TOP_K_NUM r0;
  ma_include : include_summary_data_ r = forallb (fun w => include_summary_data_ w.2) ws;
  ma_page : include_summary_data_ r = true -> exists srcs, each (source_at ws) (page_picks (start_ r0) (count_ r0) picks) = Ret srcs /\
    texts r = page_of no_text r0 (page_count (start_ r0) (count_ r0) (vsize picks)) srcs
}.

Lemma keep_first w0 r0 ws : exists r1 l, keep_largest r0 ((w0, r0) :: ws) = (w0, r1) :: l /\ length l = length ws /\
  (forall srcs n, page_of no_text r1 n srcs = page_of no_text r0 n srcs).
Proof.
  unfold keep_largest. destruct (existsb _ _); [|by exists r0, ws]. set (f := fun w : Z * result => _). assert (exists r1, f (w0, r0) = (w0, r1) /\
    (r1 = r0 \/ r1 = emptyWorkerResult r0)) as (r1 & E & Hr) by (unfold f; cbn [fst snd]; destruct (_ <? _); eauto).
  exists r1, (map f ws). cbn [map]. rewrite E, length_map. split_and!; [done|done|]. destruct Hr as [->| ->]; [done|]. intros srcs n.
  unfold page_of, emptyWorkerResult. cbn [texts snippetTextOfDocumentInPage_ rawTextOfSummaryInPage_]. unfold vsize. by rewrite !length_map.
Qed.

Lemma filled_all {A} (f : Z * Z -> res A) picks l : filled f picks (vsize picks) l -> each f picks = Ret l.
Proof. intros [Hs He]. rewrite He. f_equal. apply take_ge. unfold vsize in Hs. lia. Qed.

Lemma merge_result (better : Z * Z -> Z * Z -> bool) `{!StrictWeak better} w0 r0 w1 ws (m : result) live :
  live = keep_largest r0 ((w0, r0) :: w1 :: ws) -> first_worker_error ((w0, r0) :: w1 :: ws) = None ->
  mergeable live better (ranks_custom live) (ranks_geo live) ->
  (exists rep, mfold merge_rep live (groupRep_ (main m)) = Ret rep) -> (exists attr, merge_attrs live = Ret attr) ->
  (forall a b, 0 <= a -> 0 <= roundDown a b) -> 0 <= start_ r0 -> 0 <= count_ r0 -> vsize (entries live) < 2 ^ 64 ->
  exists r picks, getDistSearchResult (QA := QA) roundDown no_text ((w0, r0) :: w1 :: ws) m = Ret r /\ merge_answer better live r0 m r picks.
Proof.
  intros El He Hok [rep Hrep] [[attr o] Hattr] Hround Hs Hc Hsz. destruct (keep_first w0 r0 (w1 :: ws)) as (r1 & l & Ek & Hl & Hpage).
  unfold getDistSearchResult. rewrite He. rewrite !vsize_cons. replace (1 + (1 + vsize ws) =? 1) with false by (pose proof (vsize_nonneg ws); destruct (Z.eqb_spec (1 + (1 + vsize ws)) 1); lia).
  cbv zeta. rewrite <- El. assert (vget live 0 = Ret (w0, r1)) as -> by (by rewrite El, Ek). cbn [res_bind].
  destruct (gather_ok live (Build_Gathered false 0 0 false false FLT_MAX FLT_MIN (groupRep_ (main m)) (autoSelectGroupLabels_ m) (counterResults_ (main m))) rep Hrep)
    as (g & -> & Hg1 & Hg2 & Hg3 & Hg4 & Hg5 & Hg6 & Hg7 & Hg8); [done..|]. cbn [res_bind is_need_get_docs g_totalCount totalTopKCount hasCustomRankScore hasGeoDistance g_counters g_labels] in *.
  assert (OntologyRep.merge (Q := QA) 0 (attrRep_ (main r1)) (map (fun w => attrRep_ (main w.2)) (tail live)) = Ret (attr, o)) as ->
    by (by rewrite El, Ek in Hattr |- *). cbn [res_bind].
  rewrite <- vsize_entries, Z.add_0_l in Hg4. pose proof (vsize_nonneg (entries live)). rewrite u64_small in Hg4 by lia. rewrite Hg4.
  set (size := topK_count roundDown (start_ r0) (TOP_K_NUM r0) (vsize (entries live))).
  assert (0 <= size <= vsize (entries live)) as Hsize.
  { unfold size, topK_count. pose proof (u64_range (TOP_K_NUM r0)). pose proof (Hround (start_ r0) (TOP_K_NUM r0) Hs).
    destruct (Z.ltb_spec (roundDown (start_ r0) (TOP_K_NUM r0)) (vsize (entries live))); lia. }
  match goal with |- context [merge_topK live (seqZ 0 size) _ ?m0] =>
    destruct (merge_best live better (ranks_custom live) (ranks_geo live) Hok size (m_customs m0) (m_geos m0) m0 Hsize) as (picks & mg & -> & Hbest & Hdesc & Hm) end.
  { rewrite Hg5, Hg6. cbn [orb]. fold (ranks_custom live) (ranks_geo live). split; cbn [m_docs m_workers m_scores m_customs m_geos pageOffsetInWorker]; try (apply filled_nil; lia).
    - destruct (ranks_custom live); [apply filled_nil; lia|done].
    - destruct (ranks_geo live); [apply filled_nil; lia|done]. }
  cbn [res_bind]. assert (size = vsize picks) as Esz by (destruct Hbest as [-> _]; lia).
  assert (Forall (is_entry live) picks) as Hall.
  { destruct Hbest as (_ & rest & Hp & _). apply Forall_forall. intros x Hx. apply (entries_elem live (fun _ => 0)); [done|]. fold (entries live). rewrite Hp. apply elem_of_app. by left. }
  rewrite Esz in Hm. destruct (merge_page_ok r1 live better _ _ picks _ _ mg (start_ r0) (count_ r0) Hm Hok Hall Hs Hc ltac:(lia)) as (srcs & Esrc & Epage).
  destruct Hm as [M1 M2 M3 M4 M5 M6]. apply filled_all in M1, M2, M3.
  assert (exists t, (if is_need_get_docs g then Ret (texts m) else merge_page no_text r1 live mg (start_ r0) (count_ r0)) = Ret t /\
    (is_need_get_docs g = false -> t = page_of no_text r0 (page_count (start_ r0) (count_ r0) (vsize picks)) srcs)) as (t & -> & Ht).
  { destruct (is_need_get_docs g); [by eexists|]. rewrite Epage, Hpage. by eexists. }
  cbn [res_bind]. eexists _, picks. split; [done|]. split; cbn [main topKDocs_ topKRankScoreList_ topKCustomRankScoreList_ topKGeoDistanceList_ totalCount_ counterResults_ groupRep_ attrRep_
    topKWorkerIds_ start_ count_ TOP_K_NUM include_summary_data_ texts]; try done.
  - intros E. rewrite E in M4. by apply filled_all.
  - intros E. rewrite E in M5. by apply filled_all.
  - by rewrite Hg1.
  - by rewrite Hattr.
  - rewrite Hg2, orb_false_r. clear. induction live as [|w live IH]; [done|]. cbn. rewrite <- IH. by destruct (include_summary_data_ w.2).
  - intros E. exists srcs. split; [done|]. apply Ht. by destruct (is_need_get_docs g).
Qed.

End Answer.

(** ** Searches ranked by score *)

(** The order of two documents of workers: by the scores as the workers answer
    them, and by the wide ids if these are equal. *)
Section Rank.
Context `{!WideDocId}.
Notation hit := (Z * ScoreDoc)%type.

Definition rank (x : hit) : spec_float := double_to_float (score x.2).
Definition wide (x : hit) : Z := GetWDocId x.1 (docId x.2).
Definition rank_above (x y : hit) : bool := klt (rank y) (rank x) || (negb (klt (rank x) (rank y)) && IsNewerDocId (wide x) (wide y)).

Lemma rank_above_weak : StrictWeak IsNewerDocId -> StrictWeak rank_above.
Proof.
  intros Hn. apply (lex_weak (fun x y => klt (rank y) (rank x)) (fun x y => IsNewerDocId (wide x) (wide y))).
  - apply (flip_weak (fun x y => klt (rank x) (rank y))). apply klt_weak.
  - by apply on_weak.
Qed.

(** Scores are apart by more than the least difference, or equal. *)
Definition apart (x y : hit) : Prop :=
  is_num (rank x) = true /\ is_num (rank y) = true /\ float_same (rank x) (rank y) = negb (klt (rank x) (rank y)) && negb (klt (rank y) (rank x)).

Lemma greaterThan_rank l1 i1 w1 l2 i2 w2 x y : vget l1 i1 = Ret (rank x) -> vget l2 i2 = Ret (rank y) -> apart x y -> w1 = wide x -> w2 = wide y ->
  greaterThan [PropertyData "RANK" false DATA_TYPE_FLOAT (FloatList l1)] i1 w1 [PropertyData "RANK" false DATA_TYPE_FLOAT (FloatList l2)] i2 w2 = Ret (rank_above x y).
Proof.
  intros E1 E2 (Hx & Hy & Ha) -> ->. cbn [greaterThan sp_dataType sp_dataList sp_reverse]. rewrite bool_decide_eq_true_2 by done.
  rewrite E1. cbn [res_bind]. rewrite E2. cbn [res_bind]. rewrite Ha, klt_flt by done. unfold rank_above.
  pose proof (sw_asym (fun a b : spec_float => klt a b) (rank x) (rank y)) as Has. cbv beta in Has.
  by destruct (klt (rank x) (rank y)), (klt (rank y) (rank x)).
Qed.
End Rank.

Section Shards.
Context {T X QA : Type} `{!WideDocId, !TextOrder T, !PQueue QA (T * spec_float)}.
Context (roundDown : Z -> Z -> Z) (no_text : X).
Notation result := (DistResult T X).
Notation hit := (Z * ScoreDoc)%type.

(** A worker [sh_worker] that accepted and scored [sh_hits], and answered
    [sh_result]. *)
Record shard := Shard { sh_worker : Z; sh_hits : list ScoreDoc; sh_result : result }.
Definition answer_of (s : shard) : Z * result := (sh_worker s, sh_result s).
Definition hits_of (s : shard) : list hit := map (pair (sh_worker s)) (sh_hits s).

(** The answer lists the best [k] of the hits, in the order [lt] of the queue of
    the worker; they are ranked by their score only. *)
Record shard_ok (k : Z) (lt : ScoreDoc -> ScoreDoc -> bool) (s : shard) : Prop := {
  sd_docs : topKDocs_ (main (sh_result s)) = map docId (take (Z.to_nat k) (sort_desc lt (sh_hits s)));
  sd_scores : topKRankScoreList_ (main (sh_result s)) = map (fun d => double_to_float (score d)) (take (Z.to_nat k) (sort_desc lt (sh_hits s)));
  sd_total : totalCount_ (main (sh_result s)) = vsize (sh_hits s);
  sd_customs : topKCustomRankScoreList_ (main (sh_result s)) = [];
  sd_geos : topKGeoDistanceList_ (main (sh_result s)) = [];
  sd_data : sortPropertyList_ (sortData_ (main (sh_result s))) = [];
  sd_weak : StrictWeak lt;
  sd_order : forall x y, x ∈ sh_hits s -> y ∈ sh_hits s -> lt x y = rank_above (sh_worker s, y) (sh_worker s, x)
}.

Context (shards : list shard) (k : Z) (lt : ScoreDoc -> ScoreDoc -> bool).
Hypothesis Hk : 0 <= k < 2 ^ 64.
Hypothesis Hshards : Forall (shard_ok k lt) shards.
Hypothesis Hnewer : StrictWeak IsNewerDocId.
Notation all_hits := (concat (map hits_of shards)).
Hypothesis Hapart : forall x y, x ∈ all_hits -> y ∈ all_hits -> apart x y.
Notation ws := (map answer_of shards).
#[local] Instance shards_weak : StrictWeak rank_above := rank_above_weak Hnewer.

Definition below (x y : hit) : bool := rank_above y x.
#[local] Instance below_weak : StrictWeak below.
Proof. exact (flip_weak rank_above shards_weak). Qed.

Definition page_hits (s : shard) : list hit := map (pair (sh_worker s)) (take (Z.to_nat k) (sort_desc lt (sh_hits s))).

(** The document that a worker answered at a place. *)
Definition hit_at (x : Z * Z) : hit :=
  default (0, Doc 0 d0 d0 d0) (shards !! Z.to_nat x.1 ≫= fun s => page_hits s !! Z.to_nat x.2).

Definition rank_better (x y : Z * Z) : bool := rank_above (hit_at x) (hit_at y).
#[local] Instance rank_better_weak : StrictWeak rank_better.
Proof. exact (on_weak hit_at rank_above _). Qed.

Lemma take_best {A} (le : A -> A -> bool) `{!StrictWeak le} j l : 0 <= j -> best_of le j l (take (Z.to_nat j) (sort_desc le l)).
Proof.
  intros Hj. pose proof (sort_desc_perm le l) as Hp. split.
  - unfold vsize. rewrite length_take, Hp. lia.
  - exists (drop (Z.to_nat j) (sort_desc le l)). rewrite take_drop. split; [by rewrite sort_desc_perm|].
    pose proof (sort_desc_sorted le l) as Hs. rewrite <- (take_drop (Z.to_nat j) (sort_desc le l)) in Hs.
    intros x y Hx Hy. exact (StronglySorted_app_1_elem_of (fun a b => le a b = false) _ _ _ _ Hs Hx Hy).
Qed.

Lemma best_of_map {A B} (f : A -> B) (le : A -> A -> bool) (le' : B -> B -> bool) j l r : (forall x y, x ∈ l -> y ∈ l -> le x y = false -> le' (f x) (f y) = false) ->
  best_of le j l r -> best_of le' j (map f l) (map f r).
Proof.
  intros Hf (Hs & rest & Hp & Hle). split; [unfold vsize in *; by rewrite !length_map|]. exists (map f rest). split.
  - rewrite <- map_app. by apply Permutation_map.
  - intros x y (x' & -> & Hx)%list_elem_of_fmap (y' & -> & Hy)%list_elem_of_fmap. apply Hf; [rewrite Hp; apply elem_of_app; by left|rewrite Hp; apply elem_of_app; by right|by apply Hle].
Qed.

Lemma descending_map {A B} (f : A -> B) (le : A -> A -> bool) (le' : B -> B -> bool) l : (forall x y, x ∈ l -> y ∈ l -> le x y = false -> le' (f x) (f y) = false) ->
  descending le l -> descending le' (map f l).
Proof.
  intros Hf Hd. induction Hd as [|a l Hd IH Ha]; cbn; constructor.
  - apply IH. intros x y Hx Hy. apply Hf; by right.
  - apply Forall_forall. intros y (y' & -> & Hy)%list_elem_of_fmap. apply Hf; [by left|by right|]. by apply (proj1 (Forall_forall _ _) Ha).
Qed.

Lemma descending_lookup {A} (le : A -> A -> bool) l p q x y : descending le l -> l !! p = Some x -> l !! q = Some y -> (p < q)%nat -> le x y = false.
Proof.
  intros Hd Hx Hy Hpq. unfold descending in Hd. rewrite <- (take_drop q l) in Hd. apply (StronglySorted_app_1_elem_of (fun a b => le a b = false) _ _ _ _ Hd).
  - apply (list_elem_of_lookup_2 _ p). by rewrite lookup_take_lt.
  - apply (list_elem_of_lookup_2 _ 0). by rewrite lookup_drop, Nat.add_0_r.
Qed.

(** *** The pages of the workers *)
Lemma shard_lookup s : s ∈ shards -> shard_ok k lt s.
Proof. intros Hs. rewrite Forall_forall in Hshards. by apply Hshards. Qed.

Lemma page_sub s x : x ∈ page_hits s -> x ∈ hits_of s.
Proof.
  intros (d & -> & Hd)%list_elem_of_fmap. apply list_elem_of_fmap. exists d. split; [done|].
  apply elem_of_take in Hd as (i & Hd & _). apply list_elem_of_lookup_2 in Hd. by rewrite sort_desc_perm in Hd.
Qed.

Lemma hits_in s x : s ∈ shards -> x ∈ hits_of s -> x ∈ all_hits.
Proof. intros Hs Hx. apply list_elem_of_In, in_concat. exists (hits_of s). split; [|by apply list_elem_of_In]. apply in_map_iff. exists s. split; [done|by apply list_elem_of_In]. Qed.

Lemma page_best s : s ∈ shards -> best_of below k (hits_of s) (page_hits s).
Proof.
  intros Hs. destruct (shard_lookup s Hs) as [_ _ _ _ _ _ Hw Ho]. apply (best_of_map (pair (sh_worker s)) lt below).
  - intros x y Hx Hy. rewrite Ho by done. done.
  - apply take_best; [done|lia].
Qed.

Lemma pages_best : Forall2 (best_of below k) (map hits_of shards) (map page_hits shards).
Proof.
  pose proof page_best as H0. clear - H0. induction shards as [|s l IH]; cbn; constructor; [apply H0; by left|]. apply IH. intros s' Hs'. apply H0. by right.
Qed.

Lemma page_sorted s i p q x y : s ∈ shards -> page_hits s !! p = Some x -> page_hits s !! q = Some y -> (p < q)%nat -> i = sh_worker s -> rank_above y x = false.
Proof.
  intros Hs Hx Hy Hpq _. destruct (shard_lookup s Hs) as [_ _ _ _ _ _ Hw Ho].
  apply list_lookup_fmap_Some in Hx as (d & -> & Hx), Hy as (e & -> & Hy).
  apply lookup_take_Some in Hx as [Hx _], Hy as [Hy _]. rewrite <- Ho.
  - pose proof (sort_desc_sorted lt (sh_hits s)) as Hd. by apply (descending_lookup lt _ p q _ _ Hd).
  - rewrite <- (sort_desc_perm lt (sh_hits s)). by eapply list_elem_of_lookup_2.
  - rewrite <- (sort_desc_perm lt (sh_hits s)). by eapply list_elem_of_lookup_2.
Qed.

(** *** The merged answer *)
Lemma shard_at i : 0 <= i < vsize ws -> exists s, shards !! Z.to_nat i = Some s /\ s ∈ shards /\ vget ws i = Ret (answer_of s).
Proof.
  intros Hi. unfold vsize in Hi. rewrite length_map in Hi. destruct (lookup_lt_is_Some_2 shards (Z.to_nat i)) as [s Es]; [lia|].
  exists s. split; [done|]. split; [by eapply list_elem_of_lookup_2|]. apply vget_Ret. split; [lia|]. by rewrite list_lookup_fmap, Es.
Qed.

Lemma shard_docs i s : shards !! Z.to_nat i = Some s -> docs_of ws i = map (fun h => docId h.2) (page_hits s).
Proof.
  intros Es. pose proof (shard_lookup s ltac:(by eapply list_elem_of_lookup_2)) as [Hd _ _ _ _ _ _ _]. unfold docs_of.
  rewrite list_lookup_fmap, Es. cbn [fmap option_fmap option_map answer_of snd]. rewrite Hd. unfold page_hits. by rewrite map_map.
Qed.

Lemma hit_entry x : is_entry ws x -> exists s, shards !! Z.to_nat x.1 = Some s /\ s ∈ shards /\ vget ws x.1 = Ret (answer_of s) /\
  page_hits s !! Z.to_nat x.2 = Some (hit_at x) /\ 0 <= x.2.
Proof.
  intros [H1 H2]. destruct (shard_at x.1 H1) as (s & Es & Hs & Ev). exists s. rewrite (shard_docs _ _ Es) in H2. unfold vsize in H2. rewrite length_map in H2.
  destruct (lookup_lt_is_Some_2 (page_hits s) (Z.to_nat x.2)) as [h Eh]; [lia|]. split_and!; try done; [|lia]. unfold hit_at. rewrite Es. cbn [mbind option_bind]. by rewrite Eh.
Qed.

Lemma hit_scores s : s ∈ shards -> topKRankScoreList_ (main (sh_result s)) = map rank (page_hits s) /\ topKDocs_ (main (sh_result s)) = map (fun h => docId h.2) (page_hits s).
Proof. intros Hs. destruct (shard_lookup s Hs) as [Hd Hsc _ _ _ _ _ _]. unfold page_hits. by rewrite !map_map, Hd, Hsc. Qed.

Lemma hit_worker s h : h ∈ page_hits s -> h.1 = sh_worker s.
Proof. by intros (d & -> & _)%list_elem_of_fmap. Qed.

Lemma doc_hit x : is_entry ws x -> doc_at ws x = Ret (docId (hit_at x).2) /\ worker_at ws x = Ret (hit_at x).1 /\ score_at ws x = Ret (rank (hit_at x)).
Proof.
  intros Hx. destruct (hit_entry x Hx) as (s & Es & Hs & Ev & Eh & H0). unfold doc_at, worker_at, score_at. rewrite Ev. cbn [res_bind answer_of].
  destruct (hit_scores s Hs) as [-> ->]. split_and!.
  - apply vget_Ret. split; [done|]. by rewrite list_lookup_fmap, Eh.
  - f_equal. symmetry. apply hit_worker. by eapply list_elem_of_lookup_2.
  - apply vget_Ret. split; [done|]. by rewrite list_lookup_fmap, Eh.
Qed.

Lemma rank_comparator i s : shards !! Z.to_nat i = Some s -> 0 <= i -> page_hits s <> [] ->
  vget (comparators ws) i = Ret [PropertyData "RANK" false DATA_TYPE_FLOAT (FloatList (map rank (page_hits s)))].
Proof.
  intros Es Hi Hne. pose proof (list_elem_of_lookup_2 _ _ _ Es) as Hs. destruct (shard_lookup s Hs) as [_ _ _ _ _ Hdata _ _].
  apply vget_Ret. split; [done|]. unfold comparators. rewrite list_lookup_fmap, list_lookup_fmap, Es. cbn [fmap option_fmap option_map answer_of snd]. f_equal.
  unfold DocumentComparator. rewrite Hdata. cbn [omap list_omap fst snd]. unfold property_data. cbn [String.eqb Ascii.eqb Bool.eqb].
  destruct (hit_scores s Hs) as [-> _]. by destruct (page_hits s).
Qed.

Lemma rank_heads x y : is_entry ws x -> is_entry ws y -> head_greater ws x.1 x.2 y.1 y.2 = Ret (rank_better x y).
Proof.
  intros Hx Hy. destruct (hit_entry x Hx) as (s & Es & Hs & Ev & Eh & H0), (hit_entry y Hy) as (s' & Es' & Hs' & Ev' & Eh' & H0').
  unfold head_greater. rewrite Ev. cbn [res_bind answer_of]. rewrite Ev'. cbn [res_bind answer_of].
  assert (forall z s h, page_hits s !! Z.to_nat z = Some h -> 0 <= z -> s ∈ shards -> vget (topKDocs_ (main (sh_result s))) z = Ret (docId h.2)) as Hd.
  { intros z s1 h E Hz Hin. destruct (hit_scores s1 Hin) as [_ ->]. apply vget_Ret. split; [done|]. by rewrite list_lookup_fmap, E. }
  rewrite (Hd _ _ _ Eh) by done. cbn [res_bind]. rewrite (Hd _ _ _ Eh') by done. cbn [res_bind].
  rewrite (rank_comparator x.1 s Es) by (try apply Hx; by intros E; rewrite E in Eh). cbn [res_bind].
  rewrite (rank_comparator y.1 s' Es') by (try apply Hy; by intros E; rewrite E in Eh'). cbn [res_bind].
  apply list_elem_of_lookup_2 in Eh as Hin, Eh' as Hin'. apply greaterThan_rank.
  - apply vget_Ret. split; [done|]. by rewrite list_lookup_fmap, Eh.
  - apply vget_Ret. split; [done|]. by rewrite list_lookup_fmap, Eh'.
  - apply Hapart; [by apply (hits_in s); [|apply page_sub]|by apply (hits_in s'); [|apply page_sub]].
  - unfold wide. by rewrite (hit_worker s _ Hin).
  - unfold wide. by rewrite (hit_worker s' _ Hin').
Qed.

Lemma no_others : ranks_custom ws = false /\ ranks_geo ws = false.
Proof.
  unfold ranks_custom, ranks_geo. clear -Hshards. induction shards as [|s l IH]; [done|]. apply Forall_cons in Hshards as [[_ _ _ Hc Hg _ _ _] Hl].
  cbn [map existsb answer_of snd]. rewrite Hc, Hg. by apply IH.
Qed.

Lemma shards_mergeable : mergeable ws rank_better (ranks_custom ws) (ranks_geo ws).
Proof.
  destruct no_others as [-> ->]. assert (forall w, w ∈ ws -> exists s, w = answer_of s /\ s ∈ shards) as Hw by (intros w (s & -> & Hs)%list_elem_of_fmap; by exists s).
  split.
  - intros x y Hx Hy _. by apply rank_heads.
  - intros i p q Hp Hq Hlt. destruct (hit_entry _ Hp) as (s & Es & Hs & _ & Eh & H0), (hit_entry _ Hq) as (s' & Es' & _ & _ & Eh' & H0').
    cbn [fst snd] in *. rewrite Es in Es'. injection Es' as <-. by apply (page_sorted s (sh_worker s) (Z.to_nat p) (Z.to_nat q)); [..|lia|].
  - intros i. unfold docs_of. rewrite list_lookup_fmap. destruct (shards !! Z.to_nat i) as [s|] eqn:Es; [|done].
    cbn [fmap option_fmap option_map answer_of snd]. destruct (shard_lookup s ltac:(by eapply list_elem_of_lookup_2)) as [-> _ _ _ _ _ _ _].
    unfold vsize. rewrite length_map, length_take. lia.
  - intros w (s & -> & Hs)%Hw. cbn [answer_of snd]. destruct (hit_scores s Hs) as [-> ->]. unfold vsize. by rewrite !length_map.
  - intros w (s & -> & Hs)%Hw. cbn [answer_of snd]. destruct (shard_lookup s Hs) as [_ _ _ -> _ _ _ _]. done.
  - intros w (s & -> & Hs)%Hw. cbn [answer_of snd]. destruct (shard_lookup s Hs) as [_ _ _ _ -> _ _ _]. done.
Qed.

Lemma hits_of_entries : map hit_at (entries ws) = concat (map page_hits shards).
Proof.
  unfold entries, left_of. rewrite concat_map, map_map. f_equal. apply list_eq. intros i. rewrite !list_lookup_fmap.
  destruct (shards !! i) as [s|] eqn:Es.
  - pose proof (lookup_lt_Some _ _ _ Es). rewrite lookup_seqZ_lt by (unfold vsize; rewrite length_map; lia). cbn [fmap option_fmap option_map]. f_equal.
    rewrite Z.add_0_l, (shard_docs (Z.of_nat i) s) by (by rewrite Nat2Z.id). apply list_eq. intros j. rewrite !list_lookup_fmap.
    destruct (page_hits s !! j) as [h|] eqn:Eh.
    + pose proof (lookup_lt_Some _ _ _ Eh). rewrite lookup_seqZ_lt by (unfold vsize; rewrite length_map; lia). cbn [fmap option_fmap option_map].
      unfold hit_at. cbn [fst snd]. rewrite Nat2Z.id, Es. cbn [mbind option_bind]. by rewrite Z.add_0_l, Nat2Z.id, Eh.
    + apply lookup_ge_None in Eh. by rewrite lookup_seqZ_ge by (unfold vsize; rewrite length_map; lia).
  - apply lookup_ge_None in Es. by rewrite lookup_seqZ_ge by (unfold vsize; rewrite length_map; lia).
Qed.

Lemma each_of {A B} (f : A -> res B) g l : Forall (fun x => f x = Ret (g x)) l -> each f l = Ret (map g l).
Proof. intros Hf. apply each_Forall2. induction Hf as [|x l E _ IH]; cbn; by constructor. Qed.

(** The best of the answered documents are the best of all. *)
Lemma merged_hits top picks : 0 <= top <= k -> total_on below all_hits ->
  best_of (worse rank_better) (Z.min top (vsize (entries ws))) (entries ws) picks -> descending (worse rank_better) picks ->
  map hit_at picks = take (Z.to_nat top) (sort_desc below all_hits).
Proof.
  intros Ht Htot Hb Hd. set (c := Z.min top (vsize (entries ws))) in *. pose proof (vsize_nonneg (entries ws)) as H0.
  pose proof (best_of_map hit_at (worse rank_better) below c _ _ (fun x y _ _ E => E) Hb) as Hb2. rewrite hits_of_entries in Hb2.
  pose proof (best_of_concat below k c _ _ _ ltac:(lia) ltac:(lia) pages_best Hb2) as Hall.
  pose proof (descending_map hit_at (worse rank_better) below picks (fun x y _ _ E => E) Hd) as Hd2.
  assert (map hit_at picks ⊆ all_hits) as Hsub by (destruct Hall as (_ & rest & Hp & _); intros x Hx; rewrite Hp; apply elem_of_app; by left).
  rewrite <- (sort_desc_unique below (map hit_at picks) (map hit_at picks)) by (done || by eapply total_on_sub).
  rewrite (best_of_sort below c all_hits) by (done || lia).
  destruct (decide (top <= vsize (entries ws))) as [Hle|Hgt]; [by replace c with top by lia|].
  assert (vsize all_hits = vsize (entries ws)) as Hsz.
  { assert (vsize (concat (map page_hits shards)) = vsize (entries ws)) as E by (rewrite <- hits_of_entries; unfold vsize; by rewrite length_map).
    destruct (best_parts below k _ _ pages_best) as (rest & Hp & Hrest). destruct rest as [|y rest].
    - rewrite app_nil_r in Hp. unfold vsize in *. by rewrite Hp.
    - destruct (Hrest y ltac:(by left)) as (l & r & rest' & others & Hs & Hl & _ & Ho & Hy).
      assert (vsize l = vsize r + vsize rest') as H1 by (unfold vsize; rewrite Hl, length_app; lia).
      assert (vsize (entries ws) = vsize r + vsize others) as H2 by (rewrite <- E; unfold vsize; rewrite Ho, length_app; lia).
      pose proof (vsize_nonneg others). destruct rest' as [|z rest']; [by apply elem_of_nil in Hy|]. rewrite vsize_cons in H1. pose proof (vsize_nonneg rest'). lia. }
  assert (length (sort_desc below all_hits) = length all_hits) as Hlen by (by rewrite sort_desc_perm).
  rewrite !take_ge; [done|unfold vsize in *; lia..].
Qed.

Lemma merged_search w0 w1 l (m : result) : ws = w0 :: w1 :: l -> first_worker_error ws = None ->
  (forall s, s ∈ shards -> majorTokenNum_ (sh_result s) = majorTokenNum_ w0.2) ->
  (exists rep, mfold merge_rep ws (groupRep_ (main m)) = Ret rep) -> (exists attr, merge_attrs (QA := QA) ws = Ret attr) ->
  (forall a b, 0 <= a -> 0 <= roundDown a b) -> roundDown (start_ w0.2) (TOP_K_NUM w0.2) = 0 -> 0 <= start_ w0.2 -> 0 <= count_ w0.2 ->
  0 <= TOP_K_NUM w0.2 <= k -> vsize all_hits < 2 ^ 64 -> total_on below all_hits ->
  exists r, getDistSearchResult (QA := QA) roundDown no_text ws m = Ret r /\
    let hits := take (Z.to_nat (TOP_K_NUM w0.2)) (sort_desc below all_hits) in
    topKDocs_ (main r) = map (fun h => docId h.2) hits /\ topKWorkerIds_ r = map fst hits /\ topKRankScoreList_ (main r) = map rank hits /\
    totalCount_ (main r) = vsize all_hits /\
    start_ r = start_ w0.2 /\ count_ r = count_ w0.2 /\ TOP_K_NUM r = TOP_K_NUM w0.2 /\ include_summary_data_ r = forallb (fun w => include_summary_data_ w.2) ws.
Proof.
  intros Ews He Hmajor Hrep Hattr Hround Hr0 Hs Hc Htop Hsz Htot. destruct w0 as [i0 r0]. cbn [snd] in *.
  assert (keep_largest r0 ws = ws) as Ek.
  { unfold keep_largest. replace (existsb _ ws) with false; [done|]. symmetry. apply not_true_iff_false. intros (w & Hin & Hb)%existsb_exists.
    apply list_elem_of_In, list_elem_of_fmap in Hin as (s & -> & Hin). cbn [answer_of snd] in Hb. by rewrite (Hmajor s Hin), Z.eqb_refl in Hb. }
  assert (vsize (entries ws) <= vsize all_hits) as Hle.
  { destruct (best_parts below k _ _ pages_best) as (rest & Hp & _). rewrite <- hits_of_entries in Hp. unfold vsize. rewrite Hp, length_app, length_map. lia. }
  rewrite Ews in Ek, He. edestruct (merge_result roundDown no_text rank_better i0 r0 w1 l m ws) as (r & picks & E & Hm); [by rewrite Ews, Ek|done|apply shards_mergeable|done..|lia|].
  exists r. rewrite Ews at 1. split; [exact E|]. destruct Hm as [Hbest Hdesc Hdocs Hworkers Hscores _ _ Htotal _ _ _ (Hm1 & Hm2 & Hm3) Hinc _].
  unfold topK_count in Hbest. rewrite Hr0, Z.sub_0_r, u64_small in Hbest by lia. pose proof (vsize_nonneg (entries ws)).
  replace (if 0 <? vsize (entries ws) then vsize (entries ws) else 0) with (vsize (entries ws)) in Hbest by (destruct (Z.ltb_spec 0 (vsize (entries ws))); lia).
  cbv zeta. rewrite <- (merged_hits _ picks Htop Htot Hbest Hdesc).
  assert (Forall (is_entry ws) picks) as Hall.
  { destruct Hbest as (_ & rest & Hp & _). apply Forall_forall. intros x Hx. apply (entries_elem ws (fun _ => 0)); [done|]. fold (entries ws). rewrite Hp. apply elem_of_app. by left. }
  rewrite (each_of _ (fun x => docId (hit_at x).2)) in Hdocs by (eapply Forall_impl; [exact Hall|]; intros x Hx; apply (doc_hit x Hx)).
  rewrite (each_of _ (fun x => (hit_at x).1)) in Hworkers by (eapply Forall_impl; [exact Hall|]; intros x Hx; apply (doc_hit x Hx)).
  rewrite (each_of _ (fun x => rank (hit_at x))) in Hscores by (eapply Forall_impl; [exact Hall|]; intros x Hx; apply (doc_hit x Hx)).
  injection Hdocs as <-. injection Hworkers as <-. injection Hscores as <-. rewrite !map_map. cbn [snd]. split_and!; try done.
  rewrite Htotal. assert (total_of totalCount_ ws = vsize all_hits) as ->; [|apply u64_small; pose proof (vsize_nonneg all_hits); lia].
  clear -Hshards. induction shards as [|s l IH]; [done|]. apply Forall_cons in Hshards as [[_ _ Ht _ _ _ _ _] Hl].
  cbn [map concat total_of foldr answer_of snd]. unfold total_of in IH. rewrite IH, Ht, vsize_app by done.
  f_equal. unfold hits_of, vsize. by rewrite length_map.
Qed.

(** C5: a search over several nodes answers what one node would answer for all
    their documents: if every worker answers its best documents, ranked by score,
    and the page begins in the first [TOP_K_NUM] results, the merged result lists
    the best [TOP_K_NUM] of all accepted documents, with their workers and scores,
    and their number. *)
Theorem distributed_search w0 w1 l (m : result) : ws = w0 :: w1 :: l -> first_worker_error ws = None ->
  (forall s, s ∈ shards -> majorTokenNum_ (sh_result s) = majorTokenNum_ w0.2) ->
  (exists rep, mfold merge_rep ws (groupRep_ (main m)) = Ret rep) -> (exists attr, merge_attrs (QA := QA) ws = Ret attr) ->
  (forall a b, 0 <= a -> 0 <= roundDown a b) -> roundDown (start_ w0.2) (TOP_K_NUM w0.2) = 0 -> 0 <= start_ w0.2 -> 0 <= count_ w0.2 ->
  0 <= TOP_K_NUM w0.2 <= k -> vsize all_hits < 2 ^ 64 -> total_on below all_hits ->
  exists r, getDistSearchResult (QA := QA) roundDown no_text ws m = Ret r /\
    let hits := take (Z.to_nat (TOP_K_NUM w0.2)) (sort_desc below all_hits) in
    topKDocs_ (main r) = map (fun h => docId h.2) hits /\ topKWorkerIds_ r = map fst hits /\ topKRankScoreList_ (main r) = map rank hits /\
    totalCount_ (main r) = vsize all_hits.
Proof.
  intros. destruct (merged_search w0 w1 l m) as (r & E & Hd & Hw & Hs & Ht & _); try done. by exists r.
Qed.
End Shards.

(** ** Two searches over two and three workers *)
Lemma pairs_check {A} (P : A -> A -> bool) l : forallb (fun x => forallb (P x) l) l = true -> forall x y, x ∈ l -> y ∈ l -> P x y = true.
Proof. intros Hc x y Hx Hy. rewrite forallb_forall in Hc. apply list_elem_of_In in Hx, Hy. specialize (Hc x Hx). rewrite forallb_forall in Hc. by apply Hc. Qed.

#[export] Instance ex_wide : WideDocId := {|
  GetWDocId w d := w * 2 ^ 32 + d;
  GetWorkerAndDocId z := (z / 2 ^ 32, z mod 2 ^ 32);
  IsNewerDocId a b := b mod 2 ^ 32 <? a mod 2 ^ 32
|}.
Definition ex_roundDown (a b : Z) : Z := a - a mod b.
Lemma ex_roundDown_nonneg a b : 0 <= a -> 0 <= ex_roundDown a b.
Proof. intros Ha. unfold ex_roundDown. destruct (decide (0 < b)); [pose proof (Z.mod_le a b); lia|]. destruct (decide (b = 0)) as [->|]; [rewrite Z.mod_0_r; lia|]. pose proof (Z.mod_neg_bound a b). lia. Qed.
Lemma ex_newer : StrictWeak IsNewerDocId.
Proof. exact (flip_weak _ (StrictWeak_key (fun a => a mod 2 ^ 32))). Qed.

#[export] Instance ex_named_score : Inhabited (Z * spec_float) := populate (0, d0).
Definition ex_result (docs : list Z) (scores : list spec_float) (total tokens : Z) (data : SortData) (ts : list string) : DistResult Z string :=
  set_texts (MkTexts [ts] [ts] []) (Dist "" (MkInfo "" 0 "" 0 [] [] false) (Result total no_range [("price"%string, total)] clear [] docs scores [] [] data) [] [] 0 2 2 tokens true [] []
    (MkTexts [] [] [])).
Definition ex_new : DistResult Z string := new_dist_result 0 0.

(** Ranked by score. *)
Definition ex_hits1 : list ScoreDoc := [score_doc 5 (dbl 9 0); score_doc 3 (dbl 4 0); score_doc 1 (dbl 1 0)].
Definition ex_hits2 : list ScoreDoc := [score_doc 2 (dbl 2 0); score_doc 8 (dbl 7 0)].
Definition ex_shards : list (shard (T := Z) (X := string)) :=
  [Shard 1 ex_hits1 (ex_result [5; 3] [dbl 9 0; dbl 4 0] 3 0 no_sort_data ["five"; "three"]%string);
   Shard 2 ex_hits2 (ex_result [8; 2] [dbl 7 0; dbl 2 0] 2 0 no_sort_data ["eight"; "two"]%string)].
Definition ex_lt : ScoreDoc -> ScoreDoc -> bool := lex_lt [(fun a b => klt (score a) (score b), false)].

Lemma ex_shards_ok : Forall (shard_ok 2 ex_lt) ex_shards.
Proof.
  assert (StrictWeak ex_lt) as Hw by (apply lex_lt_weak; constructor; [apply klt_weak|constructor]).
  constructor; [|constructor; [|constructor]]; (split; [by vm_compute|by vm_compute|done|done|done|done|done|]); intros x y Hx Hy; apply Bool.eqb_prop;
    [refine (pairs_check (fun x y => Bool.eqb (ex_lt x y) (rank_above (1, y) (1, x))) ex_hits1 _ x y Hx Hy)|
     refine (pairs_check (fun x y => Bool.eqb (ex_lt x y) (rank_above (2, y) (2, x))) ex_hits2 _ x y Hx Hy)]; by vm_compute.
Qed.

Definition ex_all : list (Z * ScoreDoc) := concat (map hits_of ex_shards).

Lemma ex_apart x y : x ∈ ex_all -> y ∈ ex_all -> apart x y.
Proof.
  intros Hx Hy. unfold apart. pose proof (pairs_check (fun x y => is_num (rank x) && is_num (rank y) &&
    Bool.eqb (float_same (rank x) (rank y)) (negb (klt (rank x) (rank y)) && negb (klt (rank y) (rank x)))) ex_all ltac:(by vm_compute) x y Hx Hy) as Hc. cbv beta in Hc.
  apply andb_true_iff in Hc as [[H1 H2]%andb_true_iff H3]. by apply Bool.eqb_prop in H3.
Qed.

Lemma ex_total_hits : total_on below ex_all.
Proof.
  intros x y Hx Hy H1 H2. pose proof (pairs_check (fun x y => below x y || below y x || ((x.1 =? y.1) && (docId x.2 =? docId y.2))) ex_all ltac:(by vm_compute) x y Hx Hy) as Hc.
  cbv beta in Hc. rewrite H1, H2 in Hc. cbn [orb] in Hc. apply andb_true_iff in Hc as [E1%Z.eqb_eq E2%Z.eqb_eq].
  cbn in Hx, Hy. set_unfold. intuition subst; try done; cbn in *; lia.
Qed.

Lemma distributed_search_witness : exists r,
  getDistSearchResult (QA := heap (Z * spec_float)) ex_roundDown ""%string (map answer_of ex_shards) ex_new = Ret r /\
  topKDocs_ (main r) = [5; 8] /\ topKWorkerIds_ r = [1; 2] /\ totalCount_ (main r) = 5.
Proof.
  destruct (distributed_search (QA := heap (Z * spec_float)) ex_roundDown ""%string ex_shards 2 ex_lt ltac:(lia) ex_shards_ok ex_newer ex_apart _ _ _ ex_new eq_refl)
    as (r & E & Hd & Hw & _ & Ht).
  - done.
  - intros s [-> | ->%list_elem_of_singleton]%elem_of_cons; done.
  - eexists. by vm_compute.
  - eexists. by vm_compute.
  - apply ex_roundDown_nonneg.
  - done.
  - done.
  - done.
  - done.
  - done.
  - exact ex_total_hits.
  - exists r. split; [exact E|]. rewrite Hd, Hw, Ht. vm_compute. repeat split.
Defined.

(** Sorted by descending price; the third worker matched fewer tokens. *)
Definition ex_prices (l : list Z) : SortData := MkSortData [("price"%string, false)] [("price"%string, l)] [] [] [] [].
Definition ex_workers : list (Z * DistResult Z string) :=
  [(1, ex_result [5; 3] [dbl 1 0; dbl 1 0] 3 2 (ex_prices [90; 40]) ["five"; "three"]%string);
   (2, ex_result [8; 2] [dbl 1 0; dbl 1 0] 2 2 (ex_prices [70; 70]) ["eight"; "two"]%string);
   (3, ex_result [7] [dbl 1 0] 1 1 (ex_prices [95]) ["seven"]%string)].
Definition ex_live : list (Z * DistResult Z string) := keep_largest (snd (hd (0, ex_new) ex_workers)) ex_workers.
Definition ex_price_of (x : Z * Z) : Z :=
  match ex_live !! Z.to_nat x.1 with Some w => match sortPropertyInt32DataList_ (sortData_ (main w.2)) with (_, l) :: _ => default 0 (l !! Z.to_nat x.2) | [] => 0 end | None => 0 end.
Definition ex_doc_of (x : Z * Z) : Z :=
  match ex_live !! Z.to_nat x.1 with Some w => default 0 (topKDocs_ (main w.2) !! Z.to_nat x.2) | None => 0 end.
Definition ex_better (x y : Z * Z) : bool := (ex_price_of y <? ex_price_of x) || (negb (ex_price_of x <? ex_price_of y) && (ex_doc_of y <? ex_doc_of x)).

#[local] Instance ex_better_weak : StrictWeak ex_better.
Proof. apply (lex_weak (fun x y => ex_price_of y <? ex_price_of x) (fun x y => ex_doc_of y <? ex_doc_of x)); apply (flip_weak (fun x y => _ x <? _ y)), StrictWeak_key. Qed.

Lemma ex_mergeable : mergeable ex_live ex_better (ranks_custom ex_live) (ranks_geo ex_live).
Proof.
  assert (forall x, is_entry ex_live x -> x ∈ entries ex_live) as Hin by (intros x Hx; apply (entries_elem ex_live (fun _ => 0)); [done|]; split; [done|]; apply Hx).
  assert (forall i, vsize (docs_of ex_live i) <= 2) as Hlen.
  { intros i. unfold docs_of. destruct (ex_live !! Z.to_nat i) as [w|] eqn:Ew; [|done]. apply list_elem_of_lookup_2 in Ew. unfold ex_live, ex_workers in Ew. cbn in Ew. set_unfold. by intuition subst. }
  split.
  - intros x y Hx Hy Hne. pose proof (pairs_check (fun x y => (x.1 =? y.1) || match head_greater ex_live x.1 x.2 y.1 y.2 with Ret b => Bool.eqb b (ex_better x y) | _ => false end)
      (entries ex_live) ltac:(by vm_compute) x y (Hin x Hx) (Hin y Hy)) as Hc. cbv beta in Hc. rewrite (proj2 (Z.eqb_neq x.1 y.1) Hne) in Hc. cbn [orb] in Hc.
    destruct (head_greater _ _ _ _ _) as [b| | |]; try done. by apply Bool.eqb_prop in Hc as ->.
  - intros i p q Hp Hq Hlt. pose proof (pairs_check (fun x y => negb (x.1 =? y.1) || negb (x.2 <? y.2) || negb (ex_better y x)) (entries ex_live) ltac:(by vm_compute)
      (i, p) (i, q) (Hin _ Hp) (Hin _ Hq)) as Hc. cbv beta in Hc. cbn [fst snd] in Hc. rewrite Z.eqb_refl, (proj2 (Z.ltb_lt p q) Hlt) in Hc. cbn [negb orb] in Hc. by apply negb_true_iff in Hc.
  - intros i. specialize (Hlen i). lia.
  - intros w Hw. cbn in Hw. set_unfold. by intuition subst.
  - intros w Hw. cbn in Hw. set_unfold. by intuition subst.
  - intros w Hw. cbn in Hw. set_unfold. by intuition subst.
Qed.

