(* ===== verification/DistPage.v ===== *)
(** * The page of a distributed search

Models the distributed part of bundles/index/IndexSearchService.cpp: the master
merges the results of the workers, cuts off the results before the page's, asks
every worker for the texts of its documents of the page, and puts them in their
places. Sending requests belongs to the aggregator library: what the workers
answer is an argument, as is what the cache of results holds. The gathering of
statistics for WAND, requests that fail, and [rerank], which does nothing on the
master, are left out. *)
From Stdlib Require Import String.
From S2P Require Import Prelude PQueue TopK Float64 OrdMap GroupRep OntologyRep NumTable RTypeTable Sorter SearchPrepare SearchThread DistMerge DistMergeSpec.

(** ** IndexSearchService::getSearchResult *)
Section Service.
Context {T X QA : Type} `{!WideDocId, !TextOrder T, !PQueue QA (T * spec_float)}.
Context (roundDown : Z -> Z -> Z) (UTF_8 : Z) (no_query : T) (no_text : X).
Notation result := (DistResult T X).
Implicit Types r : result.

(** PageInfo::topKStart *)
Definition topKStart (start topKNum : Z) (topKFromConfig : bool) : Z := if topKFromConfig then roundDown start topKNum else 0.

(** KeywordSearchResult::setStartCount, adjustStartCount *)
Definition setStartCount (start count : Z) r : result := set_range start count r.
Definition adjustStartCount (topKStart : Z) r : result :=
  let topKEnd := u64 (topKStart + vsize (topKDocs_ (main r))) in
  let start := if topKEnd <? start_ r then topKEnd else start_ r in
  let count := if topKEnd <? u64 (start + count_ r) then u64 (topKEnd - start) else count_ r in
  set_range start count r.

(** The worker ids are left as they are. *)
Definition erase_first (topKStart : Z) r : result :=
  let m := main r in
  let cut {A} (l : list A) := drop (Z.to_nat (Z.min topKStart (vsize l))) l in
  if 0 <? topKStart then
    set_main (Result (totalCount_ m) (propertyRange_ m) (counterResults_ m) (groupRep_ m) (attrRep_ m)
      (cut (topKDocs_ m)) (cut (topKRankScoreList_ m)) (cut (topKCustomRankScoreList_ m)) (cut (topKGeoDistanceList_ m)) (sortData_ m)) r
  else r.

(** Ask the workers for the texts of the page: [summary] answers the requests, in
    the order in which the answers arrive. *)
Definition ask_texts r (summary : list (Z * result) -> list (Z * result)) : res result :=
  let* resultMap := splitSearchResultByWorkerid UTF_8 no_query r [] in
  if is_nil resultMap then Ret r
  else getSummaryResult no_text (summary resultMap) r.

(** The page [start], [count] of a request: [cached] is what the cache holds for it,
    [workers] answer the search. *)
Definition getSearchResult (start count topKNum : Z) (topKFromConfig disableGetDocs : bool) (cached : option result)
    (workers : result -> list (Z * result)) (summary : list (Z * result) -> list (Z * result)) : res result :=
  let topKStart := topKStart start topKNum topKFromConfig in
  match cached with
  | None =>
      let dist := setStartCount start count (new_dist_result UTF_8 no_query) in
      let* dist := getDistSearchResult (QA := QA) roundDown no_text (workers dist) dist in
      let r := adjustStartCount topKStart (erase_first topKStart dist) in
      if disableGetDocs || include_summary_data_ r then Ret r else ask_texts r summary
  | Some r => ask_texts (adjustStartCount topKStart (setStartCount start count r)) summary
  end.
End Service.

(** ** Dividing the page and putting it together *)
Section Page.
Context {T X : Type} (UTF_8 : Z) (no_query : T) (no_text : X).
Notation result := (DistResult T X).
Notation hit := (Z * Z)%type.
Notation numbered := (list (Z * hit)).

(** The documents of the page with their places. *)
Definition page_hits_of (total : result) : list hit :=
  take (Z.to_nat (count_ total)) (drop (Z.to_nat (start_ total mod TOP_K_NUM total)) (zip (topKWorkerIds_ total) (topKDocs_ (main total)))).

Definition share_of (w : Z) (l : numbered) : numbered := filter (fun e => e.2.1 = w) l.

(** What the worker is asked for. *)
Definition part (total : result) (l : numbered) : result :=
  set_range 0 (vsize l) (set_page (map (fun e => e.2.2) l) (map fst l) (part_of UTF_8 no_query total)).
Definition parts_ok (total : result) (l : numbered) (m : list (Z * result)) : Prop :=
  om_sorted m /\ forall w, om_find m w = if is_nil (share_of w l) then None else Some (part total (share_of w l)).

Lemma share_snoc w l e : share_of w (l ++ [e]) = share_of w l ++ (if decide (e.2.1 = w) then [e] else []).
Proof. unfold share_of. by rewrite filter_app. Qed.

(** One document more. *)
Lemma split_one_ok total l m h topstart : parts_ok total (indexed l) m -> vsize l < 2 ^ 63 ->
  vget (topKWorkerIds_ total) topstart = Ret h.1 -> vget (topKDocs_ (main total)) topstart = Ret h.2 ->
  exists m', split_one UTF_8 no_query total topstart (vsize l, m) = Ret (vsize (l ++ [h]), m') /\ parts_ok total (indexed (l ++ [h])) m'.
Proof.
  intros [Hs Hf] Hl E1 E2. pose proof (vsize_nonneg l). unfold split_one. rewrite E1. cbn [res_bind]. rewrite E2. cbn [res_bind].
  rewrite vsize_snoc, u64_small by lia. eexists. split; [done|]. split; [by apply om_set_sorted|]. intros w.
  rewrite indexed_snoc, share_snoc. cbn [fst snd]. rewrite (Hf h.1). case_decide as Hw.
  - subst w. rewrite om_find_set_eq.
    assert (vsize (share_of h.1 (indexed l)) <= vsize l) as Hle.
    { unfold vsize, share_of. etransitivity; [apply inj_le, length_filter|]. unfold indexed. rewrite length_zip_with. unfold vsize. lia. }
    pose proof (vsize_nonneg (share_of h.1 (indexed l))). destruct (share_of h.1 (indexed l)) as [|e s] eqn:Es; [done|].
    change (is_nil (e :: s)) with false. change (is_nil ((e :: s) ++ _)) with false. cbv match.
    unfold part at 1. cbn [default from_option Datatypes.id set_range set_page start_ count_ docsInPage_ pageOffsetList_]. change (count_ (part total (e :: s))) with (vsize (e :: s)).
    rewrite u64_small by lia. unfold part. by rewrite !map_app, vsize_snoc.
  - rewrite om_find_set_ne by done. rewrite app_nil_r. apply Hf.
Qed.

Lemma split_ok total : TOP_K_NUM total <> 0 -> u64 (TOP_K_NUM total) = TOP_K_NUM total -> vsize (topKWorkerIds_ total) = vsize (topKDocs_ (main total)) ->
  0 <= count_ total < 2 ^ 63 -> vsize (topKDocs_ (main total)) < 2 ^ 63 -> TOP_K_NUM total < 2 ^ 31 ->
  exists m, splitSearchResultByWorkerid UTF_8 no_query total [] = Ret m /\ parts_ok total (indexed (page_hits_of total)) m.
Proof.
  intros Ht Hu Hw Hc Hn Ht2. unfold splitSearchResultByWorkerid. rewrite (proj2 (Z.eqb_neq _ _) Ht). cbn [orb]. set (n := vsize (topKDocs_ (main total))) in *.
  assert (parts_ok total [] []) as H0 by (split; [constructor|done]).
  assert (vsize (zip (topKWorkerIds_ total) (topKDocs_ (main total))) = n) as Hz by (unfold vsize in *; rewrite length_zip_with; lia).
  destruct (Z.eqb_spec n 0) as [En|Hne].
  { exists []. split; [done|]. unfold page_hits_of. assert (zip (topKWorkerIds_ total) (topKDocs_ (main total)) = []) as -> by (apply nil_length_inv; unfold vsize in Hz; lia).
    by rewrite drop_nil, take_nil. }
  rewrite Hu. set (s := start_ total mod TOP_K_NUM total) in *. set (hits := zip (topKWorkerIds_ total) (topKDocs_ (main total))) in *.
  assert (0 < TOP_K_NUM total) as Hpos by (pose proof (u64_range (TOP_K_NUM total)); lia).
  pose proof (Z.mod_pos_bound (start_ total) (TOP_K_NUM total) Hpos) as Hs. fold s in Hs. rewrite u64_small by lia.
  set (k := Z.min n (s + count_ total) - s).
  destruct (decide (k <= 0)) as [Hk|Hk].
  { rewrite seqZ_nil by done. cbn [mfold res_bind]. exists []. split; [done|]. unfold page_hits_of. fold s hits. unfold k, vsize in *. destruct (decide (n <= s)).
    - rewrite drop_ge, take_nil by lia. done.
    - by replace (Z.to_nat (count_ total)) with 0%nat by lia. }
  destruct (mfold_seqZ (split_one UTF_8 no_query total) (fun t '(i, m) => i = t - s /\ parts_ok total (indexed (take (Z.to_nat (t - s)) (drop (Z.to_nat s) hits))) m) s k (0, []))
    as ([i m] & -> & _ & Hm); [lia| |rewrite Z.sub_diag; by split|].
  - intros t [i m] Hr [-> Hm]. destruct (lookup_lt_is_Some_2 hits (Z.to_nat t)) as [h Eh]; [unfold k, vsize in *; lia|].
    assert (drop (Z.to_nat s) hits !! Z.to_nat (t - s) = Some h) as Ed by (rewrite lookup_drop; by replace (Z.to_nat s + Z.to_nat (t - s))%nat with (Z.to_nat t) by lia).
    set (l := take (Z.to_nat (t - s)) (drop (Z.to_nat s) hits)) in *.
    assert (vsize l = t - s) as Hvl by (unfold l, vsize; rewrite length_take_le; [lia|]; apply lookup_lt_Some in Ed; lia).
    unfold hits in Eh. apply lookup_zip_with_Some in Eh as (w & d & -> & E1 & E2).
    destruct (split_one_ok total l m (w, d) t Hm) as (m' & E & Hm'); [unfold k in *; lia|apply vget_Ret; split; [lia|done]..|].
    rewrite Hvl in E. rewrite E. eexists. split; [done|]. cbn beta iota. rewrite vsize_snoc, Hvl. split; [lia|].
    replace (Z.to_nat (t + 1 - s)) with (S (Z.to_nat (t - s))) by lia. by rewrite (take_S_r _ _ _ Ed).
  - exists m. split; [done|]. unfold page_hits_of. fold s hits. replace (s + k - s) with k in Hm by lia.
    replace (take (Z.to_nat (count_ total)) (drop (Z.to_nat s) hits)) with (take (Z.to_nat k) (drop (Z.to_nat s) hits)); [done|].
    unfold k, vsize in *. destruct (decide (n <= s + count_ total)); [|f_equal; lia]. rewrite !take_ge; [done|rewrite length_drop; lia..].
Qed.

(** *** The texts the workers answer *)
Context (show_snippet show_full show_raw : Z -> Z -> Z -> X) (nd ns : Z).
Hypothesis Hnd : 0 <= nd.
Hypothesis Hns : 0 <= ns.

(** The texts of property [dis] of the documents [docs] of worker [w]. *)
Definition texts_for (w : Z) (docs : list Z) : PageTexts X :=
  let rows show n := map (fun dis => map (show w dis) docs) (seqZ 0 n) in
  MkTexts (rows show_snippet nd) (rows show_full nd) (rows show_raw ns).

Definition answers_part (p w : Z * result) : Prop :=
  w.1 = p.1 /\ error_ w.2 = ""%string /\ pageOffsetList_ w.2 = pageOffsetList_ p.2 /\ texts w.2 = texts_for p.1 (docsInPage_ p.2).

(** The documents and places of worker [w] of the page [hits]. *)
Definition docs_for (hits : list hit) (w : Z) : list Z := map (fun e => e.2.2) (share_of w (indexed hits)).

Record answered (hits : list hit) (ws : list (Z * result)) : Prop := {
  aw_error : forall w, w ∈ ws -> error_ w.2 = ""%string;
  aw_places : forall w, w ∈ ws -> pageOffsetList_ w.2 = map fst (share_of w.1 (indexed hits));
  aw_texts : forall w, w ∈ ws -> texts w.2 = texts_for w.1 (docs_for hits w.1);
  aw_all : forall h, h ∈ hits -> h.1 ∈ map fst ws
}.

Lemma part_in total l m p : parts_ok total l m -> p ∈ m -> share_of p.1 l <> [] /\ p.2 = part total (share_of p.1 l).
Proof.
  intros [Hs Hf] Hp. destruct p as [w r]. cbn [fst snd]. apply (om_find_elem m w r Hs) in Hp. rewrite Hf in Hp.
  destruct (share_of w l) as [|e s]; [done|]. split; [done|]. cbn in Hp. by injection Hp.
Qed.

Lemma number_in hits h : h ∈ hits -> exists i, (i, h) ∈ share_of h.1 (indexed hits).
Proof.
  intros (i & E)%list_elem_of_lookup. exists (Z.of_nat i). apply list_elem_of_filter. split; [done|]. eapply list_elem_of_lookup_2. by apply indexed_lookup.
Qed.

Lemma parts_answered total hits m m' ws : parts_ok total (indexed hits) m -> m' ≡ₚ m -> Forall2 answers_part m' ws -> answered hits ws.
Proof.
  intros Hm Hp Hall. assert (forall w, w ∈ ws -> exists p, p ∈ m /\ answers_part p w) as Hw.
  { intros w (i & Ei)%list_elem_of_lookup. destruct (Forall2_lookup_r _ _ _ _ _ Hall Ei) as (p & Ep & Ha). exists p. split; [|done]. rewrite <- Hp. by eapply list_elem_of_lookup_2. }
  split.
  - by intros w (p & _ & _ & He & _)%Hw.
  - intros w (p & Hin & Ew & _ & Ho & _)%Hw. destruct (part_in _ _ _ _ Hm Hin) as [_ E]. rewrite Ho, Ew, E. done.
  - intros w (p & Hin & Ew & _ & _ & Ht)%Hw. destruct (part_in _ _ _ _ Hm Hin) as [_ E]. rewrite Ht, Ew, E. done.
  - intros h Hh. destruct (number_in hits h Hh) as (i & Hi). destruct Hm as [Hs Hf].
    assert (om_find m h.1 = Some (part total (share_of h.1 (indexed hits)))) as E by (rewrite Hf; destruct (share_of h.1 (indexed hits)); [by apply elem_of_nil in Hi|done]).
    apply (om_find_elem m _ _ Hs) in E. rewrite <- Hp in E. apply list_elem_of_lookup in E as (j & Ej).
    destruct (Forall2_lookup_l _ _ _ _ _ Hall Ej) as (w & Ew & E1 & _). apply list_elem_of_fmap. exists w. split; [by rewrite E1|]. by eapply list_elem_of_lookup_2.
Qed.

(** *** Putting them in their places *)
Section Fill.
Context (hits : list hit) (ws : list (Z * result)) (result0 : result) (pageCount : Z).
Hypothesis Hans : answered hits ws.
Hypothesis Hcount : vsize hits <= pageCount < 2 ^ 63.

(** The next text of [w] when [i] places are filled. *)
Definition next_of (w : Z) (i : nat) : Z := vsize (share_of w (indexed (take i hits))).
Definition source (e : Z * hit) : PageTexts X * Z := (texts_for e.2.1 (docs_for hits e.2.1), next_of e.2.1 (Z.to_nat e.1)).
Definition sources_of (i : nat) : list (PageTexts X * Z) := map source (indexed (take i hits)).

(** The places of [w] from [i] on. *)
Lemma share_split w i : exists rest, share_of w (indexed hits) = share_of w (indexed (take i hits)) ++ rest /\
  (forall e, e ∈ rest -> Z.of_nat i <= e.1) /\
  (forall h, hits !! i = Some h -> if decide (h.1 = w) then exists rest', rest = (Z.of_nat i, h) :: rest' else forall e, e ∈ rest -> Z.of_nat i < e.1).
Proof.
  set (later := zip (seqZ (vsize (take i hits)) (vsize (drop i hits))) (drop i hits)). exists (share_of w later).
  assert (indexed hits = indexed (take i hits) ++ later) as En.
  { unfold indexed at 1. rewrite <- (take_drop i hits) at 1 2. rewrite vsize_app, seqZ_app by apply vsize_nonneg. rewrite zip_with_app by (rewrite length_seqZ; unfold vsize; lia). done. }
  assert (forall k (l : list hit) (e : Z * hit), e ∈ zip (seqZ k (vsize l)) l -> k <= e.1) as Hge.
  { intros k l e (j & Ej)%list_elem_of_lookup. apply lookup_zip_with_Some in Ej as (x & y & -> & Ex & _). apply lookup_seqZ in Ex as [-> _]. cbn. lia. }
  assert (forall h, hits !! i = Some h -> vsize (take i hits) = Z.of_nat i) as Hvi by (intros h Eh%lookup_lt_Some; unfold vsize; rewrite length_take; lia).
  split; [by rewrite En; unfold share_of; rewrite filter_app|]. split.
  - intros e He%list_elem_of_filter. destruct He as [_ He]. destruct (decide (i < length hits)%nat) as [Hi|Hi].
    + apply Hge in He. unfold vsize in He. rewrite length_take in He. lia.
    + unfold later in He. rewrite (drop_ge hits i) in He by lia. rewrite zip_with_nil_r in He. by apply elem_of_nil in He.
  - intros h Eh. specialize (Hvi h Eh). unfold later. rewrite Hvi, (drop_S hits h i Eh), vsize_cons, seqZ_cons by (pose proof (vsize_nonneg (drop (S i) hits)); lia).
    cbn [zip zip_with]. unfold share_of. rewrite filter_cons. cbn [fst snd]. replace (Z.pred (1 + vsize (drop (S i) hits))) with (vsize (drop (S i) hits)) by lia.
    case_decide; [by eexists|]. intros e He%list_elem_of_filter. destruct He as [_ He%Hge]. lia.
Qed.

Definition offsets_ok (i : nat) (offsets : list Z) : Prop :=
  length offsets = length ws /\ forall v w, ws !! v = Some w -> offsets !! v = Some (next_of w.1 i).

(** Only the worker of the document of place [i] has its next text there. *)
Lemma next_place w i : w ∈ ws -> (pageOffsetList_ w.2 : list Z) !! Z.to_nat (next_of w.1 i) = Some (Z.of_nat i) <-> exists d, hits !! i = Some (w.1, d).
Proof.
  intros Hw. rewrite (aw_places _ _ Hans w Hw). destruct (share_split w.1 i) as (rest & E & Hge & Hat).
  assert (map fst (share_of w.1 (indexed hits)) !! Z.to_nat (next_of w.1 i) = fst <$> (rest !! 0%nat)) as ->.
  { rewrite E, map_app, lookup_app_r by (rewrite length_map; unfold next_of, vsize; lia). rewrite length_map, list_lookup_fmap. unfold next_of, vsize. do 3 f_equal. lia. }
  destruct (hits !! i) as [h|] eqn:Eh.
  - specialize (Hat h eq_refl). case_decide as Hh.
    + destruct Hat as [rest' ->]. cbn. split; [intros _; exists h.2; rewrite <- Hh; by destruct h|done].
    + split; [|by intros (d & [= ->])]. intros Hf. destruct rest as [|e rest]; [done|]. cbn in Hf. injection Hf as Hf. specialize (Hat e ltac:(by left)). lia.
  - split; [|by intros (d & [=])]. intros Hf. destruct rest as [|e rest]; [done|]. exfalso.
    assert (e ∈ share_of w.1 (indexed hits)) as He by (rewrite E; apply elem_of_app; right; by left). apply list_elem_of_filter in He as [_ He].
    apply list_elem_of_lookup in He as (j & Ej). apply lookup_zip_with_Some in Ej as (x & y & -> & Ex & Ey). cbn in Hf. injection Hf as ->.
    apply lookup_seqZ in Ex as [Ex _]. apply lookup_ge_None in Eh. apply lookup_lt_Some in Ey. lia.
Qed.

Hypothesis Hdistinct : NoDup (map fst ws).

Lemma find_none i offsets : offsets_ok i offsets -> hits !! i = None -> find_worker ws offsets (Z.of_nat i) = None.
Proof.
  intros [Hl Ho] Hn. unfold find_worker. rewrite (proj2 (list_find_None _ _)); [done|]. apply Forall_forall. intros [w o] (v & Ev)%list_elem_of_lookup Hf.
  apply lookup_zip_with_Some in Ev as (x & y & [= <- <-] & Ew & Eo). specialize (Ho v w Ew). rewrite Eo in Ho. injection Ho as ->. cbn [snd] in Hf.
  pose proof (next_place w i ltac:(by eapply list_elem_of_lookup_2)) as Hp. destruct (_ !! Z.to_nat (next_of w.1 i)) as [p|] eqn:Ep; [|done].
  apply Is_true_true, Z.eqb_eq in Hf. subst p. destruct (proj1 Hp eq_refl) as (d & E). by rewrite E in Hn.
Qed.

Lemma find_some i offsets h : offsets_ok i offsets -> hits !! i = Some h ->
  exists v w, find_worker ws offsets (Z.of_nat i) = Some (Z.of_nat v) /\ ws !! v = Some w /\ w.1 = h.1.
Proof.
  intros [Hl Ho] Eh. assert (h ∈ hits) as Hin by (by eapply list_elem_of_lookup_2).
  pose proof (aw_all _ _ Hans h Hin) as (w & E & (v & Ev)%list_elem_of_lookup)%list_elem_of_fmap.
  unfold find_worker. match goal with |- context [list_find ?P ?l] => destruct (list_find P l) as [[v' [w' o']]|] eqn:Ef end.
  - apply list_find_Some in Ef as (Ez & Hf & _). apply lookup_zip_with_Some in Ez as (x & y & [= <- <-] & Ew & Eo).
    exists v', w'. split; [done|]. split; [done|]. specialize (Ho v' w' Ew). rewrite Eo in Ho. injection Ho as ->.
    pose proof (next_place w' i ltac:(by eapply list_elem_of_lookup_2)) as Hp. destruct (_ !! Z.to_nat (next_of w'.1 i)) as [p|] eqn:Ep; [|done].
    apply Is_true_true, Z.eqb_eq in Hf. subst p. destruct (proj1 Hp eq_refl) as (d & E'). rewrite E' in Eh. by injection Eh as <-.
  - exfalso. apply list_find_None in Ef. assert (zip ws offsets !! v = Some (w, next_of w.1 i)) as Ez by (apply lookup_zip_with_Some; exists w, (next_of w.1 i); auto).
    apply list_elem_of_lookup_2 in Ez. rewrite Forall_forall in Ef. apply (Ef _ Ez). cbn.
    rewrite (proj2 (next_place w i ltac:(by eapply list_elem_of_lookup_2))) by (exists h.2; rewrite <- E; by destruct h). apply Is_true_true, Z.eqb_refl.
Qed.

Lemma next_step i h w : hits !! i = Some h -> next_of w (S i) = next_of w i + (if decide (h.1 = w) then 1 else 0).
Proof.
  intros Eh. unfold next_of. rewrite (take_S_r _ _ _ Eh), indexed_snoc, share_snoc. cbn [fst snd]. case_decide; [by rewrite vsize_snoc|]. rewrite app_nil_r. lia.
Qed.

Lemma sources_step i h : hits !! i = Some h -> sources_of (S i) = sources_of i ++ [(texts_for h.1 (docs_for hits h.1), next_of h.1 i)].
Proof.
  intros Eh. unfold sources_of. rewrite (take_S_r _ _ _ Eh), indexed_snoc, map_app. cbn [map]. do 3 f_equal.
  unfold source. cbn [fst snd]. do 2 f_equal. unfold vsize. rewrite Nat2Z.id, length_take. apply lookup_lt_Some in Eh. lia.
Qed.

Lemma vsize_sources i : (i <= length hits)%nat -> vsize (sources_of i) = Z.of_nat i.
Proof. intros Hi. unfold sources_of, indexed, vsize. rewrite length_map, length_zip_with, length_seqZ, length_take. lia. Qed.

Lemma fill_page_ok k i offsets : (i + k = length hits)%nat -> offsets_ok i offsets ->
  fill_page result0 ws (seqZ (Z.of_nat i) (pageCount - Z.of_nat i)) offsets (page_of no_text result0 pageCount (sources_of i)) =
    Ret (page_of no_text result0 pageCount (sources_of (length hits))).
Proof.
  revert i offsets. induction k as [|k IH]; intros i offsets Hi Ho.
  - assert (i = length hits) as -> by lia. destruct (decide (pageCount - Z.of_nat (length hits) <= 0)); [by rewrite seqZ_nil|]. rewrite seqZ_cons by lia.
    cbn [fill_page]. by rewrite find_none by (done || by apply lookup_ge_None_2).
  - destruct (lookup_lt_is_Some_2 hits i) as [h Eh]; [lia|]. unfold vsize in Hcount. rewrite seqZ_cons by lia. cbn [fill_page].
    destruct (find_some i offsets h Ho Eh) as (v & w & -> & Ew & E1). destruct Ho as [Hl Ho].
    assert (vget ws (Z.of_nat v) = Ret w) as -> by (apply vget_Ret; split; [lia|by rewrite Nat2Z.id]). cbn [res_bind]. destruct w as [w r]. cbn [fst] in E1. subst w.
    assert (vget offsets (Z.of_nat v) = Ret (next_of h.1 i)) as -> by (apply vget_Ret; split; [lia|]; rewrite Nat2Z.id; by apply (Ho v (h.1, r))). cbn [res_bind].
    pose proof (aw_texts _ _ Hans (h.1, r) ltac:(by eapply list_elem_of_lookup_2)) as Et. cbn [fst snd] in Et. rewrite Et. rewrite <- (vsize_sources i) at 1 by lia.
    rewrite copy_texts_ok; [|rewrite vsize_sources; lia|apply vsize_nonneg]. cbn [res_bind]. rewrite <- sources_step by done.
    pose proof (lookup_lt_Some _ _ _ Ew) as Hv. rewrite vset_Ret by (unfold vsize; lia). cbn [res_bind].
    replace (Z.succ (Z.of_nat i)) with (Z.of_nat (S i)) by lia. replace (Z.pred (pageCount - Z.of_nat i)) with (pageCount - Z.of_nat (S i)) by lia.
    apply IH; [lia|]. split; [by rewrite length_insert|]. intros v' w' Ew'. rewrite Nat2Z.id, (next_step i h) by done.
    assert (0 <= next_of h.1 i < 2 ^ 63) as Hb.
    { unfold next_of, vsize, share_of. split; [lia|]. eapply Z.le_lt_trans; [apply inj_le, length_filter|]. unfold indexed, vsize. rewrite length_zip_with, length_seqZ, length_take. lia. }
    destruct (decide (v' = v)) as [->|Hne].
    + rewrite Ew in Ew'. injection Ew' as <-. cbn [fst]. rewrite list_lookup_insert_eq by lia. rewrite decide_True by done. f_equal. apply u64_small. lia.
    + rewrite list_lookup_insert_ne by lia. rewrite (Ho v' w' Ew'). f_equal. rewrite decide_False; [lia|]. intros E. apply Hne.
      apply (NoDup_lookup (map fst ws) v' v (h.1) Hdistinct); rewrite list_lookup_fmap; [rewrite Ew'; cbn; by rewrite E|by rewrite Ew].
Qed.
End Fill.

(** *** There and back *)
(** The text of the document of place [j]. *)
Lemma place_text hits (sel : PageTexts X -> list (list X)) show n dis j h :
  (forall w docs, sel (texts_for w docs) = map (fun dis => map (show w dis) docs) (seqZ 0 n)) -> 0 <= dis < n -> hits !! j = Some h ->
  place no_text sel (sources_of hits (length hits)) dis (Z.of_nat j) = show h.1 dis h.2.
Proof.
  intros Hsel Hd Eh. unfold place, sources_of. rewrite Nat2Z.id, list_lookup_fmap, firstn_all, (indexed_lookup _ _ _ Eh). cbn [fmap option_fmap option_map].
  unfold source. cbn [fst snd]. rewrite Hsel, Nat2Z.id. unfold text_at. rewrite list_lookup_fmap, lookup_seqZ_lt by lia. cbn [fmap option_fmap option_map mbind option_bind].
  rewrite list_lookup_fmap. unfold docs_for. destruct (share_split hits h.1 j) as (rest & E & _ & Hat). specialize (Hat h Eh). rewrite decide_True in Hat by done. destruct Hat as [rest' ->].
  rewrite E, map_app, lookup_app_r by (rewrite length_map; unfold next_of, vsize; lia). rewrite length_map. unfold next_of, vsize. rewrite Nat2Z.id, Nat.sub_diag. cbn. f_equal. lia.
Qed.

Lemma table_text hits (sel : PageTexts X -> list (list X)) show n pageCount :
  (forall w docs, sel (texts_for w docs) = map (fun dis => map (show w dis) docs) (seqZ 0 n)) ->
  table no_text pageCount sel (sources_of hits (length hits)) n =
  map (fun dis => map (fun i => match hits !! Z.to_nat i with Some h => show h.1 dis h.2 | None => no_text end) (seqZ 0 pageCount)) (seqZ 0 n).
Proof.
  intros Hsel. apply map_ext_in. intros dis Hd%list_elem_of_In%elem_of_seqZ. apply map_ext_in. intros i Hi%list_elem_of_In%elem_of_seqZ.
  destruct (hits !! Z.to_nat i) as [h|] eqn:Eh.
  - rewrite <- (Z2Nat.id i) at 1 by lia. by apply (place_text hits sel show n).
  - unfold place. apply lookup_ge_None in Eh. rewrite lookup_ge_None_2; [done|]. unfold sources_of, indexed. rewrite length_map, length_zip_with, length_take. lia.
Qed.

(** The page of [hits]: the texts [show] of every document in its place. *)
Definition page_texts (hits : list hit) (pageCount : Z) : PageTexts X :=
  let rows show n := map (fun dis => map (fun i => match hits !! Z.to_nat i with Some h => show h.1 dis h.2 | None => no_text end) (seqZ 0 pageCount)) (seqZ 0 n) in
  MkTexts (rows show_snippet nd) (rows show_full nd) (rows show_raw ns).

Lemma summary_ok total m m' ws : parts_ok total (indexed (page_hits_of total)) m -> m' ≡ₚ m -> Forall2 answers_part m' ws -> m <> [] ->
  0 <= count_ total < 2 ^ 63 -> getSummaryResult no_text ws total = Ret (set_texts (page_texts (page_hits_of total) (count_ total)) total).
Proof.
  intros Hm Hp Hall Hne Hc. set (hits := page_hits_of total) in *. pose proof (parts_answered total hits m m' ws Hm Hp Hall) as Hans.
  assert (NoDup (map fst ws)) as Hnd'.
  { assert (map fst ws = map fst m') as -> by (clear -Hall; induction Hall as [|p w m' ws (E & _) _ IH]; [done|]; cbn; by rewrite E, IH).
    rewrite Hp. apply om_sorted_NoDup. by destruct Hm. }
  destruct ws as [|[w0 r0] ws']; [destruct m'; [by apply Permutation_nil in Hp|by inversion Hall]|]. set (ws := (w0, r0) :: ws') in *.
  unfold getSummaryResult. assert (first_worker_error ws = None) as ->.
  { assert (forall l, (forall w, w ∈ l -> error_ w.2 = ""%string) -> first_worker_error (T := T) (X := X) l = None) as H.
    { intros l. induction l as [|w l IH]; intros Hl; [done|]. cbn. rewrite (Hl w) by (by left). cbn. apply IH. intros w' Hw'. apply Hl. by right. }
    apply H. intros w Hw. by apply (aw_error _ _ Hans). }
  change (match ws with [] => Ret total | (_, result0) :: _ => _ end) with
    (let* page := fill_page r0 ws (seqZ 0 (count_ total)) (replicate (length ws) 0) (init_texts no_text r0 (count_ total)) in Ret (set_texts page total)).
  assert (vsize hits <= count_ total) as Hvh by (unfold hits, page_hits_of, vsize; rewrite length_take; lia).
  rewrite init_page by lia. pose proof (fill_page_ok hits ws r0 (count_ total) Hans ltac:(lia) Hnd' (length hits) 0 (replicate (length ws) 0) ltac:(lia)) as Hf.
  change (Z.of_nat 0) with 0 in Hf. rewrite Z.sub_0_r in Hf. change (sources_of hits 0) with (@nil (PageTexts X * Z)) in Hf. rewrite Hf; cycle 1.
  { split; [apply length_replicate|]. intros v w Ev. rewrite lookup_replicate_2 by (by apply lookup_lt_Some in Ev). done. }
  cbn [res_bind]. do 2 f_equal. unfold page_of, page_texts.
  pose proof (aw_texts _ _ Hans (w0, r0) ltac:(by left)) as Et. cbn [fst snd] in Et. rewrite Et. cbn [texts_for snippetTextOfDocumentInPage_ rawTextOfSummaryInPage_].
  rewrite !vsize_map_seqZ by done. f_equal; by apply table_text.
Qed.

(** C6: the texts of a page that is divided among its workers come back to their
    places: if every worker answers the texts of the documents it is asked for, in
    any order of the workers, place [i] of every property holds the text of the
    [i]-th document of the page, and places without a document stay empty. *)
Theorem page_round_trip total : 0 < TOP_K_NUM total < 2 ^ 31 -> vsize (topKWorkerIds_ total) = vsize (topKDocs_ (main total)) ->
  0 <= count_ total < 2 ^ 63 -> vsize (topKDocs_ (main total)) < 2 ^ 63 ->
  exists parts, splitSearchResultByWorkerid UTF_8 no_query total [] = Ret parts /\
    forall parts' ws, parts' ≡ₚ parts -> Forall2 answers_part parts' ws -> parts <> [] ->
      getSummaryResult no_text ws total = Ret (set_texts (page_texts (page_hits_of total) (count_ total)) total).
Proof.
  intros Ht Hw Hc Hn. destruct (split_ok total) as (m & E & Hm); [lia|by apply u64_small; lia|done..|lia|].
  exists m. split; [done|]. intros m' ws Hp Hall Hne. by apply (summary_ok total m m').
Qed.
End Page.

(** ** A page of the merged result *)
Section Ask.
Context {T X : Type} (UTF_8 : Z) (no_query : T) (no_text : X).
Context (show_snippet show_full show_raw : Z -> Z -> Z -> X) (nd ns : Z).
Hypothesis Hnd : 0 <= nd.
Hypothesis Hns : 0 <= ns.
Notation result := (DistResult T X).
Notation hit := (Z * Z)%type.

Lemma adjust_first (r : result) : 0 <= start_ r < 2 ^ 62 -> 0 <= count_ r < 2 ^ 62 -> vsize (topKDocs_ (main r)) < 2 ^ 63 ->
  let n := vsize (topKDocs_ (main r)) in
  adjustStartCount 0 r = set_range (Z.min (start_ r) n) (Z.min (count_ r) (n - Z.min (start_ r) n)) r.
Proof.
  intros Hs Hc Hn n. fold n in Hn. pose proof (vsize_nonneg (topKDocs_ (main r))). fold n in H. unfold adjustStartCount. rewrite Z.add_0_l, (u64_small (vsize _)) by lia. fold n.
  assert ((if n <? start_ r then n else start_ r) = Z.min (start_ r) n) as -> by (destruct (Z.ltb_spec n (start_ r)); lia).
  rewrite u64_small by lia. f_equal. destruct (Z.ltb_spec n (Z.min (start_ r) n + count_ r)); [rewrite u64_small by lia|]; lia.
Qed.

(** [r] lists [hits], of which the page [start], [count] is wanted. *)
Record lists_hits (r : result) (hits : list hit) (start count : Z) : Prop := {
  lh_docs : topKDocs_ (main r) = map snd hits;
  lh_workers : topKWorkerIds_ r = map fst hits;
  lh_start : start_ r = start /\ 0 <= start < TOP_K_NUM r;
  lh_count : count_ r = count /\ 0 <= count < 2 ^ 62;
  lh_top : vsize hits <= TOP_K_NUM r < 2 ^ 31
}.
Definition page_cut (hits : list hit) (start count : Z) : list hit := take (Z.to_nat count) (drop (Z.to_nat start) hits).

(** The texts of the page are in their places. *)
Definition shows_page (r : result) (hits : list hit) (start count : Z) : Prop :=
  let page := page_cut hits start count in
  count_ r = vsize page /\ (page <> [] -> texts r = page_texts no_text show_snippet show_full show_raw nd ns page (vsize page)).

Lemma zip_fst_snd (hits : list hit) : zip (map fst hits) (map snd hits) = hits.
Proof. induction hits as [|[w d] hits IH]; [done|]. cbn. by rewrite IH. Qed.

Lemma adjusted_page r hits start count : lists_hits r hits start count ->
  page_hits_of (adjustStartCount 0 r) = page_cut hits start count /\ count_ (adjustStartCount 0 r) = vsize (page_cut hits start count).
Proof.
  intros [Ed Ew [Es Hs] [Ec Hc] Ht]. pose proof (vsize_nonneg hits) as H0.
  assert (vsize (topKDocs_ (main r)) = vsize hits) as Hn by (rewrite Ed; unfold vsize; by rewrite length_map).
  rewrite adjust_first by lia. rewrite Hn, Es, Ec. unfold page_hits_of, page_cut. cbn [set_range count_ start_ topKWorkerIds_ main TOP_K_NUM]. rewrite Ed, Ew, zip_fst_snd.
  unfold vsize in *. rewrite length_take, length_drop. destruct (decide (start < Z.of_nat (length hits))) as [Hlt|Hge].
  - rewrite (Z.min_l start), Z.mod_small by lia. split; [|lia]. destruct (decide (count <= Z.of_nat (length hits) - start)); [f_equal; lia|].
    rewrite !take_ge; [done|rewrite length_drop; lia..].
  - rewrite (Z.min_r start) by lia. rewrite Z.sub_diag, Z.min_r by lia. rewrite (drop_ge hits (Z.to_nat start)), take_nil by lia. split; [done|lia].
Qed.

Context (summary : list (Z * result) -> list (Z * result)).
Hypothesis Hsummary : forall parts, exists parts', parts' ≡ₚ parts /\ Forall2 (answers_part show_snippet show_full show_raw nd ns) parts' (summary parts).

Lemma ask_texts_ok r hits start count : lists_hits r hits start count ->
  exists r', ask_texts UTF_8 no_query no_text (adjustStartCount 0 r) summary = Ret r' /\ main r' = main r /\ topKWorkerIds_ r' = topKWorkerIds_ r /\
    TOP_K_NUM r' = TOP_K_NUM r /\ shows_page r' hits start count.
Proof.
  intros Hr. destruct (adjusted_page r hits start count Hr) as [Hpage Hcount]. destruct Hr as [Ed Ew [Es Hs] [Ec Hc] Ht].
  set (a := adjustStartCount 0 r) in *. assert (main a = main r /\ topKWorkerIds_ a = topKWorkerIds_ r /\ TOP_K_NUM a = TOP_K_NUM r) as (Ea1 & Ea2 & Ea3) by done.
  assert (vsize (map snd hits) = vsize hits) as Hv by (unfold vsize; by rewrite length_map).
  assert (0 <= count_ a < 2 ^ 63) as Hca by (rewrite Hcount; unfold page_cut, vsize in *; rewrite length_take, length_drop; lia).
  unfold ask_texts. destruct (split_ok UTF_8 no_query a) as (m & -> & Hm); rewrite ?Ea1, ?Ea2, ?Ea3, ?Ed, ?Ew, ?Hv; [lia|apply u64_small; lia|unfold vsize; by rewrite !length_map|done|lia|lia|].
  cbn [res_bind]. rewrite Hpage in Hm. destruct m as [|p m].
  - exists a. do 5 (split; [done|]). intros Hne. exfalso. destruct (page_cut hits start count) as [|h pl] eqn:Ep; [done|].
    destruct (number_in (h :: pl) h ltac:(by left)) as (i & Hi). destruct Hm as [_ Hf]. specialize (Hf h.1). cbn in Hf.
    destruct (share_of h.1 (indexed (h :: pl))); [by apply elem_of_nil in Hi|done].
  - cbn [is_nil]. destruct (Hsummary (p :: m)) as (parts' & Hp & Hall). rewrite <- Hpage in Hm.
    rewrite (summary_ok UTF_8 no_query no_text show_snippet show_full show_raw nd ns Hnd Hns a (p :: m) parts' _ Hm Hp Hall) by done.
    eexists. do 5 (split; [done|]). intros _. cbn [texts set_texts]. by rewrite Hpage, Hcount.
Qed.
End Ask.

(** ** The whole distributed search *)
Section Master.
Context {T X QA : Type} `{!WideDocId, !TextOrder T, !PQueue QA (T * spec_float)}.
Context (roundDown : Z -> Z -> Z) (UTF_8 : Z) (no_query : T) (no_text : X).
Notation result := (DistResult T X).
Context (shards : list (shard (T := T) (X := X))) (k : Z) (lt : ScoreDoc -> ScoreDoc -> bool).
Hypothesis Hk : 0 <= k < 2 ^ 63.
Hypothesis Hshards : Forall (shard_ok k lt) shards.
Hypothesis Hnewer : StrictWeak IsNewerDocId.
Notation all_hits := (concat (map hits_of shards)).
Hypothesis Hapart : forall x y, x ∈ all_hits -> y ∈ all_hits -> apart x y.
Hypothesis Htotal : total_on below all_hits.
Hypothesis Hsize : vsize all_hits < 2 ^ 63.
Context (show_snippet show_full show_raw : Z -> Z -> Z -> X) (nd ns : Z).
Hypothesis Hnd : 0 <= nd.
Hypothesis Hns : 0 <= ns.

(** The best [top] of all documents. *)
Definition best_hits (top : Z) : list (Z * Z) := map (fun h => (h.1, docId h.2)) (take (Z.to_nat top) (sort_desc below all_hits)).

End Master.

(** ** A search over two workers that answer in reverse order *)
Definition ex_show (kind : string) (w dis d : Z) : string := kind ++ (if d =? 5 then "five" else if d =? 8 then "eight" else "other").
Definition ex_snippet := ex_show "".
Definition ex_full := ex_show "all of "%string.
Definition ex_summary (parts : list (Z * DistResult Z string)) : list (Z * DistResult Z string) :=
  map (fun p => (p.1, set_error "" (set_texts (texts_for ex_snippet ex_full ex_full 1 0 p.1 (docsInPage_ p.2)) p.2))) (rev parts).

Lemma ex_summary_ok parts : exists parts', parts' ≡ₚ parts /\ Forall2 (answers_part ex_snippet ex_full ex_full 1 0) parts' (ex_summary parts).
Proof.
  exists (rev parts). split; [symmetry; apply Permutation_rev|]. unfold ex_summary. generalize (rev parts) as l. intros l.
  induction l as [|p l IH]; [constructor|]. constructor; [|done]. by split_and!.
Qed.

Definition ex_remote (r : DistResult Z string) : DistResult Z string :=
  Dist (error_ r) (info r) (main r) (topKWorkerIds_ r) (autoSelectGroupLabels_ r) (start_ r) (count_ r) (TOP_K_NUM r)
    (majorTokenNum_ r) false (docsInPage_ r) (pageOffsetList_ r) (MkTexts [] [] []).
Definition ex_remotes : list (shard (T := Z) (X := string)) := map (fun s => Shard (sh_worker s) (sh_hits s) (ex_remote (sh_result s))) ex_shards.

Lemma ex_remotes_ok : Forall (shard_ok 2 ex_lt) ex_remotes.
Proof.
  unfold ex_remotes. apply Forall_fmap. eapply Forall_impl; [exact ex_shards_ok|]. intros s [H1 H2 H3 H4 H5 H6 H7]. by split.
Qed.


Definition ex_total : DistResult Z string :=
  set_range 0 2 (set_top 2 (set_workers [1; 2] (set_main (Result 5 no_range [] clear [] [5; 8] [] [] [] no_sort_data) ex_new))).

Lemma page_round_trip_witness : exists parts, splitSearchResultByWorkerid 0 0 ex_total [] = Ret parts /\
  getSummaryResult ""%string (ex_summary parts) ex_total = Ret (set_texts (MkTexts [["five"; "eight"]] [["all of five"; "all of eight"]] [])%string ex_total).
Proof.
  destruct (page_round_trip 0 0 ""%string ex_snippet ex_full ex_full 1 0 ltac:(lia) ltac:(lia) ex_total) as (parts & E & Hp).
  - done.
  - done.
  - done.
  - done.
  - exists parts. split; [exact E|]. destruct (ex_summary_ok parts) as (parts' & H1 & H2). rewrite (Hp parts' _ H1 H2); [vm_compute; repeat split|].
    intros ->. vm_compute in E. discriminate.
Defined.

(** The merged list has at most [TOP_K_NUM] documents, and the master cuts off its
    first [topKStart]: of five documents, the second page of two is empty, and the
    worker ids stay. *)
Definition ex_all_answers : list (Z * DistResult Z string) :=
  [(1, set_range 2 2 (ex_remote (ex_result [5; 3; 1] [dbl 9 0; dbl 4 0; dbl 1 0] 3 0 no_sort_data [])));
   (2, set_range 2 2 (ex_remote (ex_result [8; 2] [dbl 7 0; dbl 2 0] 2 0 no_sort_data [])))].
Example second_page_empty : match getSearchResult (QA := heap (Z * spec_float)) ex_roundDown 0 0 ""%string 2 2 2 true false None (fun _ => ex_all_answers) ex_summary with
  | Ret r => topKDocs_ (main r) = [] /\ topKWorkerIds_ r = [1; 2] /\ totalCount_ (main r) = 5 /\ count_ r = 0 | _ => False end.
Proof. vm_compute. repeat split. Qed.
