(* ===== verification/Sharding.v ===== *)
(** * Sharding: which node a document belongs to

Models node-manager/sharding/: ShardingStrategy.{h,cpp}, ShardingConfig.h and
ScdSharder.cpp. The shard of a document is computed from its unique key, either
by a hash, or by a map from 65535 virtual nodes to shards, which is kept in a
file so that it stays the same when shards are added. [uuidToUint128] and
boost::lexical_cast are parameters; the stream that reads the file is modelled.
Keys of ranges and attributes are never set (their setters are empty) and left
out. *)
From Stdlib Require Import String.
From stdpp Require Import pretty.
From S2P Require Import Prelude OrdMap.

(** ** Keys *)

(** ShardingConfig *)
Record ShardingConfig := MkShardingConfig {
  shardidList_ : list Z;
  unique_shardkey_ : string
}.
Definition isUniqueShardKey (c : ShardingConfig) (prop_key : string) : bool := String.eqb (unique_shardkey_ c) prop_key.

(** Utilities::uuidToUint128, boost::lexical_cast<size_t> *)
Class KeyNumbers := {
  uuidToUint128 : string -> Z;
  lexical_cast_size : string -> option Z
}.

Definition MAX_MAP_SIZE : Z := 65535.

(** A [char] as a [size_t]: it is signed. *)
Definition char_size (c : ascii) : Z := let n := Z.of_nat (nat_of_ascii c) in if n <? 128 then n else u64 (n - 256).

Section Strategies.
Context `{!KeyNumbers}.

(** The last character of an empty key does not exist. *)
Definition convertUniqueIDForSharding (uid : string) : res Z :=
  let n := String.length uid in
  if (n =? 32)%nat then Ret (u64 (uuidToUint128 uid))
  else
    match lexical_cast_size uid with
    | Some tmp => Ret tmp
    | None => match last (list_ascii_of_string uid) with Some c => Ret (char_size c) | None => Undef end
    end.

Notation ShardFieldListT := (gmap string string).
Implicit Types shardFieldList : ShardFieldListT.

(** ** HashShardingStrategy *)
Definition hash_index (c : ShardingConfig) (uid : string) : res Z :=
  let* shardIndex := convertUniqueIDForSharding uid in
  vget (shardidList_ c) (shardIndex mod vsize (shardidList_ c)).

Definition hash_sharding_for_write (c : ShardingConfig) shardFieldList : res Z :=
  match shardidList_ c with
  | [] => Ret 0
  | [s] => Ret s
  | _ => match shardFieldList !! unique_shardkey_ c with Some uid => hash_index c uid | None => Ret 0 end
  end.

Definition hash_sharding_for_get (c : ShardingConfig) shardFieldList : res (list Z) :=
  match shardidList_ c with
  | [] => Ret []
  | [s] => Ret [s]
  | l => match shardFieldList !! unique_shardkey_ c with Some uid => let* s := hash_index c uid in Ret [s] | None => Ret l end
  end.

(** ** MapShardingStrategy *)
Record MapShardingStrategy := MapStrategy {
  shard_cfg_ : ShardingConfig;
  saved_sharding_map_ : list Z
}.

(** *** The file of the map *)

(** [ofs << (uint32_t)id << std::endl] *)
Definition newline : ascii := ascii_of_nat 10.
Definition print_id (id : Z) : list ascii := list_ascii_of_string (pretty id) ++ [newline].

(** What the file holds after saving; [None]: there is no file. *)
Definition saveShardingMapToFile (file : option (list ascii)) (sharding_map : list Z) : option (list ascii) :=
  if negb (vsize sharding_map =? MAX_MAP_SIZE) then file
  else Some (concat (map (fun id => if 0 <? id then print_id id else []) sharding_map)).

(** [ifs >> tmpid] for a uint32_t: the value, the characters left, and whether the
    stream is still good. *)
Definition is_space (c : ascii) : bool := let n := Z.of_nat (nat_of_ascii c) in (n =? 32) || ((9 <=? n) && (n <=? 13)).
Definition digit_of (c : ascii) : option Z :=
  let n := Z.of_nat (nat_of_ascii c) - 48 in if (0 <=? n) && (n <=? 9) then Some n else None.
Fixpoint skip_space (s : list ascii) : list ascii :=
  match s with c :: s' => if is_space c then skip_space s' else s | [] => [] end.
Fixpoint read_digits (acc : option Z) (s : list ascii) : option Z * list ascii :=
  match s with
  | c :: s' => match digit_of c with Some d => read_digits (Some (10 * default 0 acc + d)) s' | None => (acc, s) end
  | [] => (acc, [])
  end.
Definition extract_uint32 (s : list ascii) : Z * list ascii * bool :=
  let '(negative, s) :=
    match skip_space s with
    | c :: s' => if Ascii.eqb c "+" then (false, s') else if Ascii.eqb c "-" then (true, s') else (false, c :: s')
    | [] => (false, [])
    end in
  match read_digits None s with
  | (None, s) => (0, s, false)
  | (Some n, s) =>
      if n <? 2 ^ 32 then (if negative : bool then u32 (- n) else n, s, negb (is_nil s)) else (2 ^ 32 - 1, s, false)
  end.

Definition read_step (st : list ascii * bool * list Z) : res ((list ascii * bool * list Z) + list Z) :=
  let '(ifs, good, sharding_map) := st in
  if good : bool then
    let '(tmpid, ifs, good) := extract_uint32 ifs in
    let shardid := u8 tmpid in
    let sharding_map := if shardid =? 0 then sharding_map else sharding_map ++ [shardid] in
    if vsize sharding_map =? MAX_MAP_SIZE then Ret (inr sharding_map) else Ret (inl (ifs, good, sharding_map))
  else Ret (inr sharding_map).

(** Without a file the map stays. *)
Definition readShardingMapFile (file : option (list ascii)) (sharding_map : list Z) : res (list Z) :=
  match file with
  | None => Ret sharding_map
  | Some ifs =>
      let* sharding_map := while_loop read_step (ifs, true, []) in
      Ret (if vsize sharding_map =? MAX_MAP_SIZE then sharding_map else [])
  end.

Definition save (t : MapShardingStrategy) (file : option (list ascii)) : option (list ascii) :=
  if is_nil (saved_sharding_map_ t) then file else saveShardingMapToFile file (saved_sharding_map_ t).

Definition init (map_file_path_ : string) (t : MapShardingStrategy) (file : option (list ascii)) : res (bool * MapShardingStrategy * option (list ascii)) :=
  if String.eqb map_file_path_ "" then Ret (false, t, file)
  else
    match file with
    | None =>
        let l := shardidList_ (shard_cfg_ t) in
        if vsize l <=? 1 then Ret (true, t, file)
        else
          let* m := mfold (fun i m => let* s := vget l (i mod vsize l) in vset m i s) (seqZ 0 MAX_MAP_SIZE) (vresize MAX_MAP_SIZE 0 []) in
          let t := MapStrategy (shard_cfg_ t) m in
          Ret (true, t, save t file)
    | Some _ =>
        let* m := readShardingMapFile file (saved_sharding_map_ t) in
        Ret (true, MapStrategy (shard_cfg_ t) m, file)
    end.

(** *** The shard of a document *)
Definition map_uid (t : MapShardingStrategy) (uid : string) : res Z :=
  match shardidList_ (shard_cfg_ t) with
  | [s] => Ret s
  | _ =>
      let m := saved_sharding_map_ t in
      if is_nil m then Ret 0
      else let* index := convertUniqueIDForSharding uid in vget m (index mod vsize m)
  end.

Definition map_sharding_for_write (t : MapShardingStrategy) shardFieldList : res Z :=
  match shardFieldList !! unique_shardkey_ (shard_cfg_ t) with Some uid => map_uid t uid | None => Ret 0 end.

Definition map_sharding_for_get (t : MapShardingStrategy) shardFieldList : res (list Z) :=
  match shardFieldList !! unique_shardkey_ (shard_cfg_ t) with
  | Some uid => let* selected_id := map_uid t uid in Ret (if 0 <? selected_id then [selected_id] else [])
  | None => Ret (shardidList_ (shard_cfg_ t))
  end.

(** ** ScdSharder *)
Notation SCDDoc := (list (string * string)).

(** The first property that is the unique key. *)
Definition setShardKeyValues (c : ShardingConfig) (scdDoc : SCDDoc) shardFieldList : ShardFieldListT :=
  match List.find (fun p => isUniqueShardKey c p.1) scdDoc with
  | Some p => <[p.1 := p.2]> shardFieldList
  | None => shardFieldList
  end.

Definition sharding (shardingStrategy_ : option MapShardingStrategy) (scdDoc : SCDDoc) : res Z :=
  match shardingStrategy_ with
  | None => Ret 0
  | Some t => map_sharding_for_write t (setShardKeyValues (shard_cfg_ t) scdDoc ∅)
  end.
End Strategies.

(** ** The file is read as it was written *)
Section File.
Implicit Types (m : list Z) (rest : list ascii).

Lemma extract_all : Forall (fun id => forall rest, extract_uint32 (print_id id ++ rest) = (id, newline :: rest, true) /\
  extract_uint32 (newline :: print_id id ++ rest) = (id, newline :: rest, true)) (seqZ 1 255).
Proof.
  let l := eval vm_compute in (seqZ 1 255) in change (seqZ 1 255) with l.
  repeat (constructor; [intros rest; split; vm_compute; reflexivity|]). constructor.
Qed.

Lemma extract_id id rest : 0 < id < 256 -> extract_uint32 (print_id id ++ rest) = (id, newline :: rest, true) /\
  extract_uint32 (newline :: print_id id ++ rest) = (id, newline :: rest, true).
Proof. intros Hi. pose proof extract_all as H. rewrite Forall_forall in H. apply (H id). apply elem_of_seqZ. lia. Qed.

Definition id_ok (id : Z) : Prop := 0 < id < 256.

(** The characters left when [i] ids are read. *)
Definition file_from m (i : nat) : list ascii := (if decide (i = 0%nat) then [] else [newline]) ++ concat (map print_id (drop i m)).

Lemma save_valid file m : vsize m = MAX_MAP_SIZE -> Forall id_ok m -> saveShardingMapToFile file m = Some (concat (map print_id m)).
Proof.
  intros Hm Hok. unfold saveShardingMapToFile. rewrite Hm, Z.eqb_refl. cbn [negb]. do 2 f_equal. apply map_ext_in. intros id Hid%list_elem_of_In.
  rewrite Forall_forall in Hok. specialize (Hok id Hid). unfold id_ok in Hok. destruct (Z.ltb_spec 0 id); [done|lia].
Qed.

Lemma file_roundtrip file m0 m : vsize m = MAX_MAP_SIZE -> Forall id_ok m -> readShardingMapFile (saveShardingMapToFile file m) m0 = Ret m.
Proof.
  intros Hm Hok. rewrite save_valid by done. unfold readShardingMapFile.
  destruct (while_loop_rule read_step (fun (i : nat) st => (Z.of_nat i < MAX_MAP_SIZE) /\ st = (file_from m i, true, take i m))
    (fun i => MAX_MAP_SIZE - Z.of_nat i) (fun b => b = m)) with (g := 0%nat) (s := (concat (map print_id m), true, @nil Z)) as (b & -> & ->); [|done|done|].
  - intros i st [Hi ->]. split; [lia|]. destruct (lookup_lt_is_Some_2 m i) as [id Eid]; [unfold vsize in Hm; lia|].
    assert (id_ok id) as Hid by (rewrite Forall_forall in Hok; apply Hok; by eapply list_elem_of_lookup_2).
    assert (extract_uint32 (file_from m i) = (id, file_from m (S i), true)) as Ex.
    { unfold file_from. rewrite (drop_S _ _ _ Eid). cbn [map concat]. destruct (decide (S i = 0%nat)); [done|].
      destruct (decide (i = 0%nat)); [by apply extract_id|]. by apply extract_id. }
    cbn [read_step]. rewrite Ex. unfold id_ok in Hid. rewrite u8_small by lia. destruct (Z.eqb_spec id 0); [lia|].
    rewrite <- (take_S_r _ _ _ Eid). assert (vsize (take (S i) m) = Z.of_nat i + 1) as Hs by (unfold vsize in *; rewrite length_take; lia). rewrite Hs.
    destruct (Z.eqb_spec (Z.of_nat i + 1) MAX_MAP_SIZE) as [E|E].
    + right. eexists. split; [done|]. apply take_ge. unfold vsize in Hm. lia.
    + left. exists (S i). eexists. split; [done|]. split; [split; [lia|done]|lia].
  - rsimpl. by rewrite Hm, Z.eqb_refl.
Qed.

(** A map with an id 0 does not survive: its line is missing. *)
Lemma read_missing file m0 : file <> None -> (exists ifs, file = Some ifs /\ while_loop read_step (ifs, true, []) = Ret m0 /\ vsize m0 <> MAX_MAP_SIZE) ->
  readShardingMapFile file m0 = Ret [].
Proof. intros _ (ifs & -> & E & Hs). cbn. rewrite E. rsimpl. by destruct (Z.eqb_spec (vsize m0) MAX_MAP_SIZE). Qed.
End File.

(** ** A new map *)

(** [i mod k = j] for one [i] in [k]. *)
Lemma count_mod k j n : 0 <= j < k -> 0 <= n -> count (fun i => i mod k =? j) (seqZ 0 n) = (n + k - 1 - j) / k.
Proof.
  intros Hj Hn. pattern n. apply natlike_ind; [| |done].
  - symmetry. apply Z.div_small. lia.
  - intros m Hm IH. replace (Z.succ m) with (m + 1) by lia. rewrite seqZ_app, count_app, IH by lia. rewrite Z.add_0_l. change (seqZ m 1) with [m]. rewrite count_cons, count_nil.
    pose proof (Z.div_mod m k ltac:(lia)) as Em. pose proof (Z.mod_pos_bound m k ltac:(lia)) as Hr. set (q := m / k) in *. set (r := m mod k) in *.
    rewrite <- (Z.div_unique (m + k - 1 - j) k (if r <=? j then q else q + 1) (if r <=? j then r + k - 1 - j else r - 1 - j)) by (destruct (Z.leb_spec r j); nia).
    rewrite <- (Z.div_unique (m + 1 + k - 1 - j) k (if r <? j then q else q + 1) (if r <? j then r + k - j else r - j)) by (destruct (Z.ltb_spec r j); nia).
    destruct (Z.eqb_spec r j), (Z.leb_spec r j), (Z.ltb_spec r j); lia.
Qed.

(** The shards take turns. *)
Definition turns (l : list Z) : list Z := map (fun i => default 0 (l !! Z.to_nat (i mod vsize l))) (seqZ 0 MAX_MAP_SIZE).

Lemma vsize_turns l : vsize (turns l) = MAX_MAP_SIZE.
Proof. unfold turns, vsize. by rewrite length_map, length_seqZ. Qed.

Lemma turns_elem l s : 1 < vsize l -> s ∈ turns l -> s ∈ l.
Proof.
  intros Hl (i & -> & Hi)%list_elem_of_fmap. pose proof (Z.mod_pos_bound i (vsize l) ltac:(lia)).
  destruct (lookup_lt_is_Some_2 l (Z.to_nat (i mod vsize l))) as [s E]; [unfold vsize in *; lia|]. rewrite E. by eapply list_elem_of_lookup_2.
Qed.

Lemma turns_init l : 1 < vsize l ->
  mfold (fun i m => let* s := vget l (i mod vsize l) in vset m i s) (seqZ 0 MAX_MAP_SIZE) (vresize MAX_MAP_SIZE 0 []) = Ret (turns l).
Proof.
  intros Hl. set (F i := default 0 (l !! Z.to_nat (i mod vsize l))).
  destruct (mfold_seqZ (fun i m => let* s := vget l (i mod vsize l) in vset m i s) (fun n => vec_is MAX_MAP_SIZE (fun i => if i <? n then F i else 0)) 0 MAX_MAP_SIZE (vresize MAX_MAP_SIZE 0 []))
    as (m & -> & Hm); [done| | |].
  - intros i m Hi Hm. pose proof (Z.mod_pos_bound i (vsize l) ltac:(lia)). destruct (vget_in_range l (i mod vsize l)) as [s Es]; [lia|]. rewrite Es. rsimpl.
    destruct (vec_is_set _ _ m i s Hm ltac:(lia)) as (m' & -> & Hm'). exists m'. split; [done|]. eapply vec_is_ext; [exact Hm'|]. intros j Hj. cbn beta.
    apply vget_Ret in Es as [_ Es]. destruct (Z.eqb_spec j i) as [->|].
    + destruct (Z.ltb_spec i (i + 1)); [|lia]. unfold F. by rewrite Es.
    + destruct (Z.ltb_spec j i), (Z.ltb_spec j (i + 1)); (done || lia).
  - unfold vresize. rewrite take_nil, app_nil_l. cbn [length]. rewrite Nat.sub_0_r. eapply vec_is_ext; [by apply vec_is_replicate|]. intros i Hi. destruct (Z.ltb_spec i 0); [lia|done].
  - f_equal. eapply vec_is_inj; [exact Hm|]. split; [apply vsize_turns|]. intros i Hi. apply vget_Ret. split; [lia|]. unfold turns. rewrite list_lookup_fmap, lookup_seqZ_lt by lia.
    cbn [fmap option_fmap option_map]. destruct (Z.ltb_spec i (0 + MAX_MAP_SIZE)); [|lia]. unfold F. by rewrite Z.add_0_l, Z2Nat.id by lia.
Qed.

Lemma count_turns l s : 1 < vsize l -> NoDup l -> s ∈ l -> exists j, 0 <= j < vsize l /\ count (fun x => x =? s) (turns l) = (MAX_MAP_SIZE + vsize l - 1 - j) / vsize l.
Proof.
  intros Hl Hnd (j & Ej)%list_elem_of_lookup. pose proof (lookup_lt_Some _ _ _ Ej). exists (Z.of_nat j). split; [unfold vsize; lia|].
  rewrite <- count_mod by (done || unfold vsize; lia). unfold turns.
  assert (forall L, (forall i, i ∈ L -> 0 <= i) -> count (fun x => x =? s) (map (fun i => default 0 (l !! Z.to_nat (i mod vsize l))) L) =
    count (fun i => i mod vsize l =? Z.of_nat j) L) as HL.
  { induction L as [|i L IH]; intros HL; [done|]. cbn [map]. rewrite !count_cons. pose proof (Z.mod_pos_bound i (vsize l) ltac:(lia)) as Hi.
    destruct (lookup_lt_is_Some_2 l (Z.to_nat (i mod vsize l))) as [x Ex]; [unfold vsize in *; lia|]. rewrite Ex. cbn [default from_option Datatypes.id].
    rewrite IH by (intros y Hy; apply HL; by right). f_equal.
    destruct (Z.eqb_spec x s) as [->|Hne], (Z.eqb_spec (i mod vsize l) (Z.of_nat j)) as [Em|Hm]; try done.
    - exfalso. apply Hm. rewrite <- (NoDup_lookup _ _ _ _ Hnd Ex Ej), Z2Nat.id; [done|apply Hi].
    - exfalso. apply Hne. rewrite Em, Nat2Z.id in Ex. congruence. }
  apply HL. intros i Hi%elem_of_seqZ. lia.
Qed.

Lemma new_map l : 1 < vsize l -> NoDup l -> exists m,
  mfold (fun i m => let* s := vget l (i mod vsize l) in vset m i s) (seqZ 0 MAX_MAP_SIZE) (vresize MAX_MAP_SIZE 0 []) = Ret m /\
  vsize m = MAX_MAP_SIZE /\ (forall s, s ∈ m -> s ∈ l) /\
  forall s, s ∈ l -> MAX_MAP_SIZE / vsize l <= count (fun x => x =? s) m <= MAX_MAP_SIZE / vsize l + 1.
Proof.
  intros Hl Hnd. exists (turns l). split; [by apply turns_init|]. split; [apply vsize_turns|]. split; [intros s; by apply turns_elem|].
  intros s Hin. destruct (count_turns l s Hl Hnd Hin) as (j & Hj & ->).
  pose proof (Z.div_le_mono MAX_MAP_SIZE (MAX_MAP_SIZE + vsize l - 1 - j) (vsize l) ltac:(lia) ltac:(lia)).
  pose proof (Z.div_le_mono (MAX_MAP_SIZE + vsize l - 1 - j) (MAX_MAP_SIZE + 1 * vsize l) (vsize l) ltac:(lia) ltac:(lia)) as Hd. rewrite Z.div_add in Hd by lia. lia.
Qed.

(** ** Where documents go *)
Section Places.
Context `{!KeyNumbers}.

Lemma convert_ok uid : uid <> ""%string -> exists h, convertUniqueIDForSharding uid = Ret h.
Proof.
  intros Hne. unfold convertUniqueIDForSharding. destruct (String.length uid =? 32)%nat; [by eexists|]. destruct (lexical_cast_size uid); [by eexists|].
  destruct uid as [|c uid]; [done|]. cbn [list_ascii_of_string]. destruct (last (c :: list_ascii_of_string uid)) eqn:E; [by eexists|]. by apply last_None in E.
Qed.

(** The virtual node of a key. *)
Definition vnode_of (uid : string) (v : Z) : Prop := exists h, convertUniqueIDForSharding uid = Ret h /\ v = h mod MAX_MAP_SIZE.

Lemma vnode_range uid v : vnode_of uid v -> 0 <= v < MAX_MAP_SIZE.
Proof. intros (h & _ & ->). by apply Z.mod_pos_bound. Qed.

Lemma map_uid_vnode c m uid v : vsize (shardidList_ c) <> 1 -> vsize m = MAX_MAP_SIZE -> vnode_of uid v -> map_uid (MapStrategy c m) uid = vget m v.
Proof.
  intros Hc Hm (h & Eh & ->). unfold map_uid. cbn [shard_cfg_ saved_sharding_map_]. rewrite Eh. rsimpl.
  destruct m as [|s m]; [done|]. cbn [is_nil]. rewrite Hm. destruct (shardidList_ c) as [|? [|]]; done.
Qed.

(** C9: the map of a collection with two or more shards, made when there is no file
    yet: every shard has its equal part of the virtual nodes; every document with
    a key is written to one of the shards, and looked up only there; and a
    strategy that reads the saved file, for whatever shards the collection has
    then, sends every document to the same shard. *)
Theorem map_strategy_places map_file_path_ l key : map_file_path_ <> ""%string -> 1 < vsize l -> NoDup l -> Forall id_ok l ->
  let c := MkShardingConfig l key in
  exists m file, init map_file_path_ (MapStrategy c []) None = Ret (true, MapStrategy c m, Some file) /\ vsize m = MAX_MAP_SIZE /\
    (forall s, s ∈ l -> MAX_MAP_SIZE / vsize l <= count (fun x => x =? s) m <= MAX_MAP_SIZE / vsize l + 1) /\
    (forall fields uid, fields !! key = Some uid -> uid <> ""%string ->
       exists s, s ∈ l /\ map_sharding_for_write (MapStrategy c m) fields = Ret s /\ map_sharding_for_get (MapStrategy c m) fields = Ret [s]) /\
    forall l' m', vsize l' <> 1 -> exists t, init map_file_path_ (MapStrategy (MkShardingConfig l' key) m') (Some file) = Ret (true, t, Some file) /\
      forall fields, map_sharding_for_write t fields = map_sharding_for_write (MapStrategy c m) fields.
Proof.
  intros Hp Hl Hnd Hok c. subst c. destruct (new_map l Hl Hnd) as (m & Em & Hs & Helem & Hcount). exists m.
  assert (Forall id_ok m) as Hids by (apply Forall_forall; intros s Hin; rewrite Forall_forall in Hok; by apply Hok, Helem).
  exists (concat (map print_id m)). unfold init. cbn [shard_cfg_ shardidList_]. rewrite (proj2 (String.eqb_neq _ _) Hp).
  destruct (Z.leb_spec (vsize l) 1); [lia|]. rewrite Em. cbn [res_bind]. split.
  { unfold save. cbn [saved_sharding_map_]. rewrite save_valid by done. by destruct m. }
  split; [done|]. split; [done|]. split.
  - intros fields uid Ef Hne. destruct (convert_ok uid Hne) as (h & Eh). assert (vnode_of uid (h mod MAX_MAP_SIZE)) as Hv by (by exists h).
    destruct (vget_in_range m (h mod MAX_MAP_SIZE)) as [s Es]; [rewrite Hs; by eapply vnode_range|]. exists s.
    assert (s ∈ m) as Hin by (apply vget_Ret in Es as [_ Es]; by eapply list_elem_of_lookup_2). split; [by apply Helem|].
    unfold map_sharding_for_write, map_sharding_for_get. cbn [shard_cfg_ unique_shardkey_]. rewrite Ef, (map_uid_vnode _ _ _ (h mod MAX_MAP_SIZE)), Es by (cbn; (done || lia)). cbn [res_bind].
    split; [done|]. rewrite Forall_forall in Hids. specialize (Hids s Hin). unfold id_ok in Hids. destruct (Z.ltb_spec 0 s); [done|lia].
  - intros l' m' Hl'. exists (MapStrategy (MkShardingConfig l' key) m).
    rewrite <- (save_valid None m) by done. rewrite file_roundtrip by done. cbn [res_bind]. rewrite save_valid by done. split; [done|].
    intros fields. unfold map_sharding_for_write. cbn [shard_cfg_ unique_shardkey_].
    destruct (fields !! key) as [uid|]; [|done]. unfold map_uid. cbn [shard_cfg_ saved_sharding_map_ shardidList_].
    destruct l as [|? [|? l]], l' as [|? [|? l']]; done.
Qed.
End Places.

(** ** An example *)
#[export] Instance ex_numbers : KeyNumbers := {|
  uuidToUint128 _ := 2 ^ 100 + 7;
  lexical_cast_size s := (read_digits None (list_ascii_of_string s)).1
|}.

Lemma map_strategy_places_witness : exists m file, init "map" (MapStrategy (MkShardingConfig [3; 5] "DOCID") []) None = Ret (true, MapStrategy (MkShardingConfig [3; 5] "DOCID") m, Some file) /\
  32767 <= count (fun x => x =? 5) m <= 32768 /\
  exists s, s ∈ [3; 5] /\ map_sharding_for_write (MapStrategy (MkShardingConfig [3; 5] "DOCID") m) {["DOCID" := "17"]}%string = Ret s.
Proof.
  destruct (map_strategy_places "map" [3; 5] "DOCID") as (m & file & E & _ & Hc & Hd & _).
  - done.
  - done.
  - by apply (bool_decide_unpack _); vm_compute.
  - by repeat constructor.
  - exists m, file. split; [exact E|]. split.
    { specialize (Hc 5 ltac:(apply list_elem_of_In; vm_compute; tauto)). replace (MAX_MAP_SIZE / vsize [3; 5]) with 32767 in Hc by (by vm_compute). exact Hc. }
    destruct (Hd {["DOCID" := "17"]}%string "17"%string ltac:(clear; by vm_compute) ltac:(clear; discriminate)) as (s & Hs & Hw & _). exists s. split; [exact Hs|exact Hw].
Defined.
