(* ===== verification/Migrate.v ===== *)
(** * Adding and removing shards

Models the part of bundles/index/IndexTaskService.cpp that changes the shards of
a collection, with IndexWorker::generateMigrateSCD and
DistributeFileSyncMgr::generateMigrateScds: a plan says which virtual nodes go to
which shard; every shard writes the documents of its virtual nodes to files;
these are indexed by the new shards and then deleted from the old ones; then the
map is saved. What other nodes answer, and whether they can be reached, is an
argument; reading, indexing and deleting documents are parameters. *)
From Stdlib Require Import String.
From stdpp Require Import pretty.
From S2P Require Import Prelude OrdMap Sharding.

(** ShardingTopologyT: the virtual nodes of each shard. *)
Notation Topology := (list (Z * list Z)).
(** Source and destination of each virtual node that moves. *)
Notation MigrateList := (list (Z * (Z * Z))).

(** [m[k].push_back(v)] *)
Definition om_push {K V} `{!TextOrder K} (m : list (K * list V)) (k : K) (v : V) : list (K * list V) := om_set m k (default [] (om_find m k) ++ [v]).
Definition om_erase {V} (m : list (Z * V)) (k : Z) : list (Z * V) := filter (fun e => e.1 <> k) m.

Definition topology_of (sharding_map : list Z) : Topology :=
  foldl (fun topo e => om_push topo e.2 (u16 e.1)) [] (indexed sharding_map).

(** ** Removing shards *)
Record Removal := {
  left_sharding_nodes : list Z;
  rm_topology : Topology;
  migrate_to_it : nat;
  rm_migrate : MigrateList;
  rm_map : list Z
}.

Section Remove.
Context (new_vnode_for_sharding : Z).

(** [more]: other shards to be removed follow. The answer [false] is [return false]. *)
Fixpoint remove_vnodes (from : Z) (more : bool) (vids : list Z) (st : Removal) : res (bool * Removal) :=
  match vids with
  | [] => Ret (true, st)
  | vid :: vids =>
      match rm_topology st !! migrate_to_it st with
      | None => Undef
      | Some (to, held) =>
          let held := held ++ [vid] in
          let* sharding_map := vset (rm_map st) vid to in
          let topo := <[migrate_to_it st := (to, held)]> (rm_topology st) in
          let migrate := om_set (rm_migrate st) vid (from, to) in
          if new_vnode_for_sharding <? vsize held then
            let st := Build_Removal (left_sharding_nodes st ++ [to]) topo (S (migrate_to_it st)) migrate sharding_map in
            if (migrate_to_it st =? length topo)%nat then Ret (is_nil vids && negb more, st)
            else remove_vnodes from more vids st
          else remove_vnodes from more vids (Build_Removal (left_sharding_nodes st) topo (migrate_to_it st) migrate sharding_map)
      end
  end.

Fixpoint remove_shards (removed : Topology) (st : Removal) : res (bool * Removal) :=
  match removed with
  | [] => Ret (true, st)
  | (from, vids) :: removed =>
      let* (ok, st) := remove_vnodes from (negb (is_nil removed)) vids st in
      if ok : bool then remove_shards removed st else Ret (false, st)
  end.

(** The shards to be removed with their virtual nodes, and the others. *)
Definition take_out (remove_sharding_nodes : list Z) (topo : Topology) : Topology * Topology :=
  foldl (fun '(removed, topo) s => (om_set removed s (default [] (om_find topo s)), om_erase topo s)) ([], topo) remove_sharding_nodes.

Definition removeSharding (remove_sharding_nodes : list Z) (topo : Topology) (sharding_map : list Z) : res (bool * Removal) :=
  let '(removed, topo) := take_out remove_sharding_nodes topo in
  let st := Build_Removal [] topo 0 [] sharding_map in
  if is_nil topo || negb (vsize removed =? vsize remove_sharding_nodes) then Ret (false, st)
  else
    let* (ok, st) := remove_shards removed st in
    if ok : bool then
      Ret (true, Build_Removal (left_sharding_nodes st ++ map fst (drop (migrate_to_it st) (rm_topology st))) (rm_topology st) (length (rm_topology st)) (rm_migrate st) (rm_map st))
    else Ret (false, st).
End Remove.

(** ** Adding shards *)
Record Addition := {
  migrate_to : Z;
  new_sharding_topology : Topology;
  ad_migrate : MigrateList;
  ad_map : list Z
}.

Section Add.
Context (new_sharding_nodes : list Z) (new_vnode_for_sharding : Z).

(** The inner loop over the indices [idxs] of [vids]. *)
Fixpoint move_vnodes (from : Z) (vids idxs : list Z) (migrate_start : Z) (st : Addition) : res (Z * Addition) :=
  match idxs with
  | [] => Ret (migrate_start, st)
  | vnode_index :: idxs =>
      let* vid := vget vids vnode_index in
      let* to := vget new_sharding_nodes (migrate_to st) in
      let* sharding_map := vset (ad_map st) vid to in
      let topo := om_push (new_sharding_topology st) to vid in
      let migrate := om_set (ad_migrate st) vid (from, to) in
      let migrate_start := u64 (migrate_start - 1) in
      if new_vnode_for_sharding <=? vsize (default [] (om_find topo to)) then
        let st := Build_Addition (migrate_to st + 1) topo migrate sharding_map in
        if vsize new_sharding_nodes <=? migrate_to st then Ret (migrate_start, st)
        else move_vnodes from vids idxs migrate_start st
      else move_vnodes from vids idxs migrate_start (Build_Addition (migrate_to st) topo migrate sharding_map)
  end.

(** The [while] loop of one shard. *)
Definition shard_step (from : Z) (s : Z * list Z * Addition) : res ((Z * list Z * Addition) + (list Z * Addition)) :=
  let '(migrate_start, vids, st) := s in
  if vsize new_sharding_nodes <=? migrate_to st then Ret (inr (vids, st))
  else if vsize vids <=? new_vnode_for_sharding then Ret (inr (vids, st))
  else
    let idxs := map (fun i => migrate_start - i) (seqZ 0 (migrate_start - new_vnode_for_sharding)) in
    let* (migrate_start, st) := move_vnodes from vids idxs migrate_start st in
    if vsize vids <? migrate_start then Undef
    else Ret (inl (migrate_start, take (Z.to_nat migrate_start) vids, st)).

Fixpoint migrateSharding (topo : Topology) (st : Addition) : res (Topology * Addition) :=
  match topo with
  | [] => Ret ([], st)
  | (from, vids) :: topo =>
      let* (vids, st) := while_loop (shard_step from) (u64 (vsize vids - 1), vids, st) in
      if vsize new_sharding_nodes <=? migrate_to st then Ret ((from, vids) :: topo, st)
      else let* (topo, st) := migrateSharding topo st in Ret ((from, vids) :: topo, st)
  end.
End Add.

(** ** The files of the documents that move *)
Section Documents.
Context {Node Doc : Type} `{!KeyNumbers}.
Context (getMaxDocId : Node -> Z) (getDocument : Node -> Z -> option Doc) (DOCID : Doc -> option string).

(** Per shard: the documents to be indexed, or deleted. *)
Notation Scds := (list (Z * list Doc)).

(** The first shard that gets the virtual node; 0: none. *)
Definition found_shardid (vnode_list : Topology) (vnode_index : Z) : Z :=
  match List.find (fun e => bool_decide (vnode_index ∈ e.2)) vnode_list with Some e => e.1 | None => 0 end.

Definition migrate_doc (my_shard : Z) (vnode_list : Topology) (n : Node) (curDocId : Z) (scds : Scds * Scds) : res (Scds * Scds) :=
  let '(inserts, deletes) := scds in
  match getDocument n curDocId with
  | None => Ret scds
  | Some document =>
      match DOCID document with
      | None => Ret scds
      | Some docid_str =>
          let* scd_docid := convertUniqueIDForSharding docid_str in
          let s := found_shardid vnode_list (scd_docid mod MAX_MAP_SIZE) in
          if s =? 0 then Ret scds else Ret (om_push inserts s document, om_push deletes my_shard document)
      end
  end.

Definition generateMigrateSCD (my_shard : Z) (n : Node) (vnode_list : Topology) : res (Scds * Scds) :=
  mfold (migrate_doc my_shard vnode_list n) (seqZ 1 (getMaxDocId n)) ([], []).

(** *** Asking the nodes *)

(** A node cannot be reached, does not take the request, fails or does not answer
    in time, or answers its files. *)
Inductive Answer := Unreachable | Refused | Failed | Generated (scds : Scds * Scds).

Notation Files := (list (Z * list (list Doc))).
Definition add_scds (scds : Scds) (files : Files) : Files := foldl (fun files e => om_push files e.1 e.2) files scds.
Definition add_both (scds : Scds * Scds) (files : Files * Files) : Files * Files := (add_scds scds.1 files.1, add_scds scds.2 files.2).

(** [None] is [return false]. *)
Fixpoint send_requests (local_ip : string) (ask : string -> Topology -> res Answer) (from : list (string * Topology))
    : res (option (Topology * list (option (Scds * Scds)))) :=
  match from with
  | [] => Ret (Some ([], []))
  | (ip, vnode_list) :: from =>
      if String.eqb ip local_ip then
        let* r := send_requests local_ip ask from in
        Ret ((fun r => (vnode_list, r.2)) <$> r)
      else
        let* a := ask ip vnode_list in
        match a with
        | Unreachable => Ret None
        | _ =>
            let* r := send_requests local_ip ask from in
            Ret ((fun r => (r.1, match a with Failed => [None] | Generated scds => [Some scds] | _ => [] end ++ r.2)) <$> r)
        end
  end.

Definition add_responses (responses : list (option (Scds * Scds))) (files : Files * Files) : option (Files * Files) :=
  foldl (fun files r => match files, r with Some files, Some scds => Some (add_both scds files) | _, _ => None end) (Some files) responses.

(** The responses arrive in the order [arrive]. *)
Definition generateMigrateScds (local_ip : string) (arrive : list (option (Scds * Scds)) -> list (option (Scds * Scds)))
    (ask : string -> Topology -> res Answer) (from : list (string * Topology)) : res (option (Files * Files)) :=
  let* r := send_requests local_ip ask from in
  match r with
  | None => Ret None
  | Some (local_scds, responses) =>
      if is_nil local_scds then Ret (add_responses (arrive responses) ([], []))
      else
        let* a := ask local_ip local_scds in
        match a with
        | Generated scds => Ret (add_responses (arrive responses) (add_both scds ([], [])))
        | _ => Ret None
        end
  end.

(** ** The migration *)
Context (run_insert run_delete : Node -> list Doc -> Node).

Record World := {
  nodes : gmap Z Node;
  map_file : option (list ascii);
  sent_config : option string
}.

(** What the rest of the cluster does. *)
Record Cluster := {
  getShardNodeIP : Z -> string;
  local_ip : string;
  shard_at : string -> option Z;
  fate : string -> option Answer;
  arrival : list (option (Scds * Scds)) -> list (option (Scds * Scds));
  begin_migrate : bool;
  migrate_ready : bool;
  new_nodes_started : bool;
  push_insert : Z -> bool;
  push_delete : Z -> bool
}.
Context (cl : Cluster).

(** A node answers its files, unless its fate is another. *)
Definition ask_node (w : World) (ip : string) (vnode_list : Topology) : res Answer :=
  match fate cl ip, shard_at cl ip with
  | Some a, _ => Ret a
  | None, None => Ret Unreachable
  | None, Some s =>
      match nodes w !! s with
      | None => Ret Unreachable
      | Some n => let* scds := generateMigrateSCD s n vnode_list in Ret (Generated scds)
      end
  end.

(** The files of each shard, in the order of the shards, up to the first that does
    not get them. *)
Fixpoint indexShardingNodes (run : Node -> list Doc -> Node) (push : Z -> bool) (files : Files) (ns : gmap Z Node) : bool * gmap Z Node :=
  match files with
  | [] => (true, ns)
  | (s, fs) :: files =>
      if push s then indexShardingNodes run push files (alter (fun n => run n (concat fs)) s ns) else (false, ns)
  end.

(** [migrate_from_to_list]; [None]: a node has no address. *)
Definition group_by_source (migrate_data_list : MigrateList) : option (list (string * Topology)) :=
  foldl (fun from e =>
    from ← from;
    let ip := getShardNodeIP cl e.2.1 in
    if String.eqb ip "" then None else Some (om_set from ip (om_push (default [] (om_find from ip)) e.2.2 e.1))) (Some []) migrate_data_list.

(** getShardidStr, and what updateShardingConfig sends. *)
Definition getShardidStr (s : Z) : string := pretty (u32 s).
Definition updateShardingConfig (shardList_ new_sharding_nodes : list Z) (removing : bool) : string :=
  foldl (fun cfg s => if String.eqb cfg "" then getShardidStr s else (cfg ++ "," ++ getShardidStr s)%string) ""%string
    ((if removing then [] else shardList_) ++ new_sharding_nodes).

Definition doMigrateWork (shardList_ : list Z) (removing : bool) (migrate_data_list : MigrateList) (migrate_nodes : list Z)
    (current_sharding_map : list Z) (w : World) : res (bool * World) :=
  match group_by_source migrate_data_list with
  | None => Ret (false, w)
  | Some migrate_from_to_list =>
      let* generated := generateMigrateScds (local_ip cl) (arrival cl) (ask_node w) migrate_from_to_list in
      match generated with
      | None => Ret (false, w)
      | Some (generated_insert_scds, generated_del_scds) =>
          if negb (migrate_ready cl) then Ret (false, w)
          else if negb removing && negb (new_nodes_started cl) then Ret (false, w)
          else
            let '(ok, ns) := indexShardingNodes run_insert (push_insert cl) generated_insert_scds (nodes w) in
            if negb ok then Ret (false, Build_World ns (map_file w) (sent_config w))
            else
              let '(_, ns) := indexShardingNodes run_delete (push_delete cl) generated_del_scds ns in
              Ret (true, Build_World ns (saveShardingMapToFile (map_file w) current_sharding_map)
                (Some (updateShardingConfig shardList_ migrate_nodes removing)))
      end
  end.

(** IndexTaskService as far as it is used here: the shards of the collection, and
    the configuration of its strategy, if it has one. *)
Record Service := {
  isMasterAggregator : bool;
  shardList_ : list Z;
  sharding_strategy_ : option ShardingConfig
}.
Context (sv : Service).

Definition current_sharding_num : Z := match sharding_strategy_ sv with Some c => vsize (shardidList_ c) | None => 0 end.

Definition addNewShardingNodes (new_sharding_nodes : list Z) (w : World) : res (bool * World) :=
  if negb (isMasterAggregator sv) then Ret (false, w)
  else if current_sharding_num =? 0 then Ret (false, w)
  else if is_nil new_sharding_nodes then Ret (false, w)
  else if existsb (fun s => bool_decide (s ∈ shardList_ sv)) new_sharding_nodes then Ret (false, w)
  else
    let* current_sharding_map := readShardingMapFile (map_file w) [] in
    let* current_sharding_map :=
      (match shardList_ sv with
       | [s] => Ret (if is_nil current_sharding_map then vresize MAX_MAP_SIZE s [] else current_sharding_map)
       | _ => Ret current_sharding_map end) in
    if is_nil current_sharding_map then Ret (false, w)
    else if vsize current_sharding_map <? current_sharding_num + vsize new_sharding_nodes then Ret (false, w)
    else
      let new_vnode_for_sharding := vsize current_sharding_map / (current_sharding_num + vsize new_sharding_nodes) in
      let* (_, st) := migrateSharding new_sharding_nodes new_vnode_for_sharding (topology_of current_sharding_map)
        (Build_Addition 0 [] [] current_sharding_map) in
      if negb (begin_migrate cl) then Ret (false, w)
      else doMigrateWork (shardList_ sv) false (ad_migrate st) new_sharding_nodes (ad_map st) w.

Definition removeShardingNodes (remove_sharding_nodes : list Z) (w : World) : res (bool * World) :=
  if negb (isMasterAggregator sv) then Ret (false, w)
  else if current_sharding_num =? 0 then Ret (false, w)
  else if is_nil remove_sharding_nodes then Ret (false, w)
  else if current_sharding_num =? 1 then Ret (false, w)
  else if current_sharding_num <=? vsize remove_sharding_nodes then Ret (false, w)
  else if existsb (fun s => negb (bool_decide (s ∈ shardList_ sv))) remove_sharding_nodes then Ret (false, w)
  else
    let* current_sharding_map := readShardingMapFile (map_file w) [] in
    if is_nil current_sharding_map then Ret (false, w)
    else
      let new_vnode_for_sharding := vsize current_sharding_map / (current_sharding_num - vsize remove_sharding_nodes) in
      let* (ret, st) := removeSharding new_vnode_for_sharding remove_sharding_nodes (topology_of current_sharding_map) current_sharding_map in
      if negb ret || is_nil (left_sharding_nodes st) then Ret (false, w)
      else if negb (begin_migrate cl) then Ret (false, w)
      else doMigrateWork (shardList_ sv) true (rm_migrate st) (left_sharding_nodes st) (rm_map st) w.
End Documents.
