(* ===== verification/MigrateSpec.v ===== *)
(** * Adding and removing shards: what moves, and that nothing is lost

The results of Migrate.v: the plans move virtual nodes only to the shards that
should get them and leave every shard its part; a migration that fails or
succeeds leaves every document where the saved map says. *)
From Stdlib Require Import String.
From S2P Require Import Prelude OrdMap Sharding Migrate.

(** ** Moving one virtual node *)
Definition held_by (s : Z) (m : list Z) : Z := count (fun x => x =? s) m.

Lemma held_set m v a b : vget m v = Ret a -> exists m', vset m v b = Ret m' /\ vsize m' = vsize m /\
  (forall u, 0 <= u -> vget m' u = if u =? v then Ret b else vget m u) /\
  forall s, held_by s m' = held_by s m - (if a =? s then 1 else 0) + (if b =? s then 1 else 0).
Proof.
  intros Ea. apply vget_Ret in Ea as [Hv Ea]. pose proof (lookup_lt_Some _ _ _ Ea) as Hlt. assert (vset m v b = Ret (<[Z.to_nat v := b]> m)) as E by (apply vset_Ret; unfold vsize; lia).
  eexists. split; [exact E|]. split; [by eapply vset_vsize|]. split; [intros u Hu; by apply (vget_vset m v b)|]. intros s. unfold held_by.
  rewrite insert_take_drop by done. rewrite <- (take_drop_middle m _ _ Ea) at 3. rewrite !count_app, !count_cons. lia.
Qed.

(** [m'] is [m] with some virtual nodes moved to [dests], which are listed. *)
Record moves (dests : list Z) (m m' : list Z) (migrate : MigrateList) : Prop := {
  mv_size : vsize m' = vsize m;
  mv_sorted : om_sorted migrate;
  mv_moved : forall v a b, om_find migrate v = Some (a, b) -> vget m v = Ret a /\ ~ (a ∈ dests) /\ vget m' v = Ret b /\ b ∈ dests;
  mv_stay : forall v, 0 <= v -> om_find migrate v = None -> vget m' v = vget m v
}.

Lemma moves_refl dests m : moves dests m m [].
Proof. split; [done|constructor|done|done]. Qed.

Lemma moves_step dests m m' migrate v a b m'' : moves dests m m' migrate -> vget m' v = Ret a -> a ∉ dests -> b ∈ dests ->
  vset m' v b = Ret m'' -> moves dests m m'' (om_set migrate v (a, b)).
Proof.
  intros [Hs Ho Hm Hstay] Ea Ha Hb E. assert (0 <= v) as Hv by (by apply vget_Ret in Ea as [? _]).
  destruct (om_find migrate v) as [[a' b']|] eqn:Ev.
  { destruct (Hm v a' b' Ev) as (_ & _ & E' & Hb'). rewrite Ea in E'. injection E' as ->. done. }
  assert (vget m v = Ret a) as Em by (by rewrite <- (Hstay v Hv Ev)).
  split; [by rewrite (vset_vsize _ _ _ _ E)|by apply om_set_sorted| |].
  - intros u a' b' Eu. destruct (decide (u = v)) as [->|Hne].
    + rewrite om_find_set_eq in Eu. injection Eu as <- <-. rewrite (vget_vset _ _ _ _ v E), Z.eqb_refl by done. done.
    + rewrite om_find_set_ne in Eu by done. destruct (Hm u a' b' Eu) as (H1 & H2 & H3 & H4). split; [done|]. split; [done|].
      assert (0 <= u) by (by apply vget_Ret in H1 as [? _]). rewrite (vget_vset _ _ _ _ u E) by done. destruct (Z.eqb_spec u v); done.
  - intros u Hu Eu. destruct (decide (u = v)) as [->|Hne]; [by rewrite om_find_set_eq in Eu|]. rewrite om_find_set_ne in Eu by done.
    rewrite (vget_vset _ _ _ _ u E) by done. destruct (Z.eqb_spec u v); [done|]. by apply Hstay.
Qed.

(** ** The topology of a map *)
Definition positions (s : Z) (m : list Z) : list Z := map fst (filter (fun e : Z * Z => e.2 = s) (indexed m)).

Lemma positions_snoc s m x : positions s (m ++ [x]) = positions s m ++ (if decide (x = s) then [vsize m] else []).
Proof. unfold positions. rewrite indexed_snoc, filter_app, map_app. f_equal. rewrite filter_cons, filter_nil. cbn [snd]. by case_decide. Qed.

Lemma positions_elem s m v : v ∈ positions s m <-> vget m v = Ret s.
Proof.
  unfold positions. rewrite list_elem_of_fmap. rewrite vget_Ret. split.
  - intros ([i a] & -> & [Ha (j & Ej)%list_elem_of_lookup]%list_elem_of_filter). cbn in Ha. subst a. apply indexed_lookup_inv in Ej as (a & Ej & [= -> ->]).
    cbn [fst]. rewrite Nat2Z.id. split; [lia|done].
  - intros [Hv E]. exists (v, s). split; [done|]. apply list_elem_of_filter. split; [done|]. apply indexed_lookup in E. rewrite Z2Nat.id in E by lia. by eapply list_elem_of_lookup_2.
Qed.

Lemma positions_held s m : vsize (positions s m) = held_by s m.
Proof.
  induction m as [|x m IH] using rev_ind; [done|]. rewrite positions_snoc, vsize_app, IH. unfold held_by. rewrite count_app, count_cons, count_nil.
  destruct (Z.eqb_spec x s), (decide (x = s)); done.
Qed.

Lemma positions_NoDup s m : NoDup (positions s m).
Proof.
  unfold positions. apply (sublist_NoDup _ (map fst (indexed m))).
  - unfold indexed. rewrite fst_zip by (unfold vsize; rewrite length_seqZ; lia). apply NoDup_seqZ.
  - apply fmap_sublist, sublist_filter.
Qed.

Lemma topology_find m : vsize m <= 2 ^ 16 -> om_sorted (topology_of m) /\ forall s, om_find (topology_of m) s = if is_nil (positions s m) then None else Some (positions s m).
Proof.
  induction m as [|x m IH] using rev_ind; intros Hm; [split; [constructor|done]|]. rewrite vsize_snoc in Hm. destruct (IH ltac:(lia)) as [Hs Hf]. pose proof (vsize_nonneg m).
  unfold topology_of. rewrite indexed_snoc, foldl_app. fold (topology_of m). cbn [foldl fst snd]. rewrite u16_small by lia. unfold om_push.
  split; [by apply om_set_sorted|]. intros s. rewrite positions_snoc. destruct (decide (x = s)) as [->|Hne].
  - rewrite om_find_set_eq, Hf. destruct (positions s m); done.
  - rewrite om_find_set_ne, app_nil_r by done. apply Hf.
Qed.

(** All virtual nodes of a topology. *)
Definition total_held (topo : Topology) : Z := foldr (fun e n => vsize e.2 + n) 0 topo.

Lemma total_push topo s v : total_held (om_push topo s v) = total_held topo + 1.
Proof.
  unfold om_push. induction topo as [|[s' vids] topo IH]; [done|]. cbn [om_set om_find]. destruct (tcompare s s'); cbn [total_held foldr snd default from_option Datatypes.id].
  - rewrite vsize_snoc. lia.
  - change (vsize ([] ++ [v])) with 1. lia.
  - unfold total_held in IH. rewrite IH. lia.
Qed.

Lemma topology_total m : total_held (topology_of m) = vsize m.
Proof.
  induction m as [|x m IH] using rev_ind; [done|]. unfold topology_of. rewrite indexed_snoc, foldl_app. fold (topology_of m). cbn [foldl].
  by rewrite total_push, IH, vsize_snoc.
Qed.

Lemma topology_entry m from vids : vsize m <= 2 ^ 16 -> (from, vids) ∈ topology_of m -> vids = positions from m /\ 0 < vsize vids.
Proof.
  intros Hm Hin. destruct (topology_find m Hm) as [Hs Hf]. apply (om_find_elem _ _ _ Hs) in Hin. rewrite Hf in Hin.
  destruct (positions from m) as [|v l] eqn:E; [done|]. injection Hin as <-. split; [done|]. rewrite vsize_cons. pose proof (vsize_nonneg l). lia.
Qed.

Lemma topology_keys m s : vsize m <= 2 ^ 16 -> s ∈ map fst (topology_of m) <-> s ∈ m.
Proof.
  intros Hm. destruct (topology_find m Hm) as [Hs Hf]. rewrite list_elem_of_fmap. split.
  - intros ([from vids] & -> & Hin). destruct (topology_entry m from vids Hm Hin) as [-> Hpos]. cbn [fst]. destruct (positions from m) as [|v l] eqn:E; [done|].
    assert (v ∈ positions from m) as Hv by (rewrite E; by left). apply positions_elem, vget_Ret in Hv as [_ Hv]. by eapply list_elem_of_lookup_2.
  - intros (i & Ei)%list_elem_of_lookup. assert (Z.of_nat i ∈ positions s m) as Hp by (apply positions_elem, vget_Ret; rewrite Nat2Z.id; split; [lia|done]).
    exists (s, positions s m). split; [done|]. apply (om_find_elem _ _ _ Hs). rewrite Hf. by destruct (positions s m); [apply elem_of_nil in Hp|].
Qed.

Lemma topology_NoDup m : vsize m <= 2 ^ 16 -> NoDup (map fst (topology_of m)).
Proof. intros Hm. apply om_sorted_NoDup. by destruct (topology_find m Hm). Qed.

Lemma topology_shards m shards : vsize m <= 2 ^ 16 -> Forall (fun s => s ∈ shards) m -> vsize (topology_of m) <= vsize shards.
Proof.
  intros Hm Hall. unfold vsize. apply inj_le. rewrite <- (length_map fst). apply submseteq_length, NoDup_submseteq; [by apply topology_NoDup|].
  intros s Hs. apply (topology_keys m s Hm) in Hs. rewrite Forall_forall in Hall. by apply Hall.
Qed.

(** ** Adding shards *)
Section Add.
Context (nw : list Z) (per : Z) (m : list Z).
Hypothesis Hper : 0 < per.
Hypothesis Hnw : NoDup nw.
Notation j := (vsize nw).

(** How many virtual nodes the [i]-th new shard has when [t] have moved. *)
Definition filled_to (i t : Z) : Z := Z.max 0 (Z.min per (t - i * per)).

Record add_inv (t : Z) (st : Addition) : Prop := {
  ai_range : 0 <= t <= j * per;
  ai_to : migrate_to st = t / per;
  ai_sorted : om_sorted (new_sharding_topology st);
  ai_topo : forall i s, nw !! i = Some s -> vsize (default [] (om_find (new_sharding_topology st) s)) = filled_to (Z.of_nat i) t;
  ai_held : forall i s, nw !! i = Some s -> held_by s (ad_map st) = filled_to (Z.of_nat i) t;
  ai_moves : moves nw m (ad_map st) (ad_migrate st)
}.

(** Nothing but [vid] moves, from the old shard [from]. *)
Lemma move_one t st from vid : add_inv t st -> t < j * per -> vget (ad_map st) vid = Ret from -> ~ (from ∈ nw) ->
  exists to map', vget nw (migrate_to st) = Ret to /\ vset (ad_map st) vid to = Ret map' /\
    let topo := om_push (new_sharding_topology st) to vid in
    let migrate := om_set (ad_migrate st) vid (from, to) in
    (per <=? vsize (default [] (om_find topo to))) = (t mod per =? per - 1) /\
    add_inv (t + 1) (Build_Addition (if t mod per =? per - 1 then migrate_to st + 1 else migrate_to st) topo migrate map') /\
    (forall u, 0 <= u -> u <> vid -> vget map' u = vget (ad_map st) u) /\
    (forall s, ~ (s ∈ nw) -> held_by s map' = held_by s (ad_map st) - (if s =? from then 1 else 0)).
Proof.
  intros [Hr Hto Hso Htopo Hheld Hmv] Ht Ev Hfrom.
  pose proof (Z.div_mod t per ltac:(lia)) as Hdm. pose proof (Z.mod_pos_bound t per ltac:(lia)) as Hmod. set (q := t / per) in *. set (r := t mod per) in *.
  assert (0 <= q < j) as Hq by (split; [apply Z.div_pos; lia|apply Z.div_lt_upper_bound; lia]).
  rewrite Hto. destruct (vget_in_range nw q Hq) as [to Eto]. pose proof Eto as Etol. apply vget_Ret in Etol as [_ Etol].
  destruct (held_set (ad_map st) vid from to Ev) as (map' & Eset & Hsz & Hget & Hcnt). exists to, map'. split; [done|]. split; [done|]. cbv zeta.
  assert (vsize (default [] (om_find (om_push (new_sharding_topology st) to vid) to)) = r + 1) as Hsize.
  { unfold om_push. rewrite om_find_set_eq. cbn [default from_option Datatypes.id]. rewrite vsize_snoc, (Htopo _ _ Etol). unfold filled_to. rewrite Z2Nat.id by lia. lia. }
  rewrite Hsize. split; [destruct (Z.leb_spec per (r + 1)), (Z.eqb_spec r (per - 1)); lia|].
  assert (forall i s, nw !! i = Some s -> filled_to (Z.of_nat i) (t + 1) = filled_to (Z.of_nat i) t + (if to =? s then 1 else 0)) as Hfill.
  { intros i s Ei. unfold filled_to. destruct (Z.eqb_spec to s) as [<-|Hne].
    - rewrite (NoDup_lookup _ _ _ _ Hnw Ei Etol), Z2Nat.id by lia. lia.
    - assert (Z.of_nat i <> q) by (intros E; apply Hne; rewrite <- E, Nat2Z.id in Etol; congruence). nia. }
  split; [split|split].
  - lia.
  - cbn [migrate_to]. destruct (Z.eqb_spec r (per - 1)).
    + apply Z.div_unique with 0; [lia|]. nia.
    + apply Z.div_unique with (r + 1); [lia|]. lia.
  - by apply om_set_sorted.
  - cbn [new_sharding_topology]. intros i s Ei. rewrite (Hfill _ _ Ei). destruct (Z.eqb_spec to s) as [<-|Hne].
    + rewrite Hsize, (NoDup_lookup _ _ _ _ Hnw Ei Etol), Z2Nat.id by lia. unfold filled_to. lia.
    + unfold om_push. rewrite om_find_set_ne by (done || congruence). rewrite (Htopo _ _ Ei). lia.
  - cbn [ad_map]. intros i s Ei. rewrite (Hfill _ _ Ei), Hcnt, (Hheld _ _ Ei). destruct (Z.eqb_spec from s) as [->|]; [|lia].
    exfalso. apply Hfrom. by apply (list_elem_of_lookup_2 _ i).
  - cbn [ad_map ad_migrate]. apply (moves_step nw m (ad_map st) (ad_migrate st) vid from to map' Hmv Ev Hfrom); [by eapply list_elem_of_lookup_2|exact Eset].
  - intros u Hu Hne. rewrite Hget by done. by rewrite (proj2 (Z.eqb_neq u vid) Hne).
  - intros s Hs. rewrite Hcnt. destruct (Z.eqb_spec to s) as [->|]; [exfalso; apply Hs; by eapply list_elem_of_lookup_2|]. rewrite (Z.eqb_sym from s). lia.
Qed.

(** [st'] differs from [st] only in [p] virtual nodes that leave [from]. *)
Record left_from (from p : Z) (st st' : Addition) : Prop := {
  lf_get : forall u, 0 <= u -> vget (ad_map st) u <> Ret from -> vget (ad_map st') u = vget (ad_map st) u;
  lf_held : forall s, ~ (s ∈ nw) -> held_by s (ad_map st') = held_by s (ad_map st) - (if s =? from then p else 0)
}.

Lemma left_from_refl from st : left_from from 0 st st.
Proof. split; [done|]. intros s _. destruct (s =? from); lia. Qed.

Lemma all_full t st : add_inv t st -> (j <=? migrate_to st) = (j * per <=? t).
Proof.
  intros [Hr Hto _ _ _ _]. rewrite Hto. pose proof (Z.div_mod t per ltac:(lia)). pose proof (Z.mod_pos_bound t per ltac:(lia)).
  destruct (Z.leb_spec j (t / per)), (Z.leb_spec (j * per) t); (done || nia).
Qed.

Lemma move_many from vids idxs : NoDup vids -> ~ (from ∈ nw) -> forall ms t st, NoDup idxs -> add_inv t st -> t < j * per -> vsize idxs <= ms < 2 ^ 64 ->
  (forall x, x ∈ idxs -> exists vid, vget vids x = Ret vid /\ vget (ad_map st) vid = Ret from) ->
  let p := Z.min (vsize idxs) (j * per - t) in
  exists st', move_vnodes nw per from vids idxs ms st = Ret (ms - p, st') /\ add_inv (t + p) st' /\ left_from from p st st'.
Proof.
  intros Hvids Hfrom. induction idxs as [|x idxs IH]; intros ms t st Hnd Hinv Ht Hms Hx p.
  { exists st. unfold p. change (vsize (@nil Z)) with 0. rewrite Z.min_l, Z.sub_0_r, Z.add_0_r by lia. split; [done|]. split; [done|]. apply left_from_refl. }
  apply NoDup_cons in Hnd as [Hnx Hnd]. rewrite vsize_cons in Hms. pose proof (vsize_nonneg idxs) as H0. unfold p. rewrite vsize_cons. clear p.
  destruct (Hx x ltac:(by left)) as (vid & Ex & Ev). destruct (move_one t st from vid Hinv Ht Ev Hfrom) as (to & map' & Eto & Eset & Hle & Hinv' & Hget & Hheld).
  cbn [move_vnodes]. rewrite Ex. cbn [res_bind]. rewrite Eto. cbn [res_bind]. rewrite Eset. cbn [res_bind]. cbv zeta in Hle. rewrite Hle. rewrite u64_small by lia.
  set (st1 := Build_Addition (if t mod per =? per - 1 then migrate_to st + 1 else migrate_to st) (om_push (new_sharding_topology st) to vid) (om_set (ad_migrate st) vid (from, to)) map') in *.
  assert (forall y, y ∈ idxs -> exists vid, vget vids y = Ret vid /\ vget (ad_map st1) vid = Ret from) as Hrest.
  { intros y Hy. destruct (Hx y ltac:(by right)) as (vid' & Ey & Ev'). exists vid'. split; [done|]. cbn [ad_map st1]. rewrite Hget; [done|by apply vget_Ret in Ev' as [? _]|].
    intros ->. apply Hnx. apply vget_Ret in Ex as [? Ex], Ey as [? Ey]. pose proof (NoDup_lookup _ _ _ _ Hvids Ex Ey). by replace x with y by lia. }
  assert (t + 1 < j * per -> exists st', move_vnodes nw per from vids idxs (ms - 1) st1 = Ret (ms - Z.min (1 + vsize idxs) (j * per - t), st') /\
    add_inv (t + Z.min (1 + vsize idxs) (j * per - t)) st' /\ left_from from (Z.min (1 + vsize idxs) (j * per - t)) st st') as Hgo.
  { intros Ht1. destruct (IH (ms - 1) (t + 1) st1 Hnd Hinv' Ht1 ltac:(lia) Hrest) as (st' & E & Hi & Hl). exists st'. rewrite E. clear IH.
    replace (Z.min (1 + vsize idxs) (j * per - t)) with (1 + Z.min (vsize idxs) (j * per - (t + 1))) by lia. split; [do 2 f_equal; lia|].
    split; [by rewrite Z.add_assoc|]. destruct Hl as [Hl1 Hl2]. split.
    - intros u Hu Hne. assert (u <> vid) as Huv by (intros ->; by rewrite Ev in Hne). rewrite Hl1 by (cbn [ad_map st1]; rewrite ?Hget; done). cbn [ad_map st1]. by apply Hget.
    - intros s Hs. rewrite Hl2 by done. cbn [ad_map st1]. rewrite Hheld by done. destruct (s =? from); lia. }
  destruct (Z.eqb_spec (t mod per) (per - 1)) as [Hm|Hm].
  - pose proof (all_full (t + 1) st1 Hinv') as Hfull. cbn [migrate_to st1] in Hfull. cbn [migrate_to]. rewrite Hfull. destruct (Z.leb_spec (j * per) (t + 1)) as [Hle1|Hlt]; [|by apply Hgo].
    exists st1. replace (Z.min (1 + vsize idxs) (j * per - t)) with 1 by lia. split; [done|]. split; [done|]. split.
    + intros u Hu Hne. apply Hget; [done|]. intros ->. by rewrite Ev in Hne.
    + intros s Hs. cbn [ad_map st1]. rewrite Hheld by done. by destruct (s =? from).
  - apply Hgo. destruct Hinv' as [Hr' _ _ _ _ _]. pose proof (Z.div_mod t per ltac:(lia)). pose proof (Z.mod_pos_bound t per ltac:(lia)).
    destruct (decide (t + 1 = j * per)) as [E|]; [|lia]. exfalso. apply Hm. symmetry. apply (Z.mod_unique _ _ (j - 1)); [lia|]. nia.
Qed.

(** What a shard with [n] virtual nodes gives away. *)
Definition gives (n t : Z) : Z := Z.min (Z.max 0 (n - 1 - per)) (j * per - t).

Lemma move_shard from vids t st : NoDup vids -> ~ (from ∈ nw) -> add_inv t st -> 0 < vsize vids < 2 ^ 63 ->
  (forall v, v ∈ vids -> vget (ad_map st) v = Ret from) ->
  exists vids' st', while_loop (shard_step nw per from) (u64 (vsize vids - 1), vids, st) = Ret (vids', st') /\
    add_inv (t + gives (vsize vids) t) st' /\ left_from from (gives (vsize vids) t) st st'.
Proof.
  intros Hnd Hfrom Hinv Hn Hv. pose proof (ai_range _ _ Hinv) as Hr. rewrite u64_small by lia. set (p := gives (vsize vids) t).
  set (done_at s := exists ms st', s = (ms, take (Z.to_nat ms) vids, st') /\ 0 <= ms <= vsize vids /\ add_inv (t + p) st' /\ left_from from p st st' /\ (j * per <= t + p \/ ms <= per)).
  destruct (while_loop_rule (shard_step nw per from) (fun (g : bool) s => if g then s = (vsize vids - 1, vids, st) else done_at s) (fun g => if g then 1 else 0)
    (fun b => exists vids' st', b = (vids', st') /\ add_inv (t + p) st' /\ left_from from p st st')) with (g := true) (s := (vsize vids - 1, vids, st)) as (b & -> & vids' & st' & -> & Hb);
    [|done|done|by exists vids', st'].
  intros [|] s Hs.
  - subst s. split; [done|]. unfold shard_step. rewrite (all_full t st Hinv).
    destruct (Z.leb_spec (j * per) t) as [Hfull|Hlt].
    { right. eexists. split; [done|]. exists vids, st. assert (p = 0) as -> by (unfold p, gives; lia). rewrite Z.add_0_r. split; [done|]. split; [done|]. apply left_from_refl. }
    destruct (Z.leb_spec (vsize vids) per) as [Hsmall|Hbig].
    { right. eexists. split; [done|]. exists vids, st. assert (p = 0) as -> by (unfold p, gives; lia). rewrite Z.add_0_r. split; [done|]. split; [done|]. apply left_from_refl. }
    left. exists false. destruct (move_many from vids (map (fun i => vsize vids - 1 - i) (seqZ 0 (vsize vids - 1 - per))) Hnd Hfrom (vsize vids - 1) t st) as (st' & E & Hi & Hl).
    + apply (NoDup_fmap_2_strong _); [intros x y _ _; lia|apply NoDup_seqZ].
    + done.
    + done.
    + unfold vsize at 1. rewrite length_map, length_seqZ. lia.
    + intros x (i & -> & Hi%elem_of_seqZ)%list_elem_of_fmap. destruct (vget_in_range vids (vsize vids - 1 - i)) as [vid E]; [lia|]. exists vid. split; [done|]. apply Hv.
      apply vget_Ret in E as [_ E]. by eapply list_elem_of_lookup_2.
    + assert (vsize (map (fun i => vsize vids - 1 - i) (seqZ 0 (vsize vids - 1 - per))) = vsize vids - 1 - per) as Hlen by (unfold vsize at 1; rewrite length_map, length_seqZ; lia).
      rewrite Hlen in E, Hi, Hl. assert (Z.min (vsize vids - 1 - per) (j * per - t) = p) as Hp by (unfold p, gives; lia). rewrite Hp in E, Hi, Hl. rewrite E. cbn [res_bind].
      assert (0 <= p <= vsize vids - 1 - per) by (unfold p, gives; lia).
      destruct (Z.ltb_spec (vsize vids) (vsize vids - 1 - p)); [lia|]. eexists. split; [done|]. split; [|lia]. exists (vsize vids - 1 - p), st'.
      split; [done|]. split; [lia|]. split; [done|]. split; [done|]. unfold p, gives. lia.
  - destruct Hs as (ms & st' & -> & Hms & Hi & Hl & Hend). split; [done|]. right. unfold shard_step. rewrite (all_full _ _ Hi).
    destruct (Z.leb_spec (j * per) (t + p)); [eexists; split; [done|]; by eexists _, _|].
    assert (vsize (take (Z.to_nat ms) vids) = ms) as -> by (unfold vsize in *; rewrite length_take; lia).
    destruct (Z.leb_spec ms per); [eexists; split; [done|]; by eexists _, _|lia].
Qed.

(** All shards. *)
Fixpoint given (topo : Topology) (t : Z) : Z :=
  match topo with [] => t | e :: topo => given topo (t + gives (vsize e.2) t) end.

Lemma given_full topo t : t = j * per -> given topo t = t.
Proof. revert t. induction topo as [|e topo IH]; intros t Ht; [done|]. cbn [given]. assert (gives (vsize e.2) t = 0) as -> by (unfold gives; lia). rewrite Z.add_0_r. by apply IH. Qed.

Lemma move_all topo : forall t st, add_inv t st -> NoDup (map fst topo) ->
  (forall from vids, (from, vids) ∈ topo -> ~ (from ∈ nw) /\ NoDup vids /\ 0 < vsize vids < 2 ^ 63 /\ vsize vids = held_by from (ad_map st) /\ forall v, v ∈ vids -> vget (ad_map st) v = Ret from) ->
  exists topo' st', migrateSharding nw per topo st = Ret (topo', st') /\ add_inv (given topo t) st' /\
    (forall s, ~ (s ∈ nw) -> held_by s (ad_map st') <= held_by s (ad_map st) /\ Z.min (held_by s (ad_map st)) (per + 1) <= held_by s (ad_map st')).
Proof.
  induction topo as [|[from vids] topo IH]; intros t st Hinv Hnd Hok; [exists [], st; split; [done|]; split; [done|]; lia|].
  cbn [map fst] in Hnd. apply NoDup_cons in Hnd as [Hnf Hnd]. destruct (Hok from vids ltac:(by left)) as (Hf & Hvn & Hvs & Hvh & Hvm).
  destruct (move_shard from vids t st Hvn Hf Hinv Hvs Hvm) as (vids' & st1 & E & Hi1 & Hget & Hheld). cbn [migrateSharding given snd]. rewrite E. cbn [res_bind].
  pose proof (ai_range _ _ Hinv) as Hr. assert (0 <= gives (vsize vids) t <= Z.max 0 (vsize vids - 1 - per)) as Hp by (unfold gives; lia). rewrite (all_full _ _ Hi1).
  assert (forall s, ~ (s ∈ nw) -> held_by s (ad_map st1) <= held_by s (ad_map st) /\ Z.min (held_by s (ad_map st)) (per + 1) <= held_by s (ad_map st1)) as H1.
  { intros s Hs. rewrite Hheld by done. destruct (Z.eqb_spec s from) as [->|]; lia. }
  destruct (Z.leb_spec (j * per) (t + gives (vsize vids) t)) as [Hfull|Hlt].
  - eexists _, st1. split; [done|]. split; [|done]. rewrite given_full; [done|]. pose proof (ai_range _ _ Hi1). lia.
  - destruct (IH _ st1 Hi1 Hnd) as (topo' & st' & E' & Hi' & Hb).
    + intros from' vids2 Hin. destruct (Hok from' vids2 ltac:(by right)) as (G1 & G2 & G3 & G4 & G5). assert (from' <> from) as Hne by (intros ->; apply Hnf, list_elem_of_fmap; by exists (from, vids2)).
      split; [done|]. split; [done|]. split; [done|]. split; [rewrite Hheld by done; rewrite (proj2 (Z.eqb_neq from' from) Hne); lia|].
      intros v Hv. specialize (G5 v Hv). rewrite Hget; [done|by apply vget_Ret in G5 as [? _]|rewrite G5; congruence].
    + rewrite E'. cbn [res_bind]. eexists _, st'. split; [done|]. split; [done|]. intros s Hs. specialize (Hb s Hs). specialize (H1 s Hs). lia.
Qed.

Lemma filled_to_0 i : filled_to (Z.of_nat i) 0 = 0.
Proof. unfold filled_to. pose proof (Z.mul_nonneg_nonneg (Z.of_nat i) per ltac:(lia) ltac:(lia)). lia. Qed.

Lemma given_least topo : forall t, t <= j * per -> Z.min (j * per) (t + total_held topo - vsize topo * (per + 1)) <= given topo t.
Proof.
  induction topo as [|e topo IH]; intros t Ht; cbn [given total_held foldr]; [change (vsize (@nil (Z * list Z))) with 0; lia|].
  fold (total_held topo). rewrite vsize_cons. specialize (IH (t + gives (vsize e.2) t) ltac:(unfold gives; lia)).
  destruct (decide (j * per <= t + gives (vsize e.2) t)); [rewrite given_full by (unfold gives in *; lia); unfold gives in *; lia|]. unfold gives in *.
  replace ((1 + vsize topo) * (per + 1)) with (vsize topo * (per + 1) + (per + 1)) by ring. generalize dependent (vsize topo * (per + 1)). intros x Hx. lia.
Qed.
End Add.

Lemma add_balanced m shards nw (per := vsize m / (vsize shards + vsize nw)) : vsize m <= 2 ^ 16 -> Forall (fun s => s ∈ shards) m -> NoDup nw -> (forall s, s ∈ nw -> s ∈ shards -> False) ->
  0 < vsize nw -> vsize shards + vsize nw <= vsize m ->
  exists topo st, migrateSharding nw per (topology_of m) (Build_Addition 0 [] [] m) = Ret (topo, st) /\ moves nw m (ad_map st) (ad_migrate st) /\
    (forall s, s ∈ nw -> per - vsize shards <= held_by s (ad_map st) <= per) /\
    (forall s, s ∈ shards -> Z.min (held_by s m) (per + 1) <= held_by s (ad_map st) <= held_by s m).
Proof.
  intros Hm Hall Hnd Hdisj Hj Hsz. pose proof (vsize_nonneg shards) as Hk. assert (0 < per) as Hper by (apply Z.div_str_pos; lia).
  assert (per * (vsize shards + vsize nw) <= vsize m) as Hdiv by (unfold per; rewrite Z.mul_comm; apply Z.mul_div_le; lia).
  assert (forall s, s ∈ nw -> ~ (s ∈ m)) as Hnew by (intros s Hs Hin; rewrite Forall_forall in Hall; by apply (Hdisj s Hs), Hall).
  assert (forall s, s ∈ nw -> held_by s m = 0) as Hzero.
  { intros s Hs. apply count_none. intros x Hx. apply Z.eqb_neq. intros ->. by apply (Hnew s). }
  destruct (move_all nw per m Hper Hnd (topology_of m) 0 (Build_Addition 0 [] [] m)) as (topo & st & E & Hi & Hb).
  - split; cbn [migrate_to new_sharding_topology ad_map ad_migrate].
    + nia.
    + by rewrite Z.div_0_l by lia.
    + constructor.
    + intros i s Ei. change (vsize (default [] None)) with 0. by rewrite filled_to_0.
    + intros i s Ei. rewrite Hzero by (by eapply list_elem_of_lookup_2). by rewrite filled_to_0.
    + apply moves_refl.
  - by apply topology_NoDup.
  - intros from vids Hin. destruct (topology_entry m from vids Hm Hin) as [-> Hpos].
    assert (from ∈ m) as Hfm by (apply topology_keys; [done|]; apply list_elem_of_fmap; by exists (from, positions from m)).
    split; [intros Hf; by apply (Hnew from)|]. split; [apply positions_NoDup|]. rewrite positions_held in *. cbn [ad_map].
    split; [split; [done|]; pose proof (count_bounds (fun x => x =? from) m); unfold held_by; lia|]. split; [done|]. intros v. apply positions_elem.
  - exists topo, st. split; [done|]. destruct Hi as [Hr _ _ _ Hheld Hmv]. split; [done|]. cbn [ad_map] in Hb. split.
    + intros s (i & Ei)%list_elem_of_lookup. rewrite (Hheld _ _ Ei). pose proof (lookup_lt_Some _ _ _ Ei) as Hlt. unfold filled_to. split; [|lia].
      pose proof (given_least nw per (topology_of m) 0 ltac:(nia)) as Hg. rewrite topology_total in Hg. pose proof (topology_shards m shards Hm Hall) as Ht.
      set (T := given nw per (topology_of m) 0) in *. pose proof (Z.mul_le_mono_nonneg_r _ _ (per + 1) ltac:(lia) Ht). assert (Z.of_nat i <= vsize nw - 1) as Hij by (unfold vsize; lia).
      pose proof (Z.mul_le_mono_nonneg_r _ _ per ltac:(lia) Hij). lia.
    + intros s Hs. destruct (Hb s) as [H1 H2]; [intros Hn; by apply (Hdisj s)|]. lia.
Qed.

(** ** Removing shards *)
Lemma total_held_app t1 t2 : total_held (t1 ++ t2) = total_held t1 + total_held t2.
Proof. unfold total_held. induction t1 as [|e t1 IH]; [done|]. cbn [app foldr]. rewrite IH. lia. Qed.

Lemma total_held_set topo q s vids v : topo !! q = Some (s, vids) -> total_held (<[q := (s, vids ++ [v])]> topo) = total_held topo + 1.
Proof.
  intros E. rewrite insert_take_drop by (by eapply lookup_lt_Some). rewrite <- (take_drop_middle topo _ _ E) at 3. rewrite !total_held_app.
  unfold total_held. cbn [foldr snd]. rewrite vsize_snoc. lia.
Qed.

Lemma total_held_least per topo : (forall q e, topo !! q = Some e -> per < vsize e.2) -> vsize topo * (per + 1) <= total_held topo.
Proof.
  induction topo as [|e topo IH]; intros Hall; [done|]. cbn [total_held foldr]. rewrite vsize_cons. specialize (IH (fun q => Hall (S q))).
  specialize (Hall 0%nat e eq_refl). unfold total_held in *. lia.
Qed.

Lemma key_at (L : list Z) (topo : Topology) q s : map fst topo = L -> L !! q = Some s <-> exists vids, topo !! q = Some (s, vids).
Proof.
  intros <-. rewrite list_lookup_fmap. split.
  - destruct (topo !! q) as [[s' vids]|]; [|done]. cbn. intros [= ->]. by exists vids.
  - intros (vids & ->). done.
Qed.

Section Remove.
Context (L : list Z) (per : Z) (m : list Z).
Hypothesis HL : NoDup L.
Hypothesis Hper : vsize m < vsize L * (per + 1).

Record rm_inv (st : Removal) : Prop := {
  ri_keys : map fst (rm_topology st) = L;
  ri_at : (migrate_to_it st < length L)%nat;
  ri_left : left_sharding_nodes st = take (migrate_to_it st) L;
  ri_held : forall q s vids, rm_topology st !! q = Some (s, vids) -> vsize vids = held_by s (rm_map st);
  ri_passed : forall q s vids, rm_topology st !! q = Some (s, vids) -> (q < migrate_to_it st)%nat -> per < vsize vids <= Z.max (held_by s m + 1) (per + 1);
  ri_open : forall q s vids, rm_topology st !! q = Some (s, vids) -> (migrate_to_it st <= q)%nat -> vsize vids = held_by s m \/ vsize vids <= per;
  ri_more : forall q s vids, rm_topology st !! q = Some (s, vids) -> held_by s m <= vsize vids;
  ri_moves : moves L m (rm_map st) (rm_migrate st)
}.

Lemma remove_one st from vid : rm_inv st -> total_held (rm_topology st) < vsize m -> vget (rm_map st) vid = Ret from -> ~ (from ∈ L) ->
  exists to held map', rm_topology st !! migrate_to_it st = Some (to, held) /\ vset (rm_map st) vid to = Ret map' /\
    let topo := <[migrate_to_it st := (to, held ++ [vid])]> (rm_topology st) in
    let next := per <? vsize (held ++ [vid]) in
    (next = true -> S (migrate_to_it st) <> length topo) /\
    rm_inv (Build_Removal (if next then left_sharding_nodes st ++ [to] else left_sharding_nodes st) topo (if next then S (migrate_to_it st) else migrate_to_it st)
      (om_set (rm_migrate st) vid (from, to)) map') /\
    total_held topo = total_held (rm_topology st) + 1 /\
    (forall u, 0 <= u -> u <> vid -> vget map' u = vget (rm_map st) u) /\
    (forall s, ~ (s ∈ L) -> held_by s map' = held_by s (rm_map st) - (if from =? s then 1 else 0)).
Proof.
  intros [Hk Hat Hleft Hheld Hpassed Hopen Hmore Hmv] Htot Ev Hfrom. set (p := migrate_to_it st) in *.
  destruct (lookup_lt_is_Some_2 L p Hat) as [to Eto]. pose proof Eto as Ep. apply (key_at _ _ _ _ Hk) in Ep as (held & Ep). exists to, held.
  destruct (held_set (rm_map st) vid from to Ev) as (map' & Eset & _ & Hget & Hcnt). exists map'. split; [done|]. split; [done|]. cbv zeta.
  set (topo := <[p := (to, held ++ [vid])]> (rm_topology st)).
  assert (p < length (rm_topology st))%nat as Hp by (by eapply lookup_lt_Some).
  assert (to <> from) as Hne by (intros <-; apply Hfrom; by eapply list_elem_of_lookup_2).
  assert (map fst topo = L) as Hk'.
  { unfold topo. etransitivity; [apply list_fmap_insert|]. cbn [fst]. change (fst <$> rm_topology st) with (map fst (rm_topology st)). rewrite Hk. by apply list_insert_id. }
  assert (forall q s vids, topo !! q = Some (s, vids) -> (q = p /\ s = to /\ vids = held ++ [vid]) \/ (q <> p /\ rm_topology st !! q = Some (s, vids) /\ s <> to)) as Hin.
  { intros q s vids Eq. destruct (decide (q = p)) as [->|Hq].
    - left. unfold topo in Eq. rewrite list_lookup_insert_eq in Eq by done. by injection Eq as <- <-.
    - right. unfold topo in Eq. rewrite list_lookup_insert_ne in Eq by done. split; [done|]. split; [done|]. intros ->. apply Hq.
      apply (NoDup_lookup L q p to HL); [|done]. apply (key_at _ _ _ _ Hk). by eexists. }
  pose proof (Hheld _ _ _ Ep) as Eh. pose proof (Hopen _ _ _ Ep ltac:(lia)) as Eo. pose proof (Hmore _ _ _ Ep) as Em.
  assert (total_held topo = total_held (rm_topology st) + 1) as Ht by (by apply total_held_set).
  assert (forall q s vids, topo !! q = Some (s, vids) -> (q < p)%nat -> per < vsize vids <= Z.max (held_by s m + 1) (per + 1)) as Hpassed'.
  { intros q s vids Eq Hq. destruct (Hin q s vids Eq) as [(-> & _)|(_ & Eq' & _)]; [lia|]. by apply (Hpassed q). }
  assert (forall q s vids, topo !! q = Some (s, vids) -> (p < q)%nat -> vsize vids = held_by s m \/ vsize vids <= per) as Hopen'.
  { intros q s vids Eq Hq. destruct (Hin q s vids Eq) as [(-> & _)|(_ & Eq' & _)]; [lia|]. apply (Hopen q); [done|lia]. }
  rewrite vsize_snoc.
  assert ((per <? vsize held + 1) = true -> S p <> length topo) as Hend.
  { intros Hnext%Z.ltb_lt Hend. enough (vsize topo * (per + 1) <= total_held topo) as Hbad.
    { assert (vsize topo = vsize L) as Hl by (unfold vsize; by rewrite <- Hk', length_map). rewrite Hl in Hbad. lia. }
    apply total_held_least. intros q [s vids] Eq. cbn [snd]. destruct (decide (q = p)) as [->|Hq].
    - destruct (Hin p s vids Eq) as [(_ & _ & ->)|(? & _)]; [|done]. rewrite vsize_snoc. lia.
    - pose proof (lookup_lt_Some _ _ _ Eq). apply (Hpassed' q s vids Eq). lia. }
  split; [done|]. split; [|split; [done|split]].
  - split; cbn [rm_topology migrate_to_it left_sharding_nodes rm_map rm_migrate].
    + done.
    + destruct (Z.ltb_spec per (vsize held + 1)); [|done]. specialize (Hend eq_refl). rewrite <- (length_map fst topo), Hk' in Hend. lia.
    + destruct (per <? vsize held + 1); [|done]. by rewrite Hleft, (take_S_r _ _ _ Eto).
    + intros q s vids Eq. rewrite Hcnt. destruct (Hin q s vids Eq) as [(_ & -> & ->)|(_ & Eq' & Hs)].
      * rewrite vsize_snoc, Z.eqb_refl, (proj2 (Z.eqb_neq from to)) by done. lia.
      * rewrite (Hheld _ _ _ Eq'), (proj2 (Z.eqb_neq to s)) by done. destruct (Z.eqb_spec from s) as [->|]; [|lia].
        exfalso. apply Hfrom. apply (list_elem_of_lookup_2 _ q). apply (key_at _ _ _ _ Hk). by eexists.
    + intros q s vids Eq Hq. destruct (decide (q < p)%nat); [by apply (Hpassed' q)|].
      destruct (Z.ltb_spec per (vsize held + 1)); [|lia]. assert (q = p) as -> by lia. destruct (Hin p s vids Eq) as [(_ & -> & ->)|(? & _)]; [|done]. rewrite vsize_snoc. lia.
    + intros q s vids Eq Hq. destruct (Z.ltb_spec per (vsize held + 1)) as [|Hle]; [apply (Hopen' q); [done|lia]|].
      destruct (decide (q = p)) as [->|]; [|apply (Hopen' q); [done|lia]]. right. destruct (Hin p s vids Eq) as [(_ & _ & ->)|(? & _)]; [|done]. rewrite vsize_snoc. lia.
    + intros q s vids Eq. destruct (Hin q s vids Eq) as [(_ & -> & ->)|(_ & Eq' & _)]; [rewrite vsize_snoc; lia|by apply (Hmore q)].
    + apply (moves_step L m (rm_map st) (rm_migrate st) vid from to map' Hmv Ev Hfrom); [by eapply list_elem_of_lookup_2|exact Eset].
  - intros u Hu Hun. rewrite Hget by done. by rewrite (proj2 (Z.eqb_neq u vid) Hun).
  - intros s Hs. rewrite Hcnt. destruct (Z.eqb_spec to s) as [->|]; [|lia]. exfalso. apply Hs. by eapply list_elem_of_lookup_2.
Qed.

(** [st'] differs from [st] only in the virtual nodes that leave [from]. *)
Record gone_from (from n : Z) (st st' : Removal) : Prop := {
  gf_get : forall u, 0 <= u -> vget (rm_map st) u <> Ret from -> vget (rm_map st') u = vget (rm_map st) u;
  gf_held : forall s, ~ (s ∈ L) -> held_by s (rm_map st') = held_by s (rm_map st) - (if from =? s then n else 0)
}.

Lemma remove_all_of from more vids : ~ (from ∈ L) -> forall st, NoDup vids -> rm_inv st -> total_held (rm_topology st) + vsize vids <= vsize m ->
  (forall v, v ∈ vids -> vget (rm_map st) v = Ret from) ->
  exists st', remove_vnodes per from more vids st = Ret (true, st') /\ rm_inv st' /\
    total_held (rm_topology st') = total_held (rm_topology st) + vsize vids /\ gone_from from (vsize vids) st st'.
Proof.
  intros Hfrom. induction vids as [|vid vids IH]; intros st Hnd Hinv Htot Hv.
  { exists st. change (vsize (@nil Z)) with 0. rewrite Z.add_0_r. do 3 (split; [done|]). split; [done|]. intros s _. destruct (from =? s); lia. }
  apply NoDup_cons in Hnd as [Hnv Hnd]. rewrite vsize_cons in Htot. pose proof (vsize_nonneg vids) as H0. pose proof (Hv vid ltac:(by left)) as Ev.
  destruct (remove_one st from vid Hinv ltac:(lia) Ev Hfrom) as (to & held & map' & Ep & Eset & Hend & Hinv' & Ht & Hget & Hheld).
  cbn [remove_vnodes]. rewrite Ep. cbn beta iota zeta. rewrite Eset. cbn [res_bind].
  set (next := per <? vsize (held ++ [vid])) in *. set (topo := <[migrate_to_it st := (to, held ++ [vid])]> (rm_topology st)) in *.
  set (st1 := Build_Removal _ topo _ (om_set (rm_migrate st) vid (from, to)) map') in Hinv'.
  destruct (IH st1 Hnd Hinv') as (st' & E & Hi & Htot' & [Hg1 Hg2]).
  { cbn [rm_topology st1]. rewrite Ht. lia. }
  { intros v Hvv. cbn [rm_map st1]. pose proof (Hv v ltac:(by right)) as E. rewrite Hget; [done|by apply vget_Ret in E as [? _]|by intros ->]. }
  exists st'. split; [|split; [done|split; [cbn [rm_topology st1] in Htot'; rewrite Htot', Ht, vsize_cons; lia|split]]].
  - unfold st1 in E. clearbody next. destruct next; [|exact E]. cbn [migrate_to_it].
    destruct (Nat.eqb_spec (S (migrate_to_it st)) (length topo)) as [El|_]; [by apply Hend in El|exact E].
  - intros u Hu Hne. assert (u <> vid) as Hun by (intros ->; by rewrite Ev in Hne). rewrite Hg1; cbn [rm_map st1]; rewrite ?Hget; done.
  - intros s Hs. rewrite Hg2 by done. cbn [rm_map st1]. rewrite Hheld, vsize_cons by done. destruct (from =? s); lia.
Qed.

Lemma remove_all removed : forall st, rm_inv st -> total_held (rm_topology st) + total_held removed <= vsize m -> NoDup (map fst removed) ->
  (forall from vids, (from, vids) ∈ removed -> ~ (from ∈ L) /\ NoDup vids /\ vsize vids = held_by from (rm_map st) /\ forall v, v ∈ vids -> vget (rm_map st) v = Ret from) ->
  exists st', remove_shards per removed st = Ret (true, st') /\ rm_inv st' /\ (forall from, from ∈ map fst removed -> held_by from (rm_map st') = 0) /\
    forall s, ~ (s ∈ L) -> ~ (s ∈ map fst removed) -> held_by s (rm_map st') = held_by s (rm_map st).
Proof.
  induction removed as [|[from vids] removed IH]; intros st Hinv Htot Hnd Hok.
  { exists st. do 2 (split; [done|]). split; [|done]. intros from Hf. by apply elem_of_nil in Hf. }
  cbn [map fst] in Hnd. apply NoDup_cons in Hnd as [Hnf Hnd]. destruct (Hok from vids ltac:(by left)) as (Hf & Hvn & Hvh & Hvm). cbn [total_held foldr snd] in Htot. fold (total_held removed) in Htot.
  assert (0 <= total_held removed) as H0 by (clear; induction removed as [|e r IH]; [done|]; cbn [total_held foldr]; fold (total_held r); pose proof (vsize_nonneg e.2); lia).
  destruct (remove_all_of from (negb (is_nil removed)) vids Hf st Hvn Hinv ltac:(lia) Hvm) as (st1 & E & Hi1 & Ht1 & Hg1 & Hg2). cbn [remove_shards]. rewrite E. cbn [res_bind].
  destruct (IH st1 Hi1 ltac:(lia) Hnd) as (st' & E' & Hi' & Hzero & Hsame).
  - intros from' vids2 Hin. destruct (Hok from' vids2 ltac:(by right)) as (G1 & G2 & G3 & G4). assert (from' <> from) as Hne by (intros ->; apply Hnf, list_elem_of_fmap; by exists (from, vids2)).
    split; [done|]. split; [done|]. split; [rewrite Hg2 by done; rewrite (proj2 (Z.eqb_neq from from')) by done; lia|].
    intros v Hv. specialize (G4 v Hv). rewrite Hg1; [done|by apply vget_Ret in G4 as [? _]|rewrite G4; congruence].
  - exists st'. split; [done|]. split; [done|]. cbn [map fst]. split.
    + intros s Hs. destruct (decide (s ∈ map fst removed)) as [Hr|Hr]; [by apply Hzero|]. apply elem_of_cons in Hs as [->|]; [|done].
      rewrite Hsame, Hg2, Z.eqb_refl by done. lia.
    + intros s Hs Hn. apply not_elem_of_cons in Hn as [Hn1 Hn2]. rewrite Hsame, Hg2 by done. rewrite (proj2 (Z.eqb_neq from s)) by congruence. lia.
Qed.
End Remove.

(** Taking shards out of a topology. *)
Lemma filter_sorted {V} (P : Z -> Prop) `{!forall x, Decision (P x)} (m : list (Z * V)) : om_sorted m -> om_sorted (filter (fun e => P e.1) m).
Proof.
  induction m as [|[k v] m IH]; [done|]. intros [H1 H2]%om_sorted_cons. rewrite filter_cons. cbn [fst]. case_decide; [|by apply IH].
  apply om_sorted_cons. split; [|by apply IH]. rewrite Forall_forall in H1 |- *. intros x (e & -> & [_ He]%list_elem_of_filter)%list_elem_of_fmap. apply H1, list_elem_of_fmap. by exists e.
Qed.

Lemma filter_find {V} (P : Z -> Prop) `{!forall x, Decision (P x)} (m : list (Z * V)) s : om_sorted m -> om_find (filter (fun e => P e.1) m) s = if decide (P s) then om_find m s else None.
Proof.
  intros Hs. pose proof (filter_sorted P m Hs) as Hs'. case_decide as HP.
  - apply option_eq. intros v. rewrite (om_find_elem _ _ _ Hs'), (om_find_elem _ _ _ Hs), list_elem_of_filter. cbn [fst]. tauto.
  - destruct (om_find _ s) as [v|] eqn:E; [|done]. apply (om_find_elem _ _ _ Hs'), list_elem_of_filter in E as [? _]. done.
Qed.

Lemma om_erase_find {V} (m : list (Z * V)) k s : om_sorted m -> om_find (om_erase m k) s = if decide (s <> k) then om_find m s else None.
Proof. exact (filter_find (fun x => x <> k) m s). Qed.

Lemma total_set_new (R : Topology) k vids : om_find R k = None -> total_held (om_set R k vids) = total_held R + vsize vids.
Proof.
  unfold total_held. induction R as [|[k' v] R IH]; cbn [om_find om_set foldr snd]; [lia|]. destruct (tcompare k k'); [done| |]; cbn [foldr snd]; [lia|]. intros Hf. rewrite IH by done. lia.
Qed.

Lemma total_erase (T : Topology) k : om_sorted T -> total_held (om_erase T k) + vsize (default [] (om_find T k)) = total_held T.
Proof.
  unfold total_held, om_erase. induction T as [|[k' v] T IH]; [done|]. intros [H1 H2]%om_sorted_cons. specialize (IH H2). rewrite filter_cons. cbn [fst]. destruct (decide (k' <> k)) as [Hne|Heq].
  - cbn [foldr snd]. rewrite <- IH. cbn [om_find]. destruct (tcompare k k') eqn:Ec.
    + apply tcompare_eq in Ec as ->. done.
    + rewrite (om_find_below T k); [cbn; lia|]. by eapply Forall_tlt_trans.
    + lia.
  - apply dec_stable in Heq as ->. cbn [om_find foldr snd]. rewrite tcompare_refl. rewrite (om_find_below T k) in IH by done. cbn [default from_option Datatypes.id] in *. change (vsize (@nil Z)) with 0 in IH. lia.
Qed.

Lemma take_out_ok rm : forall (R T : Topology), om_sorted R -> om_sorted T -> NoDup rm -> (forall s, s ∈ rm -> om_find R s = None) ->
  exists R' T', foldl (fun '(removed, topo) s => (om_set removed s (default [] (om_find topo s)), om_erase topo s)) (R, T) rm = (R', T') /\
    om_sorted R' /\ om_sorted T' /\ (forall s, om_find R' s = if decide (s ∈ rm) then Some (default [] (om_find T s)) else om_find R s) /\
    (forall s, om_find T' s = if decide (s ∈ rm) then None else om_find T s) /\ total_held R' + total_held T' = total_held R + total_held T.
Proof.
  induction rm as [|k rm IH]; intros R T HR HT Hnd Hnone.
  { exists R, T. cbn [foldl]. do 3 (split; [done|]). split_and!; [..|done]; intros s; by rewrite decide_False by apply not_elem_of_nil. }
  apply NoDup_cons in Hnd as [Hk Hnd]. cbn [foldl]. assert (om_sorted (om_erase T k)) as Hse by exact (filter_sorted (fun x => x <> k) T HT).
  destruct (IH (om_set R k (default [] (om_find T k))) (om_erase T k)) as (R' & T' & E & HR' & HT' & HfR & HfT & Htot); [by apply om_set_sorted|done|done| |].
  { intros s Hs. rewrite om_find_set_ne by (done || by intros ->). apply Hnone. by right. }
  exists R', T'. split; [done|]. split; [done|]. split; [done|]. split_and!.
  - intros s. rewrite HfR, (om_erase_find T k s HT). destruct (decide (s ∈ rm)) as [Hr|Hr].
    + rewrite (decide_True (P := s ∈ k :: rm)) by (by right). destruct (decide (s <> k)) as [|Hsk]; [done|]. apply dec_stable in Hsk as ->. done.
    + destruct (decide (s = k)) as [->|Hne].
      * by rewrite om_find_set_eq, decide_True by (by left).
      * rewrite om_find_set_ne by done. rewrite decide_False; [done|]. by apply not_elem_of_cons.
  - intros s. rewrite HfT, (om_erase_find T k s HT). destruct (decide (s ∈ rm)) as [Hr|Hr]; [by rewrite decide_True by (by right)|].
    destruct (decide (s <> k)) as [Hne|Hsk]; [by rewrite decide_False by (by apply not_elem_of_cons)|]. apply dec_stable in Hsk as ->. by rewrite decide_True by (by left).
  - rewrite Htot, total_set_new by (apply Hnone; by left). pose proof (total_erase T k HT). lia.
Qed.

Lemma find_keys {V} (T : list (Z * V)) s : om_sorted T -> s ∈ map fst T <-> om_find T s <> None.
Proof.
  intros HT. rewrite list_elem_of_fmap. split.
  - intros ([k v] & -> & Hin). apply (om_find_elem _ _ _ HT) in Hin. cbn [fst]. by rewrite Hin.
  - destruct (om_find T s) as [v|] eqn:E; [|done]. intros _. exists (s, v). split; [done|]. by apply (om_find_elem _ _ _ HT).
Qed.

Lemma others_perm (shards rm : list Z) : NoDup shards -> NoDup rm -> (forall s, s ∈ rm -> s ∈ shards) -> rm ++ filter (fun s => ~ (s ∈ rm)) shards ≡ₚ shards.
Proof.
  intros Hs Hr Hsub. apply NoDup_Permutation; [|done|].
  - apply NoDup_app. split; [done|]. split; [intros s H1 [H2 _]%list_elem_of_filter; done|by apply NoDup_filter].
  - intros s. rewrite elem_of_app, list_elem_of_filter. destruct (decide (s ∈ rm)); naive_solver.
Qed.

Lemma remove_balanced m shards rm (per := vsize m / (vsize shards - vsize rm)) : vsize m <= 2 ^ 16 -> Forall (fun s => s ∈ shards) m -> (forall s, s ∈ shards -> s ∈ m) ->
  NoDup shards -> NoDup rm -> (forall s, s ∈ rm -> s ∈ shards) -> vsize rm < vsize shards ->
  exists st, removeSharding per rm (topology_of m) m = Ret (true, st) /\ left_sharding_nodes st ≡ₚ filter (fun s => ~ (s ∈ rm)) shards /\
    moves (left_sharding_nodes st) m (rm_map st) (rm_migrate st) /\ (forall s, s ∈ rm -> held_by s (rm_map st) = 0) /\
    (forall s, s ∈ left_sharding_nodes st -> held_by s m <= held_by s (rm_map st) <= Z.max (held_by s m + 1) (per + 1)).
Proof.
  intros Hm Hall Hsome Hnds Hnd Hsub Hlt. destruct (topology_find m Hm) as [HT HfT].
  destruct (take_out_ok rm [] (topology_of m) ltac:(constructor) HT Hnd ltac:(done)) as (R & T & E & HR & HT' & HfR & Hft & Htot). rewrite topology_total in Htot. cbn [total_held foldr] in Htot.
  set (L := map fst T). assert (NoDup L) as HL by (by apply om_sorted_NoDup).
  assert (forall s, s ∈ L <-> s ∈ shards /\ ~ (s ∈ rm)) as HLin.
  { intros s. unfold L. rewrite (find_keys _ _ HT'), Hft. destruct (decide (s ∈ rm)); [naive_solver|]. rewrite <- (find_keys _ _ HT), (topology_keys m s Hm).
    rewrite Forall_forall in Hall. split; [intros Hin; split; [by apply Hall|done]|]. intros [Hin _]. by apply Hsome. }
  assert (L ≡ₚ filter (fun s => ~ (s ∈ rm)) shards) as HLp.
  { apply NoDup_Permutation; [done|by apply NoDup_filter|]. intros s. rewrite HLin, list_elem_of_filter. tauto. }
  pose proof (others_perm shards rm Hnds Hnd Hsub) as Hperm. assert (vsize L = vsize shards - vsize rm) as HLlen.
  { apply Permutation_length in HLp, Hperm. rewrite length_app in Hperm. unfold vsize. lia. }
  assert (map fst R ≡ₚ rm) as HRp.
  { apply NoDup_Permutation; [by apply om_sorted_NoDup|done|]. intros s. rewrite (find_keys _ _ HR), HfR. destruct (decide (s ∈ rm)); naive_solver. }
  assert (vsize m < vsize L * (per + 1)) as Hper.
  { rewrite HLlen. pose proof (Z.mul_succ_div_gt (vsize m) (vsize shards - vsize rm) ltac:(lia)). unfold per. lia. }
  assert (0 < length L)%nat as HL0 by (unfold vsize in *; lia).
  assert (rm_inv L per m (Build_Removal [] T 0 [] m)) as Hinv.
  { assert (forall q s vids, T !! q = Some (s, vids) -> vids = positions s m) as Hpos.
    { intros q s vids Hin%list_elem_of_lookup_2. apply (om_find_elem _ _ _ HT') in Hin. rewrite Hft in Hin. destruct (decide (s ∈ rm)); [done|].
      apply (om_find_elem _ _ _ HT) in Hin. by apply (topology_entry m s vids Hm). }
    split; cbn [rm_topology migrate_to_it left_sharding_nodes rm_map rm_migrate]; [done|done|done| | | | |apply moves_refl].
    - intros q s vids Eq. rewrite (Hpos q s vids Eq). apply positions_held.
    - lia.
    - intros q s vids Eq _. left. rewrite (Hpos q s vids Eq). apply positions_held.
    - intros q s vids Eq. rewrite (Hpos q s vids Eq), positions_held. lia. }
  assert (0 <= total_held R) as HR0 by (clear; induction R as [|e r IH]; [done|]; cbn [total_held foldr]; fold (total_held r); pose proof (vsize_nonneg e.2); lia).
  destruct (remove_all L per m HL Hper R (Build_Removal [] T 0 [] m) Hinv) as (st & Erun & Hi & Hzero & _).
  - cbn [rm_topology]. lia.
  - by apply om_sorted_NoDup.
  - intros from vids Hin. apply (om_find_elem _ _ _ HR) in Hin. rewrite HfR in Hin. destruct (decide (from ∈ rm)) as [Hr|]; [|done]. injection Hin as <-. cbn [rm_map].
    split; [intros Hl%HLin; naive_solver|]. rewrite HfT. assert (default [] (if is_nil (positions from m) then None else Some (positions from m)) = positions from m) as -> by (by destruct (positions from m)).
    split; [apply positions_NoDup|]. split; [apply positions_held|]. intros v. apply positions_elem.
  - unfold removeSharding, take_out. rewrite E. assert (is_nil T = false) as -> by (destruct T; [cbn in HL0; lia|done]).
    assert (vsize R = vsize rm) as -> by (apply Permutation_length in HRp; rewrite length_map in HRp; unfold vsize; lia). rewrite Z.eqb_refl. cbn [negb orb]. rewrite Erun. cbn [res_bind].
    destruct Hi as [Hk Hat Hleft Hheld Hpassed Hopen Hmore Hmv]. eexists. split; [done|]. cbn [left_sharding_nodes rm_map rm_migrate].
    assert (left_sharding_nodes st ++ map fst (drop (migrate_to_it st) (rm_topology st)) = L) as -> by (rewrite Hleft, <- skipn_map, Hk; apply take_drop).
    split; [done|]. split; [done|]. split; [intros s Hs; apply Hzero; by rewrite HRp|].
    intros s (q & Eq)%list_elem_of_lookup. apply (key_at _ _ q s Hk) in Eq as (vids & Eq). rewrite <- (Hheld _ _ _ Eq). split; [by apply (Hmore q)|].
    destruct (decide (q < migrate_to_it st)%nat) as [Hq|Hq]; [by apply (Hpassed q)|]. destruct (Hopen q s vids Eq ltac:(lia)); lia.
Qed.
