(* ===== verification/MigrateDocs.v ===== *)
(** * Adding and removing shards: where the documents are

Every document stays where the saved map sends it, whether a migration succeeds
or fails in one of its steps, unless a node refuses the request for its documents.
What indexing the files of a migration does to the
documents of a shard is a hypothesis. *)
From Stdlib Require Import String.
From S2P Require Import Prelude OrdMap Sharding Migrate MigrateSpec.

(** Entries of a map of lists. *)
Definition entry {K V} `{!TextOrder K} (m : list (K * list V)) (k : K) : list V := default [] (om_find m k).

Lemma entry_push_eq {K V} `{!TextOrder K} (m : list (K * list V)) k v : entry (om_push m k v) k = entry m k ++ [v].
Proof. unfold entry, om_push. by rewrite om_find_set_eq. Qed.

Lemma entry_push_ne {K V} `{!TextOrder K} (m : list (K * list V)) k v k' : om_sorted m -> k' <> k -> entry (om_push m k v) k' = entry m k'.
Proof. intros Hs Hne. unfold entry, om_push. by rewrite om_find_set_ne. Qed.

Lemma push_elem {K V} `{!TextOrder K} (m : list (K * list V)) k v k' v' : om_sorted m ->
  v' ∈ entry (om_push m k v) k' <-> v' ∈ entry m k' \/ (k' = k /\ v' = v).
Proof.
  intros Hs. destruct (decide (k' = k)) as [->|Hne].
  - rewrite entry_push_eq, elem_of_app, list_elem_of_singleton. tauto.
  - rewrite entry_push_ne by done. tauto.
Qed.

Lemma push_sorted {K V} `{!TextOrder K} (m : list (K * list V)) k v : om_sorted m -> om_sorted (om_push m k v).
Proof. apply om_set_sorted. Qed.

Section Documents.
Context {Node Doc : Type} {numbers : KeyNumbers}.
Context (getMaxDocId : Node -> Z) (getDocument : Node -> Z -> option Doc) (DOCID : Doc -> option string).
Context (run_insert run_delete : Node -> list Doc -> Node).
Notation Scds := (list (Z * list Doc)).
Notation Files := (list (Z * list (list Doc))).
Notation generate := (generateMigrateSCD getMaxDocId getDocument DOCID).

Definition holds (n : Node) (d : Doc) : Prop := exists i, 1 <= i <= getMaxDocId n /\ getDocument n i = Some d.

(** Indexing documents replaces those with the same DOCIDs; deleting removes them. *)
Hypothesis insert_law : forall n ds d, (forall x y, x ∈ ds -> y ∈ ds -> DOCID x = DOCID y -> x = y) ->
  holds (run_insert n ds) d <-> d ∈ ds \/ (holds n d /\ forall x, x ∈ ds -> DOCID x <> DOCID d).
Hypothesis delete_law : forall n ds d, holds (run_delete n ds) d <-> holds n d /\ forall x, x ∈ ds -> DOCID x <> DOCID d.

(** The virtual node of a document. *)
Definition doc_vnode (d : Doc) (v : Z) : Prop := exists uid, DOCID d = Some uid /\ vnode_of uid v.

Lemma doc_vnode_same d d' v v' : doc_vnode d v -> doc_vnode d' v' -> DOCID d = DOCID d' -> v = v'.
Proof. intros (u & E & h & Eh & ->) (u' & E' & h' & Eh' & ->) Es. assert (u = u') as <- by congruence. congruence. Qed.

(** ** The files of one node *)
Section OneNode.
Context (my : Z) (n : Node) (vl : Topology).
Hypothesis Hkeys : forall d, holds n d -> exists v, doc_vnode d v.

(** [d] goes to [t]. *)
Definition goes (d : Doc) (t : Z) : Prop := exists v, doc_vnode d v /\ found_shardid vl v = t /\ t <> 0.

Lemma node_files_ok : exists scds, generate my n vl = Ret scds /\ om_sorted scds.1 /\ om_sorted scds.2 /\
  (forall d t, d ∈ entry scds.1 t <-> holds n d /\ goes d t) /\
  (forall d t, d ∈ entry scds.2 t <-> t = my /\ holds n d /\ exists t', goes d t').
Proof.
  unfold generateMigrateSCD. destruct (decide (0 <= getMaxDocId n)) as [Hn|Hn].
  2:{ exists ([], []). rewrite seqZ_nil by lia. split; [done|]. split; [constructor|]. split; [constructor|]. unfold holds.
      split; intros d t; (split; [intros Hin; by apply elem_of_nil in Hin|]); [intros [(i & Hi & _) _]; lia|intros (_ & (i & Hi & _) & _); lia]. }
  destruct (mfold_seqZ (migrate_doc getDocument DOCID my vl n) (fun i scds => om_sorted scds.1 /\ om_sorted scds.2 /\
      (forall d t, d ∈ entry scds.1 t <-> (exists k, 1 <= k < i /\ getDocument n k = Some d) /\ goes d t) /\
      (forall d t, d ∈ entry scds.2 t <-> t = my /\ (exists k, 1 <= k < i /\ getDocument n k = Some d) /\ exists t', goes d t')) 1 (getMaxDocId n) ([], []))
    as (scds & E & Hs1 & Hs2 & H1 & H2); [done| | |].
  - intros i [ins dels] Hi (Hs1 & Hs2 & H1 & H2). cbn [fst snd] in *. unfold migrate_doc.
    assert (forall d, (exists k, 1 <= k < i + 1 /\ getDocument n k = Some d) <-> (exists k, 1 <= k < i /\ getDocument n k = Some d) \/ getDocument n i = Some d) as Hlast.
    { intros d. split.
      - intros (k & Hk & Ek). destruct (decide (k = i)) as [->|]; [by right|]. left. exists k. split; [lia|done].
      - intros [(k & Hk & Ek)|Ei]; [exists k|exists i]; (split; [lia|done]). }
    destruct (getDocument n i) as [d0|] eqn:Ei.
    2:{ eexists. split; [done|]. cbn [fst snd]. do 2 (split; [done|]). split; intros d t; rewrite Hlast; [rewrite H1|rewrite H2]; naive_solver. }
    assert (holds n d0) as Hd0 by (exists i; split; [lia|done]). destruct (Hkeys d0 Hd0) as (v0 & Hv0). pose proof Hv0 as (uid & Eu & h & Eh & Ev0).
    rewrite Eu, Eh. cbn [res_bind]. rewrite <- Ev0.
    assert (forall t, goes d0 t <-> t = found_shardid vl v0 /\ t <> 0) as Hgo.
    { intros t. split; [|intros [-> Ht]; by exists v0]. intros (v & Hv & Ht & Hne). by rewrite (doc_vnode_same d0 d0 v v0 Hv Hv0 eq_refl) in Ht. }
    destruct (Z.eqb_spec (found_shardid vl v0) 0) as [Hz|Hnz].
    + eexists. split; [done|]. cbn [fst snd]. do 2 (split; [done|]). split; intros d t; rewrite Hlast; [rewrite H1|rewrite H2].
      * split; [naive_solver|]. intros [[Hk|[= <-]] Hg]; [done|]. apply Hgo in Hg as [-> Hne]. done.
      * split; [naive_solver|]. intros (-> & [Hk|[= <-]] & t' & Hg); [naive_solver|]. apply Hgo in Hg as [-> Hne]. done.
    + eexists. split; [done|]. cbn [fst snd]. split; [by apply push_sorted|]. split; [by apply push_sorted|]. split; intros d t; rewrite Hlast, push_elem by done; [rewrite H1|rewrite H2].
      * split; [|intros [[Hk|[= <-]] Hg]; [by left|right; by apply Hgo in Hg as [-> _]]]. intros [[Hk Hg]|[-> ->]]; [by split; [left|]|]. split; [by right|]. by apply Hgo.
      * split.
        -- intros [(-> & Hk & Hg)|[-> ->]]; [split; [done|]; by split; [left|]|]. split; [done|]. split; [by right|]. exists (found_shardid vl v0). by apply Hgo.
        -- intros (-> & [Hk|[= <-]] & Hg); [by left|by right].
  - cbn [fst snd]. split; [constructor|]. split; [constructor|]. split; intros d t; (split; [intros Hin; by apply elem_of_nil in Hin|]); [intros [(k & Hk & _) _]; lia|intros (_ & (k & Hk & _) & _); lia].
  - exists scds. split; [done|]. split; [done|]. split; [done|]. unfold holds.
    assert (forall d, (exists k, 1 <= k < 1 + getMaxDocId n /\ getDocument n k = Some d) <-> (exists k, 1 <= k <= getMaxDocId n /\ getDocument n k = Some d)) as Hh
      by (intros d; split; intros (k & Hk & Ek); exists k; (split; [lia|done])).
    split; intros d t; [rewrite H1|rewrite H2]; by rewrite Hh.
Qed.
End OneNode.

(** ** Asking all nodes *)
Lemma entry_elem {V} (m : list (Z * list V)) t x : om_sorted m -> x ∈ entry m t <-> exists l, (t, l) ∈ m /\ x ∈ l.
Proof.
  intros Hs. unfold entry. split.
  - destruct (om_find m t) as [l|] eqn:E; cbn; [|intros Hin; by apply elem_of_nil in Hin]. intros Hx. exists l. split; [|done]. by apply (om_find_elem _ _ _ Hs).
  - intros (l & Hl & Hx). apply (om_find_elem _ _ _ Hs) in Hl. by rewrite Hl.
Qed.

(** Document [d] is in a file of shard [t]. *)
Definition in_files (files : Files) (t : Z) (d : Doc) : Prop := d ∈ concat (entry files t).

Lemma in_files_nil t d : ~ in_files [] t d.
Proof. apply not_elem_of_nil. Qed.

Lemma add_scds_ok (scds : Scds) : om_sorted scds -> forall files, om_sorted files ->
  om_sorted (add_scds scds files) /\ forall t d, in_files (add_scds scds files) t d <-> in_files files t d \/ d ∈ entry scds t.
Proof.
  intros Hsc files Hf. assert (om_sorted (add_scds scds files) /\ forall t d, in_files (add_scds scds files) t d <-> in_files files t d \/ exists l, (t, l) ∈ scds /\ d ∈ l) as [H1 H2].
  { clear Hsc. revert files Hf. unfold add_scds. induction scds as [|[t0 l0] scds IH]; intros files Hf; cbn [foldl fst snd].
    - split; [done|]. intros t d. split; [by left|]. intros [H|(l & Hl & _)]; [done|by apply elem_of_nil in Hl].
    - destruct (IH (om_push files t0 l0) (push_sorted _ _ _ Hf)) as [H1 H2]. split; [done|]. intros t d. rewrite H2. unfold in_files.
      destruct (decide (t = t0)) as [->|Hne].
      + rewrite entry_push_eq, concat_app, elem_of_app. cbn [concat]. rewrite app_nil_r. split.
        * intros [[H|H]|(l & Hl & Hd)]; [by left|right; exists l0; split; [by left|done]|right; exists l; split; [by right|done]].
        * intros [H|(l & Hl & Hd)]; [by left; left|]. apply elem_of_cons in Hl as [[= ->]|Hl]; [by left; right|right; by exists l].
      + rewrite entry_push_ne by done. split; (intros [H|(l & Hl & Hd)]; [by left|right; exists l; split; [|done]]); [by right|]. by apply elem_of_cons in Hl as [[= ? ?]|Hl]. }
  split; [done|]. intros t d. by rewrite H2, (entry_elem scds t d Hsc).
Qed.

Definition scds_ok (scds : Scds * Scds) : Prop := om_sorted scds.1 /\ om_sorted scds.2.
Definition files_ok (files : Files * Files) : Prop := om_sorted files.1 /\ om_sorted files.2.

Lemma add_responses_ok responses : (forall scds, Some scds ∈ responses -> scds_ok scds) -> forall files, files_ok files ->
  match add_responses responses files with
  | None => None ∈ responses
  | Some files' => files_ok files' /\ ~ (None ∈ responses) /\
      (forall t d, in_files files'.1 t d <-> in_files files.1 t d \/ exists scds, Some scds ∈ responses /\ d ∈ entry scds.1 t) /\
      (forall t d, in_files files'.2 t d <-> in_files files.2 t d \/ exists scds, Some scds ∈ responses /\ d ∈ entry scds.2 t)
  end.
Proof.
  unfold add_responses. induction responses as [|r responses IH]; intros Hok files Hf.
  { cbn. split; [done|]. split; [apply not_elem_of_nil|]. split; intros t d; (split; [by left|]); (intros [H|(scds & Hs & _)]; [done|by apply elem_of_nil in Hs]). }
  cbn [foldl]. destruct r as [scds|].
  - destruct (Hok scds ltac:(by left)) as [Hs1 Hs2]. destruct Hf as [Hf1 Hf2]. destruct (add_scds_ok _ Hs1 _ Hf1) as [G1 H1]. destruct (add_scds_ok _ Hs2 _ Hf2) as [G2 H2].
    specialize (IH (fun x Hx => Hok x (list_elem_of_further _ _ _ Hx)) (add_both scds files) (conj G1 G2)). destruct (foldl _ _ responses) as [files'|].
    + destruct IH as (I1 & I2 & I3 & I4). split; [done|]. split; [intros [?|?]%elem_of_cons; done|].
      split; intros t d; [rewrite I3|rewrite I4]; unfold add_both; cbn [fst snd]; [rewrite H1|rewrite H2].
      * split; [intros [[H|H]|(x & Hx & Hd)]; [by left|right; exists scds; split; [by left|done]|right; exists x; split; [by right|done]]|].
        intros [H|(x & [[= ->]|Hx]%elem_of_cons & Hd)]; [by left; left|by left; right|right; by exists x].
      * split; [intros [[H|H]|(x & Hx & Hd)]; [by left|right; exists scds; split; [by left|done]|right; exists x; split; [by right|done]]|].
        intros [H|(x & [[= ->]|Hx]%elem_of_cons & Hd)]; [by left; left|by left; right|right; by exists x].
    + by right.
  - assert (forall l, foldl (fun (files : option (Files * Files)) r => match files, r with Some files, Some scds => Some (add_both scds files) | _, _ => None end) None l = None) as ->
      by (intros l; induction l; done). by left.
Qed.

Section Ask.
Context (local_ip : string) (arrive : list (option (Scds * Scds)) -> list (option (Scds * Scds))).
Hypothesis Harrive : forall l, arrive l ≡ₚ l.
Context (ask : string -> Topology -> res (Answer (Doc := Doc))) (from : list (string * Topology)).
(** Every node answers, and no node refuses a request. *)
Definition answers_ok : Prop := forall ip vl, (ip, vl) ∈ from -> vl <> [] /\ exists a, ask ip vl = Ret a /\ a <> Refused /\ forall scds, a = Generated scds -> scds_ok scds.
Hypothesis Hask : answers_ok.

Lemma send_ok l : l ⊆ from -> NoDup (map fst l) -> exists r, send_requests local_ip ask l = Ret r /\
  match r with
  | None => exists ip vl, (ip, vl) ∈ l /\ ask ip vl = Ret Unreachable
  | Some (local, responses) =>
      (forall vl, (local_ip, vl) ∈ l -> local = vl) /\ (local <> [] -> (local_ip, local) ∈ l) /\
      (forall x, x ∈ responses -> exists ip vl, (ip, vl) ∈ l /\ ip <> local_ip /\ ask ip vl = Ret (match x with Some scds => Generated scds | None => Failed end)) /\
      (forall ip vl, (ip, vl) ∈ l -> ip <> local_ip -> exists x, x ∈ responses /\ ask ip vl = Ret (match x with Some scds => Generated scds | None => Failed end))
  end.
Proof.
  induction l as [|[ip vl] l IH]; intros Hsub Hnd.
  { eexists. split; [done|]. split; [intros vl Hv; by apply elem_of_nil in Hv|]. split; [done|]. split; [intros x Hx; by apply elem_of_nil in Hx|intros ip vl Hv; by apply elem_of_nil in Hv]. }
  cbn [map fst] in Hnd. apply NoDup_cons in Hnd as [Hip Hnd]. destruct (IH ltac:(set_solver) Hnd) as (r & Er & Hr). cbn [send_requests].
  destruct (String.eqb_spec ip local_ip) as [->|Hne].
  - rewrite Er. cbn [res_bind]. eexists. split; [done|]. destruct r as [[local responses]|]; cbn [fmap option_fmap option_map fst snd].
    2:{ destruct Hr as (ip & vl' & Hin & E). exists ip, vl'. split; [by right|done]. }
    destruct Hr as (_ & _ & H3 & H4). split_and!.
    + intros vl' [[= ->]|Hin]%elem_of_cons; [done|]. exfalso. apply Hip, list_elem_of_fmap. by exists (local_ip, vl').
    + intros _. by left.
    + intros x Hx. destruct (H3 x Hx) as (ip' & vl' & Hin & Hrest). exists ip', vl'. split; [by right|done].
    + intros ip' vl' [[= -> ->]|Hin]%elem_of_cons Hne; [done|]. by apply H4.
  - destruct (Hask ip vl ltac:(apply Hsub; by left)) as (_ & a & Ea & Href & _). rewrite Ea. cbn [res_bind].
    assert (a = Unreachable \/ exists x, a = match x with Some scds => Generated scds | None => Failed end) as [->|(x & ->)].
    { destruct a as [| | |scds]; [by left|done|right; by exists None|right; by exists (Some scds)]. }
    { eexists. split; [done|]. exists ip, vl. split; [by left|done]. }
    eexists. split; [destruct x; rewrite Er; done|]. destruct r as [[local responses]|].
    2:{ destruct x; (destruct Hr as (ip' & vl' & Hin & E); exists ip', vl'; split; [by right|done]). }
    destruct Hr as (H1 & H2 & H3 & H4).
    assert (forall y, y ∈ (match (match x with Some scds => Generated scds | None => Failed end) with Failed => [None] | Generated scds => [Some scds] | _ => [] end) ++ responses <-> y = x \/ y ∈ responses) as Hin.
    { intros y. destruct x; cbn; apply elem_of_cons. }
    destruct x as [scds|]; cbn [fmap option_fmap option_map fst snd] in *; (split_and!;
      [intros vl' [[= ? ?]|Hv]%elem_of_cons; [done|by apply H1]|intros Hl; right; by apply H2| |]).
    all: try (intros y [->|Hy]%Hin; [exists ip, vl; split; [by left|done]|destruct (H3 y Hy) as (ip' & vl' & Hv & Hrest); exists ip', vl'; split; [by right|done]]).
    all: intros ip' vl' [[= -> ->]|Hv]%elem_of_cons Hne'; [eexists; split; [by apply Hin; left|done]|destruct (H4 ip' vl' Hv Hne') as (y & Hy & Ey); exists y; split; [by apply Hin; right|done]].
Qed.

Lemma generate_all : NoDup (map fst from) -> exists g, generateMigrateScds local_ip arrive ask from = Ret g /\
  match g with
  | None => exists ip vl, (ip, vl) ∈ from /\ forall scds, ask ip vl <> Ret (Generated scds)
  | Some files => files_ok files /\ (forall ip vl, (ip, vl) ∈ from -> exists scds, ask ip vl = Ret (Generated scds)) /\
      (forall t d, in_files files.1 t d <-> exists ip vl scds, (ip, vl) ∈ from /\ ask ip vl = Ret (Generated scds) /\ d ∈ entry scds.1 t) /\
      (forall t d, in_files files.2 t d <-> exists ip vl scds, (ip, vl) ∈ from /\ ask ip vl = Ret (Generated scds) /\ d ∈ entry scds.2 t)
  end.
Proof.
  intros Hnd. unfold generateMigrateScds. destruct (send_ok from ltac:(done) Hnd) as (r & -> & Hr). cbn [res_bind]. destruct r as [[local responses]|].
  2:{ eexists. split; [done|]. destruct Hr as (ip & vl & Hin & E). exists ip, vl. split; [done|]. intros scds. by rewrite E. }
  destruct Hr as (H1 & H2 & H3 & H4).
  assert (forall scds, Some scds ∈ arrive responses -> scds_ok scds) as Hok.
  { intros scds Hs. rewrite Harrive in Hs. destruct (H3 _ Hs) as (ip & vl & Hin & _ & Ea). destruct (Hask ip vl Hin) as (_ & a & Ea' & _ & Hg). rewrite Ea in Ea'. injection Ea' as <-. by apply Hg. }
  assert (forall scds, Some scds ∈ arrive responses <-> exists ip vl, (ip, vl) ∈ from /\ ip <> local_ip /\ ask ip vl = Ret (Generated scds)) as Hresp.
  { intros scds. rewrite Harrive. split; [intros Hs; by apply (H3 (Some scds))|]. intros (ip & vl & Hin & Hne & Ea). destruct (H4 ip vl Hin Hne) as (x & Hx & Ex). rewrite Ea in Ex. destruct x; [by injection Ex as ->|done]. }
  assert (~ (None ∈ arrive responses) -> forall ip vl, (ip, vl) ∈ from -> ip <> local_ip -> exists scds, ask ip vl = Ret (Generated scds)) as Hall.
  { intros Hn ip vl Hin Hne. destruct (H4 ip vl Hin Hne) as (x & Hx & Ex). rewrite <- Harrive in Hx. destruct x; [by eexists|done]. }
  assert (None ∈ arrive responses -> exists ip vl, (ip, vl) ∈ from /\ forall scds, ask ip vl <> Ret (Generated scds)) as Hfail.
  { intros Hn. rewrite Harrive in Hn. destruct (H3 _ Hn) as (ip & vl & Hin & _ & E). exists ip, vl. split; [done|]. intros scds. by rewrite E. }
  assert (forall t d, ~ in_files [] t d) as Hnil by (intros t d; apply in_files_nil).
  destruct (decide (local = [])) as [->|Hl].
  - assert (forall ip vl, (ip, vl) ∈ from -> ip <> local_ip) as Hne by (intros ip vl Hin ->; destruct (Hask _ _ Hin) as [Hvl _]; by apply Hvl; rewrite <- (H1 vl Hin)).
    eexists. split; [done|]. pose proof (add_responses_ok (arrive responses) Hok ([], []) ltac:(split; constructor)) as Ha. destruct (add_responses _ _) as [files|]; [|by apply Hfail]. destruct Ha as (G1 & G2 & G3 & G4).
    split; [done|]. split; [intros ip vl Hin; by apply (Hall G2 ip vl Hin), (Hne ip vl)|]. cbn [fst snd] in *.
    split; intros t d; [rewrite G3|rewrite G4]; (split; [intros [Hf|(scds & (ip & vl & Hin & _ & Ea)%Hresp & Hd)]; [by apply Hnil in Hf|by exists ip, vl, scds]|]);
      intros (ip & vl & scds & Hin & Ea & Hd); right; exists scds; (split; [apply Hresp; exists ip, vl; split; [done|]; split; [by apply (Hne ip vl)|done]|done]).
  - replace (is_nil local) with false by (by destruct local). pose proof (H2 Hl) as Hlin. destruct (Hask _ _ Hlin) as (_ & a & Ea & _ & Hsc). rewrite Ea. cbn [res_bind].
    destruct a as [| | |scds0]; [eexists; (split; [done|]); exists local_ip, local; (split; [done|]); intros scds; by rewrite Ea..|]. destruct (Hsc scds0 eq_refl) as [S1 S2]. destruct (add_scds_ok _ S1 [] ltac:(constructor)) as [O1 F1]. destruct (add_scds_ok _ S2 [] ltac:(constructor)) as [O2 F2].
    eexists. split; [done|]. pose proof (add_responses_ok (arrive responses) Hok (add_both scds0 ([], [])) (conj O1 O2)) as Ha. destruct (add_responses _ _) as [files|]; [|by apply Hfail]. destruct Ha as (G1 & G2 & G3 & G4).
    assert (forall vl, (local_ip, vl) ∈ from -> vl = local) as Hloc by (intros vl Hin; symmetry; by apply H1).
    split; [done|]. split; [intros ip vl Hin; destruct (decide (ip = local_ip)) as [->|Hne]; [apply Hloc in Hin as ->; by exists scds0|by apply (Hall G2 ip vl)]|].
    unfold add_both in G3, G4. cbn [fst snd] in *.
    split; intros t d; [rewrite G3, F1|rewrite G4, F2].
    all: split; [intros [[Hf|Hd]|(scds & (ip & vl & Hin & _ & Eip)%Hresp & Hd)]; [by apply Hnil in Hf|by exists local_ip, local, scds0|by exists ip, vl, scds]|].
    all: intros (ip & vl & scds & Hin & Eip & Hd); destruct (decide (ip = local_ip)) as [->|Hne].
    all: try (apply Hloc in Hin as ->; rewrite Ea in Eip; injection Eip as <-; left; by right).
    all: right; exists scds; (split; [apply Hresp; by exists ip, vl|done]).
Qed.
End Ask.

(** ** Who is asked for what *)
Lemma group_ok (cl : Cluster (Doc := Doc)) (migrate : MigrateList) : (forall v a b, (v, (a, b)) ∈ migrate -> getShardNodeIP cl a <> ""%string) ->
  exists from, group_by_source cl migrate = Some from /\ om_sorted from /\ (forall ip, om_sorted (entry from ip)) /\
    (forall ip t v, v ∈ entry (entry from ip) t <-> exists a, (v, (a, t)) ∈ migrate /\ getShardNodeIP cl a = ip) /\
    (forall ip vl, om_find from ip = Some vl -> vl <> [] /\ exists v a t, (v, (a, t)) ∈ migrate /\ getShardNodeIP cl a = ip).
Proof.
  unfold group_by_source. induction migrate as [|[v0 [a0 b0]] migrate IH] using rev_ind; intros Hip.
  { exists []. split; [done|]. split; [constructor|]. split; [intros ip; constructor|]. split; [|done]. intros ip t v. split; [intros Hv; by apply elem_of_nil in Hv|intros (a & Ha & _); by apply elem_of_nil in Ha]. }
  destruct IH as (from & E & Hs & Hso & Hin & Hne); [intros v a b Hv; apply (Hip v a b), elem_of_app; by left|].
  rewrite foldl_app, E. cbn [foldl mbind option_bind fst snd]. pose proof (Hip v0 a0 b0 ltac:(apply elem_of_app; right; by left)) as Hip0. rewrite (proj2 (String.eqb_neq _ _) Hip0).
  set (ip0 := getShardNodeIP cl a0) in *. exists (om_set from ip0 (om_push (entry from ip0) b0 v0)). split; [done|]. split; [by apply om_set_sorted|].
  assert (forall ip, entry (om_set from ip0 (om_push (entry from ip0) b0 v0)) ip = if decide (ip = ip0) then om_push (entry from ip0) b0 v0 else entry from ip) as Hentry.
  { intros ip. unfold entry at 1. case_decide as Hd; [subst ip; by rewrite om_find_set_eq|by rewrite om_find_set_ne]. }
  split; [intros ip; rewrite Hentry; case_decide; [by apply push_sorted|done]|]. split.
  - intros ip t v. rewrite Hentry. split.
    + case_decide as Hd.
      * subst ip. rewrite push_elem by done. intros [Hv|[-> ->]]; [apply Hin in Hv as (a & Ha & Ea); exists a; split; [apply elem_of_app; by left|done]|].
        exists a0. split; [apply elem_of_app; right; by left|done].
      * intros (a & Ha & Ea)%Hin. exists a. split; [apply elem_of_app; by left|done].
    + intros (a & [Ha|[= -> -> ->]%list_elem_of_singleton]%elem_of_app & Ea).
      * case_decide as Hd; [subst ip; apply push_elem; [done|]; left|]; apply Hin; exists a; by split.
      * rewrite decide_True by done. apply push_elem; [done|]. by right.
  - intros ip vl. destruct (decide (ip = ip0)) as [->|Hd].
    + rewrite om_find_set_eq. intros [= <-]. split.
      * intros En. pose proof (entry_push_eq (entry from ip0) b0 v0) as Ee. rewrite En in Ee. unfold entry at 1 in Ee. cbn in Ee. by destruct (entry (entry from ip0) b0).
      * exists v0, a0, b0. split; [apply elem_of_app; right; by left|done].
    + rewrite om_find_set_ne by done. intros Ef. destruct (Hne ip vl Ef) as (Hvl & v & a & t & Hv & Ea). split; [done|]. exists v, a, t. split; [apply elem_of_app; by left|done].
Qed.

Lemma found_ok (vl : Topology) v t : om_sorted vl -> (forall t t', v ∈ entry vl t -> v ∈ entry vl t' -> t = t') -> ~ (v ∈ entry vl 0) ->
  (found_shardid vl v = t /\ t <> 0) <-> v ∈ entry vl t.
Proof.
  intros Hs Hone H0. unfold found_shardid. destruct (List.find _ vl) as [[t0 vids]|] eqn:Ef.
  - apply List.find_some in Ef as [Hin%list_elem_of_In Hv%bool_decide_eq_true]. cbn [snd fst] in *.
    assert (v ∈ entry vl t0) as Hv0 by (apply entry_elem; [done|]; by exists vids). split.
    + by intros [<- _].
    + intros Hvt. split; [by apply Hone|]. by intros ->.
  - split; [by intros [<- ?]|]. intros Hv. apply (entry_elem _ _ _ Hs) in Hv as (vids & Hin%list_elem_of_In & Hv). pose proof (List.find_none _ _ Ef _ Hin) as Hn. cbn in Hn. by apply bool_decide_eq_false in Hn.
Qed.

(** ** Indexing and deleting *)
Lemma index_ok run push (files : Files) : om_sorted files -> forall ns : gmap Z Node, exists ok ns', indexShardingNodes run push files ns = (ok, ns') /\
  (forall s, ns' !! s = ns !! s \/ ns' !! s = (fun n => run n (concat (entry files s))) <$> ns !! s) /\
  (forall s, s ∉ map fst files -> ns' !! s = ns !! s) /\
  (ok = true -> forall s, s ∈ map fst files -> ns' !! s = (fun n => run n (concat (entry files s))) <$> ns !! s) /\
  ((forall s, push s = true) -> ok = true).
Proof.
  intros Hsorted. pose proof (om_sorted_NoDup _ Hsorted) as Hnd.
  assert (forall l : Files, NoDup (map fst l) -> forall ns : gmap Z Node, exists ok ns', indexShardingNodes run push l ns = (ok, ns') /\
    (forall s, ns' !! s = ns !! s \/ exists fs, (s, fs) ∈ l /\ ns' !! s = (fun n => run n (concat fs)) <$> ns !! s) /\
    (ok = true -> forall s fs, (s, fs) ∈ l -> ns' !! s = (fun n => run n (concat fs)) <$> ns !! s) /\ ((forall s, push s = true) -> ok = true)) as Hgo.
  { clear. induction l as [|[s0 fs0] l IH]; intros Hnd ns.
    { exists true, ns. split; [done|]. split; [by left|]. split; [|done]. intros _ s fs Hs. by apply elem_of_nil in Hs. }
    cbn [map fst] in Hnd. apply NoDup_cons in Hnd as [Hs0 Hnd]. cbn [indexShardingNodes]. destruct (push s0) eqn:Ep.
    - destruct (IH Hnd (alter (fun n => run n (concat fs0)) s0 ns)) as (ok & ns' & E & H1 & H2 & H3). exists ok, ns'. split; [done|].
      assert (forall s fs, (s, fs) ∈ l -> s <> s0) as Hne by (intros s fs Hs ->; apply Hs0, list_elem_of_fmap; by exists (s0, fs)).
      split; [|split; [|done]].
      + intros s. destruct (H1 s) as [Es|(fs & Hfs & Es)].
        * destruct (decide (s = s0)) as [->|Hs]; [|left; by rewrite Es, lookup_alter_ne]. right. exists fs0. split; [by left|]. by rewrite Es, lookup_alter_eq.
        * right. exists fs. split; [by right|]. rewrite Es, lookup_alter_ne; [done|]. pose proof (Hne s fs Hfs). congruence.
      + intros Hok s fs [[= -> ->]|Hfs]%elem_of_cons.
        * destruct (H1 s0) as [Es|(fs & Hfs & _)]; [by rewrite Es, lookup_alter_eq|]. by apply Hne in Hfs.
        * rewrite (H2 Hok s fs Hfs), lookup_alter_ne; [done|]. pose proof (Hne s fs Hfs). congruence.
    - exists false, ns. split; [done|]. split; [by left|]. split; [done|]. intros Hp. by rewrite Hp in Ep. }
  intros ns. destruct (Hgo files Hnd ns) as (ok & ns' & E & H1 & H2 & H3). exists ok, ns'. split; [done|].
  assert (forall s fs, (s, fs) ∈ files -> entry files s = fs) as Hentry.
  { intros s fs Hin. unfold entry. apply (om_find_elem _ _ _ Hsorted) in Hin. by rewrite Hin. }
  split; [|split; [|split; [|done]]].
  - intros s. destruct (H1 s) as [Es|(fs & Hfs & Es)]; [by left|right]. by rewrite (Hentry s fs Hfs).
  - intros s Hs. destruct (H1 s) as [Es|(fs & Hfs & Es)]; [done|]. exfalso. apply Hs, list_elem_of_fmap. by exists (s, fs).
  - intros Hok s ([s1 fs] & -> & Hfs)%list_elem_of_fmap. cbn [fst]. rewrite (Hentry s1 fs Hfs). by apply (H2 Hok).
Qed.

(** ** A migration *)

(** Every document is at the shard of its virtual node, once. *)
Definition placed (ns : gmap Z Node) (m : list Z) : Prop := forall s n, ns !! s = Some n ->
  (forall d, holds n d -> exists v, doc_vnode d v /\ vget m v = Ret s) /\ (forall d d', holds n d -> holds n d' -> DOCID d = DOCID d' -> d = d').
Definition stored (ns : gmap Z Node) (d : Doc) : Prop := exists s n, ns !! s = Some n /\ holds n d.
(** [d] is where the map says. *)
Definition found_at (ns : gmap Z Node) (m : list Z) (d : Doc) : Prop := exists v s n, doc_vnode d v /\ vget m v = Ret s /\ ns !! s = Some n /\ holds n d.

Section Migration.
Context (cl : Cluster (Doc := Doc)) (w : World (Node := Node)) (dests m m' : list Z) (migrate : MigrateList).
Hypothesis Hmv : moves dests m m' migrate.
Hypothesis Hdests : Forall id_ok dests.
Hypothesis Hnew : forall t, t ∈ dests -> is_Some (nodes w !! t).
Hypothesis Hplaced : placed (nodes w) m.
(** Every shard has its node, at its own address, which does not refuse to answer. *)
Hypothesis Hold : forall s, s ∈ m -> getShardNodeIP cl s <> ""%string /\ shard_at cl (getShardNodeIP cl s) = Some s /\ is_Some (nodes w !! s).
Hypothesis Hfate : forall ip a, fate cl ip = Some a -> a = Unreachable \/ a = Failed.
Hypothesis Harrive : forall l, arrival cl l ≡ₚ l.
Notation ask := (ask_node getMaxDocId getDocument DOCID cl w).

(** Document [d] of shard [s] goes to [t]. *)
Definition travels (d : Doc) (s t : Z) : Prop := exists n v, nodes w !! s = Some n /\ holds n d /\ doc_vnode d v /\ om_find migrate v = Some (s, t).

Lemma migrate_shard v a b : (v, (a, b)) ∈ migrate -> a ∈ m /\ ~ (a ∈ dests) /\ b ∈ dests /\ vget m v = Ret a /\ vget m' v = Ret b.
Proof.
  intros Hin. apply (om_find_elem _ _ _ (mv_sorted _ _ _ _ Hmv)) in Hin. destruct (mv_moved _ _ _ _ Hmv v a b Hin) as (H1 & H2 & H3 & H4).
  split; [|done]. apply vget_Ret in H1 as [_ H1]. by eapply list_elem_of_lookup_2.
Qed.

Lemma files_of_world from : group_by_source cl migrate = Some from -> exists g, generateMigrateScds (local_ip cl) (arrival cl) ask from = Ret g /\
  match g with
  | None => exists ip a, fate cl ip = Some a
  | Some files => files_ok files /\ (forall t d, in_files files.1 t d <-> exists s, travels d s t) /\ (forall s d, in_files files.2 s d <-> exists t, travels d s t)
  end.
Proof.
  intros Efrom. destruct (group_ok cl migrate) as (from' & Efrom' & Hs & Hso & Hin & Hne); [intros v a b Hv; apply migrate_shard in Hv as (Ha & _); by apply Hold|].
  rewrite Efrom in Efrom'. injection Efrom' as <-.
  assert (forall ip vl, (ip, vl) ∈ from -> vl = entry from ip) as Hvl by (intros ip vl Hi; apply (om_find_elem _ _ _ Hs) in Hi; unfold entry; by rewrite Hi).
  assert (forall s n, nodes w !! s = Some n -> forall d, holds n d -> exists v, doc_vnode d v) as Hkeys by (intros s n En d Hd; destruct (Hplaced s n En) as [Hp _]; destruct (Hp d Hd) as (v & Hv & _); by exists v).
  assert (forall ip vl, (ip, vl) ∈ from -> exists s, ip = getShardNodeIP cl s /\ s ∈ m) as Hsrc.
  { intros ip vl Hi. apply (om_find_elem _ _ _ Hs) in Hi. destruct (Hne ip vl Hi) as (_ & v & a & t & Hv & Ea). exists a. split; [done|]. by apply migrate_shard in Hv as (? & _). }
  assert (forall s vl n, s ∈ m -> nodes w !! s = Some n -> fate cl (getShardNodeIP cl s) = None -> exists scds, ask (getShardNodeIP cl s) vl = Ret (Generated scds) /\ scds_ok scds /\
    (forall d t, d ∈ entry scds.1 t <-> holds n d /\ goes vl d t) /\ (forall d t, d ∈ entry scds.2 t <-> t = s /\ holds n d /\ exists t', goes vl d t')) as Hgen.
  { intros s vl n Hsm En Ef. unfold ask_node. destruct (Hold s Hsm) as (_ & -> & _). rewrite Ef, En. destruct (node_files_ok s n vl (Hkeys s n En)) as (scds & -> & G1 & G2 & G3 & G4). by exists scds. }
  destruct (generate_all (local_ip cl) (arrival cl) Harrive ask from) as (g & -> & Hg); [|by apply om_sorted_NoDup|].
  { intros ip vl Hi. split; [apply (om_find_elem _ _ _ Hs) in Hi; by apply (Hne ip vl)|]. destruct (Hsrc ip vl Hi) as (s & -> & Hsm). destruct (fate cl (getShardNodeIP cl s)) as [a|] eqn:Ef.
    - exists a. unfold ask_node. rewrite Ef. split; [done|]. by destruct (Hfate _ _ Ef) as [-> | ->].
    - destruct (Hold s Hsm) as (_ & _ & n & En). destruct (Hgen s vl n Hsm En Ef) as (scds & -> & Hok & _). eexists. split; [done|]. split; [done|]. by intros scds' [= <-]. }
  exists g. split; [done|]. destruct g as [files|].
  2:{ destruct Hg as (ip & vl & Hi & Hn). destruct (Hsrc ip vl Hi) as (s & -> & Hsm). destruct (fate cl (getShardNodeIP cl s)) as [a|] eqn:Ef; [by exists (getShardNodeIP cl s), a|].
      destruct (Hold s Hsm) as (_ & _ & n & En). destruct (Hgen s vl n Hsm En Ef) as (scds & Ea & _). by destruct (Hn scds). } destruct Hg as (G1 & G2 & G3 & G4). split; [done|].
  assert (forall ip vl scds, (ip, vl) ∈ from -> ask ip vl = Ret (Generated scds) -> exists s n, ip = getShardNodeIP cl s /\ s ∈ m /\ nodes w !! s = Some n /\
    (forall d t, d ∈ entry scds.1 t <-> holds n d /\ goes vl d t) /\ (forall d t, d ∈ entry scds.2 t <-> t = s /\ holds n d /\ exists t', goes vl d t')) as Hback.
  { intros ip vl scds Hi Ea. destruct (Hsrc ip vl Hi) as (s & -> & Hsm). destruct (Hold s Hsm) as (_ & _ & n & En). destruct (fate cl (getShardNodeIP cl s)) as [a|] eqn:Ef.
    - unfold ask_node in Ea. rewrite Ef in Ea. injection Ea as ->. by destruct (Hfate _ _ Ef).
    - destruct (Hgen s vl n Hsm En Ef) as (scds' & Ea' & _ & H1 & H2). rewrite Ea in Ea'. injection Ea' as ->. by exists s, n. }
  assert (forall s n d t, s ∈ m -> nodes w !! s = Some n -> holds n d -> goes (entry from (getShardNodeIP cl s)) d t <-> exists v, doc_vnode d v /\ om_find migrate v = Some (s, t)) as Hgoes.
  { intros s n d t Hsm En Hd. set (ip := getShardNodeIP cl s).
    assert (forall v, doc_vnode d v -> forall t', v ∈ entry (entry from ip) t' -> om_find migrate v = Some (s, t')) as Hone.
    { intros v Hv t' (a & Ha & Ea)%Hin. destruct (migrate_shard v a t' Ha) as (_ & _ & _ & Em & _). destruct (Hplaced s n En) as [Hp _]. destruct (Hp d Hd) as (v' & Hv' & Em').
      rewrite (doc_vnode_same d d v' v Hv' Hv eq_refl), Em in Em'. injection Em' as ->. by apply (om_find_elem _ _ _ (mv_sorted _ _ _ _ Hmv)). }
    assert (forall v, doc_vnode d v -> (found_shardid (entry from ip) v = t /\ t <> 0) <-> v ∈ entry (entry from ip) t) as Hfound.
    { intros v Hv. apply found_ok; [done| |].
      - intros t1 t2 Ht1%(Hone v Hv) Ht2%(Hone v Hv). rewrite Ht1 in Ht2. by injection Ht2.
      - intros (a & Ha & _)%Hin. apply migrate_shard in Ha as (_ & _ & Hb & _). rewrite Forall_forall in Hdests. by destruct (Hdests 0 Hb). }
    split.
    - intros (v & Hv & Hf). exists v. split; [done|]. apply Hone; [done|]. by apply Hfound.
    - intros (v & Hv & Em). exists v. split; [done|]. apply Hfound; [done|]. apply Hin. exists s. split; [by apply (om_find_elem _ _ _ (mv_sorted _ _ _ _ Hmv))|done]. }
  assert (forall d s t, travels d s t -> exists vl scds n, s ∈ m /\ nodes w !! s = Some n /\ holds n d /\ (getShardNodeIP cl s, vl) ∈ from /\ ask (getShardNodeIP cl s) vl = Ret (Generated scds) /\
      goes vl d t /\ (forall d t, d ∈ entry scds.1 t <-> holds n d /\ goes vl d t) /\ (forall d t, d ∈ entry scds.2 t <-> t = s /\ holds n d /\ exists t', goes vl d t')) as Htrav.
  { intros d s t (n & v & En & Hd & Hv & Em). pose proof Em as Hmig. apply (om_find_elem _ _ _ (mv_sorted _ _ _ _ Hmv)) in Hmig. destruct (migrate_shard v s t Hmig) as (Hsm & _).
    assert (v ∈ entry (entry from (getShardNodeIP cl s)) t) as Hve by (apply Hin; by exists s).
    destruct (om_find from (getShardNodeIP cl s)) as [vl|] eqn:Ef; [|unfold entry at 2 in Hve; rewrite Ef in Hve; by apply elem_of_nil in Hve].
    pose proof Ef as Hf. apply (om_find_elem _ _ _ Hs) in Hf. destruct (G2 _ _ Hf) as (scds & Ea). destruct (Hback _ _ _ Hf Ea) as (s' & n' & Es & Hsm' & En' & H1 & H2).
    assert (s' = s) as -> by (destruct (Hold s Hsm) as (_ & E1 & _); destruct (Hold s' Hsm') as (_ & E2 & _); rewrite <- Es in E2; congruence).
    rewrite En in En'. injection En' as <-. exists vl, scds, n. split_and!; try done. rewrite (Hvl _ _ Hf). apply (Hgoes s n d t Hsm En Hd). by exists v. }
  split.
  - intros t d. rewrite G3. split.
    + intros (ip & vl & scds & Hi & Ea & Hd). destruct (Hback ip vl scds Hi Ea) as (s & n & -> & Hsm & En & H1 & _). destruct (proj1 (H1 d t) Hd) as [Hh Hgo].
      rewrite (Hvl _ _ Hi) in Hgo. apply (Hgoes s n d t Hsm En Hh) in Hgo as (v & Hv & Em). exists s, n, v. done.
    + intros (s & Ht). destruct (Htrav d s t Ht) as (vl & scds & n & _ & _ & Hd & Hi & Ea & Hgo & H1 & _). exists (getShardNodeIP cl s), vl, scds. split; [done|]. split; [done|]. by apply H1.
  - intros s d. rewrite G4. split.
    + intros (ip & vl & scds & Hi & Ea & Hd). destruct (Hback ip vl scds Hi Ea) as (s' & n & -> & Hsm & En & _ & H2). destruct (proj1 (H2 d s) Hd) as (-> & Hh & t & Hgo).
      rewrite (Hvl _ _ Hi) in Hgo. apply (Hgoes s' n d t Hsm En Hh) in Hgo as (v & Hv & Em). exists t, n, v. done.
    + intros (t & Ht). destruct (Htrav d s t Ht) as (vl & scds & n & _ & _ & Hd & Hi & Ea & Hgo & _ & H2). exists (getShardNodeIP cl s), vl, scds. split; [done|]. split; [done|]. apply H2. split; [done|]. split; [done|]. by exists t.
Qed.

(** What the shards hold when the files are indexed, and when they are deleted. *)
Context (files : Files * Files).
Hypothesis Hfiles : files_ok files.
Hypothesis Hins : forall t d, in_files files.1 t d <-> exists s, travels d s t.
Hypothesis Hdel : forall s d, in_files files.2 s d <-> exists t, travels d s t.

Lemma vnode_shard s n d v : nodes w !! s = Some n -> holds n d -> doc_vnode d v -> vget m v = Ret s.
Proof. intros En Hd Hv. destruct (Hplaced s n En) as [Hp _]. destruct (Hp d Hd) as (v' & Hv' & Em). by rewrite (doc_vnode_same d d v v' Hv Hv' eq_refl). Qed.

Lemma travels_ends d s t : travels d s t -> ~ (s ∈ dests) /\ t ∈ dests.
Proof. intros (n & v & _ & _ & _ & Em). destruct (mv_moved _ _ _ _ Hmv v s t Em) as (_ & H1 & _ & H2). done. Qed.

(** A document that comes to [t] has a DOCID that [t] does not hold, and comes once. *)
Lemma comes_new d s t n d' : travels d s t -> nodes w !! t = Some n -> holds n d' -> DOCID d <> DOCID d'.
Proof.
  intros Ht En Hd' Es. pose proof (travels_ends d s t Ht) as [Hs Hdst]. destruct Ht as (n0 & v & En0 & Hd & Hv & Em). destruct (Hplaced t n En) as [Hp _]. destruct (Hp d' Hd') as (v' & Hv' & Em').
  rewrite <- (doc_vnode_same d d' v v' Hv Hv' Es), (vnode_shard s n0 d v En0 Hd Hv) in Em'. injection Em' as ->. done.
Qed.

Lemma comes_once d d' s s' t : travels d s t -> travels d' s' t -> DOCID d = DOCID d' -> d = d'.
Proof.
  intros (n & v & En & Hd & Hv & Em) (n' & v' & En' & Hd' & Hv' & Em') Es. rewrite <- (doc_vnode_same d d' v v' Hv Hv' Es), Em in Em'. injection Em' as <-.
  rewrite En in En'. injection En' as <-. destruct (Hplaced s n En) as [_ Hu]. by apply Hu.
Qed.

Lemma after_insert n t d : nodes w !! t = Some n -> holds (run_insert n (concat (entry files.1 t))) d <-> (exists s, travels d s t) \/ holds n d.
Proof.
  intros En. rewrite insert_law.
  - change (d ∈ concat (entry files.1 t)) with (in_files files.1 t d). rewrite Hins. split; [intros [Ht|[Hd _]]; [by left|by right]|].
    intros [Ht|Hd]; [by left|right]. split; [done|]. intros x Hx. change (in_files files.1 t x) in Hx. apply Hins in Hx as (s & Hx). by apply (comes_new x s t n).
  - intros x y Hx Hy. change (in_files files.1 t x) in Hx. change (in_files files.1 t y) in Hy. apply Hins in Hx as (s & Hx), Hy as (s' & Hy). by apply (comes_once x y s s' t).
Qed.

(** The documents of the world after the first step, whether it is complete or not. *)
Definition inserted (ns : gmap Z Node) : Prop := forall s, exists come, ns !! s = (fun n => if come : bool then run_insert n (concat (entry files.1 s)) else n) <$> nodes w !! s.

Lemma inserted_keeps ns d : inserted ns -> stored (nodes w) d -> found_at ns m d.
Proof.
  intros Hi (s & n & En & Hd). destruct (Hplaced s n En) as [Hp _]. destruct (Hp d Hd) as (v & Hv & Em). destruct (Hi s) as (come & Es). rewrite En in Es. cbn [fmap option_fmap option_map] in Es.
  exists v, s. eexists. split; [done|]. split; [done|]. split; [exact Es|]. destruct come; [|done]. apply (after_insert n s d En). by right.
Qed.

(** After the second step: a shard without files is not touched. *)
Definition deleted (all : bool) (ns : gmap Z Node) : Prop := forall s, exists come go : bool,
  (come = false -> forall d s', ~ travels d s' s) /\ (all = true -> go = false -> forall d t, ~ travels d s t) /\
  ns !! s = (fun n => let n := if come then run_insert n (concat (entry files.1 s)) else n in if go then run_delete n (concat (entry files.2 s)) else n) <$> nodes w !! s.

Lemma after_come n s d (come : bool) : nodes w !! s = Some n -> (come = false -> forall d s', ~ travels d s' s) ->
  holds (if come then run_insert n (concat (entry files.1 s)) else n) d <-> (exists s', travels d s' s) \/ holds n d.
Proof.
  intros En Hc. destruct come; [by apply after_insert|]. split; [by right|]. intros [(s' & Hs)|Hd]; [by destruct (Hc eq_refl d s')|done].
Qed.

Lemma after_delete n s d (come go : bool) : nodes w !! s = Some n -> (come = false -> forall d s', ~ travels d s' s) ->
  holds (let n := if come then run_insert n (concat (entry files.1 s)) else n in if go then run_delete n (concat (entry files.2 s)) else n) d <->
  ((exists s', travels d s' s) \/ holds n d) /\ (go = true -> ~ exists t, travels d s t).
Proof.
  intros En Hc. cbv zeta. destruct go; [|rewrite (after_come n s d come En Hc); intuition done]. rewrite delete_law, (after_come n s d come En Hc).
  assert ((forall x, x ∈ concat (entry files.2 s) -> DOCID x <> DOCID d) <-> forall x t, travels x s t -> DOCID x <> DOCID d) as ->.
  { split; [intros Hx x t Ht; apply Hx; change (in_files files.2 s x); apply Hdel; by exists t|]. intros Hx x Hin. change (in_files files.2 s x) in Hin. apply Hdel in Hin as (t & Ht). by apply (Hx x t). }
  split.
  - intros [Hh Hx]. split; [done|]. intros _ (t & Ht). by apply (Hx d t Ht).
  - intros [Hh Hn]. split; [done|]. intros x t Hx Es. destruct Hh as [(s' & Hs')|Hd].
    + apply travels_ends in Hx as [Hx _], Hs' as [_ Hs']. done.
    + destruct Hx as (n' & v & En' & Hd' & Hv & Em). rewrite En in En'. injection En' as <-. destruct (Hplaced s n En) as [_ Hu]. rewrite <- (Hu x d Hd' Hd Es) in Hn. apply (Hn eq_refl). by exists t, n, v.
Qed.

Lemma deleted_keeps all ns d : deleted all ns -> stored (nodes w) d -> found_at ns m' d.
Proof.
  intros Hdl (s & n & En & Hd). destruct (Hplaced s n En) as [Hp _]. destruct (Hp d Hd) as (v & Hv & Em).
  assert (0 <= v) as Hv0 by (by apply vget_Ret in Em as [? _]).
  destruct (om_find migrate v) as [[a t]|] eqn:Emig.
  - destruct (mv_moved _ _ _ _ Hmv v a t Emig) as (Ea & Hna & Et & Ht). rewrite Em in Ea. injection Ea as <-. destruct (Hnew t Ht) as (nt & Ent).
    destruct (Hdl t) as (come & go & Hc & _ & Es). rewrite Ent in Es. cbn [fmap option_fmap option_map] in Es.
    exists v, t. eexists. split; [done|]. split; [done|]. split; [exact Es|]. apply (after_delete nt t d come go Ent Hc). split; [left; exists s, n, v; done|].
    intros _ (t' & Ht'). by apply travels_ends in Ht' as [Ht' _].
  - destruct (Hdl s) as (come & go & Hc & _ & Es). rewrite En in Es. cbn [fmap option_fmap option_map] in Es. exists v, s. eexists. split; [done|].
    split; [by rewrite (mv_stay _ _ _ _ Hmv)|]. split; [exact Es|]. apply (after_delete n s d come go En Hc). split; [by right|].
    intros _ (t & n' & v' & _ & _ & Hv' & Em'). rewrite (doc_vnode_same d d v' v Hv' Hv eq_refl), Emig in Em'. done.
Qed.

Lemma deleted_placed ns : deleted true ns -> placed ns m'.
Proof.
  intros Hdl s n' En'. destruct (Hdl s) as (come & go & Hc & Hgo & Es). rewrite En' in Es. destruct (nodes w !! s) as [n|] eqn:En; [|done]. injection Es as ->.
  match goal with |- (forall d, holds ?N d -> _) /\ _ => assert (forall d, holds N d -> ((exists s', travels d s' s) \/ holds n d) /\ ~ exists t, travels d s t) as Hh end.
  { intros d Hd. apply (after_delete n s d come go En Hc) in Hd as [H1 H2]. split; [done|]. destruct go; [by apply H2|]. intros (t & Ht). by apply (Hgo eq_refl eq_refl d t). }
  split.
  - intros d Hd. destruct (Hh d Hd) as [[(s' & n0 & v & En0 & Hd0 & Hv & Em)|Hd0] Hno].
    + exists v. split; [done|]. by destruct (mv_moved _ _ _ _ Hmv v s' s Em) as (_ & _ & ? & _).
    + destruct (Hplaced s n En) as [Hp _]. destruct (Hp d Hd0) as (v & Hv & Em). exists v. split; [done|]. assert (0 <= v) as Hv0 by (by apply vget_Ret in Em as [? _]).
      destruct (om_find migrate v) as [[a t]|] eqn:Emig; [|by rewrite (mv_stay _ _ _ _ Hmv)]. destruct (mv_moved _ _ _ _ Hmv v a t Emig) as (Ea & _). rewrite Em in Ea. injection Ea as <-.
      exfalso. apply Hno. by exists t, n, v.
  - intros d d' Hd Hd' Es. destruct (Hh d Hd) as [[(s1 & H1)|H1] _], (Hh d' Hd') as [[(s2 & H2)|H2] _].
    + by apply (comes_once d d' s1 s2 s).
    + exfalso. by apply (comes_new d s1 s n d' H1 En H2).
    + exfalso. by apply (comes_new d' s2 s n d H2 En H1).
    + destruct (Hplaced s n En) as [_ Hu]. by apply Hu.
Qed.

(** The two steps as the code takes them. *)
Lemma deleted_run ns ns' ok : om_sorted files.1 -> om_sorted files.2 ->
  indexShardingNodes run_insert (push_insert cl) files.1 (nodes w) = (true, ns) -> indexShardingNodes run_delete (push_delete cl) files.2 ns = (ok, ns') ->
  ((forall s, push_delete cl s = true) -> deleted true ns') /\ deleted false ns'.
Proof.
  intros Hs1 Hs2 E1 E2. destruct (index_ok run_insert (push_insert cl) files.1 Hs1 (nodes w)) as (ok1 & ns1 & E1' & _ & I2 & I3 & _). rewrite E1 in E1'. injection E1' as <- <-.
  destruct (index_ok run_delete (push_delete cl) files.2 Hs2 ns) as (ok2 & ns2 & E2' & D1 & D2 & D3 & D4). rewrite E2 in E2'. injection E2' as <- <-.
  assert (forall (l : Files) s d, s ∉ map fst l -> ~ in_files l s d) as Hnone.
  { intros l s d Hs. unfold in_files, entry. destruct (om_find l s) as [fs|] eqn:Ef; [|apply not_elem_of_nil]. exfalso. apply Hs. clear -Ef. induction l as [|[k v] l IH]; [done|].
    cbn [om_find] in Ef. destruct (tcompare s k) eqn:Ec; [apply tcompare_eq in Ec as ->; by left|done|right; by apply IH]. }
  assert (forall s, exists come : bool, (come = false -> forall d s', ~ travels d s' s) /\ ns !! s = (fun n => if come then run_insert n (concat (entry files.1 s)) else n) <$> nodes w !! s) as Hcome.
  { intros s. destruct (decide (s ∈ map fst files.1)) as [Hk|Hk].
    - exists true. split; [done|]. by apply I3.
    - exists false. split; [intros _ d s' Ht; apply (Hnone _ _ d Hk), Hins; by exists s'|]. rewrite (I2 s Hk). by destruct (nodes w !! s). }
  split; [intros Hp|]; intros s; destruct (Hcome s) as (come & Hc & Es); exists come.
  - destruct (decide (s ∈ map fst files.2)) as [Hk|Hk].
    + exists true. split; [done|]. split; [done|]. rewrite (D3 (D4 Hp) s Hk), Es. by destruct (nodes w !! s).
    + exists false. split; [done|]. split; [intros _ _ d t Ht; apply (Hnone _ _ d Hk), Hdel; by exists t|]. by rewrite (D2 s Hk), Es.
  - destruct (D1 s) as [Ed|Ed]; [exists false|exists true]; (split; [done|]; split; [done|]); rewrite Ed, Es; by destruct (nodes w !! s).
Qed.
End Migration.

(** ** What a migration leaves *)

(** The cluster: every shard has its node at its own address; a node does not
    refuse to write its files, but may fail or be out of reach. *)
Record cluster_ok (cl : Cluster (Doc := Doc)) (w : World (Node := Node)) (m : list Z) : Prop := {
  co_shards : forall s, s ∈ m -> getShardNodeIP cl s <> ""%string /\ shard_at cl (getShardNodeIP cl s) = Some s /\ is_Some (nodes w !! s);
  co_fate : forall ip a, fate cl ip = Some a -> a = Unreachable \/ a = Failed;
  co_arrival : forall l, arrival cl l ≡ₚ l
}.

(** Nothing goes wrong before the deletions. *)
Record all_well (cl : Cluster (Doc := Doc)) (removing : bool) : Prop := {
  aw_fate : forall ip, fate cl ip = None;
  aw_ready : migrate_ready cl = true;
  aw_started : removing = false -> new_nodes_started cl = true;
  aw_push : forall s, push_insert cl s = true
}.

(** From the map [m] to [m'] if [b], with all documents where the map says, and
    only there if all deletions were taken. *)
Record migrated (cl : Cluster (Doc := Doc)) (w : World (Node := Node)) (m m' : list Z) (b : bool) (w' : World (Node := Node)) : Prop := {
  mg_file : map_file w' = if b then saveShardingMapToFile (map_file w) m' else map_file w;
  mg_found : forall d, stored (nodes w) d -> found_at (nodes w') (if b then m' else m) d;
  mg_placed : b = true -> (forall s, push_delete cl s = true) -> placed (nodes w') m'
}.

Lemma migrated_refl cl w m m' : placed (nodes w) m -> migrated cl w m m' false w.
Proof.
  intros Hp. split; [done| |done]. intros d (s & n & En & Hd). destruct (Hp s n En) as [H _]. destruct (H d Hd) as (v & Hv & Em). by exists v, s, n.
Qed.

Lemma migrate_work_ok cl w m m' dests migrate shards removing left : moves dests m m' migrate -> Forall id_ok dests -> (forall t, t ∈ dests -> is_Some (nodes w !! t)) ->
  placed (nodes w) m -> cluster_ok cl w m ->
  exists b w', doMigrateWork getMaxDocId getDocument DOCID run_insert run_delete cl shards removing migrate left m' w = Ret (b, w') /\ migrated cl w m m' b w' /\ (all_well cl removing -> b = true).
Proof.
  intros Hmv Hd Hnew Hp [Hold Hfate Harr]. unfold doMigrateWork. 
  destruct (group_ok cl migrate) as (from & Ef & _); [intros v a b Hv; apply (migrate_shard _ _ _ _ Hmv) in Hv as (Ha & _); by apply Hold|]. rewrite Ef.
  destruct (files_of_world cl w dests m m' migrate Hmv Hd Hp Hold Hfate Harr from Ef) as (g & -> & Hg). cbn [res_bind]. destruct g as [[ins dels]|].
  2:{ eexists _, _. split; [done|]. split; [by apply migrated_refl|]. intros [Hf _ _ _]. destruct Hg as (ip & a & Ea). by rewrite Hf in Ea. }
  destruct Hg as ([Hs1 Hs2] & H1 & H2). cbn [fst snd] in *.
  destruct (negb (migrate_ready cl)) eqn:Er.
  { eexists _, _. split; [done|]. split; [by apply migrated_refl|]. intros [_ Hr _ _]. by rewrite Hr in Er. }
  destruct (negb removing && negb (new_nodes_started cl)) eqn:Es.
  { eexists _, _. split; [done|]. split; [by apply migrated_refl|]. intros [_ _ Hst _]. destruct removing; [done|]. by rewrite Hst in Es. }
  destruct (index_ok run_insert (push_insert cl) ins Hs1 (nodes w)) as (ok & ns & E1 & I1 & _ & _ & I4). rewrite E1.
  assert (files_ok (ins, dels)) as Hfiles by done.
  destruct ok; cbn [negb].
  - destruct (indexShardingNodes run_delete (push_delete cl) dels ns) as [ok' ns'] eqn:E2. eexists _, _. split; [done|].
    destruct (deleted_run cl w migrate (ins, dels) H1 H2 ns ns' ok' Hs1 Hs2 E1 E2) as [Hall Hsome].
    split; [|done]. split; cbn [map_file nodes]; [done| |].
    + intros d Hdoc. by apply (deleted_keeps w dests m m' migrate Hmv Hnew Hp (ins, dels) H1 H2 false).
    + intros _ Hpush. apply (deleted_placed w dests m m' migrate Hmv Hp (ins, dels) H1 H2). by apply Hall.
  - eexists _, _. split; [done|]. split; [|intros [_ _ _ Hpush]; by rewrite I4 in *]. split; [done| |done]. cbn [nodes]. intros d Hdoc. apply (inserted_keeps w dests m m' migrate Hmv Hp (ins, dels)); [done..| |done].
    intros s. destruct (I1 s) as [-> | ->]; [exists false|exists true]; by destruct (nodes w !! s).
Qed.

(** ** Adding and removing *)

(** The master of a collection with the shards [l]. *)
Record service_ok (sv : Service) (l : list Z) : Prop := {
  so_master : isMasterAggregator sv = true;
  so_list : shardList_ sv = l;
  so_strategy : exists c, sharding_strategy_ sv = Some c /\ shardidList_ c = l;
  so_ids : Forall id_ok l;
  so_nodup : NoDup l
}.

(** The map of a collection with the shards [l]: the saved one, or all virtual nodes
    in the only shard. *)
Definition map_of (l : list Z) (file : option (list ascii)) (m : list Z) : Prop :=
  (vsize m = MAX_MAP_SIZE /\ Forall (fun s => s ∈ l) m) /\
  (readShardingMapFile file [] = Ret m \/ exists s, l = [s] /\ readShardingMapFile file [] = Ret [] /\ m = vresize MAX_MAP_SIZE s []).

Lemma map_saved l file m : vsize m = MAX_MAP_SIZE -> Forall (fun s => s ∈ l) m -> Forall id_ok l -> map_of l (saveShardingMapToFile file m) m.
Proof.
  intros Hm Hl Hid. split; [done|]. left. apply file_roundtrip; [done|]. rewrite !Forall_forall in *. intros s Hs. by apply Hid, Hl.
Qed.

Lemma ids_few l : NoDup l -> Forall id_ok l -> vsize l <= 255.
Proof.
  intros Hnd Hid. assert (length l <= length (seqZ 1 255))%nat as Hl; [|rewrite length_seqZ in Hl; unfold vsize; lia].
  apply submseteq_length, NoDup_submseteq; [done|]. intros s Hs. rewrite Forall_forall in Hid. specialize (Hid s Hs). apply elem_of_seqZ. unfold id_ok in Hid. lia.
Qed.

(** Moved virtual nodes are at the new places, the others where they were. *)
Lemma moves_shards (dests m m' : list Z) migrate (l : list Z) : moves dests m m' migrate -> Forall (fun s => s ∈ l) m -> Forall (fun s => s ∈ l \/ s ∈ dests) m'.
Proof.
  intros Hmv Hl. apply Forall_forall. intros s (i & Ei)%list_elem_of_lookup.
  assert (vget m' (Z.of_nat i) = Ret s) as Eg by (apply vget_Ret; rewrite Nat2Z.id; split; [lia|done]).
  destruct (om_find migrate (Z.of_nat i)) as [[a b]|] eqn:Ef.
  - destruct (mv_moved _ _ _ _ Hmv _ _ _ Ef) as (_ & _ & E & Hb). right. rewrite Eg in E. by injection E as ->.
  - left. rewrite (mv_stay _ _ _ _ Hmv) in Eg by (lia || done). apply vget_Ret in Eg as [_ Eg]. rewrite Forall_forall in Hl. apply Hl. by eapply list_elem_of_lookup_2.
Qed.

Notation add := (addNewShardingNodes getMaxDocId getDocument DOCID run_insert run_delete).
Notation remove := (removeShardingNodes getMaxDocId getDocument DOCID run_insert run_delete).

(** C7: adding shards to a collection whose documents are where its map says,
    when no node refuses the request for its documents ([refused_left_behind] shows
    that one that does keeps its documents): whichever step fails otherwise (a node
    that cannot be reached, fails or does not answer, new nodes that do not start, a
    shard that does not take its files), the map that the file gives afterwards, of
    the old shards or of all, sends the key of every document to a shard that has
    it. A shard that takes its files indexes them, as [run_insert] and [run_delete]
    say. If no step fails before the deletions, the shards are added: no new shard has more
    than an equal part of the virtual nodes, nor less than that by more than the
    number of old shards, and no old shard gives away more than what it has above
    an equal part; if all deletions are taken, every document is
    at one shard only. *)
Theorem adding_shards_keeps_documents sv cl w l nw m : service_ok sv l -> nw <> [] -> NoDup nw -> Forall id_ok nw -> (forall s, s ∈ nw -> s ∈ l -> False) ->
  map_of l (map_file w) m -> cluster_ok cl w m -> (forall t, t ∈ nw -> is_Some (nodes w !! t)) -> placed (nodes w) m ->
  exists b w' m', add cl sv nw w = Ret (b, w') /\ map_of (if b then l ++ nw else l) (map_file w') m' /\
    (forall d, stored (nodes w) d -> found_at (nodes w') m' d) /\
    (begin_migrate cl = true -> all_well cl false -> b = true) /\
    (b = true -> let per := MAX_MAP_SIZE / (vsize l + vsize nw) in
       (forall s, s ∈ nw -> per - vsize l <= held_by s m' <= per) /\
       (forall s, s ∈ l -> Z.min (held_by s m) (per + 1) <= held_by s m' <= held_by s m) /\
       ((forall s, push_delete cl s = true) -> placed (nodes w') m')).
Proof.
  intros [Hma Hli (c & Hst & Hc) Hid Hnd] Hne Hndn Hidn Hdis [[Hm Hml] Hread] Hcl Hnew Hp.
  assert (vsize l <> 0 /\ vsize nw <> 0) as [Hl0 Hn0].
  { split; [|by destruct nw]. intros Hl0. destruct l; [|done]. destruct m as [|x m]; [done|]. apply Forall_cons in Hml as [Hx _]. by apply elem_of_nil in Hx. }
  pose proof (vsize_nonneg l). pose proof (vsize_nonneg nw). pose proof (ids_few l Hnd Hid). pose proof (ids_few nw Hndn Hidn).
  destruct (add_balanced m l nw) as (topo & st & E & Hmv & Hb1 & Hb2); [rewrite Hm; unfold MAX_MAP_SIZE; lia|done|done|done|lia|rewrite Hm; unfold MAX_MAP_SIZE; lia|].
  assert (Forall (fun s => s ∈ l ++ nw) (ad_map st)) as Hall by (apply Forall_forall; intros s Hs; apply elem_of_app; pose proof (moves_shards _ _ _ _ l Hmv Hml) as Hms; rewrite Forall_forall in Hms; by apply Hms).
  assert (map_of l (map_file w) m) as Hmap by done. assert (forall d, stored (nodes w) d -> found_at (nodes w) m d) as Hfound by (intros d; apply (mg_found _ _ _ _ _ _ (migrated_refl cl w m m Hp))).
  unfold addNewShardingNodes, current_sharding_num. rewrite Hma, Hst, Hc, Hli. cbn [negb]. rewrite (proj2 (Z.eqb_neq _ _) Hl0). replace (is_nil nw) with false by (by destruct nw).
  replace (existsb _ nw) with false by (symmetry; apply not_true_iff_false; intros (s & Hs%list_elem_of_In & Hsl%bool_decide_eq_true)%existsb_exists; by apply (Hdis s)).
  assert (exists r, readShardingMapFile (map_file w) [] = Ret r /\ (match l with [s] => Ret (if is_nil r then vresize MAX_MAP_SIZE s [] else r) | _ => Ret r end) = Ret m) as (r & -> & Er).
  { destruct Hread as [-> | (s & -> & -> & Em)]; eexists; (split; [reflexivity|]); [|by rewrite Em]. destruct l as [|s [|]]; [done| |done]. by destruct m. }
  cbn [res_bind]. rewrite Er. cbn [res_bind]. replace (is_nil m) with false by (by destruct m). rewrite (proj2 (Z.ltb_ge _ _)) by (rewrite Hm; unfold MAX_MAP_SIZE; lia).
  cbv zeta in E. rewrite E. cbn [res_bind]. destruct (begin_migrate cl); cbn [negb]; [|exists false, w, m; by split_and!].
  destruct (migrate_work_ok cl w m (ad_map st) nw (ad_migrate st) l false nw Hmv Hidn Hnew Hp Hcl) as (b & w' & E' & [Hf Hk Hpl] & Hw). rewrite E'.
  exists b, w', (if b then ad_map st else m). split; [done|]. split; [rewrite Hf; destruct b; [|done]|split; [done|split; [done|]]].
  - apply map_saved; [by rewrite (mv_size _ _ _ _ Hmv)|done|by apply Forall_app].
  - intros ->. cbv zeta. rewrite <- Hm. split; [done|]. split; [done|]. by apply Hpl.
Qed.

(** C8: removing some shards, but not all, from a collection whose documents are
    where its map says, when no node refuses the request for its documents: the plan
    always succeeds; whichever step fails otherwise (a node that cannot be reached,
    fails or does not answer, a shard that does not take its files), the map that
    the file gives afterwards, of all shards or of those that stay, sends the key of
    every document to a shard that has it. A shard that takes its files indexes
    them. If no step fails before the deletions, the shards are removed: they have no virtual node, and the others
    keep theirs and get at most one above an equal part; if all deletions are
    taken, every document is at one shard only, and the removed shards are empty. *)
Theorem removing_shards_keeps_documents sv cl w l rm m : service_ok sv l -> rm <> [] -> NoDup rm -> (forall s, s ∈ rm -> s ∈ l) -> vsize rm < vsize l ->
  map_of l (map_file w) m -> (forall s, s ∈ l -> s ∈ m) -> cluster_ok cl w m -> placed (nodes w) m ->
  let others := filter (fun s => ~ (s ∈ rm)) l in
  exists b w' m', remove cl sv rm w = Ret (b, w') /\ map_of (if b then others else l) (map_file w') m' /\
    (forall d, stored (nodes w) d -> found_at (nodes w') m' d) /\
    (begin_migrate cl = true -> all_well cl true -> b = true) /\
    (b = true -> let per := MAX_MAP_SIZE / (vsize l - vsize rm) in
       (forall s, s ∈ rm -> held_by s m' = 0) /\
       (forall s, s ∈ others -> held_by s m <= held_by s m' <= Z.max (held_by s m + 1) (per + 1)) /\
       ((forall s, push_delete cl s = true) -> placed (nodes w') m' /\ forall s n d, s ∈ rm -> nodes w' !! s = Some n -> ~ holds n d)).
Proof.
  intros [Hma Hli (c & Hst & Hc) Hid Hnd] Hne Hndr Hsub Hlt [[Hm Hml] Hread] Hsome Hcl Hp others.
  pose proof (vsize_nonneg rm). assert (vsize rm <> 0) as Hr0 by (by destruct rm).
  destruct (remove_balanced m l rm) as (st & E & Hleft & Hmv & Hb1 & Hb2); [rewrite Hm; unfold MAX_MAP_SIZE; lia|done..|].
  assert (forall s, s ∈ left_sharding_nodes st <-> s ∈ others) as Hin by (intros s; by rewrite Hleft).
  assert (forall s, s ∈ others <-> s ∈ l /\ ~ (s ∈ rm)) as Hoth by (intros s; unfold others; rewrite list_elem_of_filter; tauto).
  assert (Forall (fun s => s ∈ others) (rm_map st)) as Hall.
  { apply Forall_forall. intros s Hs. apply Hoth. pose proof (moves_shards _ _ _ _ l Hmv Hml) as Hms. rewrite Forall_forall in Hms.
    split; [destruct (Hms s Hs) as [?|Ho]; [done|by apply Hin, Hoth in Ho as [? _]]|]. intros Hr. specialize (Hb1 s Hr). rewrite <- positions_held in Hb1.
    apply list_elem_of_lookup in Hs as (i & Ei). assert (Z.of_nat i ∈ positions s (rm_map st)) as Hpos by (apply positions_elem, vget_Ret; rewrite Nat2Z.id; split; [lia|done]).
    destruct (positions s (rm_map st)); [by apply elem_of_nil in Hpos|done]. }
  assert (Forall id_ok others) as Hido by (apply Forall_forall; intros s [Hs _]%Hoth; rewrite Forall_forall in Hid; by apply Hid).
  assert (map_of l (map_file w) m) as Hmap by done. assert (forall d, stored (nodes w) d -> found_at (nodes w) m d) as Hfound by (intros d; apply (mg_found _ _ _ _ _ _ (migrated_refl cl w m m Hp))).
  unfold removeShardingNodes, current_sharding_num. rewrite Hma, Hst, Hc, Hli. cbn [negb]. rewrite (proj2 (Z.eqb_neq _ 0)) by lia. replace (is_nil rm) with false by (by destruct rm).
  rewrite (proj2 (Z.eqb_neq _ 1)), (proj2 (Z.leb_gt _ _)) by lia.
  replace (existsb _ rm) with false by (symmetry; apply not_true_iff_false; intros (s & Hs%list_elem_of_In & Hsl)%existsb_exists; by rewrite bool_decide_eq_true_2 in Hsl by auto).
  assert (readShardingMapFile (map_file w) [] = Ret m) as ->.
  { destruct Hread as [? | (s & El & _)]; [done|]. rewrite El in Hlt. change (vsize [s]) with 1 in Hlt. lia. }
  cbn [res_bind]. replace (is_nil m) with false by (by destruct m). cbv zeta in E. rewrite E. cbn [res_bind negb orb].
  destruct (is_nil (left_sharding_nodes st)) eqn:En.
  { exfalso. pose proof (others_perm l rm Hnd Hndr Hsub) as Hperm%Permutation_length. rewrite length_app, <- Hleft in Hperm. destruct (left_sharding_nodes st); [|done]. cbn [length] in Hperm. unfold vsize in Hlt. lia. }
  destruct (begin_migrate cl); cbn [negb]; [|exists false, w, m; by split_and!].
  destruct (migrate_work_ok cl w m (rm_map st) (left_sharding_nodes st) (rm_migrate st) l true (left_sharding_nodes st) Hmv) as (b & w' & E' & [Hf Hk Hpl] & Hw); [| |done|done|].
  { apply Forall_forall. intros s Hs%Hin. rewrite Forall_forall in Hido. by apply Hido. }
  { intros t [Ht _]%Hin%Hoth. by apply (co_shards _ _ _ Hcl), Hsome. }
  rewrite E'. exists b, w', (if b then rm_map st else m). split; [done|]. split; [rewrite Hf; destruct b; [|done]|split; [done|split; [done|]]].
  - apply map_saved; [by rewrite (mv_size _ _ _ _ Hmv)|done|done].
  - intros ->. cbv zeta. rewrite <- Hm. split; [done|]. split; [intros s Hs; by apply Hb2, Hin|]. intros Hpush. specialize (Hpl eq_refl Hpush). split; [done|].
    intros s n d Hs En' Hd. destruct (Hpl s n En') as [Hd' _]. destruct (Hd' d Hd) as (v & _ & Ev). apply vget_Ret in Ev as [_ Ev%list_elem_of_lookup_2].
    rewrite Forall_forall in Hall. by apply Hall, Hoth in Ev as [_ Ev].
Qed.
End Documents.

(** ** An example: nodes that are lists of documents *)
Section Example.
Definition ex_docid (d : string * string) : option string := Some d.1.
Definition ex_max (n : list (string * string)) : Z := vsize n.
Definition ex_get (n : list (string * string)) (i : Z) : option (string * string) := n !! Z.to_nat (i - 1).
Definition ex_delete (n ds : list (string * string)) : list (string * string) := filter (fun d => ~ (d.1 ∈ map fst ds)) n.
Definition ex_insert (n ds : list (string * string)) : list (string * string) := ds ++ ex_delete n ds.

Lemma ex_holds n d : holds ex_max ex_get n d <-> d ∈ n.
Proof.
  unfold holds, ex_max, ex_get. rewrite list_elem_of_lookup. split; [intros (i & _ & E); by eexists|]. intros (i & E).
  pose proof (lookup_lt_Some _ _ _ E). exists (Z.of_nat i + 1). split; [unfold vsize; lia|]. by replace (Z.to_nat (Z.of_nat i + 1 - 1)) with i by lia.
Qed.

Lemma ex_delete_law n ds d : holds ex_max ex_get (ex_delete n ds) d <-> holds ex_max ex_get n d /\ forall x, x ∈ ds -> ex_docid x <> ex_docid d.
Proof.
  rewrite !ex_holds. unfold ex_delete, ex_docid. rewrite list_elem_of_filter, list_elem_of_fmap. split.
  - intros [Hno Hd]. split; [done|]. intros x Hx [= Es]. apply Hno. by exists x.
  - intros [Hd Hno]. split; [|done]. intros (x & Es & Hx). apply (Hno x Hx). by rewrite Es.
Qed.

Lemma ex_insert_law n ds d : (forall x y, x ∈ ds -> y ∈ ds -> ex_docid x = ex_docid y -> x = y) ->
  holds ex_max ex_get (ex_insert n ds) d <-> d ∈ ds \/ (holds ex_max ex_get n d /\ forall x, x ∈ ds -> ex_docid x <> ex_docid d).
Proof. intros _. rewrite <- ex_delete_law, !ex_holds. apply elem_of_app. Qed.

Lemma ex_convert uid h : convertUniqueIDForSharding uid = Ret h -> vnode_of uid (h mod MAX_MAP_SIZE).
Proof. intros E. by exists h. Qed.

(** All nodes at work, each at the address that is its number. *)
Definition ex_cluster : Cluster (Doc := string * string) := {|
  getShardNodeIP s := if s =? 3 then "3"%string else if s =? 5 then "5"%string else ""%string;
  local_ip := "3"%string;
  shard_at ip := if String.eqb ip "3"%string then Some 3 else if String.eqb ip "5"%string then Some 5 else None;
  fate _ := None;
  arrival l := l;
  begin_migrate := true;
  migrate_ready := true;
  new_nodes_started := true;
  push_insert _ := true;
  push_delete _ := true
|}.
Definition ex_service (l : list Z) : Service := Build_Service true l (Some (MkShardingConfig l "DOCID"%string)).
Definition ex_world (n3 n5 : list (string * string)) (file : option (list ascii)) : World := Build_World {[3 := n3; 5 := n5]} file None.

Lemma ex_well removing : all_well ex_cluster removing.
Proof. by split. Qed.

Lemma ex_service_ok l : Forall id_ok l -> NoDup l -> service_ok (ex_service l) l.
Proof. intros Hid Hnd. split; [done|done| |done|done]. by eexists. Qed.

Lemma ex_cluster_ok n3 n5 file m : Forall (fun s => s ∈ [3; 5]) m -> cluster_ok ex_cluster (ex_world n3 n5 file) m.
Proof.
  intros Hm. split; [|done|done]. intros s Hs. rewrite Forall_forall in Hm. apply Hm in Hs. apply elem_of_cons in Hs as [->|Hs]; [by split_and!|].
  apply list_elem_of_singleton in Hs as ->. by split_and!.
Qed.

Lemma ex_placed n3 n5 file m : (forall d, d ∈ n3 -> exists v, doc_vnode ex_docid d v /\ vget m v = Ret 3) -> (forall d, d ∈ n5 -> exists v, doc_vnode ex_docid d v /\ vget m v = Ret 5) ->
  NoDup (map fst n3) -> NoDup (map fst n5) -> placed ex_max ex_get ex_docid (nodes (ex_world n3 n5 file)) m.
Proof.
  intros H3 H5 Hn3 Hn5.
  assert (forall n : list (string * string), NoDup (map fst n) -> forall d d', holds ex_max ex_get n d -> holds ex_max ex_get n d' -> ex_docid d = ex_docid d' -> d = d') as Hone.
  { intros n Hn d d' Hd%ex_holds Hd'%ex_holds [= E]. apply list_elem_of_lookup in Hd as (i & Ei), Hd' as (j & Ej).
    assert (i = j) as ->; [|congruence]. apply (NoDup_lookup (map fst n) i j d.1); [done| |]; rewrite list_lookup_fmap; [by rewrite Ei|by rewrite Ej, E]. }
  intros s n Hs. unfold ex_world in Hs. cbn [nodes] in Hs. apply lookup_insert_Some in Hs as [[<- <-]|[_ Hs]].
  - split; [|by apply Hone]. intros d Hd%ex_holds. by apply H3.
  - apply lookup_singleton_Some in Hs as [<- <-]. split; [|by apply Hone]. intros d Hd%ex_holds. by apply H5.
Qed.

Lemma vnode_doc uid text h : convertUniqueIDForSharding uid = Ret h -> doc_vnode ex_docid (uid, text) (h mod MAX_MAP_SIZE).
Proof. intros E. exists uid. split; [done|]. by exists h. Qed.

(** The maps of one shard without a file, and of more shards. *)
Lemma one_shard s : id_ok s -> exists m, map_of [s] None m /\ forall v, 0 <= v < MAX_MAP_SIZE -> vget m v = Ret s.
Proof.
  assert (forall n, 0 <= n -> vsize (vresize n s []) = n /\ Forall (fun x => x ∈ [s]) (vresize n s []) /\ forall v, 0 <= v < n -> vget (vresize n s []) v = Ret s) as Hn.
  { intros n Hn. unfold vresize. rewrite take_nil, app_nil_l. cbn [length]. rewrite Nat.sub_0_r. split; [unfold vsize; rewrite length_replicate; lia|]. split.
    - apply Forall_forall. intros x [-> _]%elem_of_replicate. by left.
    - intros v Hv. apply vget_Ret. split; [lia|]. apply lookup_replicate_2. lia. }
  intros Hs. destruct (Hn MAX_MAP_SIZE ltac:(done)) as (Hsz & Hall & Hget). exists (vresize MAX_MAP_SIZE s []). split; [|exact Hget].
  split; [split; [exact Hsz|exact Hall]|]. right. exists s. repeat split.
Qed.

Lemma two_shards l : 1 < vsize l -> Forall id_ok l -> NoDup l -> exists m, map_of l (saveShardingMapToFile None m) m /\ (forall s, s ∈ l -> s ∈ m) /\
  forall v s, 0 <= v < MAX_MAP_SIZE -> l !! Z.to_nat (v mod vsize l) = Some s -> vget m v = Ret s.
Proof.
  intros Hl Hid Hnd. exists (turns l). assert (forall v s, 0 <= v < MAX_MAP_SIZE -> l !! Z.to_nat (v mod vsize l) = Some s -> vget (turns l) v = Ret s) as Hget.
  { intros v s Hv E. apply vget_Ret. split; [lia|]. unfold turns. rewrite list_lookup_fmap, lookup_seqZ_lt by lia. cbn [fmap option_fmap option_map]. by rewrite Z.add_0_l, Z2Nat.id, E by lia. }
  split; [|split; [|exact Hget]].
  - apply map_saved; [apply vsize_turns| |done]. apply Forall_forall. intros s. by apply turns_elem.
  - intros s (j & Ej)%list_elem_of_lookup. pose proof (lookup_lt_Some _ _ _ Ej) as Hj. pose proof (ids_few l Hnd Hid) as Hf. unfold vsize in Hf.
    assert (vget (turns l) (Z.of_nat j) = Ret s) as E%vget_Ret; [|destruct E as [_ E]; by eapply list_elem_of_lookup_2].
    apply Hget; [unfold MAX_MAP_SIZE; lia|]. by rewrite Z.mod_small, Nat2Z.id by (unfold vsize; lia).
Qed.

(** The second shard joins the first. *)
Lemma adding_shards_keeps_documents_witness : let w := ex_world [("17", "a"); ("70000", "b")]%string [] None in
  exists w' m', addNewShardingNodes ex_max ex_get ex_docid ex_insert ex_delete ex_cluster (ex_service [3]) [5] w = Ret (true, w') /\
    found_at ex_max ex_get ex_docid (nodes w') m' ("70000", "b")%string /\ placed ex_max ex_get ex_docid (nodes w') m' /\ 32766 <= held_by 5 m' <= 32767.
Proof.
  intros w. destruct (one_shard 3 ltac:(done)) as (m & Hm & Hget).
  assert (convertUniqueIDForSharding "17" = Ret 17 /\ convertUniqueIDForSharding "70000" = Ret 70000) as [H1 H2] by (split; clear; by vm_compute).
  pose proof (vnode_doc _ "a" _ H1) as D1. pose proof (vnode_doc _ "b" _ H2) as D2. replace (17 mod MAX_MAP_SIZE) with 17 in D1 by (clear; by vm_compute). replace (70000 mod MAX_MAP_SIZE) with 4465 in D2 by (clear; by vm_compute).
  assert (placed ex_max ex_get ex_docid (nodes w) m) as Hp.
  { apply ex_placed; [|intros d Hd; by apply elem_of_nil in Hd|by apply (bool_decide_unpack _); vm_compute|by apply (bool_decide_unpack _); vm_compute].
    intros d [->|[->|Hd%elem_of_nil]%elem_of_cons]%elem_of_cons; [| |done]; eexists; (split; [eassumption|apply Hget; unfold MAX_MAP_SIZE; lia]). }
  destruct (adding_shards_keeps_documents ex_max ex_get ex_docid ex_insert ex_delete ex_insert_law ex_delete_law (ex_service [3]) ex_cluster w [3] [5] m)
    as (b & w' & m' & E & _ & Hf & Hwell & Hb).
  - apply ex_service_ok; [by repeat constructor|by apply (bool_decide_unpack _); vm_compute].
  - clear; done.
  - by apply (bool_decide_unpack _); vm_compute.
  - by repeat constructor.
  - intros s ->%list_elem_of_singleton Hs%list_elem_of_singleton. discriminate Hs.
  - exact Hm.
  - apply ex_cluster_ok. destruct Hm as [[_ Hm] _]. eapply Forall_impl; [exact Hm|]. intros s Hs. apply elem_of_cons in Hs as [->|Hs%elem_of_nil]; [by left|done].
  - intros t ->%list_elem_of_singleton. by eexists.
  - exact Hp.
  - specialize (Hwell eq_refl (ex_well false)). subst b. destruct (Hb eq_refl) as (Hn & _ & Hpl). exists w', m'. split; [exact E|]. split; [|split; [by apply Hpl|]].
    + apply Hf. exists 3, [("17", "a"); ("70000", "b")]%string. split; [reflexivity|]. apply ex_holds. right. by left.
    + specialize (Hn 5 ltac:(by left)). change (vsize [3] + vsize [5]) with 2 in Hn. change (vsize [3]) with 1 in Hn. replace (MAX_MAP_SIZE / 2) with 32767 in Hn by (clear; by vm_compute). exact Hn.
Defined.

(** The second of two shards leaves. *)
Lemma removing_shards_keeps_documents_witness : exists m w' m', let w := ex_world [("18", "a")]%string [("17", "b")]%string (saveShardingMapToFile None m) in
  removeShardingNodes ex_max ex_get ex_docid ex_insert ex_delete ex_cluster (ex_service [3; 5]) [5] w = Ret (true, w') /\
  found_at ex_max ex_get ex_docid (nodes w') m' ("17", "b")%string /\ held_by 5 m' = 0 /\ forall n, nodes w' !! 5 = Some n -> ~ holds ex_max ex_get n ("17", "b")%string.
Proof.
  destruct (two_shards [3; 5]) as (m & Hm & Hsome & Hget); [by vm_compute|by repeat constructor|by apply (bool_decide_unpack _); vm_compute|]. exists m.
  assert (convertUniqueIDForSharding "18" = Ret 18 /\ convertUniqueIDForSharding "17" = Ret 17) as [H1 H2] by (split; clear; by vm_compute).
  pose proof (vnode_doc _ "a" _ H1) as D1. pose proof (vnode_doc _ "b" _ H2) as D2. replace (18 mod MAX_MAP_SIZE) with 18 in D1 by (clear; by vm_compute). replace (17 mod MAX_MAP_SIZE) with 17 in D2 by (clear; by vm_compute).
  set (w := ex_world [("18", "a")]%string [("17", "b")]%string (saveShardingMapToFile None m)).
  assert (placed ex_max ex_get ex_docid (nodes w) m) as Hp.
  { apply ex_placed; [| |by apply (bool_decide_unpack _); vm_compute|by apply (bool_decide_unpack _); vm_compute];
      intros d [->|Hd%elem_of_nil]%elem_of_cons; (done || (eexists; split; [eassumption|apply Hget; [unfold MAX_MAP_SIZE; lia|reflexivity]])). }
  destruct (removing_shards_keeps_documents ex_max ex_get ex_docid ex_insert ex_delete ex_insert_law ex_delete_law (ex_service [3; 5]) ex_cluster w [3; 5] [5] m)
    as (b & w' & m' & E & _ & Hf & Hwell & Hb).
  - apply ex_service_ok; [by repeat constructor|by apply (bool_decide_unpack _); vm_compute].
  - clear; done.
  - by apply (bool_decide_unpack _); vm_compute.
  - intros s ->%list_elem_of_singleton. right. by left.
  - clear; by vm_compute.
  - exact Hm.
  - exact Hsome.
  - apply ex_cluster_ok. by destruct Hm as [[_ Hm] _].
  - exact Hp.
  - specialize (Hwell eq_refl (ex_well true)). subst b. destruct (Hb eq_refl) as (Hz & _ & Hpl). destruct Hpl as [_ Hempty]; [done|]. exists w', m'. split; [exact E|]. split; [|split].
    + apply Hf. exists 5, [("17", "b")]%string. split; [reflexivity|]. apply ex_holds. by left.
    + apply Hz. by left.
    + intros n En. apply (Hempty 5 n); [by left|exact En].
Defined.

(** A node that refuses the request is not waited for: shard 5 keeps its document,
    though the migration succeeds and the new map sends the key to shard 3. *)
Definition refusing_cluster : Cluster (Doc := string * string) := {|
  getShardNodeIP := getShardNodeIP ex_cluster;
  local_ip := local_ip ex_cluster;
  shard_at := shard_at ex_cluster;
  fate ip := if String.eqb ip "5"%string then Some Refused else None;
  arrival l := l;
  begin_migrate := true;
  migrate_ready := true;
  new_nodes_started := true;
  push_insert _ := true;
  push_delete _ := true
|}.

Example refused_left_behind : let m := replicate 20 3 in let w := ex_world [] [("17", "a")]%string None in
  exists w', doMigrateWork ex_max ex_get ex_docid ex_insert ex_delete refusing_cluster [5] false [(17, (5, 3))] [3] m w = Ret (true, w') /\
    nodes w' = nodes w /\ map_file w' = saveShardingMapToFile None m /\ ~ found_at ex_max ex_get ex_docid (nodes w') m ("17", "a")%string.
Proof.
  intros m w. eexists. split; [vm_compute; reflexivity|]. split; [by vm_compute|]. split; [by vm_compute|].
  intros (v & s & n & _ & [_ Ev]%vget_Ret & En & Hd%ex_holds). apply list_elem_of_lookup_2, elem_of_replicate in Ev as [-> _].
  vm_compute in En. injection En as <-. by apply elem_of_nil in Hd.
Qed.
End Example.
